(* ===== verification/_CoqProject ===== *)
-Q . S2P
Prelude.v
Cbor.v
CborFacts.v
Sha256.v
Paths.v
TextFacts.v
PatchOverlay.v
OverlayFacts.v
SourceRows.v
SourceRowsFacts.v
BuilderErrors.v
Gzip.v
HuffmanFacts.v
GzipFacts.v
Tar.v
TarFacts.v
Directory.v
DirectoryFacts.v
Supervisor.v
SupervisorFacts.v
CaptureFacts.v
Sha512.v
Schema.v
Numbers.v
P2Specs.v
P2Validators.v
P2Policies.v
P2Capture.v
SchemaFacts.v
P2Safety.v
P2Facts.v
P2Rules.v
P2Corpus.v
P2CorpusFacts.v
Native.v
Deployment.v
Evidence.v
Boundary.v
Registry.v
NativeFacts.v
BoundaryFacts.v
EvidenceFacts.v
TopologyFacts.v
RegistryFacts.v
P2Registry.v
P2RegistryFacts.v
Resolver.v
ResolverFacts.v
AuditPlan.v
AuditFacts.v
GuestResult.v
GuestResultFacts.v
Launch.v
LaunchFacts.v
Landlock.v
LandlockFacts.v
World.v
Probe.v
ProbeFacts.v
Transport.v
TransportFacts.v
Libc.v
LinuxFiles.v
LinuxFacts.v
Seccomp.v
SeccompFacts.v
Shim.v
Cell.v
ShimFacts.v
CellFacts.v
Sandbox.v
SandboxFacts.v
Programs.v
ProgramsFacts.v
Appraise.v
AppraiseFacts.v
Fixture.v
FixtureFacts.v
