(* ===== verification/Prelude.v ===== *)
(** * Keep: the first-party native code and what makes it correct

    Keep is a TypeScript product with a native part in Rust under
    [src/native/crates/].  This development models that native part and proves
    what it promises.  The programs are:
    - [protocol]: the canonical CBOR codec, SHA-256 and SHA-512, the schemas and
      validators of the P2 documents, the native boundary documents, the patch
      overlay and its application, and the capture of patch sources from a
      directory, a tar archive or a gzip stream;
    - [linux-abi]: files by descriptor, sealed memory, Landlock, the system call
      filter, kernel randomness;
    - [p2-d2-supervisor]: the answer to a patch capture, the sandbox of a build
      and the cell that runs inside it; [p2-d2-evidence]: audit plans;
    - [production-resolver]: the observation of a deployment under pinned roots;
    - [prober-launcher] and [prober-vmm-shim]: the construction, the confinement,
      the supervision and the appraisal of a candidate machine;
    - [transport]: one refusal exchanged over a local socket.

    They meet in documents and in descriptors.  A document is bytes that
    [Cbor.decode_canonical] accepts and a validator then reads; a digest of it is
    [Sha256] or [Sha512] over a domain and those bytes; a file is a pinned
    descriptor of [LinuxFiles], whose captured bytes are compared with a digest
    before they are used.

    ** What models what

    - Generic: [Prelude] (this file: results, lists, bytes, text, sorting),
      [World] (fallible computations on an explicit world, traces), [Numbers],
      [Paths], [TextFacts].
    - [protocol/src/lib.rs]: [Cbor], [Sha256], [Native] (helpers of the
      validators), [Deployment], [Evidence], [Boundary] (the wire and the
      dispatch), [Registry] (digest paths).
    - [protocol/src/p2_schema.rs] and [p2_schema_specs.rs]: [Schema] (the
      language and its interpreter), [P2Specs] (the tables), [P2Validators] and
      [P2Policies] (the checks beyond the tables), [P2Capture] (capture,
      signature preimages), [P2Corpus] (the description of the tables and the
      smallest documents), [P2Registry] (the graph of digests), [Sha512].
    - [protocol/src/p2_d2.rs]: [PatchOverlay].  [protocol/src/patch_capture.rs]:
      [SourceRows], [Tar].  [protocol/src/gzip.rs]: [Gzip].
    - [linux-abi/src/lib.rs]: [LinuxFiles], [Landlock], [Seccomp], the rulesets
      in [Shim]; [Libc] has the numbers of the vendored [libc].
    - [p2-d2-supervisor]: [Directory] and [Supervisor] ([lib.rs]), [Sandbox]
      ([supervisor.rs]), [Cell] ([main.rs]).  [p2-d2-evidence]: [AuditPlan].
    - [production-resolver/src/lib.rs]: [Resolver].
    - [prober-launcher/src/lib.rs]: [GuestResult] (the frame of the guest),
      [Launch] (deadline, lifecycle, supervision of a process), [Probe] (leases,
      the end of a launch), [Fixture] (construction), [Appraise] (the launch up
      to there).  [prober-vmm-shim]: [Shim], and the handoff in [Launch].
    - [transport/src/lib.rs]: [Transport].  The programs around libraries,
      [p2-d2-supervisor/src/bin/] and [transport/src/bin/]: [Programs].

    Operations and state keep the names of the code; each file [X] has its
    theorems in [XFacts], and where they are many in further files that say so.
    A method that changes a field returns the new record; a method that can fail
    returns [result]; a [panic!], a failing [expect], an index out of range or an
    unchecked overflow is the error [Panic], so that its absence is a theorem.
    Calls to the system are classes on a world [W] that every call may change:
    the guards, loops and orders around them are the code's.  These are
    [PinnedDirectory], [MountRoots], [Sealing] (what the walk and the resolver
    ask of a directory), [Kernel] (system calls on descriptors), [LeaseHost],
    [Clock], [DirectProcess], [Jail], [LaunchHost], [FixtureHost] (the launcher),
    [Sockets] and [PackageHost] (the transport), [SeccompHost], [ShimHost],
    [CellHost], [SandboxHost].  [LinuxFiles] implements the first three over [Kernel], and
    [LinuxFacts] proves the laws that their clients assume.  Laws of the system
    are separate classes, each with a small concrete system as an instance:
    [StaticFiles], [DotEntries], [MemoryFiles], [Evolution], [HostEvolution],
    [ClockLaws], [DirectProcessLaws], [JailLaws], [SocketLaws], [PackageLaws],
    [ShimRecord], [CellRecord], [ClassicBpf].

    ** What the theorems show

    - Codecs: decoding accepts exactly the encodings, encoding is total within its
      bounds; the streaming hash is the one-shot hash; gzip and tar are equivalent
      to descriptions of their formats over plain lists.
    - Patches: an admitted overlay and its bytes determine each other; applying it
      changes exactly the named paths; the rows captured from a directory are
      those of its tree, whatever the order of discovery; the capture program
      answers exactly the frames that are accepted requests, each by one complete
      response.
    - Documents: the interpreter decides the schema relation; captured documents
      obey their special rules and never panic; every schema has a document and
      the description determines the tables; digests and signatures of different
      kinds are over different bytes; the digest graphs are acyclic; deployments
      are closed graphs and evidence agrees with itself.
    - Observation: what the resolver returns was under the pinned roots, with the
      digests that the plan names.
    - Transport: the helper answers one expected peer with the refusal of its
      packet; the client asks only the executable that its own package names.
    - Confinement: the machine monitor and Cargo start only in processes that have
      restricted themselves; the filter program computes its stated policy on every
      call; bubblewrap receives the reviewed arguments, with sources pinned and
      snapshots sealed; a launch that succeeds was leased, measured, appraised and
      left nothing behind.
    - Termination: the walk, the gzip decoder, the supervision of processes and
      the loops over descriptors end.

    ** Fuel and bounds

    A loop that is not structural carries fuel, and [OutOfFuel] is shown not to be
    the result: the decoder of CBOR one level per nesting level and 33 levels of
    values, the decimal text of a number 20 digits and hexadecimal 16, gzip as many
    turns as input bits, inventories the bound of entries and four more turns,
    streamed reads the bound of bytes and two more, supervision 24,002 turns of
    5 ms for the 120 seconds of a launch, the parents of a destination its length,
    the bindings of the sandbox the number of its arguments.  The comparison of a
    staged copy, the randomness of the kernel and the reading of a socket take
    their fuel as a parameter, and theorems on them say how much is enough or speak
    of what is returned.

    ** Not modelled

    The TypeScript product and its tests; the vendored crates, apart from the
    numbers in [Libc] (the elliptic curves of [p2-crypto-candidate] are calls of
    them); the test oracles and probes [main.rs] of [protocol],
    [production-resolver], [p2-d2-evidence] and [prober-launcher], which read
    lines or arguments and print what a modelled operation returns; the client
    of a debug build, which measures the other end itself; the exercises of [prober-launcher], which run the
    modelled launch and look for its refusal; the wiping of memory ([zeroize]) and
    the raw system calls, which are the operations of the interfaces;
    [probe_seqpacket_peer], a self-test of the kernel. *)

From Stdlib Require Export ZArith Lia.
From Stdlib Require Export Strings.Byte.
From Stdlib Require Import Ascii String.
From stdpp Require Export base list gmap sets strings sorting.

#[global] Open Scope Z_scope.

(** ** Fallible computations

    [Result<A, E>] of the code.  A [panic!]/[expect] of the code is modelled by
    [option] (or an explicit error), never by a default value. *)
Inductive result (E A : Type) : Type :=
| Ok (a : A)
| Err (e : E).
Arguments Ok {E A} a.
Arguments Err {E A} e.

Definition res_bind {E A B : Type} (m : result E A) (f : A -> result E B) : result E B :=
  match m with
  | Ok a => f a
  | Err e => Err e
  end.

(** [Result::map_err] *)
Definition map_err {E F A : Type} (f : E -> F) (m : result E A) : result F A :=
  match m with
  | Ok a => Ok a
  | Err e => Err (f e)
  end.

(** [Option::ok_or] *)
Definition ok_or {E A : Type} (o : option A) (e : E) : result E A :=
  match o with
  | Some a => Ok a
  | None => Err e
  end.

Definition is_ok {E A : Type} (m : result E A) : bool :=
  match m with Ok _ => true | Err _ => false end.

(** An operation that may also panic: [Error] carries the code's own error.
    [OutOfFuel] is the model's: a loop whose budget was too small. *)
Inductive failure (E : Type) : Type :=
| Error (e : E)
| Panic
| OutOfFuel.
Arguments Error {E} e.
Arguments Panic {E}.
Arguments OutOfFuel {E}.

Declare Scope result_scope.
Delimit Scope result_scope with res.

(** [let? x := e in k] is [let x = e?; k]; [throw_if b e k] is
    [if b { return Err(e); } k]. *)
Notation "'let?' x ':=' e 'in' k" := (res_bind e (fun x => k))
  (at level 10, x pattern, e at level 100, k at level 200,
   format "'[v' 'let?'  x  ':='  e  'in' '/' k ']'") : result_scope.
Notation "'throw_if' b 'with' e ';;' k" := (if b then Err e else k)
  (at level 10, b at level 99, e at level 99, k at level 200,
   format "'[v' 'throw_if'  b  'with'  e  ';;' '/' k ']'") : result_scope.
#[global] Open Scope result_scope.

(** [iter().map(f).collect::<Result<Vec<_>, _>>()] *)
Fixpoint res_map {E A B : Type} (f : A -> result E B) (l : list A) : result E (list B) :=
  match l with
  | [] => Ok []
  | a :: l => let? b := f a in let? bs := res_map f l in Ok (b :: bs)
  end.

(** [for a in l { s = f(s, a)?; }] *)
Fixpoint res_fold {E A S : Type} (f : S -> A -> result E S) (l : list A) (s : S) : result E S :=
  match l with
  | [] => Ok s
  | a :: l => let? s := f s a in res_fold f l s
  end.

(** The kernel unfolds the operations of a component before these. *)
#[global] Strategy 1000 [res_bind map_err ok_or res_map res_fold].

(** ** Machine integers

    The target is 64-bit Linux: [usize] and [u64] have the same range. *)
Definition u8_max : Z := 255.
Definition u16_max : Z := 65535.
Definition u32_max : Z := 4294967295.
Definition u64_max : Z := 18446744073709551615.

Definition in_u64 (n : Z) : Prop := 0 <= n <= u64_max.

Definition checked_add (a b : Z) : option Z :=
  if a + b <=? u64_max then Some (a + b) else None.
Definition checked_mul (a b : Z) : option Z :=
  if a * b <=? u64_max then Some (a * b) else None.
Definition saturating_mul (a b : Z) : Z := Z.min (a * b) u64_max.
Definition wrapping_add32 (a b : Z) : Z := (a + b) mod 2 ^ 32.

(** ** Bytes *)
#[global] Instance byte_eq_dec : EqDecision byte := Byte.byte_eq_dec.

Definition bZ (b : byte) : Z := Z.of_N (Byte.to_N b).

(** [z as u8] *)
Definition byte_of_Z (z : Z) : byte :=
  match Byte.of_N (Z.to_N (z mod 256)) with
  | Some b => b
  | None => x00
  end.

Definition len {A : Type} (l : list A) : Z := Z.of_nat (length l).

(** [bytes.get(a..b)] *)
Definition get_range {A : Type} (l : list A) (a b : Z) : option (list A) :=
  if (0 <=? a) && (a <=? b) && (b <=? len l)
  then Some (take (Z.to_nat (b - a)) (drop (Z.to_nat a) l))
  else None.

(** [to_be_bytes]/[from_be_bytes] at [n] bytes, and the little-endian forms. *)
Fixpoint be_bytes (n : nat) (z : Z) : list byte :=
  match n with
  | O => []
  | S n => byte_of_Z (Z.shiftr z (8 * Z.of_nat n)) :: be_bytes n z
  end.
Fixpoint be_value (bs : list byte) : Z :=
  match bs with
  | [] => 0
  | b :: bs => bZ b * 2 ^ (8 * len bs) + be_value bs
  end.
Definition le_bytes (n : nat) (z : Z) : list byte := reverse (be_bytes n z).
Definition le_value (bs : list byte) : Z := be_value (reverse bs).

(** ** Text

    A Rust [String] is its UTF-8 bytes; Rocq's [string] is a list of bytes. *)
Definition str_bytes (s : string) : list byte := String.list_byte_of_string s.
Definition str_of_bytes (bs : list byte) : string := String.string_of_list_byte bs.
Definition slen (s : string) : Z := len (str_bytes s).

Definition is_digit (b : byte) : bool := (48 <=? bZ b) && (bZ b <=? 57).
Definition is_lower (b : byte) : bool := (97 <=? bZ b) && (bZ b <=? 122).
Definition is_upper (b : byte) : bool := (65 <=? bZ b) && (bZ b <=? 90).
(** [u8::is_ascii_alphanumeric] *)
Definition is_alphanumeric (b : byte) : bool := is_digit b || is_lower b || is_upper b.

(** [str::to_ascii_lowercase] *)
Definition lower_byte (b : byte) : byte :=
  if is_upper b then byte_of_Z (bZ b + 32) else b.
Definition to_ascii_lowercase (s : string) : string :=
  str_of_bytes (map lower_byte (str_bytes s)).

(** Lexicographic order on byte slices: [<[u8] as Ord>::cmp], which is also the
    order of [str]. *)
Fixpoint bytes_cmp (l r : list byte) : comparison :=
  match l, r with
  | [], [] => Eq
  | [], _ :: _ => Lt
  | _ :: _, [] => Gt
  | a :: l, b :: r =>
      match Z.compare (bZ a) (bZ b) with
      | Eq => bytes_cmp l r
      | c => c
      end
  end.
Definition is_lt (c : comparison) : bool := match c with Lt => true | _ => false end.
Definition is_le (c : comparison) : bool := match c with Gt => false | _ => true end.
Definition str_cmp (s t : string) : comparison := bytes_cmp (str_bytes s) (str_bytes t).
Definition str_ltb (s t : string) : bool := is_lt (str_cmp s t).

(** [Vec::sort_by] is stable: equal elements keep their order. *)
Fixpoint insert_by {A : Type} (cmp : A -> A -> comparison) (x : A) (l : list A) : list A :=
  match l with
  | [] => [x]
  | y :: l => if is_le (cmp x y) then x :: y :: l else y :: insert_by cmp x l
  end.
Fixpoint sort_by {A : Type} (cmp : A -> A -> comparison) (l : list A) : list A :=
  match l with
  | [] => []
  | x :: l => insert_by cmp x (sort_by cmp l)
  end.

(** [l.windows(2).any(|pair| f(pair[0], pair[1]))] *)
Fixpoint windows2_any {A : Type} (f : A -> A -> bool) (l : list A) : bool :=
  match l with
  | x :: ((y :: _) as l') => f x y || windows2_any f l'
  | _ => false
  end.

(** [s.starts_with(p)] / [s.strip_prefix(p)] *)
Fixpoint strip_prefix_bytes (p l : list byte) : option (list byte) :=
  match p, l with
  | [], _ => Some l
  | a :: p, b :: l => if bool_decide (a = b) then strip_prefix_bytes p l else None
  | _ :: _, [] => None
  end.
Definition strip_prefix (p s : string) : option string :=
  str_of_bytes <$> strip_prefix_bytes (str_bytes p) (str_bytes s).
Definition starts_with (p s : string) : bool :=
  match strip_prefix p s with Some _ => true | None => false end.

(** [format!("{byte:02x}")] over a slice. *)
Definition hex_digit (n : Z) : byte :=
  if n <? 10 then byte_of_Z (48 + n) else byte_of_Z (87 + n).
Definition hex_bytes (bs : list byte) : list byte :=
  flat_map (fun b => [hex_digit (bZ b / 16); hex_digit (bZ b mod 16)]) bs.
Definition hex (bs : list byte) : string := str_of_bytes (hex_bytes bs).

(** ** Successful runs *)

Lemma bind_ok {E A B} (m : result E A) (f : A -> result E B) b :
  res_bind m f = Ok b <-> exists a, m = Ok a /\ f a = Ok b.
Proof. destruct m; cbn; split; [eauto|by intros (? & [= <-] & ?)|done|by intros (? & ? & ?)]. Qed.

Lemma bind_err {E A B} (m : result E A) (f : A -> result E B) e :
  res_bind m f = Err e <-> m = Err e \/ exists a, m = Ok a /\ f a = Err e.
Proof. destruct m; cbn; naive_solver. Qed.

Lemma guard_ok {E A} (b : bool) (e : E) (m : result E A) r :
  (if b then Err e else m) = Ok r <-> b = false /\ m = Ok r.
Proof. destruct b; naive_solver. Qed.

Lemma check_ok {E A} (b : bool) (e : E) (m : result E A) r :
  (if b then m else Err e) = Ok r <-> b = true /\ m = Ok r.
Proof. destruct b; naive_solver. Qed.

Lemma ok_or_ok {E A} (o : option A) (e : E) a : ok_or o e = Ok a <-> o = Some a.
Proof. destruct o; cbn; naive_solver. Qed.

Lemma map_err_ok {E F A} (f : E -> F) (m : result E A) a : map_err f m = Ok a <-> m = Ok a.
Proof. destruct m; cbn; naive_solver. Qed.

(** [runs m Q]: the computation neither panics nor exhausts its budget, and
    [Q] holds of its result when it has one. *)
Definition runs {E A : Type} (m : result (failure E) A) (Q : A -> Prop) : Prop :=
  match m with
  | Ok a => Q a
  | Err (Error _) => True
  | Err _ => False
  end.

Lemma runs_ok {E A} (m : result (failure E) A) Q a : runs m Q -> m = Ok a -> Q a.
Proof. by intros H ->. Qed.

Lemma runs_not_stuck {E A} (m : result (failure E) A) Q :
  runs m Q -> m <> Err Panic /\ m <> Err OutOfFuel.
Proof. destruct m as [|[]]; done. Qed.

Lemma runs_mono {E A} (m : result (failure E) A) (Q R : A -> Prop) :
  runs m Q -> (forall a, m = Ok a -> Q a -> R a) -> runs m R.
Proof. destruct m as [|[]]; cbn; auto. Qed.

Lemma runs_bind {E A B} (m : result (failure E) A) (f : A -> result (failure E) B) P Q :
  runs m P -> (forall a, m = Ok a -> P a -> runs (f a) Q) -> runs (res_bind m f) Q.
Proof. destruct m as [|[]]; cbn; auto. Qed.

Lemma runs_guard {E A} (b : bool) (e : E) (m : result (failure E) A) Q :
  (b = false -> runs m Q) -> runs (if b then Err (Error e) else m) Q.
Proof. destruct b; cbn; auto. Qed.

Lemma runs_fold {E A S} (f : S -> A -> result (failure E) S) (P : S -> Prop) l s :
  (forall s a, a ∈ l -> P s -> runs (f s a) P) -> P s -> runs (res_fold f l s) P.
Proof.
  revert s. induction l as [|a l IH]; cbn; intros s Hf Hs; [done|].
  apply (runs_bind _ _ P).
  - apply Hf; [left|done].
  - intros s' _ Hs'. apply IH; [|done]. intros. apply Hf; [by right|done].
Qed.

(** ** Tactics *)

(** Invert a successful run: peel binds, guards and options off hypotheses
    of the form [_ = Ok _].  Each step applies a lemma, so that the kernel never
    has to compare two nested binds by unfolding them. *)
Ltac ok_inv_step :=
  match goal with
  | H : Ok _ = Ok _ |- _ => injection H as H; try subst
  | H : Err _ = Ok _ |- _ => discriminate H
  | H : Ok _ = Err _ |- _ => discriminate H
  | H : Some _ = Some _ |- _ => injection H as H; try subst
  | H : None = Some _ |- _ => discriminate H
  | H : (_, _) = (_, _) |- _ => injection H as H; try subst
  | H : ok_or ?o _ = Ok _ |- _ => apply ok_or_ok in H
  | H : map_err _ ?m = Ok _ |- _ => apply map_err_ok in H
  | H : res_bind ?m _ = Ok _ |- _ =>
      let a := fresh "a" in let E := fresh "E" in apply bind_ok in H as (a & E & H)
  | H : (if ?b then Err _ else _) = Ok _ |- _ =>
      let E := fresh "E" in apply guard_ok in H as [E H]
  | H : (if ?b then _ else Err _) = Ok _ |- _ =>
      let E := fresh "E" in apply check_ok in H as [E H]
  | H : (let '(_, _) := ?p in _) = Ok _ |- _ =>
      is_var p; destruct p
  end.
Ltac ok_inv := repeat ok_inv_step.

(** Build a successful run: [ok_bind t] proves the first step with [t], and
    [ok_guard t] that the guard does not fire. *)
Tactic Notation "ok_bind" tactic3(t) :=
  apply bind_ok; eexists; split; [solve [t]|cbv beta iota].
Tactic Notation "ok_guard" tactic3(t) :=
  apply guard_ok; split; [solve [t]|].

(** Turn boolean tests of integers into facts for [lia]. *)
Ltac bool_to_prop :=
  repeat match goal with
  | H : _ && _ = true |- _ => apply andb_true_iff in H; destruct H
  | H : _ || _ = false |- _ => apply orb_false_iff in H; destruct H
  | H : negb _ = true |- _ => apply negb_true_iff in H
  | H : negb _ = false |- _ => apply negb_false_iff in H
  | H : (_ <=? _) = true |- _ => apply Z.leb_le in H
  | H : (_ <=? _) = false |- _ => apply Z.leb_gt in H
  | H : (_ <? _) = true |- _ => apply Z.ltb_lt in H
  | H : (_ <? _) = false |- _ => apply Z.ltb_ge in H
  | H : (_ =? _) = true |- _ => apply Z.eqb_eq in H
  | H : (_ =? _) = false |- _ => apply Z.eqb_neq in H
  | H : bool_decide _ = true |- _ => apply bool_decide_eq_true in H
  | H : bool_decide _ = false |- _ => apply bool_decide_eq_false in H
  end.

(** Linear arithmetic with [/] and [mod] by constants. *)
Ltac zmod := Z.div_mod_to_equations; lia.

(** ** Results *)

Lemma res_map_length {E A B} (f : A -> result E B) l bs :
  res_map f l = Ok bs -> length bs = length l.
Proof.
  revert bs. induction l as [|a l IH]; cbn; intros bs H; ok_inv; [done|].
  cbn. f_equal. by apply IH.
Qed.

Lemma res_map_Forall2 {E A B} (f : A -> result E B) l bs :
  res_map f l = Ok bs <-> Forall2 (fun a b => f a = Ok b) l bs.
Proof.
  revert bs. induction l as [|a l IH]; cbn; intros bs; split; intros H; ok_inv.
  - constructor.
  - by inv H.
  - constructor; [done|]. by apply IH.
  - inv H. by rewrite H2, (proj2 (IH _) H4).
Qed.

Lemma res_fold_app {E A S} (f : S -> A -> result E S) l1 l2 s :
  res_fold f (l1 ++ l2) s = (let? s' := res_fold f l1 s in res_fold f l2 s').
Proof.
  revert s. induction l1 as [|a l1 IH]; cbn; intros s; [done|].
  destruct (f s a); cbn; auto.
Qed.

Lemma res_fold_inv {E A S} (f : S -> A -> result E S) (P : S -> Prop) l s s' :
  (forall s a s', a ∈ l -> P s -> f s a = Ok s' -> P s') ->
  P s -> res_fold f l s = Ok s' -> P s'.
Proof.
  revert s. induction l as [|a l IH]; cbn; intros s Hf Hs H; ok_inv; [done|].
  eapply IH; [|eapply Hf; [left|done|done]|done].
  intros. eapply Hf; [by right|done|done].
Qed.

(** ** Bytes *)

Lemma bZ_range b : 0 <= bZ b < 256.
Proof. unfold bZ. pose proof (Byte.to_N_bounded b). lia. Qed.

Lemma byte_of_bZ b : byte_of_Z (bZ b) = b.
Proof.
  unfold byte_of_Z. rewrite Z.mod_small by apply bZ_range.
  unfold bZ. by rewrite N2Z.id, Byte.of_to_N.
Qed.

Lemma bZ_byte_of z : bZ (byte_of_Z z) = z mod 256.
Proof.
  unfold byte_of_Z. pose proof (Z.mod_pos_bound z 256 eq_refl).
  destruct (Byte.of_N _) as [b|] eqn:E.
  - unfold bZ. apply Byte.to_of_N in E. rewrite E. lia.
  - apply Byte.of_N_None_iff in E. lia.
Qed.

Lemma bZ_inj a b : bZ a = bZ b -> a = b.
Proof. intros H. by rewrite <- (byte_of_bZ a), <- (byte_of_bZ b), H. Qed.

Lemma len_nil {A} : len (@nil A) = 0. Proof. done. Qed.
Lemma len_cons {A} (x : A) l : len (x :: l) = 1 + len l.
Proof. unfold len. cbn [length]. lia. Qed.
Lemma len_app {A} (l k : list A) : len (l ++ k) = len l + len k.
Proof. unfold len. rewrite length_app. lia. Qed.
Lemma len_nonneg {A} (l : list A) : 0 <= len l.
Proof. unfold len. lia. Qed.
Lemma len_map {A B} (f : A -> B) l : len (map f l) = len l.
Proof. unfold len. by rewrite length_map. Qed.
Lemma len_drop {A} (l : list A) n : 0 <= n -> len (drop (Z.to_nat n) l) = Z.max 0 (len l - n).
Proof. unfold len. rewrite length_drop. lia. Qed.
Lemma len_take {A} (l : list A) n : 0 <= n -> len (take (Z.to_nat n) l) = Z.min n (len l).
Proof. unfold len. rewrite length_take. lia. Qed.

Create HintDb keep.
Create Rewrite HintDb keep_len.
#[export] Hint Rewrite @len_nil @len_cons @len_app @len_map : keep_len.
#[export] Hint Resolve bZ_range len_nonneg : keep.

Lemma length_be_bytes n z : length (be_bytes n z) = n.
Proof. induction n; cbn; auto. Qed.

Lemma len_be_bytes n z : len (be_bytes n z) = Z.of_nat n.
Proof. unfold len. by rewrite length_be_bytes. Qed.

Lemma be_value_range bs : 0 <= be_value bs < 2 ^ (8 * len bs).
Proof.
  induction bs as [|b bs IH]; cbn [be_value]; [done|].
  rewrite len_cons. pose proof (bZ_range b). pose proof (len_nonneg bs).
  replace (8 * (1 + len bs)) with (8 + 8 * len bs) by lia.
  rewrite Z.pow_add_r by lia. change (2 ^ 8) with 256. nia.
Qed.

Lemma be_value_bytes n z : be_value (be_bytes n z) = z mod 2 ^ (8 * Z.of_nat n).
Proof.
  induction n as [|n IH]; cbn [be_bytes be_value].
  - by rewrite Z.mod_1_r.
  - rewrite IH, len_be_bytes, bZ_byte_of, Z.shiftr_div_pow2 by lia.
    set (p := 8 * Z.of_nat n).
    replace (8 * Z.of_nat (S n)) with (p + 8) by lia.
    rewrite Z.pow_add_r by lia. change (2 ^ 8) with 256.
    rewrite Z.rem_mul_r by lia. lia.
Qed.

Lemma be_bytes_mod n z k : (n <= k)%nat -> be_bytes n (z mod 2 ^ (8 * Z.of_nat k)) = be_bytes n z.
Proof.
  intros Hk. induction n as [|n IH]; cbn [be_bytes]; [done|].
  rewrite IH by lia. f_equal.
  apply bZ_inj. rewrite !bZ_byte_of, <- !(Z.land_ones _ 8), <- (Z.land_ones z) by lia.
  apply Z.bits_inj'. intros i Hi.
  rewrite !Z.land_spec, !Z.shiftr_spec, Z.land_spec, !Z.testbit_ones_nonneg by lia.
  destruct (Z.ltb_spec i 8); [|by rewrite !andb_false_r].
  rewrite (proj2 (Z.ltb_lt _ _)) by lia. by rewrite !andb_true_r.
Qed.

Lemma be_bytes_value bs : be_bytes (length bs) (be_value bs) = bs.
Proof.
  induction bs as [|b bs IH]; cbn [length be_bytes be_value]; [done|].
  pose proof (be_value_range bs). pose proof (bZ_range b). fold (len bs). f_equal.
  - apply bZ_inj. rewrite bZ_byte_of, Z.shiftr_div_pow2 by (unfold len; lia).
    rewrite Z.div_add_l, (Z.div_small (be_value bs)), Z.add_0_r by lia.
    by apply Z.mod_small.
  - rewrite <- (be_bytes_mod _ _ (length bs)) by lia. fold (len bs).
    rewrite Z.add_comm, Z.mod_add, Z.mod_small by lia. done.
Qed.

Lemma be_bytes_value_len bs n : length bs = n -> be_bytes n (be_value bs) = bs.
Proof. intros <-. apply be_bytes_value. Qed.

(** ** Slices *)

Lemma get_range_Some {A} (l : list A) a b s :
  get_range l a b = Some s <->
  0 <= a <= b /\ b <= len l /\ s = take (Z.to_nat (b - a)) (drop (Z.to_nat a) l).
Proof.
  unfold get_range. destruct (_ && _) eqn:E; bool_to_prop; [|split; [done|]].
  - split; [|intros (_ & _ & ->); done]. intros [= <-]. split_and!; [lia..|done].
  - intros (? & ? & ->). apply andb_false_iff in E as [E|E]; bool_to_prop; [|lia].
    apply andb_false_iff in E as [E|E]; bool_to_prop; lia.
Qed.

Lemma get_range_length {A} (l : list A) a b s :
  get_range l a b = Some s -> len s = b - a.
Proof.
  rewrite get_range_Some. intros (? & ? & ->).
  rewrite len_take, len_drop by lia. lia.
Qed.

(** A slice read at [a] when the input from [a] on starts with [s]. *)
Lemma get_range_prefix {A} (l : list A) a s rest :
  0 <= a -> drop (Z.to_nat a) l = s ++ rest -> a <= len l ->
  get_range l a (a + len s) = Some s.
Proof.
  intros Ha Hd Hl. apply get_range_Some.
  pose proof (len_nonneg s). pose proof (len_nonneg rest).
  assert (len (drop (Z.to_nat a) l) = len s + len rest) as E by (by rewrite Hd, len_app).
  rewrite len_drop in E by lia. split_and!; [lia|lia|lia|].
  rewrite Hd. replace (Z.to_nat (a + len s - a)) with (length s) by (unfold len; lia).
  by rewrite take_app_length.
Qed.

Lemma drop_prefix {A} (l : list A) a s rest :
  0 <= a -> drop (Z.to_nat a) l = s ++ rest -> drop (Z.to_nat (a + len s)) l = rest.
Proof.
  intros Ha Hd. pose proof (len_nonneg s).
  replace (Z.to_nat (a + len s)) with (Z.to_nat a + length s)%nat by (unfold len; lia).
  by rewrite <- drop_drop, Hd, drop_app_length.
Qed.

(** ** Text *)

Lemma str_of_str_bytes s : str_of_bytes (str_bytes s) = s.
Proof. apply String.string_of_list_byte_of_string. Qed.
Lemma str_bytes_of_bytes bs : str_bytes (str_of_bytes bs) = bs.
Proof. apply String.list_byte_of_string_of_list_byte. Qed.
Lemma str_bytes_inj s t : str_bytes s = str_bytes t -> s = t.
Proof. intros H. by rewrite <- (str_of_str_bytes s), <- (str_of_str_bytes t), H. Qed.

#[export] Hint Rewrite str_of_str_bytes str_bytes_of_bytes : keep_len.

(** ** Order of byte strings *)

Lemma bytes_cmp_refl l : bytes_cmp l l = Eq.
Proof. induction l as [|a l IH]; cbn; [done|]. by rewrite Z.compare_refl. Qed.

Lemma bytes_cmp_eq l r : bytes_cmp l r = Eq <-> l = r.
Proof.
  split; [|intros ->; apply bytes_cmp_refl].
  revert r. induction l as [|a l IH]; intros [|b r]; cbn; try done.
  destruct (Z.compare_spec (bZ a) (bZ b)); try done.
  intros H'. f_equal; [by apply bZ_inj|by apply IH].
Qed.

Lemma bytes_cmp_antisym l r : bytes_cmp r l = CompOpp (bytes_cmp l r).
Proof.
  revert r. induction l as [|a l IH]; intros [|b r]; cbn; try done.
  rewrite (Z.compare_antisym (bZ a)). destruct (Z.compare _ _); cbn; auto.
Qed.

Lemma bytes_cmp_lt_trans l m r :
  bytes_cmp l m = Lt -> bytes_cmp m r = Lt -> bytes_cmp l r = Lt.
Proof.
  revert m r. induction l as [|a l IH]; intros [|b m] [|c r]; cbn; try done.
  destruct (Z.compare_spec (bZ a) (bZ b)) as [E1|E1|E1],
           (Z.compare_spec (bZ b) (bZ c)) as [E2|E2|E2],
           (Z.compare_spec (bZ a) (bZ c)) as [E3|E3|E3]; try done; try lia; eauto.
Qed.

(** The laws a comparison function needs for sorting: [Eq] is equality on the
    sort keys, swapping the arguments swaps the answer, and [Lt] composes. *)
Class CmpLaws {A : Type} (cmp : A -> A -> comparison) : Prop := {
  cmp_refl x : cmp x x = Eq;
  cmp_antisym x y : cmp y x = CompOpp (cmp x y);
  cmp_lt_trans x y z : cmp x y = Lt -> cmp y z = Lt -> cmp x z = Lt;
  cmp_eq_lt x y z : cmp x y = Eq -> cmp y z = Lt -> cmp x z = Lt;
  cmp_lt_eq x y z : cmp x y = Lt -> cmp y z = Eq -> cmp x z = Lt
}.

#[export] Instance bytes_cmp_laws : CmpLaws bytes_cmp.
Proof.
  split; eauto using bytes_cmp_refl, bytes_cmp_antisym, bytes_cmp_lt_trans.
  - by intros x y z ->%bytes_cmp_eq.
  - by intros x y z ? <-%bytes_cmp_eq.
Qed.

(** Comparing by a projected key. *)
#[export] Instance cmp_on_laws {A B} (cmp : B -> B -> comparison) (f : A -> B) :
  CmpLaws cmp -> CmpLaws (fun x y => cmp (f x) (f y)).
Proof.
  intros [H1 H2 H3 H4 H5]. split; intros *; [apply H1|apply H2|apply H3|apply H4|apply H5].
Qed.

Lemma windows2_any_cons {A} (f : A -> A -> bool) x y l :
  windows2_any f (x :: y :: l) = f x y || windows2_any f (y :: l).
Proof. done. Qed.

Section sort_by.
Context {A : Type} (cmp : A -> A -> comparison) `{!CmpLaws cmp}.

Definition cmp_lt (x y : A) : Prop := cmp x y = Lt.

#[export] Instance cmp_lt_trans_inst : Transitive cmp_lt.
Proof. intros x y z. apply cmp_lt_trans. Qed.

Lemma insert_by_perm x l : insert_by cmp x l ≡ₚ x :: l.
Proof.
  induction l as [|y l IH]; cbn; [done|].
  destruct (is_le _); [done|]. rewrite IH. apply Permutation_swap.
Qed.

Lemma sort_by_perm l : sort_by cmp l ≡ₚ l.
Proof. induction l as [|x l IH]; cbn; [done|]. by rewrite insert_by_perm, IH. Qed.

Lemma sort_by_length l : length (sort_by cmp l) = length l.
Proof. by rewrite sort_by_perm. Qed.

(** Sorting a list without equal keys orders it strictly. *)
Lemma insert_by_sorted x l :
  Forall (fun y => cmp x y <> Eq) l -> StronglySorted cmp_lt l ->
  StronglySorted cmp_lt (insert_by cmp x l).
Proof.
  induction l as [|y l IH]; cbn; intros Hx Hs; [repeat constructor|].
  apply StronglySorted_cons in Hs as [Hy Hs]. inv Hx.
  destruct (cmp x y) eqn:E; cbn; [done| |].
  - constructor; [by constructor|]. constructor; [done|].
    eapply Forall_impl; [exact Hy|]. intros z. by apply cmp_lt_trans.
  - constructor; [by apply IH|]. rewrite insert_by_perm. constructor; [|done].
    unfold cmp_lt. by rewrite cmp_antisym, E.
Qed.

Lemma sort_by_sorted l :
  (forall x y l1 l2, l = l1 ++ x :: l2 -> y ∈ l2 -> cmp x y <> Eq) ->
  StronglySorted cmp_lt (sort_by cmp l).
Proof.
  induction l as [|x l IH]; cbn; intros Hne; [constructor|].
  apply insert_by_sorted.
  - rewrite sort_by_perm. apply Forall_forall. intros y Hy. by apply (Hne x y [] l).
  - apply IH. intros x' y' l1 l2 -> Hy'. by apply (Hne x' y' (x :: l1) l2).
Qed.

Lemma sort_by_sorted_id l : StronglySorted cmp_lt l -> sort_by cmp l = l.
Proof.
  induction 1 as [|x l Hs IH Hx]; cbn; [done|]. rewrite IH.
  destruct l as [|y l]; cbn; [done|]. inv Hx. unfold cmp_lt in H1. by rewrite H1.
Qed.

(** Two strictly sorted permutations are equal. *)
Lemma sorted_perm_unique l k :
  StronglySorted cmp_lt l -> StronglySorted cmp_lt k -> l ≡ₚ k -> l = k.
Proof.
  intros Hl Hk Hp. eapply StronglySorted_unique_strong; [|exact Hl|exact Hk|exact Hp].
  intros x y _ _ Hxy Hyx. unfold cmp_lt in *.
  rewrite cmp_antisym, Hxy in Hyx. done.
Qed.

Lemma windows2_sorted (f : A -> A -> bool) l :
  (forall x y, f x y = false <-> cmp x y = Lt) ->
  windows2_any f l = false <-> StronglySorted cmp_lt l.
Proof.
  intros Hf. induction l as [|x [|y l] IH].
  - split; [constructor|done].
  - split; [repeat constructor|done].
  - rewrite windows2_any_cons, orb_false_iff, Hf. split.
    + intros [Hxy H]. apply IH in H. constructor; [done|].
      pose proof H as [Hy _]%StronglySorted_cons. constructor; [done|].
      eapply Forall_impl; [exact Hy|]. intros z. by apply cmp_lt_trans.
    + intros [Hx H]%StronglySorted_cons. inv Hx. split; [done|]. by apply IH.
Qed.

Definition cmp_le (x y : A) : Prop := cmp x y <> Gt.

Lemma insert_by_le x l : Sorted cmp_le l -> Sorted cmp_le (insert_by cmp x l).
Proof.
  induction 1 as [|y l Hs IH Hy]; cbn; [repeat constructor|].
  destruct (cmp x y) eqn:E; cbn.
  1,2: constructor; [by constructor|constructor; unfold cmp_le; congruence].
  constructor; [done|].
  assert (cmp_le y x) by (unfold cmp_le; rewrite cmp_antisym, E; done).
  destruct Hy as [|z l Hyz]; cbn; [by constructor|].
  destruct (is_le _); by constructor.
Qed.

Lemma sort_by_le l : Sorted cmp_le (sort_by cmp l).
Proof. induction l; cbn; [constructor|]. by apply insert_by_le. Qed.

(** After sorting, no two neighbours with equal keys means no two equal keys
    at all: the duplicate test [windows(2).any(==)] is complete. *)
Lemma windows2_eq_sorted (f : A -> A -> bool) l :
  (forall x y, f x y = true <-> cmp x y = Eq) ->
  windows2_any f (sort_by cmp l) = false <-> StronglySorted cmp_lt (sort_by cmp l).
Proof.
  intros Hf. assert (Hsort := sort_by_le l). revert Hsort.
  generalize (sort_by cmp l) as k. clear l. intros k Hle. split.
  - intros Hw. apply Sorted_StronglySorted; [apply _|].
    induction Hle as [|x k Hle IH Hx]; [constructor|].
    destruct Hx as [|y k Hxy]; [repeat constructor|].
    rewrite windows2_any_cons in Hw. apply orb_false_iff in Hw as [Hfxy Hw].
    constructor; [by apply IH|]. constructor. unfold cmp_lt, cmp_le in *.
    destruct (cmp x y) eqn:E; [|done|done]. apply Hf in E. congruence.
  - intros Hs. induction Hs as [|x k Hs IH Hx]; [done|].
    destruct k as [|y k]; [done|]. inv Hle. inv Hx.
    rewrite windows2_any_cons, IH by done. destruct (f x y) eqn:E; [|done].
    apply Hf in E. unfold cmp_lt in *. congruence.
Qed.
End sort_by.

(** Sorting by a projected key commutes with the projection. *)
Lemma sort_by_map {A B} (cmp : B -> B -> comparison) (f : A -> B) l :
  sort_by cmp (map f l) = map f (sort_by (fun x y => cmp (f x) (f y)) l).
Proof.
  induction l as [|x l IH]; cbn; [done|]. rewrite IH.
  generalize (sort_by (fun x y => cmp (f x) (f y)) l) as k. clear.
  induction k as [|y k IH]; cbn; [done|]. destruct (is_le _); cbn; [done|]. by rewrite IH.
Qed.

Lemma StronglySorted_map {A B} (R : B -> B -> Prop) (f : A -> B) l :
  StronglySorted R (map f l) <-> StronglySorted (fun x y => R (f x) (f y)) l.
Proof.
  induction l as [|x l IH]; cbn; [split; constructor|].
  rewrite !StronglySorted_cons, IH, Forall_map. done.
Qed.

Lemma windows2_any_map {A B} (g : B -> B -> bool) (f : A -> B) l :
  windows2_any g (map f l) = windows2_any (fun x y => g (f x) (f y)) l.
Proof.
  induction l as [|x [|y l] IH]; [done..|]. cbn [map] in *. by rewrite !windows2_any_cons, IH.
Qed.

Lemma concat_length_sum {A} (l : list (list A)) : len (concat l) = foldr Z.add 0 (map len l).
Proof. induction l as [|x l IH]; cbn; [done|]. by rewrite len_app, IH. Qed.

Lemma Forall2_Forall_impl {A B} (P : A -> Prop) (R S : A -> B -> Prop) l k :
  Forall P l -> Forall2 R l k -> (forall a b, P a -> R a b -> S a b) -> Forall2 S l k.
Proof. intros HP HR HS. revert HP. induction HR; intros HP; inv HP; constructor; auto. Qed.
