(* ===== verification/Cbor.v ===== *)
(** * The canonical CBOR codec ([protocol/src/lib.rs])

    [Limits], [Value], the bounded decoder ([Parser], [decode_canonical]) and
    the bounded encoder ([validate_value_bounds], [encode_into],
    [encode_bounded]).  The parser's state is its cursor and its item counter;
    every operation returns the next state with its result.  The theorems are
    in [CborFacts]. *)

From S2P Require Import Prelude.

(** [ProtocolError(pub &'static str)] *)
Definition ProtocolError : Set := string.

(** Not an error of the code: a run whose recursion budget was too small.
    [CborFacts.decode_canonical_total] shows it is not produced by the budget that
    [decode_canonical] passes. *)
Definition out_of_fuel : ProtocolError := "(model) recursion budget exhausted".

Record Limits : Set := mkLimits {
  max_bytes : Z;
  max_depth : Z;
  max_items : Z;
  max_collection_items : Z;
  max_text_bytes : Z
}.

Definition WIRE : Limits := {|
  max_bytes := 1048576; max_depth := 16; max_items := 65536;
  max_collection_items := 1024; max_text_bytes := 4096 |}.
Definition MANIFEST : Limits := {|
  max_bytes := 4 * 1024 * 1024; max_depth := 16; max_items := 65536;
  max_collection_items := 1024; max_text_bytes := 4096 |}.
Definition EVIDENCE : Limits := {|
  max_bytes := 8 * 1024 * 1024; max_depth := 16; max_items := 65536;
  max_collection_items := 1024; max_text_bytes := 4096 |}.

(** A [Text] holds the bytes of a Rust [String]. *)
Inductive Value : Set :=
| Null
| Bool (b : bool)
| Unsigned (n : Z)
| Bytes (bs : list byte)
| Text (s : string)
| Array (vs : list Value)
| Map (kvs : list (string * Value)).

(** [Value::field]: the first entry of a map with the key. *)
Fixpoint find_key (name : string) (kvs : list (string * Value)) : option Value :=
  match kvs with
  | [] => None
  | (key, value) :: kvs => if bool_decide (key = name) then Some value else find_key name kvs
  end.
Definition field (v : Value) (name : string) : option Value :=
  match v with Map entries => find_key name entries | _ => None end.
Definition as_text (v : Value) : option string :=
  match v with Text s => Some s | _ => None end.
Definition as_u64 (v : Value) : option Z :=
  match v with Unsigned n => Some n | _ => None end.

(** [byte == b'\n' || (0x20..=0x7e).contains(&byte)] *)
Definition native_ascii (b : byte) : bool :=
  (bZ b =? 10) || ((32 <=? bZ b) && (bZ b <=? 126)).
Definition native_text (s : string) : bool := forallb native_ascii (str_bytes s).

(** [std::str::from_utf8] accepts exactly the well-formed UTF-8 sequences
    (Unicode, table 3-7). *)
Definition byte_in (lo hi : Z) (b : byte) : bool := (lo <=? bZ b) && (bZ b <=? hi).
Fixpoint utf8_valid (bs : list byte) : bool :=
  match bs with
  | [] => true
  | a :: bs =>
      if bZ a <? 128 then utf8_valid bs
      else if byte_in 194 223 a then
        match bs with
        | b :: bs => byte_in 128 191 b && utf8_valid bs
        | _ => false
        end
      else if byte_in 224 239 a then
        match bs with
        | b :: c :: bs =>
            byte_in (if bZ a =? 224 then 160 else 128) (if bZ a =? 237 then 159 else 191) b
            && byte_in 128 191 c && utf8_valid bs
        | _ => false
        end
      else if byte_in 240 244 a then
        match bs with
        | b :: c :: d :: bs =>
            byte_in (if bZ a =? 240 then 144 else 128) (if bZ a =? 244 then 143 else 191) b
            && byte_in 128 191 c && byte_in 128 191 d && utf8_valid bs
        | _ => false
        end
      else false
  end.

(** [canonical_key_cmp]: shorter encodings first, then bytewise. *)
Definition canonical_key_cmp (left right : list byte) : comparison :=
  match Z.compare (len left) (len right) with
  | Eq => bytes_cmp left right
  | c => c
  end.

(** ** The decoder *)
Module Parser.

(** [struct Parser]: the input, the cursor [at], the limits and the number of
    items seen so far. *)
Record Parser : Set := mkParser {
  bytes : list byte;
  pos : Z;
  limits : Limits;
  items : Z
}.
Definition with_pos (p : Parser) (at' : Z) : Parser :=
  {| bytes := bytes p; pos := at'; limits := limits p; items := items p |}.
Definition with_items (p : Parser) (n : Z) : Parser :=
  {| bytes := bytes p; pos := pos p; limits := limits p; items := n |}.

Abbreviation M A := (result ProtocolError (A * Parser)).

Definition take (p : Parser) (count : Z) : M (list byte) :=
  let? end_ := ok_or (checked_add (pos p) count) "length overflow" in
  let? out := ok_or (get_range (bytes p) (pos p) end_) "truncated CBOR" in
  Ok (out, with_pos p end_).

(** The next [n]-byte big-endian integer; the shortest form is enforced by the
    lower bound [least]. *)
Definition long_argument (p : Parser) (n least : Z) : M Z :=
  let? (bs, p) := take p n in
  let value := be_value bs in
  if value <? least then Err "non-shortest integer" else Ok (value, p).

Definition argument (p : Parser) (additional : Z) : M Z :=
  if additional <=? 23 then Ok (additional, p)
  else if additional =? 24 then long_argument p 1 24
  else if additional =? 25 then long_argument p 2 (u8_max + 1)
  else if additional =? 26 then long_argument p 4 (u16_max + 1)
  else if additional =? 27 then long_argument p 8 (u32_max + 1)
  else Err "indefinite/reserved CBOR length".

(** [for _ in 0..len { out.push(self.value(depth + 1)?); }] *)
Fixpoint array_items (value : Parser -> M Value) (n : nat) (p : Parser) : M (list Value) :=
  match n with
  | O => Ok ([], p)
  | S n =>
      let? (v, p) := value p in
      let? (vs, p) := array_items value n p in
      Ok (v :: vs, p)
  end.

(** The loop over the entries of a map; [prior] is the previous encoded key. *)
Fixpoint map_entries (value : Parser -> M Value) (n : nat) (prior : option (list byte))
    (p : Parser) : M (list (string * Value)) :=
  match n with
  | O => Ok ([], p)
  | S n =>
      let start := pos p in
      let? (key, p) := value p in
      let encoded_key := firstn (Z.to_nat (pos p - start)) (skipn (Z.to_nat start) (bytes p)) in
      throw_if match prior with
               | Some previous => negb (is_lt (canonical_key_cmp previous encoded_key))
               | None => false
               end
        with "map keys are duplicated or noncanonical" ;;
      match key with
      | Text key =>
          let? (v, p) := value p in
          let? (kvs, p) := map_entries value n (Some encoded_key) p in
          Ok ((key, v) :: kvs, p)
      | _ => Err "map key is not text"
      end
  end.

(** [self.items.checked_add(extra)? > max_items], the reservation test of the
    collection cases. *)
Definition items_exceed (p : Parser) (extra : Z) : result ProtocolError bool :=
  let? total := ok_or (checked_add (items p) extra) "item count overflow" in
  Ok (max_items (limits p) <? total).

(** [match major { .. }]; [value] is the recursive call at [depth + 1]. *)
Definition value_of_head (value : Parser -> M Value) (major additional : Z) (p : Parser) : M Value :=
  if major =? 0 then
    let? (n, p) := argument p additional in
    Ok (Unsigned n, p)
  else if major =? 1 then Err "negative integers are not admitted"
  else if major =? 2 then
    let? (len, p) := argument p additional in
    let? (bs, p) := take p len in
    Ok (Bytes bs, p)
  else if major =? 3 then
    let? (len, p) := argument p additional in
    throw_if max_text_bytes (limits p) <? len with "text exceeds bound" ;;
    let? (text, p) := take p len in
    throw_if negb (utf8_valid text) with "invalid UTF-8" ;;
    throw_if negb (forallb native_ascii text) with "text is outside the native ASCII profile" ;;
    Ok (Text (str_of_bytes text), p)
  else if major =? 4 then
    let? (len, p) := argument p additional in
    throw_if max_collection_items (limits p) <? len with "array exceeds bound" ;;
    let? exceeds := items_exceed p len in
    throw_if exceeds with "array exceeds bound" ;;
    let? (out, p) := array_items value (Z.to_nat len) p in
    Ok (Array out, p)
  else if major =? 5 then
    let? (len, p) := argument p additional in
    throw_if max_collection_items (limits p) <? len with "map exceeds bound" ;;
    let? exceeds := items_exceed p (saturating_mul len 2) in
    throw_if exceeds with "map exceeds bound" ;;
    let? (out, p) := map_entries value (Z.to_nat len) None p in
    Ok (Map out, p)
  else if major =? 6 then Err "CBOR tags are not admitted"
  else if additional =? 20 then Ok (Bool false, p)
  else if additional =? 21 then Ok (Bool true, p)
  else if additional =? 22 then Ok (Null, p)
  else Err "floats/simple values are not admitted".

Fixpoint value (fuel : nat) (depth : Z) (p : Parser) : M Value :=
  throw_if max_depth (limits p) <? depth with "CBOR depth exceeds bound" ;;
  let? items := ok_or (checked_add (items p) 1) "item count overflow" in
  throw_if max_items (limits p) <? items with "CBOR item count exceeds bound" ;;
  let p := with_items p items in
  let? (initial, p) := take p 1 in
  let initial := bZ (nth 0 initial x00) in
  let major := Z.shiftr initial 5 in
  let additional := Z.land initial 31 in
  match fuel with
  | O => Err out_of_fuel
  | S fuel => value_of_head (value fuel (depth + 1)) major additional p
  end.

End Parser.

(** ** The encoder *)

Definition head (major value : Z) : list byte :=
  if value <? 24 then [byte_of_Z (Z.lor (Z.shiftl major 5) value)]
  else if value <=? u8_max then [byte_of_Z (Z.lor (Z.shiftl major 5) 24); byte_of_Z value]
  else if value <=? u16_max then byte_of_Z (Z.lor (Z.shiftl major 5) 25) :: be_bytes 2 value
  else if value <=? u32_max then byte_of_Z (Z.lor (Z.shiftl major 5) 26) :: be_bytes 4 value
  else byte_of_Z (Z.lor (Z.shiftl major 5) 27) :: be_bytes 8 value.

Definition head_len (value : Z) : Z :=
  if value <? 24 then 1
  else if value <=? u8_max then 2
  else if value <=? u16_max then 3
  else if value <=? u32_max then 5
  else 9.

Definition bounded_add (left right : Z) (limits : Limits) : result ProtocolError Z :=
  let? total := ok_or (checked_add left right) "encoded length overflow" in
  if max_bytes limits <? total then Err "encoded CBOR exceeds byte bound" else Ok total.

(** [validate_value_bounds(value, depth, items, limits)]: the encoded length,
    and the item counter the [&mut usize] argument is left with. *)
Section validate.
Variable limits : Limits.

Definition enter (depth items : Z) : result ProtocolError Z :=
  throw_if max_depth limits <? depth with "CBOR depth exceeds bound" ;;
  let? items := ok_or (checked_add items 1) "item count overflow" in
  throw_if max_items limits <? items with "CBOR item count exceeds bound" ;;
  Ok items.

Definition leave (encoded items : Z) : result ProtocolError (Z * Z) :=
  throw_if max_bytes limits <? encoded with "encoded CBOR exceeds byte bound" ;;
  Ok (encoded, items).

Definition validate_text (text : string) (depth items : Z) : result ProtocolError (Z * Z) :=
  let? items := enter depth items in
  throw_if max_text_bytes limits <? slen text with "text exceeds bound" ;;
  throw_if negb (native_text text) with "text is outside the native ASCII profile" ;;
  let? encoded := bounded_add (head_len (slen text)) (slen text) limits in
  leave encoded items.

(** [for value in values { total = bounded_add(total, validate(value)?)?; }] *)
Fixpoint validate_items (validate : Value -> Z -> result ProtocolError (Z * Z))
    (values : list Value) (total items : Z) : result ProtocolError (Z * Z) :=
  match values with
  | [] => Ok (total, items)
  | value :: values =>
      let? (n, items) := validate value items in
      let? total := bounded_add total n limits in
      validate_items validate values total items
  end.

(** The same loop over the entries of a map; the key counts as a text item. *)
Fixpoint validate_entries (validate_key : string -> Z -> result ProtocolError (Z * Z))
    (validate : Value -> Z -> result ProtocolError (Z * Z))
    (entries : list (string * Value)) (total items : Z) : result ProtocolError (Z * Z) :=
  match entries with
  | [] => Ok (total, items)
  | (key, value) :: entries =>
      let? (n, items) := validate_key key items in
      let? total := bounded_add total n limits in
      let? (n, items) := validate value items in
      let? total := bounded_add total n limits in
      validate_entries validate_key validate entries total items
  end.

Fixpoint validate_value_bounds (value : Value) (depth items : Z) {struct value}
    : result ProtocolError (Z * Z) :=
  match value with
  | Text text => validate_text text depth items
  | Bytes bytes =>
      let? items := enter depth items in
      let? encoded := bounded_add (head_len (len bytes)) (len bytes) limits in
      leave encoded items
  | Array values =>
      let? items := enter depth items in
      throw_if max_collection_items limits <? len values with "array exceeds bound" ;;
      let? (total, items) :=
        validate_items (fun value items => validate_value_bounds value (depth + 1) items)
          values (head_len (len values)) items in
      leave total items
  | Map entries =>
      let? items := enter depth items in
      throw_if max_collection_items limits <? len entries with "map exceeds bound" ;;
      let? (total, items) :=
        validate_entries (fun key items => validate_text key (depth + 1) items)
          (fun value items => validate_value_bounds value (depth + 1) items)
          entries (head_len (len entries)) items in
      leave total items
  | Unsigned n =>
      let? items := enter depth items in
      leave (head_len n) items
  | Null | Bool _ =>
      let? items := enter depth items in
      leave 1 items
  end.
End validate.

Definition encode_text (text : string) : result ProtocolError (list byte) :=
  throw_if negb (native_text text) with "text is outside the native ASCII profile" ;;
  Ok (head 3 (slen text) ++ str_bytes text).

(** One map entry while it is being ordered: its encoded key and the encoding
    of its value, which is only inspected after the sort. *)
Abbreviation encoded_entry := (list byte * result ProtocolError (list byte))%type.

(** [for (key, value) in ordered { out.extend(&key); encode_into(value, out)?; }] *)
Fixpoint emit_entries (ordered : list encoded_entry) : result ProtocolError (list byte) :=
  match ordered with
  | [] => Ok []
  | (key, value) :: ordered =>
      let? value := value in
      let? rest := emit_entries ordered in
      Ok (key ++ value ++ rest)
  end.

(** The ordering half of the map case: sort by encoded key, refuse duplicates,
    emit. *)
Definition emit_map (ordered : list encoded_entry) : result ProtocolError (list byte) :=
  let ordered := sort_by (fun l r => canonical_key_cmp l.1 r.1) ordered in
  throw_if windows2_any (fun l r => bool_decide (l.1 = r.1)) ordered with "duplicate map key" ;;
  let? rest := emit_entries ordered in
  Ok (head 5 (len ordered) ++ rest).

(** [encode_into(value, out)]: the bytes appended to [out]. *)
Fixpoint encode_into (value : Value) : result ProtocolError (list byte) :=
  match value with
  | Null => Ok [byte_of_Z 246]
  | Bool false => Ok [byte_of_Z 244]
  | Bool true => Ok [byte_of_Z 245]
  | Unsigned n => Ok (head 0 n)
  | Bytes bytes => Ok (head 2 (len bytes) ++ bytes)
  | Text text => encode_text text
  | Array values =>
      let? parts := res_map encode_into values in
      Ok (head 4 (len values) ++ concat parts)
  | Map entries =>
      let? ordered :=
        res_map (fun entry : string * Value =>
                   let (key, value) := entry in
                   let? encoded := encode_text key in
                   Ok (encoded, encode_into value)) entries in
      emit_map ordered
  end.

Definition encode_bounded (value : Value) (limits : Limits) : result ProtocolError (list byte) :=
  let? (encoded_len, _) := validate_value_bounds limits value 0 0 in
  let? out := encode_into value in
  throw_if negb (len out =? encoded_len) with "encoded CBOR length accounting mismatch" ;;
  Ok out.

(** The depth check bounds the recursion by [max_depth + 1] nested calls. *)
Definition decode_fuel (limits : Limits) : nat := S (Z.to_nat (max_depth limits)).

Definition decode_canonical (bytes : list byte) (limits : Limits) : result ProtocolError Value :=
  throw_if (len bytes =? 0) || (max_bytes limits <? len bytes)
    with "CBOR byte length is invalid" ;;
  let parser := {| Parser.bytes := bytes; Parser.pos := 0;
                   Parser.limits := limits; Parser.items := 0 |} in
  let? (value, parser) := Parser.value (decode_fuel limits) 0 parser in
  throw_if negb (Parser.pos parser =? len bytes) with "trailing CBOR bytes" ;;
  let? again := encode_bounded value limits in
  throw_if negb (bool_decide (again = bytes)) with "CBOR is not canonical" ;;
  Ok value.
