(* ===== verification/CborFacts.v ===== *)
(** * Theorems on the canonical CBOR codec

    [Spec] describes, without state, what the two directions of the codec have
    to agree on; [Encode] and [Parse] show that the bounded encoder and the
    parser compute exactly that, and the section at the end draws the
    consequences for [encode_bounded] and [decode_canonical]. *)

From S2P Require Import Prelude Cbor.

(** ** Specification *)
Module Spec.

Definition sumZ (l : list Z) : Z := foldr Z.add 0 l.

(** Length of the encoding of a value. *)
Definition text_size (s : string) : Z := head_len (slen s) + slen s.
Fixpoint size (v : Value) : Z :=
  match v with
  | Null | Bool _ => 1
  | Unsigned n => head_len n
  | Bytes bs => head_len (len bs) + len bs
  | Text s => text_size s
  | Array vs => head_len (len vs) + sumZ (map size vs)
  | Map kvs =>
      head_len (len kvs) + sumZ (map (fun kv : string * Value => text_size kv.1 + size kv.2) kvs)
  end.

(** Number of items: every value and every map key counts one. *)
Fixpoint count (v : Value) : Z :=
  match v with
  | Array vs => 1 + sumZ (map count vs)
  | Map kvs => 1 + sumZ (map (fun kv : string * Value => 1 + count kv.2) kvs)
  | _ => 1
  end.

(** The limits that do not depend on a running total. *)
Definition text_within (L : Limits) (depth : Z) (s : string) : bool :=
  (depth <=? max_depth L) && (slen s <=? max_text_bytes L) && native_text s.
Fixpoint within (L : Limits) (depth : Z) (v : Value) : bool :=
  match v with
  | Text s => text_within L depth s
  | Array vs =>
      (depth <=? max_depth L) && (len vs <=? max_collection_items L)
      && forallb (within L (depth + 1)) vs
  | Map kvs =>
      (depth <=? max_depth L) && (len kvs <=? max_collection_items L)
      && forallb (fun kv : string * Value =>
                    text_within L (depth + 1) kv.1 && within L (depth + 1) kv.2) kvs
  | _ => depth <=? max_depth L
  end.

(** Values the Rust type can hold: integers are [u64]. *)
Fixpoint u64_values (v : Value) : bool :=
  match v with
  | Unsigned n => (0 <=? n) && (n <=? u64_max)
  | Array vs => forallb u64_values vs
  | Map kvs => forallb (fun kv : string * Value => u64_values kv.2) kvs
  | _ => true
  end.

Definition key_bytes (k : string) : list byte := head 3 (slen k) ++ str_bytes k.
Definition key_cmp (k k' : string) : comparison :=
  canonical_key_cmp (key_bytes k) (key_bytes k').
Definition keys_sorted (ks : list string) : bool :=
  negb (windows2_any (fun k k' => negb (is_lt (key_cmp k k'))) ks).

(** Canonical values: the entries of every map are strictly ordered. *)
Fixpoint canonical (v : Value) : bool :=
  match v with
  | Unsigned n => (0 <=? n) && (n <=? u64_max)
  | Array vs => forallb canonical vs
  | Map kvs =>
      keys_sorted (map fst kvs) && forallb (fun kv : string * Value => canonical kv.2) kvs
  | _ => true
  end.

(** The canonical form of a value: every map is sorted. *)
Fixpoint canon (v : Value) : Value :=
  match v with
  | Array vs => Array (map canon vs)
  | Map kvs =>
      Map (sort_by (fun a b => key_cmp a.1 b.1)
             (map (fun kv : string * Value => (kv.1, canon kv.2)) kvs))
  | v => v
  end.

(** What the codec requires of the limits: they are [usize] values. *)
Definition limits_ok (L : Limits) : Prop :=
  0 <= max_bytes L <= u64_max /\ max_items L <= u64_max.

End Spec.
Import Spec.

(** Induction over the nested lists of [Value]. *)
Lemma Value_nested_ind (P : Value -> Prop) :
  P Null -> (forall b, P (Bool b)) -> (forall n, P (Unsigned n)) ->
  (forall bs, P (Bytes bs)) -> (forall s, P (Text s)) ->
  (forall vs, Forall P vs -> P (Array vs)) ->
  (forall kvs, Forall (fun kv => P kv.2) kvs -> P (Map kvs)) ->
  forall v, P v.
Proof.
  intros H1 H2 H3 H4 H5 HA HM. fix IH 1. intros [|b|n|bs|s|vs|kvs].
  - exact H1.
  - apply H2.
  - apply H3.
  - apply H4.
  - apply H5.
  - apply HA. induction vs as [|v vs IHv]; constructor; [apply IH|apply IHv].
  - apply HM. induction kvs as [|[k v] kvs IHk]; constructor; [apply IH|apply IHk].
Qed.

Lemma forallb_Forall' {A} (f : A -> bool) l : forallb f l = true <-> Forall (fun a => f a = true) l.
Proof.
  induction l as [|a l IH]; cbn; [split; [constructor|done]|].
  rewrite andb_true_iff, IH. split; [intros [??]; by constructor|by inversion 1].
Qed.

Lemma head_len_pos n : 1 <= head_len n <= 9.
Proof. unfold head_len. repeat case_match; lia. Qed.

Lemma text_size_pos s : 1 <= text_size s.
Proof. unfold text_size, slen. pose proof (head_len_pos (len (str_bytes s))).
  pose proof (len_nonneg (str_bytes s)). lia. Qed.

Lemma sumZ_ge {A} (f : A -> Z) l c :
  0 <= c -> Forall (fun a => c <= f a) l -> c * len l <= sumZ (map f l).
Proof. induction 2; cbn [map sumZ foldr]; rewrite ?len_cons, ?len_nil; [lia|]. unfold sumZ in *. lia. Qed.

Lemma sumZ_nonneg {A} (f : A -> Z) l : Forall (fun a => 1 <= f a) l -> len l <= sumZ (map f l).
Proof. intros H. pose proof (sumZ_ge f l 1 ltac:(lia) H). lia. Qed.

Lemma sumZ_perm l k : l ≡ₚ k -> sumZ l = sumZ k.
Proof. induction 1; cbn; unfold sumZ in *; lia. Qed.

Lemma size_pos v : 1 <= size v.
Proof.
  induction v as [| | | | |vs IH|kvs IH] using Value_nested_ind; cbn [size]; try lia.
  - pose proof (head_len_pos n). lia.
  - pose proof (head_len_pos (len bs)). pose proof (len_nonneg bs). lia.
  - apply text_size_pos.
  - pose proof (head_len_pos (len vs)). apply sumZ_nonneg in IH.
    pose proof (len_nonneg vs). lia.
  - pose proof (head_len_pos (len kvs)). pose proof (len_nonneg kvs).
    assert (len kvs <= sumZ (map (fun kv : string * Value => text_size kv.1 + size kv.2) kvs)); [|lia].
    apply sumZ_nonneg. eapply Forall_impl; [exact IH|].
    intros [k v]; cbn. pose proof (text_size_pos k). lia.
Qed.

Lemma map_size_ge (kvs : list (string * Value)) :
  len kvs <= sumZ (map (fun kv : string * Value => text_size kv.1 + size kv.2) kvs).
Proof.
  apply sumZ_nonneg, Forall_true. intros [k v]; cbn.
  pose proof (text_size_pos k). pose proof (size_pos v). lia.
Qed.

Lemma count_pos v : 1 <= count v.
Proof.
  induction v as [| | | | |vs IH|kvs IH] using Value_nested_ind; cbn [count]; try lia.
  - apply sumZ_nonneg in IH. pose proof (len_nonneg vs). lia.
  - pose proof (len_nonneg kvs).
    assert (len kvs <= sumZ (map (fun kv : string * Value => 1 + count kv.2) kvs)); [|lia].
    apply sumZ_nonneg. eapply Forall_impl; [exact IH|]. intros [k v]; cbn. lia.
Qed.
#[export] Hint Resolve size_pos count_pos text_size_pos : keep.

(** ** The bounds pass computes the size and the item count *)
Module Encode.
Section validate_spec.
Variable L : Limits.
Hypothesis HL : limits_ok L.

Lemma enter_spec depth items r :
  enter L depth items = Ok r <->
  depth <= max_depth L /\ items + 1 <= max_items L /\ r = items + 1.
Proof.
  destruct HL as [_ Hi]. unfold enter, checked_add.
  destruct (Z.ltb_spec (max_depth L) depth), (Z.leb_spec (items + 1) u64_max); cbn;
    try destruct (Z.ltb_spec (max_items L) (items + 1)); split; intros H'; try lia; try discriminate.
  - injection H' as <-. lia.
  - f_equal. lia.
Qed.

Lemma leave_spec encoded items r :
  leave L encoded items = Ok r <-> encoded <= max_bytes L /\ r = (encoded, items).
Proof.
  unfold leave. destruct (Z.ltb_spec (max_bytes L) encoded); split; intros H'; try lia.
  - discriminate.
  - by injection H' as <-.
  - by destruct H' as [_ ->].
Qed.

Lemma bounded_add_spec a b r :
  bounded_add a b L = Ok r <-> a + b <= max_bytes L /\ r = a + b.
Proof.
  destruct HL as [Hb _]. unfold bounded_add, checked_add.
  destruct (Z.leb_spec (a + b) u64_max); cbn;
    try destruct (Z.ltb_spec (max_bytes L) (a + b)); split; intros H'; try lia; try discriminate.
  - injection H' as <-. lia.
  - f_equal. lia.
Qed.

(** [validate] runs as specified on one value. *)
Definition computes (f : Z -> result ProtocolError (Z * Z)) (ok : bool) (sz ct : Z) : Prop :=
  forall items r, f items = Ok r <->
    ok = true /\ items + ct <= max_items L /\ sz <= max_bytes L /\ r = (sz, items + ct).

Lemma validate_text_spec s depth :
  computes (validate_text L s depth) (text_within L depth s) (text_size s) 1.
Proof.
  intros items r. unfold validate_text, text_within.
  rewrite bind_ok. setoid_rewrite enter_spec. setoid_rewrite guard_ok.
  setoid_rewrite guard_ok. setoid_rewrite bind_ok. setoid_rewrite bounded_add_spec.
  setoid_rewrite leave_spec. fold (text_size s).
  rewrite !andb_true_iff, !Z.leb_le. split.
  - intros (? & (? & ? & ->) & Ht & Hn & ? & [? ->] & ? & ->). bool_to_prop.
    split_and!; try lia; try done.
  - intros (((? & ?) & Hn) & ? & ? & ->). exists (items + 1). rewrite Hn, Z.ltb_ge.
    split_and!; try lia; try done. exists (text_size s). split_and!; try lia; done.
Qed.

Lemma sum_size_nonneg (f : Value -> Z) vs : (forall v, 1 <= f v) -> 0 <= sumZ (map f vs).
Proof.
  intros Hf. pose proof (sumZ_nonneg f vs ltac:(apply Forall_true; auto)).
  pose proof (len_nonneg vs). lia.
Qed.

(** The value loop, followed by the final byte bound. *)
Lemma validate_items_spec (validate : Value -> Z -> result ProtocolError (Z * Z)) ok vs total items r :
  Forall (fun v => computes (validate v) (ok v) (size v) (count v)) vs ->
  0 <= total -> items <= max_items L ->
  (let? (total, items) := validate_items L validate vs total items in leave L total items) = Ok r <->
  forallb ok vs = true /\ items + sumZ (map count vs) <= max_items L /\
  total + sumZ (map size vs) <= max_bytes L /\
  r = (total + sumZ (map size vs), items + sumZ (map count vs)).
Proof.
  intros Hr. revert total items.
  induction Hr as [|v vs Hv Hr IH]; intros total items Ht Hi;
    cbn [validate_items forallb map sumZ foldr res_bind].
  { rewrite leave_spec, !Z.add_0_r. naive_solver lia. }
  pose proof (sum_size_nonneg size vs size_pos). pose proof (sum_size_nonneg count vs count_pos).
  pose proof (size_pos v). pose proof (count_pos v). unfold sumZ in *.
  split.
  - destruct (validate v items) as [[n it]|] eqn:E1; cbn [res_bind]; [|done].
    destruct (bounded_add total n L) as [t|] eqn:E2; cbn [res_bind]; [|done]. intros Hrun.
    apply Hv in E1 as (Hok & ? & ? & [= -> ->]). apply bounded_add_spec in E2 as [? ->].
    apply IH in Hrun as (Hoks & ? & ? & ->); [|lia..].
    rewrite Hok, Hoks, !Z.add_assoc. split_and!; try lia; done.
  - intros ([Hok Hoks]%andb_true_iff & ? & ? & ->).
    rewrite (proj2 (Hv items _)) by (split_and!; [done|lia|lia|reflexivity]). cbn [res_bind].
    rewrite (proj2 (bounded_add_spec _ _ _)) by (split; [lia|reflexivity]). cbn [res_bind].
    apply IH; [lia..|]. rewrite !Z.add_assoc. split_and!; try lia; done.
Qed.

(** The map loop: each key is a text item of its own. *)
Lemma validate_entries_spec (validate_key : string -> Z -> result ProtocolError (Z * Z))
    (validate : Value -> Z -> result ProtocolError (Z * Z)) okk ok kvs total items r :
  (forall k, computes (validate_key k) (okk k) (text_size k) 1) ->
  Forall (fun kv : string * Value => computes (validate kv.2) (ok kv.2) (size kv.2) (count kv.2)) kvs ->
  0 <= total -> items <= max_items L ->
  (let? (total, items) := validate_entries L validate_key validate kvs total items in
   leave L total items) = Ok r <->
  forallb (fun kv : string * Value => okk kv.1 && ok kv.2) kvs = true /\
  items + sumZ (map (fun kv : string * Value => 1 + count kv.2) kvs) <= max_items L /\
  total + sumZ (map (fun kv : string * Value => text_size kv.1 + size kv.2) kvs) <= max_bytes L /\
  r = (total + sumZ (map (fun kv : string * Value => text_size kv.1 + size kv.2) kvs),
       items + sumZ (map (fun kv : string * Value => 1 + count kv.2) kvs)).
Proof.
  intros Hk Hr. revert total items.
  induction Hr as [|[k v] kvs Hv Hr IH]; intros total items Ht Hi;
    cbn [validate_entries forallb map sumZ foldr res_bind fst snd] in *.
  { rewrite leave_spec, !Z.add_0_r. naive_solver lia. }
  assert (0 <= sumZ (map (fun kv : string * Value => text_size kv.1 + size kv.2) kvs) /\
          0 <= sumZ (map (fun kv : string * Value => 1 + count kv.2) kvs)) as [? ?].
  { split; (etrans; [apply (len_nonneg kvs)|]; apply sumZ_nonneg, Forall_true; intros [k' v'];
      cbn; pose proof (text_size_pos k'); pose proof (size_pos v'); pose proof (count_pos v'); lia). }
  pose proof (size_pos v). pose proof (count_pos v). pose proof (text_size_pos k).
  unfold sumZ in *. split.
  - destruct (validate_key k items) as [[n1 it1]|] eqn:E1; cbn [res_bind]; [|done].
    destruct (bounded_add total n1 L) as [t1|] eqn:E2; cbn [res_bind]; [|done].
    destruct (validate v it1) as [[n2 it2]|] eqn:E3; cbn [res_bind]; [|done].
    destruct (bounded_add t1 n2 L) as [t2|] eqn:E4; cbn [res_bind]; [|done]. intros Hrun.
    apply Hk in E1 as (Hok1 & ? & ? & [= -> ->]). apply bounded_add_spec in E2 as [? ->].
    apply Hv in E3 as (Hok2 & ? & ? & [= -> ->]). apply bounded_add_spec in E4 as [? ->].
    apply IH in Hrun as (Hoks & ? & ? & ->); [|lia..].
    rewrite Hok1, Hok2, Hoks, !Z.add_assoc. split_and!; try lia; done.
  - intros ([[Hok1 Hok2]%andb_true_iff Hoks]%andb_true_iff & ? & ? & ->).
    rewrite (proj2 (Hk k items _)) by (split_and!; [done|lia|lia|reflexivity]). cbn [res_bind].
    rewrite (proj2 (bounded_add_spec total _ _)) by (split; [lia|reflexivity]). cbn [res_bind].
    rewrite (proj2 (Hv (items + 1) _)) by (split_and!; [done|lia|lia|reflexivity]). cbn [res_bind].
    rewrite (proj2 (bounded_add_spec (total + _) _ _)) by (split; [lia|reflexivity]). cbn [res_bind].
    apply IH; [lia..|]. rewrite !Z.add_assoc. split_and!; try lia; done.
Qed.

Lemma leaf_spec depth items sz r :
  0 <= sz ->
  (let? items := enter L depth items in leave L sz items) = Ok r <->
  (depth <=? max_depth L) = true /\ items + 1 <= max_items L /\ sz <= max_bytes L /\ r = (sz, items + 1).
Proof.
  intros Hsz. rewrite bind_ok. setoid_rewrite enter_spec. setoid_rewrite leave_spec.
  rewrite Z.leb_le. naive_solver.
Qed.

(** The bounds pass accepts exactly the values within the limits, and returns
    their encoded size and the advanced item counter. *)
Lemma validate_runs v depth :
  computes (validate_value_bounds L v depth) (within L depth v) (size v) (count v).
Proof.
  revert depth. induction v as [|b|n|bs|s|vs IH|kvs IH] using Value_nested_ind;
    intros depth items r; cbn [validate_value_bounds within size count].
  - by apply leaf_spec.
  - by apply leaf_spec.
  - apply leaf_spec. pose proof (head_len_pos n). lia.
  - rewrite bind_ok. setoid_rewrite enter_spec. setoid_rewrite bind_ok.
    setoid_rewrite bounded_add_spec. setoid_rewrite leave_spec. rewrite Z.leb_le. naive_solver.
  - apply validate_text_spec.
  - rewrite bind_ok. setoid_rewrite enter_spec. setoid_rewrite guard_ok.
    rewrite !andb_true_iff, !Z.leb_le. pose proof (head_len_pos (len vs)). split.
    + intros (? & (? & ? & ->) & ?%Z.ltb_ge & Hrun).
      apply (validate_items_spec _ (within L (depth + 1))) in Hrun as (? & ? & ? & ->); [|eauto using Forall_impl|lia..].
      rewrite Z.add_assoc. split_and!; try lia; done.
    + intros (((? & ?) & ?) & ? & ? & ->). exists (items + 1). rewrite Z.ltb_ge.
      pose proof (sum_size_nonneg count vs count_pos). split_and!; [lia..|].
      apply (validate_items_spec _ (within L (depth + 1))); [eauto using Forall_impl|lia..|].
      rewrite !Z.add_assoc. split_and!; try lia; done.
  - rewrite bind_ok. setoid_rewrite enter_spec. setoid_rewrite guard_ok.
    rewrite !andb_true_iff, !Z.leb_le. pose proof (head_len_pos (len kvs)). split.
    + intros (? & (? & ? & ->) & ?%Z.ltb_ge & Hrun).
      apply (validate_entries_spec _ _ (text_within L (depth + 1)) (within L (depth + 1)))
        in Hrun as (? & ? & ? & ->); [|intro; apply validate_text_spec|eauto using Forall_impl|lia..].
      rewrite Z.add_assoc. split_and!; try lia; done.
    + intros (((? & ?) & ?) & ? & ? & ->). exists (items + 1). rewrite Z.ltb_ge.
      assert (0 <= sumZ (map (fun kv : string * Value => 1 + count kv.2) kvs)).
      { etrans; [apply (len_nonneg kvs)|]. apply sumZ_nonneg, Forall_true. intros [k' v'].
        cbn. pose proof (count_pos v'). lia. }
      split_and!; [lia..|].
      apply (validate_entries_spec _ _ (text_within L (depth + 1)) (within L (depth + 1)));
        [intro; apply validate_text_spec|eauto using Forall_impl|lia..|].
      rewrite !Z.add_assoc. split_and!; try lia; done.
Qed.
End validate_spec.

(** *** Initial bytes *)

(** The additional information and the extension bytes of a shortest-form
    argument. *)
Definition ai (n : Z) : Z :=
  if n <? 24 then n else if n <=? u8_max then 24 else if n <=? u16_max then 25
  else if n <=? u32_max then 26 else 27.
Definition ext (n : Z) : list byte :=
  if n <? 24 then [] else if n <=? u8_max then be_bytes 1 n else if n <=? u16_max then be_bytes 2 n
  else if n <=? u32_max then be_bytes 4 n else be_bytes 8 n.

Lemma head_split major n :
  head major n = byte_of_Z (Z.lor (Z.shiftl major 5) (ai n)) :: ext n.
Proof.
  unfold head, ai, ext. by repeat case_match.
Qed.

Lemma len_head major n : len (head major n) = head_len n.
Proof.
  rewrite head_split, len_cons. unfold ext, head_len.
  repeat case_match; rewrite ?len_be_bytes; reflexivity.
Qed.

(** Packing and unpacking the initial byte, checked for all 256 of them. *)
Definition packed (m a : Z) : bool :=
  let b := bZ (byte_of_Z (Z.lor (Z.shiftl m 5) a)) in
  (Z.shiftr b 5 =? m) && (Z.land b 31 =? a).

Lemma packed_all :
  forallb (fun m => forallb (fun a => packed (Z.of_nat m) (Z.of_nat a)) (seq 0 32)) (seq 0 8) = true.
Proof. vm_compute. reflexivity. Qed.

Lemma packed_spec m a : 0 <= m < 8 -> 0 <= a < 32 ->
  Z.shiftr (bZ (byte_of_Z (Z.lor (Z.shiftl m 5) a))) 5 = m /\
  Z.land (bZ (byte_of_Z (Z.lor (Z.shiftl m 5) a))) 31 = a.
Proof.
  intros Hm Ha. pose proof packed_all as H.
  rewrite forallb_forall in H. specialize (H (Z.to_nat m)).
  rewrite forallb_forall in H. specialize (H ltac:(apply in_seq; lia) (Z.to_nat a) ltac:(apply in_seq; lia)).
  rewrite !Z2Nat.id in H by lia. unfold packed in H. by bool_to_prop.
Qed.

Lemma unpacked b : byte_of_Z (Z.lor (Z.shiftl (Z.shiftr (bZ b) 5) 5) (Z.land (bZ b) 31)) = b.
Proof. destruct b; reflexivity. Qed.

Lemma initial_range b : 0 <= Z.shiftr (bZ b) 5 < 8 /\ 0 <= Z.land (bZ b) 31 < 32.
Proof. destruct b; vm_compute; intuition congruence. Qed.

Lemma ai_range n : 0 <= n -> 0 <= ai n < 28.
Proof. unfold ai. repeat case_match; bool_to_prop; lia. Qed.

(** *** The encoding has the computed size *)

Lemma encode_text_spec s bs :
  encode_text s = Ok bs <-> native_text s = true /\ bs = key_bytes s.
Proof.
  unfold encode_text, key_bytes. destruct (native_text s); cbn; split; intros H; try done.
  - by injection H as <-.
  - by destruct H as [_ ->].
  - by destruct H.
Qed.

Lemma len_key_bytes s : len (key_bytes s) = text_size s.
Proof. unfold key_bytes, text_size. by rewrite len_app, len_head. Qed.

Lemma emit_entries_spec l bs :
  emit_entries l = Ok bs <->
  exists encs, Forall2 (fun e b => e.2 = Ok b) l encs /\ bs = concat (zip_with app (map fst l) encs).
Proof.
  revert bs. induction l as [|[k e] l IH]; intros bs; cbn [emit_entries].
  - split; [intros [= <-]; by exists []|]. by intros (encs & H & ->); inv H.
  - rewrite bind_ok. setoid_rewrite bind_ok. setoid_rewrite IH. split.
    + intros (b & He & rest & (encs & HF & ->) & [= <-]). exists (b :: encs).
      split; [by constructor|]. cbn. by rewrite <- app_assoc.
    + intros (encs & H & ->). inv H. eexists; split; [done|]. eexists; split; [by eexists|].
      cbn. by rewrite <- app_assoc.
Qed.

#[export] Instance canonical_key_cmp_laws : CmpLaws canonical_key_cmp.
Proof.
  unfold canonical_key_cmp. split.
  - intros x. by rewrite Z.compare_refl, bytes_cmp_refl.
  - intros x y. rewrite (Z.compare_antisym (len x)).
    destruct (Z.compare _ _); cbn; auto using bytes_cmp_antisym.
  - intros x y z.
    destruct (Z.compare_spec (len x) (len y)), (Z.compare_spec (len y) (len z)),
      (Z.compare_spec (len x) (len z)); try done; try lia. apply cmp_lt_trans.
  - intros x y z. destruct (Z.compare_spec (len x) (len y)); try done. by intros ->%bytes_cmp_eq.
  - intros x y z Hxy. destruct (Z.compare_spec (len y) (len z)); try done. by intros <-%bytes_cmp_eq.
Qed.

Lemma canonical_key_cmp_eq x y : canonical_key_cmp x y = Eq <-> x = y.
Proof.
  unfold canonical_key_cmp. destruct (Z.compare_spec (len x) (len y)).
  - apply bytes_cmp_eq.
  - split; [done|intros ->; lia].
  - split; [done|intros ->; lia].
Qed.

#[export] Instance key_cmp_laws : CmpLaws key_cmp.
Proof. unfold key_cmp. apply _. Qed.

Lemma keys_sorted_spec ks : keys_sorted ks = true <-> StronglySorted (cmp_lt key_cmp) ks.
Proof.
  unfold keys_sorted. rewrite negb_true_iff. apply windows2_sorted; [apply _|].
  intros x y. destruct (key_cmp x y); naive_solver.
Qed.

Definition kv_cmp (a b : string * Value) : comparison := key_cmp a.1 b.1.
Definition sort_kvs (kvs : list (string * Value)) := sort_by kv_cmp kvs.

Lemma entries_spec kvs ordered :
  res_map (fun entry : string * Value =>
             let (key, value) := entry in
             let? encoded := encode_text key in
             Ok (encoded, encode_into value)) kvs = Ok ordered <->
  forallb native_text (map fst kvs) = true /\
  ordered = map (fun kv : string * Value => (key_bytes kv.1, encode_into kv.2)) kvs.
Proof.
  revert ordered. induction kvs as [|[k v] kvs IH]; intros ordered; cbn [res_map map forallb fst snd].
  - naive_solver.
  - rewrite bind_ok. setoid_rewrite bind_ok. setoid_rewrite IH. setoid_rewrite encode_text_spec.
    rewrite andb_true_iff. naive_solver.
Qed.

(** Encoding a map: distinct native keys, emitted in canonical order. *)
Lemma encode_map_spec kvs bs :
  encode_into (Map kvs) = Ok bs <->
  forallb native_text (map fst kvs) = true /\ keys_sorted (map fst (sort_kvs kvs)) = true /\
  exists encs, Forall2 (fun kv b => encode_into kv.2 = Ok b) (sort_kvs kvs) encs /\
    bs = head 5 (len kvs) ++ concat (zip_with app (map (fun kv => key_bytes kv.1) (sort_kvs kvs)) encs).
Proof.
  cbn [encode_into]. rewrite bind_ok. setoid_rewrite entries_spec.
  rewrite keys_sorted_spec, StronglySorted_map.
  set (f := fun kv : string * Value => (key_bytes kv.1, encode_into kv.2)).
  assert (Hsort : sort_by (fun l r : encoded_entry => canonical_key_cmp l.1 r.1) (map f kvs)
                  = map f (sort_kvs kvs)) by (unfold sort_kvs; by rewrite sort_by_map).
  assert (Hw : windows2_any (fun l r : encoded_entry => bool_decide (l.1 = r.1)) (map f (sort_kvs kvs))
               = false <-> StronglySorted (fun x y => key_cmp x.1 y.1 = Lt) (sort_kvs kvs)).
  { rewrite <- Hsort, (windows2_eq_sorted (fun l r : encoded_entry => canonical_key_cmp l.1 r.1)).
    - by rewrite Hsort, StronglySorted_map.
    - intros x y. by rewrite bool_decide_eq_true, canonical_key_cmp_eq. }
  split.
  - intros (ord & (Hn & ->) & Hem). unfold emit_map in Hem. fold f in Hem. rewrite Hsort in Hem.
    apply guard_ok in Hem as [Hw' Hem]. apply bind_ok in Hem as (rest & Hem & [= <-]).
    apply emit_entries_spec in Hem as (encs & HF & ->).
    split_and!; [done|by apply Hw|]. exists encs. split.
    + apply Forall2_fmap_l in HF. done.
    + rewrite len_map, map_map. f_equal. unfold len. do 2 f_equal.
      apply sort_by_length.
  - intros (Hn & Hs & encs & HF & ->). eexists. split; [done|].
    unfold emit_map. fold f. rewrite Hsort. apply guard_ok. split; [by apply Hw|].
    apply bind_ok. eexists. split.
    + apply emit_entries_spec. exists encs. split; [|done]. by apply Forall2_fmap_l.
    + rewrite len_map, map_map. f_equal. f_equal. unfold len. do 2 f_equal. apply sort_by_length.
Qed.

Lemma zip_app_len {A} (l : list A) (f : A -> list byte) (g h : A -> Z) encs :
  (forall a, len (f a) = g a) -> Forall2 (fun a b => len b = h a) l encs ->
  len (concat (zip_with app (map f l) encs)) = sumZ (map (fun a => g a + h a) l).
Proof.
  intros Hf. induction 1 as [|a b l encs Hb HF IH]; cbn; [done|].
  rewrite !len_app, IH, Hf, Hb. unfold sumZ. lia.
Qed.

(** The size computed by the bounds pass is the length of the output. *)
Lemma encode_len v bs : encode_into v = Ok bs -> len bs = size v.
Proof.
  revert bs. induction v as [|b|n|bs'|s|vs IH|kvs IH] using Value_nested_ind; intros bs Henc.
  - by injection Henc as <-.
  - destruct b; by injection Henc as <-.
  - injection Henc as <-. apply len_head.
  - injection Henc as <-. by rewrite len_app, len_head.
  - apply encode_text_spec in Henc as [_ ->]. apply len_key_bytes.
  - cbn [encode_into] in Henc. apply bind_ok in Henc as (parts & HF & [= <-]).
    rewrite len_app, len_head. cbn [size]. f_equal. rewrite concat_length_sum.
    unfold sumZ. f_equal. apply res_map_Forall2 in HF.
    revert IH. induction HF as [|v b vs parts Hv HF IH']; intros IH; cbn; [done|]. inv IH.
    f_equal; auto.
  - apply encode_map_spec in Henc as (_ & _ & encs & HF & ->).
    rewrite len_app, len_head. cbn [size]. f_equal.
    rewrite (zip_app_len _ _ (fun kv => text_size kv.1) (fun kv => size kv.2));
      [|intros; apply len_key_bytes|].
    + apply sumZ_perm, Permutation_map, sort_by_perm.
    + assert (IH' : Forall (fun kv => forall bs, encode_into kv.2 = Ok bs -> len bs = size kv.2)
                      (sort_kvs kvs)) by (unfold sort_kvs; by rewrite sort_by_perm).
      eapply Forall2_Forall_impl; [exact IH'|exact HF|]. cbn. auto.
Qed.
End Encode.
Import Encode.

(** ** The parser reads exactly the canonical encodings *)
Module Parse.
Import Parser.

(** [inp] is what is left of the input. *)
Definition at_input (p : Parser) (inp : list byte) : Prop :=
  0 <= pos p /\ pos p + len inp = len (bytes p) /\ len (bytes p) <= u64_max /\
  drop (Z.to_nat (pos p)) (bytes p) = inp.

(** The parser after [n] more bytes and [c] more items. *)
Definition advance (p : Parser) (n c : Z) : Parser :=
  {| bytes := bytes p; pos := pos p + n; limits := limits p; items := items p + c |}.

Lemma advance_advance p n c n' c' : advance (advance p n c) n' c' = advance p (n + n') (c + c').
Proof. unfold advance; cbn. f_equal; lia. Qed.

Lemma at_input_advance p s rest n c :
  at_input p (s ++ rest) -> n = len s -> at_input (advance p n c) rest.
Proof.
  intros (H1 & H2 & H3 & H4) ->. rewrite len_app in H2. pose proof (len_nonneg s).
  split_and!; cbn; [lia|lia|done|by eapply drop_prefix].
Qed.

(** [self.bytes[start..self.at]] is the slice just consumed. *)
Lemma consumed_slice p s rest c :
  at_input p (s ++ rest) ->
  firstn (Z.to_nat (pos (advance p (len s) c) - pos p))
    (skipn (Z.to_nat (pos p)) (bytes (advance p (len s) c))) = s.
Proof.
  intros (_ & _ & _ & Hd). cbn. rewrite Hd.
  replace (pos p + len s - pos p) with (len s) by lia.
  unfold len. by rewrite Nat2Z.id, take_app_length.
Qed.

Lemma at_input_items p inp n : at_input p inp -> at_input (with_items p n) inp.
Proof. done. Qed.

Lemma take_spec p inp n s p' :
  at_input p inp -> 0 <= n ->
  take p n = Ok (s, p') <->
  len s = n /\ (exists rest, inp = s ++ rest) /\ p' = advance p n 0.
Proof.
  intros (H1 & H2 & H3 & H4) Hn. unfold take, with_pos, advance, checked_add. split.
  - destruct (Z.leb_spec (pos p + n) u64_max); cbn [ok_or res_bind]; [|done].
    destruct (get_range _ _ _) eqn:E; cbn [ok_or res_bind]; [|done]. intros [= <- <-].
    pose proof (get_range_length _ _ _ _ E). apply get_range_Some in E as (? & ? & ->).
    split_and!; [lia| |by rewrite Z.add_0_r].
    exists (drop (Z.to_nat (pos p + n - pos p)) inp).
    by rewrite H4, take_drop.
  - intros (Hl & [rest ->] & ->). rewrite len_app in H2. pose proof (len_nonneg rest).
    rewrite (proj2 (Z.leb_le _ _)) by lia. cbn [ok_or res_bind].
    rewrite <- Hl, (get_range_prefix _ _ s rest) by (done || lia). cbn. by rewrite Z.add_0_r.
Qed.

Lemma long_argument_spec p inp k least n p' :
  at_input p inp ->
  long_argument p (Z.of_nat k) least = Ok (n, p') <->
  least <= n < 2 ^ (8 * Z.of_nat k) /\ 0 <= n /\
  (exists rest, inp = be_bytes k n ++ rest) /\ p' = advance p (Z.of_nat k) 0.
Proof.
  intros Hat. unfold long_argument. rewrite bind_ok. split.
  - intros ([bs q] & Ht & Hv). apply (take_spec _ inp) in Ht as (Hl & [rest ->] & ->); [|done|lia].
    apply guard_ok in Hv as [?%Z.ltb_ge [= <- <-]].
    pose proof (be_value_range bs) as Hr. rewrite Hl in Hr. split_and!; try lia; try done.
    exists rest. by rewrite be_bytes_value_len by (unfold len in Hl; lia).
  - intros (Hr & Hn & [rest ->] & ->). exists (be_bytes k n, advance p (Z.of_nat k) 0). split.
    + apply (take_spec _ (be_bytes k n ++ rest)); [done|lia|]. rewrite len_be_bytes. eauto.
    + rewrite be_value_bytes, Z.mod_small by lia. apply guard_ok. rewrite Z.ltb_ge. split; [lia|done].
Qed.

(** The argument is read in its shortest form only. *)
Lemma argument_spec p inp a n p' :
  at_input p inp -> 0 <= a < 32 ->
  argument p a = Ok (n, p') <->
  0 <= n <= u64_max /\ a = ai n /\ (exists rest, inp = ext n ++ rest) /\
  p' = advance p (len (ext n)) 0.
Proof.
  intros Hat Ha. unfold argument, ai, ext, u8_max, u16_max, u32_max, u64_max.
  destruct (Z.leb_spec a 23).
  { split.
    - intros [= <- <-]. rewrite (proj2 (Z.ltb_lt _ _)) by lia. split_and!; try lia; [by exists inp|].
      unfold advance. destruct p; cbn. by rewrite !Z.add_0_r.
    - intros (Hn & Hai & _ & ->). repeat case_match; bool_to_prop; try lia. subst a.
      unfold advance. destruct p; cbn. by rewrite !Z.add_0_r. }
  repeat match goal with |- context [?x =? ?y] => destruct (Z.eqb_spec x y) as [->|] end.
  1: rewrite (long_argument_spec _ inp 1) by done.
  2: rewrite (long_argument_spec _ inp 2) by done.
  3: rewrite (long_argument_spec _ inp 4) by done.
  4: rewrite (long_argument_spec _ inp 8) by done.
  all: cbn -[Z.leb Z.ltb be_bytes len Z.lt Z.le].
  all: split; [intros Hx|intros (? & Hai & Hx)]; repeat case_match; bool_to_prop; try lia.
  all: try (rewrite len_be_bytes in * ); try (split_and!; try lia; naive_solver).
  all: done.
Qed.

(** A reader [f] returns [v] exactly when [v] is acceptable, fits the item
    budget, and its encoding is next in the input. *)
Definition reads (L : Limits) (f : Parser -> M Value) (ok : Value -> bool) : Prop :=
  forall p inp v p', at_input p inp -> limits p = L ->
    f p = Ok (v, p') <->
    ok v = true /\ items p + count v <= max_items L /\
    exists enc, encode_into v = Ok enc /\ (exists rest, inp = enc ++ rest) /\
      p' = advance p (len enc) (count v).

Section loops.
Variables (L : Limits) (f : Parser -> M Value) (ok : Value -> bool).
Hypothesis Hf : reads L f ok.

Lemma array_items_spec n p inp vs p' :
  at_input p inp -> limits p = L -> items p <= max_items L ->
  array_items f n p = Ok (vs, p') <->
  length vs = n /\ forallb ok vs = true /\ items p + sumZ (map count vs) <= max_items L /\
  exists encs, Forall2 (fun v b => encode_into v = Ok b) vs encs /\
    (exists rest, inp = concat encs ++ rest) /\
    p' = advance p (len (concat encs)) (sumZ (map count vs)).
Proof.
  revert p inp vs p'. induction n as [|n IH]; intros p inp vs p' Hat HL Hi; cbn [array_items].
  - split.
    + intros [= <- <-]. cbn. split_and!; [done..|lia|]. exists []. split; [done|]. cbn.
      split; [by exists inp|]. unfold advance. destruct p; cbn. by rewrite !Z.add_0_r.
    + intros (->%nil_length_inv & _ & _ & encs & HF & _ & ->). inv HF.
      unfold advance. destruct p; cbn. by rewrite !Z.add_0_r.
  - rewrite bind_ok. split.
    + intros ([v q] & Hv & Hrun). apply (Hf p inp) in Hv as (Hok & Hc & enc & He & [rest ->] & ->); [|done..].
      apply bind_ok in Hrun as ([vs0 q] & Hrun & [= <- <-]).
      apply (IH _ rest) in Hrun as (<- & Hoks & Hcs & encs & HF & [rest' ->] & ->);
        [|by eapply at_input_advance|done|done].
      cbn in *. rewrite Hok, Hoks. unfold sumZ in *. split_and!; [done..|lia|].
      exists (enc :: encs). split; [by constructor|]. cbn.
      split; [exists rest'; by rewrite <- app_assoc|]. by rewrite advance_advance, len_app.
    + intros (Hl & Hok & Hc & encs & HF & [rest ->] & ->).
      destruct HF as [|v enc vs encs He HF]; [done|]. cbn in Hok, Hc, Hl.
      apply andb_true_iff in Hok as [Hok Hoks].
      pose proof (sum_size_nonneg count vs count_pos). unfold sumZ in *.
      cbn [concat] in Hat. rewrite <- app_assoc in Hat.
      exists (v, advance p (len enc) (count v)). split.
      { eapply Hf; [done|done|]. split_and!; [done|lia|]. eauto. }
      apply bind_ok. eexists (vs, _). split; [|done].
      eapply IH; [by eapply at_input_advance|done|cbn; lia|].
      cbn. unfold sumZ. split_and!; [lia|done|lia|]. exists encs. split_and!; [done|by eexists|].
      by rewrite advance_advance, len_app.
Qed.

(** The order test of the map loop. *)
Fixpoint chained (prior : option (list byte)) (ks : list string) : Prop :=
  match ks with
  | [] => True
  | k :: ks =>
      match prior with
      | Some b => canonical_key_cmp b (key_bytes k) = Lt
      | None => True
      end /\ chained (Some (key_bytes k)) ks
  end.

Lemma chained_sorted ks : chained None ks <-> keys_sorted ks = true.
Proof.
  rewrite keys_sorted_spec. destruct ks as [|k ks]; cbn [chained]; [split; [constructor|done]|].
  split.
  - intros [_ Hc]. apply Sorted_StronglySorted; [apply _|]. revert k Hc.
    induction ks as [|k' ks IH]; intros k Hc; [repeat constructor|]. destruct Hc as [Hlt Hc].
    constructor; [by apply IH|by constructor].
  - intros Hs. split; [done|]. revert k Hs. induction ks as [|k' ks IH]; intros k Hs; [done|].
    apply StronglySorted_cons in Hs as [Hk Hs]. inv Hk. split; [done|]. by apply IH.
Qed.

Definition entry_count (kv : string * Value) : Z := 1 + count kv.2.

Lemma entries_count_nonneg kvs : len kvs <= sumZ (map entry_count kvs).
Proof.
  apply sumZ_nonneg, Forall_true. intros [k v]. unfold entry_count; cbn.
  pose proof (count_pos v). lia.
Qed.

Lemma map_entries_spec n prior p inp kvs p' :
  at_input p inp -> limits p = L -> items p <= max_items L ->
  map_entries f n prior p = Ok (kvs, p') <->
  length kvs = n /\ forallb (fun kv : string * Value => ok (Text kv.1) && ok kv.2) kvs = true /\
  chained prior (map fst kvs) /\ forallb native_text (map fst kvs) = true /\
  items p + sumZ (map entry_count kvs) <= max_items L /\
  exists encs, Forall2 (fun kv b => encode_into kv.2 = Ok b) kvs encs /\
    (exists rest, inp = concat (zip_with app (map (fun kv => key_bytes kv.1) kvs) encs) ++ rest) /\
    p' = advance p (len (concat (zip_with app (map (fun kv => key_bytes kv.1) kvs) encs)))
                   (sumZ (map entry_count kvs)).
Proof.
  revert prior p inp kvs p'. induction n as [|n IH]; intros prior p inp kvs p' Hat HL Hi; cbn [map_entries].
  - split.
    + intros [= <- <-]. cbn. split_and!; [done..|lia|]. exists []. split; [done|]. cbn.
      split; [by exists inp|]. unfold advance. destruct p; cbn. by rewrite !Z.add_0_r.
    + intros (->%nil_length_inv & _ & _ & _ & _ & encs & HF & _ & ->). inv HF.
      unfold advance. destruct p; cbn. by rewrite !Z.add_0_r.
  - rewrite bind_ok. split.
    + intros ([key q] & Hk & Hrun). pose proof Hk as Hk'.
      apply (Hf p inp) in Hk as (Hokk & Hck & enck & Hek & [rest ->] & ->); [|done..].
      apply guard_ok in Hrun as [Hpr Hrun].
      destruct key as [| | | |k| |]; try discriminate Hrun.
      apply bind_ok in Hrun as ([v q] & Hv & Hrun).
      assert (Hat1 : at_input (advance p (len enck) (count (Text k))) rest) by by eapply at_input_advance.
      apply (Hf _ rest) in Hv as (Hokv & Hcv & encv & Hev & [rest' ->] & ->); [|done..].
      apply bind_ok in Hrun as ([kvs0 q] & Hrun & [= <- <-]).
      pose proof Hek as [Hnk ->]%encode_text_spec.
      rewrite (consumed_slice _ _ _ _ Hat) in Hpr, Hrun.
      apply (IH _ _ rest') in Hrun as (<- & Hoks & Hch & Hn & Hcs & encs & HF & [rest ->] & ->);
        [|by eapply at_input_advance|done|done].
      cbn [fst snd map forallb length chained items advance zip_with concat count] in *.
      rewrite Hokk, Hokv, Hoks, Hnk. unfold entry_count, sumZ in *; cbn [map foldr snd] in *.
      split_and!; [done..| |done|done|lia|].
      { destruct prior; [|done]. apply negb_false_iff in Hpr. by destruct (canonical_key_cmp _ _). }
      exists (encv :: encs). split; [by constructor|]. cbn.
      split; [exists rest; by rewrite <- !app_assoc|]. rewrite !advance_advance, !len_app. f_equal; lia.
    + intros (Hl & Hok & Hch & Hn & Hc & encs & HF & [rest ->] & ->).
      destruct HF as [|[k v] encv kvs encs He HF]; [done|]. cbn [fst snd map forallb length] in *.
      apply andb_true_iff in Hok as [[Hokk Hokv]%andb_true_iff Hoks].
      apply andb_true_iff in Hn as [Hnk Hn]. destruct Hch as [Hpr Hch].
      pose proof (entries_count_nonneg kvs). pose proof (len_nonneg kvs). pose proof (count_pos v).
      cbn [sumZ map foldr zip_with concat] in *. unfold entry_count at 1 in Hc. cbn [snd] in Hc.
      rewrite <- !app_assoc in Hat.
      assert (Hkey : encode_into (Text k) = Ok (key_bytes k)) by (apply encode_text_spec; done).
      exists (Text k, advance p (len (key_bytes k)) 1). split.
      { eapply Hf; [done|done|]. split_and!; [done|cbn; unfold sumZ in *; lia|]. eauto. }
      rewrite (consumed_slice _ _ _ _ Hat).
      apply guard_ok. split; [destruct prior; [by rewrite Hpr|done]|].
      assert (Hat1 : at_input (advance p (len (key_bytes k)) 1)
                (encv ++ concat (zip_with app (map (fun kv : string * Value => key_bytes kv.1) kvs) encs) ++ rest))
        by by eapply at_input_advance.
      apply bind_ok. exists (v, advance (advance p (len (key_bytes k)) 1) (len encv) (count v)). split.
      { eapply Hf; [done|done|]. cbn. unfold sumZ in *. split_and!; [done|lia|]. eauto. }
      apply bind_ok. eexists (kvs, _). split; [|done].
      eapply IH; [by eapply at_input_advance|done|cbn; unfold sumZ in *; lia|].
      cbn. unfold sumZ in *. split_and!; [lia|done|done|done|lia|]. exists encs. split_and!; [done|by eexists|].
      rewrite !advance_advance, !len_app. unfold entry_count; cbn. f_equal; lia.
Qed.
End loops.

Section value.
Variable L : Limits.
Hypothesis HL : limits_ok L.

Definition acceptable (depth : Z) (v : Value) : bool := canonical v && within L depth v.

Lemma within_depth depth v : within L depth v = true -> depth <= max_depth L.
Proof.
  destruct v; cbn; unfold text_within; rewrite ?andb_true_iff, ?Z.leb_le; lia.
Qed.

Lemma items_exceed_spec p extra :
  limits p = L -> items_exceed p extra = Ok false <-> items p + extra <= max_items L.
Proof.
  intros Hl. destruct HL as [_ Hi]. unfold items_exceed, checked_add. rewrite Hl.
  destruct (Z.leb_spec (items p + extra) u64_max); cbn [ok_or res_bind]; [|split; [done|lia]].
  destruct (Z.ltb_spec (max_items L) (items p + extra)); split; (done || lia).
Qed.

Lemma with_items_advance p : advance (with_items p (items p + 1)) 1 0 = advance p 1 1.
Proof. unfold advance, with_items; cbn. by rewrite Z.add_0_r. Qed.

(** What is common to all values: the depth, the item and the initial byte. *)
Lemma value_step fuel depth p inp r :
  at_input p inp -> limits p = L ->
  value (S fuel) depth p = Ok r <->
  depth <= max_depth L /\ items p + 1 <= max_items L /\
  exists m a rest, 0 <= m < 8 /\ 0 <= a < 32 /\ inp = byte_of_Z (Z.lor (Z.shiftl m 5) a) :: rest /\
    value_of_head (value fuel (depth + 1)) m a (advance p 1 1) = Ok r.
Proof.
  intros Hat Hl. destruct HL as [_ Hi]. cbn [value]. rewrite Hl, guard_ok, Z.ltb_ge, bind_ok. split.
  - intros (Hd & n & Hn & Hrun). unfold checked_add in Hn.
    destruct (Z.leb_spec (items p + 1) u64_max); [|done]. injection Hn as <-.
    apply guard_ok in Hrun as [Hm%Z.ltb_ge Hrun]. split_and!; [done|done|].
    apply bind_ok in Hrun as ([bs q2] & Ht & Hrun).
    apply (take_spec _ inp) in Ht as (Hlen & [rest ->] & ->); [|by apply at_input_items|lia].
    destruct bs as [|b [|]]; [done| |rewrite !len_cons in Hlen; pose proof (len_nonneg l); lia].
    pose proof (initial_range b) as [? ?].
    exists (Z.shiftr (bZ b) 5), (Z.land (bZ b) 31), rest. rewrite unpacked. split_and!; try lia; [done|].
    by rewrite <- with_items_advance.
  - intros (Hd & Hm & m & a & rest & Hm' & Ha & -> & Hrun). split; [done|].
    exists (items p + 1). split.
    { unfold checked_add. by rewrite (proj2 (Z.leb_le _ _)) by lia. }
    apply guard_ok. split; [by apply Z.ltb_ge|]. apply bind_ok.
    eexists ([byte_of_Z (Z.lor (Z.shiftl m 5) a)], _). split.
    { eapply (take_spec _ (_ :: rest)); [by apply at_input_items|lia|]. split_and!; [done|by exists rest|done]. }
    cbn [nth]. destruct (packed_spec m a Hm' Ha) as [-> ->]. by rewrite with_items_advance.
Qed.

Lemma native_text_bytes bs : native_text (str_of_bytes bs) = forallb native_ascii bs.
Proof. unfold native_text. by rewrite str_bytes_of_bytes. Qed.

Lemma utf8_native bs : forallb native_ascii bs = true -> utf8_valid bs = true.
Proof.
  induction bs as [|b bs IH]; cbn [forallb utf8_valid]; [done|].
  intros [Hb Hbs]%andb_true_iff. rewrite (proj2 (Z.ltb_lt _ _)); [by apply IH|].
  unfold native_ascii in Hb. apply orb_true_iff in Hb as [Hb|Hb]; bool_to_prop; lia.
Qed.

Lemma sort_kvs_sorted kvs : keys_sorted (map fst kvs) = true -> sort_kvs kvs = kvs.
Proof.
  rewrite keys_sorted_spec, StronglySorted_map. intros Hs. apply sort_by_sorted_id, Hs.
Qed.

Lemma encode_sorted_map kvs bs :
  keys_sorted (map fst kvs) = true ->
  encode_into (Map kvs) = Ok bs <->
  forallb native_text (map fst kvs) = true /\
  exists encs, Forall2 (fun kv b => encode_into kv.2 = Ok b) kvs encs /\
    bs = head 5 (len kvs) ++ concat (zip_with app (map (fun kv => key_bytes kv.1) kvs) encs).
Proof.
  intros Hs. rewrite encode_map_spec, sort_kvs_sorted by done. naive_solver.
Qed.

Lemma advance_head p major n c : advance (advance p 1 1) (len (ext n)) c = advance p (len (head major n)) (1 + c).
Proof. rewrite advance_advance, head_split, len_cons. done. Qed.

(** Reading the argument of a value whose initial byte has been consumed. *)
Lemma head_argument p m a rest n q :
  at_input (advance p 1 1) rest -> 0 <= m -> 0 <= a < 32 ->
  argument (advance p 1 1) a = Ok (n, q) ->
  0 <= n <= u64_max /\ q = advance p (len (head m n)) 1 /\
  exists rest', rest = ext n ++ rest' /\ at_input q rest' /\
    byte_of_Z (Z.lor (Z.shiftl m 5) a) :: rest = head m n ++ rest'.
Proof.
  intros Hat Hm Ha Harg. apply (argument_spec _ rest) in Harg as (Hn & -> & [rest' ->] & ->); [|done..].
  rewrite (advance_head p m). split_and!; [lia|lia|done|]. exists rest'. split_and!; [done| |].
  - rewrite <- (advance_head p m). by eapply at_input_advance.
  - by rewrite head_split.
Qed.

Definition next (p : Parser) (inp : list byte) (depth : Z) (v : Value) (p' : Parser) : Prop :=
  acceptable depth v = true /\ items p + count v <= max_items L /\
  exists enc, encode_into v = Ok enc /\ (exists rest, inp = enc ++ rest) /\
    p' = advance p (len enc) (count v).

Lemma forallb_acceptable depth vs :
  forallb (acceptable depth) vs = forallb canonical vs && forallb (within L depth) vs.
Proof.
  induction vs as [|v vs IH]; cbn; [done|]. rewrite IH. unfold acceptable.
  destruct (canonical v), (within L depth v), (forallb canonical vs); done.
Qed.

Lemma forallb_acceptable_entries depth (kvs : list (string * Value)) :
  forallb (fun kv => acceptable depth (Text kv.1) && acceptable depth kv.2) kvs =
  forallb (fun kv => canonical kv.2) kvs &&
  forallb (fun kv => text_within L depth kv.1 && within L depth kv.2) kvs.
Proof.
  induction kvs as [|[k v] kvs IH]; cbn [forallb fst snd]; [done|]. rewrite IH. unfold acceptable.
  cbn [canonical within]. destruct (canonical v), (within L depth v), (text_within L depth k); cbn; try done.
  all: by rewrite ?andb_false_r.
Qed.

Lemma Z_to_nat_len {A} (l : list A) n : 0 <= n -> length l = Z.to_nat n -> n = len l.
Proof. unfold len. lia. Qed.

(** Consume the argument of an initial byte of major type [m] in [Hrun]. *)
Ltac read_argument Hrun p m :=
  let Harg := fresh "Harg" in let inp := fresh "inp" in let Hbytes := fresh "Hbytes" in
  apply bind_ok in Hrun as ([n ?] & Harg & Hrun);
  eapply (head_argument p m) in Harg as (Hn & -> & rest & inp & Hat2 & Hbytes); [|done|lia|done];
  subst; rewrite Hbytes.

Section head.
Variables (f : Parser -> M Value) (depth : Z) (p : Parser).
Hypothesis Hf : reads L f (acceptable (depth + 1)).
Hypothesis Hl : limits p = L.
Hypothesis Hd : depth <= max_depth L.
Hypothesis Hi : items p + 1 <= max_items L.

Lemma array_sound n rest out q :
  at_input (advance p (len (head 4 n)) 1) rest -> 0 <= n <= max_collection_items L ->
  array_items f (Z.to_nat n) (advance p (len (head 4 n)) 1) = Ok (out, q) ->
  next p (head 4 n ++ rest) depth (Array out) q.
Proof.
  intros Hat Hn Hrun. apply (array_items_spec L f _ Hf _ _ rest) in Hrun
    as (Hlen & Hok & Hc & encs & HF & [rest' ->] & ->); [|done..].
  apply Z_to_nat_len in Hlen as ->; [|lia]. rewrite forallb_acceptable in Hok. bool_to_prop.
  split_and!; cbn in *.
  - unfold acceptable; cbn. rewrite !andb_true_iff, !Z.leb_le. split_and!; try done; lia.
  - unfold sumZ in *. lia.
  - exists (head 4 (len out) ++ concat encs). split_and!.
    + rewrite (proj2 (res_map_Forall2 _ _ _) HF). done.
    + exists rest'. by rewrite <- app_assoc.
    + by rewrite advance_advance, len_app.
Qed.

Lemma map_sound n rest out q :
  at_input (advance p (len (head 5 n)) 1) rest -> 0 <= n <= max_collection_items L ->
  map_entries f (Z.to_nat n) None (advance p (len (head 5 n)) 1) = Ok (out, q) ->
  next p (head 5 n ++ rest) depth (Map out) q.
Proof.
  intros Hat Hn Hrun. apply (map_entries_spec L f _ Hf _ _ _ rest) in Hrun
    as (Hlen & Hok & Hch & Hnat & Hc & encs & HF & [rest' ->] & ->); [|done..].
  apply chained_sorted in Hch.
  apply Z_to_nat_len in Hlen as ->; [|lia]. rewrite forallb_acceptable_entries in Hok. bool_to_prop.
  split_and!.
  - unfold acceptable; cbn. rewrite !andb_true_iff, !Z.leb_le. split_and!; try done; lia.
  - cbn in *. unfold entry_count, sumZ in *. lia.
  - eexists. split_and!.
    + apply encode_sorted_map; [done|]. split; [done|]. by eexists.
    + exists rest'. by rewrite <- app_assoc.
    + rewrite advance_advance, len_app. done.
Qed.

Lemma head_sound m a inp v q :
  at_input p (byte_of_Z (Z.lor (Z.shiftl m 5) a) :: inp) -> 0 <= m < 8 -> 0 <= a < 32 ->
  value_of_head f m a (advance p 1 1) = Ok (v, q) ->
  next p (byte_of_Z (Z.lor (Z.shiftl m 5) a) :: inp) depth v q.
Proof.
  intros Hat Hm Ha Hrun.
  assert (Hat1 : at_input (advance p 1 1) inp) by (by apply (at_input_advance p [byte_of_Z (Z.lor (Z.shiftl m 5) a)])).
  assert (Hleaf : forall v, canonical v = true -> within L depth v = true -> count v = 1 ->
            forall enc, encode_into v = Ok enc -> forall rest, next p (enc ++ rest) depth v (advance p (len enc) 1)).
  { intros v0 Hc Hw Hct enc He rest. unfold next, acceptable. rewrite Hc, Hw, Hct. eauto 10. }
  unfold value_of_head in Hrun.
  destruct (Z.eqb_spec m 0) as [->|N0]; [|destruct (Z.eqb_spec m 1) as [->|N1]; [done|
    destruct (Z.eqb_spec m 2) as [->|N2]; [|destruct (Z.eqb_spec m 3) as [->|N3];
    [|destruct (Z.eqb_spec m 4) as [->|N4]; [|destruct (Z.eqb_spec m 5) as [->|N5];
    [|destruct (Z.eqb_spec m 6) as [->|N6]; [done|]]]]]]].
  1: read_argument Hrun p 0. 2: read_argument Hrun p 2. 3: read_argument Hrun p 3.
  4: read_argument Hrun p 4. 5: read_argument Hrun p 5.
  - injection Hrun as <- <-. rewrite <- (app_nil_r (head 0 n)) at 2. rewrite app_nil_r.
    apply (Hleaf (Unsigned n)); [|by apply Z.leb_le|done|done]. cbn. rewrite andb_true_iff, !Z.leb_le. lia.
  - apply bind_ok in Hrun as ([bs q2] & Ht & [= <- <-]).
    apply (take_spec _ _ _ _ _ Hat2) in Ht as (<- & [rest' ->] & ->); [|lia].
    rewrite app_assoc, advance_advance, <- len_app. apply (Hleaf (Bytes bs)); try done. by apply Z.leb_le.
  - apply guard_ok in Hrun as [Htl%Z.ltb_ge Hrun]. apply bind_ok in Hrun as ([bs q2] & Ht & Hrun).
    apply (take_spec _ _ _ _ _ Hat2) in Ht as (<- & [rest' ->] & ->); [|lia].
    apply guard_ok in Hrun as [_ Hrun]. apply guard_ok in Hrun as [Hnat [= <- <-]].
    apply negb_false_iff in Hnat. rewrite app_assoc, advance_advance, <- len_app.
    cbn in Htl. rewrite Hl in Htl.
    apply (Hleaf (Text (str_of_bytes bs))); [done| |done|].
    + cbn. unfold text_within, slen. rewrite str_bytes_of_bytes, native_text_bytes, Hnat.
      rewrite !andb_true_iff, !Z.leb_le. done.
    + apply encode_text_spec. rewrite native_text_bytes. split; [done|].
      unfold key_bytes, slen. by rewrite str_bytes_of_bytes.
  - apply guard_ok in Hrun as [Hcl%Z.ltb_ge Hrun]. cbn in Hcl. rewrite Hl in Hcl.
    apply bind_ok in Hrun as (? & _ & Hrun). apply guard_ok in Hrun as [_ Hrun].
    apply bind_ok in Hrun as ([out q1] & Hrun & [= <- <-]). eapply array_sound; [done|lia|done].
  - apply guard_ok in Hrun as [Hcl%Z.ltb_ge Hrun]. cbn in Hcl. rewrite Hl in Hcl.
    apply bind_ok in Hrun as (? & _ & Hrun). apply guard_ok in Hrun as [_ Hrun].
    apply bind_ok in Hrun as ([out q1] & Hrun & [= <- <-]). eapply map_sound; [done|lia|done].
  - assert (m = 7) as -> by lia.
    destruct (Z.eqb_spec a 20) as [->|]; [|destruct (Z.eqb_spec a 21) as [->|];
      [|destruct (Z.eqb_spec a 22) as [->|]; [|done]]]; injection Hrun as <- <-.
    + apply (Hleaf (Bool false) eq_refl ltac:(by apply Z.leb_le) eq_refl _ eq_refl inp).
    + apply (Hleaf (Bool true) eq_refl ltac:(by apply Z.leb_le) eq_refl _ eq_refl inp).
    + apply (Hleaf Null eq_refl ltac:(by apply Z.leb_le) eq_refl _ eq_refl inp).
Qed.

Lemma head_argument_complete m n rest :
  at_input p (head m n ++ rest) -> 0 <= n <= u64_max ->
  argument (advance p 1 1) (ai n) = Ok (n, advance p (len (head m n)) 1) /\
  at_input (advance p (len (head m n)) 1) rest.
Proof.
  intros Hat Hn. split; [|by eapply at_input_advance]. pose proof (ai_range n ltac:(lia)).
  assert (Hat1 : at_input (advance p 1 1) (ext n ++ rest)).
  { rewrite head_split in Hat. by apply (at_input_advance p [byte_of_Z (Z.lor (Z.shiftl m 5) (ai n))]). }
  apply (argument_spec _ _ _ _ _ Hat1); [lia|]. split_and!; [lia..|done|by exists rest|].
  by rewrite (advance_head p m).
Qed.

(** The value after its initial byte, for a value whose encoding starts with
    the head [m], [n]. *)
Definition completes (v : Value) (m n : Z) (rest : list byte) (q : Parser) : Prop :=
  at_input p (head m n ++ rest) -> 0 <= n <= u64_max ->
  value_of_head f m (ai n) (advance p 1 1) = Ok (v, q).

Lemma bytes_complete bs rest :
  completes (Bytes bs) 2 (len bs) (bs ++ rest) (advance p (len (head 2 (len bs) ++ bs)) 1).
Proof.
  intros Hat Hn. destruct (head_argument_complete _ _ _ Hat Hn) as [Harg Hat'].
  cbn -[argument ai len head]. rewrite Harg. cbn [res_bind].
  rewrite (proj2 (take_spec _ _ _ bs _ Hat' (len_nonneg bs))) by eauto. cbn [res_bind].
  by rewrite advance_advance, len_app.
Qed.

Lemma text_complete s rest :
  text_within L depth s = true ->
  completes (Text s) 3 (slen s) (str_bytes s ++ rest) (advance p (len (key_bytes s)) 1).
Proof.
  intros Hw Hat Hn. destruct (head_argument_complete _ _ _ Hat Hn) as [Harg Hat'].
  unfold text_within in Hw. bool_to_prop. unfold key_bytes, slen in *.
  cbn -[argument ai len head Z.ltb]. rewrite Harg. cbn [res_bind].
  apply guard_ok. split; [apply Z.ltb_ge; cbn; by rewrite Hl|].
  rewrite (proj2 (take_spec _ _ _ (str_bytes s) _ Hat' (len_nonneg _))) by eauto. cbn [res_bind].
  rewrite utf8_native by done. unfold native_text in *.
  match goal with H : forallb _ _ = true |- _ => rewrite H end. cbn [negb].
  by rewrite str_of_str_bytes, advance_advance, len_app.
Qed.

Lemma array_complete vs encs rest :
  acceptable depth (Array vs) = true -> items p + count (Array vs) <= max_items L ->
  Forall2 (fun v b => encode_into v = Ok b) vs encs ->
  completes (Array vs) 4 (len vs) (concat encs ++ rest)
    (advance p (len (head 4 (len vs) ++ concat encs)) (count (Array vs))).
Proof.
  intros Hok Hc HF Hat Hn. destruct (head_argument_complete _ _ _ Hat Hn) as [Harg Hat'].
  unfold acceptable in Hok. cbn in Hok. bool_to_prop. cbn [count] in *.
  pose proof (sumZ_nonneg count vs ltac:(apply Forall_true; eauto with keep)).
  cbn -[argument ai len head Z.ltb items_exceed]. rewrite Harg. cbn [res_bind].
  apply guard_ok. split; [apply Z.ltb_ge; cbn; by rewrite Hl|].
  rewrite (proj2 (items_exceed_spec (advance p (len (head 4 (len vs))) 1) (len vs) Hl)) by (cbn; lia). cbn [res_bind].
  apply bind_ok. eexists (vs, _). split; [|done].
  eapply (array_items_spec L f _ Hf); [done|done|cbn; lia|].
  rewrite forallb_acceptable. split_and!.
  - unfold len. lia.
  - apply andb_true_iff. done.
  - cbn. lia.
  - exists encs. split_and!; [done|by eexists|]. by rewrite advance_advance, len_app.
Qed.

Lemma map_complete kvs encs rest :
  acceptable depth (Map kvs) = true -> items p + count (Map kvs) <= max_items L ->
  forallb native_text (map fst kvs) = true ->
  Forall2 (fun kv b => encode_into kv.2 = Ok b) kvs encs ->
  let body := concat (zip_with app (map (fun kv => key_bytes kv.1) kvs) encs) in
  completes (Map kvs) 5 (len kvs) (body ++ rest)
    (advance p (len (head 5 (len kvs) ++ body)) (count (Map kvs))).
Proof.
  intros Hok Hc Hnat HF body Hat Hn. destruct (head_argument_complete _ _ _ Hat Hn) as [Harg Hat'].
  unfold acceptable in Hok. cbn in Hok. bool_to_prop. cbn [count] in *.
  fold entry_count in Hc.
  assert (2 * len kvs <= sumZ (map entry_count kvs)).
  { apply sumZ_ge; [lia|]. apply Forall_true. intros [k v]. unfold entry_count; cbn.
    pose proof (count_pos v). lia. }
  pose proof (len_nonneg kvs).
  cbn -[argument ai len head Z.ltb items_exceed]. rewrite Harg. cbn [res_bind].
  apply guard_ok. split; [apply Z.ltb_ge; cbn; by rewrite Hl|].
  rewrite (proj2 (items_exceed_spec (advance p (len (head 5 (len kvs))) 1) _ Hl)) by (cbn; unfold saturating_mul, entry_count in *; lia). cbn [res_bind].
  apply bind_ok. eexists (kvs, _). split; [|done].
  eapply (map_entries_spec L f _ Hf); [done|done|cbn; unfold entry_count in *; lia|].
  rewrite forallb_acceptable_entries. split_and!.
  - unfold len. lia.
  - apply andb_true_iff. done.
  - by apply chained_sorted.
  - done.
  - cbn. unfold entry_count in *. lia.
  - exists encs. split_and!; [done|by eexists|]. by rewrite advance_advance, len_app.
Qed.

Lemma head_complete inp v q :
  at_input p inp -> next p inp depth v q ->
  exists m a rest, 0 <= m < 8 /\ 0 <= a < 32 /\
    inp = byte_of_Z (Z.lor (Z.shiftl m 5) a) :: rest /\ value_of_head f m a (advance p 1 1) = Ok (v, q).
Proof.
  intros Hat (Hok & Hc & enc & He & [rest ->] & ->).
  assert (Hgo : forall m n rest', 0 <= m < 8 -> 0 <= n <= u64_max -> enc ++ rest = head m n ++ rest' ->
            completes v m n rest' (advance p (len enc) (count v)) -> exists m a rest0,
            0 <= m < 8 /\ 0 <= a < 32 /\ enc ++ rest = byte_of_Z (Z.lor (Z.shiftl m 5) a) :: rest0 /\
            value_of_head f m a (advance p 1 1) = Ok (v, advance p (len enc) (count v))).
  { intros m n rest' Hm Hn Heq Hgo. rewrite Heq in Hat. exists m, (ai n), (ext n ++ rest').
    pose proof (ai_range n ltac:(lia)). rewrite Heq, head_split. split_and!; try lia; [done|by apply Hgo]. }
  assert (Hlen : len enc <= u64_max).
  { destruct Hat as (? & ? & ? & _). rewrite len_app in *. pose proof (len_nonneg rest). lia. }
  destruct v as [|b|n|bs|s|vs|kvs]; cbn [encode_into] in He.
  - injection He as <-. exists 7, 22, rest. done.
  - destruct b; injection He as <-; [exists 7, 21, rest|exists 7, 20, rest]; done.
  - injection He as <-. unfold acceptable in Hok; cbn in Hok. bool_to_prop.
    apply (Hgo 0 n rest); [lia|lia|done|]. intros Hat' Hn.
    destruct (head_argument_complete _ _ _ Hat' Hn) as [Harg _].
    cbn -[argument ai]. by rewrite Harg.
  - injection He as <-. rewrite len_app in Hlen. pose proof (len_nonneg bs).
    pose proof (len_nonneg (head 2 (len bs))).
    apply (Hgo 2 (len bs) (bs ++ rest)); [lia|lia|by rewrite <- app_assoc|]. apply bytes_complete.
  - apply encode_text_spec in He as [Hnat ->]. unfold key_bytes in Hlen. rewrite len_app in Hlen.
    fold (slen s) in Hlen. pose proof (len_nonneg (head 3 (slen s))). pose proof (len_nonneg (str_bytes s)).
    unfold acceptable in Hok; cbn in Hok.
    apply (Hgo 3 (slen s) (str_bytes s ++ rest)); [lia|unfold slen in *; lia|unfold key_bytes; by rewrite <- app_assoc|].
    by apply text_complete.
  - pose proof (encode_len (Array vs) _ He) as Hsz. rewrite Hsz in Hlen. cbn [size] in Hlen.
    apply bind_ok in He as (encs & HF & [= <-]). apply res_map_Forall2 in HF.
    pose proof (sumZ_nonneg size vs ltac:(apply Forall_true; eauto with keep)).
    pose proof (len_nonneg vs). pose proof (head_len_pos (len vs)).
    apply (Hgo 4 (len vs) (concat encs ++ rest)); [lia|lia|by rewrite <- app_assoc|].
    by apply array_complete.
  - assert (keys_sorted (map fst kvs) = true) as Hs.
    { unfold acceptable in Hok; cbn in Hok. bool_to_prop. done. }
    change (encode_into (Map kvs) = Ok enc) in He.
    pose proof (encode_len (Map kvs) _ He) as Hsz. rewrite Hsz in Hlen. cbn [size] in Hlen.
    apply encode_sorted_map in He as (Hnat & encs & HF & ->); [|done].
    pose proof (map_size_ge kvs). pose proof (len_nonneg kvs). pose proof (head_len_pos (len kvs)).
    apply (Hgo 5 (len kvs) (concat (zip_with app (map (fun kv => key_bytes kv.1) kvs) encs) ++ rest));
      [lia|lia|by rewrite <- app_assoc|]. by apply map_complete.
Qed.
End head.

(** The parser, with a recursion budget that covers the depth bound. *)
Lemma value_reads fuel depth :
  max_depth L < depth + Z.of_nat fuel -> reads L (value fuel depth) (acceptable depth).
Proof.
  revert depth. induction fuel as [|fuel IH]; intros depth Hd p inp v q Hat Hl.
  - cbn [value]. rewrite Hl, (proj2 (Z.ltb_lt _ _)) by lia. split; [done|].
    intros (Hok & _). unfold acceptable in Hok. bool_to_prop.
    assert (depth <= max_depth L) by (by apply (within_depth depth v)). lia.
  - specialize (IH (depth + 1) ltac:(lia)). rewrite value_step by done. split.
    + intros (Hd' & Hi & m & a & rest & Hm & Ha & -> & Hrun). by eapply head_sound.
    + intros Hn. pose proof Hn as (Hok & Hc & _). unfold acceptable in Hok. bool_to_prop.
      pose proof (count_pos v). split_and!; [by apply (within_depth depth v)|lia|]. apply (head_complete _ depth); (done || lia).
Qed.
End value.
End Parse.

(** ** Sorting the maps of a value *)
Module Canon.

Lemma canon_map kvs :
  canon (Map kvs) = Map (map (fun kv : string * Value => (kv.1, canon kv.2)) (sort_kvs kvs)).
Proof. cbn [canon]. by rewrite sort_by_map. Qed.

Lemma canon_keys (kvs : list (string * Value)) :
  map fst (map (fun kv : string * Value => (kv.1, canon kv.2)) kvs) = map fst kvs.
Proof. by rewrite map_map. Qed.

(** Facts about the entries of a map hold of the sorted entries too. *)
Lemma Forall_sort (P : string * Value -> Prop) kvs : Forall P kvs -> Forall P (sort_kvs kvs).
Proof. intros H. unfold sort_kvs. by rewrite sort_by_perm. Qed.

Lemma forallb_sort (f : string * Value -> bool) kvs : forallb f (sort_kvs kvs) = forallb f kvs.
Proof.
  apply eq_true_iff_eq. rewrite !forallb_Forall'. unfold sort_kvs. by rewrite sort_by_perm.
Qed.

Lemma sumZ_map_ext {A} (f g : A -> Z) l : Forall (fun a => f a = g a) l -> sumZ (map f l) = sumZ (map g l).
Proof. induction 1 as [|a l Ha H IH]; cbn; [done|]. unfold sumZ in *. lia. Qed.

Lemma forallb_map_ext {A B} (f : B -> bool) (g : A -> B) (h : A -> bool) l :
  Forall (fun a => f (g a) = h a) l -> forallb f (map g l) = forallb h l.
Proof. induction 1 as [|a l Ha H IH]; cbn; [done|]. by rewrite Ha, IH. Qed.

Lemma len_sort kvs : len (sort_kvs kvs) = len kvs.
Proof. unfold len. f_equal. apply sort_by_length. Qed.

Lemma count_canon v : count (canon v) = count v.
Proof.
  induction v as [|b0|n0|bs0|s0|vs IH|kvs IH] using Value_nested_ind; try done.
  - cbn. rewrite map_map. by rewrite (sumZ_map_ext _ count).
  - rewrite canon_map. cbn [count]. rewrite map_map. f_equal.
    rewrite (sumZ_map_ext _ (fun kv => 1 + count kv.2)).
    + apply sumZ_perm, Permutation_map, sort_by_perm.
    + apply Forall_sort. eapply Forall_impl; [exact IH|]. intros [k v]; cbn. lia.
Qed.

Lemma within_canon L depth v : within L depth (canon v) = within L depth v.
Proof.
  revert depth. induction v as [|b0|n0|bs0|s0|vs IH|kvs IH] using Value_nested_ind; intros depth; try done.
  - cbn. rewrite len_map. f_equal. apply forallb_map_ext.
    eapply Forall_impl; [exact IH|]. intros v Hv. apply Hv.
  - rewrite canon_map. cbn [within]. rewrite len_map, len_sort. f_equal.
    rewrite <- (forallb_sort _ kvs). apply forallb_map_ext, Forall_sort.
    eapply Forall_impl; [exact IH|]. intros [k v] Hv; cbn in *. by rewrite Hv.
Qed.

Lemma encode_canon v bs : encode_into v = Ok bs -> encode_into (canon v) = Ok bs.
Proof.
  revert bs. induction v as [|b0|n0|bs0|s0|vs IH|kvs IH] using Value_nested_ind; intros bs Henc; try done.
  - cbn [encode_into canon] in *. apply bind_ok in Henc as (encs & HF & [= <-]).
    rewrite len_map. apply bind_ok. exists encs. split; [|done].
    apply res_map_Forall2. apply res_map_Forall2 in HF. apply Forall2_fmap_l.
    eapply Forall2_Forall_impl; [exact IH|exact HF|]. auto.
  - rewrite canon_map. apply encode_map_spec in Henc as (Hn & Hs & encs & HF & ->).
    apply Parse.encode_sorted_map; rewrite canon_keys; [done|]. split.
    + rewrite forallb_forall in *. intros k Hk. apply Hn. rewrite in_map_iff in *.
      destruct Hk as (kv & <- & Hkv). exists kv. split; [done|].
      rewrite <- !list_elem_of_In in *. by rewrite <- (sort_by_perm kv_cmp kvs).
    + exists encs. split.
      * apply Forall2_fmap_l. eapply Forall2_Forall_impl; [apply Forall_sort, IH|exact HF|]. cbn. auto.
      * by rewrite len_map, len_sort, map_map.
Qed.

Lemma canonical_canon v bs : u64_values v = true -> encode_into v = Ok bs -> canonical (canon v) = true.
Proof.
  revert bs. induction v as [|b0|n0|bs0|s0|vs IH|kvs IH] using Value_nested_ind; intros bs Hu Henc; try done.
  - cbn [encode_into canon canonical u64_values] in *. apply bind_ok in Henc as (encs & HF & _).
    apply res_map_Forall2 in HF. rewrite forallb_Forall' in Hu |- *. apply Forall_map.
    revert IH Hu. induction HF as [|v b vs encs Hb HF IH']; intros IH Hu; [constructor|].
    inv IH. inv Hu. constructor; eauto.
  - rewrite canon_map. apply encode_map_spec in Henc as (_ & Hs & encs & HF & _).
    cbn [canonical]. rewrite canon_keys, Hs. cbn [andb u64_values] in *.
    rewrite forallb_Forall' in Hu |- *. apply Forall_map.
    apply Forall_sort in IH, Hu. clear Hs. revert IH Hu.
    induction HF as [|kv b l encs Hb HF IH']; intros IH Hu; [constructor|].
    inv IH. inv Hu. constructor; cbn; eauto.
Qed.

Lemma canonical_id v : canonical v = true -> canon v = v.
Proof.
  induction v as [|b0|n0|bs0|s0|vs IH|kvs IH] using Value_nested_ind; intros Hc; try done.
  - cbn in *. f_equal. rewrite forallb_Forall' in Hc. revert Hc.
    induction IH as [|v vs Hv IH IH']; intros Hc; [done|]. inv Hc. cbn. f_equal; auto.
  - cbn [canonical] in Hc. apply andb_true_iff in Hc as [Hs Hc].
    rewrite canon_map, Parse.sort_kvs_sorted by done. f_equal.
    rewrite forallb_Forall' in Hc. clear Hs. revert Hc.
    induction IH as [|[k v] kvs Hv IH IH']; intros Hc; [done|]. inv Hc. cbn in *. f_equal; auto.
    f_equal; auto.
Qed.
End Canon.
Import Canon.

(** ** Errors that cannot happen *)
Module Fuel.
Import Parser.

(** The computation does not fail with [e0]. *)
Definition never {A} (e0 : ProtocolError) (m : result ProtocolError A) : Prop := m <> Err e0.
Abbreviation no_fuel_error := (never out_of_fuel).

Section never.
Context {A B : Type} (e0 : ProtocolError).

Lemma bind_never (m : result ProtocolError A) (f : A -> result ProtocolError B) :
  never e0 m -> (forall a, m = Ok a -> never e0 (f a)) -> never e0 (res_bind m f).
Proof. unfold never. intros Hm Hf. destruct m as [a|e]; cbn; [by apply Hf|congruence]. Qed.
Lemma ok_or_never (o : option A) e : e <> e0 -> never e0 (ok_or o e).
Proof. destruct o; unfold never; cbn; congruence. Qed.
Lemma err_never e : e <> e0 -> never e0 (@Err _ A e).
Proof. unfold never. congruence. Qed.
Lemma ok_never (a : A) : never e0 (Ok a).
Proof. done. Qed.
End never.
Create HintDb fuel.
#[export] Hint Resolve ok_never : fuel.

(** Walk through a computation that can only fail with other messages. *)
Ltac no_fuel :=
  repeat match goal with
  | |- never _ (Ok _) => apply ok_never
  | |- never _ (Err _) => apply err_never; discriminate
  | |- never _ (ok_or _ _) => apply ok_or_never; discriminate
  | |- never _ (res_bind _ _) => apply bind_never; [|intros]
  | |- never _ (if ?b then _ else _) => destruct b eqn:?
  | |- never _ (match ?v with _ => _ end) => destruct v
  | |- _ => solve [eauto with fuel]
  end.

Lemma take_no_fuel p n : no_fuel_error (take p n).
Proof. unfold take. no_fuel. Qed.
#[local] Hint Resolve take_no_fuel : fuel.

Lemma argument_no_fuel p a : no_fuel_error (argument p a).
Proof. unfold argument, long_argument. no_fuel. Qed.
#[local] Hint Resolve argument_no_fuel : fuel.

Lemma take_limits p n bs q : take p n = Ok (bs, q) -> limits q = limits p.
Proof. unfold take. intros H. ok_inv. done. Qed.

Section loops.
Variables (L : Limits) (f : Parser -> M Value).
Hypothesis Hf : forall p, limits p = L -> no_fuel_error (f p).
Hypothesis Hl : forall p v q, limits p = L -> f p = Ok (v, q) -> limits q = L.

Lemma array_items_no_fuel n p : limits p = L -> no_fuel_error (array_items f n p).
Proof.
  revert p. induction n as [|n IH]; intros p Hp; cbn; no_fuel.
Qed.

Lemma array_items_limits n p vs q : limits p = L -> array_items f n p = Ok (vs, q) -> limits q = L.
Proof.
  revert p vs. induction n as [|n IH]; intros p vs Hp; cbn; intros H; [by injection H as <- <-|].
  apply bind_ok in H as ([v q1] & Hv & H). apply bind_ok in H as ([vs' q2] & Hvs & [= <- <-]).
  eapply IH; [|done]. by eapply Hl.
Qed.

Lemma map_entries_no_fuel n prior p : limits p = L -> no_fuel_error (map_entries f n prior p).
Proof.
  revert prior p. induction n as [|n IH]; intros prior p Hp; cbn; no_fuel.
Qed.

Lemma map_entries_limits n prior p kvs q :
  limits p = L -> map_entries f n prior p = Ok (kvs, q) -> limits q = L.
Proof.
  revert prior p kvs. induction n as [|n IH]; intros prior p kvs Hp; cbn; intros H; [by injection H as <- <-|].
  apply bind_ok in H as ([k q1] & Hk & H). apply guard_ok in H as [_ H].
  destruct k; try discriminate H.
  apply bind_ok in H as ([v q2] & Hv & H). apply bind_ok in H as ([vs' q3] & Hvs & [= <- <-]).
  eapply IH; [|done]. eapply Hl; [|done]. by eapply Hl.
Qed.
End loops.

Lemma argument_limits p a n q : argument p a = Ok (n, q) -> limits q = limits p.
Proof.
  unfold argument, long_argument. intros H. repeat (case_match; try discriminate); ok_inv; try done.
  all: repeat match goal with E : res_bind _ _ = Ok _ |- _ => apply bind_ok in E as ([? ?] & ? & E) end.
  all: repeat match goal with E : Parser.take _ _ = Ok _ |- _ => apply take_limits in E end.
  all: ok_inv; done.
Qed.

Lemma items_exceed_no_fuel p n : no_fuel_error (items_exceed p n).
Proof. unfold items_exceed. no_fuel. Qed.
#[local] Hint Resolve items_exceed_no_fuel : fuel.

(** Follow the limits through the operations of a successful run. *)
Ltac track_limits :=
  repeat match goal with
  | H : (if _ then Err _ else _) = Ok _ |- _ => apply guard_ok in H as [_ H]
  | H : (if ?b then _ else _) = Ok _ |- _ => destruct b
  | H : res_bind _ _ = Ok _ |- _ => apply bind_ok in H as (? & ? & H)
  | H : (let '(_, _) := ?x in _) = Ok _ |- _ => destruct x
  | H : Parser.take _ _ = Ok _ |- _ => apply take_limits in H
  | H : argument _ _ = Ok _ |- _ => apply argument_limits in H
  | H : Ok _ = Ok _ |- _ => injection H as <- <-
  | H : Err _ = Ok _ |- _ => discriminate H
  end.

Lemma value_of_head_limits L f m a p v q :
  (forall p v q, limits p = L -> f p = Ok (v, q) -> limits q = L) ->
  limits p = L -> value_of_head f m a p = Ok (v, q) -> limits q = L.
Proof.
  intros Hf Hp H. unfold value_of_head in H. track_limits; try congruence.
  all: eauto using array_items_limits, map_entries_limits, eq_trans.
Qed.

Lemma value_limits fuel depth p v q : value fuel depth p = Ok (v, q) -> limits q = limits p.
Proof.
  revert depth p v q. induction fuel as [|fuel IH]; intros depth p v q; cbn [value]; intros H.
  - track_limits.
  - apply guard_ok in H as [_ H]. apply bind_ok in H as (n & _ & H). apply guard_ok in H as [_ H].
    apply bind_ok in H as ([bs q1] & Ht & H). apply take_limits in Ht.
    eapply value_of_head_limits; [|exact Ht|exact H]. cbn. intros p0 v0 q0 <- Hv. by eapply IH.
Qed.

Lemma value_of_head_no_fuel f m a p :
  (forall p', limits p' = limits p -> no_fuel_error (f p')) ->
  (forall p' v q, f p' = Ok (v, q) -> limits q = limits p') ->
  no_fuel_error (value_of_head f m a p).
Proof.
  intros Hf Hl. unfold value_of_head.
  assert (forall n q, limits q = limits p -> no_fuel_error (array_items f n q)).
  { intros n q Hq. apply (array_items_no_fuel (limits p)); [done| |done]. intros ? ? ? <- Hr. by eapply Hl. }
  assert (forall n pr q, limits q = limits p -> no_fuel_error (map_entries f n pr q)).
  { intros n pr q Hq. apply (map_entries_no_fuel (limits p)); [done| |done]. intros ? ? ? <- Hr. by eapply Hl. }
  no_fuel.
  all: repeat match goal with
  | Ha : argument _ _ = Ok _ |- _ => apply argument_limits in Ha
  end; eauto.
Qed.

Lemma value_no_fuel L fuel depth p :
  limits p = L -> max_depth L < depth + Z.of_nat fuel -> no_fuel_error (value fuel depth p).
Proof.
  revert depth p. induction fuel as [|fuel IH]; intros depth p Hl Hd; cbn [value].
  - rewrite Hl, (proj2 (Z.ltb_lt _ _)) by lia. no_fuel.
  - no_fuel.
    apply value_of_head_no_fuel; [|apply value_limits].
    intros p' Hp'. apply IH; [|lia]. rewrite Hp'.
    match goal with Ht : Parser.take _ _ = Ok _ |- _ => apply take_limits in Ht; rewrite Ht end.
    exact Hl.
Qed.

(** The two passes of the encoder report neither the model's own error nor the
    length mismatch that [encode_bounded] checks for between them. *)
Definition mismatch : ProtocolError := "encoded CBOR length accounting mismatch".

Section encoder.
Variable e0 : ProtocolError.
Hypothesis He0 : e0 = out_of_fuel \/ e0 = mismatch.

Ltac never_e0 := destruct He0 as [-> | ->]; no_fuel.

Lemma bounded_add_never a b L : never e0 (bounded_add a b L).
Proof. unfold bounded_add. never_e0. Qed.
Lemma enter_never L d i : never e0 (enter L d i).
Proof. unfold enter. never_e0. Qed.
Lemma leave_never L n i : never e0 (leave L n i).
Proof. unfold leave. never_e0. Qed.
Lemma encode_text_never s : never e0 (encode_text s).
Proof. unfold encode_text. never_e0. Qed.
#[local] Hint Resolve bounded_add_never enter_never leave_never encode_text_never : fuel.

Lemma validate_text_never L s d i : never e0 (validate_text L s d i).
Proof. pose proof enter_never. pose proof bounded_add_never. pose proof leave_never.
  unfold validate_text. never_e0. Qed.
#[local] Hint Resolve validate_text_never : fuel.

Lemma validate_items_never L (f : Value -> Z -> result ProtocolError (Z * Z)) vs t i :
  Forall (fun v => forall i, never e0 (f v i)) vs -> never e0 (validate_items L f vs t i).
Proof.
  intros IH. revert t i. induction IH as [|v vs Hv IH IH']; intros t i; cbn; [done|].
  apply bind_never; [done|]. intros [n it] _. apply bind_never; [apply bounded_add_never|]. auto.
Qed.

Lemma validate_entries_never L g (f : Value -> Z -> result ProtocolError (Z * Z))
    (kvs : list (string * Value)) t i :
  (forall k i, never e0 (g k i)) ->
  Forall (fun kv => forall i, never e0 (f kv.2 i)) kvs -> never e0 (validate_entries L g f kvs t i).
Proof.
  intros Hg IH. revert t i. induction IH as [|[k v] kvs Hv IH IH']; intros t i; cbn in *; [done|].
  apply bind_never; [done|]. intros [n it] _. apply bind_never; [apply bounded_add_never|]. intros t' _.
  apply bind_never; [done|]. intros [n' it'] _. apply bind_never; [apply bounded_add_never|]. auto.
Qed.

Lemma validate_never L v d i : never e0 (validate_value_bounds L v d i).
Proof.
  revert d i. induction v as [|b|n|bs|s|vs IH|kvs IH] using Value_nested_ind;
    intros d i; cbn [validate_value_bounds];
    try apply validate_text_never; (apply bind_never; [apply enter_never|]; intros it _);
    try apply leave_never.
  - apply bind_never; [apply bounded_add_never|]. intros. apply leave_never.
  - case_match; [never_e0|]. apply bind_never; [|intros [t it'] _; apply leave_never].
    apply validate_items_never. eapply Forall_impl; [exact IH|]. auto.
  - case_match; [never_e0|]. apply bind_never; [|intros [t it'] _; apply leave_never].
    apply validate_entries_never; [auto using validate_text_never|]. eapply Forall_impl; [exact IH|]. auto.
Qed.

Lemma emit_entries_never l :
  Forall (fun e : encoded_entry => never e0 e.2) l -> never e0 (emit_entries l).
Proof.
  induction 1 as [|[k e] l He Hl IH]; cbn in *; [done|].
  apply bind_never; [done|]. intros. by apply bind_never.
Qed.

Lemma res_map_never {A B} (f : A -> result ProtocolError B) l :
  Forall (fun a => never e0 (f a)) l -> never e0 (res_map f l).
Proof.
  induction 1 as [|a l Ha Hl IH]; cbn; [done|].
  apply bind_never; [done|]. intros. by apply bind_never.
Qed.

Lemma encode_never v : never e0 (encode_into v).
Proof.
  induction v as [|b|n|bs|s|vs IH|kvs IH] using Value_nested_ind; cbn [encode_into].
  1-4: by repeat case_match.
  - apply encode_text_never.
  - apply bind_never; [by apply res_map_never|done].
  - apply bind_never.
    { apply res_map_never, Forall_true. intros [k v]. by apply bind_never; [apply encode_text_never|]. }
    intros ord [_ ->]%entries_spec. unfold emit_map. case_match; [never_e0|].
    apply bind_never; [|done].
    apply emit_entries_never. rewrite sort_by_perm. apply Forall_map. exact IH.
Qed.
End encoder.

Lemma encode_bounded_no_fuel v L : no_fuel_error (encode_bounded v L).
Proof.
  unfold encode_bounded. apply bind_never; [apply validate_never; by left|]. intros [n it] _.
  apply bind_never; [apply encode_never; by left|]. intros out _. no_fuel.
Qed.
End Fuel.
Import Fuel.

(** ** The two entry points *)

Lemma encode_bounded_spec v L bs :
  limits_ok L ->
  encode_bounded v L = Ok bs <->
  encode_into v = Ok bs /\ within L 0 v = true /\ count v <= max_items L /\ size v <= max_bytes L.
Proof.
  intros HL. unfold encode_bounded. rewrite bind_ok. split.
  - intros ([n items] & Hv & H). apply (validate_runs _ HL) in Hv as (Hw & Hc & Hs & [= -> ->]).
    apply bind_ok in H as (out & Henc & H). apply guard_ok in H as [_ [= ->]]. done.
  - intros (Henc & Hw & Hc & Hs). exists (size v, 0 + count v). split.
    + apply (validate_runs _ HL). done.
    + rewrite Henc. cbn [res_bind]. rewrite (encode_len _ _ Henc), Z.eqb_refl. done.
Qed.

(** The parser at the start of an input. *)
Definition start (bs : list byte) (L : Limits) : Parser.Parser :=
  {| Parser.bytes := bs; Parser.pos := 0; Parser.limits := L; Parser.items := 0 |}.

Lemma start_at_input bs L : len bs <= u64_max -> Parse.at_input (start bs L) bs.
Proof. intros. split_and!; cbn; [lia|lia|done|done]. Qed.

Lemma parse_spec bs L v q :
  limits_ok L -> len bs <= max_bytes L ->
  Parser.value (decode_fuel L) 0 (start bs L) = Ok (v, q) /\ Parser.pos q = len bs <->
  canonical v = true /\ encode_bounded v L = Ok bs /\
  q = Parse.advance (start bs L) (len bs) (count v).
Proof.
  intros HL Hb. assert (len bs <= u64_max) as Hu by (destruct HL; lia).
  rewrite (Parse.value_reads _ HL (decode_fuel L) 0 ltac:(unfold decode_fuel; lia) _ bs)
    by (done || by apply start_at_input).
  unfold Parse.acceptable. rewrite andb_true_iff, encode_bounded_spec by done. split.
  - intros (([Hc Hw] & Hi & enc & Henc & [rest ->] & ->) & Hpos). cbn in Hpos, Hi.
    rewrite len_app in *. pose proof (len_nonneg rest).
    assert (rest = []) as -> by (destruct rest; [done|rewrite len_cons in *; pose proof (len_nonneg rest); lia]).
    rewrite app_nil_r, Z.add_0_r, <- (encode_len _ _ Henc) in *.
    split_and!; (done || lia).
  - intros (Hc & (Henc & Hw & Hi & Hs) & ->). cbn. split_and!; [done|done|lia| |lia].
    exists bs. split_and!; [done| |done]. exists []. by rewrite app_nil_r.
Qed.

Lemma decode_canonical_spec bs L v :
  limits_ok L ->
  decode_canonical bs L = Ok v <-> canonical v = true /\ encode_bounded v L = Ok bs.
Proof.
  intros HL. unfold decode_canonical. fold (start bs L). rewrite guard_ok, orb_false_iff, Z.eqb_neq, Z.ltb_ge.
  rewrite bind_ok. split.
  - intros ((Hne & Hb) & [v' q] & Hv & H). apply guard_ok in H as [Hp H].
    apply negb_false_iff, Z.eqb_eq in Hp.
    apply bind_ok in H as (again & _ & H). apply guard_ok in H as [_ [= ->]].
    pose proof (conj Hv Hp) as Hvp. apply parse_spec in Hvp as (? & ? & _); done.
  - intros [Hc Henc]. pose proof Henc as (He & _ & _ & Hs)%encode_bounded_spec; [|done].
    rewrite <- (encode_len _ _ He) in Hs. split.
    { rewrite (encode_len _ _ He) in *. pose proof (size_pos v). lia. }
    exists (v, Parse.advance (start bs L) (len bs) (count v)).
    split; [by apply parse_spec|]. cbn [Parse.advance start Parser.pos].
    rewrite Z.add_0_l, Z.eqb_refl. cbn [negb]. rewrite Henc. cbn [res_bind].
    by rewrite bool_decide_true.
Qed.

Lemma encode_bounded_canon v L bs :
  limits_ok L -> u64_values v = true -> encode_bounded v L = Ok bs ->
  decode_canonical bs L = Ok (canon v).
Proof.
  intros HL Hu Henc. apply decode_canonical_spec; [done|].
  apply encode_bounded_spec in Henc as (He & Hw & Hc & Hs); [|done].
  split; [by eapply canonical_canon|].
  apply encode_bounded_spec; [done|]. rewrite within_canon, count_canon.
  pose proof (encode_canon _ _ He) as He'. split_and!; try done.
  by rewrite <- (encode_len _ _ He'), (encode_len _ _ He).
Qed.

Lemma wire_ok : limits_ok WIRE.
Proof. done. Qed.

(** A value to exercise the codec on: a map whose keys are not in canonical
    order, with a nested array. *)
Definition sample : Value :=
  Map [("bb"%string, Unsigned 300); ("a"%string, Array [Null; Bool true; Bytes [x00; xff]])].
Definition sample_bytes : list byte :=
  [xa2; x61; x61; x83; xf6; xf5; x42; x00; xff; x62; x62; x62; x19; x01; x2c].

(** C2. The decoder is the exact inverse of the encoder on canonical values:
    [decode_canonical] accepts [bytes] with result [v] precisely when [v] is
    canonical (every map strictly sorted by encoded key) and [encode_bounded]
    maps [v] to [bytes] under the same limits. *)
Theorem decode_canonical_exact bytes L v :
  limits_ok L ->
  decode_canonical bytes L = Ok v <-> canonical v = true /\ encode_bounded v L = Ok bytes.
Proof. apply decode_canonical_spec. Qed.

Lemma decode_canonical_exact_witness :
  limits_ok WIRE /\ decode_canonical sample_bytes WIRE = Ok (canon sample).
Proof.
  split; [exact wire_ok|]. apply (decode_canonical_exact sample_bytes WIRE (canon sample) wire_ok).
  split; vm_compute; reflexivity.
Defined.

(** Round trip: whatever [encode_bounded] emits for a value the Rust type
    can hold is accepted by [decode_canonical] under the same limits, and
    decodes to the value with its maps sorted. *)
Theorem encode_decode_roundtrip v L bytes :
  limits_ok L -> u64_values v = true -> encode_bounded v L = Ok bytes ->
  decode_canonical bytes L = Ok (canon v).
Proof. apply encode_bounded_canon. Qed.

Lemma encode_decode_roundtrip_witness :
  encode_bounded sample WIRE = Ok sample_bytes /\
  decode_canonical sample_bytes WIRE = Ok (canon sample).
Proof.
  split; [vm_compute; reflexivity|].
  apply (encode_decode_roundtrip sample WIRE sample_bytes wire_ok); vm_compute; reflexivity.
Defined.

(** The encoding is injective up to the order of map entries: two values
    with the same bytes have the same canonical form, so a digest of the
    bytes identifies the value. *)
Theorem encode_bounded_injective v w L bytes :
  limits_ok L -> u64_values v = true -> u64_values w = true ->
  encode_bounded v L = Ok bytes -> encode_bounded w L = Ok bytes -> canon v = canon w.
Proof.
  intros HL Hv Hw Ev Ew. pose proof (encode_bounded_canon _ _ _ HL Hv Ev) as Hd.
  rewrite (encode_bounded_canon _ _ _ HL Hw Ew) in Hd. by injection Hd.
Qed.

Lemma encode_bounded_injective_witness :
  encode_bounded sample WIRE = Ok sample_bytes /\ canon sample = canon (canon sample).
Proof.
  split; [vm_compute; reflexivity|].
  apply (encode_bounded_injective sample (canon sample) WIRE sample_bytes wire_ok);
    vm_compute; reflexivity.
Defined.

(** C39. [encode_bounded] succeeds exactly on the values inside every limit
    (depth, collection and text lengths, total items, total bytes) that
    [encode_into] can write, and then returns what [encode_into] writes, whose
    length is the precomputed size.  So the check between the two passes
    never fires. *)
Theorem encode_bounded_functional v L bytes :
  limits_ok L ->
  (encode_bounded v L = Ok bytes <->
   encode_into v = Ok bytes /\ within L 0 v = true /\ count v <= max_items L /\ size v <= max_bytes L) /\
  encode_bounded v L <> Err "encoded CBOR length accounting mismatch"%string.
Proof.
  intros HL. split; [by apply encode_bounded_spec|].
  unfold encode_bounded. intros H. apply bind_err in H as [H|([n items] & Hv & H)].
  { apply validate_never in H; [done|by right]. }
  apply (validate_runs _ HL) in Hv as (_ & _ & _ & [= -> ->]).
  apply bind_err in H as [H|(out & He & H)]; [apply encode_never in H; [done|by right]|].
  by rewrite (encode_len _ _ He), Z.eqb_refl in H.
Qed.

Lemma encode_bounded_functional_witness :
  encode_bounded sample WIRE = Ok sample_bytes /\ count sample = 8 /\ size sample = 15.
Proof.
  split; [|vm_compute; done].
  apply (encode_bounded_functional sample WIRE sample_bytes wire_ok).
  split_and!; vm_compute; congruence.
Defined.

(** The re-encoding at the end of [decode_canonical] is redundant: the
    parser admits shortest-form lengths and strictly ordered keys only, so
    parsing the whole input already decides the answer. *)
Theorem reencode_redundant bytes L :
  limits_ok L ->
  decode_canonical bytes L =
  throw_if (len bytes =? 0) || (max_bytes L <? len bytes) with "CBOR byte length is invalid"%string ;;
  let? (value, parser) := Parser.value (decode_fuel L) 0 (start bytes L) in
  throw_if negb (Parser.pos parser =? len bytes) with "trailing CBOR bytes"%string ;;
  Ok value.
Proof.
  intros HL. unfold decode_canonical. fold (start bytes L).
  destruct (_ || _) eqn:Hb; [done|]. bool_to_prop.
  destruct (Parser.value _ _ _) as [[v q]|] eqn:Hv; cbn [res_bind]; [|done].
  destruct (Z.eqb_spec (Parser.pos q) (len bytes)) as [Hp|]; cbn [negb]; [|done].
  pose proof (conj Hv Hp) as Hvp. apply parse_spec in Hvp as (_ & -> & _); [|done..].
  cbn [res_bind]. by rewrite bool_decide_true.
Qed.

Lemma reencode_redundant_witness :
  limits_ok WIRE /\
  (let? (value, parser) := Parser.value (decode_fuel WIRE) 0 (start sample_bytes WIRE) in
   throw_if negb (Parser.pos parser =? len sample_bytes) with "trailing CBOR bytes"%string ;;
   Ok value) = Ok (canon sample).
Proof.
  split; [exact wire_ok|].
  pose proof (reencode_redundant sample_bytes WIRE wire_ok) as H.
  etrans; [symmetry; exact H|]. vm_compute. reflexivity.
Defined.

(** The decoder terminates on every input within the recursion that its
    own depth check allows: [max_depth + 1] nested calls are enough, so the
    budget the model passes is never the reason of a failure. *)
Theorem decode_canonical_total bytes L : decode_canonical bytes L <> Err out_of_fuel.
Proof.
  unfold decode_canonical. fold (start bytes L).
  change (never (A:=Value) out_of_fuel
    (throw_if (len bytes =? 0) || (max_bytes L <? len bytes) with "CBOR byte length is invalid"%string ;;
     let? (value, parser) := Parser.value (decode_fuel L) 0 (start bytes L) in
     throw_if negb (Parser.pos parser =? len bytes) with "trailing CBOR bytes"%string ;;
     let? again := encode_bounded value L in
     throw_if negb (bool_decide (again = bytes)) with "CBOR is not canonical"%string ;; Ok value)).
  no_fuel.
  - apply (value_no_fuel L); [done|]. unfold decode_fuel. lia.
  - apply encode_bounded_no_fuel.
Qed.
