(* ===== verification/Sha256.v ===== *)
(** * SHA-256 ([protocol/src/lib.rs])

    The crate has two implementations: the one-shot [sha256] over a slice
    (Module [OneShot]) and the incremental [Sha256State] (Module [Streaming]).
    Both are translated separately; an [expect] or a slice that is out of range
    is [None].  The theorems show that hashing a message in any number of
    pieces gives the one-shot digest, and that neither implementation panics
    below 2^61 bytes. *)

From S2P Require Import Prelude.

(** ** 32-bit words *)
Definition mask32 : Z := 4294967295.
Definition rotate_right (x n : Z) : Z :=
  Z.lor (Z.shiftr x n) (Z.land (Z.shiftl x (32 - n)) mask32).
Definition not32 (x : Z) : Z := Z.lxor x mask32.
(** The constants, in the rows of the source. *)
Definition K : list Z := concat [
  [0x428a2f98; 0x71374491; 0xb5c0fbcf; 0xe9b5dba5; 0x3956c25b; 0x59f111f1; 0x923f82a4];
  [0xab1c5ed5; 0xd807aa98; 0x12835b01; 0x243185be; 0x550c7dc3; 0x72be5d74; 0x80deb1fe];
  [0x9bdc06a7; 0xc19bf174; 0xe49b69c1; 0xefbe4786; 0x0fc19dc6; 0x240ca1cc; 0x2de92c6f];
  [0x4a7484aa; 0x5cb0a9dc; 0x76f988da; 0x983e5152; 0xa831c66d; 0xb00327c8; 0xbf597fc7];
  [0xc6e00bf3; 0xd5a79147; 0x06ca6351; 0x14292967; 0x27b70a85; 0x2e1b2138; 0x4d2c6dfc];
  [0x53380d13; 0x650a7354; 0x766a0abb; 0x81c2c92e; 0x92722c85; 0xa2bfe8a1; 0xa81a664b];
  [0xc24b8b70; 0xc76c51a3; 0xd192e819; 0xd6990624; 0xf40e3585; 0x106aa070; 0x19a4c116];
  [0x1e376c08; 0x2748774c; 0x34b0bcb5; 0x391c0cb3; 0x4ed8aa4a; 0x5b9cca4f; 0x682e6ff3];
  [0x748f82ee; 0x78a5636f; 0x84c87814; 0x8cc70208; 0x90befffa; 0xa4506ceb; 0xbef9a3f7];
  [0xc67178f2]].

(** [[u32; 8]]: the chaining value and the working variables. *)
Record words8 : Set := W8 { wa : Z; wb : Z; wc : Z; wd : Z; we : Z; wf : Z; wg : Z; wh : Z }.
Definition initial_hash : words8 :=
  W8 0x6a09e667 0xbb67ae85 0x3c6ef372 0xa54ff53a 0x510e527f 0x9b05688c 0x1f83d9ab 0x5be0cd19.
Definition wrapping_add8 (x y : words8) : words8 :=
  W8 (wrapping_add32 (wa x) (wa y)) (wrapping_add32 (wb x) (wb y))
     (wrapping_add32 (wc x) (wc y)) (wrapping_add32 (wd x) (wd y))
     (wrapping_add32 (we x) (we y)) (wrapping_add32 (wf x) (wf y))
     (wrapping_add32 (wg x) (wg y)) (wrapping_add32 (wh x) (wh y)).
Definition words8_bytes (h : words8) : list byte :=
  be_bytes 4 (wa h) ++ be_bytes 4 (wb h) ++ be_bytes 4 (wc h) ++ be_bytes 4 (wd h) ++
  be_bytes 4 (we h) ++ be_bytes 4 (wf h) ++ be_bytes 4 (wg h) ++ be_bytes 4 (wh h).

(** [l.chunks_exact(n)] *)
Fixpoint chunks_fuel {A : Type} (fuel n : nat) (l : list A) : list (list A) :=
  match fuel with
  | O => []
  | S fuel =>
      if (n <=? length l)%nat then firstn n l :: chunks_fuel fuel n (skipn n l) else []
  end.
Definition chunks_exact {A : Type} (n : nat) (l : list A) : list (list A) :=
  chunks_fuel (length l) n l.

(** ** The one-shot function *)
Module OneShot.

Definition word_at (w : list Z) (i : nat) : Z := nth i w 0.

(** One step of [for index in 16..64]. *)
Definition extend (w : list Z) (index : nat) : list Z :=
  let w15 := word_at w (index - 15) in
  let w2 := word_at w (index - 2) in
  let s0 := Z.lxor (Z.lxor (rotate_right w15 7) (rotate_right w15 18)) (Z.shiftr w15 3) in
  let s1 := Z.lxor (Z.lxor (rotate_right w2 17) (rotate_right w2 19)) (Z.shiftr w2 10) in
  <[index := wrapping_add32 (wrapping_add32 (wrapping_add32 (word_at w (index - 16)) s0)
                               (word_at w (index - 7))) s1]> w.
Definition schedule (block : list byte) : list Z :=
  fold_left extend (seq 16 48) (map be_value (chunks_exact 4 block) ++ replicate 48 0).

(** One step of [for index in 0..64]. *)
Definition round (w : list Z) (s : words8) (index : nat) : words8 :=
  let '(W8 a b c d e f g hh) := s in
  let s1 := Z.lxor (Z.lxor (rotate_right e 6) (rotate_right e 11)) (rotate_right e 25) in
  let ch := Z.lxor (Z.land e f) (Z.land (not32 e) g) in
  let t1 := wrapping_add32 (wrapping_add32 (wrapping_add32 (wrapping_add32 hh s1) ch)
              (nth index K 0)) (word_at w index) in
  let s0 := Z.lxor (Z.lxor (rotate_right a 2) (rotate_right a 13)) (rotate_right a 22) in
  let maj := Z.lxor (Z.lxor (Z.land a b) (Z.land a c)) (Z.land b c) in
  let t2 := wrapping_add32 s0 maj in
  W8 (wrapping_add32 t1 t2) a b c (wrapping_add32 d t1) e f g.

(** The body of [for block in padded.chunks_exact(64)]. *)
Definition block_step (h : words8) (block : list byte) : words8 :=
  wrapping_add8 h (fold_left (round (schedule block)) (seq 0 64) h).

(** [while padded.len() % 64 != 56 { padded.push(0); }]; at most 63 steps. *)
Fixpoint pad_zeros (fuel : nat) (padded : list byte) : option (list byte) :=
  if len padded mod 64 =? 56 then Some padded
  else match fuel with
       | O => None
       | S fuel => pad_zeros fuel (padded ++ [x00])
       end.

Definition sha256 (bytes : list byte) : option (list byte) :=
  bit_len ← checked_mul (len bytes) 8;
  padded ← pad_zeros 63 (bytes ++ [byte_of_Z 128]);
  let padded := padded ++ be_bytes 8 bit_len in
  Some (words8_bytes (fold_left block_step (chunks_exact 64 padded) initial_hash)).

Definition sha256_hex (bytes : list byte) : option string := hex <$> sha256 bytes.

End OneShot.

(** ** The incremental hasher *)
Module Streaming.

Record Sha256State : Set := mkSha256State {
  hash : words8;
  buffer : list byte;
  buffered : Z;
  byte_length : Z
}.
Definition new : Sha256State := {|
  hash := initial_hash; buffer := replicate 64 x00; buffered := 0; byte_length := 0 |}.

Definition extend (words : list Z) (index : nat) : list Z :=
  let w15 := nth (index - 15) words 0 in
  let w2 := nth (index - 2) words 0 in
  let s0 := Z.lxor (Z.lxor (rotate_right w15 7) (rotate_right w15 18)) (Z.shiftr w15 3) in
  let s1 := Z.lxor (Z.lxor (rotate_right w2 17) (rotate_right w2 19)) (Z.shiftr w2 10) in
  <[index := wrapping_add32 (wrapping_add32 (wrapping_add32 (nth (index - 16) words 0) s0)
                               (nth (index - 7) words 0)) s1]> words.
Definition step (words : list Z) (s : words8) (index : nat) : words8 :=
  let '(W8 a b c d e f g h) := s in
  let upper := Z.lxor (Z.lxor (rotate_right e 6) (rotate_right e 11)) (rotate_right e 25) in
  let choice := Z.lxor (Z.land e f) (Z.land (not32 e) g) in
  let first := wrapping_add32 (wrapping_add32 (wrapping_add32 (wrapping_add32 h upper) choice)
                 (nth index K 0)) (nth index words 0) in
  let lower := Z.lxor (Z.lxor (rotate_right a 2) (rotate_right a 13)) (rotate_right a 22) in
  let majority := Z.lxor (Z.lxor (Z.land a b) (Z.land a c)) (Z.land b c) in
  let second := wrapping_add32 lower majority in
  W8 (wrapping_add32 first second) a b c (wrapping_add32 d first) e f g.
(** [Sha256State::compress]: the new value of [self.hash]. *)
Definition compress (hash : words8) (block : list byte) : words8 :=
  let words := fold_left extend (seq 16 48)
                 (map be_value (chunks_exact 4 block) ++ replicate 48 0) in
  wrapping_add8 hash (fold_left (step words) (seq 0 64) hash).

(** [buffer[at..at + src.len()].copy_from_slice(src)] *)
Definition copy_at (buffer : list byte) (at' : Z) (src : list byte) : option (list byte) :=
  if at' + len src <=? len buffer
  then Some (firstn (Z.to_nat at') buffer ++ src ++ skipn (Z.to_nat (at' + len src)) buffer)
  else None.

(** [while bytes.len() >= 64 { .. }]: the hash and the rest of the input. *)
Fixpoint compress_blocks (fuel : nat) (hash : words8) (bytes : list byte)
    : option (words8 * list byte) :=
  if 64 <=? len bytes then
    match fuel with
    | O => None
    | S fuel => compress_blocks fuel (compress hash (firstn 64 bytes)) (skipn 64 bytes)
    end
  else Some (hash, bytes).

(** The part of [update] after the buffered bytes are dealt with. *)
Definition update_blocks (st : Sha256State) (bytes : list byte) : option Sha256State :=
  '(hash, bytes) ← compress_blocks (length bytes) (hash st) bytes;
  buffer ← copy_at (buffer st) 0 bytes;
  Some {| hash := hash; buffer := buffer; buffered := len bytes; byte_length := byte_length st |}.

Definition update (st : Sha256State) (bytes : list byte) : option Sha256State :=
  total ← checked_add (byte_length st) (len bytes);
  let st := {| hash := hash st; buffer := buffer st; buffered := buffered st;
               byte_length := total |} in
  if negb (buffered st =? 0) then
    let take := Z.min (64 - buffered st) (len bytes) in
    buf ← copy_at (buffer st) (buffered st) (firstn (Z.to_nat take) bytes);
    let bytes := skipn (Z.to_nat take) bytes in
    let filled := buffered st + take in
    if filled =? 64 then
      update_blocks {| hash := compress (hash st) buf; buffer := buf; buffered := 0;
                       byte_length := total |} bytes
    else Some {| hash := hash st; buffer := buf; buffered := filled; byte_length := total |}
  else update_blocks st bytes.

(** [buffer[from..to].fill(0)] *)
Definition fill_zero (buffer : list byte) (from to : Z) : option (list byte) :=
  if from <=? to then copy_at buffer from (replicate (Z.to_nat (to - from)) x00) else None.

Definition finalize (st : Sha256State) : option (list byte) :=
  bit_length ← checked_mul (byte_length st) 8;
  buf ← copy_at (buffer st) (buffered st) [byte_of_Z 128];
  let filled := buffered st + 1 in
  '(h, buf) ← (if 56 <? filled then
                 buf ← fill_zero buf filled 64;
                 Some (compress (hash st) buf, replicate 64 x00)
               else
                 buf ← fill_zero buf filled 56;
                 Some (hash st, buf));
  buf ← copy_at buf 56 (be_bytes 8 bit_length);
  Some (words8_bytes (compress h buf)).

(** A hasher fed several pieces: [update(a); update(b); ..; finalize()]. *)
Fixpoint update_all (st : Sha256State) (pieces : list (list byte)) : option Sha256State :=
  match pieces with
  | [] => Some st
  | piece :: pieces => st ← update st piece; update_all st pieces
  end.
Definition hash_pieces (pieces : list (list byte)) : option (list byte) :=
  st ← update_all new pieces; finalize st.

End Streaming.

(** ** Blocks *)
Module Chunks.
Section chunks.
Context {A : Type} (n : nat) (Hn : (0 < n)%nat).

Lemma chunks_enough fuel (l : list A) :
  (length l <= fuel)%nat -> chunks_fuel fuel n l = chunks_exact n l.
Proof.
  unfold chunks_exact.
  enough (forall f g (l : list A), (length l <= f)%nat -> (length l <= g)%nat ->
            chunks_fuel f n l = chunks_fuel g n l) as H by (intros; apply H; lia).
  clear fuel l. induction f as [|f IH]; intros [|g] l Hf Hg; cbn; [done| | |].
  1,2: destruct l; [|cbn in *; lia]; by destruct n; [lia|].
  destruct (Nat.leb_spec n (length l)); [|done]. f_equal. apply IH; rewrite length_skipn; lia.
Qed.

Lemma chunks_short (l : list A) : (length l < n)%nat -> chunks_exact n l = [].
Proof.
  intros H. unfold chunks_exact. destruct l; [done|]. cbn.
  destruct (Nat.leb_spec n (S (length l))); cbn in *; [lia|done].
Qed.

Lemma chunks_cons (b l : list A) : length b = n -> chunks_exact n (b ++ l) = b :: chunks_exact n l.
Proof.
  intros Hb. pose proof (chunks_enough (length b + length l - 1) l) as He.
  unfold chunks_exact at 1. rewrite length_app, Hb in *. destruct n as [|m] eqn:En; [lia|].
  cbn [Nat.add chunks_fuel]. rewrite length_app, Hb.
  rewrite (proj2 (Nat.leb_le _ _)) by lia.
  rewrite <- Hb, take_app_length, drop_app_length, Hb.
  f_equal. rewrite <- He by lia. f_equal. lia.
Qed.

Lemma split_multiple k (l : list A) : length l = (S k * n)%nat ->
  exists b l', l = b ++ l' /\ length b = n /\ length l' = (k * n)%nat.
Proof.
  intros Hl. exists (firstn n l), (skipn n l). rewrite length_firstn, length_skipn, take_drop.
  split_and!; [done|lia|lia].
Qed.

Lemma chunks_app k (a b : list A) : length a = (k * n)%nat ->
  chunks_exact n (a ++ b) = chunks_exact n a ++ chunks_exact n b.
Proof.
  revert a. induction k as [|k IH]; intros a Ha.
  - by destruct a.
  - apply split_multiple in Ha as (x & a' & -> & Hx & Ha).
    by rewrite <- app_assoc, !(chunks_cons x), IH.
Qed.

Lemma chunks_one (b : list A) : length b = n -> chunks_exact n b = [b].
Proof.
  intros Hb. rewrite <- (app_nil_r b) at 1. by rewrite chunks_cons.
Qed.
End chunks.
End Chunks.
Import Chunks.

(** ** Both implementations compute the same digest *)
Module Facts.
Import Streaming.

Lemma compress_block_step h block : OneShot.block_step h block = compress h block.
Proof. reflexivity. Qed.

Definition absorb (h : words8) (bytes : list byte) : words8 :=
  fold_left compress (chunks_exact 64 bytes) h.

Definition blocks (bytes : list byte) : Prop := exists k, length bytes = (k * 64)%nat.

Lemma blocks_app a b : blocks a -> blocks b -> blocks (a ++ b).
Proof. intros [k Hk] [j Hj]. exists (k + j)%nat. rewrite length_app. lia. Qed.

Lemma blocks_one b : length b = 64%nat -> blocks b.
Proof. exists 1%nat. lia. Qed.

Lemma absorb_app h a b : blocks a -> absorb h (a ++ b) = absorb (absorb h a) b.
Proof. intros [k Hk]. unfold absorb. by rewrite (chunks_app 64 ltac:(lia) k), fold_left_app. Qed.

Lemma absorb_one h b : length b = 64%nat -> absorb h b = compress h b.
Proof. intros Hb. unfold absorb. by rewrite chunks_one by (done || lia). Qed.

(** The state after hashing [msg]: whole blocks are compressed, the rest is
    at the front of the buffer. *)
Record represents (st : Sha256State) (msg : list byte) : Prop := {
  rep_split : exists full tail, msg = full ++ tail /\ blocks full /\ (length tail < 64)%nat /\
    hash st = absorb initial_hash full /\ buffered st = len tail /\
    firstn (length tail) (buffer st) = tail;
  rep_length : byte_length st = len msg;
  rep_buffer : length (buffer st) = 64%nat
}.

Lemma represents_new : represents new [].
Proof.
  split; [|done|done]. exists [], []. split_and!; try done; [by exists 0%nat|cbn; lia].
Qed.

Lemma copy_at_spec buffer (at' : nat) src :
  (at' + length src <= length buffer)%nat ->
  copy_at buffer (Z.of_nat at') src =
    Some (firstn at' buffer ++ src ++ skipn (at' + length src) buffer).
Proof.
  intros H. unfold copy_at, len. rewrite (proj2 (Z.leb_le _ _)) by lia.
  rewrite Nat2Z.id. by replace (Z.to_nat _) with (at' + length src)%nat by lia.
Qed.

Lemma compress_blocks_spec fuel h bytes :
  (length bytes <= fuel)%nat ->
  exists full tail, bytes = full ++ tail /\ blocks full /\ (length tail < 64)%nat /\
    compress_blocks fuel h bytes = Some (absorb h full, tail).
Proof.
  revert h bytes. induction fuel as [|fuel IH]; intros h bytes Hf; cbn [compress_blocks].
  - destruct bytes; [|cbn in Hf; lia]. exists [], []. cbn. split_and!; try done; [by exists 0%nat|lia].
  - unfold len. destruct (Z.leb_spec 64 (Z.of_nat (length bytes))).
    + destruct (IH (compress h (firstn 64 bytes)) (skipn 64 bytes)) as (full & tail & E & Hb & Ht & ->).
      { rewrite length_skipn. lia. }
      assert (length (firstn 64 bytes) = 64%nat) by (rewrite length_firstn; lia).
      exists (firstn 64 bytes ++ full), tail. split_and!; [|by apply blocks_app; [apply blocks_one|]|done|].
      * by rewrite <- app_assoc, <- E, take_drop.
      * by rewrite absorb_app, (absorb_one _ (firstn 64 bytes)) by (done || by apply blocks_one).
    + exists [], bytes. split_and!; [done|by exists 0%nat|lia|done].
Qed.

Lemma update_blocks_spec st full bytes :
  hash st = absorb initial_hash full -> blocks full -> length (buffer st) = 64%nat ->
  byte_length st = len (full ++ bytes) ->
  exists st', update_blocks st bytes = Some st' /\ represents st' (full ++ bytes).
Proof.
  intros Hh Hb Hbuf Hlen. unfold update_blocks.
  destruct (compress_blocks_spec (length bytes) (hash st) bytes) as (full' & tail & -> & Hb' & Ht & ->);
    [done|]. cbn [mbind option_bind]. change 0 with (Z.of_nat 0). rewrite copy_at_spec by lia.
  cbn [mbind option_bind]. eexists. split; [done|]. split; cbn [hash buffer buffered byte_length].
  - exists (full ++ full'), tail. split_and!; [by rewrite app_assoc|by apply blocks_app|done| |done|].
    + rewrite Hh, <- absorb_app by done. done.
    + change (take 0 (buffer st)) with (@nil byte). rewrite app_nil_l. by rewrite take_app_length.
  - done.
  - change (take 0 (buffer st)) with (@nil byte). rewrite app_nil_l. rewrite length_app, length_skipn. lia.
Qed.

Lemma update_spec st msg bytes :
  represents st msg -> len (msg ++ bytes) <= u64_max ->
  exists st', update st bytes = Some st' /\ represents st' (msg ++ bytes).
Proof.
  intros [(full & tail & -> & Hb & Ht & Hh & Hn & Hf) Hl Hbuf] Hmax.
  unfold update, checked_add. rewrite Hl, <- len_app, (proj2 (Z.leb_le _ _)) by done.
  cbn [mbind option_bind hash buffer buffered byte_length]. rewrite Hn.
  destruct (Z.eqb_spec (len tail) 0) as [H0|H0]; cbn [negb].
  { assert (tail = []) as -> by (destruct tail; [done|unfold len in H0; cbn in H0; lia]).
    rewrite app_nil_r in *. by apply update_blocks_spec. }
  set (m := Z.to_nat (Z.min (64 - len tail) (len bytes))).
  assert (Hm : Z.min (64 - len tail) (len bytes) = Z.of_nat m) by (unfold m, len; lia).
  assert (Hmb : (m <= length bytes)%nat) by (unfold len in Hm; lia).
  rewrite Hm. change (copy_at (buffer st) (len tail)) with (copy_at (buffer st) (Z.of_nat (length tail))).
  rewrite copy_at_spec by (rewrite length_firstn; unfold len in Hm; lia).
  rewrite Hf, length_firstn, Nat.min_l by done. cbn [mbind option_bind].
  destruct (Z.eqb_spec (len tail + Z.of_nat m) 64) as [E|E].
  - assert (length tail + m = 64)%nat by (unfold len in E; lia).
    rewrite (skipn_all2 (buffer st)), app_nil_r by (rewrite Hbuf; lia).
    assert (Hblk : length (tail ++ firstn m bytes) = 64%nat) by (rewrite length_app, length_firstn; lia).
    replace ((full ++ tail) ++ bytes)
      with ((full ++ (tail ++ firstn m bytes)) ++ skipn m bytes) by by rewrite <- !app_assoc, take_drop.
    apply update_blocks_spec; cbn [hash buffer byte_length].
    + by rewrite absorb_app, absorb_one, Hh.
    + by apply blocks_app; [|apply blocks_one].
    + done.
    + done.
  - assert (m = length bytes) as Em by (unfold len in *; lia).
    rewrite Em, firstn_all. eexists. split; [done|]. split; cbn [hash buffer buffered byte_length].
    + exists full, (tail ++ bytes). rewrite length_app, len_app.
      split_and!; [by rewrite app_assoc|done|unfold len in *; lia|done|unfold len in *; lia|].
      rewrite app_assoc, take_app_le by (rewrite length_app; lia). by rewrite <- length_app, firstn_all.
    + done.
    + rewrite !length_app, length_skipn. unfold len in *. lia.
Qed.

Lemma pad_zeros_spec fuel k p :
  (56 - len p) mod 64 = Z.of_nat k -> (k <= fuel)%nat ->
  OneShot.pad_zeros fuel p = Some (p ++ replicate k x00).
Proof.
  revert k p. induction fuel as [|fuel IH]; intros k p Hk Hf; cbn [OneShot.pad_zeros].
  - assert (k = 0%nat) as -> by lia.
    destruct (Z.eqb_spec (len p mod 64) 56); [|zmod]. cbn. by rewrite app_nil_r.
  - destruct (Z.eqb_spec (len p mod 64) 56).
    + assert (k = 0%nat) as -> by zmod. cbn. by rewrite app_nil_r.
    + destruct k as [|k]; [zmod|]. rewrite (IH k); [|rewrite len_app, len_cons, len_nil; zmod|lia].
      cbn. by rewrite <- app_assoc.
Qed.

(** The padding of the one-shot function, by the number of zero bytes. *)
Lemma sha256_padded msg k :
  8 * len msg <= u64_max -> (55 - len msg) mod 64 = Z.of_nat k ->
  OneShot.sha256 msg =
  Some (words8_bytes (absorb initial_hash
    (msg ++ byte_of_Z 128 :: replicate k x00 ++ be_bytes 8 (8 * len msg)))).
Proof.
  intros Hmax Hk. unfold OneShot.sha256, checked_mul.
  rewrite (proj2 (Z.leb_le _ _)) by lia. cbn [mbind option_bind].
  rewrite (pad_zeros_spec _ k); [|rewrite len_app, len_cons, len_nil, <- Hk; f_equal; lia|zmod].
  cbn [mbind option_bind]. do 2 f_equal. unfold absorb.
  rewrite <- !app_assoc, (Z.mul_comm (len msg)). reflexivity.
Qed.

Lemma fill_zero_spec buffer (from to : nat) :
  (from <= to)%nat -> (to <= length buffer)%nat ->
  fill_zero buffer (Z.of_nat from) (Z.of_nat to) =
    Some (firstn from buffer ++ replicate (to - from) x00 ++ skipn to buffer).
Proof.
  intros. unfold fill_zero. rewrite (proj2 (Z.leb_le _ _)) by lia.
  replace (Z.to_nat _) with (to - from)%nat by lia.
  rewrite copy_at_spec by (rewrite length_replicate; lia).
  rewrite length_replicate. by replace (from + (to - from))%nat with to by lia.
Qed.

Lemma copy_tail_spec (a : list byte) b src :
  length a = 56%nat -> length b = 8%nat -> length src = 8%nat ->
  copy_at (a ++ b) 56 src = Some (a ++ src).
Proof.
  intros Ha Hb Hs. change 56 with (Z.of_nat 56). rewrite copy_at_spec by (rewrite length_app; lia).
  rewrite <- Ha, take_app_length, skipn_all2, app_nil_r; [done|]. rewrite length_app. lia.
Qed.

Lemma finalize_spec st msg :
  represents st msg -> 8 * len msg <= u64_max -> finalize st = OneShot.sha256 msg.
Proof.
  intros [(full & tail & -> & Hb & Ht & Hh & Hn & Hf) Hl Hbuf] Hmax.
  unfold finalize, checked_mul. rewrite Hl, (Z.mul_comm (len _) 8), (proj2 (Z.leb_le _ _)) by lia.
  cbn [mbind option_bind]. rewrite Hn. change (copy_at (buffer st) (len tail)) with (copy_at (buffer st) (Z.of_nat (length tail))).
  rewrite copy_at_spec by (cbn; lia). cbn [mbind option_bind length].
  rewrite Hf. replace (len tail + 1) with (Z.of_nat (S (length tail))) by (unfold len; lia).
  set (L8 := be_bytes 8 (8 * len (full ++ tail))).
  assert (HL8 : length L8 = 8%nat) by apply length_be_bytes.
  assert (Hfull : len full mod 64 = 0).
  { destruct Hb as [k Hk]. unfold len. rewrite Hk. rewrite Nat2Z.inj_mul. apply Z.mod_mul. lia. }
  set (R := skipn (length tail + 1) (buffer st)).
  assert (HR : length R = (63 - length tail)%nat) by (unfold R; rewrite length_skipn; lia).
  assert (Htl : length (tail ++ [byte_of_Z 128]) = S (length tail)) by (rewrite length_app; cbn; lia).
  change (tail ++ [byte_of_Z 128] ++ R) with (tail ++ [byte_of_Z 128] ++ R).
  rewrite app_assoc. destruct (Z.ltb_spec 56 (Z.of_nat (S (length tail)))).
  - change 64 with (Z.of_nat 64). rewrite fill_zero_spec by (rewrite ?length_app; cbn; lia).
    rewrite (skipn_all2 (n:=64)), app_nil_r, <- Htl, take_app_length by (rewrite !length_app; cbn; lia).
    cbn [mbind option_bind].
    change (replicate 64 x00) with (replicate 56 x00 ++ replicate 8 x00).
    rewrite copy_tail_spec by (rewrite ?length_replicate; done). cbn [mbind option_bind].
    rewrite (sha256_padded _ ((63 - length tail) + 56)), !Htl;
      [|lia|rewrite len_app; unfold len in *; zmod].
    rewrite replicate_add. fold L8.
    replace ((full ++ tail) ++ _) with
      (full ++ ((tail ++ [byte_of_Z 128]) ++ replicate (63 - length tail) x00) ++ (replicate 56 x00 ++ L8)).
    2: by rewrite <- !app_assoc.
    assert (length ((tail ++ [byte_of_Z 128]) ++ replicate (63 - length tail) x00) = 64%nat)
      by (rewrite length_app, Htl, length_replicate; lia).
    rewrite (absorb_app _ full), absorb_app, !absorb_one, Hh by (done || by apply blocks_one).
    by replace (64 - S (length tail))%nat with (63 - length tail)%nat by lia.
  - rewrite (fill_zero_spec _ _ 56) by (rewrite ?length_app; cbn; lia).
    rewrite <- Htl, take_app_length. cbn [mbind option_bind].
    rewrite app_assoc, copy_tail_spec by (rewrite ?length_app, ?length_skipn, ?length_app, ?length_replicate; cbn; lia).
    cbn [mbind option_bind].
    rewrite (sha256_padded _ (55 - length tail)); [|lia|rewrite len_app; unfold len in *; zmod].
    fold L8. rewrite Htl.
    replace ((full ++ tail) ++ _) with
      (full ++ ((tail ++ [byte_of_Z 128]) ++ replicate (55 - length tail) x00) ++ L8).
    2: by rewrite <- !app_assoc.
    assert (length (((tail ++ [byte_of_Z 128]) ++ replicate (55 - length tail) x00) ++ L8) = 64%nat)
      by (rewrite !length_app, length_replicate; cbn [length]; lia).
    rewrite (absorb_app _ full), absorb_one, Hh by done.
    by replace (56 - S (length tail))%nat with (55 - length tail)%nat by lia.
Qed.

Lemma update_all_spec st msg pieces :
  represents st msg -> len (msg ++ concat pieces) <= u64_max ->
  exists st', update_all st pieces = Some st' /\ represents st' (msg ++ concat pieces).
Proof.
  revert st msg. induction pieces as [|p pieces IH]; intros st msg Hr Hmax; cbn [update_all concat] in *.
  - exists st. by rewrite app_nil_r.
  - rewrite app_assoc in *. destruct (update_spec st msg p) as (st' & -> & Hr'); [done| |].
    { rewrite len_app in Hmax. pose proof (len_nonneg (concat pieces)). lia. }
    by apply IH.
Qed.

Lemma hash_pieces_sha256 pieces :
  8 * len (concat pieces) <= u64_max -> hash_pieces pieces = OneShot.sha256 (concat pieces).
Proof.
  intros Hmax. unfold hash_pieces.
  destruct (update_all_spec new [] pieces represents_new) as (st & -> & Hr).
  { rewrite app_nil_l. pose proof (len_nonneg (concat pieces)). lia. }
  cbn [mbind option_bind]. by apply finalize_spec.
Qed.

Lemma sha256_total msg :
  8 * len msg <= u64_max -> exists d, OneShot.sha256 msg = Some d /\ length d = 32%nat.
Proof.
  intros Hmax. eexists. split.
  - apply (sha256_padded msg (Z.to_nat ((55 - len msg) mod 64))); [done|].
    rewrite Z2Nat.id; [done|]. by apply Z.mod_pos_bound.
  - unfold words8_bytes. by rewrite !length_app, !length_be_bytes.
Qed.

Lemma hash_pieces_total pieces :
  8 * len (concat pieces) <= u64_max ->
  exists d, hash_pieces pieces = Some d /\ OneShot.sha256 (concat pieces) = Some d /\ length d = 32%nat.
Proof.
  intros H. rewrite hash_pieces_sha256 by done. apply sha256_total in H as (d & Hd & Hl). eauto.
Qed.

End Facts.

(** The test vectors of FIPS 180-4. *)
Example sha256_abc :
  OneShot.sha256_hex (str_bytes "abc") =
  Some "ba7816bf8f01cfea414140de5dae2223b00361a396177a9cb410ff61f20015ad"%string.
Proof. vm_compute. reflexivity. Qed.
Example sha256_two_blocks :
  OneShot.sha256_hex (str_bytes "abcdbcdecdefdefgefghfghighijhijkijkljklmklmnlmnomnopnopq") =
  Some "248d6a61d20638b8e5c026930c3e6039a33ce45964ff2167f6ecedd419db06c1"%string.
Proof. vm_compute. reflexivity. Qed.

(** Feeding a message to [Sha256State] in any number of pieces of any sizes
    and finalizing gives the digest of the one-shot [sha256] of the whole
    message; below 2^61 bytes neither panics and the digest has 32 bytes. *)
Theorem streaming_is_oneshot (pieces : list (list byte)) :
  8 * len (concat pieces) <= u64_max ->
  exists digest, Streaming.hash_pieces pieces = Some digest /\
    OneShot.sha256 (concat pieces) = Some digest /\ length digest = 32%nat.
Proof. apply Facts.hash_pieces_total. Qed.

Lemma streaming_is_oneshot_witness :
  exists digest, Streaming.hash_pieces [str_bytes "a"; replicate 70 x00; []; str_bytes "bc"] = Some digest /\
    OneShot.sha256 (str_bytes "a" ++ replicate 70 x00 ++ str_bytes "bc") = Some digest /\
    length digest = 32%nat.
Proof.
  apply (streaming_is_oneshot [str_bytes "a"; replicate 70 x00; []; str_bytes "bc"]).
  vm_compute. discriminate.
Defined.
