(* ===== verification/Paths.v ===== *)
(** * Paths, digests and records shared by the capture code

    [canonical_relative] and [parse_digest] of [protocol/src/p2_schema.rs], the
    text operations they use, and facts about records: a canonical map with
    exactly the expected keys is determined by its fields. *)

From S2P Require Import Prelude Cbor CborFacts.
Import Spec Encode.

(** [str::split(sep)] *)
Fixpoint split_bytes (sep : byte) (bs : list byte) : list (list byte) :=
  match bs with
  | [] => [[]]
  | b :: bs =>
      if bool_decide (b = sep) then [] :: split_bytes sep bs
      else match split_bytes sep bs with
           | part :: parts => (b :: part) :: parts
           | [] => [[b]]
           end
  end.
Definition split (sep : byte) (s : string) : list string :=
  map str_of_bytes (split_bytes sep (str_bytes s)).

(** [str::contains("//")] *)
Definition contains_double_slash (s : string) : bool :=
  windows2_any (fun a b => bool_decide (a = x2f) && bool_decide (b = x2f)) (str_bytes s).

(** [b"._+-".contains(&b)] *)
Definition path_punctuation (b : byte) : bool :=
  bool_decide (b = x2e) || bool_decide (b = x5f) || bool_decide (b = x2b) || bool_decide (b = x2d).

Definition canonical_part (part : string) : bool :=
  negb (bool_decide (part = "."%string) || bool_decide (part = ".."%string))
  && negb (bool_decide (part = ""%string))
  && forallb (fun b => is_alphanumeric b || path_punctuation b) (str_bytes part).

Definition canonical_relative (path : string) : bool :=
  negb (bool_decide (path = ""%string))
  && negb (starts_with "/" path)
  && negb (contains_double_slash path)
  && forallb canonical_part (split x2f path).

(** [path.is_empty() || ..] of a file path that names package metadata. *)
Definition checksum_path : string := ".cargo-checksum.json".

(** [byte.is_ascii_digit() || (b'a'..=b'f').contains(&byte)] *)
Definition lower_hex (b : byte) : bool := is_digit b || ((97 <=? bZ b) && (bZ b <=? 102)).

(** [u8::from_str_radix] of two hexadecimal digits. *)
Definition hex_value (b : byte) : option Z :=
  if is_digit b then Some (bZ b - 48)
  else if (97 <=? bZ b) && (bZ b <=? 102) then Some (bZ b - 87)
  else if (65 <=? bZ b) && (bZ b <=? 70) then Some (bZ b - 55)
  else None.
Fixpoint hex_pairs (text : list byte) : option (list byte) :=
  match text with
  | [] => Some []
  | a :: b :: text =>
      x ← hex_value a; y ← hex_value b; rest ← hex_pairs text;
      Some (byte_of_Z (16 * x + y) :: rest)
  | _ => None
  end.

Definition parse_digest (text : string) : result ProtocolError (list byte) :=
  throw_if negb (slen text =? 64)
           || forallb (fun b => bool_decide (b = x30)) (str_bytes text)
           || negb (forallb lower_hex (str_bytes text))
    with "P2 digest malformed"%string ;;
  ok_or (hex_pairs (str_bytes text)) "P2 digest malformed"%string.

(** [str::eq_ignore_ascii_case] *)
Definition eq_ignore_ascii_case (a b : string) : bool :=
  bool_decide (to_ascii_lowercase a = to_ascii_lowercase b).

(** ** Splitting and joining *)

Fixpoint join_bytes (sep : byte) (parts : list (list byte)) : list byte :=
  match parts with
  | [] => []
  | [part] => part
  | part :: parts => part ++ sep :: join_bytes sep parts
  end.
Definition join (sep : byte) (parts : list string) : string :=
  str_of_bytes (join_bytes sep (map str_bytes parts)).

Lemma split_bytes_cons sep bs : exists part parts, split_bytes sep bs = part :: parts.
Proof.
  destruct bs as [|b bs]; cbn; [eauto|]. destruct (bool_decide _); [eauto|].
  destruct (split_bytes sep bs); eauto.
Qed.

Lemma split_bytes_sep sep bs : split_bytes sep (sep :: bs) = [] :: split_bytes sep bs.
Proof. cbn. by rewrite bool_decide_true. Qed.

Lemma split_bytes_app sep part bs :
  Forall (fun b => b <> sep) part ->
  split_bytes sep (part ++ sep :: bs) = part :: split_bytes sep bs.
Proof.
  induction 1 as [|b part Hb Hp IH]; cbn [app]; [by apply split_bytes_sep|].
  cbn. by rewrite bool_decide_false, IH by done.
Qed.

Lemma split_bytes_single sep part : Forall (fun b => b <> sep) part -> split_bytes sep part = [part].
Proof. induction 1 as [|b part Hb Hp IH]; cbn; [done|]. by rewrite bool_decide_false, IH by done. Qed.

Lemma join_split_bytes sep bs : join_bytes sep (split_bytes sep bs) = bs.
Proof.
  induction bs as [|b bs IH]; [done|]. cbn [split_bytes].
  destruct (split_bytes_cons sep bs) as (part & parts & E). rewrite E in *.
  destruct (bool_decide_reflect (b = sep)) as [->|].
  - cbn in *. by rewrite IH.
  - destruct parts; cbn in *; by rewrite <- IH.
Qed.

Lemma split_join_bytes sep parts :
  parts <> [] -> Forall (Forall (fun b => b <> sep)) parts ->
  split_bytes sep (join_bytes sep parts) = parts.
Proof.
  intros Hne H. induction H as [|part parts Hp H IH]; [done|].
  destruct parts as [|part' parts].
  - by apply split_bytes_single.
  - change (join_bytes sep (part :: part' :: parts)) with (part ++ sep :: join_bytes sep (part' :: parts)).
    rewrite split_bytes_app by done. by rewrite IH.
Qed.

Lemma split_parts_sep sep bs : Forall (Forall (fun b => b <> sep)) (split_bytes sep bs).
Proof.
  induction bs as [|b bs IH]; cbn; [repeat constructor|].
  destruct (bool_decide_reflect (b = sep)); [by constructor|].
  destruct (split_bytes sep bs); [repeat constructor; done|]. inv IH. by constructor; [constructor|].
Qed.

Lemma map_bytes_of_parts (parts : list (list byte)) : map str_bytes (map str_of_bytes parts) = parts.
Proof. rewrite map_map, (map_ext _ id), map_id; [done|]. intros. apply str_bytes_of_bytes. Qed.

Lemma join_split sep s : join sep (split sep s) = s.
Proof. unfold join, split. by rewrite map_bytes_of_parts, join_split_bytes, str_of_str_bytes. Qed.

Lemma canonical_part_no_slash part :
  canonical_part part = true -> Forall (fun b => b <> x2f) (str_bytes part).
Proof.
  unfold canonical_part. rewrite !andb_true_iff. intros [_ H]. apply forallb_Forall' in H.
  eapply Forall_impl; [exact H|]. by intros b Hb ->.
Qed.

Lemma split_join parts :
  parts <> [] -> Forall (fun p => canonical_part p = true) parts -> split x2f (join x2f parts) = parts.
Proof.
  intros Hne Hp. unfold split, join. rewrite str_bytes_of_bytes, split_join_bytes.
  - rewrite map_map, (map_ext _ id), map_id; [done|]. intros. apply str_of_str_bytes.
  - by destruct parts.
  - apply Forall_map. eapply Forall_impl; [exact Hp|]. apply canonical_part_no_slash.
Qed.

(** A path whose parts are all non-empty has no leading and no double slash. *)
Lemma parts_no_double_slash bs :
  Forall (fun p => p <> []) (split_bytes x2f bs) ->
  windows2_any (fun a b => bool_decide (a = x2f) && bool_decide (b = x2f)) bs = false.
Proof.
  enough (forall bs, Forall (fun p => p <> []) (tl (split_bytes x2f bs)) ->
    windows2_any (fun a b => bool_decide (a = x2f) && bool_decide (b = x2f)) bs = false) as He.
  { intros H. apply He. by destruct H. }
  clear bs. induction bs as [|a bs IH]; [done|]. intros H.
  destruct bs as [|b bs]; [done|]. rewrite windows2_any_cons.
  destruct (bool_decide_reflect (a = x2f)) as [->|Ha]; cbn [andb orb].
  - rewrite split_bytes_sep in H. cbn [tl] in H.
    destruct (bool_decide_reflect (b = x2f)) as [->|Hb].
    + rewrite split_bytes_sep in H. by inv H.
    + apply IH. destruct (split_bytes_cons x2f (b :: bs)) as (p & ps & E). rewrite E in *. by inv H.
  - apply IH. cbn [split_bytes] in H. rewrite bool_decide_false in H by done.
    destruct (split_bytes_cons x2f (b :: bs)) as (p & ps & E). cbn [split_bytes] in *.
    rewrite E in *. done.
Qed.

Lemma strip_slash s : starts_with "/" s = true -> exists bs, str_bytes s = x2f :: bs.
Proof.
  unfold starts_with, strip_prefix. change (str_bytes "/") with [x2f].
  destruct (str_bytes s) as [|b bs]; cbn; [done|].
  destruct (bool_decide_reflect (x2f = b)) as [<-|]; cbn; [eauto|done].
Qed.

Lemma str_bytes_nil s : str_bytes s = [] <-> s = ""%string.
Proof. split; [|by intros ->]. destruct s; [done|]. intros H. by apply (f_equal length) in H. Qed.

Lemma canonical_relative_parts path :
  canonical_relative path = true <-> Forall (fun p => canonical_part p = true) (split x2f path).
Proof.
  unfold canonical_relative. rewrite !andb_true_iff, forallb_Forall'. split; [by intros [_ H]|].
  intros H. assert (Hne : Forall (fun p => p <> []) (split_bytes x2f (str_bytes path))).
  { unfold split in H. apply Forall_map in H. eapply Forall_impl; [exact H|].
    by intros p Hp ->. }
  split_and!; try done; apply negb_true_iff.
  - apply bool_decide_eq_false. intros ->. by inv Hne.
  - destruct (starts_with "/" path) eqn:E; [|done]. apply strip_slash in E as [bs E].
    rewrite E, split_bytes_sep in Hne. by inv Hne.
  - unfold contains_double_slash. by apply parts_no_double_slash.
Qed.

(** ** Records *)

(** [value.field(name)] read as a partial function on the entries. *)
Lemma find_key_elem name kvs v : find_key name kvs = Some v -> (name, v) ∈ kvs.
Proof.
  induction kvs as [|[k w] kvs IH]; cbn; [done|].
  destruct (bool_decide_reflect (k = name)) as [->|]; [intros [= ->]; by left|].
  intros H. right. by apply IH.
Qed.

Lemma keys_sorted_NoDup ks : keys_sorted ks = true -> NoDup ks.
Proof.
  rewrite keys_sorted_spec. induction 1 as [|k ks Hs IH Hk]; constructor; [|done].
  intros Hin. rewrite Forall_forall in Hk. apply Hk in Hin. unfold cmp_lt in Hin.
  by rewrite cmp_refl in Hin.
Qed.

Lemma head_len_mono a b : a < b -> head_len a + a < head_len b + b.
Proof. unfold head_len. intros. repeat case_match; bool_to_prop; lia. Qed.

Lemma key_bytes_inj a b : key_bytes a = key_bytes b -> a = b.
Proof.
  intros H. assert (slen a = slen b) as E.
  { apply (f_equal len) in H. rewrite !len_key_bytes in H. unfold text_size in H.
    destruct (Z.lt_trichotomy (slen a) (slen b)) as [L|[L|L]]; [|done|];
      apply head_len_mono in L; lia. }
  unfold key_bytes in H. rewrite E in H. apply app_inv_head in H. by apply str_bytes_inj.
Qed.

Lemma key_cmp_eq a b : key_cmp a b = Eq <-> a = b.
Proof.
  unfold key_cmp. rewrite canonical_key_cmp_eq. split; [apply key_bytes_inj|by intros ->].
Qed.

Lemma find_key_NoDup name v kvs :
  NoDup (map fst kvs) -> (name, v) ∈ kvs -> find_key name kvs = Some v.
Proof.
  induction kvs as [|[k w] kvs IH]; cbn; intros Hnd Hin; [by inv Hin|]. inv Hnd.
  inv Hin; [by rewrite bool_decide_true|].
  rewrite bool_decide_false; [by apply IH|]. intros ->. apply H1.
  change name with (fst (name, v)). by apply list_elem_of_fmap_2.
Qed.

(** Entries with distinct keys sort strictly. *)
Lemma kv_sorted (kvs : list (string * Value)) :
  NoDup (map fst kvs) ->
  StronglySorted (cmp_lt (fun a b : string * Value => key_cmp a.1 b.1))
    (sort_by (fun a b => key_cmp a.1 b.1) kvs).
Proof.
  intros Hnd. apply sort_by_sorted; [apply _|]. intros x y l1 l2 -> Hy Hxy%key_cmp_eq.
  rewrite map_app in Hnd. apply NoDup_app in Hnd as (_ & _ & Hnd). inv Hnd.
  apply H1. cbn. rewrite Hxy. by apply list_elem_of_fmap_2.
Qed.

(** A canonical map with as many entries as there are expected keys, all of
    them present, is the canonical form of the record of its fields. *)
Lemma exact_record kvs (ks : list string) (f : string -> Value) :
  keys_sorted (map fst kvs) = true -> NoDup ks -> length kvs = length ks ->
  Forall (fun k => find_key k kvs = Some (f k)) ks ->
  kvs = sort_by (fun a b => key_cmp a.1 b.1) (map (fun k => (k, f k)) ks).
Proof.
  intros Hs Hnd Hlen Hf. apply (sorted_perm_unique (fun a b : string * Value => key_cmp a.1 b.1)).
  - apply keys_sorted_spec in Hs. by apply (StronglySorted_map _ fst) in Hs.
  - apply kv_sorted. by rewrite map_map, map_id.
  - symmetry. rewrite sort_by_perm. apply submseteq_length_Permutation.
    + apply NoDup_submseteq; [apply (NoDup_fmap_1 fst); by rewrite <- list_fmap_compose, (list_fmap_ext _ id), list_fmap_id|].
      intros [k v] Hin. apply list_elem_of_fmap in Hin as (k' & [= <- ->] & Hin).
      rewrite Forall_forall in Hf. by apply find_key_elem, Hf.
    + rewrite length_map. lia.
Qed.

(** Sorting the maps of a value does not change its encoding. *)
Lemma sort_kvs_idem kvs :
  keys_sorted (map fst (sort_kvs (sort_kvs kvs))) = true -> sort_kvs (sort_kvs kvs) = sort_kvs kvs.
Proof.
  intros Hs. unfold sort_kvs at 1. apply sort_by_sorted_id, kv_sorted.
  apply keys_sorted_NoDup in Hs. unfold sort_kvs in Hs. by rewrite !sort_by_perm in Hs.
Qed.

Lemma sort_kvs_canon kvs :
  sort_kvs (map (fun kv : string * Value => (kv.1, canon kv.2)) kvs) =
  map (fun kv : string * Value => (kv.1, canon kv.2)) (sort_kvs kvs).
Proof. unfold sort_kvs, kv_cmp. by rewrite sort_by_map. Qed.

Lemma encode_canon_inv v bs : encode_into (canon v) = Ok bs -> encode_into v = Ok bs.
Proof.
  revert bs. induction v as [|b|n|bs'|s|vs IH|kvs IH] using Value_nested_ind; intros bs Henc; try done.
  - cbn [encode_into canon] in *. rewrite len_map in Henc.
    apply bind_ok in Henc as (encs & HF & [= <-]). apply bind_ok. exists encs. split; [|done].
    apply res_map_Forall2. apply res_map_Forall2, Forall2_fmap_l in HF.
    eapply Forall2_Forall_impl; [exact IH|exact HF|]. auto.
  - rewrite Canon.canon_map in Henc. apply encode_map_spec in Henc as (Hn & Hs & encs & HF & ->).
    rewrite sort_kvs_canon, Canon.canon_keys in *. pose proof (sort_kvs_idem kvs Hs) as Hid.
    rewrite Hid in *. apply encode_map_spec. split_and!; [|done|].
    + rewrite forallb_forall in *. intros k Hk. apply Hn. rewrite in_map_iff in *.
      destruct Hk as (kv & <- & Hkv). exists kv. split; [done|].
      rewrite <- !list_elem_of_In in *. unfold sort_kvs. by rewrite sort_by_perm.
    + exists encs. split.
      * apply Forall2_fmap_l in HF. eapply Forall2_Forall_impl; [apply Canon.Forall_sort, IH|exact HF|]. cbn. auto.
      * by rewrite len_map, Canon.len_sort, map_map.
Qed.

Lemma encode_bounded_canon_iff v L bs :
  limits_ok L -> encode_bounded (canon v) L = Ok bs <-> encode_bounded v L = Ok bs.
Proof.
  intros HL. rewrite !encode_bounded_spec, Canon.within_canon, Canon.count_canon by done.
  split; intros (He & Hw & Hc & Hs); pose proof (encode_len _ _ He) as E1.
  - apply encode_canon_inv in He. pose proof (encode_len _ _ He). split_and!; (done || lia).
  - apply Canon.encode_canon in He. pose proof (encode_len _ _ He). split_and!; (done || lia).
Qed.

(** Looking up a field of a record in canonical form. *)
Lemma field_canon kvs k v :
  NoDup (map fst kvs) -> (k, v) ∈ kvs -> field (canon (Map kvs)) k = Some (canon v).
Proof.
  intros Hnd Hin. rewrite Canon.canon_map. cbn [field]. apply find_key_NoDup.
  - rewrite Canon.canon_keys. unfold sort_kvs. by rewrite sort_by_perm.
  - apply (list_elem_of_fmap_2' (fun kv : string * Value => (kv.1, canon kv.2)) _ (k, v)); [|done].
    unfold sort_kvs. by rewrite sort_by_perm.
Qed.
