(* ===== verification/TextFacts.v ===== *)
(** * Facts about text: prefixes, hexadecimal and SHA-256 digests *)

From S2P Require Import Prelude Cbor CborFacts Sha256 Paths.

Lemma strip_prefix_bytes_spec p l r : strip_prefix_bytes p l = Some r <-> l = p ++ r.
Proof.
  revert l. induction p as [|a p IH]; intros l; cbn; [naive_solver|].
  destruct l as [|b l]; [naive_solver|]. case_bool_decide; [subst; rewrite IH|]; naive_solver.
Qed.

Lemma starts_with_spec p s : starts_with p s = true <-> exists r, str_bytes s = str_bytes p ++ r.
Proof.
  unfold starts_with, strip_prefix. pose proof (strip_prefix_bytes_spec (str_bytes p) (str_bytes s)) as H.
  destruct (strip_prefix_bytes _ _) as [r|]; cbn.
  - split; [|done]. intros _. exists r. by apply H.
  - split; [done|]. intros [r Hr]. by apply H in Hr.
Qed.

Lemma hex_length d : slen (hex d) = 2 * len d.
Proof.
  unfold slen, hex. rewrite str_bytes_of_bytes.
  induction d as [|x d IH]; [done|]. cbn [hex_bytes flat_map app] in *. fold (hex_bytes d).
  rewrite !len_cons, IH. lia.
Qed.

Lemma sha256_hex_total msg :
  8 * len msg <= u64_max -> exists d, OneShot.sha256_hex msg = Some d /\ slen d = 64.
Proof.
  intros Hl. destruct (Facts.sha256_total msg Hl) as (d & E & Hd). exists (hex d).
  unfold OneShot.sha256_hex. rewrite E, hex_length. unfold len. by rewrite Hd.
Qed.

Lemma sha256_hex_length bs d : OneShot.sha256_hex bs = Some d -> 8 * len bs <= u64_max.
Proof.
  unfold OneShot.sha256_hex, OneShot.sha256, checked_mul.
  destruct (Z.leb_spec (len bs * 8) u64_max); [lia|done].
Qed.

Lemma lower_hex_native b : lower_hex b = true -> native_ascii b = true.
Proof. destruct b; (done || discriminate). Qed.

Lemma hex_digit_lower n : 0 <= n < 16 -> lower_hex (hex_digit n) = true.
Proof.
  intros H. assert (Forall (fun k => lower_hex (hex_digit (Z.of_nat k)) = true) (seq 0 16)) as Ha.
  { by repeat constructor. }
  rewrite Forall_forall in Ha. specialize (Ha (Z.to_nat n)). rewrite Z2Nat.id in Ha by lia. apply Ha, elem_of_seq. lia.
Qed.

Lemma hex_lower bs : Forall (fun b => lower_hex b = true) (hex_bytes bs).
Proof.
  induction bs as [|b bs IH]; cbn [hex_bytes flat_map app]; [constructor|]. pose proof (bZ_range b).
  constructor; [|constructor; [|exact IH]]; apply hex_digit_lower; [zmod|apply Z.mod_pos_bound; lia].
Qed.

Lemma hex_native bs : native_text (hex bs) = true.
Proof.
  unfold native_text, hex. rewrite str_bytes_of_bytes. apply forallb_Forall'.
  eapply Forall_impl; [apply hex_lower|]. apply lower_hex_native.
Qed.
