(* ===== verification/PatchOverlay.v ===== *)
(** * Patch overlays and the result tree ([protocol/src/p2_d2.rs])

    [capture_patch_overlay] and [capture_patch_byte_carrier_set] admit the two
    inputs of a patch, [join_patch_application_inputs] ties them together,
    [derive_result_tree_candidate] applies the operations to a captured archive
    and [validate_result_tree_application] compares the resulting digest with
    the overlay's commitment.  A [BTreeMap] is a [gmap] read in key order, a
    [BTreeSet] a [gset].  [Panicked] is not an error of the code: it stands for
    a panic (only [sha256] can, at 2^61 bytes). *)

From S2P Require Import Prelude Cbor Sha256 Paths.

Definition OVERLAY_SCHEMA : string := "keep.p2-d2-patch-overlay".
Definition OVERLAY_PACKAGE_ID : string := "curve25519-dalek@5.0.0".
Definition OVERLAY_DOMAIN : list byte := str_bytes "keep.p2-d2-patch-overlay/v1" ++ [x00].
Definition MAX_OPERATIONS : Z := 256.
Definition MAX_NEW_FILE_BYTES : Z := 16 * 1024 * 1024.
Definition MAX_AGGREGATE_NEW_BYTES : Z := 128 * 1024 * 1024.
Definition CARRIER_SET_SCHEMA : string := "keep.p2-d2-patch-byte-carrier-set".
Definition CARRIER_SET_DOMAIN : list byte :=
  str_bytes "keep.p2-d2-patch-byte-carrier-set/v1" ++ [x00].
Definition MAX_CARRIER_SET_ENCODED_BYTES : Z := 130 * 1024 * 1024.
Definition RESULT_TREE_SCHEMA : string := "keep.p2-d2-result-tree".
Definition RESULT_TREE_DOMAIN : list byte := str_bytes "keep.p2-d2-result-tree/v1" ++ [x00].
Definition MAX_ARCHIVE_FILES : Z := 4096.
Definition EMPTY_SHA256 : string :=
  "e3b0c44298fc1c149afbf4c8996fb92427ae41e4649b934ca495991b7852b855".
Definition ZERO_SHA256 : string :=
  "0000000000000000000000000000000000000000000000000000000000000000".
Definition ROOT_KEYS : list string :=
  ["schema"; "version"; "packageId"; "baseArchiveDigest"; "operations"; "rationale";
   "resultTreeDigest"; "auditPlanDigest"]%string.
Definition OPERATION_KEYS : list string :=
  ["operation"; "path"; "oldByteDigest"; "newByteDigest"; "newByteLength"]%string.
Definition CARRIER_ROOT_KEYS : list string := ["schema"; "version"; "packageId"; "entries"]%string.
Definition CARRIER_ENTRY_KEYS : list string := ["path"; "operation"; "bytes"]%string.

Inductive OverlayError : Set :=
| OverlayErr (message : string)
| Panicked.

Inductive PatchOperationKindV1 : Set := Add | Delete | Replace.
#[export] Instance PatchOperationKindV1_eq_dec : EqDecision PatchOperationKindV1.
Proof. solve_decision. Defined.

Record NativePatchOperationV1 : Set := mkOperation {
  operation : PatchOperationKindV1;
  path : string;
  old_byte_digest : option string;
  new_byte_digest : option string;
  new_byte_length : option Z
}.

Record NativePatchOverlayV1 : Set := mkOverlay {
  base_archive_digest : string;
  operations : list NativePatchOperationV1;
  rationale : string;
  result_tree_digest : string;
  audit_plan_digest : string
}.

Record ValidatedPatchOverlayPlan : Set := mkPlan {
  overlay : NativePatchOverlayV1;
  plan_canonical_bytes : list byte;
  patch_overlay_digest : string
}.

Record NativePatchByteCarrierV1 : Set := mkCarrier {
  carrier_path : string;
  carrier_operation : PatchOperationKindV1;
  carrier_bytes : list byte
}.

Record ValidatedPatchByteCarrierSet : Set := mkCarrierSet {
  entries : list NativePatchByteCarrierV1;
  set_canonical_bytes : list byte;
  patch_byte_carrier_set_digest : string
}.

Record CapturedNativeArchiveFileV1 : Set := mkArchiveFile {
  file_path : string;
  file_bytes : list byte
}.

Record CapturedNativeArchiveV1 : Set := mkArchive {
  package_id : string;
  archive_digest : string;
  files : list CapturedNativeArchiveFileV1
}.

Record NativeResultTreeFileV1 : Set := mkResultFile {
  result_path : string;
  result_byte_digest : string;
  result_byte_length : Z
}.

Record NativeResultTreeCandidateV1 : Type := mkCandidate {
  result_files : list NativeResultTreeFileV1;
  result_bytes : gmap string (list byte);
  result_canonical_bytes : list byte;
  candidate_digest : string
}.

(** ** Fields *)

Definition sha256_hex (bs : list byte) : result OverlayError string :=
  ok_or (OneShot.sha256_hex bs) Panicked.

Definition record_entries (value : Value) : result OverlayError (list (string * Value)) :=
  match value with
  | Map rows => Ok rows
  | _ => Err (OverlayErr "overlay value is not a record")
  end.

Definition exact_keys (value : Value) (expected : list string) : result OverlayError unit :=
  let? rows := record_entries value in
  throw_if negb (len rows =? len expected)
           || existsb (fun key => negb (existsb (fun row : string * Value =>
                                                   bool_decide (row.1 = key)) rows)) expected
    with OverlayErr "overlay fields are not exact" ;;
  Ok tt.

Definition get_field (value : Value) (name : string) : result OverlayError Value :=
  ok_or (field value name) (OverlayErr "required field missing").

Definition get_text (value : Value) (name : string) : result OverlayError string :=
  let? v := get_field value name in
  ok_or (as_text v) (OverlayErr "required text malformed").

Definition digest (value : Value) : result OverlayError string :=
  match value with
  | Text text =>
      throw_if negb (slen text =? 64) || bool_decide (text = ZERO_SHA256)
               || negb (forallb lower_hex (str_bytes text))
        with OverlayErr "digest is not nonzero lowercase SHA-256" ;;
      Ok text
  | _ => Err (OverlayErr "digest is not text")
  end.

Definition nullable_digest (value : Value) : result OverlayError (option string) :=
  match value with
  | Null => Ok None
  | _ => let? d := digest value in Ok (Some d)
  end.

Definition nullable_length (value : Value) : result OverlayError (option Z) :=
  match value with
  | Null => Ok None
  | Unsigned length =>
      if length <=? MAX_NEW_FILE_BYTES then Ok (Some length)
      else Err (OverlayErr "new byte length violates the file bound")
  | _ => Err (OverlayErr "new byte length violates the file bound")
  end.

Definition validate_new_bytes (length : Z) (digest_value : string) : result OverlayError unit :=
  throw_if negb (eqb (length =? 0) (bool_decide (digest_value = EMPTY_SHA256)))
    with OverlayErr "empty-file digest equation violated" ;;
  Ok tt.

(** [path.len() > max_text_bytes || !canonical_relative(path) || path == ..] *)
Definition path_refused (path : string) : bool :=
  (max_text_bytes WIRE <? slen path) || negb (canonical_relative path)
  || bool_decide (path = checksum_path).

(** [option.unwrap_or_default()] *)
Definition or_zero (o : option Z) : Z := match o with Some n => n | None => 0 end.
Definition or_empty (o : option string) : string := match o with Some s => s | None => "" end.
Definition is_none {A : Type} (o : option A) : bool := match o with None => true | _ => false end.
Definition is_some {A : Type} (o : option A) : bool := negb (is_none o).

(** ** The overlay *)

Definition operation_tag (tag : string) : result OverlayError PatchOperationKindV1 :=
  if bool_decide (tag = "add"%string) then Ok Add
  else if bool_decide (tag = "delete"%string) then Ok Delete
  else if bool_decide (tag = "replace"%string) then Ok Replace
  else Err (OverlayErr "operation tag is unknown").

(** The equation between the tag and the nullable fields. *)
Definition operation_equation (operation : PatchOperationKindV1)
    (old new : option string) (length : option Z) : result OverlayError unit :=
  match operation with
  | Delete =>
      throw_if is_none old || is_some new || is_some length
        with OverlayErr "delete equation violated" ;;
      Ok tt
  | Add =>
      throw_if is_some old || is_none new || is_none length
        with OverlayErr "add equation violated" ;;
      validate_new_bytes (or_zero length) (or_empty new)
  | Replace =>
      throw_if is_none old || is_none new || is_none length
        with OverlayErr "replace equation violated" ;;
      throw_if bool_decide (old = new) with OverlayErr "replace is a no-op" ;;
      validate_new_bytes (or_zero length) (or_empty new)
  end.

Definition capture_operation (value : Value) : result OverlayError NativePatchOperationV1 :=
  let? _ := exact_keys value OPERATION_KEYS in
  let? tag := get_text value "operation" in
  let? operation := operation_tag tag in
  let? path := get_text value "path" in
  throw_if path_refused path with OverlayErr "operation path is not admitted" ;;
  let? v := get_field value "oldByteDigest" in
  let? old_byte_digest := nullable_digest v in
  let? v := get_field value "newByteDigest" in
  let? new_byte_digest := nullable_digest v in
  let? v := get_field value "newByteLength" in
  let? new_byte_length := nullable_length v in
  let? _ := operation_equation operation old_byte_digest new_byte_digest new_byte_length in
  Ok (mkOperation operation path old_byte_digest new_byte_digest new_byte_length).

(** The state of the loops that check an inventory: the previous path, the
    case-folded paths and the running total. *)
Record Inventory : Type := mkInventory {
  prior : option string;
  folded : gset string;
  aggregate : Z
}.
Definition no_inventory : Inventory := mkInventory None ∅ 0.

(** [prior.is_some_and(|p| p.as_bytes() >= path.as_bytes())] *)
Definition not_after (prior : option string) (path : string) : bool :=
  match prior with
  | Some previous => negb (str_ltb previous path)
  | None => false
  end.

Definition add_total (aggregate n : Z) (overflow bound : string) : result OverlayError Z :=
  let? total := ok_or (checked_add aggregate n) (OverlayErr overflow) in
  throw_if MAX_AGGREGATE_NEW_BYTES <? total with OverlayErr bound ;;
  Ok total.

Definition check_operation (st : Inventory) (op : NativePatchOperationV1)
    : result OverlayError Inventory :=
  throw_if not_after (prior st) (path op)
    with OverlayErr "operations are not strictly path-sorted" ;;
  throw_if bool_decide (to_ascii_lowercase (path op) ∈ folded st)
    with OverlayErr "operation paths collide under ASCII case folding" ;;
  let? total := add_total (aggregate st) (or_zero (new_byte_length op))
                  "aggregate new bytes overflow" "aggregate new bytes exceed the bound" in
  Ok (mkInventory (Some (path op)) ({[to_ascii_lowercase (path op)]} ∪ folded st) total).

Definition capture_patch_overlay (bytes : list byte) : result OverlayError ValidatedPatchOverlayPlan :=
  let? value := map_err (fun _ => OverlayErr "canonical decode refused")
                  (decode_canonical bytes WIRE) in
  let? _ := exact_keys value ROOT_KEYS in
  let? schema := get_text value "schema" in
  throw_if negb (bool_decide (schema = OVERLAY_SCHEMA))
    with OverlayErr "schema, version, or package identity is not frozen" ;;
  let? version := get_field value "version" in
  throw_if negb (bool_decide (as_u64 version = Some 1))
    with OverlayErr "schema, version, or package identity is not frozen" ;;
  let? package := get_text value "packageId" in
  throw_if negb (bool_decide (package = OVERLAY_PACKAGE_ID))
    with OverlayErr "schema, version, or package identity is not frozen" ;;
  let? rationale := get_text value "rationale" in
  throw_if bool_decide (rationale = ""%string) || (max_text_bytes WIRE <? slen rationale)
    with OverlayErr "rationale violates the bound" ;;
  let? operations := get_field value "operations" in
  match operations with
  | Array operation_values =>
      throw_if (len operation_values =? 0) || (MAX_OPERATIONS <? len operation_values)
        with OverlayErr "operation count violates the bound" ;;
      let? operations := res_map capture_operation operation_values in
      let? _ := res_fold check_operation operations no_inventory in
      let? canonical_bytes := map_err (fun _ => OverlayErr "canonical encode refused")
                                (encode_bounded value WIRE) in
      throw_if negb (bool_decide (canonical_bytes = bytes))
        with OverlayErr "canonical byte identity changed" ;;
      let preimage := OVERLAY_DOMAIN ++ canonical_bytes in
      let? v := get_field value "baseArchiveDigest" in
      let? base_archive_digest := digest v in
      let? v := get_field value "resultTreeDigest" in
      let? result_tree_digest := digest v in
      let? v := get_field value "auditPlanDigest" in
      let? audit_plan_digest := digest v in
      let? patch_overlay_digest := sha256_hex preimage in
      Ok (mkPlan (mkOverlay base_archive_digest operations rationale
                    result_tree_digest audit_plan_digest)
            canonical_bytes patch_overlay_digest)
  | _ => Err (OverlayErr "operations are not an array")
  end.

(** ** The byte carriers *)

Definition CARRIER_LIMITS : Limits := {|
  max_bytes := MAX_CARRIER_SET_ENCODED_BYTES; max_depth := 16; max_items := 65536;
  max_collection_items := MAX_OPERATIONS; max_text_bytes := 4096 |}.

(** One turn of the loop over the rows: the captured entry and the next state. *)
Definition capture_carrier (st : Inventory) (row : Value)
    : result OverlayError (NativePatchByteCarrierV1 * Inventory) :=
  let? _ := exact_keys row CARRIER_ENTRY_KEYS in
  let? tag := get_text row "operation" in
  let? operation :=
    if bool_decide (tag = "add"%string) then Ok Add
    else if bool_decide (tag = "replace"%string) then Ok Replace
    else Err (OverlayErr "carrier operation is not add/replace") in
  let? path := get_text row "path" in
  throw_if path_refused path with OverlayErr "carrier path is not admitted" ;;
  throw_if not_after (prior st) path
    with OverlayErr "carrier entries are not strictly path-sorted" ;;
  throw_if bool_decide (to_ascii_lowercase path ∈ folded st)
    with OverlayErr "carrier paths collide under ASCII case folding" ;;
  let? v := get_field row "bytes" in
  match v with
  | Bytes row_bytes =>
      throw_if MAX_NEW_FILE_BYTES <? len row_bytes
        with OverlayErr "carrier bytes exceed the file bound" ;;
      let? total := add_total (aggregate st) (len row_bytes)
                      "aggregate carrier bytes overflow" "aggregate carrier bytes exceed the bound" in
      Ok (mkCarrier path operation row_bytes,
          mkInventory (Some path) ({[to_ascii_lowercase path]} ∪ folded st) total)
  | _ => Err (OverlayErr "carrier bytes are not a byte string")
  end.

Fixpoint capture_carriers (st : Inventory) (rows : list Value)
    : result OverlayError (list NativePatchByteCarrierV1) :=
  match rows with
  | [] => Ok []
  | row :: rows =>
      let? (entry, st) := capture_carrier st row in
      let? entries := capture_carriers st rows in
      Ok (entry :: entries)
  end.

Definition capture_patch_byte_carrier_set (bytes : list byte)
    : result OverlayError ValidatedPatchByteCarrierSet :=
  let? value := map_err (fun _ => OverlayErr "canonical carrier decode refused")
                  (decode_canonical bytes CARRIER_LIMITS) in
  let? _ := exact_keys value CARRIER_ROOT_KEYS in
  let? schema := get_text value "schema" in
  throw_if negb (bool_decide (schema = CARRIER_SET_SCHEMA))
    with OverlayErr "carrier schema, version, or package identity is not frozen" ;;
  let? version := get_field value "version" in
  throw_if negb (bool_decide (as_u64 version = Some 1))
    with OverlayErr "carrier schema, version, or package identity is not frozen" ;;
  let? package := get_text value "packageId" in
  throw_if negb (bool_decide (package = OVERLAY_PACKAGE_ID))
    with OverlayErr "carrier schema, version, or package identity is not frozen" ;;
  let? rows := get_field value "entries" in
  match rows with
  | Array rows =>
      throw_if MAX_OPERATIONS <? len rows
        with OverlayErr "carrier entry count exceeds the bound" ;;
      let? entries := capture_carriers no_inventory rows in
      let? canonical_bytes := map_err (fun _ => OverlayErr "canonical carrier encode refused")
                                (encode_bounded value CARRIER_LIMITS) in
      throw_if negb (bool_decide (canonical_bytes = bytes))
        with OverlayErr "canonical carrier byte identity changed" ;;
      let preimage := CARRIER_SET_DOMAIN ++ canonical_bytes in
      let? set_digest := sha256_hex preimage in
      Ok (mkCarrierSet entries canonical_bytes set_digest)
  | _ => Err (OverlayErr "carrier entries are not an array")
  end.

(** ** Application *)

Fixpoint join_rows (expected : list NativePatchOperationV1) (carriers : list NativePatchByteCarrierV1)
    : result OverlayError unit :=
  match expected, carriers with
  | op :: expected, carrier :: carriers =>
      let? carrier_digest := sha256_hex (carrier_bytes carrier) in
      throw_if negb (bool_decide (path op = carrier_path carrier))
               || negb (bool_decide (operation op = carrier_operation carrier))
        with OverlayErr "carrier/overlay path or operation mismatch" ;;
      throw_if negb (bool_decide (new_byte_length op = Some (len (carrier_bytes carrier))))
               || negb (bool_decide (new_byte_digest op = Some carrier_digest))
        with OverlayErr "carrier bytes do not reproduce the overlay equation" ;;
      join_rows expected carriers
  | _, _ => Ok tt
  end.

Definition not_delete (op : NativePatchOperationV1) : bool :=
  negb (bool_decide (operation op = Delete)).

Definition join_patch_application_inputs (plan : ValidatedPatchOverlayPlan)
    (carriers : ValidatedPatchByteCarrierSet) : result OverlayError unit :=
  let expected := List.filter not_delete (operations (overlay plan)) in
  throw_if negb (len expected =? len (entries carriers))
    with OverlayErr "carrier/overlay cardinality mismatch" ;;
  join_rows expected (entries carriers).

(** One turn of the loop of [capture_archive_tree]. *)
Definition capture_archive_row (acc : Inventory * gmap string (list byte))
    (row : CapturedNativeArchiveFileV1) : result OverlayError (Inventory * gmap string (list byte)) :=
  let '(st, tree) := acc in
  throw_if path_refused (file_path row) || (MAX_NEW_FILE_BYTES <? len (file_bytes row))
           || not_after (prior st) (file_path row)
           || bool_decide (to_ascii_lowercase (file_path row) ∈ folded st)
    with OverlayErr "captured archive row, ordering, or case identity is malformed" ;;
  let? total := add_total (aggregate st) (len (file_bytes row))
                  "captured archive aggregate overflow" "captured archive aggregate exceeds the bound" in
  Ok (mkInventory (Some (file_path row)) ({[to_ascii_lowercase (file_path row)]} ∪ folded st) total,
      <[file_path row := file_bytes row]> tree).

Definition capture_archive_tree (archive : CapturedNativeArchiveV1)
    : result OverlayError (gmap string (list byte)) :=
  throw_if negb (bool_decide (package_id archive = OVERLAY_PACKAGE_ID))
           || negb (is_ok (digest (Text (archive_digest archive))))
           || (MAX_ARCHIVE_FILES <? len (files archive))
    with OverlayErr "captured archive identity or file count is malformed" ;;
  let? (_, tree) := res_fold capture_archive_row (files archive) (no_inventory, ∅) in
  Ok tree.

(** [tree.keys().any(|path| path != &op.path && path.eq_ignore_ascii_case(&op.path))] *)
Definition case_collides (tree : gmap string (list byte)) (p : string) : bool :=
  existsb (fun row : string * list byte =>
             negb (bool_decide (row.1 = p)) && eq_ignore_ascii_case row.1 p) (map_to_list tree).

Definition apply_operation (carrier_map : gmap string (list byte)) (tree : gmap string (list byte))
    (op : NativePatchOperationV1) : result OverlayError (gmap string (list byte)) :=
  throw_if case_collides tree (path op)
    with OverlayErr "operation case-collides with a base member" ;;
  let existing := tree !! path op in
  let carrier := carrier_map !! path op in
  match operation op with
  | Add =>
      match existing, carrier with
      | None, Some new_bytes => Ok (<[path op := new_bytes]> tree)
      | _, _ => Err (OverlayErr "add target exists or carrier is missing")
      end
  | kind =>
      match existing with
      | None => Err (OverlayErr "old-byte equation or target existence failed")
      | Some old_bytes =>
          let? old := sha256_hex old_bytes in
          throw_if negb (bool_decide (old_byte_digest op = Some old))
            with OverlayErr "old-byte equation or target existence failed" ;;
          if bool_decide (kind = Delete) then
            throw_if is_some carrier with OverlayErr "delete unexpectedly has carrier bytes" ;;
            Ok (delete (path op) tree)
          else
            match carrier with
            | None => Err (OverlayErr "replace carrier is missing")
            | Some new_bytes => Ok (<[path op := new_bytes]> tree)
            end
      end
  end.

(** A [BTreeMap] is iterated in the order of its keys. *)
Definition btree_iter {A : Type} (tree : gmap string A) : list (string * A) :=
  sort_by (fun a b => str_cmp a.1 b.1) (map_to_list tree).

(** The loop that lists the result tree. *)
Fixpoint list_files (folded : gset string) (aggregate : Z) (rows : list (string * list byte))
    : result OverlayError (list NativeResultTreeFileV1) :=
  match rows with
  | [] => Ok []
  | (p, bytes) :: rows =>
      throw_if bool_decide (to_ascii_lowercase p ∈ folded)
        with OverlayErr "result tree collides under ASCII case folding" ;;
      let? aggregate := add_total aggregate (len bytes)
                          "result tree aggregate overflow" "result tree aggregate exceeds the bound" in
      let? d := sha256_hex bytes in
      let? rest := list_files ({[to_ascii_lowercase p]} ∪ folded) aggregate rows in
      Ok (mkResultFile p d (len bytes) :: rest)
  end.

Definition result_file_value (row : NativeResultTreeFileV1) : Value :=
  Map [("path"%string, Text (result_path row));
       ("byteDigest"%string, Text (result_byte_digest row));
       ("byteLength"%string, Unsigned (result_byte_length row))].
Definition result_tree_value (files : list NativeResultTreeFileV1) : Value :=
  Map [("schema"%string, Text RESULT_TREE_SCHEMA);
       ("version"%string, Unsigned 1);
       ("packageId"%string, Text OVERLAY_PACKAGE_ID);
       ("files"%string, Array (map result_file_value files))].

Definition carrier_map (carriers : ValidatedPatchByteCarrierSet) : gmap string (list byte) :=
  foldl (fun m row => <[carrier_path row := carrier_bytes row]> m) ∅ (entries carriers).

Definition derive_result_tree_candidate (plan : ValidatedPatchOverlayPlan)
    (carriers : ValidatedPatchByteCarrierSet) (archive : CapturedNativeArchiveV1)
    : result OverlayError NativeResultTreeCandidateV1 :=
  let? _ := join_patch_application_inputs plan carriers in
  throw_if negb (bool_decide (archive_digest archive = base_archive_digest (overlay plan)))
    with OverlayErr "overlay is bound to a different base archive" ;;
  let? tree := capture_archive_tree archive in
  let? tree := res_fold (apply_operation (carrier_map carriers)) (operations (overlay plan)) tree in
  let? files := list_files ∅ 0 (btree_iter tree) in
  let? canonical_bytes := map_err (fun _ => OverlayErr "result tree canonical encode refused")
                            (encode_bounded (result_tree_value files) WIRE) in
  let preimage := RESULT_TREE_DOMAIN ++ canonical_bytes in
  let? tree_digest := sha256_hex preimage in
  Ok (mkCandidate files tree canonical_bytes tree_digest).

Definition validate_result_tree_application (plan : ValidatedPatchOverlayPlan)
    (carriers : ValidatedPatchByteCarrierSet) (archive : CapturedNativeArchiveV1)
    : result OverlayError NativeResultTreeCandidateV1 :=
  let? candidate := derive_result_tree_candidate plan carriers archive in
  throw_if negb (bool_decide (candidate_digest candidate = result_tree_digest (overlay plan)))
    with OverlayErr "derived result tree does not match overlay commitment" ;;
  Ok candidate.
