(* ===== verification/OverlayFacts.v ===== *)
(** * Theorems on patch overlays

    [Fields] and [Loops] characterise the field readers and the inventory
    loops; [Capture] shows that an admitted overlay and its bytes determine
    each other; [Apply] relates the derived result tree to the operations. *)

From S2P Require Import Prelude Cbor CborFacts Sha256 Paths TextFacts PatchOverlay.
Import Spec Encode.

#[export] Instance str_cmp_laws : CmpLaws str_cmp.
Proof. unfold str_cmp. apply _. Qed.

Lemma str_cmp_eq a b : str_cmp a b = Eq <-> a = b.
Proof.
  unfold str_cmp. rewrite bytes_cmp_eq. split; [apply str_bytes_inj|by intros ->].
Qed.

(** ** Specification of an admitted overlay *)
Module OverlaySpec.

Definition digest_ok (s : string) : bool :=
  (slen s =? 64) && negb (bool_decide (s = ZERO_SHA256)) && forallb lower_hex (str_bytes s).
Definition opt_ok {A : Type} (f : A -> bool) (o : option A) : bool :=
  match o with Some a => f a | None => true end.

Definition kind_tag (k : PatchOperationKindV1) : string :=
  match k with Add => "add" | Delete => "delete" | Replace => "replace" end.
Definition nullable_text (o : option string) : Value :=
  match o with Some s => Text s | None => Null end.
Definition nullable_uint (o : option Z) : Value :=
  match o with Some n => Unsigned n | None => Null end.

(** The value an operation and an overlay are captured from. *)
Definition op_fields (op : NativePatchOperationV1) : list (string * Value) :=
  [("operation", Text (kind_tag (operation op))); ("path", Text (path op));
   ("oldByteDigest", nullable_text (old_byte_digest op));
   ("newByteDigest", nullable_text (new_byte_digest op));
   ("newByteLength", nullable_uint (new_byte_length op))]%string.
Definition op_value (op : NativePatchOperationV1) : Value := Map (op_fields op).
Definition overlay_fields (o : NativePatchOverlayV1) : list (string * Value) :=
  [("schema", Text OVERLAY_SCHEMA); ("version", Unsigned 1); ("packageId", Text OVERLAY_PACKAGE_ID);
   ("baseArchiveDigest", Text (base_archive_digest o));
   ("operations", Array (map op_value (operations o)));
   ("rationale", Text (rationale o));
   ("resultTreeDigest", Text (result_tree_digest o));
   ("auditPlanDigest", Text (audit_plan_digest o))]%string.
Definition overlay_value (o : NativePatchOverlayV1) : Value := Map (overlay_fields o).

(** What [capture_operation] checks of one operation. *)
Definition op_ok (op : NativePatchOperationV1) : bool :=
  negb (path_refused (path op)) &&
  opt_ok digest_ok (old_byte_digest op) && opt_ok digest_ok (new_byte_digest op) &&
  opt_ok (fun n => (0 <=? n) && (n <=? MAX_NEW_FILE_BYTES)) (new_byte_length op) &&
  is_ok (operation_equation (operation op) (old_byte_digest op) (new_byte_digest op)
           (new_byte_length op)).

(** A path inventory: strictly sorted, no two paths equal up to ASCII case,
    and the bytes within the aggregate bound. *)
Definition inventory_ok (rows : list (string * Z)) : Prop :=
  StronglySorted (cmp_lt str_cmp) (map fst rows) /\
  NoDup (map to_ascii_lowercase (map fst rows)) /\
  sumZ (map snd rows) <= MAX_AGGREGATE_NEW_BYTES.

Definition op_row (op : NativePatchOperationV1) : string * Z := (path op, or_zero (new_byte_length op)).

Record overlay_ok (o : NativePatchOverlayV1) : Prop := {
  ok_rationale : rationale o <> ""%string /\ slen (rationale o) <= 4096;
  ok_count : 1 <= len (operations o) <= MAX_OPERATIONS;
  ok_operations : Forall (fun op => op_ok op = true) (operations o);
  ok_inventory : inventory_ok (map op_row (operations o));
  ok_digests : digest_ok (base_archive_digest o) && digest_ok (result_tree_digest o)
               && digest_ok (audit_plan_digest o) = true
}.
End OverlaySpec.
Import OverlaySpec.

(** ** Field readers *)
Module Fields.

Lemma get_field_spec v n w : get_field v n = Ok w <-> field v n = Some w.
Proof. unfold get_field. destruct (field v n); cbn; naive_solver. Qed.

Lemma as_text_spec v s : as_text v = Some s <-> v = Text s.
Proof. destruct v; cbn; naive_solver. Qed.

Lemma as_u64_spec v n : as_u64 v = Some n <-> v = Unsigned n.
Proof. destruct v; cbn; naive_solver. Qed.

Lemma get_text_spec v n s : get_text v n = Ok s <-> field v n = Some (Text s).
Proof.
  unfold get_text. rewrite bind_ok. setoid_rewrite get_field_spec. setoid_rewrite ok_or_ok.
  setoid_rewrite as_text_spec. naive_solver.
Qed.

Lemma digest_spec v s : digest v = Ok s <-> v = Text s /\ digest_ok s = true.
Proof.
  destruct v; cbn; try (split; [discriminate|by intros [? _]]). rewrite guard_ok. unfold digest_ok.
  rewrite !orb_false_iff, !andb_true_iff, !negb_false_iff, negb_true_iff. naive_solver.
Qed.

Lemma nullable_digest_spec v o :
  nullable_digest v = Ok o <-> v = nullable_text o /\ opt_ok digest_ok o = true.
Proof.
  unfold nullable_digest. destruct v; try (rewrite bind_ok; setoid_rewrite digest_spec).
  all: destruct o; cbn; naive_solver.
Qed.

Lemma nullable_length_spec v o :
  nullable_length v = Ok o <->
  v = nullable_uint o /\ opt_ok (fun n => n <=? MAX_NEW_FILE_BYTES) o = true.
Proof.
  unfold nullable_length. split.
  - destruct v; try discriminate; [by intros [= <-]|].
    destruct (_ <=? _) eqn:E; [|discriminate]. intros [= <-]. done.
  - intros [-> Ho]. destruct o; cbn in *; [by rewrite Ho|done].
Qed.

Lemma existsb_find k (kvs : list (string * Value)) :
  existsb (fun row => bool_decide (row.1 = k)) kvs = true <-> exists w, find_key k kvs = Some w.
Proof.
  induction kvs as [|[k' w] kvs IH]; cbn; [naive_solver|].
  destruct (bool_decide_reflect (k' = k)); cbn; naive_solver.
Qed.

Lemma exact_keys_spec v ks u :
  exact_keys v ks = Ok u <->
  exists kvs, v = Map kvs /\ length kvs = length ks /\
    Forall (fun k => exists w, find_key k kvs = Some w) ks.
Proof.
  unfold exact_keys. rewrite bind_ok. destruct u.
  assert (forall kvs, existsb (fun key => negb (existsb (fun row : string * Value =>
      bool_decide (row.1 = key)) kvs)) ks = false <->
    Forall (fun k => exists w, find_key k kvs = Some w) ks) as Hex.
  { intros kvs. induction ks as [|k ks IH]; cbn; [split; constructor|].
    rewrite orb_false_iff, negb_false_iff, existsb_find, IH, Forall_cons. done. }
  split.
  - intros (kvs & Hr & [[Hl%negb_false_iff%Z.eqb_eq Hf]%orb_false_iff _]%guard_ok).
    destruct v; try done. injection Hr as ->. exists kvs. split_and!; [done|unfold len in Hl; lia|by apply Hex].
  - intros (kvs & -> & Hl & Hf). exists kvs. split; [done|]. apply guard_ok. split; [|done].
    apply orb_false_iff. split; [|by apply Hex]. apply negb_false_iff, Z.eqb_eq. unfold len. lia.
Qed.

(** The fields of a canonical record with exact keys, as a function. *)
Definition fields_of (kvs : list (string * Value)) (k : string) : Value :=
  default Null (find_key k kvs).

Lemma exact_record_value v ks u :
  canonical v = true -> NoDup ks -> exact_keys v ks = Ok u ->
  exists f, v = Map (sort_by (fun a b => key_cmp a.1 b.1) (map (fun k => (k, f k)) ks)) /\
    (forall k, k ∈ ks -> field v k = Some (f k) /\ canonical (f k) = true).
Proof.
  intros Hc Hnd (kvs & -> & Hl & Hf)%exact_keys_spec.
  cbn [canonical] in Hc. apply andb_true_iff in Hc as [Hs Hc].
  assert (Forall (fun k => find_key k kvs = Some (fields_of kvs k)) ks) as Hf'.
  { eapply Forall_impl; [exact Hf|]. intros k [w Hw]. unfold fields_of. by rewrite Hw. }
  exists (fields_of kvs). split; [f_equal; by apply exact_record|].
  intros k Hk. rewrite Forall_forall in Hf'. specialize (Hf' k Hk). split; [done|].
  apply find_key_elem in Hf'. rewrite forallb_Forall', Forall_forall in Hc.
  by apply (Hc (k, fields_of kvs k)).
Qed.

Lemma exact_keys_canon kvs :
  NoDup (map fst kvs) -> exact_keys (canon (Map kvs)) (map fst kvs) = Ok tt.
Proof.
  intros Hnd. apply exact_keys_spec. rewrite Canon.canon_map. eexists. split; [done|]. split.
  - rewrite !length_map. unfold sort_kvs. apply sort_by_length.
  - apply Forall_forall. intros k Hk. apply list_elem_of_fmap in Hk as ([k' v] & -> & Hin).
    exists (canon v). pose proof (field_canon kvs k' v Hnd Hin) as H. by rewrite Canon.canon_map in H.
Qed.

Lemma get_field_canon kvs k v :
  NoDup (map fst kvs) -> (k, v) ∈ kvs -> get_field (canon (Map kvs)) k = Ok (canon v).
Proof. intros. apply get_field_spec. by apply field_canon. Qed.

Lemma get_text_canon kvs k s :
  NoDup (map fst kvs) -> (k, Text s) ∈ kvs -> get_text (canon (Map kvs)) k = Ok s.
Proof. intros. apply get_text_spec. by apply (field_canon kvs k (Text s)). Qed.
End Fields.

Ltac in_list := repeat (apply list_elem_of_here || apply list_elem_of_further).
Ltac nodup_keys := apply (bool_decide_unpack _); vm_compute; exact I.

(** ** Inventory loops *)
Module Loops.

Definition admits_row (st : Inventory) (row : string * Z) : Prop :=
  not_after (prior st) row.1 = false /\ (to_ascii_lowercase row.1 ∉ folded st) /\
  aggregate st + row.2 <= MAX_AGGREGATE_NEW_BYTES.
Definition after (st : Inventory) (row : string * Z) : Inventory :=
  mkInventory (Some row.1) ({[to_ascii_lowercase row.1]} ∪ folded st) (aggregate st + row.2).
Fixpoint admits (st : Inventory) (rows : list (string * Z)) : Prop :=
  match rows with
  | [] => True
  | row :: rows => admits_row st row /\ admits (after st row) rows
  end.

Lemma add_total_spec a n e1 e2 t :
  add_total a n e1 e2 = Ok t <-> a + n <= MAX_AGGREGATE_NEW_BYTES /\ t = a + n.
Proof.
  unfold add_total, checked_add, MAX_AGGREGATE_NEW_BYTES, u64_max.
  destruct (Z.leb_spec (a + n) 18446744073709551615); cbn [ok_or res_bind]; [|naive_solver lia].
  rewrite guard_ok, Z.ltb_ge. naive_solver lia.
Qed.

Lemma check_operation_spec st op st' :
  check_operation st op = Ok st' <-> admits_row st (op_row op) /\ st' = after st (op_row op).
Proof.
  unfold check_operation, admits_row, after, op_row; cbn [fst snd].
  rewrite !guard_ok, bind_ok, bool_decide_eq_false. setoid_rewrite add_total_spec. naive_solver.
Qed.

Lemma fold_operations_spec ops st :
  (exists st', res_fold check_operation ops st = Ok st') <-> admits st (map op_row ops).
Proof.
  revert st. induction ops as [|op ops IH]; intros st; cbn [res_fold map admits]; [naive_solver|].
  rewrite <- IH. setoid_rewrite bind_ok. setoid_rewrite check_operation_spec. naive_solver.
Qed.

(** The loop admits exactly the inventories of the specification. *)
Lemma admits_spec rows st :
  Forall (fun row => 0 <= row.2) rows -> 0 <= aggregate st <= MAX_AGGREGATE_NEW_BYTES ->
  admits st rows <->
  (match prior st with
  | Some p => Forall (fun row => str_cmp p row.1 = Lt) rows
  | None => True
  end) /\ inventory_ok rows /\
  Forall (fun row => to_ascii_lowercase row.1 ∉ folded st) rows /\
  aggregate st + sumZ (map snd rows) <= MAX_AGGREGATE_NEW_BYTES.
Proof.
  unfold inventory_ok. revert st.
  induction rows as [|row rows IH]; intros st Hn Ha; cbn [admits map sumZ foldr].
  { split; [|done]. intros _. unfold MAX_AGGREGATE_NEW_BYTES in *. cbn.
    split_and!; try lia; try constructor. destruct (prior st); [constructor|done]. }
  inv Hn. pose proof (sumZ_ge (snd : string * Z -> Z) rows 0 ltac:(lia) H2).
  unfold admits_row, after. unfold sumZ in *.
  split.
  - intros ((Hp & Hl & Ht) & Had). apply IH in Had as (Hps & (Hs & Hnd & _) & Hfo & Hsum);
      [|done|cbn; lia]. cbn in *.
    assert (Forall (fun q => to_ascii_lowercase q.1 <> to_ascii_lowercase row.1
        /\ to_ascii_lowercase q.1 ∉ folded st) rows) as Hd.
    { eapply Forall_impl; [exact Hfo|]. set_solver. }
    apply Forall_and in Hd as [Hd1 Hd2]. split_and!.
    + unfold not_after, str_ltb in Hp. destruct (prior st) as [p|]; [|done].
      assert (str_cmp p row.1 = Lt) as Hlt by (destruct (str_cmp p row.1); done).
      constructor; [done|]. eapply Forall_impl; [exact Hps|]. intros q. by apply cmp_lt_trans.
    + constructor; [done|]. by apply Forall_map.
    + constructor; [|done]. intros Hin. rewrite map_map in Hin.
      apply list_elem_of_fmap in Hin as (q & Hq & Hin). rewrite Forall_forall in Hd1.
      by apply (Hd1 q Hin).
    + unfold MAX_AGGREGATE_NEW_BYTES in *. lia.
    + by constructor.
    + lia.
  - intros (Hp & (Hs & Hnd & _) & Hfo & Hsum). inv Hs. inv Hnd. inv Hfo. split_and!.
    + unfold not_after, str_ltb. destruct (prior st); [|done]. inv Hp. by rewrite H10.
    + done.
    + lia.
    + apply IH; [done|cbn; lia|]. cbn. split_and!; try done; try lia.
      * apply (proj1 (Forall_map (fst : string * Z -> string) _ _)) in H5. exact H5.
      * apply Forall_forall. intros q Hq. rewrite Forall_forall in H9.
        assert (to_ascii_lowercase q.1 <> to_ascii_lowercase row.1); [|specialize (H9 q Hq); set_solver].
        intros E. apply H6. rewrite <- E, map_map.
        by apply (list_elem_of_fmap_2 (fun x => to_ascii_lowercase x.1)).
Qed.

Lemma admits_inventory rows :
  Forall (fun row => 0 <= row.2) rows -> admits no_inventory rows <-> inventory_ok rows.
Proof.
  intros Hn. rewrite admits_spec by (done || (cbn; unfold MAX_AGGREGATE_NEW_BYTES; lia)). cbn [no_inventory prior folded aggregate].
  unfold inventory_ok. split; [by intros (_ & ? & _)|]. intros (? & ? & ?).
  split_and!; try done. apply Forall_forall. set_solver.
Qed.
End Loops.

(** ** An overlay and its bytes determine each other *)
Module Capture.
Import Fields Loops.

Lemma operation_tag_spec tag k : operation_tag tag = Ok k <-> tag = kind_tag k.
Proof.
  unfold operation_tag. split.
  - repeat case_bool_decide; try discriminate; by intros [= <-].
  - intros ->. by destruct k.
Qed.

Lemma canon_text s : canon (Text s) = Text s. Proof. done. Qed.
Lemma canon_nullable_text o : canon (nullable_text o) = nullable_text o.
Proof. by destruct o. Qed.
Lemma canon_nullable_uint o : canon (nullable_uint o) = nullable_uint o.
Proof. by destruct o. Qed.

Lemma OPERATION_KEYS_NoDup : NoDup OPERATION_KEYS.
Proof. nodup_keys. Qed.
Lemma ROOT_KEYS_NoDup : NoDup ROOT_KEYS.
Proof. nodup_keys. Qed.
Lemma op_fields_NoDup op : NoDup (map fst (op_fields op)).
Proof. apply OPERATION_KEYS_NoDup. Qed.
Lemma overlay_fields_NoDup o : NoDup (map fst (overlay_fields o)).
Proof. apply ROOT_KEYS_NoDup. Qed.

(** The readings of a canonical record determine the record. *)
Lemma record_canon v ks u (kvs : list (string * Value)) :
  canonical v = true -> exact_keys v ks = Ok u -> NoDup ks -> map fst kvs = ks ->
  Forall (fun kv => field v kv.1 = Some (canon kv.2)) kvs -> v = canon (Map kvs).
Proof.
  intros Hc Hk Hnd Hks Hf. destruct (exact_record_value v ks u) as (f & -> & Hv); [done..|].
  cbn [canon]. f_equal. f_equal. subst ks. rewrite map_map.
  apply map_ext_in. intros [k w] Hin. apply list_elem_of_In in Hin. cbn.
  rewrite Forall_forall in Hf. specialize (Hf _ Hin). cbn [fst snd] in Hf.
  destruct (Hv k) as [Hv' _]; [by apply (list_elem_of_fmap_2 fst) in Hin|].
  rewrite Hv' in Hf. by injection Hf as ->.
Qed.

Lemma field_canonical v ks u k w :
  canonical v = true -> NoDup ks -> exact_keys v ks = Ok u -> k ∈ ks -> field v k = Some w ->
  canonical w = true.
Proof.
  intros Hc Hnd Hk Hin Hf. destruct (exact_record_value v ks u) as (f & _ & Hv); [done..|].
  destruct (Hv k Hin) as [Hk' Hck]. rewrite Hf in Hk'. by injection Hk' as ->.
Qed.

Lemma capture_operation_sound v op :
  canonical v = true -> capture_operation v = Ok op -> v = canon (op_value op) /\ op_ok op = true.
Proof.
  intros Hc H. unfold capture_operation in H. ok_inv.
  repeat match goal with
  | E : get_text _ _ = Ok _ |- _ => apply get_text_spec in E
  | E : get_field _ _ = Ok _ |- _ => apply get_field_spec in E
  | E : operation_tag _ = Ok _ |- _ => apply operation_tag_spec in E
  | E : nullable_digest _ = Ok _ |- _ => apply nullable_digest_spec in E as [-> ?]
  | E : nullable_length _ = Ok _ |- _ => apply nullable_length_spec in E as [-> ?]
  end. subst. split.
  - eapply record_canon; [done..|apply OPERATION_KEYS_NoDup|done|].
    unfold op_fields. cbn [operation path old_byte_digest new_byte_digest new_byte_length].
    rewrite !Forall_cons. cbn [fst snd]. rewrite !canon_nullable_text, !canon_nullable_uint.
    split_and!; try done; by constructor.
  - unfold op_ok. cbn [operation path old_byte_digest new_byte_digest new_byte_length].
    match goal with E : operation_equation _ _ _ _ = _ |- _ => rewrite E end.
    match goal with E : field _ "newByteLength" = _ |- _ =>
      eapply field_canonical in E; [|done|apply OPERATION_KEYS_NoDup|done|in_list] end.
    rewrite !andb_true_iff. split_and!; try done.
    + by apply negb_true_iff.
    + match goal with |- opt_ok _ ?o = _ => destruct o end; [|done]. cbn in *.
      rewrite !andb_true_iff in *. tauto.
Qed.

Lemma capture_operation_complete op :
  op_ok op = true -> capture_operation (canon (op_value op)) = Ok op.
Proof.
  intros H. unfold op_ok in H. rewrite !andb_true_iff in H.
  destruct H as ((((Hp & Ho) & Hn) & Hl) & He). pose proof (op_fields_NoDup op) as Hnd.
  assert (forall k v, (k, v) ∈ op_fields op ->
            get_field (canon (op_value op)) k = Ok (canon v)) as Hf
    by (intros; by apply get_field_canon).
  assert (forall k s, (k, Text s) ∈ op_fields op ->
            get_text (canon (op_value op)) k = Ok s) as Ht
    by (intros; by apply get_text_canon).
  unfold capture_operation.
  ok_bind (exact (exact_keys_canon (op_fields op) Hnd : exact_keys _ OPERATION_KEYS = _)).
  ok_bind (apply (Ht "operation"); in_list). ok_bind (by apply operation_tag_spec).
  ok_bind (apply (Ht "path"); in_list). ok_guard (by apply negb_true_iff in Hp).
  ok_bind (apply (Hf "oldByteDigest"); in_list). rewrite canon_nullable_text.
  ok_bind (by apply nullable_digest_spec).
  ok_bind (apply (Hf "newByteDigest"); in_list). rewrite canon_nullable_text.
  ok_bind (by apply nullable_digest_spec).
  ok_bind (apply (Hf "newByteLength"); in_list). rewrite canon_nullable_uint.
  ok_bind (apply nullable_length_spec; split; [done|]; destruct (new_byte_length op); [|done];
           cbn in *; rewrite !andb_true_iff in *; tauto).
  destruct (operation_equation _ _ _ _) eqn:E; [|done].
  by destruct op.
Qed.

Lemma capture_operations_sound vs ops :
  forallb canonical vs = true -> res_map capture_operation vs = Ok ops ->
  vs = map canon (map op_value ops) /\ Forall (fun op => op_ok op = true) ops.
Proof.
  rewrite forallb_Forall', res_map_Forall2. intros Hc HF. revert Hc.
  induction HF as [|v op vs ops Hv HF IH]; intros Hc; [done|]. inv Hc.
  apply capture_operation_sound in Hv as [-> Hok]; [|done].
  apply IH in H2 as [-> Hoks]. split; [done|by constructor].
Qed.

Lemma capture_operations_complete ops :
  Forall (fun op => op_ok op = true) ops ->
  res_map capture_operation (map canon (map op_value ops)) = Ok ops.
Proof.
  intros H. apply res_map_Forall2. induction H; cbn; constructor; [by apply capture_operation_complete|done].
Qed.

Lemma op_ok_length op : op_ok op = true -> 0 <= or_zero (new_byte_length op).
Proof.
  unfold op_ok. rewrite !andb_true_iff. intros [[_ H] _].
  destruct (new_byte_length op); cbn in *; bool_to_prop; lia.
Qed.

Lemma ops_inventory ops :
  Forall (fun op => op_ok op = true) ops ->
  (exists st, res_fold check_operation ops no_inventory = Ok st) <-> inventory_ok (map op_row ops).
Proof.
  intros H. rewrite fold_operations_spec. apply admits_inventory. apply Forall_map.
  eapply Forall_impl; [exact H|]. intros op. apply op_ok_length.
Qed.

Lemma overlay_u64 o : overlay_ok o -> u64_values (overlay_value o) = true.
Proof.
  intros [_ _ Hops _ _]. cbn. rewrite !andb_true_r. apply forallb_Forall', Forall_map.
  eapply Forall_impl; [exact Hops|]. intros op. unfold op_ok. rewrite !andb_true_iff.
  intros [[_ H] _]. destruct op as [k p od nd [n|]]; destruct od, nd; cbn in *; try done.
  all: unfold MAX_NEW_FILE_BYTES, u64_max in *; rewrite !andb_true_r; bool_to_prop; lia.
Qed.

Lemma sha256_hex_spec bs d : sha256_hex bs = Ok d <-> OneShot.sha256_hex bs = Some d.
Proof. unfold sha256_hex. apply ok_or_ok. Qed.

(** Turn the readings of a run into equations on fields. *)
Ltac read_fields :=
  repeat match goal with
  | E : get_text _ _ = Ok _ |- _ => apply get_text_spec in E
  | E : get_field _ _ = Ok _ |- _ => apply get_field_spec in E
  | E : digest _ = Ok _ |- _ => apply digest_spec in E as [-> ?]
  | E : sha256_hex _ = Ok _ |- _ => apply sha256_hex_spec in E
  | E : map_err _ _ = Ok _ |- _ => apply map_err_ok in E
  | E : negb (bool_decide _) = false |- _ => apply negb_false_iff, bool_decide_eq_true in E
  | E : as_u64 _ = Some _ |- _ => apply as_u64_spec in E
  end.

Lemma overlay_sound bytes plan :
  capture_patch_overlay bytes = Ok plan ->
  overlay_ok (overlay plan) /\ encode_bounded (overlay_value (overlay plan)) WIRE = Ok bytes /\
  plan_canonical_bytes plan = bytes /\
  OneShot.sha256_hex (OVERLAY_DOMAIN ++ bytes) = Some (patch_overlay_digest plan).
Proof.
  intros H. unfold capture_patch_overlay in H.
  apply bind_ok in H as (v & Hdec & H). apply map_err_ok in Hdec.
  apply decode_canonical_spec in Hdec as [Hc Henc]; [|exact wire_ok]. rewrite Henc in H.
  ok_inv. match type of H with match ?x with _ => _ end = _ => destruct x; try discriminate H end.
  ok_inv. read_fields. subst.
  match goal with E : res_map _ _ = Ok ?o |- _ => rename o into ops, E into Hops end.
  match goal with E : field v "operations" = Some ?w |- _ =>
    assert (canonical w = true) as Hcs
      by (eapply (field_canonical v ROOT_KEYS _ "operations"); [done|apply ROOT_KEYS_NoDup|done|in_list|exact E]) end.
  apply capture_operations_sound in Hops as [-> Hok]; [|done].
  cbn [overlay plan_canonical_bytes patch_overlay_digest] in *.
  split_and!; try done.
  - split; cbn [rationale operations base_archive_digest result_tree_digest audit_plan_digest].
    + match goal with E : bool_decide (_ = ""%string) || _ = false |- _ => revert E end.
      intros [B1 B2]%orb_false_iff. apply bool_decide_eq_false in B1. apply Z.ltb_ge in B2. done.
    + match goal with E : (len _ =? 0) || _ = false |- _ => rewrite !len_map in E; revert E end.
      intros HE. bool_to_prop. pose proof (len_nonneg ops). lia.
    + done.
    + apply ops_inventory; eauto.
    + by rewrite !andb_true_iff.
  - apply encode_bounded_canon_iff; [exact wire_ok|]. rewrite <- Henc. f_equal. symmetry.
    apply (record_canon v ROOT_KEYS a); [exact Hc|assumption|exact ROOT_KEYS_NoDup|reflexivity|].
    unfold overlay_fields. rewrite !Forall_cons, Forall_nil.
    cbn [fst snd rationale operations base_archive_digest result_tree_digest audit_plan_digest].
    split_and!; (assumption || exact I).
Qed.

Lemma overlay_complete bytes o d :
  overlay_ok o -> encode_bounded (overlay_value o) WIRE = Ok bytes ->
  OneShot.sha256_hex (OVERLAY_DOMAIN ++ bytes) = Some d ->
  capture_patch_overlay bytes = Ok (mkPlan o bytes d).
Proof.
  intros Hok Henc Hd. pose proof (overlay_u64 o Hok) as Hu. pose proof (overlay_fields_NoDup o) as Hnd.
  destruct Hok as [[Hr1 Hr2] Hn Hops Hinv Hdig].
  rewrite !andb_true_iff in Hdig. destruct Hdig as [[Hd1 Hd2] Hd3].
  apply ops_inventory in Hinv as [st Hst]; [|done].
  assert (forall k v, (k, v) ∈ overlay_fields o ->
            get_field (canon (overlay_value o)) k = Ok (canon v)) as Hf
    by (intros; by apply get_field_canon).
  assert (forall k s, (k, Text s) ∈ overlay_fields o ->
            get_text (canon (overlay_value o)) k = Ok s) as Ht
    by (intros; by apply get_text_canon).
  unfold capture_patch_overlay.
  ok_bind (apply map_err_ok, (encode_bounded_canon _ _ _ wire_ok Hu Henc)).
  ok_bind (exact (exact_keys_canon (overlay_fields o) Hnd : exact_keys _ ROOT_KEYS = _)).
  ok_bind (apply (Ht "schema"); in_list). ok_guard (by rewrite bool_decide_true).
  ok_bind (apply (Hf "version"); in_list). ok_guard done.
  ok_bind (apply (Ht "packageId"); in_list). ok_guard (by rewrite bool_decide_true).
  ok_bind (apply (Ht "rationale"); in_list).
  ok_guard (rewrite bool_decide_false by done; by apply Z.ltb_ge).
  ok_bind (apply (Hf "operations"); in_list). cbn [canon].
  ok_guard (rewrite !len_map, (proj2 (Z.eqb_neq _ _)), (proj2 (Z.ltb_ge _ _)) by lia; done).
  ok_bind (by apply capture_operations_complete). ok_bind (exact Hst).
  ok_bind (apply map_err_ok, encode_bounded_canon_iff; [exact wire_ok|exact Henc]).
  ok_guard (by rewrite bool_decide_true).
  ok_bind (apply (Hf "baseArchiveDigest"); in_list). ok_bind (by apply digest_spec).
  ok_bind (apply (Hf "resultTreeDigest"); in_list). ok_bind (by apply digest_spec).
  ok_bind (apply (Hf "auditPlanDigest"); in_list). ok_bind (by apply digest_spec).
  ok_bind (by apply sha256_hex_spec). by destruct o.
Qed.
End Capture.

(** ** The derived result tree *)
Module Apply.
Import Fields Loops Capture.

Definition archive_map (archive : CapturedNativeArchiveV1) : gmap string (list byte) :=
  list_to_map (map (fun f => (file_path f, file_bytes f)) (files archive)).
Definition archive_row (f : CapturedNativeArchiveFileV1) : string * Z :=
  (file_path f, len (file_bytes f)).

(** The equations an operation claims about the old and the new bytes. *)
Definition old_equation (op : NativePatchOperationV1) (old : list byte) : Prop :=
  exists d, old_byte_digest op = Some d /\ OneShot.sha256_hex old = Some d.
Definition new_equation (op : NativePatchOperationV1) (new : list byte) : Prop :=
  new_byte_length op = Some (len new) /\
  exists d, new_byte_digest op = Some d /\ OneShot.sha256_hex new = Some d.

(** What applying [op] does to the file at its path. *)
Definition op_effect (op : NativePatchOperationV1) (new_ok : list byte -> Prop)
    (before after : option (list byte)) : Prop :=
  match operation op with
  | Add => before = None /\ exists new, after = Some new /\ new_ok new
  | Delete => (exists old, before = Some old /\ old_equation op old) /\ after = None
  | Replace => (exists old, before = Some old /\ old_equation op old) /\
               exists new, after = Some new /\ new_ok new
  end.

(** No two members of a tree are equal up to ASCII case. *)
Definition case_distinct (tree : gmap string (list byte)) : Prop :=
  forall p q, is_Some (tree !! p) -> is_Some (tree !! q) ->
    to_ascii_lowercase p = to_ascii_lowercase q -> p = q.

Lemma case_collides_spec tree p :
  case_collides tree p = false <->
  forall q, is_Some (tree !! q) -> to_ascii_lowercase q = to_ascii_lowercase p -> q = p.
Proof.
  unfold case_collides, eq_ignore_ascii_case. rewrite <- not_true_iff_false, existsb_exists. split.
  - intros H q [bs Hq] E. destruct (decide (q = p)) as [|Hne]; [done|]. exfalso. apply H.
    exists (q, bs). split; [by apply list_elem_of_In, elem_of_map_to_list|].
    cbn. by rewrite bool_decide_false, bool_decide_true.
  - intros H ([q bs] & Hin & E). cbn in E. apply andb_true_iff in E as [E1 E2].
    apply negb_true_iff, bool_decide_eq_false in E1. apply bool_decide_eq_true in E2.
    apply E1, H; [|done]. apply list_elem_of_In, elem_of_map_to_list in Hin. eauto.
Qed.

Lemma apply_operation_spec cm tree op tree' :
  apply_operation cm tree op = Ok tree' ->
  case_collides tree (path op) = false /\
  op_effect op (fun new => cm !! path op = Some new) (tree !! path op) (tree' !! path op) /\
  (forall q, q <> path op -> tree' !! q = tree !! q).
Proof.
  unfold apply_operation, op_effect, old_equation. intros [Hc H]%guard_ok. split; [done|].
  destruct (operation op) eqn:Hop.
  - destruct (tree !! path op) eqn:Ho; [discriminate|].
    destruct (cm !! path op) eqn:Hn; [|discriminate]. injection H as <-. split.
    + rewrite lookup_insert_eq. eauto.
    + intros q Hq. by rewrite lookup_insert_ne.
  - destruct (tree !! path op) as [old|] eqn:Ho; [|discriminate]. ok_inv. read_fields.
    rewrite bool_decide_true in H by done. ok_inv. split.
    + rewrite lookup_delete_eq. eauto 6.
    + intros q Hq. by rewrite lookup_delete_ne.
  - destruct (tree !! path op) as [old|] eqn:Ho; [|discriminate]. ok_inv. read_fields.
    rewrite bool_decide_false in H by done. destruct (cm !! path op) eqn:Hn; [|discriminate].
    injection H as <-. split.
    + rewrite lookup_insert_eq. eauto 8.
    + intros q Hq. by rewrite lookup_insert_ne.
Qed.

Lemma apply_case_distinct cm tree op tree' :
  case_distinct tree -> apply_operation cm tree op = Ok tree' -> case_distinct tree'.
Proof.
  intros Hd (Hc & _ & Hne)%apply_operation_spec. rewrite case_collides_spec in Hc.
  intros p q Hp Hq E. destruct (decide (p = path op)) as [Ep|Np], (decide (q = path op)) as [Eq|Nq].
  - congruence.
  - rewrite Hne in Hq by done. subst p. symmetry. by apply Hc.
  - rewrite Hne in Hp by done. subst q. by apply Hc.
  - rewrite Hne in Hp, Hq by done. by apply Hd.
Qed.

(** With distinct paths every operation acts on the base tree. *)
Lemma apply_all cm ops tree tree' :
  NoDup (map path ops) -> res_fold (apply_operation cm) ops tree = Ok tree' ->
  Forall (fun op => op_effect op (fun new => cm !! path op = Some new)
                      (tree !! path op) (tree' !! path op)) ops /\
  (forall q, q ∉ map path ops -> tree' !! q = tree !! q).
Proof.
  revert tree. induction ops as [|op ops IH]; intros tree Hnd H; cbn [res_fold map] in *.
  - injection H as ->. split; [constructor|done].
  - apply NoDup_cons in Hnd as [Hnot Hnd]. apply bind_ok in H as (t & Ha & H). apply IH in H as [Hf Hq]; [|done].
    apply apply_operation_spec in Ha as (_ & He & Hne). split.
    + constructor.
      * by rewrite (Hq (path op)).
      * rewrite Forall_forall in Hf |- *. intros op' Hin. rewrite <- (Hne (path op')); [by apply Hf|].
        intros E. apply Hnot. rewrite <- E. by apply list_elem_of_fmap_2.
    + intros q Hnq. rewrite not_elem_of_cons in Hnq. destruct Hnq as [Hn1 Hn2].
      by rewrite Hq, Hne.
Qed.

Lemma apply_all_case_distinct cm ops tree tree' :
  case_distinct tree -> res_fold (apply_operation cm) ops tree = Ok tree' -> case_distinct tree'.
Proof. intros Hd. apply res_fold_inv; [|done]. intros t op t' _. apply apply_case_distinct. Qed.

(** *** The carriers *)

Lemma join_rows_spec ops carriers u :
  length ops = length carriers -> join_rows ops carriers = Ok u ->
  Forall2 (fun op c => path op = carrier_path c /\ operation op = carrier_operation c /\
                       new_equation op (carrier_bytes c)) ops carriers.
Proof.
  unfold new_equation. revert carriers. induction ops as [|op ops IH]; intros [|c cs] Hl H; try done.
  cbn [join_rows] in H. ok_inv. read_fields. rewrite !orb_false_iff, !negb_false_iff, !bool_decide_eq_true in *.
  constructor; [|apply IH; [by injection Hl|done]]. naive_solver.
Qed.

Definition add_carriers (m : gmap string (list byte)) (cs : list NativePatchByteCarrierV1)
    : gmap string (list byte) :=
  foldl (fun m row => <[carrier_path row := carrier_bytes row]> m) m cs.

Lemma carrier_fold m cs p : p ∉ map carrier_path cs -> add_carriers m cs !! p = m !! p.
Proof.
  revert m. induction cs as [|c cs IH]; intros m Hp; cbn in *; [done|].
  rewrite not_elem_of_cons in Hp. fold (add_carriers (<[carrier_path c:=carrier_bytes c]> m) cs).
  rewrite IH by tauto. apply lookup_insert_ne. naive_solver.
Qed.

Lemma carrier_lookup m cs c :
  NoDup (map carrier_path cs) -> c ∈ cs ->
  add_carriers m cs !! carrier_path c = Some (carrier_bytes c).
Proof.
  revert m. induction cs as [|c' cs IH]; intros m Hnd Hin; [by inv Hin|].
  apply NoDup_cons in Hnd as [Hnot Hnd]. cbn.
  fold (add_carriers (<[carrier_path c':=carrier_bytes c']> m) cs). inv Hin.
  - rewrite carrier_fold by done. apply lookup_insert_eq.
  - by apply IH.
Qed.

Lemma filter_NoDup (f : NativePatchOperationV1 -> bool) ops :
  NoDup (map path ops) -> NoDup (map path (List.filter f ops)).
Proof.
  induction ops as [|op ops IH]; cbn; [done|]. intros Hnd. apply NoDup_cons in Hnd as [Hnot Hnd].
  destruct (f op); cbn; [|by apply IH]. constructor; [|by apply IH].
  intros Hin. apply Hnot. apply list_elem_of_fmap in Hin as (op' & -> & Hin).
  apply list_elem_of_In, filter_In in Hin as [Hin _]. apply list_elem_of_fmap_2. by apply list_elem_of_In.
Qed.

(** A joined carrier satisfies the equation of its operation. *)
Lemma join_equation plan carriers u op new :
  NoDup (map path (operations (overlay plan))) ->
  join_patch_application_inputs plan carriers = Ok u ->
  op ∈ operations (overlay plan) -> operation op <> Delete ->
  carrier_map carriers !! path op = Some new -> new_equation op new.
Proof.
  intros Hnd H Hin Hk Hnew. unfold join_patch_application_inputs in H. ok_inv.
  apply negb_false_iff, Z.eqb_eq in E. unfold len in E. apply Nat2Z.inj in E.
  pose proof (join_rows_spec _ _ _ E H) as HF. clear H. rename HF into H.
  apply (filter_NoDup not_delete) in Hnd.
  assert (map path (List.filter not_delete (operations (overlay plan))) = map carrier_path (entries carriers)) as Hp.
  { clear -H. induction H as [|op c ops cs (Hp & _) H IH]; cbn; [done|]. by f_equal. }
  rewrite Hp in Hnd. assert (op ∈ List.filter not_delete (operations (overlay plan))) as Hin'.
  { apply list_elem_of_In, filter_In. split; [by apply list_elem_of_In|].
    unfold not_delete. by rewrite bool_decide_false. }
  apply list_elem_of_lookup in Hin' as [i Hi].
  destruct (Forall2_lookup_l _ _ _ _ _ H Hi) as (c & Hc & Hpc & _ & Heq).
  unfold carrier_map in Hnew. fold (add_carriers ∅ (entries carriers)) in Hnew. rewrite Hpc, carrier_lookup in Hnew; [by injection Hnew as <-|done|].
  by eapply list_elem_of_lookup_2.
Qed.

(** *** The base archive *)

Definition add_rows (m : gmap string (list byte)) (rows : list CapturedNativeArchiveFileV1)
    : gmap string (list byte) :=
  foldl (fun m row => <[file_path row := file_bytes row]> m) m rows.

Lemma add_rows_union m rows :
  NoDup (map file_path rows) ->
  add_rows m rows = list_to_map (map (fun f => (file_path f, file_bytes f)) rows) ∪ m.
Proof.
  revert m. induction rows as [|row rows IH]; intros m Hnd; cbn.
  - by rewrite (left_id_L ∅ (∪)).
  - apply NoDup_cons in Hnd as [Hnot Hnd]. fold (add_rows (<[file_path row := file_bytes row]> m) rows).
    rewrite IH by done. rewrite <- insert_union_r, insert_union_l; [done|].
    apply not_elem_of_list_to_map_1. by rewrite <- list_fmap_compose.
Qed.

(** What the archive loop checks of one member besides the inventory. *)
Definition member_ok (f : CapturedNativeArchiveFileV1) : Prop :=
  path_refused (file_path f) = false /\ len (file_bytes f) <= MAX_NEW_FILE_BYTES.

Lemma capture_archive_row_spec st tree row acc :
  capture_archive_row (st, tree) row = Ok acc <->
  member_ok row /\ admits_row st (archive_row row) /\
  acc = (after st (archive_row row), <[file_path row := file_bytes row]> tree).
Proof.
  unfold capture_archive_row, member_ok, admits_row, after, archive_row; cbn [fst snd].
  rewrite guard_ok, bind_ok, !orb_false_iff, bool_decide_eq_false, Z.ltb_ge.
  setoid_rewrite add_total_spec. naive_solver.
Qed.

Lemma fold_archive rows st tree acc :
  res_fold capture_archive_row rows (st, tree) = Ok acc ->
  Forall member_ok rows /\ admits st (map archive_row rows) /\ acc.2 = add_rows tree rows.
Proof.
  revert st tree. induction rows as [|row rows IH]; intros st tree H; cbn [res_fold map admits] in *.
  - injection H as <-. split_and!; [constructor|done|done].
  - apply bind_ok in H as ([st' tree'] & Hrow & H).
    apply capture_archive_row_spec in Hrow as (Hm & Ha & [= -> ->]).
    apply IH in H as (Hms & Has & ->). split_and!; try done; by constructor.
Qed.

Lemma NoDup_of_fold (l : list string) : NoDup (map to_ascii_lowercase l) -> NoDup l.
Proof. apply NoDup_fmap_1. Qed.

Lemma capture_archive_tree_spec archive tree :
  capture_archive_tree archive = Ok tree ->
  tree = archive_map archive /\ Forall member_ok (files archive) /\
  inventory_ok (map archive_row (files archive)) /\ case_distinct tree.
Proof.
  intros H. unfold capture_archive_tree in H. apply guard_ok in H as [_ H].
  apply bind_ok in H as ([st t] & H & [= <-]). apply fold_archive in H as (Hm & Ha & Ht). cbn in Ht. subst t.
  apply admits_inventory in Ha; [|apply Forall_map, Forall_true; intros f; apply len_nonneg].
  assert (NoDup (map to_ascii_lowercase (map file_path (files archive)))) as Hf.
  { destruct Ha as (_ & Hf & _). rewrite !map_map in Hf. rewrite map_map. exact Hf. }
  rewrite add_rows_union by by apply NoDup_of_fold. rewrite (right_id_L ∅ (∪)).
  split_and!; [done|done|done|].
  intros p q [bp Hp] [bq Hq] E. apply elem_of_list_to_map_2 in Hp, Hq.
  apply list_elem_of_fmap in Hp as (f & [= -> ->] & Hp), Hq as (g & [= -> ->] & Hq).
  apply list_elem_of_lookup in Hp as [i Hi], Hq as [j Hj].
  enough (i = j) as -> by congruence.
  eapply NoDup_lookup; [exact Hf| |].
  - by rewrite !list_lookup_fmap, Hi.
  - rewrite !list_lookup_fmap, Hj. cbn. by rewrite E.
Qed.

(** *** Listing the result *)

Definition listed (row : string * list byte) (f : NativeResultTreeFileV1) : Prop :=
  result_path f = row.1 /\ result_byte_length f = len row.2 /\
  OneShot.sha256_hex row.2 = Some (result_byte_digest f).

Lemma list_files_spec folded agg rows fs :
  list_files folded agg rows = Ok fs -> Forall2 listed rows fs.
Proof.
  revert folded agg fs. induction rows as [|[p bs] rows IH]; intros folded agg fs H; cbn [list_files] in H.
  - injection H as <-. constructor.
  - ok_inv. read_fields. constructor; [|by eapply IH]. done.
Qed.

Definition collision : OverlayError := OverlayErr "result tree collides under ASCII case folding".

Lemma list_files_no_collision folded agg rows :
  NoDup (map to_ascii_lowercase (map fst rows)) ->
  Forall (fun row : string * list byte => to_ascii_lowercase row.1 ∉ folded) rows ->
  list_files folded agg rows <> Err collision.
Proof.
  revert folded agg. induction rows as [|[p bs] rows IH]; intros folded agg Hnd Hf; cbn [list_files]; [done|].
  apply NoDup_cons in Hnd as [Hnot Hnd]. apply Forall_cons in Hf as [Hp Hf]. cbn in Hp.
  rewrite bool_decide_false by done. intros H.
  apply bind_err in H as [H|(t & _ & H)].
  { unfold add_total in H. apply bind_err in H as [H|(t & _ & H)].
    - destruct (checked_add _ _); discriminate H.
    - destruct (_ <? _); discriminate H. }
  apply bind_err in H as [H|(d & _ & H)].
  { unfold sha256_hex in H. destruct (OneShot.sha256_hex bs); discriminate H. }
  apply bind_err in H as [H|(fs & _ & H)]; [|discriminate H].
  eapply IH; [exact Hnd| |exact H]. apply Forall_forall. intros [q bq] Hq.
  rewrite Forall_forall in Hf. specialize (Hf _ Hq). cbn in *.
  assert (to_ascii_lowercase q <> to_ascii_lowercase p); [|set_solver].
  intros E. apply Hnot. change (to_ascii_lowercase p ∈ map to_ascii_lowercase (map fst rows)). rewrite <- E. apply (list_elem_of_fmap_2 to_ascii_lowercase).
  by apply (list_elem_of_fmap_2 fst) in Hq.
Qed.

Lemma btree_iter_perm {A} (tree : gmap string A) : btree_iter tree ≡ₚ map_to_list tree.
Proof. apply sort_by_perm. Qed.

Lemma btree_iter_sorted {A} (tree : gmap string A) :
  StronglySorted (cmp_lt str_cmp) (map fst (btree_iter tree)).
Proof.
  apply StronglySorted_map. unfold btree_iter.
  assert (NoDup (map_to_list tree).*1) as Hnd by apply NoDup_fst_map_to_list. revert Hnd.
  generalize (map_to_list tree) as l. intros l Hnd.
  apply (sort_by_sorted (fun a b : string * A => str_cmp a.1 b.1)).
  intros x y l1 l2 -> Hy Hxy%str_cmp_eq. rewrite fmap_app in Hnd.
  apply NoDup_app in Hnd as (_ & _ & Hnd). apply NoDup_cons in Hnd as [Hnot _].
  apply Hnot. rewrite Hxy. by apply list_elem_of_fmap_2.
Qed.

Lemma case_distinct_NoDup tree :
  case_distinct tree -> NoDup (map to_ascii_lowercase (map fst (btree_iter tree))).
Proof.
  intros Hd. rewrite btree_iter_perm. change (NoDup (to_ascii_lowercase <$> (map_to_list tree).*1)).
  apply NoDup_fmap_2_strong; [|apply NoDup_fst_map_to_list].
  intros p q Hp Hq E. apply list_elem_of_fmap in Hp as ([p' bp] & -> & Hp), Hq as ([q' bq] & -> & Hq).
  apply elem_of_map_to_list in Hp, Hq. apply Hd; eauto.
Qed.

(** *** No other step reports a collision *)

Lemma sha256_no_collision bs : sha256_hex bs <> Err collision.
Proof. unfold sha256_hex. by destruct (OneShot.sha256_hex bs). Qed.

Lemma add_total_no_collision a n e1 e2 :
  e1 <> "result tree collides under ASCII case folding"%string ->
  e2 <> "result tree collides under ASCII case folding"%string ->
  add_total a n e1 e2 <> Err collision.
Proof.
  intros H1 H2 H. unfold add_total, collision in H. apply bind_err in H as [H|(t & _ & H)].
  - destruct (checked_add _ _); cbn in H; congruence.
  - destruct (_ <? _); congruence.
Qed.

Lemma join_rows_no_collision ops cs : join_rows ops cs <> Err collision.
Proof.
  revert cs. induction ops as [|op ops IH]; intros [|c cs]; cbn [join_rows]; try done. intros H.
  apply bind_err in H as [H|(d & _ & H)]; [by apply sha256_no_collision in H|].
  destruct (_ || _); [discriminate H|]. destruct (_ || _); [discriminate H|]. by apply IH in H.
Qed.

Lemma res_fold_no_collision {A S} (f : S -> A -> result OverlayError S) l s :
  (forall s a, f s a <> Err collision) -> res_fold f l s <> Err collision.
Proof.
  intros Hf. revert s. induction l as [|a l IH]; intros s; cbn [res_fold]; [done|]. intros H.
  apply bind_err in H as [H|(t & _ & H)]; [by apply Hf in H|by apply IH in H].
Qed.

Lemma capture_archive_no_collision archive : capture_archive_tree archive <> Err collision.
Proof.
  unfold capture_archive_tree. destruct (_ || _); [discriminate|]. intros H.
  apply bind_err in H as [H|([st t] & _ & H)]; [|discriminate H].
  revert H. apply res_fold_no_collision. intros [st t] row. unfold capture_archive_row.
  destruct (_ || _); [discriminate|]. intros H.
  apply bind_err in H as [H|(n & _ & H)]; [|discriminate H].
  by apply add_total_no_collision in H.
Qed.

Lemma apply_no_collision cm ops tree : res_fold (apply_operation cm) ops tree <> Err collision.
Proof.
  apply res_fold_no_collision. intros t op. unfold apply_operation.
  destruct (case_collides _ _); [discriminate|].
  destruct (operation op), (t !! path op), (cm !! path op); try discriminate; intros H;
    (apply bind_err in H as [H|(d & _ & H)]; [by apply sha256_no_collision in H|];
     destruct (negb _); [discriminate H|]; repeat case_match; discriminate H).
Qed.
End Apply.

(** ** Properties *)
Import Fields Loops Capture Apply.

Lemma derive_steps plan carriers archive r :
  derive_result_tree_candidate plan carriers archive = Ok r ->
  join_patch_application_inputs plan carriers = Ok tt /\
  archive_digest archive = base_archive_digest (overlay plan) /\
  capture_archive_tree archive = Ok (archive_map archive) /\
  res_fold (apply_operation (carrier_map carriers)) (operations (overlay plan)) (archive_map archive)
    = Ok (result_bytes r) /\
  list_files ∅ 0 (btree_iter (result_bytes r)) = Ok (result_files r) /\
  encode_bounded (result_tree_value (result_files r)) WIRE = Ok (result_canonical_bytes r) /\
  OneShot.sha256_hex (RESULT_TREE_DOMAIN ++ result_canonical_bytes r) = Some (candidate_digest r).
Proof.
  intros H. unfold derive_result_tree_candidate in H. ok_inv. read_fields.
  match goal with E : capture_archive_tree _ = Ok _ |- _ =>
    pose proof (capture_archive_tree_spec _ _ E) as (Ht & _) end.
  subst. repeat match goal with u : unit |- _ => destruct u end. by split_and!.
Qed.

Lemma listed_u64 rows fs :
  Forall2 listed rows fs -> Forall (fun f => u64_values (result_file_value f) = true) fs.
Proof.
  induction 1 as [|[p bs] f rows fs (_ & Hn & Hd) HF IH]; constructor; [|done].
  cbn in *. apply sha256_hex_length in Hd. rewrite Hn, !andb_true_r.
  pose proof (len_nonneg bs). unfold u64_max in *. apply andb_true_iff. split; apply Z.leb_le; lia.
Qed.

(** A small patch: one file added, one deleted, one replaced, one kept. *)
Definition hash_of (bs : list byte) : string := or_empty (OneShot.sha256_hex bs).
Definition sample_overlay : NativePatchOverlayV1 := Eval vm_compute in {|
  base_archive_digest := hash_of (str_bytes "base");
  operations := [
    mkOperation Add "b/new.rs" None (Some (hash_of (str_bytes "fresh"))) (Some 5);
    mkOperation Delete "gone.rs" (Some (hash_of (str_bytes "old"))) None None;
    mkOperation Replace "lib.rs" (Some (hash_of (str_bytes "v1"))) (Some (hash_of [])) (Some 0)];
  rationale := "demo";
  result_tree_digest := hash_of (str_bytes "tree");
  audit_plan_digest := hash_of (str_bytes "audit") |}.
Definition bytes_of (r : result ProtocolError (list byte)) : list byte :=
  match r with Ok bs => bs | Err _ => [] end.
Definition sample_overlay_bytes : list byte := Eval vm_compute in
  bytes_of (encode_bounded (overlay_value sample_overlay) WIRE).
Definition sample_plan : ValidatedPatchOverlayPlan := Eval vm_compute in
  mkPlan sample_overlay sample_overlay_bytes (hash_of (OVERLAY_DOMAIN ++ sample_overlay_bytes)).
Definition sample_carriers : ValidatedPatchByteCarrierSet :=
  mkCarrierSet [mkCarrier "b/new.rs" Add (str_bytes "fresh"); mkCarrier "lib.rs" Replace []] [] "".
Definition sample_archive : CapturedNativeArchiveV1 := Eval vm_compute in
  mkArchive OVERLAY_PACKAGE_ID (hash_of (str_bytes "base"))
    [mkArchiveFile "gone.rs" (str_bytes "old"); mkArchiveFile "keep.rs" (str_bytes "k");
     mkArchiveFile "lib.rs" (str_bytes "v1")].
Definition sample_result : result OverlayError NativeResultTreeCandidateV1 :=
  derive_result_tree_candidate sample_plan sample_carriers sample_archive.
Definition sample_candidate : NativeResultTreeCandidateV1 := Eval vm_compute in
  match sample_result with Ok c => c | Err _ => mkCandidate [] ∅ [] "" end.

Lemma sample_captured : capture_patch_overlay sample_overlay_bytes = Ok sample_plan.
Proof. vm_compute. reflexivity. Qed.
Lemma sample_derived : sample_result = Ok sample_candidate.
Proof. vm_compute. reflexivity. Qed.

(** C6. [capture_patch_overlay] accepts exactly the canonical encodings of
    well-formed overlays: the captured overlay satisfies every rule (operation
    equations, strictly sorted case-distinct paths, aggregate bound, digests),
    re-encoding it gives the input back, and its digest is the domain-separated
    SHA-256 of the input; conversely the encoding of every such overlay is
    accepted with that overlay as the result. *)
Theorem overlay_capture_exact bytes plan :
  capture_patch_overlay bytes = Ok plan <->
  overlay_ok (overlay plan) /\ encode_bounded (overlay_value (overlay plan)) WIRE = Ok bytes /\
  plan_canonical_bytes plan = bytes /\
  OneShot.sha256_hex (OVERLAY_DOMAIN ++ bytes) = Some (patch_overlay_digest plan).
Proof.
  split; [apply overlay_sound|]. intros (Hok & Henc & Hb & Hd).
  rewrite (overlay_complete bytes (overlay plan) (patch_overlay_digest plan)) by done.
  destruct plan. cbn in *. by subst.
Qed.

(** C1. The derived tree is the base archive with exactly the overlay's
    operations applied: a path no operation names keeps its bytes; an added
    file was absent and now holds bytes with the claimed length and digest; a
    deleted file held bytes with the claimed digest and is gone; a replaced
    file satisfies both equations. *)
Theorem result_tree_effect bytes plan carriers archive r :
  capture_patch_overlay bytes = Ok plan ->
  derive_result_tree_candidate plan carriers archive = Ok r ->
  (forall p, p ∉ map path (operations (overlay plan)) ->
     result_bytes r !! p = archive_map archive !! p) /\
  Forall (fun op => op_effect op (new_equation op)
                      (archive_map archive !! path op) (result_bytes r !! path op))
    (operations (overlay plan)).
Proof.
  intros [Hok _]%overlay_sound (Hj & _ & _ & Hf & _)%derive_steps.
  assert (NoDup (map path (operations (overlay plan)))) as Hnd.
  { destruct Hok as [_ _ _ (_ & Hnd & _) _]. apply NoDup_of_fold in Hnd.
    by rewrite map_map in Hnd. }
  apply apply_all in Hf as [Heff Hkeep]; [|done]. split; [done|].
  rewrite Forall_forall in Heff |- *. intros op Hin. specialize (Heff op Hin). unfold op_effect in *.
  destruct (operation op) eqn:Hk; [|done|];
    (destruct Heff as [Hb (new & Ha & Hc)]; split; [done|]; exists new; split; [done|];
     eapply join_equation; [done..| |done]; congruence).
Qed.

Lemma result_tree_effect_witness :
  sample_result = Ok sample_candidate /\
  result_bytes sample_candidate !! "keep.rs"%string = Some (str_bytes "k").
Proof.
  split; [exact sample_derived|].
  destruct (result_tree_effect sample_overlay_bytes sample_plan sample_carriers sample_archive
              sample_candidate sample_captured sample_derived) as [Hkeep _].
  rewrite Hkeep; [reflexivity|]. apply (bool_decide_unpack _). vm_compute. exact I.
Defined.

(** No result tree holds two paths that differ in ASCII case only: the
    checks against the base members already ensure it, for any inputs, so the
    final collision test is never the reason of a refusal. *)
Theorem result_tree_case_distinct plan carriers archive :
  derive_result_tree_candidate plan carriers archive <> Err collision /\
  forall r, derive_result_tree_candidate plan carriers archive = Ok r -> case_distinct (result_bytes r).
Proof.
  split.
  - unfold derive_result_tree_candidate. intros H.
    apply bind_err in H as [H|(u & _ & H)].
    { unfold join_patch_application_inputs in H. destruct (negb _); [discriminate H|].
      by apply join_rows_no_collision in H. }
    destruct (negb _); [discriminate H|]. apply bind_err in H as [H|(tree & Ht & H)].
    { by apply capture_archive_no_collision in H. }
    apply bind_err in H as [H|(tree' & Ht' & H)]; [by apply apply_no_collision in H|].
    apply bind_err in H as [H|(fs & _ & H)].
    { apply capture_archive_tree_spec in Ht as (_ & _ & _ & Hd).
      apply (apply_all_case_distinct _ _ _ _ Hd) in Ht'. revert H. apply list_files_no_collision.
      - by apply case_distinct_NoDup.
      - apply Forall_forall. set_solver. }
    apply bind_err in H as [H|(bs & _ & H)]; [destruct (encode_bounded _ _); discriminate H|].
    apply bind_err in H as [H|(d & _ & H)]; [|discriminate H].
    by apply sha256_no_collision in H.
  - intros r (_ & _ & Hc & Hf & _)%derive_steps.
    apply capture_archive_tree_spec in Hc as (_ & _ & _ & Hd).
    by eapply apply_all_case_distinct.
Qed.

(** The listing of a derived tree has one row per member, in strictly
    increasing path order, with the member's length and SHA-256; it has at most
    1024 rows (the collection bound of the wire limits, below the 4096 members
    an archive may have); the candidate's digest is the domain-separated
    SHA-256 of bytes that decode to the listing. *)
Theorem result_tree_listing plan carriers archive r :
  derive_result_tree_candidate plan carriers archive = Ok r ->
  Forall2 listed (btree_iter (result_bytes r)) (result_files r) /\
  StronglySorted (cmp_lt str_cmp) (map result_path (result_files r)) /\
  (forall p bs, (p, bs) ∈ btree_iter (result_bytes r) <-> result_bytes r !! p = Some bs) /\
  len (result_files r) <= 1024 /\
  decode_canonical (result_canonical_bytes r) WIRE = Ok (canon (result_tree_value (result_files r))) /\
  OneShot.sha256_hex (RESULT_TREE_DOMAIN ++ result_canonical_bytes r) = Some (candidate_digest r).
Proof.
  intros (_ & _ & _ & _ & Hl & Henc & Hd)%derive_steps. apply list_files_spec in Hl.
  split_and!; [done| | | | |done].
  - replace (map result_path (result_files r)) with (map fst (btree_iter (result_bytes r))).
    { apply btree_iter_sorted. }
    clear -Hl. induction Hl as [|row f rows fs (H & _) HF IH]; cbn; [done|]. by f_equal.
  - intros p bs. by rewrite btree_iter_perm, elem_of_map_to_list.
  - apply encode_bounded_spec in Henc as (_ & Hw & _); [|exact wire_ok].
    unfold result_tree_value in Hw. cbn [within forallb fst snd] in Hw.
    rewrite !andb_true_iff, len_map in Hw. destruct Hw as [_ (_ & _ & _ & [_ [[_ Hb] _]] & _)].
    by apply Z.leb_le in Hb.
  - apply encode_bounded_canon; [exact wire_ok| |done].
    cbn. rewrite !andb_true_r. apply forallb_Forall', Forall_map, (listed_u64 _ _ Hl).
Qed.

Lemma result_tree_listing_witness :
  sample_result = Ok sample_candidate /\ len (result_files sample_candidate) <= 1024 /\
  map result_path (result_files sample_candidate) = ["b/new.rs"; "keep.rs"; "lib.rs"]%string.
Proof.
  split; [exact sample_derived|]. split; [|reflexivity].
  apply (result_tree_listing sample_plan sample_carriers sample_archive _ sample_derived).
Defined.
