(* ===== verification/SourceRows.v ===== *)
(** * Captured source rows ([protocol/src/patch_capture.rs])

    The request of a patch capture ([capture_input_request]), the builder that
    collects source files under path, case and size rules ([SourceRowsBuilder])
    and the digest of the finished inventory.  Operations return
    [result (failure CaptureError) _]; [Panic] stands for a panic (a usize
    underflow, an [expect] of the hasher) and is shown not to happen.  Whether
    the allocator grants a reservation is the parameter [reserve] of [push]. *)

From S2P Require Import Prelude Cbor Sha256 Paths.

Definition MAX_INPUT_BYTES : Z := 144 * 1024 * 1024.
Definition MAX_EXPANDED_BYTES : Z := 144 * 1024 * 1024.
Definition MAX_SOURCE_BYTES : Z := 128 * 1024 * 1024.
Definition MAX_FILE_BYTES : Z := 16 * 1024 * 1024.
Definition MAX_SOURCE_FILES : Z := 4096.
Definition MAX_DIRECTORIES : Z := 8192.
Definition MAX_CAPTURE_FRAME_BYTES : Z := 65536.
Definition CAPTURE_FRAME_LIMITS : Limits := {|
  max_bytes := MAX_CAPTURE_FRAME_BYTES; max_depth := 16; max_items := 1024;
  max_collection_items := 32; max_text_bytes := 4096 |}.
Definition CAPTURE_REQUEST_DOMAIN : list byte := str_bytes "keep.patch-input-request/v1" ++ [x00].
Definition CAPTURE_ROWS_LIMITS : Limits := {|
  max_bytes := 20 * 1024 * 1024; max_depth := 16; max_items := 65536;
  max_collection_items := MAX_SOURCE_FILES; max_text_bytes := 4096 |}.
Definition ROW_DOMAIN : list byte := str_bytes "keep.patch-source-rows/v1" ++ [x00].
Definition ROW_SCHEMA : string := "keep.patch-source-rows".
Definition PACKAGE : string := "curve25519-dalek@5.0.0".
Definition PREFIX : string := "curve25519-dalek-5.0.0/".

(** [Type_] is the constructor [Type] of the code, a keyword here. *)
Inductive CaptureError : Set :=
| Malformed | Limit | Path | Type_ | Integrity | Race | Unsupported | Io | Cancelled.

Abbreviation capture A := (result (failure CaptureError) A).

(** [CaptureError::code] *)
Definition code (e : CaptureError) : string :=
  match e with
  | Malformed => "MALFORMED"
  | Limit => "LIMIT"
  | Path => "PATH"
  | Type_ => "TYPE"
  | Integrity => "INTEGRITY"
  | Race => "RACE"
  | Unsupported => "UNSUPPORTED"
  | Io => "IO"
  | Cancelled => "CANCELLED"
  end.

(** A hasher fed in several calls. *)
Definition hash_update (st : Streaming.Sha256State) (bytes : list byte) : capture Streaming.Sha256State :=
  ok_or (Streaming.update st bytes) Panic.
Definition hash_finalize (st : Streaming.Sha256State) : capture string :=
  ok_or (hex <$> Streaming.finalize st) Panic.

Definition byte_digest (bytes : list byte) : capture string :=
  let? st := hash_update Streaming.new bytes in
  hash_finalize st.

Definition valid_digest (text : string) : bool :=
  (slen text =? 64) && forallb lower_hex (str_bytes text)
  && existsb (fun b => negb (bool_decide (b = x30))) (str_bytes text).

(** ** The request *)

Inductive ArchiveFormat : Set := Tar | TarGzip.
Inductive CaptureSource : Set :=
| Directory (expected_row_digest declared_base_archive_digest : string)
| Archive (format : ArchiveFormat) (stream_digest : string).

Record ValidatedCaptureRequest : Set := mkRequest {
  root : string;
  source_path : string;
  overlay_path : string;
  overlay_byte_digest : string;
  carrier_path : string;
  carrier_byte_digest : string;
  source : CaptureSource;
  request_digest : string
}.

Definition source_kind (r : ValidatedCaptureRequest) : string :=
  match source r with
  | Directory _ _ => "directory"
  | Archive Tar _ => "tar"
  | Archive TarGzip _ => "tar-gzip"
  end.
Definition overlay_base_digest (r : ValidatedCaptureRequest) : string :=
  match source r with
  | Directory _ declared => declared
  | Archive _ stream => stream
  end.

Definition COMMON : list string :=
  ["schema"; "version"; "root"; "sourcePath"; "sourceKind"; "overlayPath"; "overlayByteDigest";
   "carrierPath"; "carrierByteDigest"]%string.
Definition mem (key : string) (keys : list string) : bool :=
  existsb (fun k => bool_decide (k = key)) keys.

Definition request_text (value : Value) (key : string) : capture string :=
  ok_or (v ← field value key; as_text v) (Error Malformed).
Definition request_digest_field (value : Value) (key : string) : capture string :=
  let? text := request_text value key in
  throw_if negb (valid_digest text) with Error Malformed ;;
  Ok text.

Definition specific_keys (kind : string) : capture (list string) :=
  if bool_decide (kind = "directory"%string)
  then Ok ["expectedSourceRowDigest"; "declaredBaseArchiveDigest"]%string
  else if bool_decide (kind = "tar"%string) || bool_decide (kind = "tar-gzip"%string)
  then Ok ["sourceStreamDigest"%string]
  else Err (Error Malformed).

(** [a == b || a.starts_with(b + "/") || b.starts_with(a + "/")], case-folded. *)
Definition overlapping (left right : string) : bool :=
  let a := to_ascii_lowercase left in
  let b := to_ascii_lowercase right in
  bool_decide (a = b) || starts_with (b +:+ "/") a || starts_with (a +:+ "/") b.

Definition path_bad (path : string) : bool := (4096 <? slen path) || negb (canonical_relative path).

Definition request_source (value : Value) (kind : string) : capture CaptureSource :=
  if bool_decide (kind = "directory"%string) then
    let? expected := request_digest_field value "expectedSourceRowDigest" in
    let? declared := request_digest_field value "declaredBaseArchiveDigest" in
    Ok (Directory expected declared)
  else
    let? stream := request_digest_field value "sourceStreamDigest" in
    Ok (Archive (if bool_decide (kind = "tar"%string) then Tar else TarGzip) stream).

Definition capture_input_request (bytes : list byte) : capture ValidatedCaptureRequest :=
  throw_if MAX_CAPTURE_FRAME_BYTES <? len bytes with Error Limit ;;
  let? value := map_err (fun _ => Error Malformed) (decode_canonical bytes CAPTURE_FRAME_LIMITS) in
  match value with
  | Map fields =>
      let? schema := request_text value "schema" in
      throw_if negb (bool_decide (schema = "keep.patch-input-capture"%string))
               || negb (bool_decide ((v ← field value "version"; as_u64 v) = Some 1))
        with Error Malformed ;;
      let? kind := request_text value "sourceKind" in
      let? specific := specific_keys kind in
      throw_if negb (len fields =? len COMMON + len specific)
               || existsb (fun f : string * Value =>
                             negb (mem f.1 COMMON) && negb (mem f.1 specific)) fields
        with Error Malformed ;;
      let? root := request_text value "root" in
      throw_if (4096 <? slen root)
               || negb (match strip_prefix "/" root with
                        | Some rest => canonical_relative rest
                        | None => false
                        end)
        with Error Path ;;
      let? source_path := request_text value "sourcePath" in
      let? overlay_path := request_text value "overlayPath" in
      let? carrier_path := request_text value "carrierPath" in
      throw_if path_bad source_path || path_bad overlay_path || path_bad carrier_path
        with Error Path ;;
      throw_if overlapping source_path overlay_path || overlapping source_path carrier_path
               || overlapping overlay_path carrier_path
        with Error Path ;;
      let? source := request_source value kind in
      let? st := hash_update Streaming.new CAPTURE_REQUEST_DOMAIN in
      let? st := hash_update st bytes in
      let? overlay_byte_digest := request_digest_field value "overlayByteDigest" in
      let? carrier_byte_digest := request_digest_field value "carrierByteDigest" in
      let? d := hash_finalize st in
      Ok (mkRequest root source_path overlay_path overlay_byte_digest carrier_path
            carrier_byte_digest source d)
  | _ => Err (Error Malformed)
  end.

(** ** Source files *)

Definition validate_source_path (path : string) : capture unit :=
  throw_if (4096 <? slen path) || negb (canonical_relative path)
           || bool_decide (path = checksum_path)
    with Error Path ;;
  throw_if (32 <? len (split x2f path)) || existsb (fun part => 255 <? slen part) (split x2f path)
    with Error Limit ;;
  Ok tt.

(** [0o777] is 511. *)
Definition validate_source_mode (mode : Z) : capture unit :=
  if 511 <? mode then Err (Error Type_) else Ok tt.

Record CapturedSourceFile : Set := mkFile {
  path : string;
  mode : Z;
  file_bytes : list byte;
  file_digest : string
}.
Definition metadata (f : CapturedSourceFile) : Value :=
  Map [("path"%string, Text (path f));
       ("mode"%string, Unsigned (mode f));
       ("byteLength"%string, Unsigned (len (file_bytes f)));
       ("byteDigest"%string, Text (file_digest f))].

Record CapturedSourceRows : Set := mkRows {
  row_files : list CapturedSourceFile;
  byte_length : Z;
  row_digest : string
}.

(** ** The builder *)

(** [namespace] maps the case-folded form of every path prefix to its original
    spelling and whether it is a file. *)
Record SourceRowsBuilder : Type := mkBuilder {
  files : list CapturedSourceFile;
  namespace : gmap string (string * bool);
  directories : Z;
  total : Z
}.
Definition new : SourceRowsBuilder := mkBuilder [] ∅ 0 0.

(** [MAX_FILE_BYTES.min(MAX_SOURCE_BYTES - self.total)] *)
Definition remaining_file_bytes (b : SourceRowsBuilder) : capture Z :=
  if total b <=? MAX_SOURCE_BYTES
  then Ok (Z.min MAX_FILE_BYTES (MAX_SOURCE_BYTES - total b))
  else Err Panic.

(** What [plan] decides to add: folded prefix, original prefix, is it the file. *)
Abbreviation addition := (string * string * bool)%type.

(** [while let Some(part) = parts.next() { .. }] *)
Fixpoint plan_parts (b : SourceRowsBuilder) (parts : list string) (prefix : string)
    (new_directories : Z) : capture (list addition) :=
  match parts with
  | [] => Ok []
  | part :: parts =>
      let prefix :=
        (if bool_decide (prefix = ""%string) then part else prefix +:+ "/" +:+ part) in
      let file := match parts with [] => true | _ => false end in
      let folded := to_ascii_lowercase prefix in
      match namespace b !! folded with
      | Some (prior, prior_file) =>
          throw_if negb (bool_decide (prior = prefix)) || prior_file || file with Error Path ;;
          plan_parts b parts prefix new_directories
      | None =>
          let new_directories := if file then new_directories else new_directories + 1 in
          throw_if MAX_DIRECTORIES <? directories b + new_directories with Error Limit ;;
          let? additions := plan_parts b parts prefix new_directories in
          Ok ((folded, prefix, file) :: additions)
      end
  end.

Definition plan (b : SourceRowsBuilder) (path : string) (mode size : Z) : capture (list addition) :=
  let? _ := validate_source_path path in
  let? _ := validate_source_mode mode in
  throw_if MAX_SOURCE_FILES <=? len (files b) with Error Limit ;;
  let? remaining := remaining_file_bytes b in
  throw_if remaining <? size with Error Limit ;;
  plan_parts b (split x2f path) "" 0.

Definition check_file (b : SourceRowsBuilder) (path : string) (mode size : Z) : capture unit :=
  let? _ := plan b path mode size in
  Ok tt.

(** [for (folded, original, file) in additions { .. }] *)
Definition add_prefix (acc : gmap string (string * bool) * Z) (a : addition)
    : gmap string (string * bool) * Z :=
  let '(folded, original, file) := a in
  (<[folded := (original, file)]> acc.1, if file then acc.2 else acc.2 + 1).

Section push.
(** [reserve b] is what [files.try_reserve(1)] answers in state [b]. *)
Variable reserve : SourceRowsBuilder -> bool.

Definition push (b : SourceRowsBuilder) (path : string) (mode : Z) (bytes : list byte)
    : capture SourceRowsBuilder :=
  let? additions := plan b path mode (len bytes) in
  throw_if negb (reserve b) with Error Limit ;;
  let? digest := byte_digest bytes in
  let '(namespace, directories) := fold_left add_prefix additions (namespace b, directories b) in
  Ok (mkBuilder (files b ++ [mkFile path mode bytes digest]) namespace directories
        (total b + len bytes)).
End push.

(** ** The digest of the inventory *)

(** [length.checked_add(n)], bounded by [CAPTURE_ROWS_LIMITS.max_bytes]. *)
Definition rows_length (length n : Z) : capture Z :=
  let? length := ok_or (checked_add length n) (Error Limit) in
  throw_if max_bytes CAPTURE_ROWS_LIMITS <? length with Error Limit ;;
  Ok length.

(** Encode one value, account for it and hash it. *)
Definition hash_value (error : CaptureError) (acc : Streaming.Sha256State * Z) (v : Value)
    : capture (Streaming.Sha256State * Z) :=
  let '(st, length) := acc in
  let? bytes := map_err (fun _ => Error error) (encode_bounded v CAPTURE_ROWS_LIMITS) in
  let? length := rows_length length (len bytes) in
  let? st := hash_update st bytes in
  Ok (st, length).

Definition finish (b : SourceRowsBuilder) : capture CapturedSourceRows :=
  let files := sort_by (fun left right => str_cmp (path left) (path right)) (files b) in
  let? st := hash_update Streaming.new ROW_DOMAIN in
  let? key := map_err (fun _ => Error Malformed)
                (encode_bounded (Text "files") CAPTURE_ROWS_LIMITS) in
  let prefix := head 5 4 ++ key ++ head 4 (len files) in
  let? st := hash_update st prefix in
  let? acc := res_fold (hash_value Limit) (map metadata files) (st, len prefix) in
  let? (st, _) :=
    res_fold (hash_value Malformed)
      [Text "schema"; Text ROW_SCHEMA; Text "version"; Unsigned 1; Text "packageId"; Text PACKAGE]
      acc in
  let? d := hash_finalize st in
  Ok (mkRows files (total b) d).
