(* ===== verification/SourceRowsFacts.v ===== *)
(** * Theorems on captured source rows

    [Namespace] proves the invariant of the builder by induction over the
    pushes that reach it; [Rows] relates the streamed digest to the canonical
    encoding of the inventory. *)

From S2P Require Import Prelude Cbor CborFacts Sha256 Paths TextFacts OverlayFacts SourceRows.
Import Spec Encode.

(** ** Path prefixes *)
Module Namespace.

Lemma str_bytes_app s t : str_bytes (s +:+ t) = str_bytes s ++ str_bytes t.
Proof.
  induction s as [|c s IH]; [done|].
  change (str_bytes (String c s +:+ t)) with (Ascii.byte_of_ascii c :: str_bytes (s +:+ t)). by rewrite IH.
Qed.

(** [prefix.push('/'); prefix.push_str(part)] *)
Definition extend (prefix part : string) : string :=
  if bool_decide (prefix = ""%string) then part else prefix +:+ "/" +:+ part.

(** The prefixes the planning loop visits; the last one is the file. *)
Fixpoint prefixes (prefix : string) (parts : list string) : list (string * bool) :=
  match parts with
  | [] => []
  | part :: parts =>
      let p := extend prefix part in
      (p, match parts with [] => true | _ => false end) :: prefixes p parts
  end.

Lemma extend_nonempty pre part : part <> ""%string -> extend pre part <> ""%string.
Proof.
  unfold extend. intros Hp. case_bool_decide; [done|]. destruct pre; done.
Qed.

Lemma extend_length pre part : part <> ""%string -> slen pre < slen (extend pre part).
Proof.
  unfold extend, slen. intros Hp. case_bool_decide as E.
  - subst. destruct (str_bytes part) as [|b bs] eqn:Eb; [by apply str_bytes_nil in Eb|].
    rewrite len_cons. change (len (str_bytes "")) with 0. pose proof (len_nonneg bs). lia.
  - rewrite !str_bytes_app, !len_app. change (len (str_bytes "/")) with 1.
    pose proof (len_nonneg (str_bytes part)). lia.
Qed.

Lemma prefixes_longer pre parts :
  Forall (fun p => p <> ""%string) parts ->
  Forall (fun row => slen pre < slen row.1) (prefixes pre parts).
Proof.
  intros H. revert pre. induction H as [|part parts Hp H IH]; intros pre; cbn [prefixes]; constructor.
  - by apply extend_length.
  - eapply Forall_impl; [apply IH|]. cbn. intros row Hrow. pose proof (extend_length pre part Hp). lia.
Qed.

Lemma slen_lower s : slen (to_ascii_lowercase s) = slen s.
Proof. unfold slen, to_ascii_lowercase. by rewrite str_bytes_of_bytes, len_map. Qed.

(** Prefixes of one path differ even up to case. *)
Lemma prefixes_fold_NoDup pre parts :
  Forall (fun p => p <> ""%string) parts ->
  NoDup (map (fun row : string * bool => to_ascii_lowercase row.1) (prefixes pre parts)).
Proof.
  intros H. revert pre. induction H as [|part parts Hp H IH]; intros pre; cbn [prefixes map]; constructor; [|done].
  intros Hin. apply list_elem_of_fmap in Hin as (row & E & Hin).
  pose proof (prefixes_longer (extend pre part) parts H) as Hl. rewrite Forall_forall in Hl.
  specialize (Hl row Hin). apply (f_equal slen) in E. rewrite !slen_lower in E. cbn in E. lia.
Qed.

Lemma prefixes_app pre l1 l2 :
  l1 <> [] ->
  (fold_left extend l1 pre, match l2 with [] => true | _ => false end) ∈ prefixes pre (l1 ++ l2).
Proof.
  revert pre. induction l1 as [|part l1 IH]; intros pre Hne; [done|]. cbn [app prefixes fold_left].
  destruct l1 as [|part' l1].
  - cbn [fold_left app]. left.
  - right. by apply IH.
Qed.

Lemma join_cons part parts :
  parts <> [] -> join x2f (part :: parts) = part +:+ "/" +:+ join x2f parts.
Proof.
  intros Hne. apply str_bytes_inj. unfold join. rewrite !str_bytes_app, !str_bytes_of_bytes.
  destruct parts; [done|]. done.
Qed.

Lemma fold_extend_join parts pre :
  Forall (fun p => p <> ""%string) parts -> parts <> [] ->
  fold_left extend parts pre =
  if bool_decide (pre = ""%string) then join x2f parts else pre +:+ "/" +:+ join x2f parts.
Proof.
  intros H. revert pre. induction H as [|part parts Hp H IH]; intros pre Hne; [done|]. cbn [fold_left].
  assert (join x2f [part] = part) as Hone
    by (apply str_bytes_inj; unfold join; by rewrite str_bytes_of_bytes).
  destruct parts as [|part' parts].
  - cbn [fold_left]. unfold extend. by rewrite Hone.
  - rewrite IH by done. rewrite bool_decide_false by by apply extend_nonempty.
    rewrite (join_cons part) by done. unfold extend. case_bool_decide; [done|].
    apply str_bytes_inj. by rewrite !str_bytes_app, <- !app_assoc.
Qed.

Lemma canonical_part_nonempty part : canonical_part part = true -> part <> ""%string.
Proof. by intros H ->. Qed.

Lemma parts_nonempty path :
  canonical_relative path = true -> Forall (fun p => p <> ""%string) (split x2f path).
Proof.
  intros H. apply canonical_relative_parts in H. eapply Forall_impl; [exact H|].
  apply canonical_part_nonempty.
Qed.

Lemma split_ne sep s : split sep s <> [].
Proof.
  unfold split. destruct (split_bytes_cons sep (str_bytes s)) as (p & ps & ->). done.
Qed.

(** The file itself is the last prefix. *)
Lemma path_in_prefixes path :
  canonical_relative path = true -> (path, true) ∈ prefixes "" (split x2f path).
Proof.
  intros H%parts_nonempty. pose proof (prefixes_app "" (split x2f path) [] (split_ne _ _)) as Hin.
  rewrite app_nil_r, fold_extend_join, bool_decide_true, join_split in Hin by (done || apply split_ne).
  exact Hin.
Qed.

Lemma split_bytes_middle a b :
  split_bytes x2f (a ++ x2f :: b) = split_bytes x2f a ++ split_bytes x2f b.
Proof.
  induction a as [|x a IH]; cbn [app]; [apply split_bytes_sep|]. cbn [split_bytes].
  rewrite IH. case_bool_decide; [done|]. destruct (split_bytes_cons x2f a) as (p & ps & ->). done.
Qed.

(** Every directory of a path is one of its prefixes. *)
Lemma dir_in_prefixes d rest path :
  canonical_relative path = true -> str_bytes path = str_bytes d ++ x2f :: rest ->
  (d, false) ∈ prefixes "" (split x2f path).
Proof.
  intros H%parts_nonempty E. unfold split in *. rewrite E, split_bytes_middle, map_app in *.
  apply Forall_app in H as [H _]. fold (split x2f d) in *.
  pose proof (prefixes_app "" (split x2f d) (map str_of_bytes (split_bytes x2f rest)) (split_ne _ _)) as Hin.
  rewrite fold_extend_join, bool_decide_true, join_split in Hin by (done || apply split_ne).
  by destruct (split_bytes_cons x2f rest) as (p & ps & Ep); rewrite Ep in *.
Qed.

Lemma NoDup_map_filter {A B} (f : A -> B) (P : A -> bool) l : NoDup (map f l) -> NoDup (map f (List.filter P l)).
Proof.
  induction l as [|a l IH]; cbn; [done|]. intros [Hn Hnd]%NoDup_cons. destruct (P a); cbn; [|by apply IH].
  constructor; [|by apply IH]. intros (y & E & Hy)%list_elem_of_fmap. apply Hn. rewrite E.
  apply list_elem_of_In, filter_In in Hy as [Hy _]. by apply (list_elem_of_fmap_2 f), list_elem_of_In.
Qed.

(** *** The planning loop *)

Definition known (b : SourceRowsBuilder) (row : string * bool) : bool :=
  match namespace b !! to_ascii_lowercase row.1 with Some _ => true | None => false end.
Definition addition_of (row : string * bool) : addition := (to_ascii_lowercase row.1, row.1, row.2).

Lemma plan_parts_spec b parts pre nd adds :
  plan_parts b parts pre nd = Ok adds ->
  Forall (fun row => known b row = true ->
            row.2 = false /\ namespace b !! to_ascii_lowercase row.1 = Some (row.1, false))
    (prefixes pre parts) /\
  adds = map addition_of (List.filter (fun row => negb (known b row)) (prefixes pre parts)).
Proof.
  revert pre nd adds. induction parts as [|part parts IH]; intros pre nd adds H; cbn [plan_parts prefixes] in *.
  - injection H as <-. split; [constructor|done].
  - fold (extend pre part) in H. set (file := match parts with [] => true | _ => false end) in *.
    assert (known b (extend pre part, file) =
      match namespace b !! to_ascii_lowercase (extend pre part) with Some _ => true | None => false end)
      as Hk by done.
    cbn [List.filter]. rewrite Hk.
    destruct (namespace b !! to_ascii_lowercase (extend pre part)) as [[prior pf]|] eqn:E; cbn [negb].
    + apply guard_ok in H as [Hg H]. rewrite !orb_false_iff, negb_false_iff, bool_decide_eq_true in Hg.
      destruct Hg as [[-> ->] Hf]. apply IH in H as [Hall ->]. split; [|done].
      constructor; [|done]. intros _. cbn [fst snd]. by rewrite Hf, E.
    + apply guard_ok in H as [_ H]. apply bind_ok in H as (adds' & H & [= <-]).
      apply IH in H as [Hall ->]. split; [|done].
      constructor; [|done]. by rewrite Hk.
Qed.

(** Only unknown keys are added, each with its own prefix. *)
Lemma add_prefixes ns ds rows ns' ds' :
  NoDup (map (fun row : string * bool => to_ascii_lowercase row.1) rows) ->
  fold_left add_prefix (map addition_of rows) (ns, ds) = (ns', ds') ->
  (forall row, row ∈ rows -> ns' !! to_ascii_lowercase row.1 = Some row) /\
  (forall k, (forall row, row ∈ rows -> to_ascii_lowercase row.1 <> k) -> ns' !! k = ns !! k).
Proof.
  revert ns ds. induction rows as [|[p f] rows IH]; intros ns ds Hnd H; cbn [map fold_left] in H.
  - injection H as -> ->. split; [intros row Hin; by inv Hin|done].
  - apply NoDup_cons in Hnd as [Hnot Hnd]. cbn [fst] in Hnot.
    apply IH in H as [Hin Hout]; [|done]. split.
    + intros row [->|Hr]%elem_of_cons; [|by apply Hin]. cbn [fst]. rewrite Hout.
      * by rewrite lookup_insert_eq.
      * intros row' Hr' E. apply Hnot. cbn. rewrite <- E.
        by apply (list_elem_of_fmap_2 (fun row : string * bool => to_ascii_lowercase row.1)).
    + intros k Hk. rewrite Hout.
      * apply lookup_insert_ne. apply (Hk (p, f)). left.
      * intros row Hr. apply Hk. by right.
Qed.
End Namespace.
Import Namespace.

(** ** The invariant of the builder *)
Module Builder.

Definition file_ok (f : CapturedSourceFile) : Prop :=
  validate_source_path (path f) = Ok tt /\ 0 <= mode f <= 511 /\
  len (file_bytes f) <= MAX_FILE_BYTES /\
  OneShot.sha256_hex (file_bytes f) = Some (file_digest f).

Definition registered (b : SourceRowsBuilder) (f : CapturedSourceFile) : Prop :=
  forall row, row ∈ prefixes "" (split x2f (path f)) ->
    namespace b !! to_ascii_lowercase row.1 = Some row.

Record wf (b : SourceRowsBuilder) : Prop := {
  wf_files : Forall file_ok (files b);
  wf_registered : Forall (registered b) (files b);
  wf_paths : NoDup (map path (files b));
  wf_count : len (files b) <= MAX_SOURCE_FILES;
  wf_total : total b = sumZ (map (fun f => len (file_bytes f)) (files b));
  wf_bytes : total b <= MAX_SOURCE_BYTES;
  wf_directories : 0 <= directories b <= MAX_DIRECTORIES
}.

Lemma wf_new : wf new.
Proof.
  split; cbn; try done; try constructor.
Qed.

Lemma hash_spec st msg bs :
  Facts.represents st msg -> len (msg ++ bs) <= u64_max ->
  exists st', hash_update st bs = Ok st' /\ Facts.represents st' (msg ++ bs).
Proof.
  intros Hr Hl. destruct (Facts.update_spec st msg bs Hr Hl) as (st' & E & Hr').
  exists st'. unfold hash_update. by rewrite E.
Qed.

Lemma hash_finalize_spec st msg :
  Facts.represents st msg -> 8 * len msg <= u64_max ->
  hash_finalize st = ok_or (OneShot.sha256_hex msg) Panic.
Proof.
  intros Hr Hl. unfold hash_finalize, OneShot.sha256_hex. by rewrite (Facts.finalize_spec st msg).
Qed.

Lemma byte_digest_spec bs :
  8 * len bs <= u64_max -> byte_digest bs = ok_or (OneShot.sha256_hex bs) Panic.
Proof.
  intros Hl. unfold byte_digest. pose proof (len_nonneg bs).
  destruct (hash_spec Streaming.new [] bs Facts.represents_new) as (st & -> & Hr).
  { cbn. lia. }
  cbn [res_bind]. by apply (hash_finalize_spec st bs).
Qed.

Lemma validate_path_spec p u :
  validate_source_path p = Ok u ->
  slen p <= 4096 /\ canonical_relative p = true /\ p <> checksum_path.
Proof.
  intros H. unfold validate_source_path in H. apply guard_ok in H as [H _].
  rewrite !orb_false_iff, negb_false_iff, bool_decide_eq_false, Z.ltb_ge in H. naive_solver.
Qed.

Definition count_dirs (adds : list addition) : Z := len (List.filter (fun a => negb a.2) adds).

Lemma count_dirs_cons a adds : count_dirs (a :: adds) = (if a.2 then 0 else 1) + count_dirs adds.
Proof. unfold count_dirs. cbn. by destruct a.2; cbn; rewrite ?len_cons. Qed.

Lemma plan_parts_directories b parts pre nd adds :
  plan_parts b parts pre nd = Ok adds -> directories b + nd <= MAX_DIRECTORIES ->
  directories b + nd + count_dirs adds <= MAX_DIRECTORIES.
Proof.
  revert pre nd adds. induction parts as [|part parts IH]; intros pre nd adds H Hn; cbn [plan_parts] in H.
  - injection H as <-. change (count_dirs []) with 0. lia.
  - destruct (namespace b !! _) as [[prior pf]|].
    + apply guard_ok in H as [_ H]. by eapply IH.
    + apply guard_ok in H as [Hm%Z.ltb_ge H]. apply bind_ok in H as (adds' & H & [= <-]).
      apply IH in H; [|done]. rewrite count_dirs_cons. cbn [snd]. destruct parts; lia.
Qed.

Lemma add_prefix_directories adds ns ds ns' ds' :
  fold_left add_prefix adds (ns, ds) = (ns', ds') -> ds' = ds + count_dirs adds.
Proof.
  revert ns ds. induction adds as [|[[k p] f] adds IH]; intros ns ds H; cbn [fold_left] in H.
  - injection H as _ <-. change (count_dirs []) with 0. lia.
  - apply IH in H as ->. rewrite count_dirs_cons. cbn [add_prefix snd fst]. destruct f; lia.
Qed.

Section push.
Variable reserve : SourceRowsBuilder -> bool.

(** What a successful push has checked and done. *)
Lemma push_steps b p m bs b' :
  push reserve b p m bs = Ok b' ->
  exists adds ns ds d,
    plan_parts b (split x2f p) "" 0 = Ok adds /\
    validate_source_path p = Ok tt /\ m <= 511 /\ len (files b) < MAX_SOURCE_FILES /\
    total b <= MAX_SOURCE_BYTES /\ len bs <= MAX_FILE_BYTES /\ total b + len bs <= MAX_SOURCE_BYTES /\
    OneShot.sha256_hex bs = Some d /\
    fold_left add_prefix adds (namespace b, directories b) = (ns, ds) /\
    b' = mkBuilder (files b ++ [mkFile p m bs d]) ns ds (total b + len bs).
Proof.
  intros H. unfold push in H. apply bind_ok in H as (adds & Hp & H).
  apply guard_ok in H as [_ H]. apply bind_ok in H as (d & Hd & H).
  destruct (fold_left add_prefix adds (namespace b, directories b)) as [ns ds] eqn:Ef.
  injection H as <-. unfold plan in Hp.
  apply bind_ok in Hp as ([] & Hv & Hp). apply bind_ok in Hp as ([] & Hm & Hp).
  apply guard_ok in Hp as [Hc%Z.leb_gt Hp]. apply bind_ok in Hp as (rem & Hr & Hp).
  apply guard_ok in Hp as [Hs%Z.ltb_ge Hp]. unfold remaining_file_bytes in Hr.
  destruct (Z.leb_spec (total b) MAX_SOURCE_BYTES); [|discriminate]. injection Hr as <-.
  unfold validate_source_mode in Hm. destruct (Z.ltb_spec 511 m); [discriminate|].
  rewrite byte_digest_spec in Hd; [|unfold MAX_FILE_BYTES, u64_max in *; lia].
  apply ok_or_ok in Hd. exists adds, ns, ds, d. split_and!; (done || lia).
Qed.

Lemma push_wf b p m bs b' : 0 <= m -> wf b -> push reserve b p m bs = Ok b' -> wf b'.
Proof.
  intros Hm Hwf H.
  destruct (push_steps _ _ _ _ _ H) as (adds & ns & ds & d & Hp & Hv & Hm' & Hc & _ & Hb & Ht & Hd & Hf & ->).
  pose proof (validate_path_spec _ _ Hv) as (_ & Hcan & _).
  pose proof (parts_nonempty p Hcan) as Hne. destruct Hwf as [W1 W2 W3 W4 W5 W6 W7].
  pose proof (plan_parts_directories _ _ _ _ _ Hp ltac:(lia)) as Hdirs.
  pose proof (add_prefix_directories _ _ _ _ _ Hf) as Hds.
  apply plan_parts_spec in Hp as [Hknown ->].
  pose proof (prefixes_fold_NoDup "" (split x2f p) Hne) as Hnd.
  apply add_prefixes in Hf as [Hin Hout].
  2: { by apply NoDup_map_filter. }
  (* keys already present keep their entry *)
  assert (forall k v, namespace b !! k = Some v -> ns !! k = Some v) as Hkeep.
  { intros k v Hk. rewrite Hout; [done|]. intros row Hr E. apply list_elem_of_In, filter_In in Hr as [_ Hr].
    unfold known in Hr. by rewrite E, Hk in Hr. }
  assert (registered (mkBuilder (files b) ns ds (total b)) (mkFile p m bs d)) as Hreg.
  { intros row Hr. cbn [path namespace] in *. destruct (known b row) eqn:Ek.
    - rewrite Forall_forall in Hknown. destruct (Hknown row Hr Ek) as [E1 E2].
      apply Hkeep. rewrite E2. destruct row; cbn in *; by subst.
    - apply Hin. apply list_elem_of_In, filter_In. split; [by apply list_elem_of_In|]. by rewrite Ek. }
  split; cbn [files namespace total directories].
  - apply Forall_app. split; [done|]. repeat constructor; cbn; try done; lia.
  - apply Forall_app. split; [|by repeat constructor].
    eapply Forall_impl; [exact W2|]. intros f Hf row Hr. apply Hkeep. by apply Hf.
  - rewrite map_app. apply NoDup_app. split_and!; [done| |repeat constructor; set_solver].
    intros q Hq Hq'. cbn in Hq'. apply list_elem_of_singleton in Hq' as ->.
    apply list_elem_of_fmap in Hq as (f & Ef & Hfin). rewrite Forall_forall in W2.
    specialize (W2 f Hfin (p, true)). rewrite <- Ef in W2. specialize (W2 (path_in_prefixes p Hcan)).
    rewrite Forall_forall in Hknown. destruct (Hknown (p, true) (path_in_prefixes p Hcan)) as [E _]; [|done].
    unfold known. by rewrite W2.
  - rewrite len_app, len_cons, len_nil. lia.
  - rewrite map_app. unfold sumZ in *. rewrite foldr_app. cbn. rewrite W5.
    clear. induction (files b) as [|f l IH]; cbn; lia.
  - lia.
  - unfold count_dirs in *. rewrite Hds. pose proof (len_nonneg (List.filter (fun a : addition => negb a.2)
      (map addition_of (List.filter (fun row => negb (known b row)) (prefixes "" (split x2f p)))))). lia.
Qed.

(** The builders that pushes reach. *)
Inductive reachable : SourceRowsBuilder -> Prop :=
| reach_new : reachable new
| reach_push b p m bs b' :
    reachable b -> 0 <= m <= u32_max -> push reserve b p m bs = Ok b' -> reachable b'.

Lemma reachable_wf b : reachable b -> wf b.
Proof. induction 1; [apply wf_new|]. eapply push_wf; [|done..]. lia. Qed.
End push.
End Builder.
Import Builder.

(** ** Disjointness of the captured paths *)
Module Disjoint.

Lemma lower_bytes s : str_bytes (to_ascii_lowercase s) = map lower_byte (str_bytes s).
Proof. apply str_bytes_of_bytes. Qed.

Lemma lower_slash b : lower_byte b = x2f -> b = x2f.
Proof. by destruct b. Qed.

(** A case-folded directory of a path is a prefix of the path. *)
Lemma folded_dir a b :
  starts_with (to_ascii_lowercase a +:+ "/") (to_ascii_lowercase b) = true ->
  exists d rest, str_bytes b = str_bytes d ++ x2f :: rest /\ to_ascii_lowercase d = to_ascii_lowercase a.
Proof.
  intros [r Hr]%starts_with_spec. rewrite str_bytes_app, !lower_bytes, <- app_assoc in Hr.
  apply map_eq_app in Hr as (d & rest & Hb & Hd & Hrest).
  change (str_bytes "/") with [x2f] in Hrest. cbn in Hrest.
  destruct rest as [|c rest]; [done|]. injection Hrest as Hc _. apply lower_slash in Hc as ->.
  exists (str_of_bytes d), rest. rewrite str_bytes_of_bytes. split; [done|].
  apply str_bytes_inj. by rewrite !lower_bytes, str_bytes_of_bytes.
Qed.

Lemma registered_no_dir b f g :
  file_ok f -> file_ok g -> registered b f -> registered b g ->
  starts_with (to_ascii_lowercase (path f) +:+ "/") (to_ascii_lowercase (path g)) = false.
Proof.
  intros [Hvf _] [Hvg _] Hf Hg. apply not_true_iff_false. intros (d & rest & Hb & Hd)%folded_dir.
  apply validate_path_spec in Hvf as (_ & Hcf & _), Hvg as (_ & Hcg & _).
  pose proof (Hg _ (dir_in_prefixes d rest _ Hcg Hb)) as E1.
  pose proof (Hf _ (path_in_prefixes _ Hcf)) as E2. cbn [fst] in *. rewrite Hd in E1. congruence.
Qed.

Lemma registered_no_overlap b f g :
  file_ok f -> file_ok g -> registered b f -> registered b g -> path f <> path g ->
  overlapping (path f) (path g) = false.
Proof.
  intros Of Og Hf Hg Hne. unfold overlapping. rewrite !orb_false_iff, bool_decide_eq_false.
  split_and!; [|by eapply registered_no_dir..].
  intros E. apply Hne. destruct Of as [Hvf _], Og as [Hvg _].
  apply validate_path_spec in Hvf as (_ & Hcf & _), Hvg as (_ & Hcg & _).
  pose proof (Hf _ (path_in_prefixes _ Hcf)) as E1. pose proof (Hg _ (path_in_prefixes _ Hcg)) as E2.
  cbn [fst] in *. rewrite E in E1. congruence.
Qed.
End Disjoint.

(** ** The streamed digest is the digest of the canonical encoding *)
Module Rows.

(** The document whose encoding [finish] streams. *)
Definition rows_value (fs : list CapturedSourceFile) : Value :=
  Map [("files"%string, Array (map metadata fs)); ("schema"%string, Text ROW_SCHEMA);
       ("version"%string, Unsigned 1); ("packageId"%string, Text PACKAGE)].

Lemma rows_limits_ok : limits_ok CAPTURE_ROWS_LIMITS.
Proof. done. Qed.

Lemma rows_length_spec n m r :
  rows_length n m = Ok r <-> n + m <= max_bytes CAPTURE_ROWS_LIMITS /\ r = n + m.
Proof.
  unfold rows_length, checked_add. cbn [CAPTURE_ROWS_LIMITS max_bytes].
  destruct (Z.leb_spec (n + m) u64_max); cbn [ok_or res_bind]; [|unfold u64_max in *; naive_solver lia].
  rewrite guard_ok, Z.ltb_ge. naive_solver lia.
Qed.

(** The loop hashes the concatenation of the encodings. *)
Lemma hash_values_spec e vs st n msg acc :
  Facts.represents st msg -> len msg <= n + 64 ->
  res_fold (hash_value e) vs (st, n) = Ok acc ->
  exists encs, Forall2 (fun v b => encode_bounded v CAPTURE_ROWS_LIMITS = Ok b) vs encs /\
    Facts.represents acc.1 (msg ++ concat encs) /\ acc.2 = n + len (concat encs) /\
    (vs <> [] -> acc.2 <= max_bytes CAPTURE_ROWS_LIMITS).
Proof.
  revert st n msg. induction vs as [|v vs IH]; intros st n msg Hr Hm H; cbn [res_fold] in H.
  - assert (acc = (st, n)) as -> by congruence. exists []. cbn. rewrite app_nil_r, len_nil.
    split_and!; [done..|lia|by intros []].
  - apply bind_ok in H as ([st' n'] & Hv & H). unfold hash_value in Hv.
    apply bind_ok in Hv as (bs & He%map_err_ok & Hv). apply bind_ok in Hv as (n1 & Hn & Hv).
    apply rows_length_spec in Hn as [Hmax ->]. apply bind_ok in Hv as (st1 & Hst & [= <- <-]).
    destruct (hash_spec st msg bs Hr) as (st2 & E & Hr2).
    { rewrite len_app. cbn in Hmax. unfold u64_max. lia. }
    rewrite E in Hst. injection Hst as <-.
    apply (IH st2 (n + len bs) (msg ++ bs)) in H as (encs & HF & Hr' & Hn' & Hmax'); [|done|rewrite len_app; lia].
    exists (bs :: encs). cbn [concat]. rewrite app_assoc, len_app, Z.add_assoc.
    split_and!; [by constructor|done|done|]. intros _.
    destruct vs as [|v' vs]; [|by apply Hmax']. inv HF. cbn in Hn'. rewrite Hn', len_nil. cbn in *. lia.
Qed.

Definition fixed_values : list Value :=
  [Text "schema"; Text ROW_SCHEMA; Text "version"; Unsigned 1; Text "packageId"; Text PACKAGE].

Lemma fixed_encodings fixed :
  Forall2 (fun v b => encode_into v = Ok b) fixed_values fixed ->
  fixed = [key_bytes "schema"; key_bytes ROW_SCHEMA; key_bytes "version"; head 0 1;
           key_bytes "packageId"; key_bytes PACKAGE].
Proof.
  intros H. unfold fixed_values in H.
  repeat (apply Forall2_cons_inv_l in H as (? & ? & ? & H & ->)). apply Forall2_nil_inv_l in H as ->.
  repeat match goal with
  | E : encode_into (Text _) = Ok _ |- _ => apply encode_text_spec in E as [_ ->]
  | E : encode_into (Unsigned _) = Ok _ |- _ => injection E as <-
  end. done.
Qed.

(** The streamed pieces make up the canonical encoding of the document. *)
Lemma encode_rows fs encs fixed :
  Forall2 (fun v b => encode_into v = Ok b) (map metadata fs) encs ->
  Forall2 (fun v b => encode_into v = Ok b) fixed_values fixed ->
  encode_into (rows_value fs) =
    Ok ((head 5 4 ++ key_bytes "files" ++ head 4 (len fs)) ++ concat encs ++ concat fixed).
Proof.
  intros Hf ->%fixed_encodings. unfold rows_value.
  apply Parse.encode_sorted_map; [vm_compute; reflexivity|].
  split; [vm_compute; reflexivity|].
  exists [head 4 (len fs) ++ concat encs; key_bytes ROW_SCHEMA; head 0 1; key_bytes PACKAGE]. split.
  - rewrite !Forall2_cons. split_and!; [|vm_compute; reflexivity..|constructor].
    cbn [snd encode_into]. rewrite (proj2 (res_map_Forall2 _ _ _) Hf). cbn [res_bind]. by rewrite len_map.
  - match goal with |- context [head 5 (len ?l)] => change (len l) with 4 end. cbn [map zip_with fst concat]. by rewrite <- !app_assoc.
Qed.

(** *** The limits of the document *)

Lemma encode_bounded_Forall vs encs L :
  limits_ok L -> Forall2 (fun v b => encode_bounded v L = Ok b) vs encs ->
  Forall2 (fun v b => encode_into v = Ok b) vs encs /\ Forall (fun v => within L 0 v = true) vs.
Proof.
  intros HL. induction 1 as [|v b vs encs H HF [IH1 IH2]]; [done|].
  apply encode_bounded_spec in H as (He & Hw & _); [|done]. by split; constructor.
Qed.

(** Metadata rows are flat, so they fit two levels deeper as well. *)
Lemma metadata_within f :
  within CAPTURE_ROWS_LIMITS 0 (metadata f) = true -> within CAPTURE_ROWS_LIMITS 2 (metadata f) = true.
Proof. done. Qed.

Lemma count_metadata fs : sumZ (map count (map metadata fs)) = 9 * len fs.
Proof.
  induction fs as [|f fs IH]; [done|]. rewrite len_cons. cbn [map sumZ foldr] in *.
  unfold sumZ in IH. rewrite IH. change (count (metadata f)) with 9. lia.
Qed.

Lemma count_rows fs : count (rows_value fs) = 9 + 9 * len fs.
Proof.
  unfold rows_value. cbn [count map fst snd]. rewrite count_metadata.
  unfold sumZ; cbn [foldr]. lia.
Qed.

Lemma rows_within fs :
  len fs <= MAX_SOURCE_FILES -> Forall (fun v => within CAPTURE_ROWS_LIMITS 0 v = true) (map metadata fs) ->
  within CAPTURE_ROWS_LIMITS 0 (rows_value fs) = true.
Proof.
  intros Hn Hw. unfold rows_value. cbn [within forallb fst snd].
  rewrite len_map. cbn [CAPTURE_ROWS_LIMITS max_collection_items].
  rewrite (proj2 (Z.leb_le (len fs) _) Hn).
  assert (forallb (within CAPTURE_ROWS_LIMITS (0 + 1 + 1)) (map metadata fs) = true) as ->; [|done].
  apply forallb_Forall', Forall_map. apply Forall_map in Hw. eapply Forall_impl; [exact Hw|].
  intros f. apply metadata_within.
Qed.
End Rows.
Import Disjoint Rows.

(** ** No panic *)
Module NoPanic.

Definition no_panic {A} (m : capture A) : Prop := runs m (fun _ => True).

Lemma bind_no_panic {A B} (m : capture A) (f : A -> capture B) :
  no_panic m -> (forall a, m = Ok a -> no_panic (f a)) -> no_panic (res_bind m f).
Proof. intros Hm Hf. eapply runs_bind; [exact Hm|]. intros a Ha _. by apply Hf. Qed.

Lemma guard_no_panic {A} (b : bool) e (m : capture A) :
  (b = false -> no_panic m) -> no_panic (if b then Err (Error e) else m).
Proof. destruct b; [done|auto]. Qed.

Lemma ok_or_no_panic {A} (o : option A) e : no_panic (ok_or o (Error e)).
Proof. by destruct o. Qed.

Lemma map_err_no_panic {E A} (m : result E A) e : no_panic (map_err (fun _ => Error e) m).
Proof. by destruct m. Qed.

Lemma ok_no_panic {A} (a : A) : no_panic (Ok a).
Proof. done. Qed.

Lemma some_no_panic {A} (o : option A) : is_Some o -> no_panic (ok_or o Panic).
Proof. by intros [a ->]. Qed.

Create HintDb panic.
#[export] Hint Resolve bind_no_panic guard_no_panic ok_or_no_panic map_err_no_panic ok_no_panic : panic.

Lemma plan_parts_no_panic b parts pre nd : no_panic (plan_parts b parts pre nd).
Proof.
  revert pre nd. induction parts as [|part parts IH]; intros pre nd; cbn [plan_parts]; [done|].
  destruct (namespace b !! _) as [[prior pf]|]; apply guard_no_panic; intros _; [apply IH|].
  apply bind_no_panic; [apply IH|done].
Qed.

Lemma validate_path_no_panic p : no_panic (validate_source_path p).
Proof. unfold validate_source_path. auto with panic. Qed.

Lemma plan_no_panic b p m size : total b <= MAX_SOURCE_BYTES -> no_panic (plan b p m size).
Proof.
  intros Ht. unfold plan. apply bind_no_panic; [apply validate_path_no_panic|]. intros _ _.
  apply bind_no_panic; [unfold validate_source_mode; by destruct (_ <? _)|]. intros _ _.
  apply guard_no_panic. intros _. unfold remaining_file_bytes.
  rewrite (proj2 (Z.leb_le _ _)) by done. cbn [res_bind]. apply guard_no_panic. intros _.
  apply plan_parts_no_panic.
Qed.

Lemma plan_size b p m size adds : plan b p m size = Ok adds -> size <= MAX_FILE_BYTES.
Proof.
  intros H. unfold plan in H. ok_inv. bool_to_prop. unfold remaining_file_bytes in *.
  match goal with E : (if _ then Ok _ else Err _) = Ok _ |- _ => destruct (_ <=? MAX_SOURCE_BYTES); [|discriminate]; injection E as <- end.
  lia.
Qed.

Lemma byte_digest_no_panic bs : len bs <= MAX_FILE_BYTES -> no_panic (byte_digest bs).
Proof.
  intros Hl. rewrite byte_digest_spec by (unfold MAX_FILE_BYTES, u64_max in *; lia).
  apply some_no_panic. destruct (sha256_hex_total bs) as (d & -> & _); [|eauto].
  unfold MAX_FILE_BYTES, u64_max in *; lia.
Qed.

Lemma push_no_panic reserve b p m bs : total b <= MAX_SOURCE_BYTES -> no_panic (push reserve b p m bs).
Proof.
  intros Ht. unfold push. apply bind_no_panic; [by apply plan_no_panic|]. intros adds Hp%plan_size.
  apply guard_no_panic. intros _. apply bind_no_panic; [by apply byte_digest_no_panic|]. intros d _.
  by destruct (fold_left _ _ _).
Qed.

Lemma hash_values_no_panic e vs st n msg :
  Facts.represents st msg -> len msg <= n + 64 -> no_panic (res_fold (hash_value e) vs (st, n)).
Proof.
  revert st n msg. induction vs as [|v vs IH]; intros st n msg Hr Hm; cbn [res_fold]; [done|].
  unfold hash_value at 1. destruct (encode_bounded v CAPTURE_ROWS_LIMITS) as [bs|]; [|done].
  cbn [map_err res_bind]. destruct (rows_length n (len bs)) as [n'|e'] eqn:En; cbn [res_bind].
  - apply rows_length_spec in En as [Hmax ->].
    destruct (hash_spec st msg bs Hr) as (st2 & -> & Hr2).
    { rewrite len_app. cbn in Hmax. unfold u64_max. lia. }
    cbn [res_bind]. apply (IH _ _ (msg ++ bs)); [done|]. rewrite len_app. lia.
  - unfold rows_length in En. destruct (checked_add _ _); cbn in En; [|by injection En as <-].
    destruct (_ <? _); [by injection En as <-|discriminate].
Qed.
End NoPanic.

(** ** The steps of [finish] *)

Lemma key_files_encoding : encode_bounded (Text "files") CAPTURE_ROWS_LIMITS = Ok (key_bytes "files").
Proof. vm_compute. reflexivity. Qed.

Definition rows_prefix (n : Z) : list byte := head 5 4 ++ key_bytes "files" ++ head 4 n.

Lemma rows_prefix_len n : len (rows_prefix n) <= 16.
Proof.
  unfold rows_prefix. rewrite !len_app, !len_head. pose proof (head_len_pos n).
  change (head_len 4) with 1. change (len (key_bytes "files")) with 6. lia.
Qed.

Definition sorted_files (b : SourceRowsBuilder) : list CapturedSourceFile :=
  sort_by (fun left right => str_cmp (path left) (path right)) (files b).

(** The hasher after the domain and the prefix. *)
Lemma finish_start n :
  exists st0 st, hash_update Streaming.new ROW_DOMAIN = Ok st0 /\ hash_update st0 (rows_prefix n) = Ok st /\
    Facts.represents st (ROW_DOMAIN ++ rows_prefix n).
Proof.
  destruct (hash_spec Streaming.new [] ROW_DOMAIN Facts.represents_new) as (st0 & E0 & R0); [done|].
  destruct (hash_spec st0 _ (rows_prefix n) R0) as (st & E & R).
  { rewrite len_app. pose proof (rows_prefix_len n). change (len ([] ++ ROW_DOMAIN)) with 26. unfold u64_max. lia. }
  exists st0, st. done.
Qed.

Lemma finish_eq b st0 st :
  hash_update Streaming.new ROW_DOMAIN = Ok st0 ->
  hash_update st0 (rows_prefix (len (sorted_files b))) = Ok st ->
  finish b =
    (let? acc := res_fold (hash_value Limit) (map metadata (sorted_files b))
                   (st, len (rows_prefix (len (sorted_files b)))) in
     let? (st, _) := res_fold (hash_value Malformed) fixed_values acc in
     let? d := hash_finalize st in
     Ok (mkRows (sorted_files b) (total b) d)).
Proof.
  intros E0 E. unfold finish. fold (sorted_files b). rewrite E0. cbn [res_bind].
  rewrite key_files_encoding. cbn [map_err res_bind].
  change (head 5 4 ++ key_bytes "files" ++ head 4 (len (sorted_files b)))
    with (rows_prefix (len (sorted_files b))).
  rewrite E. cbn [res_bind]. reflexivity.
Qed.

Lemma len_sorted_files b : len (sorted_files b) = len (files b).
Proof. unfold len, sorted_files. by rewrite sort_by_length. Qed.

Lemma finish_spec b rows :
  len (files b) <= MAX_SOURCE_FILES -> finish b = Ok rows ->
  row_files rows = sorted_files b /\ byte_length rows = total b /\
  exists enc, encode_bounded (rows_value (sorted_files b)) CAPTURE_ROWS_LIMITS = Ok enc /\
    OneShot.sha256_hex (ROW_DOMAIN ++ enc) = Some (row_digest rows).
Proof.
  intros Hn H. destruct (finish_start (len (sorted_files b))) as (st0 & st & E0 & E & R).
  rewrite (finish_eq b st0 st E0 E) in H. pose proof (rows_prefix_len (len (sorted_files b))) as Hp.
  assert (len (ROW_DOMAIN ++ rows_prefix (len (sorted_files b)))
          <= len (rows_prefix (len (sorted_files b))) + 64) as Hm
    by (rewrite len_app; change (len ROW_DOMAIN) with 26; lia).
  apply bind_ok in H as ([st1 n1] & H1 & H).
  apply (hash_values_spec _ _ _ _ _ _ R) in H1 as (encs & HF1 & R1 & Hn1 & _); [|done]. cbn [fst snd] in *.
  apply bind_ok in H as ([st2 n2] & H2 & H).
  apply (hash_values_spec _ _ _ _ _ _ R1) in H2 as (fixed & HF2 & R2 & Hn2 & Hmax);
    [|rewrite len_app; lia]. cbn [fst snd] in *. specialize (Hmax ltac:(discriminate)).
  apply bind_ok in H as (d & Hd & [= <-]). cbn [row_files byte_length row_digest].
  split_and!; [done|done|].
  destruct (encode_bounded_Forall _ _ _ rows_limits_ok HF1) as [HE1 HW].
  destruct (encode_bounded_Forall _ _ _ rows_limits_ok HF2) as [HE2 _].
  pose proof (encode_rows _ _ _ HE1 HE2) as Henc. eexists. split.
  - apply encode_bounded_spec; [exact rows_limits_ok|]. split; [exact Henc|].
    rewrite <- (encode_len _ _ Henc), count_rows. split_and!.
    + apply rows_within; [by rewrite len_sorted_files|done].
    + rewrite len_sorted_files. cbn. unfold MAX_SOURCE_FILES in Hn. lia.
    + change (head 5 4 ++ key_bytes "files" ++ head 4 (len (sorted_files b)))
        with (rows_prefix (len (sorted_files b))). rewrite !len_app. lia.
  - rewrite (hash_finalize_spec _ _ R2) in Hd.
    + apply ok_or_ok in Hd. rewrite <- Hd. f_equal. unfold rows_prefix. by rewrite <- !app_assoc.
    + rewrite !len_app in *. cbn in Hmax. change (len ROW_DOMAIN) with 26 in *. unfold u64_max. lia.
Qed.

Lemma finish_no_panic b : NoPanic.no_panic (finish b).
Proof.
  destruct (finish_start (len (sorted_files b))) as (st0 & st & E0 & E & R).
  rewrite (finish_eq b st0 st E0 E). pose proof (rows_prefix_len (len (sorted_files b))) as Hp.
  assert (len (ROW_DOMAIN ++ rows_prefix (len (sorted_files b)))
          <= len (rows_prefix (len (sorted_files b))) + 64) as Hm
    by (rewrite len_app; change (len ROW_DOMAIN) with 26; lia).
  apply NoPanic.bind_no_panic; [by eapply NoPanic.hash_values_no_panic|]. intros [st1 n1] H1.
  apply (hash_values_spec _ _ _ _ _ _ R) in H1 as (encs & HF1 & R1 & Hn1 & _); [|done]. cbn [fst snd] in *.
  assert (len ((ROW_DOMAIN ++ rows_prefix (len (sorted_files b))) ++ concat encs) <= n1 + 64) as Hm1
    by (rewrite len_app; lia).
  apply NoPanic.bind_no_panic; [by eapply NoPanic.hash_values_no_panic|]. intros [st2 n2] H2.
  apply (hash_values_spec _ _ _ _ _ _ R1) in H2 as (fixed & HF2 & R2 & Hn2 & Hmax); [|done].
  cbn [fst snd] in *. specialize (Hmax ltac:(discriminate)).
  assert (8 * len (((ROW_DOMAIN ++ rows_prefix (len (sorted_files b))) ++ concat encs) ++ concat fixed)
          <= u64_max) as Hf by (rewrite len_app; cbn in Hmax; unfold u64_max; lia).
  rewrite (hash_finalize_spec _ _ R2 Hf). destruct (sha256_hex_total _ Hf) as (d & -> & _). done.
Qed.

(** ** Properties *)

Definition builder_of (r : capture SourceRowsBuilder) : SourceRowsBuilder :=
  match r with Ok b => b | Err _ => new end.
Definition grant (b : SourceRowsBuilder) : bool := true.
Definition sample_one : SourceRowsBuilder := Eval vm_compute in
  builder_of (push grant new "src/lib.rs" 420 (str_bytes "pub fn f() {}")).
Definition sample_two : SourceRowsBuilder := Eval vm_compute in
  builder_of (push grant sample_one "Cargo.toml" 420 (str_bytes "[package]")).
Definition sample_other : SourceRowsBuilder := Eval vm_compute in
  builder_of (push grant (builder_of (push grant new "Cargo.toml" 420 (str_bytes "[package]")))
                "src/lib.rs" 420 (str_bytes "pub fn f() {}")).
Definition sample_rows : CapturedSourceRows := Eval vm_compute in
  match finish sample_two with Ok r => r | Err _ => mkRows [] 0 "" end.

Lemma sample_two_reachable : reachable grant sample_two.
Proof.
  apply (reach_push grant sample_one "Cargo.toml" 420 (str_bytes "[package]")).
  - apply (reach_push grant new "src/lib.rs" 420 (str_bytes "pub fn f() {}")).
    + constructor.
    + done.
    + vm_compute. reflexivity.
  - done.
  - vm_compute. reflexivity.
Qed.

Lemma sample_other_reachable : reachable grant sample_other.
Proof.
  apply (reach_push grant (builder_of (push grant new "Cargo.toml" 420 (str_bytes "[package]")))
           "src/lib.rs" 420 (str_bytes "pub fn f() {}")).
  - apply (reach_push grant new "Cargo.toml" 420 (str_bytes "[package]")).
    + constructor.
    + done.
    + vm_compute. reflexivity.
  - done.
  - vm_compute. reflexivity.
Qed.

(** C35. The invariant of the builder, whatever the allocator answers: in every
    state that pushes reach, no two captured files overlap (equal paths, or one
    a directory of the other, up to ASCII case), every file has an admitted
    path, a mode of at most 0o777, at most 16 MiB and its own SHA-256, and the
    file, byte and directory counters are exact or within their bounds. *)
Theorem builder_invariant reserve b :
  reachable reserve b ->
  (forall i j f g, files b !! i = Some f -> files b !! j = Some g -> i <> j ->
     overlapping (path f) (path g) = false) /\
  Forall file_ok (files b) /\ len (files b) <= MAX_SOURCE_FILES /\
  total b = sumZ (map (fun f => len (file_bytes f)) (files b)) /\ total b <= MAX_SOURCE_BYTES /\
  0 <= directories b <= MAX_DIRECTORIES.
Proof.
  intros [W1 W2 W3 W4 W5 W6 W7]%reachable_wf. split_and!; try done; try lia.
  intros i j f g Hi Hj Hne. rewrite Forall_lookup in W1, W2.
  eapply registered_no_overlap; [by eapply W1..|by eapply W2|by eapply W2|].
  intros E. apply Hne. eapply (NoDup_lookup _ _ _ (path f) W3).
  - by rewrite list_lookup_fmap, Hi.
  - rewrite list_lookup_fmap, Hj. cbn. by rewrite E.
Qed.

Lemma builder_invariant_witness :
  len (files sample_two) = 2 /\ total sample_two <= MAX_SOURCE_BYTES.
Proof.
  split; [vm_compute; reflexivity|].
  apply (builder_invariant grant sample_two sample_two_reachable).
Defined.

(** The row digest that [finish] computes in a stream, without building the
    document, is the SHA-256 of the row domain followed by the canonical
    encoding of the inventory document, whose files are those captured, in
    strictly increasing path order. *)
Theorem finish_digest reserve b rows :
  reachable reserve b -> finish b = Ok rows ->
  row_files rows ≡ₚ files b /\ StronglySorted (cmp_lt str_cmp) (map path (row_files rows)) /\
  byte_length rows = total b /\
  exists encoding, encode_bounded (rows_value (row_files rows)) CAPTURE_ROWS_LIMITS = Ok encoding /\
    OneShot.sha256_hex (ROW_DOMAIN ++ encoding) = Some (row_digest rows).
Proof.
  intros [W1 W2 W3 W4 W5 W6 W7]%reachable_wf (Hf & Hb & Henc)%finish_spec; [|done].
  rewrite Hf. split_and!; [apply sort_by_perm| |done|done].
  apply StronglySorted_map, (sort_by_sorted (fun l r => str_cmp (path l) (path r))).
  intros x y l1 l2 E Hy Hxy%str_cmp_eq. rewrite E, map_app in W3.
  apply NoDup_app in W3 as (_ & _ & W3). apply NoDup_cons in W3 as [Hnot _].
  apply Hnot. rewrite Hxy. by apply list_elem_of_fmap_2.
Qed.

Lemma finish_digest_witness :
  map path (row_files sample_rows) = ["Cargo.toml"; "src/lib.rs"]%string /\
  exists encoding, encode_bounded (rows_value (row_files sample_rows)) CAPTURE_ROWS_LIMITS = Ok encoding /\
    OneShot.sha256_hex (ROW_DOMAIN ++ encoding) = Some (row_digest sample_rows).
Proof.
  split; [vm_compute; reflexivity|].
  apply (finish_digest grant sample_two sample_rows sample_two_reachable). vm_compute. reflexivity.
Defined.

(** The result of a capture does not depend on the order of the pushes: two
    reachable builders that hold the same files finish with the same rows and
    the same digest, or with the same error. *)
Theorem finish_order_independent reserve1 reserve2 b1 b2 :
  reachable reserve1 b1 -> reachable reserve2 b2 -> files b1 ≡ₚ files b2 -> finish b1 = finish b2.
Proof.
  intros [W1 _ W3 _ W5 _ _]%reachable_wf [V1 _ V3 _ V5 _ _]%reachable_wf Hp.
  assert (sorted_files b1 = sorted_files b2) as Hs.
  { apply (sorted_perm_unique (fun l r => str_cmp (path l) (path r))).
    1,2: apply sort_by_sorted; [apply _|]; intros x y l1 l2 E Hy Hxy%str_cmp_eq;
      rewrite E, map_app in *;
      match goal with Hnd : NoDup (_ ++ _) |- _ => apply NoDup_app in Hnd as (_ & _ & Hnd);
        apply NoDup_cons in Hnd as [Hnot _]; apply Hnot; rewrite Hxy; by apply list_elem_of_fmap_2 end.
    unfold sorted_files. by rewrite !sort_by_perm. }
  destruct (finish_start (len (sorted_files b1))) as (st0 & st & E0 & E & _).
  rewrite (finish_eq b1 st0 st E0 E). rewrite Hs in *. rewrite (finish_eq b2 st0 st E0 E).
  replace (total b2) with (total b1); [done|].
  rewrite W5, V5. apply sumZ_perm. by rewrite Hp.
Qed.

Lemma finish_order_independent_witness :
  files sample_two <> files sample_other /\ finish sample_two = finish sample_other.
Proof.
  split; [vm_compute; discriminate|].
  apply (finish_order_independent grant grant sample_two sample_other
           sample_two_reachable sample_other_reachable).
  vm_compute. apply perm_swap.
Defined.

(** From every reachable state neither [push] (nor the metadata check
    before it) nor [finish] panics, for any arguments: the subtraction in
    [remaining_file_bytes] never underflows and the hasher never overflows. *)
Theorem builder_no_panic reserve b p m bytes :
  reachable reserve b ->
  push reserve b p m bytes <> Err Panic /\ check_file b p m (len bytes) <> Err Panic /\
  finish b <> Err Panic.
Proof.
  intros [_ _ _ _ _ W6 _]%reachable_wf. split_and!.
  - by apply (runs_not_stuck _ (fun _ => True)), NoPanic.push_no_panic.
  - apply (runs_not_stuck _ (fun _ => True)). unfold check_file.
    apply NoPanic.bind_no_panic; [by apply NoPanic.plan_no_panic|done].
  - apply (runs_not_stuck _ (fun _ => True)), finish_no_panic.
Qed.

Lemma builder_no_panic_witness :
  push grant sample_two "src/LIB.rs" 420 [] = Err (Error Path) /\
  push grant sample_two "src/LIB.rs" 420 [] <> Err Panic.
Proof.
  split; [vm_compute; reflexivity|].
  apply (builder_no_panic grant sample_two "src/LIB.rs" 420 [] sample_two_reachable).
Defined.
