(* ===== verification/BuilderErrors.v ===== *)
(** * The outcomes of a push

    [push] refuses a file for what is wrong with it: [Owned] describes the name
    table of a reachable builder by its files alone, [Outcome] gives the meaning
    of each error of [push] in those terms. *)

From S2P Require Import Prelude Sha256 Paths TextFacts SourceRows SourceRowsFacts.
Import Namespace Builder NoPanic.

(** ** The name table is that of the files *)
Module Owned.

(** The prefixes of a path: its directories, then the path itself. *)
Definition rows_of (p : string) : list (string * bool) := prefixes "" (split x2f p).

(** The directories of a list of paths, up to ASCII case. *)
Definition folds (rows : list (string * bool)) : gset string :=
  list_to_set (map (fun row => to_ascii_lowercase row.1) (List.filter (fun row => negb row.2) rows)).
Definition directory_set (ps : list string) : gset string := folds (concat (map rows_of ps)).

Record owned (b : SourceRowsBuilder) : Prop := {
  owned_rows : forall k row, namespace b !! k = Some row ->
    k = to_ascii_lowercase row.1 /\ row ∈ concat (map rows_of (map path (files b)));
  owned_directories : directories b = Z.of_nat (size (directory_set (map path (files b))))
}.

Lemma elem_folds k rows :
  k ∈ folds rows <-> exists p, (p, false) ∈ rows /\ k = to_ascii_lowercase p.
Proof.
  unfold folds. rewrite elem_of_list_to_set, list_elem_of_fmap. split.
  - intros ([p f] & -> & H). apply list_elem_of_In, filter_In in H as [H Hf]. destruct f; [done|].
    exists p. by rewrite list_elem_of_In.
  - intros (p & H & ->). exists (p, false). split; [done|]. apply list_elem_of_In, filter_In. by rewrite <- list_elem_of_In.
Qed.

Lemma folds_app l1 l2 : folds (l1 ++ l2) = folds l1 ∪ folds l2.
Proof. apply set_eq. intros k. rewrite elem_of_union, !elem_folds. set_solver. Qed.

Lemma owned_new : owned new.
Proof. split; [intros k row H; cbn in H; by rewrite lookup_empty in H|done]. Qed.

(** Directories a path adds: its directory prefixes that the table does not know. *)
Definition fresh (b : SourceRowsBuilder) (rows : list (string * bool)) : list (string * bool) :=
  List.filter (fun row => negb (known b row)) rows.

Lemma count_fresh b rows :
  NoDup (map (fun row : string * bool => to_ascii_lowercase row.1) rows) ->
  count_dirs (map addition_of (fresh b rows)) = Z.of_nat (size (folds (fresh b rows))).
Proof.
  intros Hnd. unfold count_dirs, folds, len. f_equal. rewrite size_list_to_set.
  - rewrite length_map. generalize (fresh b rows) as l. induction l as [|[p f] l IH]; [done|].
    cbn [map addition_of List.filter fst snd]. destruct f; cbn [negb length]; [exact IH|by rewrite IH].
  - by do 2 apply NoDup_map_filter.
Qed.
End Owned.
Import Owned.

(** ** Planning *)
Module Outcome.

(** A prefix whose folded form the table holds for something else than the same directory. *)
Definition conflicting (b : SourceRowsBuilder) (row : string * bool) : Prop :=
  exists prior, namespace b !! to_ascii_lowercase row.1 = Some prior /\ ~ (prior = (row.1, false) /\ row.2 = false).

Definition fresh_dirs (b : SourceRowsBuilder) (rows : list (string * bool)) : Z :=
  count_dirs (map addition_of (fresh b rows)).

Lemma fresh_dirs_cons b row rows :
  fresh_dirs b (row :: rows) =
    (if known b row || row.2 then 0 else 1) + fresh_dirs b rows.
Proof.
  unfold fresh_dirs, fresh. cbn [List.filter]. destruct (known b row); cbn [negb orb]; [done|].
  cbn [map]. rewrite count_dirs_cons. destruct row as [p f]. by destruct f.
Qed.
Lemma fresh_dirs_nonneg b rows : 0 <= fresh_dirs b rows.
Proof. unfold fresh_dirs, count_dirs. apply len_nonneg. Qed.

Definition plan_outcome (b : SourceRowsBuilder) (rows : list (string * bool)) (nd : Z) (r : capture (list addition)) : Prop :=
  match r with
  | Ok adds => Forall (fun row => ~ conflicting b row) rows /\ adds = map addition_of (fresh b rows) /\
      directories b + nd + fresh_dirs b rows <= MAX_DIRECTORIES
  | Err (Error Path) => Exists (conflicting b) rows
  | Err (Error Limit) => MAX_DIRECTORIES < directories b + nd + fresh_dirs b rows
  | Err _ => False
  end.

Lemma plan_parts_outcome b parts pre nd :
  directories b + nd <= MAX_DIRECTORIES -> plan_outcome b (prefixes pre parts) nd (plan_parts b parts pre nd).
Proof.
  revert pre nd. induction parts as [|part parts IH]; intros pre nd Hn; cbn [plan_parts prefixes].
  { unfold plan_outcome. change (fresh_dirs b []) with 0. split_and!; [by constructor|done|lia]. }
  fold (extend pre part). set (file := match parts with [] => true | _ => false end).
  set (row := (extend pre part, file)). pose proof (fresh_dirs_cons b row (prefixes (extend pre part) parts)) as Ec.
  pose proof (fresh_dirs_nonneg b (prefixes (extend pre part) parts)) as Hf.
  assert (known b row = match namespace b !! to_ascii_lowercase (extend pre part) with Some _ => true | None => false end)
    as Hk by done.
  assert (fresh b (row :: prefixes (extend pre part) parts) =
    if known b row then fresh b (prefixes (extend pre part) parts) else row :: fresh b (prefixes (extend pre part) parts)) as Er
    by (unfold fresh; cbn [List.filter]; by destruct (known b row)).
  destruct (namespace b !! to_ascii_lowercase (extend pre part)) as [[prior pf]|] eqn:E; rewrite Hk in *.
  - destruct (negb (bool_decide (prior = extend pre part)) || pf || file) eqn:G.
    + constructor. exists (prior, pf). split; [done|]. intros [[= -> ->] Hfile]. cbn in Hfile.
      by rewrite bool_decide_true, Hfile in G.
    + rewrite !orb_false_iff, negb_false_iff, bool_decide_eq_true in G. destruct G as [[-> ->] Hfile].
      specialize (IH (extend pre part) nd Hn). unfold plan_outcome in *. destruct (plan_parts b parts _ nd) as [adds|[[]| |]]; try done.
      * destruct IH as (HF & -> & Hd). rewrite Er, Ec. cbn [orb]. split_and!; [|done|lia].
        constructor; [|done]. intros (q & Hq & Hc). unfold row in Hq; cbn [fst] in Hq. rewrite E in Hq. injection Hq as <-. by apply Hc.
      * rewrite Ec. cbn [orb]. lia.
      * by constructor.
  - cbn [orb] in Ec. change (row.2) with file in Ec.
    set (nd' := if file then nd else nd + 1).
    assert (nd' = nd + (if file then 0 else 1)) as End by (unfold nd'; destruct file; lia).
    destruct (Z.ltb_spec MAX_DIRECTORIES (directories b + nd')) as [G|G]; [cbn; rewrite Ec; lia|].
    specialize (IH (extend pre part) nd' G). unfold plan_outcome in *.
    destruct (plan_parts b parts _ nd') as [adds|[[]| |]]; cbn [res_bind]; try done.
    + destruct IH as (HF & -> & Hd). rewrite Er, Ec. split_and!; [|done|lia].
      constructor; [|done]. intros (q & Hq & _). unfold row in Hq; cbn [fst] in Hq. congruence.
    + rewrite Ec. lia.
    + by constructor.
Qed.
End Outcome.
Import Outcome.

(** ** Growth of the table *)
Module Growth.

Definition paths (b : SourceRowsBuilder) : list string := map path (files b).

Section grow.
Context (b : SourceRowsBuilder) (p : string).
Hypothesis Hown : owned b.
Hypothesis Hreg : Forall (registered b) (files b).
Hypothesis Hparts : Forall (fun part => part <> ""%string) (split x2f p).

Lemma file_rows row : row ∈ concat (map rows_of (paths b)) -> namespace b !! to_ascii_lowercase row.1 = Some row.
Proof using Hreg.
  unfold paths. rewrite map_map, list_elem_of_In, in_concat. intros (l & (f & <- & Hf)%in_map_iff & Hr).
  rewrite Forall_forall in Hreg. apply (Hreg f); by apply list_elem_of_In.
Qed.

Lemma directory_set_known k : k ∈ directory_set (paths b) -> is_Some (namespace b !! k).
Proof using Hreg. intros (q & Hq & ->)%elem_folds. apply file_rows in Hq. cbn [fst] in Hq. eauto. Qed.

Lemma directory_set_snoc : directory_set (paths b ++ [p]) = directory_set (paths b) ∪ folds (rows_of p).
Proof using. unfold directory_set. by rewrite map_app, concat_app, folds_app; cbn [map concat]; rewrite app_nil_r. Qed.

Lemma fresh_row row : row ∈ fresh b (rows_of p) <-> row ∈ rows_of p /\ known b row = false.
Proof using. unfold fresh. by rewrite !list_elem_of_In, filter_In, negb_true_iff. Qed.

Lemma fresh_dirs_size : fresh_dirs b (rows_of p) = Z.of_nat (size (folds (fresh b (rows_of p)))).
Proof using Hparts. apply count_fresh. by apply prefixes_fold_NoDup. Qed.

Lemma fresh_disjoint : directory_set (paths b) ## folds (fresh b (rows_of p)).
Proof using Hreg.
  intros k Hk (q & [_ Hq]%fresh_row & ->)%elem_folds. apply directory_set_known in Hk as [v Hv].
  unfold known in Hq. cbn [fst] in Hq. by rewrite Hv in Hq.
Qed.

Lemma directories_at_least :
  directories b + fresh_dirs b (rows_of p) <= Z.of_nat (size (directory_set (paths b ++ [p]))).
Proof using Hown Hreg Hparts.
  rewrite (owned_directories b Hown), fresh_dirs_size, directory_set_snoc. fold (paths b).
  rewrite <- Nat2Z.inj_add, <- (size_union _ _ fresh_disjoint). apply inj_le, subseteq_size.
  intros k [Hk|(q & [Hq _]%fresh_row & ->)%elem_folds]%elem_of_union; apply elem_of_union; [by left|right].
  apply elem_folds. eauto.
Qed.

Lemma directories_exactly :
  Forall (fun row => ~ conflicting b row) (rows_of p) ->
  directories b + fresh_dirs b (rows_of p) = Z.of_nat (size (directory_set (paths b ++ [p]))).
Proof using Hown Hreg Hparts.
  intros Hc. apply Z.le_antisymm; [apply directories_at_least|].
  rewrite (owned_directories b Hown), fresh_dirs_size, directory_set_snoc. fold (paths b).
  rewrite <- Nat2Z.inj_add, <- (size_union _ _ fresh_disjoint). apply inj_le, subseteq_size.
  intros k [Hk|(q & Hq & ->)%elem_folds]%elem_of_union; apply elem_of_union; [by left|].
  destruct (known b (q, false)) eqn:Ek; [left|right; apply elem_folds; exists q; by rewrite fresh_row].
  unfold known in Ek. cbn [fst] in Ek. destruct (namespace b !! to_ascii_lowercase q) as [prior|] eqn:E; [|done].
  rewrite Forall_forall in Hc. destruct (decide (prior = (q, false))) as [->|Hne].
  - apply elem_folds. exists q. split; [|done]. by apply (owned_rows b Hown) in E as [_ E].
  - destruct (Hc (q, false) Hq). exists prior. split; [done|]. by intros [? _].
Qed.
End grow.

Lemma push_owned reserve b q m bs b' :
  wf b -> owned b -> push reserve b q m bs = Ok b' -> owned b'.
Proof.
  intros Hwf Hown H.
  destruct (push_steps _ _ _ _ _ _ H) as (adds & ns & ds & d & Hp & Hv & _ & _ & _ & _ & _ & _ & Hf & ->).
  pose proof (validate_path_spec _ _ Hv) as (_ & Hcan & _). pose proof (parts_nonempty q Hcan) as Hne.
  pose proof (plan_parts_outcome b (split x2f q) "" 0) as Ho. rewrite Hp in Ho.
  destruct Ho as (Hc & -> & _); [pose proof (wf_directories b Hwf); lia|].
  pose proof (add_prefix_directories _ _ _ _ _ Hf) as ->.
  pose proof (directories_exactly b q Hown (wf_registered b Hwf) Hne Hc) as Hd.
  split; cbn [namespace files directories]; rewrite map_app; cbn [map path]; [|exact Hd].
  apply add_prefixes in Hf as [Hin Hout].
  2: { by apply NoDup_map_filter, prefixes_fold_NoDup. }
  intros k row Hk. rewrite map_app, concat_app. setoid_rewrite elem_of_app.
  destruct (decide (k ∈ map (fun row : string * bool => to_ascii_lowercase row.1) (fresh b (prefixes "" (split x2f q))))) as [Hx|Hx].
  - apply list_elem_of_fmap in Hx as (r & -> & Hr). rewrite (Hin r Hr) in Hk. injection Hk as <-. split; [done|]. right.
    cbn [map concat]. rewrite app_nil_r. by apply fresh_row in Hr as [Hr _].
  - rewrite Hout in Hk; [|intros r Hr <-; apply Hx; by apply (list_elem_of_fmap_2 (fun row : string * bool => to_ascii_lowercase row.1))].
    apply (owned_rows b Hown) in Hk as [-> Hk]. split; [done|by left].
Qed.

Lemma reachable_owned reserve b : reachable reserve b -> owned b.
Proof. induction 1 as [|b p m bs b' Hr IH _ Hp]; [apply owned_new|]. eapply push_owned; [by eapply reachable_wf|done|done]. Qed.
End Growth.
Import Growth.

(** ** Properties *)

(** The name is refused. *)
Definition name_refused (p : string) : Prop :=
  4096 < slen p \/ canonical_relative p = false \/ p = checksum_path.
(** More than 32 parts, or a part of more than 255 bytes. *)
Definition too_deep (p : string) : Prop :=
  32 < len (split x2f p) \/ Exists (fun part => 255 < slen part) (split x2f p).

(** A prefix of the path has the folded form of a prefix of a captured file, and
    the two are not the same directory: they differ in spelling, or one is a file. *)
Definition clashes (fs : list CapturedSourceFile) (p : string) : Prop :=
  exists f row row', f ∈ fs /\ row ∈ rows_of p /\ row' ∈ rows_of (path f) /\
    to_ascii_lowercase row.1 = to_ascii_lowercase row'.1 /\ ~ (row = row' /\ row.2 = false).

Lemma conflicting_clashes b p :
  owned b -> Exists (conflicting b) (rows_of p) -> clashes (files b) p.
Proof.
  intros Ho H. apply Exists_exists in H as (row & Hr & prior & Hp & Hn). apply (owned_rows b Ho) in Hp as [Ek Hin].
  apply list_elem_of_In, in_concat in Hin as (l & Hl & Hx). rewrite map_map in Hl.
  apply in_map_iff in Hl as (f & <- & Hf). exists f, row, prior. rewrite !list_elem_of_In. split_and!; try done.
  - by apply list_elem_of_In.
  - intros [<- Hd]. apply Hn. split; [|done]. destruct row. cbn in *. by subst.
Qed.

Lemma no_conflict_no_clash b p :
  Forall (registered b) (files b) -> Forall (fun row => ~ conflicting b row) (rows_of p) -> ~ clashes (files b) p.
Proof.
  rewrite !Forall_forall. intros Hreg Hc (f & row & row' & Hf & Hr & Hr' & E & Hn). apply (Hc row Hr).
  exists row'. rewrite E. split; [by apply (Hreg f Hf)|]. intros [-> Hd]. apply Hn. split; [|done]. destruct row. cbn in *. by subst.
Qed.

(** Everything that can stop a push. *)
Definition limit_passed (b : SourceRowsBuilder) (p : string) (size : Z) : Prop :=
  too_deep p \/ MAX_SOURCE_FILES <= len (files b) \/ MAX_FILE_BYTES < size \/ MAX_SOURCE_BYTES < total b + size \/
  MAX_DIRECTORIES < Z.of_nat (base.size (directory_set (paths b ++ [p]))).
Definition admitted (b : SourceRowsBuilder) (p : string) (m size : Z) : Prop :=
  ~ name_refused p /\ m <= 511 /\ ~ limit_passed b p size /\ ~ clashes (files b) p.

(** What each outcome means. *)
Definition means {A} (b : SourceRowsBuilder) (p : string) (m size : Z) (r : capture A) : Prop :=
  match r with
  | Ok _ => admitted b p m size
  | Err (Error Path) => name_refused p \/ clashes (files b) p
  | Err (Error Type_) => 511 < m
  | Err (Error Limit) => limit_passed b p size
  | Err _ => False
  end.

Lemma validate_path_outcome p :
  match validate_source_path p with
  | Ok _ => ~ name_refused p /\ ~ too_deep p
  | Err (Error Path) => name_refused p
  | Err (Error Limit) => too_deep p
  | Err _ => False
  end.
Proof.
  unfold validate_source_path, name_refused, too_deep.
  destruct ((4096 <? slen p) || negb (canonical_relative p) || bool_decide (p = checksum_path)) eqn:G.
  - rewrite !orb_true_iff, Z.ltb_lt, negb_true_iff, bool_decide_eq_true in G. tauto.
  - rewrite !orb_false_iff, Z.ltb_ge, negb_false_iff, bool_decide_eq_false in G. destruct G as [[G1 G2] G3].
    destruct ((32 <? len (split x2f p)) || existsb (fun part => 255 <? slen part) (split x2f p)) eqn:H.
    + apply orb_true_iff in H as [H%Z.ltb_lt|H]; [by left|right]. apply existsb_exists in H as (part & Hin & H%Z.ltb_lt).
      apply Exists_exists. exists part. by rewrite list_elem_of_In.
    + apply orb_false_iff in H as [H1%Z.ltb_ge H2]. split; [intros [?|[?|?]]; [lia|congruence|done]|].
      intros [?|(part & Hin & H)%Exists_exists]; [lia|].
      assert (existsb (fun part => 255 <? slen part) (split x2f p) = true) as E; [|congruence].
      apply existsb_exists. exists part. split; [by apply list_elem_of_In|by apply Z.ltb_lt].
Qed.

Lemma plan_means b p m size :
  wf b -> owned b -> means b p m size (plan b p m size).
Proof.
  intros Hwf Hown. pose proof (validate_path_outcome p) as Hv. pose proof (wf_bytes b Hwf) as Hb.
  unfold plan, means, admitted, limit_passed. destruct (validate_source_path p) as [[]|[[]| |]] eqn:Ev; cbn [res_bind]; try tauto.
  destruct Hv as [Hname Hdeep]. unfold validate_source_mode. destruct (Z.ltb_spec 511 m) as [Hm|Hm]; cbn [res_bind]; [done|].
  destruct (Z.leb_spec MAX_SOURCE_FILES (len (files b))) as [Hc|Hc]; [tauto|].
  unfold remaining_file_bytes. destruct (Z.leb_spec (total b) MAX_SOURCE_BYTES); [|lia]. cbn [res_bind].
  destruct (Z.ltb_spec (Z.min MAX_FILE_BYTES (MAX_SOURCE_BYTES - total b)) size) as [Hs|Hs]; [lia|].
  apply validate_path_spec in Ev as (_ & Hcan & _). pose proof (parts_nonempty p Hcan) as Hne.
  pose proof (directories_at_least b p Hown (wf_registered b Hwf) Hne) as Hat. unfold rows_of in Hat.
  pose proof (wf_directories b Hwf) as Hd. pose proof (plan_parts_outcome b (split x2f p) "" 0 ltac:(lia)) as Ho.
  unfold plan_outcome in Ho. destruct (plan_parts b (split x2f p) "" 0) as [adds|[[]| |]]; try done.
  - destruct Ho as (Hf & _ & Hmax). pose proof (directories_exactly b p Hown (wf_registered b Hwf) Hne Hf) as He.
    unfold rows_of in He. split_and!; [done|done| |by apply no_conflict_no_clash; [apply wf_registered|]].
    intros [?|[?|[?|[?|?]]]]; [done|lia..].
  - do 4 right. lia.
  - right. by apply conflicting_clashes.
Qed.

(** The outcome of a push onto a reachable builder is decided by the files
    already captured: with an allocator that grants, it succeeds exactly when the
    path is admitted, the mode has no bits but permissions, no limit is passed and
    no prefix of the path clashes with one of a captured file, and appends the file
    with its digest.  Each error has its cause: [Path] a refused name or a clash,
    [Type] a mode, [Limit] a bound (depth, files, bytes, directories) or the
    allocator; the other errors never occur.  [check_file] gives the same answer. *)
Theorem push_outcome reserve b p m bytes :
  reachable reserve b ->
  means b p m (len bytes) (check_file b p m (len bytes)) /\
  match push reserve b p m bytes with
  | Ok b' => reserve b = true /\ admitted b p m (len bytes) /\
      exists d, files b' = files b ++ [mkFile p m bytes d] /\ OneShot.sha256_hex bytes = Some d
  | Err (Error Limit) => reserve b = false \/ check_file b p m (len bytes) = Err (Error Limit)
  | Err e => check_file b p m (len bytes) = Err e
  end.
Proof.
  intros Hr. pose proof (reachable_wf _ _ Hr) as Hwf. pose proof (reachable_owned _ _ Hr) as Hown.
  pose proof (plan_means b p m (len bytes) Hwf Hown) as Hp.
  destruct (push reserve b p m bytes) as [b'|e] eqn:E.
  - pose proof E as (adds & ns & ds & d & _ & _ & _ & _ & _ & _ & _ & Hd & _ & ->)%push_steps.
    unfold push in E. unfold check_file. destruct (plan b p m (len bytes)) as [adds'|]; [|done]. cbn [res_bind means] in *.
    destruct (reserve b); [|done]. split; [done|]. split_and!; [done|done|]. by exists d.
  - unfold push in E. unfold check_file. destruct (plan b p m (len bytes)) as [adds'|e'] eqn:Ep; cbn [res_bind means] in *.
    + destruct (reserve b); [|injection E as <-; by auto]. apply plan_size in Ep.
      rewrite byte_digest_spec in E by (unfold MAX_FILE_BYTES, u64_max in *; lia).
      destruct (sha256_hex_total bytes) as (d & Hd & _); [unfold MAX_FILE_BYTES, u64_max in *; lia|].
      rewrite Hd in E. cbn [ok_or res_bind] in E. by destruct (fold_left _ _ _).
    + injection E as <-. split; [done|]. destruct e' as [[]| |]; auto.
Qed.

(** A file below a captured file is refused. *)
Lemma push_outcome_witness :
  push grant sample_two "Cargo.toml/x" 420 [] = Err (Error Path) /\
  (name_refused "Cargo.toml/x" \/ clashes (files sample_two) "Cargo.toml/x").
Proof.
  assert (check_file sample_two "Cargo.toml/x" 420 (len (@nil byte)) = Err (Error Path)) as H by (vm_compute; reflexivity).
  split; [vm_compute; reflexivity|].
  pose proof (proj1 (push_outcome grant sample_two "Cargo.toml/x" 420 [] sample_two_reachable)) as Hm.
  rewrite H in Hm. exact Hm.
Defined.
