(* ===== verification/Gzip.v ===== *)
(** * Bounded gzip decoding ([protocol/src/gzip.rs])

    RFC 1951/1952 decoding into a private consumer.  [inflate] is written
    against the interface [OutputOps] of its output, with two instances: the
    code's [Output], a 32 KiB ring of history and an 8 KiB chunk buffer in
    front of the consumer, and in [GzipFacts] the plain list of the bytes
    decoded so far.  An index out of range is [Panic]; loops carry a budget
    ([OutOfFuel] when it is exhausted). *)

From S2P Require Import Prelude SourceRows.

Definition HISTORY : Z := 32768.
Definition CHUNK : Z := 8192.
Definition MAX_MEMBERS : Z := 64.
Definition MAX_HEADER : Z := 128 * 1024.
Definition MAX_HEADER_TEXT : Z := 4096.

(** [table[index]] and [table[index] = value] *)
Definition at_index {A : Type} (l : list A) (i : Z) : capture A :=
  if i <? 0 then Err Panic else ok_or (l !! Z.to_nat i) Panic.
Definition set_index {A : Type} (l : list A) (i : Z) (v : A) : capture (list A) :=
  if i <? 0 then Err Panic
  else match l !! Z.to_nat i with Some _ => Ok (<[Z.to_nat i := v]> l) | None => Err Panic end.

Fixpoint iterate {A : Type} (n : nat) (f : A -> A) (a : A) : A :=
  match n with
  | O => a
  | S n => iterate n f (f a)
  end.

(** ** CRC-32 *)

(** [(value >> 1) ^ (0xedb8_8320 & 0u32.wrapping_sub(value & 1))] *)
Definition crc_bit (value : Z) : Z :=
  Z.lxor (Z.shiftr value 1) (Z.land 0xedb88320 ((0 - Z.land value 1) mod 2 ^ 32)).
Definition crc_table : list Z := map (fun i => iterate 8 crc_bit (Z.of_nat i)) (seq 0 256).
Definition CRC : list Z := Eval vm_compute in crc_table.
Definition crc_byte (crc : Z) (b : byte) : Z :=
  Z.lxor (Z.shiftr crc 8) (nth (Z.to_nat (Z.land (Z.lxor crc (bZ b)) 255)) CRC 0).
(** [!x] on [u32] *)
Definition not_u32 (x : Z) : Z := Z.lxor x u32_max.
Definition crc32 (bytes : list byte) : Z := not_u32 (fold_left crc_byte bytes u32_max).

(** ** Bits *)

Record Bits : Set := mkBits {
  input : list byte;
  byte_at : Z;
  bit : Z
}.
Definition with_at (b : Bits) (byte' bit' : Z) : Bits := mkBits (input b) byte' bit'.

(** [for shift in 0..count]: [shift] counts up while [count] counts down. *)
Fixpoint read_loop (count : nat) (shift : Z) (value : Z) (b : Bits) : capture (Z * Bits) :=
  match count with
  | O => Ok (value, b)
  | S count =>
      let? byte := ok_or (input b !! Z.to_nat (byte_at b)) (Error Malformed) in
      let value := Z.lor value (Z.shiftl (Z.land (Z.shiftr (bZ byte) (bit b)) 1) shift) in
      let bit' := bit b + 1 in
      read_loop count (shift + 1) value
        (if bit' =? 8 then with_at b (byte_at b + 1) 0 else with_at b (byte_at b) bit')
  end.
Definition read (b : Bits) (count : nat) : capture (Z * Bits) := read_loop count 0 0 b.

Definition align (b : Bits) : Bits :=
  if bit b =? 0 then b else with_at b (byte_at b + 1) 0.

Definition take_bytes (b : Bits) (count : Z) : capture (list byte * Bits) :=
  throw_if negb (bit b =? 0) with Error Malformed ;;
  let? end_ := ok_or (checked_add (byte_at b) count) (Error Limit) in
  let? bytes := ok_or (get_range (input b) (byte_at b) end_) (Error Malformed) in
  Ok (bytes, with_at b end_ (bit b)).

(** [for _ in 0..=MAX_HEADER_TEXT { if self.take(1)?[0] == 0 { return Ok(()); } }] *)
Fixpoint text_loop (n : nat) (b : Bits) : capture Bits :=
  match n with
  | O => Err (Error Limit)
  | S n =>
      let? (bytes, b) := take_bytes b 1 in
      let? c := at_index bytes 0 in
      if bZ c =? 0 then Ok b else text_loop n b
  end.
Definition text (b : Bits) : capture Bits := text_loop (Z.to_nat (MAX_HEADER_TEXT + 1)) b.

(** ** Huffman trees *)

Inductive Alphabet : Set := Lengths | Literals | Distances.
#[export] Instance Alphabet_eq_dec : EqDecision Alphabet.
Proof. solve_decision. Defined.

Record Huffman : Set := mkHuffman {
  counts : list Z;
  first_codes : list Z;
  offsets : list Z;
  symbols : list Z;
  maximum_length : Z
}.

(** [x << 1] on [u16] *)
Definition shl1_u16 (x : Z) : Z := Z.shiftl x 1 mod 2 ^ 16.

(** [for length in lengths { .. counts[*length] += 1 .. }] *)
Definition count_length (acc : list Z * Z) (length : Z) : capture (list Z * Z) :=
  let '(counts, maximum) := acc in
  throw_if 15 <? length with Error Malformed ;;
  if length =? 0 then Ok (counts, maximum)
  else
    let? n := at_index counts length in
    let? counts := set_index counts length (n + 1) in
    Ok (counts, Z.max maximum length).

(** State of [for length in 1..=15]. *)
Record Slots : Set := mkSlots {
  slots : Z;
  code : Z;
  offset : Z;
  codes : list Z;
  offs : list Z
}.
Definition assign_length (counts : list Z) (s : Slots) (length : Z) : capture Slots :=
  let? n := at_index counts length in
  let slots := Z.shiftl (slots s) 1 - n in
  throw_if slots <? 0 with Error Malformed ;;
  let? below := at_index counts (length - 1) in
  let code := shl1_u16 (code s + below) in
  let? codes := set_index (codes s) length code in
  let? offs := set_index (offs s) length (offset s) in
  Ok (mkSlots slots code (offset s + n) codes offs).

(** [for (symbol, length) in lengths.iter().enumerate()] *)
Definition place_symbol (acc : list Z * list Z) (row : Z * Z) : capture (list Z * list Z) :=
  let '(next, symbols) := acc in
  let '(symbol, length) := row in
  if length =? 0 then Ok (next, symbols)
  else
    let? index := at_index next length in
    let? symbols := set_index symbols index symbol in
    let? next := set_index next length (index + 1) in
    Ok (next, symbols).

Definition enumerate (l : list Z) : list (Z * Z) := zip (map Z.of_nat (seq 0 (length l))) l.

Definition huffman_new (lengths : list Z) (alphabet : Alphabet) : capture Huffman :=
  throw_if 288 <? len lengths with Error Malformed ;;
  let? (counts, maximum) := res_fold count_length lengths (replicate 16 0, 0) in
  if maximum =? 0 then
    if bool_decide (alphabet = Distances)
    then Ok (mkHuffman counts (replicate 16 0) (replicate 16 0) (replicate 288 0) 0)
    else Err (Error Malformed)
  else
    let? s := res_fold (assign_length counts) (map Z.of_nat (seq 1 15))
                (mkSlots 1 0 0 (replicate 16 0) (replicate 16 0)) in
    throw_if negb (slots s =? 0) && (bool_decide (alphabet = Lengths) || negb (maximum =? 1))
      with Error Malformed ;;
    let? (_, symbols) := res_fold place_symbol (enumerate lengths) (offs s, replicate 288 0) in
    Ok (mkHuffman counts (codes s) (offs s) symbols maximum).

(** [for length in 1..=self.maximum] *)
Fixpoint decode_loop (t : Huffman) (n : nat) (length code : Z) (b : Bits) : capture (Z * Bits) :=
  match n with
  | O => Err (Error Malformed)
  | S n =>
      let? (x, b) := read b 1 in
      let code := Z.lor (shl1_u16 code) x in
      let? first := at_index (first_codes t) length in
      let? count := at_index (counts t) length in
      if (first <=? code) && (code - first <? count) then
        let? offset := at_index (offsets t) length in
        let? symbol := at_index (symbols t) (offset + (code - first)) in
        Ok (symbol, b)
      else decode_loop t n (length + 1) code b
  end.
Definition decode_symbol (t : Huffman) (b : Bits) : capture (Z * Bits) :=
  decode_loop t (Z.to_nat (maximum_length t)) 1 0 b.

(** ** The output *)

(** What [inflate] uses of its output. *)
Class OutputOps (Out : Type) : Type := {
  emit : Out -> byte -> capture Out;
  copy : Out -> Z -> Z -> capture Out;
  room : Out -> Z
}.

(** [struct Output<F>]: [consumer] is the state that [consume] threads. *)
Record Output (C : Type) : Type := mkOutput {
  consumer : C;
  history : list byte;
  pending : list byte;
  pending_len : Z;
  total : Z;
  member_bytes : Z;
  maximum : Z;
  crc : Z
}.
Arguments mkOutput {C}.
Arguments consumer {C}. Arguments history {C}. Arguments pending {C}. Arguments pending_len {C}.
Arguments total {C}. Arguments member_bytes {C}. Arguments maximum {C}. Arguments crc {C}.

Section output.
Context {C : Type} (consume : C -> list byte -> capture C).

Definition flush (o : Output C) : capture (Output C) :=
  if pending_len o =? 0 then Ok o
  else
    let? chunk := ok_or (get_range (pending o) 0 (pending_len o)) Panic in
    let? s := consume (consumer o) chunk in
    Ok (mkOutput s (history o) (pending o) 0 (total o) (member_bytes o) (maximum o) (crc o)).

Definition output_emit (o : Output C) (b : byte) : capture (Output C) :=
  throw_if maximum o <=? total o with Error Limit ;;
  let? history := set_index (history o) (member_bytes o mod HISTORY) b in
  let? pending := set_index (pending o) (pending_len o) b in
  let o := mkOutput (consumer o) history pending (pending_len o + 1) (total o + 1)
             (member_bytes o + 1) (maximum o) (crc_byte (crc o) b) in
  if pending_len o =? CHUNK then flush o else Ok o.

(** [for _ in 0..length { .. self.emit(byte)?; }] *)
Fixpoint copy_loop (n : nat) (distance : Z) (o : Output C) : capture (Output C) :=
  match n with
  | O => Ok o
  | S n =>
      let? b := at_index (history o) ((member_bytes o - distance) mod HISTORY) in
      let? o := output_emit o b in
      copy_loop n distance o
  end.
Definition output_copy (o : Output C) (distance length : Z) : capture (Output C) :=
  throw_if (distance =? 0) || (HISTORY <? distance) || (member_bytes o <? distance)
    with Error Malformed ;;
  throw_if maximum o - total o <? length with Error Limit ;;
  copy_loop (Z.to_nat length) distance o.

#[export] Instance output_ops : OutputOps (Output C) := {
  emit := output_emit;
  copy := output_copy;
  room o := maximum o - total o
}.
End output.

(** ** Dynamic trees *)

Definition ORDER : list Z := [16; 17; 18; 0; 8; 7; 9; 6; 10; 5; 11; 4; 12; 3; 13; 2; 14; 1; 15].

(** [for index in ORDER.iter().take(code_count)] *)
Fixpoint read_code_lengths (order : list Z) (lengths : list Z) (b : Bits) : capture (list Z * Bits) :=
  match order with
  | [] => Ok (lengths, b)
  | index :: order =>
      let? (x, b) := read b 3 in
      let? lengths := set_index lengths index x in
      read_code_lengths order lengths b
  end.

(** [lengths[at..at + repeat].fill(value)] *)
Fixpoint fill (n : nat) (lengths : list Z) (at' value : Z) : capture (list Z) :=
  match n with
  | O => Ok lengths
  | S n =>
      let? lengths := set_index lengths at' value in
      fill n lengths (at' + 1) value
  end.

(** [match code { .. }]: the value to write and how often. *)
Definition length_run (lengths : list Z) (at' code : Z) (b : Bits) : capture (Z * Z * Bits) :=
  if code <=? 15 then Ok (code, 1, b)
  else if (code =? 16) && negb (at' =? 0) then
    let? previous := at_index lengths (at' - 1) in
    let? (x, b) := read b 2 in
    Ok (previous, x + 3, b)
  else if code =? 17 then
    let? (x, b) := read b 3 in
    Ok (0, x + 3, b)
  else if code =? 18 then
    let? (x, b) := read b 7 in
    Ok (0, x + 11, b)
  else Err (Error Malformed).

(** [while at < count]; every turn advances [at]. *)
Fixpoint run_lengths (fuel : nat) (codes : Huffman) (count : Z) (lengths : list Z) (at' : Z) (b : Bits)
    : capture (list Z * Bits) :=
  if at' <? count then
    match fuel with
    | O => Err OutOfFuel
    | S fuel =>
        let? (code, b) := decode_symbol codes b in
        let? (value, repeat, b) := length_run lengths at' code b in
        throw_if count - at' <? repeat with Error Malformed ;;
        let? lengths := fill (Z.to_nat repeat) lengths at' value in
        run_lengths fuel codes count lengths (at' + repeat) b
    end
  else Ok (lengths, b).

Definition dynamic_trees (b : Bits) : capture (Huffman * Huffman * Bits) :=
  let? (x, b) := read b 5 in
  let literals := x + 257 in
  let? (x, b) := read b 5 in
  let distances := x + 1 in
  let? (x, b) := read b 4 in
  let code_count := x + 4 in
  throw_if 286 <? literals with Error Malformed ;;
  let? (code_lengths, b) :=
    read_code_lengths (firstn (Z.to_nat code_count) ORDER) (replicate 19 0) b in
  let? codes := huffman_new code_lengths Lengths in
  let count := literals + distances in
  let? (lengths, b) := run_lengths (Z.to_nat count) codes count (replicate 318 0) 0 b in
  let? end_length := at_index lengths 256 in
  throw_if end_length =? 0 with Error Malformed ;;
  let? literal_lengths := ok_or (get_range lengths 0 literals) Panic in
  let? literal_tree := huffman_new literal_lengths Literals in
  let? distance_lengths := ok_or (get_range lengths literals count) Panic in
  let? distance_tree := huffman_new distance_lengths Distances in
  Ok (literal_tree, distance_tree, b).

(** ** Inflate *)

Definition LENGTH_BASE : list Z :=
  [3; 4; 5; 6; 7; 8; 9; 10; 11; 13; 15; 17; 19; 23; 27; 31; 35; 43; 51; 59; 67; 83; 99; 115;
   131; 163; 195; 227; 258].
Definition LENGTH_EXTRA : list Z :=
  [0; 0; 0; 0; 0; 0; 0; 0; 1; 1; 1; 1; 2; 2; 2; 2; 3; 3; 3; 3; 4; 4; 4; 4; 5; 5; 5; 5; 0].
Definition DISTANCE_BASE : list Z :=
  [1; 2; 3; 4; 5; 7; 9; 13; 17; 25; 33; 49; 65; 97; 129; 193; 257; 385; 513; 769; 1025; 1537;
   2049; 3073; 4097; 6145; 8193; 12289; 16385; 24577].
Definition DISTANCE_EXTRA : list Z :=
  [0; 0; 0; 0; 1; 1; 2; 2; 3; 3; 4; 4; 5; 5; 6; 6; 7; 7; 8; 8; 9; 9; 10; 10; 11; 11; 12; 12;
   13; 13].

Definition fixed_lengths : list Z :=
  replicate 144 8 ++ replicate 112 9 ++ replicate 24 7 ++ replicate 8 8.
Definition fixed_trees : capture (Huffman * Huffman) :=
  let? literals := huffman_new fixed_lengths Literals in
  let? distances := huffman_new (replicate 32 5) Distances in
  Ok (literals, distances).

Section inflate.
Context {Out : Type} `{OutputOps Out}.

(** [for byte in bits.take(length)? { output.emit( *byte )?; }] *)
Definition emit_all (o : Out) (bytes : list byte) : capture Out := res_fold emit bytes o.

(** The block of kind 0. *)
Definition stored_block (b : Bits) (o : Out) : capture (Bits * Out) :=
  let? (length, b) := read (align b) 16 in
  let? (complement, b) := read b 16 in
  throw_if negb (complement =? u16_max - length) with Error Malformed ;;
  throw_if room o <? length with Error Limit ;;
  let? (bytes, b) := take_bytes b length in
  let? o := emit_all o bytes in
  Ok (b, o).

(** The match of a length code 257..=285: length, distance and the next bits. *)
Definition read_match (distances : Huffman) (code : Z) (b : Bits) : capture (Z * Z * Bits) :=
  let index := code - 257 in
  let? base := at_index LENGTH_BASE index in
  let? extra := at_index LENGTH_EXTRA index in
  let? (x, b) := read b (Z.to_nat extra) in
  let length := base + x in
  let? (distance_code, b) := decode_symbol distances b in
  throw_if 30 <=? distance_code with Error Malformed ;;
  let? base := at_index DISTANCE_BASE distance_code in
  let? extra := at_index DISTANCE_EXTRA distance_code in
  let? (x, b) := read b (Z.to_nat extra) in
  Ok (length, base + x, b).

(** The loop over the symbols of a compressed block; every turn reads a bit. *)
Fixpoint symbol_loop (fuel : nat) (literals distances : Huffman) (b : Bits) (o : Out) : capture (Bits * Out) :=
  match fuel with
  | O => Err OutOfFuel
  | S fuel =>
      let? (code, b) := decode_symbol literals b in
      if code <=? 255 then
        let? o := emit o (byte_of_Z code) in
        symbol_loop fuel literals distances b o
      else if code =? 256 then Ok (b, o)
      else if code <=? 285 then
        let? (length, distance, b) := read_match distances code b in
        let? o := copy o distance length in
        symbol_loop fuel literals distances b o
      else Err (Error Malformed)
  end.

(** The bits that are left bound every loop that reads bits. *)
Definition bits_fuel (b : Bits) : nat := Z.to_nat (8 * len (input b) + 1).

Definition block (b : Bits) (kind : Z) (o : Out) : capture (Bits * Out) :=
  if kind =? 0 then stored_block b o
  else if (kind =? 1) || (kind =? 2) then
    let? (literals, distances, b) :=
      (if kind =? 1 then
         let? (literals, distances) := fixed_trees in Ok (literals, distances, b)
       else dynamic_trees b) in
    symbol_loop (bits_fuel b) literals distances b o
  else Err (Error Malformed).

Fixpoint inflate_loop (fuel : nat) (b : Bits) (o : Out) : capture (Bits * Out) :=
  match fuel with
  | O => Err OutOfFuel
  | S fuel =>
      let? (last, b) := read b 1 in
      let? (kind, b) := read b 2 in
      let? (b, o) := block b kind o in
      if negb (last =? 0) then Ok (align b, o) else inflate_loop fuel b o
  end.
Definition inflate (b : Bits) (o : Out) : capture (Bits * Out) := inflate_loop (bits_fuel b) b o.
End inflate.

(** ** Members *)

(** The member header: the bits after it. *)
Definition member_header (b : Bits) : capture Bits :=
  let start := byte_at b in
  let? (header, b) := take_bytes b 10 in
  throw_if negb (bool_decide (firstn 3 header = [x1f; x8b; x08]))
           || negb (Z.land (bZ (nth 3 header x00)) 0xe0 =? 0)
    with Error Malformed ;;
  let flags := bZ (nth 3 header x00) in
  let? b :=
    (if negb (Z.land flags 4 =? 0) then
       let? (length, b) := take_bytes b 2 in
       let? (_, b) := take_bytes b (le_value length) in Ok b
     else Ok b) in
  let? b := (if negb (Z.land flags 8 =? 0) then text b else Ok b) in
  let? b := (if negb (Z.land flags 16 =? 0) then text b else Ok b) in
  let? b :=
    (if negb (Z.land flags 2 =? 0) then
       let? covered := ok_or (get_range (input b) start (byte_at b)) Panic in
       let checksum := crc32 covered mod 2 ^ 16 in
       let? (expected, b) := take_bytes b 2 in
       throw_if negb (checksum =? le_value expected) with Error Integrity ;;
       Ok b
     else Ok b) in
  throw_if MAX_HEADER <? byte_at b - start with Error Limit ;;
  Ok b.

Section decode.
Context {C : Type} (consume : C -> list byte -> capture C).
#[local] Existing Instance output_ops.

(** [output.member_bytes = 0; output.crc = u32::MAX;] *)
Definition start_member (o : Output C) : Output C :=
  mkOutput (consumer o) (history o) (pending o) (pending_len o) (total o) 0 (maximum o) u32_max.

Definition member (b : Bits) (o : Output C) : capture (Bits * Output C) :=
  let? b := member_header b in
  let? (b, o) := inflate (H := output_ops consume) b (start_member o) in
  let? (trailer, b) := take_bytes b 8 in
  let crc' := le_value (firstn 4 trailer) in
  let length := le_value (skipn 4 trailer) in
  throw_if negb (crc' =? not_u32 (crc o)) || negb (length =? member_bytes o mod 2 ^ 32)
    with Error Integrity ;;
  let? o := flush consume o in
  Ok (b, o).

(** [while bits.byte < input.len()]; the member count bounds the turns. *)
Fixpoint members_loop (fuel : nat) (members : Z) (b : Bits) (o : Output C) : capture (Output C) :=
  if byte_at b <? len (input b) then
    throw_if members =? MAX_MEMBERS with Error Limit ;;
    match fuel with
    | O => Err OutOfFuel
    | S fuel =>
        let? (b, o) := member b o in
        members_loop fuel (members + 1) b o
    end
  else Ok o.

(** The decoded size and the consumer's final state. *)
Definition decode (input : list byte) (maximum : Z) (s : C) : capture (Z * C) :=
  let o := mkOutput s (replicate (Z.to_nat HISTORY) x00) (replicate (Z.to_nat CHUNK) x00)
             0 0 0 maximum u32_max in
  throw_if len input =? 0 with Error Malformed ;;
  let? o := members_loop (Z.to_nat MAX_MEMBERS) 0 (mkBits input 0 0) o in
  Ok (total o, consumer o).
End decode.
