(* ===== verification/HuffmanFacts.v ===== *)
(** * Theorems on the bit reader and the Huffman trees of [Gzip]

    [BitsFacts]: the reader consumes exactly the bits it returns.  [Tables]: what
    the arrays of a tree hold.  [Canonical]: a tree decodes exactly the canonical
    prefix code of RFC 1951, written here as a sum over the smaller symbols. *)

From S2P Require Import Prelude SourceRows Gzip.

(** ** Reading bits *)
Module BitsFacts.

Definition pos (b : Bits) : Z := 8 * byte_at b + bit b.
Definition size (b : Bits) : Z := 8 * len (input b).
(** The bits still to read. *)
Definition left (b : Bits) : Z := size b - pos b.

Definition wf (b : Bits) : Prop :=
  0 <= byte_at b /\ 0 <= bit b < 8 /\ pos b <= size b.

(** Bit [i] of the input, least significant first. *)
Definition bit_at (bytes : list byte) (i : Z) : bool :=
  Z.testbit (bZ (nth (Z.to_nat (i / 8)) bytes x00)) (i mod 8).

(** The reader [n] bits further on. *)
Definition skip (b : Bits) (n : Z) : Bits :=
  mkBits (input b) ((pos b + n) / 8) ((pos b + n) mod 8).

Lemma pos_skip b n : pos (skip b n) = pos b + n.
Proof. unfold pos at 1, skip; cbn [byte_at bit]. zmod. Qed.

Lemma wf_skip b n : wf b -> 0 <= n <= left b -> wf (skip b n).
Proof.
  intros (H1 & H2 & H3) Hn. unfold wf. rewrite pos_skip. unfold left, size in *.
  unfold skip; cbn [byte_at bit input]. unfold pos in *. split_and!; try zmod.
Qed.

Lemma skip_0 b : wf b -> skip b 0 = b.
Proof.
  intros (H1 & H2 & _). destruct b as [i y t]. unfold skip, pos; cbn [byte_at bit input] in *.
  f_equal; zmod.
Qed.

Lemma skip_skip b m n : skip (skip b m) n = skip b (m + n).
Proof. unfold skip at 1. rewrite pos_skip. cbn [input]. unfold skip. by rewrite Z.add_assoc. Qed.

Lemma left_skip b n : left (skip b n) = left b - n.
Proof. unfold left, size. rewrite pos_skip. cbn [skip input]. lia. Qed.

Lemma size_skip b n : size (skip b n) = size b.
Proof. done. Qed.

(** One bit. *)
Lemma read_bit_step b :
  wf b ->
  match input b !! Z.to_nat (byte_at b) with
  | Some byte =>
      1 <= left b /\
      Z.land (Z.shiftr (bZ byte) (bit b)) 1 = Z.b2z (bit_at (input b) (pos b)) /\
      (if bit b + 1 =? 8 then with_at b (byte_at b + 1) 0 else with_at b (byte_at b) (bit b + 1)) = skip b 1
  | None => left b <= 0
  end.
Proof.
  intros (H1 & H2 & H3). destruct (input b !! _) as [byte|] eqn:E.
  - pose proof (lookup_lt_Some _ _ _ E) as Hl. apply Nat2Z.inj_lt in Hl. rewrite Z2Nat.id in Hl by lia.
    fold (len (input b)) in Hl. split_and!.
    + unfold left, size, pos. lia.
    + unfold bit_at. replace (pos b / 8) with (byte_at b) by (unfold pos; zmod).
      replace (pos b mod 8) with (bit b) by (unfold pos; zmod).
      rewrite (nth_lookup_Some _ _ x00 _ E). change (Z.land ?x 1) with (Z.land x (Z.ones 1)).
      rewrite Z.land_ones, Z.testbit_spec' by lia. rewrite Z.shiftr_div_pow2 by lia. done.
    + unfold skip, with_at, pos. destruct (Z.eqb_spec (bit b + 1) 8); f_equal; zmod.
  - apply lookup_ge_None in E. apply Nat2Z.inj_le in E. rewrite Z2Nat.id in E by lia.
    fold (len (input b)) in E. unfold left, size, pos. lia.
Qed.

(** The value of [n] bits from [i] on. *)
Fixpoint bits_value (bytes : list byte) (i : Z) (n : nat) : Z :=
  match n with
  | O => 0
  | S n => Z.b2z (bit_at bytes i) + 2 * bits_value bytes (i + 1) n
  end.

Lemma bits_value_range bytes i n : 0 <= bits_value bytes i n < 2 ^ Z.of_nat n.
Proof.
  revert i. induction n as [|n IH]; intros i; [done|]. cbn [bits_value].
  rewrite Nat2Z.inj_succ, Z.pow_succ_r by lia. specialize (IH (i + 1)).
  destruct (bit_at bytes i); cbn [Z.b2z]; lia.
Qed.

Lemma lor_disjoint v s x : 0 <= s -> 0 <= v < 2 ^ s -> Z.lor v (Z.shiftl x s) = v + x * 2 ^ s.
Proof.
  intros Hs Hv. rewrite Z.shiftl_mul_pow2 by done. rewrite <- Z.lxor_lor, <- Z.add_nocarry_lxor; try done.
  all: apply Z.bits_inj'; intros i Hi; rewrite Z.land_spec, Z.bits_0;
    destruct (Z.ltb_spec i s);
    [rewrite Z.mul_pow2_bits_low by lia; apply andb_false_r|];
    rewrite (proj2 (Z.testbit_false v i Hi)); [done|];
    rewrite Z.div_small; [done|]; split; [lia|]; eapply Z.lt_le_trans; [apply Hv|]; apply Z.pow_le_mono_r; lia.
Qed.

Lemma read_loop_spec n s v b :
  wf b -> 0 <= s -> 0 <= v < 2 ^ s ->
  read_loop n s v b =
    if Z.of_nat n <=? left b
    then Ok (v + bits_value (input b) (pos b) n * 2 ^ s, skip b (Z.of_nat n))
    else Err (Error Malformed).
Proof.
  revert s v b. induction n as [|n IH]; intros s v b Hb Hs Hv; cbn [read_loop bits_value].
  - assert (0 <= left b) by (destruct Hb as (_ & _ & Hb); unfold left; lia).
    rewrite (proj2 (Z.leb_le _ _)) by lia. rewrite skip_0 by done. do 2 f_equal. lia.
  - pose proof (read_bit_step b Hb) as Hstep. destruct (input b !! _) as [byte|]; cbn [ok_or res_bind].
    + destruct Hstep as (Hl & -> & ->). rewrite lor_disjoint by done.
      rewrite IH; [|apply wf_skip; [done|lia]|lia|].
      * rewrite left_skip, pos_skip, skip_skip.
        replace (Z.of_nat (S n)) with (1 + Z.of_nat n) by lia.
        destruct (Z.leb_spec (Z.of_nat n) (left b - 1)), (Z.leb_spec (1 + Z.of_nat n) (left b)); try lia; [|done].
        rewrite Z.pow_add_r by lia. do 2 f_equal. cbn [skip input]. change (2 ^ 1) with 2. ring.
      * rewrite Z.pow_add_r by lia. destruct (bit_at _ _); cbn [Z.b2z]; change (2 ^ 1) with 2; lia.
    + rewrite (proj2 (Z.leb_gt _ _)) by lia. done.
Qed.

Lemma read_spec n b :
  wf b ->
  read b n = if Z.of_nat n <=? left b
             then Ok (bits_value (input b) (pos b) n, skip b (Z.of_nat n))
             else Err (Error Malformed).
Proof.
  intros Hb. unfold read. rewrite read_loop_spec by (done || lia).
  change (2 ^ 0) with 1. by rewrite Z.mul_1_r.
Qed.

Lemma read_runs n b :
  wf b ->
  runs (read b n) (fun '(x, b') =>
    0 <= x < 2 ^ Z.of_nat n /\ wf b' /\ input b' = input b /\ left b' = left b - Z.of_nat n).
Proof.
  intros Hb. rewrite read_spec by done. destruct (Z.leb_spec (Z.of_nat n) (left b)); cbn [runs]; [|done].
  split_and!; [apply bits_value_range..| |done|apply left_skip]. apply wf_skip; [done|lia].
Qed.

Lemma align_wf b : wf b -> wf (align b) /\ input (align b) = input b /\ left (align b) <= left b /\ bit (align b) = 0.
Proof.
  intros (H1 & H2 & H3). unfold align, wf, left, size, pos in *. destruct (Z.eqb_spec (bit b) 0) as [E|E];
    cbn [with_at byte_at bit input]; split_and!; (done || lia).
Qed.

Lemma take_bytes_runs b n :
  wf b -> 0 <= n ->
  runs (take_bytes b n) (fun '(bytes, b') =>
    len bytes = n /\ wf b' /\ input b' = input b /\ left b' = left b - 8 * n /\ bit b' = 0 /\
    byte_at b' = byte_at b + n).
Proof.
  intros (H1 & H2 & H3) Hn. unfold take_bytes. apply runs_guard. intros E. bool_to_prop.
  unfold checked_add. destruct (_ <=? u64_max); [|done]. cbn [ok_or res_bind].
  destruct (get_range _ _ _) as [bytes|] eqn:G; [|done]. cbn [ok_or res_bind runs].
  pose proof (get_range_length _ _ _ _ G). apply get_range_Some in G as (_ & Hl & _).
  unfold wf, left, size, pos, with_at in *. cbn [byte_at bit input]. split_and!; (done || lia).
Qed.

Lemma text_loop_runs n b :
  wf b -> runs (text_loop n b) (fun b' => wf b' /\ input b' = input b /\ left b' <= left b /\ bit b' = 0).
Proof.
  revert b. induction n as [|n IH]; intros b Hb; cbn [text_loop]; [done|].
  eapply runs_bind; [apply take_bytes_runs; [done|lia]|]. intros [bytes b1] _ (Hlen & W & I & L & B & _).
  destruct bytes as [|c [|]]; rewrite ?len_cons, ?len_nil in Hlen; try (pose proof (len_nonneg bytes)); try lia; cycle 1.
  { pose proof (len_nonneg l). lia. }
  change (at_index [c] 0) with (@Ok (failure CaptureError) _ c). cbn [res_bind].
  destruct (bZ c =? 0); [cbn; split_and!; (done || lia)|].
  eapply runs_mono; [apply IH; done|]. intros b' _ (? & ? & ? & ?). split_and!; (done || lia || congruence).
Qed.
End BitsFacts.

(** ** The arrays of a tree *)
Module Tables.

(** [l[i]] for an index in range. *)
Definition get (l : list Z) (i : Z) : Z := nth (Z.to_nat i) l 0.

Lemma at_index_get l i : 0 <= i < len l -> at_index l i = Ok (get l i).
Proof.
  intros Hi. unfold at_index, get. rewrite (proj2 (Z.ltb_ge _ _)) by lia.
  destruct (l !! Z.to_nat i) as [x|] eqn:E.
  - by rewrite (nth_lookup_Some _ _ _ _ E).
  - apply lookup_ge_None in E. unfold len in Hi. lia.
Qed.

Lemma set_index_spec {A} (l : list A) i v l' :
  set_index l i v = Ok l' <-> 0 <= i < len l /\ l' = <[Z.to_nat i := v]> l.
Proof.
  unfold set_index. destruct (Z.ltb_spec i 0).
  - split; [done|]. intros [? _]. lia.
  - destruct (l !! Z.to_nat i) as [x|] eqn:E.
    + apply lookup_lt_Some in E. split; [intros [= <-]|intros [_ ->]; done].
      split; [unfold len; lia|done].
    + apply lookup_ge_None in E. split; [done|]. unfold len. intros [? _]. lia.
Qed.

Lemma set_index_ok {A} (l : list A) i v :
  0 <= i < len l -> set_index l i v = Ok (<[Z.to_nat i := v]> l).
Proof. intros Hi. by apply set_index_spec. Qed.

Lemma get_insert l i j v :
  0 <= i < len l -> 0 <= j -> get (<[Z.to_nat i := v]> l) j = if i =? j then v else get l j.
Proof.
  intros Hi Hj. unfold get. rewrite !nth_lookup. destruct (Z.eqb_spec i j) as [->|Hne].
  - rewrite list_lookup_insert_eq; [done|]. unfold len in Hi. lia.
  - rewrite list_lookup_insert_ne; [done|]. lia.
Qed.

Lemma len_insert' {A} (l : list A) i v : len (<[i := v]> l) = len l.
Proof. unfold len. by rewrite length_insert. Qed.

Lemma get_replicate n i : get (replicate n 0) i = 0.
Proof.
  unfold get. rewrite nth_lookup. destruct (replicate n 0 !! Z.to_nat i) eqn:E; [|done].
  apply lookup_replicate in E as [-> _]. done.
Qed.

Lemma Forall_insert' {A} (P : A -> Prop) l i v : Forall P l -> P v -> Forall P (<[i := v]> l).
Proof. apply Forall_insert. Qed.

(** Counting the lengths of a code. *)
Definition tally (f : Z -> bool) (lengths : list Z) : Z := len (filter (fun x => f x = true) lengths).
Definition count_of (l : Z) (lengths : list Z) : Z := tally (Z.eqb l) lengths.
Definition below (l : Z) (lengths : list Z) : Z := tally (fun x => (0 <? x) && (x <? l)) lengths.
(** The first code of length [l]: each shorter code takes its share. *)
Fixpoint base (l : Z) (lengths : list Z) : Z :=
  match lengths with
  | [] => 0
  | x :: lengths => (if (0 <? x) && (x <? l) then 2 ^ (l - x) else 0) + base l lengths
  end.

Lemma tally_cons f x lengths : tally f (x :: lengths) = (if f x then 1 else 0) + tally f lengths.
Proof. unfold tally. rewrite filter_cons. destruct (f x); destruct (decide _); try done; rewrite ?len_cons; lia. Qed.
Lemma tally_nil f : tally f [] = 0. Proof. done. Qed.
Lemma tally_app f a b : tally f (a ++ b) = tally f a + tally f b.
Proof. unfold tally. by rewrite filter_app, len_app. Qed.
Lemma tally_range f lengths : 0 <= tally f lengths <= len lengths.
Proof.
  induction lengths as [|x lengths IH]; [done|]. rewrite tally_cons, len_cons. destruct (f x); lia.
Qed.

Lemma below_succ l lengths : 0 < l -> below (l + 1) lengths = below l lengths + count_of l lengths.
Proof.
  intros Hl. unfold below, count_of. induction lengths as [|x lengths IH]; [done|]. rewrite !tally_cons, IH. cbv beta.
  destruct (Z.ltb_spec 0 x), (Z.ltb_spec x (l + 1)), (Z.ltb_spec x l), (Z.eqb_spec l x); cbn [andb]; lia.
Qed.
Lemma below_1 lengths : below 1 lengths = 0.
Proof.
  unfold below. induction lengths as [|x lengths IH]; [done|]. rewrite tally_cons, IH. cbv beta.
  destruct (Z.ltb_spec 0 x), (Z.ltb_spec x 1); cbn [andb]; lia.
Qed.
Lemma below_mono l m lengths : l <= m -> below l lengths <= below m lengths.
Proof.
  intros Hl. unfold below. induction lengths as [|x lengths IH]; [done|]. rewrite !tally_cons. cbv beta.
  destruct (Z.ltb_spec 0 x), (Z.ltb_spec x l), (Z.ltb_spec x m); cbn [andb]; lia.
Qed.

Lemma base_1 lengths : base 1 lengths = 0.
Proof.
  induction lengths as [|x lengths IH]; [done|]. cbn [base]. rewrite IH.
  destruct (Z.ltb_spec 0 x), (Z.ltb_spec x 1); cbn [andb]; lia.
Qed.
Lemma base_succ l lengths : 0 < l -> base (l + 1) lengths = 2 * (base l lengths + count_of l lengths).
Proof.
  intros Hl. unfold count_of. induction lengths as [|x lengths IH]; [done|]. rewrite tally_cons. cbn [base].
  rewrite IH. destruct (Z.ltb_spec 0 x), (Z.ltb_spec x (l + 1)), (Z.ltb_spec x l), (Z.eqb_spec l x); cbn [andb];
    try lia.
  - replace (l + 1 - x) with (Z.succ (l - x)) by lia. rewrite Z.pow_succ_r by lia. lia.
  - replace (l + 1 - x) with 1 by lia. change (2 ^ 1) with 2. lia.
Qed.
Lemma base_nonneg l lengths : 0 <= base l lengths.
Proof.
  induction lengths as [|x lengths IH]; [done|]. cbn [base].
  destruct (_ && _); [|lia]. pose proof (Z.pow_nonneg 2 (l - x)). lia.
Qed.

(** *** Counting *)
Lemma count_length_runs lengths c m :
  Forall (fun x => 0 <= x) lengths -> len c = 16 -> 0 <= m <= 15 ->
  runs (res_fold count_length lengths (c, m)) (fun '(c', m') =>
    len c' = 16 /\ (forall l, 0 <= l <= 15 -> get c' l = get c l + (if l =? 0 then 0 else count_of l lengths)) /\
    m <= m' <= 15 /\ Forall (fun x => x <= m') lengths /\ (m' = m \/ m' ∈ lengths)).
Proof.
  intros HF. revert c m. induction HF as [|x lengths Hx HF IH]; intros c m Hc Hm; cbn [res_fold].
  - cbn [runs]. split_and!; [done| |lia|lia|constructor|by left].
    intros l _. unfold count_of. rewrite tally_nil. destruct (l =? 0); lia.
  - eapply (runs_bind _ _ (fun '(c1, m1) => len c1 = 16 /\
       (forall l, 0 <= l <= 15 -> get c1 l = get c l + (if l =? 0 then 0 else if l =? x then 1 else 0)) /\
       m <= m1 <= 15 /\ x <= m1 /\ (m1 = m \/ m1 = x))).
    + unfold count_length. apply runs_guard. intros E. bool_to_prop. destruct (Z.eqb_spec x 0) as [->|Hne]; cbn [runs].
      * split_and!; try done; try lia. intros l _. destruct (l =? 0), (l =? 0); lia.
      * rewrite at_index_get by lia. cbn [res_bind]. rewrite set_index_ok by lia. cbn [res_bind runs].
        rewrite len_insert'. split_and!; try done; try lia. intros l Hl. rewrite get_insert by lia.
        destruct (Z.eqb_spec x l), (Z.eqb_spec l 0), (Z.eqb_spec l x); subst; lia.
    + intros [c1 m1] _ (Hc1 & Hg & Hm1 & Hx1 & Hmm). eapply runs_mono; [apply IH; [done|lia]|].
      intros [c' m'] _ (Hc' & Hg' & Hm' & HF' & Hin). split_and!; try done; try lia.
      * intros l Hl. rewrite Hg', Hg by lia. unfold count_of. rewrite tally_cons. destruct (l =? 0), (l =? x); lia.
      * constructor; [lia|done].
      * destruct Hin as [->|]; [destruct Hmm as [->| ->]; [by left|right; by left]|right; by right].
Qed.

(** *** Codes and offsets *)
Lemma seq_fold_runs {S} (f : S -> Z -> capture S) (P : Z -> S -> Prop) k n s :
  (forall i s, (k <= i < k + n)%nat -> P (Z.of_nat i) s -> runs (f s (Z.of_nat i)) (P (Z.of_nat i + 1))) ->
  P (Z.of_nat k) s -> runs (res_fold f (map Z.of_nat (seq k n)) s) (P (Z.of_nat (k + n))).
Proof.
  revert k s. induction n as [|n IH]; intros k s Hf Hs; cbn [seq map res_fold].
  - by rewrite Nat.add_0_r.
  - eapply runs_bind; [apply Hf; [lia|done]|]. intros s1 _ Hs1.
    replace (k + Datatypes.S n)%nat with (Datatypes.S k + n)%nat by lia. apply IH.
    + intros i s2 Hi. apply Hf. lia.
    + by replace (Z.of_nat (Datatypes.S k)) with (Z.of_nat k + 1) by lia.
Qed.

(** What the loop over the lengths has established when it reaches [l]. *)
Definition assigned (lengths : list Z) (l : Z) (s : Slots) : Prop :=
  slots s = 2 ^ (l - 1) - base (l - 1) lengths - (if l =? 1 then 0 else count_of (l - 1) lengths) /\
  code s = (if l =? 1 then 0 else base (l - 1) lengths) /\ offset s = below l lengths /\
  len (codes s) = 16 /\ len (offs s) = 16 /\
  (forall j, 1 <= j < l -> get (codes s) j = base j lengths /\ get (offs s) j = below j lengths /\
     base j lengths + count_of j lengths <= 2 ^ j).

Lemma assign_length_runs lengths c l s :
  len c = 16 -> (forall l, 0 <= l <= 15 -> get c l = if l =? 0 then 0 else count_of l lengths) ->
  1 <= l <= 15 -> assigned lengths l s ->
  runs (assign_length c s l) (assigned lengths (l + 1)).
Proof.
  intros Hc Hg Hl (A1 & A2 & A3 & A4 & A5 & A6). unfold assign_length.
  rewrite at_index_get by lia. cbn [res_bind]. rewrite Hg by lia. rewrite (proj2 (Z.eqb_neq l 0)) by lia.
  apply runs_guard. intros Hs%Z.ltb_ge. rewrite at_index_get by lia. cbn [res_bind]. rewrite Hg by lia.
  assert (code s + (if l - 1 =? 0 then 0 else count_of (l - 1) lengths) =
          if l =? 1 then 0 else base (l - 1) lengths + count_of (l - 1) lengths) as Hcode.
  { rewrite A2. destruct (Z.eqb_spec l 1), (Z.eqb_spec (l - 1) 0); lia. }
  assert (base l lengths = 2 * (if l =? 1 then 0 else base (l - 1) lengths + count_of (l - 1) lengths)) as Hb.
  { destruct (Z.eqb_spec l 1) as [->|]; [rewrite base_1; lia|].
    rewrite <- base_succ by lia. f_equal. lia. }
  assert (2 ^ l = 2 * 2 ^ (l - 1)) as Hp.
  { rewrite <- Z.pow_succ_r by lia. f_equal. lia. }
  assert (Z.shiftl (slots s) 1 - count_of l lengths = 2 ^ l - base l lengths - count_of l lengths) as Hslots.
  { rewrite Z.shiftl_mul_pow2, A1, Hb, Hp by lia. change (2 ^ 1) with 2.
    destruct (Z.eqb_spec l 1) as [->|]; [|lia]. change (1 - 1) with 0.
    assert (base 0 lengths = 0) as ->; [|lia]. clear.
    induction lengths as [|x lengths IH]; [done|]. cbn [base]. rewrite IH.
    destruct (Z.ltb_spec 0 x), (Z.ltb_spec x 0); cbn [andb]; lia. }
  rewrite Hslots in *. pose proof (base_nonneg l lengths) as Hbn. pose proof (tally_range (Z.eqb l) lengths) as Hcn.
  fold (count_of l lengths) in Hcn.
  assert (shl1_u16 (if l =? 1 then 0 else base (l - 1) lengths + count_of (l - 1) lengths) = base l lengths) as Hsh.
  { unfold shl1_u16. rewrite Z.shiftl_mul_pow2 by lia. change (2 ^ 1) with 2. rewrite Z.mul_comm, <- Hb.
    apply Z.mod_small. split; [done|]. assert (2 ^ l <= 2 ^ 15) by (apply Z.pow_le_mono_r; lia).
    change (2 ^ 15) with 32768 in *. change (2 ^ 16) with 65536. lia. }
  rewrite Hcode, Hsh, set_index_ok by lia. cbn [res_bind]. rewrite set_index_ok by lia. cbn [res_bind runs].
  unfold assigned; cbn [slots code offset codes offs]. rewrite !len_insert'.
  replace (l + 1 - 1) with l by lia. rewrite (proj2 (Z.eqb_neq (l + 1) 1)) by lia.
  split_and!; try done; try lia.
  - rewrite A3, below_succ by lia. done.
  - intros j Hj. rewrite !get_insert by lia. destruct (Z.eqb_spec l j) as [<-|]; [split_and!; lia|]. apply A6. lia.
Qed.

(** *** Symbols *)
(** The place of symbol [s], whose code has length [l]. *)
Definition slot_of (lengths : list Z) (s : nat) (l : Z) : Z :=
  below l lengths + count_of l (take s lengths).

Lemma count_of_prefix l lengths s :
  lengths !! s = Some l -> 0 <= count_of l (take s lengths) < count_of l lengths.
Proof.
  intros Hs. assert (count_of l lengths = count_of l (take s lengths) + (1 + count_of l (drop (S s) lengths))) as ->.
  { rewrite <- (take_drop_middle _ _ _ Hs) at 1. unfold count_of. by rewrite tally_app, tally_cons, Z.eqb_refl. }
  unfold count_of.
  pose proof (tally_range (Z.eqb l) (take s lengths)). pose proof (tally_range (Z.eqb l) (drop (S s) lengths)). lia.
Qed.

Lemma slot_of_range lengths s l :
  lengths !! s = Some l -> 0 < l -> below l lengths <= slot_of lengths s l < below (l + 1) lengths.
Proof.
  intros Hs Hl. pose proof (count_of_prefix l lengths s Hs). unfold slot_of. rewrite below_succ by lia. lia.
Qed.

Lemma slot_of_inj lengths s t l m :
  lengths !! s = Some l -> lengths !! t = Some m -> 0 < l -> 0 < m -> (s < t)%nat ->
  slot_of lengths s l <> slot_of lengths t m.
Proof.
  intros Hs Ht Hl Hm Hst. destruct (Z.lt_trichotomy l m) as [Hlm|[->|Hlm]].
  - pose proof (slot_of_range _ _ _ Hs Hl). pose proof (slot_of_range _ _ _ Ht Hm).
    pose proof (below_mono (l + 1) m lengths). lia.
  - unfold slot_of. assert (take t lengths !! s = Some m) as Hp by (by rewrite lookup_take_lt).
    pose proof (count_of_prefix m _ s Hp) as Hc. rewrite take_take, Nat.min_l in Hc by lia. lia.
  - pose proof (slot_of_range _ _ _ Hs Hl). pose proof (slot_of_range _ _ _ Ht Hm).
    pose proof (below_mono (m + 1) l lengths). lia.
Qed.

(** What the loop over the symbols has established before symbol [k]. *)
Definition placed (lengths : list Z) (k : nat) (next syms : list Z) : Prop :=
  len next = 16 /\ len syms = 288 /\
  (forall l, 1 <= l <= 15 -> get next l = below l lengths + count_of l (take k lengths)) /\
  (forall s l, (s < k)%nat -> lengths !! s = Some l -> 0 < l -> get syms (slot_of lengths s l) = Z.of_nat s) /\
  Forall (fun x => 0 <= x < 288) syms.

Lemma enumerate_from k (lengths : list Z) :
  zip (map Z.of_nat (seq k (length (drop k lengths)))) (drop k lengths) =
  match lengths !! k with
  | Some l => (Z.of_nat k, l) :: zip (map Z.of_nat (seq (S k) (length (drop (S k) lengths)))) (drop (S k) lengths)
  | None => []
  end.
Proof.
  destruct (lengths !! k) as [l|] eqn:E.
  - by rewrite (drop_S lengths l k E).
  - apply lookup_ge_None in E. by rewrite drop_ge.
Qed.

Lemma place_symbol_runs lengths k l next syms :
  len lengths <= 288 -> lengths !! k = Some l -> 0 <= l <= 15 -> placed lengths k next syms ->
  runs (place_symbol (next, syms) (Z.of_nat k, l)) (fun '(next, syms) => placed lengths (S k) next syms).
Proof.
  intros Hlen Hk Hl (P1 & P2 & P3 & P4 & P5). unfold place_symbol.
  pose proof (take_S_r _ _ _ Hk) as Htake. destruct (Z.eqb_spec l 0) as [->|Hne]; cbn [runs].
  - split_and!; try done.
    + intros m Hm. rewrite P3, Htake by done. unfold count_of. rewrite tally_app, tally_cons, tally_nil.
      rewrite (proj2 (Z.eqb_neq m 0)) by lia. lia.
    + intros s m Hs Hsm Hm0. destruct (decide (s = k)) as [->|]; [|apply P4; (done || lia)].
      rewrite Hk in Hsm. injection Hsm as <-. lia.
  - rewrite at_index_get by lia. cbn [res_bind]. rewrite P3 by lia.
    fold (slot_of lengths k l). pose proof (slot_of_range _ _ _ Hk ltac:(lia)) as Hr.
    pose proof (tally_range (fun x => (0 <? x) && (x <? l + 1)) lengths) as Ht. fold (below (l + 1) lengths) in Ht.
    pose proof (tally_range (fun x => (0 <? x) && (x <? l)) lengths) as Ht'. fold (below l lengths) in Ht'.
    rewrite set_index_ok by lia. cbn [res_bind]. rewrite set_index_ok by lia. cbn [res_bind runs].
    assert (Z.of_nat k < len lengths) by (apply lookup_lt_Some in Hk; unfold len; lia).
    split_and!; try (by rewrite len_insert').
    + intros m Hm. rewrite get_insert, Htake by lia. unfold count_of. rewrite tally_app, tally_cons, tally_nil.
      fold (count_of m (take k lengths)).
      destruct (Z.eqb_spec l m) as [->|]; [rewrite Z.eqb_refl; unfold slot_of; lia|].
      rewrite (proj2 (Z.eqb_neq m l)), P3 by lia. lia.
    + intros s m Hs Hsm Hm0. pose proof (slot_of_range _ _ _ Hsm Hm0) as Hsr.
      pose proof (tally_range (fun x => (0 <? x) && (x <? m)) lengths) as Hm'. fold (below m lengths) in Hm'.
      rewrite get_insert by lia. destruct (decide (s = k)) as [->|].
      * rewrite Hk in Hsm. injection Hsm as <-. by rewrite Z.eqb_refl.
      * rewrite (proj2 (Z.eqb_neq _ _)); [apply P4; (done || lia)|].
        intros E. apply (slot_of_inj lengths s k m l); (done || lia).
    + apply Forall_insert; [done|lia].
Qed.

Lemma place_symbols_runs lengths k next syms :
  len lengths <= 288 -> Forall (fun x => 0 <= x <= 15) lengths -> placed lengths k next syms ->
  runs (res_fold place_symbol (zip (map Z.of_nat (seq k (length (drop k lengths)))) (drop k lengths)) (next, syms))
    (fun '(next, syms) => placed lengths (Nat.max k (length lengths)) next syms).
Proof.
  intros Hlen HF. remember (length lengths - k)%nat as n eqn:En. revert k next syms En.
  induction n as [|n IH]; intros k next syms En HP; rewrite enumerate_from.
  - rewrite lookup_ge_None_2 by lia. cbn. by rewrite Nat.max_l by lia.
  - destruct (lookup_lt_is_Some_2 lengths k) as [l Hk]; [lia|]. rewrite Hk. cbn [res_fold].
    eapply runs_bind; [eapply place_symbol_runs; [done..| |done]|].
    + eapply (proj1 (Forall_lookup _ _)) in HF; [exact HF|done].
    + intros [next1 syms1] _ HP1. replace (Nat.max k (length lengths)) with (Nat.max (S k) (length lengths)) by lia.
      apply IH; [lia|done].
Qed.

(** *** The whole tree *)
(** A tree built from [lengths]; a tree without codes decodes nothing. *)
Record tree_of (lengths : list Z) (t : Huffman) : Prop := {
  tree_sizes : len (counts t) = 16 /\ len (first_codes t) = 16 /\ len (offsets t) = 16 /\ len (symbols t) = 288;
  tree_maximum : 0 <= maximum_length t <= 15 /\ Forall (fun x => 0 <= x <= maximum_length t) lengths;
  tree_symbols : Forall (fun x => 0 <= x < 288) (symbols t);
  tree_counts : forall l, 1 <= l <= 15 -> get (counts t) l = count_of l lengths;
  tree_codes : forall l, 1 <= l <= maximum_length t ->
    get (first_codes t) l = base l lengths /\ get (offsets t) l = below l lengths /\
    base l lengths + count_of l lengths <= 2 ^ l;
  tree_places : forall s l, lengths !! s = Some l -> 0 < l -> get (symbols t) (slot_of lengths s l) = Z.of_nat s;
  tree_small : len lengths <= 288
}.

Lemma replicate_small n : Forall (fun x => 0 <= x < 288) (replicate n 0).
Proof. apply Forall_replicate. lia. Qed.

Lemma huffman_new_runs lengths alphabet :
  Forall (fun x => 0 <= x) lengths ->
  runs (huffman_new lengths alphabet) (tree_of lengths).
Proof.
  intros HF. unfold huffman_new. apply runs_guard. intros Hsize%Z.ltb_ge.
  eapply runs_bind; [apply count_length_runs; [done|done|lia]|].
  intros [c m] _ (Hc & Hg & Hm & Hle & Hin).
  assert (forall l, 0 <= l <= 15 -> get c l = if l =? 0 then 0 else count_of l lengths) as Hg'.
  { intros l Hl. rewrite Hg, get_replicate by lia. destruct (l =? 0); lia. }
  assert (Forall (fun x => 0 <= x <= m) lengths) as Hrange.
  { apply Forall_forall. intros x Hx. rewrite Forall_forall in HF, Hle. split; [by apply HF|by apply Hle]. }
  destruct (Z.eqb_spec m 0) as [->|Hm0].
  - destruct (bool_decide _); cbn [runs]; [|done]. split; cbn [counts first_codes offsets symbols maximum_length]; try done.
    + apply (replicate_small 288).
    + intros l Hl. rewrite Hg', (proj2 (Z.eqb_neq l 0)) by lia. done.
    + lia.
    + intros s l Hs Hl. eapply (proj1 (Forall_lookup _ _)) in Hrange; [|exact Hs]. lia.
  - eapply runs_bind.
    { apply (seq_fold_runs _ (assigned lengths) 1 15).
      - intros i s Hi Hs. eapply assign_length_runs; [done|exact Hg'|lia|done].
      - unfold assigned; cbn [slots code offset codes offs]. rewrite below_1. split_and!; try done; [|lia].
        change (Z.of_nat 1) with 1. cbn [Z.eqb Pos.eqb]. change (1 - 1) with 0. clear.
        assert (base 0 lengths = 0) as ->; [|done].
        induction lengths as [|x lengths IH]; [done|]. cbn [base]. rewrite IH.
        destruct (Z.ltb_spec 0 x), (Z.ltb_spec x 0); cbn [andb]; lia. }
    intros s _ (_ & _ & _ & A4 & A5 & A6). apply runs_guard. intros _.
    eapply runs_bind.
    { apply (place_symbols_runs lengths 0); [done| |].
      - eapply Forall_impl; [exact Hrange|]. cbn. lia.
      - unfold placed. split_and!; try done; [| |apply (replicate_small 288)].
        + intros l Hl. destruct (A6 l ltac:(lia)) as (_ & -> & _). unfold count_of. cbn [take]. rewrite tally_nil. lia.
        + lia. }
    intros [next syms] _ (P1 & P2 & P3 & P4 & P5). cbn [runs].
    split; cbn [counts first_codes offsets symbols maximum_length]; try done.
    + intros l Hl. rewrite Hg', (proj2 (Z.eqb_neq l 0)) by lia. done.
    + intros l Hl. destruct (A6 l ltac:(lia)) as (? & ? & ?). done.
    + intros s' l Hs Hl. apply P4; [|done|done]. apply lookup_lt_Some in Hs. lia.
Qed.
End Tables.

(** ** Decoding the canonical code *)
Module Canonical.
Import BitsFacts Tables.

(** RFC 1951, 3.2.2: codes of one length are consecutive in symbol order, after
    the codes of the shorter lengths. *)
Definition canonical_code (lengths : list Z) (s : nat) (l : Z) : Z :=
  base l lengths + count_of l (take s lengths).

(** The next [n] bits, the first of them most significant. *)
Fixpoint code_bits (b : Bits) (n : nat) : Z :=
  match n with
  | O => 0
  | S n => 2 * code_bits b n + Z.b2z (bit_at (input b) (pos b + Z.of_nat n))
  end.

(** The code of [s] is [n] bits long and they come next. *)
Definition coded (lengths : list Z) (b : Bits) (s : nat) (n : nat) : Prop :=
  lengths !! s = Some (Z.of_nat n) /\ (0 < n)%nat /\ Z.of_nat n <= left b /\
  code_bits b n = canonical_code lengths s (Z.of_nat n).

Lemma code_bits_range b n : 0 <= code_bits b n < 2 ^ Z.of_nat n.
Proof.
  induction n as [|n IH]; [done|]. cbn [code_bits]. rewrite Nat2Z.inj_succ, Z.pow_succ_r by lia.
  destruct (bit_at _ _); cbn [Z.b2z]; lia.
Qed.

Lemma code_bits_prefix b k n : (k <= n)%nat ->
  code_bits b k * 2 ^ (Z.of_nat n - Z.of_nat k) <= code_bits b n < (code_bits b k + 1) * 2 ^ (Z.of_nat n - Z.of_nat k).
Proof.
  induction 1 as [|n Hk IH].
  - rewrite Z.sub_diag, Z.pow_0_r. lia.
  - replace (Z.of_nat (S n) - Z.of_nat k) with (Z.succ (Z.of_nat n - Z.of_nat k)) by lia.
    rewrite Z.pow_succ_r by lia. cbn [code_bits]. destruct (bit_at _ _); cbn [Z.b2z]; lia.
Qed.

Lemma base_shift k n lengths : 0 < k < n ->
  (base k lengths + count_of k lengths) * 2 ^ (n - k) <= base n lengths.
Proof.
  intros [Hk Hn]. replace n with (k + 1 + Z.of_nat (Z.to_nat (n - k - 1))) by lia.
  generalize (Z.to_nat (n - k - 1)) as d. clear n Hn. induction d as [|d IH].
  - rewrite Z.add_0_r, base_succ by lia. replace (k + 1 - k) with 1 by lia. change (2 ^ 1) with 2. lia.
  - replace (k + 1 + Z.of_nat (S d)) with (k + 1 + Z.of_nat d + 1) by lia. rewrite base_succ by lia.
    replace (k + 1 + Z.of_nat d + 1 - k) with (Z.succ (k + 1 + Z.of_nat d - k)) by lia. rewrite Z.pow_succ_r by lia.
    pose proof (tally_range (Z.eqb (k + 1 + Z.of_nat d)) lengths) as Ht. fold (count_of (k + 1 + Z.of_nat d) lengths) in Ht. lia.
Qed.

(** Every rank below the count is taken by a symbol. *)
Lemma rank_symbol l lengths r :
  0 <= r < count_of l lengths -> exists s, lengths !! s = Some l /\ count_of l (take s lengths) = r.
Proof.
  unfold count_of. revert r. induction lengths as [|x lengths IH]; intros r Hr; [rewrite tally_nil in Hr; lia|].
  rewrite tally_cons in Hr. destruct (Z.eqb_spec l x) as [->|Hne].
  - destruct (decide (r = 0)) as [->|].
    + exists 0%nat. done.
    + destruct (IH (r - 1)) as (s & Hs & Hc); [lia|]. exists (S s). split; [done|].
      cbn [take]. rewrite tally_cons, Hc, Z.eqb_refl. lia.
  - destruct (IH r) as (s & Hs & Hc); [lia|]. exists (S s). split; [done|].
    cbn [take]. rewrite tally_cons, Hc, (proj2 (Z.eqb_neq _ _) Hne). lia.
Qed.

Section tree.
Context (lengths : list Z) (t : Huffman) (Ht : tree_of lengths t).
#[local] Ltac tree_facts := destruct Ht as [(T1 & T2 & T3 & T4) [T5 T6] T7 T8 T9 T10 T11].

Definition matches (b : Bits) (j : nat) : bool :=
  (base (Z.of_nat j) lengths <=? code_bits b j) &&
  (code_bits b j - base (Z.of_nat j) lengths <? count_of (Z.of_nat j) lengths).

(** One turn of the loop: the [j + 1]-th bit is read. *)
Lemma decode_step b j n :
  wf b -> Z.of_nat j < maximum_length t -> Z.of_nat j <= left b ->
  decode_loop t (S n) (Z.of_nat j + 1) (code_bits b j) (skip b (Z.of_nat j)) =
    if Z.of_nat (S j) <=? left b then
      if matches b (S j)
      then Ok (get (symbols t) (below (Z.of_nat (S j)) lengths + (code_bits b (S j) - base (Z.of_nat (S j)) lengths)),
               skip b (Z.of_nat (S j)))
      else decode_loop t n (Z.of_nat (S j) + 1) (code_bits b (S j)) (skip b (Z.of_nat (S j)))
    else Err (Error Malformed).
Proof using Ht.
  intros Hb Hj Hl. tree_facts. cbn [decode_loop]. rewrite read_spec by (apply wf_skip; [done|lia]).
  rewrite left_skip. change (Z.of_nat 1) with 1.
  destruct (Z.leb_spec (Z.of_nat (S j)) (left b)), (Z.leb_spec 1 (left b - Z.of_nat j)); try lia; [|done].
  cbn [res_bind]. rewrite pos_skip, skip_skip. cbn [bits_value].
  assert (Z.lor (shl1_u16 (code_bits b j)) (Z.b2z (bit_at (input (skip b (Z.of_nat j))) (pos b + Z.of_nat j)) + 2 * 0)
          = code_bits b (S j)) as ->.
  { pose proof (code_bits_range b j). assert (2 ^ Z.of_nat j <= 2 ^ 15) by (apply Z.pow_le_mono_r; lia).
    change (2 ^ 15) with 32768 in *. unfold shl1_u16. rewrite Z.mod_small.
    - cbn [code_bits skip input]. rewrite Z.mul_0_r, Z.add_0_r, Z.lor_comm.
      replace (2 * code_bits b j) with (code_bits b j * 2 ^ 1) by (change (2 ^ 1) with 2; lia).
      rewrite (lor_disjoint _ 1); [lia|done|]. destruct (bit_at _ _); cbn; lia.
    - rewrite Z.shiftl_mul_pow2 by lia. change (2 ^ 1) with 2. change (2 ^ 16) with 65536. lia. }
  replace (Z.of_nat j + 1) with (Z.of_nat (S j)) by lia.
  destruct (T9 (Z.of_nat (S j)) ltac:(lia)) as (H1 & H2 & H3).
  rewrite !at_index_get by lia. cbn [res_bind]. rewrite H1, H2, T8 by lia.
  unfold matches. destruct (_ && _) eqn:E; [|done]. bool_to_prop. cbn [res_bind].
  rewrite at_index_get; [done|].
  pose proof (below_succ (Z.of_nat (S j)) lengths ltac:(lia)).
  pose proof (tally_range (fun x => (0 <? x) && (x <? Z.of_nat (S j))) lengths) as Hr. fold (below (Z.of_nat (S j)) lengths) in Hr.
  pose proof (tally_range (fun x => (0 <? x) && (x <? Z.of_nat (S j) + 1)) lengths) as Hr'. fold (below (Z.of_nat (S j) + 1) lengths) in Hr'.
  lia.
Qed.

(** A match is a code, and no proper prefix of a code matches. *)
Lemma matches_coded b j :
  (0 < j)%nat -> Z.of_nat j <= left b -> matches b j = true ->
  exists s, coded lengths b s j /\
    get (symbols t) (below (Z.of_nat j) lengths + (code_bits b j - base (Z.of_nat j) lengths)) = Z.of_nat s.
Proof using Ht.
  intros Hj Hl Hm. unfold matches in Hm. bool_to_prop.
  destruct (rank_symbol (Z.of_nat j) lengths (code_bits b j - base (Z.of_nat j) lengths)) as (s & Hs & Hc); [lia|].
  exists s. split.
  - split_and!; try done. unfold canonical_code. lia.
  - rewrite <- Hc. apply (tree_places _ _ Ht); [done|lia].
Qed.

Lemma coded_matches b s n : coded lengths b s n -> matches b n = true.
Proof.
  intros (Hs & Hn & Hl & Hc). unfold matches. rewrite Hc. unfold canonical_code.
  pose proof (count_of_prefix _ _ _ Hs). rewrite andb_true_iff, Z.leb_le, Z.ltb_lt. lia.
Qed.

Lemma coded_no_prefix b s n j : coded lengths b s n -> (0 < j < n)%nat -> matches b j = false.
Proof.
  intros (Hs & Hn & Hl & Hc) Hj. unfold matches. apply not_true_iff_false. rewrite andb_true_iff, Z.leb_le, Z.ltb_lt.
  intros [H1 H2]. pose proof (base_shift (Z.of_nat j) (Z.of_nat n) lengths ltac:(lia)) as Hb.
  pose proof (code_bits_prefix b j n ltac:(lia)) as [_ Hp]. pose proof (count_of_prefix _ _ _ Hs).
  unfold canonical_code in Hc.
  assert ((code_bits b j + 1) * 2 ^ (Z.of_nat n - Z.of_nat j) <=
          (base (Z.of_nat j) lengths + count_of (Z.of_nat j) lengths) * 2 ^ (Z.of_nat n - Z.of_nat j)).
  { apply Z.mul_le_mono_nonneg_r; [apply Z.pow_nonneg; lia|lia]. }
  lia.
Qed.

Lemma decode_loop_runs b j n :
  wf b -> Z.of_nat j + Z.of_nat n = maximum_length t -> Z.of_nat j <= left b ->
  runs (decode_loop t n (Z.of_nat j + 1) (code_bits b j) (skip b (Z.of_nat j))) (fun '(x, b') =>
    exists s k, x = Z.of_nat s /\ coded lengths b s k /\ b' = skip b (Z.of_nat k)).
Proof using Ht.
  revert j. induction n as [|n IH]; intros j Hb Hj Hl; [done|].
  rewrite decode_step by (done || lia). destruct (Z.leb_spec (Z.of_nat (S j)) (left b)); [|done].
  destruct (matches b (S j)) eqn:E.
  - destruct (matches_coded b (S j)) as (s & Hs & ->); [lia|done|done|]. cbn [runs]. by exists s, (S j).
  - apply IH; (done || lia).
Qed.

Lemma decode_loop_coded b j n s k :
  wf b -> Z.of_nat j + Z.of_nat n = maximum_length t -> coded lengths b s k -> (j < k)%nat ->
  decode_loop t n (Z.of_nat j + 1) (code_bits b j) (skip b (Z.of_nat j)) = Ok (Z.of_nat s, skip b (Z.of_nat k)).
Proof using Ht.
  revert j. induction n as [|n IH]; intros j Hb Hj Hc Hk; pose proof Hc as (Hs & _ & Hl & Hcode).
  - pose proof (proj2 (tree_maximum _ _ Ht)) as HF. eapply (proj1 (Forall_lookup _ _)) in HF; [|exact Hs]. lia.
  - rewrite decode_step by (done || lia). rewrite (proj2 (Z.leb_le _ _)) by lia.
    destruct (decide (S j = k)) as [<-|Hne].
    + rewrite (coded_matches _ _ _ Hc), Hcode. unfold canonical_code.
      replace (below _ _ + _) with (slot_of lengths s (Z.of_nat (S j))) by (unfold slot_of; lia).
      by rewrite (tree_places _ _ Ht) by (done || lia).
    + rewrite (coded_no_prefix _ _ _ _ Hc) by lia. apply IH; (done || lia).
Qed.

Lemma decode_symbol_start b :
  wf b -> decode_symbol t b = decode_loop t (Z.to_nat (maximum_length t)) (Z.of_nat 0 + 1) (code_bits b 0) (skip b (Z.of_nat 0)).
Proof. intros Hb. change (Z.of_nat 0) with 0. rewrite (skip_0 b Hb). done. Qed.

Lemma decode_symbol_runs b :
  wf b ->
  runs (decode_symbol t b) (fun '(x, b') =>
    exists s k, x = Z.of_nat s /\ coded lengths b s k /\ b' = skip b (Z.of_nat k)).
Proof using Ht.
  intros Hb. rewrite decode_symbol_start by done. pose proof (proj1 (tree_maximum _ _ Ht)).
  apply decode_loop_runs; [done|lia|]. destruct Hb as (_ & _ & Hb). unfold left. lia.
Qed.

Lemma decode_symbol_coded b s k :
  wf b -> coded lengths b s k -> decode_symbol t b = Ok (Z.of_nat s, skip b (Z.of_nat k)).
Proof using Ht.
  intros Hb Hc. rewrite decode_symbol_start by done. pose proof (proj1 (tree_maximum _ _ Ht)).
  apply decode_loop_coded; [done|lia|done|]. by destruct Hc as (_ & ? & _).
Qed.

(** What the callers use: progress and the range of the symbol. *)
Lemma decode_symbol_progress b :
  wf b ->
  runs (decode_symbol t b) (fun '(x, b') =>
    0 <= x < len lengths /\ wf b' /\ input b' = input b /\ left b' < left b).
Proof using Ht.
  intros Hb. eapply runs_mono; [by apply decode_symbol_runs|].
  intros [x b'] _ (s & k & -> & (Hs & Hk & Hl & _) & ->).
  apply lookup_lt_Some in Hs. rewrite left_skip. split_and!; try done; try lia.
  - unfold len. lia.
  - apply wf_skip; [done|lia].
Qed.
End tree.
End Canonical.

(** ** Properties *)
Import BitsFacts Tables Canonical.

(** A Huffman tree that [Huffman::new] accepts decodes exactly the canonical
    prefix code of its lengths: reading a symbol succeeds with [x] if and only if
    the next bits are the canonical code of [x], and it consumes just these bits.
    The code's own arrays (counts, first codes, offsets, symbols) are proved to
    implement the declarative code, with no index out of range and no overflow
    of the 16-bit codes. *)
Theorem huffman_decodes_canonical lengths alphabet t b x b' :
  Forall (fun l => 0 <= l) lengths -> huffman_new lengths alphabet = Ok t -> wf b ->
  decode_symbol t b = Ok (x, b') <->
  exists s k, x = Z.of_nat s /\ coded lengths b s k /\ b' = skip b (Z.of_nat k).
Proof.
  intros HF Hn Hb. pose proof (runs_ok _ _ _ (huffman_new_runs lengths alphabet HF) Hn) as Ht. split.
  - intros Hd. exact (runs_ok _ _ _ (decode_symbol_runs lengths t Ht b Hb) Hd).
  - intros (s & k & -> & Hc & ->). by apply (decode_symbol_coded lengths t Ht).
Qed.

Lemma huffman_decodes_canonical_witness :
  exists t, huffman_new [2; 1; 3; 3] Literals = Ok t /\
  decode_symbol t (mkBits [x0b] 0 0) = Ok (2, mkBits [x0b] 0 3) /\
  exists s k, 2 = Z.of_nat s /\ coded [2; 1; 3; 3] (mkBits [x0b] 0 0) s k /\
    mkBits [x0b] 0 3 = skip (mkBits [x0b] 0 0) (Z.of_nat k).
Proof.
  eexists. split; [vm_compute; reflexivity|]. split; [vm_compute; reflexivity|].
  eapply (huffman_decodes_canonical [2; 1; 3; 3] Literals _ (mkBits [x0b] 0 0) 2 (mkBits [x0b] 0 3)).
  - repeat constructor; lia.
  - vm_compute; reflexivity.
  - unfold wf, pos, size, len. cbn. lia.
  - vm_compute; reflexivity.
Defined.
