(* ===== verification/GzipFacts.v ===== *)
(** * Theorems on gzip decoding

    [Crc] proves the table-driven CRC equal to the bitwise one, [Ring] that the
    ring of history and the chunk buffer implement the plain list of decoded
    bytes, and [Members] carries this to the whole decoder: the consumer is fed
    exactly the bytes that a decoder over lists returns. *)

From S2P Require Import Prelude CborFacts SourceRows Gzip HuffmanFacts.

(** ** CRC-32 *)
Module Crc.

(** The definition of the CRC: eight shifts per byte. *)
Definition crc_byte_spec (crc : Z) (b : byte) : Z := iterate 8 crc_bit (Z.lxor crc (bZ b)).
Definition crc32_spec (bytes : list byte) : Z := not_u32 (fold_left crc_byte_spec bytes u32_max).

Definition poly (v : Z) : Z := if Z.odd v then 0xedb88320 else 0.

Lemma crc_bit_poly v : crc_bit v = Z.lxor (Z.shiftr v 1) (poly v).
Proof.
  unfold crc_bit, poly. f_equal. change (Z.land v 1) with (Z.land v (Z.ones 1)).
  rewrite Z.land_ones by lia. change (2 ^ 1) with 2. rewrite Zmod_odd. by destruct (Z.odd v).
Qed.

Lemma odd_lxor a b : Z.odd (Z.lxor a b) = xorb (Z.odd a) (Z.odd b).
Proof. by rewrite <- !Z.bit0_odd, Z.lxor_spec. Qed.

Lemma crc_bit_linear a b : crc_bit (Z.lxor a b) = Z.lxor (crc_bit a) (crc_bit b).
Proof.
  rewrite !crc_bit_poly, Z.shiftr_lxor. unfold poly. rewrite odd_lxor.
  apply Z.bits_inj'. intros n _. rewrite !Z.lxor_spec.
  destruct (Z.odd a), (Z.odd b); cbn [xorb]; rewrite ?Z.bits_0;
    destruct (Z.testbit (Z.shiftr a 1) n), (Z.testbit (Z.shiftr b 1) n), (Z.testbit 0xedb88320 n); reflexivity.
Qed.

Lemma iterate_linear n a b :
  iterate n crc_bit (Z.lxor a b) = Z.lxor (iterate n crc_bit a) (iterate n crc_bit b).
Proof. revert a b. induction n as [|n IH]; intros a b; cbn [iterate]; [done|]. by rewrite crc_bit_linear, IH. Qed.

Lemma crc_bit_even h k : 0 <= k -> crc_bit (Z.shiftl h (k + 1)) = Z.shiftl h k.
Proof.
  intros Hk. rewrite crc_bit_poly. unfold poly.
  rewrite <- Z.bit0_odd, Z.shiftl_spec_low by lia. rewrite Z.lxor_0_r, Z.shiftr_shiftl_l by lia.
  f_equal. lia.
Qed.

Lemma iterate_shift n h : iterate n crc_bit (Z.shiftl h (Z.of_nat n)) = h.
Proof.
  induction n as [|n IH]; [apply Z.shiftl_0_r|]. cbn [iterate].
  replace (Z.of_nat (S n)) with (Z.of_nat n + 1) by lia. by rewrite crc_bit_even, IH by lia.
Qed.

Lemma table_entry i : (i < 256)%nat -> nth i CRC 0 = iterate 8 crc_bit (Z.of_nat i).
Proof.
  intros Hi. replace CRC with crc_table by (vm_compute; reflexivity). unfold crc_table.
  rewrite (nth_indep _ 0 (iterate 8 crc_bit (Z.of_nat 0))) by (rewrite length_map, length_seq; lia).
  rewrite (map_nth (fun i => iterate 8 crc_bit (Z.of_nat i))), seq_nth by lia. done.
Qed.

Lemma split_byte x : x = Z.lxor (Z.shiftl (Z.shiftr x 8) 8) (Z.land x 255).
Proof.
  apply Z.bits_inj'. intros n Hn. rewrite Z.lxor_spec, Z.land_spec.
  change 255 with (Z.ones 8). rewrite Z.testbit_ones_nonneg by lia.
  destruct (Z.ltb_spec n 8).
  - by rewrite Z.shiftl_spec_low, andb_true_r by lia.
  - rewrite Z.shiftl_spec_high, Z.shiftr_spec by lia. rewrite andb_false_r, xorb_false_r.
    f_equal. lia.
Qed.

Lemma high_byte crc b : Z.shiftr (Z.lxor crc (bZ b)) 8 = Z.shiftr crc 8.
Proof.
  rewrite Z.shiftr_lxor, (Z.shiftr_div_pow2 (bZ b)) by lia. pose proof (bZ_range b).
  rewrite Z.div_small by (change (2 ^ 8) with 256; lia). by rewrite Z.lxor_0_r.
Qed.

Lemma crc_byte_eq crc b : crc_byte crc b = crc_byte_spec crc b.
Proof.
  unfold crc_byte, crc_byte_spec. set (x := Z.lxor crc (bZ b)).
  assert (0 <= Z.land x 255 < 256) as Hr.
  { change 255 with (Z.ones 8). rewrite Z.land_ones by lia. by apply Z.mod_pos_bound. }
  rewrite table_entry, Z2Nat.id by lia.
  rewrite (split_byte x) at 2. rewrite iterate_linear. f_equal.
  rewrite (iterate_shift 8). unfold x. by rewrite high_byte.
Qed.
End Crc.

(** ** The output as a list *)
Module Ring.
Import Tables.

(** The bytes of the members before, and of the current one. *)
Record Stream : Set := mkStream {
  limit : Z;
  past : list byte;
  cur : list byte
}.
Definition stream_emit (a : Stream) (b : byte) : capture Stream :=
  throw_if limit a <=? len (past a) + len (cur a) with Error Limit ;;
  Ok (mkStream (limit a) (past a) (cur a ++ [b])).

(** LZ77: each byte is the one [distance] places back, which may be one that
    this very copy has written. *)
Fixpoint lz_copy (n : nat) (distance : Z) (cur : list byte) : list byte :=
  match n with
  | O => cur
  | S n => lz_copy n distance (cur ++ [nth (Z.to_nat (len cur - distance)) cur x00])
  end.
Definition stream_copy (a : Stream) (distance length : Z) : capture Stream :=
  throw_if (distance =? 0) || (HISTORY <? distance) || (len (cur a) <? distance)
    with Error Malformed ;;
  throw_if limit a - (len (past a) + len (cur a)) <? length with Error Limit ;;
  Ok (mkStream (limit a) (past a) (lz_copy (Z.to_nat length) distance (cur a))).

Definition stream_ops : OutputOps Stream := {|
  emit := stream_emit;
  copy := stream_copy;
  room a := limit a - (len (past a) + len (cur a))
|}.

Section ring.
Context {C : Type} (consume : C -> list byte -> capture C) (s0 : C) (max0 : Z).

Record implements (o : Output C) (a : Stream) : Prop := {
  im_total : total o = len (past a) + len (cur a);
  im_member : member_bytes o = len (cur a);
  im_maximum : maximum o = limit a;
  im_limit : total o <= limit a /\ limit a = max0;
  im_crc : crc o = fold_left crc_byte (cur a) u32_max;
  im_history : len (history o) = HISTORY /\
    forall i, 0 <= i < len (cur a) -> len (cur a) - HISTORY <= i ->
      history o !! Z.to_nat (i mod HISTORY) = cur a !! Z.to_nat i;
  im_pending : len (pending o) = CHUNK /\ 0 <= pending_len o < CHUNK;
  im_consumed : exists chunks,
    res_fold consume chunks s0 = Ok (consumer o) /\
    Forall (fun c => 1 <= len c <= CHUNK) chunks /\
    concat chunks ++ firstn (Z.to_nat (pending_len o)) (pending o) = past a ++ cur a
}.

Lemma len_insert {A} (l : list A) i v : len (<[i := v]> l) = len l.
Proof. unfold len. by rewrite length_insert. Qed.

Lemma res_fold_snoc {E A S} (f : S -> A -> result E S) l a s s1 :
  res_fold f l s = Ok s1 -> res_fold f (l ++ [a]) s = f s1 a.
Proof. intros H. rewrite res_fold_app, H. cbn. by destruct (f s1 a). Qed.

(** Flushing hands the pending bytes to the consumer. *)
Lemma flush_spec (o o' : Output C) chunks all :
  len (pending o) = CHUNK -> 0 <= pending_len o <= CHUNK ->
  res_fold consume chunks s0 = Ok (consumer o) ->
  Forall (fun c => 1 <= len c <= CHUNK) chunks ->
  concat chunks ++ firstn (Z.to_nat (pending_len o)) (pending o) = all ->
  flush consume o = Ok o' ->
  (history o', total o', member_bytes o', maximum o', crc o', len (pending o'), pending_len o')
    = (history o, total o, member_bytes o, maximum o, crc o, CHUNK, 0) /\
  exists chunks', res_fold consume chunks' s0 = Ok (consumer o') /\
    Forall (fun c => 1 <= len c <= CHUNK) chunks' /\ concat chunks' = all.
Proof.
  intros Hp Hl Hf Hc Ha H. unfold flush in H. destruct (Z.eqb_spec (pending_len o) 0) as [E|E].
  - injection H as <-. rewrite E in *. cbn [Z.to_nat firstn] in Ha. rewrite app_nil_r in Ha.
    split; [by rewrite Hp|]. by exists chunks.
  - apply bind_ok in H as (chunk & Hk%ok_or_ok & H). apply bind_ok in H as (s & Hs & [= <-]). cbn.
    split; [by rewrite Hp|].
    apply get_range_Some in Hk as (_ & _ & ->). rewrite Z.sub_0_r in Hs. cbn [drop Z.to_nat] in Hs.
    exists (chunks ++ [firstn (Z.to_nat (pending_len o)) (pending o)]). split_and!.
    + rewrite (res_fold_snoc _ _ _ _ _ Hf). exact Hs.
    + apply Forall_app. split; [done|]. repeat constructor; rewrite len_take by lia; unfold CHUNK in *; lia.
    + rewrite concat_app. cbn. by rewrite app_nil_r.
Qed.

Lemma mod_ring_ne i n : 0 <= i < n -> n + 1 - HISTORY <= i -> i mod HISTORY <> n mod HISTORY.
Proof. unfold HISTORY. intros H1 H2 E. zmod. Qed.

(** The state of the ring after one more byte. *)
Lemma emit_step (o : Output C) a b o' :
  implements o a -> output_emit consume o b = Ok o' ->
  exists a', stream_emit a b = Ok a' /\ implements o' a'.
Proof.
  intros [I1 I2 I3 I3' I4 [I5 I6] [I7 I8] (chunks & I9 & I10 & I11)] H.
  unfold output_emit in H. apply guard_ok in H as [Hm%Z.leb_gt H].
  apply bind_ok in H as (hist & Hh & H). apply bind_ok in H as (pend & Hp & H).
  apply set_index_spec in Hh as [_ ->], Hp as [_ ->]. unfold stream_emit.
  exists (mkStream (limit a) (past a) (cur a ++ [b])). split.
  { rewrite (proj2 (Z.leb_gt _ _)) by lia. done. }
  set (o1 := mkOutput _ _ _ _ _ _ _ _) in H.
  assert (firstn (Z.to_nat (pending_len o + 1)) (<[Z.to_nat (pending_len o) := b]> (pending o))
          = firstn (Z.to_nat (pending_len o)) (pending o) ++ [b]) as Hpend.
  { replace (Z.to_nat (pending_len o + 1)) with (S (Z.to_nat (pending_len o))) by lia.
    rewrite (take_S_r _ _ b).
    - by rewrite take_insert_ge by lia.
    - apply list_lookup_insert_eq. unfold len in I7. lia. }
  assert (forall i, 0 <= i < len (cur a ++ [b]) -> len (cur a ++ [b]) - HISTORY <= i ->
    <[Z.to_nat (member_bytes o mod HISTORY) := b]> (history o) !! Z.to_nat (i mod HISTORY)
      = (cur a ++ [b]) !! Z.to_nat i) as Hhist.
  { intros i Hi Hw. assert (len (cur a ++ [b]) = len (cur a) + 1) as El by (rewrite len_app, len_cons, len_nil; lia).
    rewrite El in Hi. rewrite El in Hw. rewrite I2.
    assert (0 <= len (cur a) mod HISTORY < HISTORY) by (apply Z.mod_pos_bound; unfold HISTORY; lia).
    assert (0 <= i mod HISTORY < HISTORY) by (apply Z.mod_pos_bound; unfold HISTORY; lia).
    destruct (decide (i = len (cur a))) as [->|Hne].
    - rewrite list_lookup_insert_eq by (apply Nat2Z.inj_lt; rewrite Z2Nat.id by lia; fold (len (history o)); lia).
      unfold len. rewrite Nat2Z.id, lookup_app_r, Nat.sub_diag by done. done.
    - rewrite list_lookup_insert_ne.
      + rewrite I6 by lia. rewrite lookup_app_l; [done|]. unfold len in *. lia.
      + intros E. apply (mod_ring_ne i (len (cur a))); [lia|lia|]. lia. }
  assert (concat chunks ++ firstn (Z.to_nat (pending_len o1)) (pending o1) = past a ++ cur a ++ [b]) as Hall.
  { unfold o1; cbn [pending pending_len]. by rewrite Hpend, app_assoc, I11, app_assoc. }
  assert (len (pending o1) = CHUNK) as Hlp by (unfold o1; cbn [pending]; by rewrite len_insert).
  assert (len (history o1) = HISTORY) as Hlh by (unfold o1; cbn [history]; by rewrite len_insert).
  cbn zeta in H. destruct (Z.eqb_spec (pending_len o1) CHUNK) as [E|E].
  - eapply (flush_spec o1 o' chunks) in H as (Heq & chunks' & F1 & F2 & F3); [|done|lia|exact I9|done|exact Hall].
    unfold o1 in Heq; cbn in Heq. injection Heq as E1 E2 E3 E4 E5 E6 E7.
    split; cbn [limit past cur]; rewrite ?E1, ?E2, ?E3, ?E4, ?E5, ?E6, ?E7, ?len_app, ?len_cons, ?len_nil;
      try lia; try done.
    + by rewrite fold_left_app, I4.
    + split; [by rewrite len_insert|]. intros i Hi Hw. apply Hhist; rewrite len_app, len_cons; lia.
    + exists chunks'. cbn [Z.to_nat firstn]. by rewrite app_nil_r.
  - injection H as <-. unfold o1 in *. cbn [pending pending_len] in *.
    split; cbn [limit past cur total member_bytes maximum crc history pending pending_len consumer];
      rewrite ?len_app, ?len_cons, ?len_nil; try lia; try done.
    + by rewrite fold_left_app, I4.
    + split; [done|]. intros i Hi Hw. apply Hhist; rewrite len_app, len_cons; lia.
    + exists chunks. done.
Qed.

(** The byte a copy reads from the ring is the one [distance] places back. *)
Lemma ring_lookup (o : Output C) a d :
  implements o a -> 0 < d <= HISTORY -> d <= len (cur a) ->
  at_index (history o) ((member_bytes o - d) mod HISTORY) = Ok (nth (Z.to_nat (len (cur a) - d)) (cur a) x00).
Proof.
  intros I Hd Hl. destruct I as [_ I2 _ _ _ [_ I6] _ _]. unfold at_index. rewrite I2.
  assert (0 <= (len (cur a) - d) mod HISTORY) by (apply Z.mod_pos_bound; unfold HISTORY; lia).
  rewrite (proj2 (Z.ltb_ge _ _)) by lia. rewrite I6 by lia.
  destruct (cur a !! Z.to_nat (len (cur a) - d)) as [x|] eqn:E.
  - cbn. f_equal. symmetry. by apply nth_lookup_Some.
  - apply lookup_ge_None in E. unfold len in *. lia.
Qed.

Lemma copy_loop_step n d (o : Output C) a o' :
  implements o a -> 0 < d <= HISTORY -> d <= len (cur a) -> copy_loop consume n d o = Ok o' ->
  implements o' (mkStream (limit a) (past a) (lz_copy n d (cur a))).
Proof.
  revert o a. induction n as [|n IH]; intros o a I Hd Hl H; cbn [copy_loop lz_copy] in *.
  - injection H as <-. by destruct a.
  - rewrite (ring_lookup o a d I Hd Hl) in H. cbn [res_bind] in H.
    apply bind_ok in H as (o1 & He & H). apply (emit_step _ _ _ _ I) in He as (a' & Ha & I').
    apply guard_ok in Ha as [_ [= <-]]. apply (IH o1 _ I') in H; [exact H|done|].
    cbn [cur]. rewrite len_app, len_cons, len_nil. lia.
Qed.

Lemma copy_step (o : Output C) a d l o' :
  implements o a -> 0 <= d -> output_copy consume o d l = Ok o' ->
  exists a', stream_copy a d l = Ok a' /\ implements o' a'.
Proof.
  intros I Hd H. pose proof I as [I1 I2 I3 _ _ _ _ _]. unfold output_copy in H. unfold stream_copy.
  rewrite I2, I3, I1 in H. apply guard_ok in H as [H1 H]. apply guard_ok in H as [H2 H].
  rewrite H1, H2. bool_to_prop. eexists. split; [done|]. eapply copy_loop_step; (done || lia).
Qed.

(** With a consumer that accepts everything the ring does whatever the list does. *)
Hypothesis Htotal : forall s c, exists s', consume s c = Ok s'.

Lemma emit_total (o : Output C) a b a' :
  implements o a -> stream_emit a b = Ok a' ->
  exists o', output_emit consume o b = Ok o' /\ implements o' a'.
Proof using All.
  intros I Ha. pose proof I as [I1 I2 I3 _ _ [I5 _] [I7 I8] _].
  unfold stream_emit in Ha. apply guard_ok in Ha as [Hm [= <-]].
  enough (exists o', output_emit consume o b = Ok o') as [o' Ho].
  { exists o'. split; [done|]. apply (emit_step _ _ _ _ I) in Ho as (a' & Ha & I').
    apply guard_ok in Ha as [_ [= <-]]. exact I'. }
  unfold output_emit. rewrite I3, I1, Hm, I2.
  assert (0 <= len (cur a) mod HISTORY < HISTORY) by (apply Z.mod_pos_bound; unfold HISTORY; lia).
  rewrite (proj2 (set_index_spec (history o) _ b _)) by (split; [lia|reflexivity]). cbn [res_bind].
  rewrite (proj2 (set_index_spec (pending o) _ b _)) by (split; [lia|reflexivity]). cbn [res_bind].
  destruct (_ =? CHUNK) eqn:E; [|eauto]. cbn [pending_len] in E. apply Z.eqb_eq in E.
  unfold flush. cbn [pending_len pending consumer]. rewrite (proj2 (Z.eqb_neq _ _)) by lia.
  destruct (get_range _ _ _) as [chunk|] eqn:G.
  - cbn [ok_or res_bind]. destruct (Htotal (consumer o) chunk) as [s' ->]. cbn [res_bind]. eauto.
  - unfold get_range in G. rewrite len_insert, I7, E in G. done.
Qed.

Lemma copy_loop_total n d (o : Output C) a :
  implements o a -> 0 < d <= HISTORY -> d <= len (cur a) ->
  Z.of_nat n <= limit a - (len (past a) + len (cur a)) -> exists o', copy_loop consume n d o = Ok o'.
Proof using All.
  revert o a. induction n as [|n IH]; intros o a I Hd Hl Hn; cbn [copy_loop]; [eauto|].
  rewrite (ring_lookup o a d I Hd Hl). cbn [res_bind].
  destruct (emit_total o a (nth (Z.to_nat (len (cur a) - d)) (cur a) x00)
              (mkStream (limit a) (past a) (cur a ++ [nth (Z.to_nat (len (cur a) - d)) (cur a) x00])) I)
    as (o1 & -> & I1).
  { unfold stream_emit. by rewrite (proj2 (Z.leb_gt _ _)) by lia. }
  cbn [res_bind]. eapply IH; [exact I1|done|..]; cbn [cur past limit]; rewrite len_app, len_cons, len_nil; lia.
Qed.

Lemma copy_total (o : Output C) a d l a' :
  implements o a -> 0 <= d -> stream_copy a d l = Ok a' ->
  exists o', output_copy consume o d l = Ok o' /\ implements o' a'.
Proof using All.
  intros I Hd Ha. pose proof I as [I1 I2 I3 I3' _ _ _ _].
  unfold stream_copy in Ha. unfold output_copy. rewrite I2, I3, I1.
  apply guard_ok in Ha as [H1 Ha]. apply guard_ok in Ha as [H2 [= <-]].
  rewrite H1, H2. bool_to_prop.
  destruct (copy_loop_total (Z.to_nat l) d o a I) as [o' Ho]; [lia|lia|lia|].
  exists o'. split; [done|]. eapply copy_loop_step; (done || lia).
Qed.
End ring.
End Ring.
Import Ring.

(** ** Inflating against two related outputs *)
Module Simulate.
Section simulate.
Context {O1 O2 : Type} (ops1 : OutputOps O1) (ops2 : OutputOps O2) (R : O1 -> O2 -> Prop).
Hypothesis emit_sim : forall o a b o', R o a -> emit o b = Ok o' ->
  exists a', emit a b = Ok a' /\ R o' a'.
Hypothesis copy_sim : forall o a d l o', R o a -> 0 <= d -> copy o d l = Ok o' ->
  exists a', copy a d l = Ok a' /\ R o' a'.
Hypothesis room_sim : forall o a, R o a -> room o = room a.

Lemma emit_all_sim bs o a o' : R o a -> emit_all o bs = Ok o' ->
  exists a', emit_all a bs = Ok a' /\ R o' a'.
Proof using emit_sim.
  revert o a. induction bs as [|b bs IH]; intros o a HR H; unfold emit_all in *; cbn [res_fold] in *.
  - injection H as <-. eauto.
  - apply bind_ok in H as (o1 & He & H). destruct (emit_sim _ _ _ _ HR He) as (a1 & Ha & HR1).
    destruct (IH o1 a1 HR1 H) as (a' & Ha' & HR'). exists a'. split; [|done].
    ok_bind (exact Ha). exact Ha'.
Qed.

Lemma stored_sim b o a b' o' : R o a -> stored_block b o = Ok (b', o') ->
  exists a', stored_block b a = Ok (b', a') /\ R o' a'.
Proof using emit_sim room_sim.
  intros HR H. unfold stored_block in *.
  apply bind_ok in H as ([length b1] & H1 & H). apply bind_ok in H as ([complement b2] & H2 & H).
  apply guard_ok in H as [G1 H]. apply guard_ok in H as [G2 H]. rewrite (room_sim _ _ HR) in G2.
  apply bind_ok in H as ([bytes b3] & H3 & H). apply bind_ok in H as (o1 & He & [= <- <-]).
  destruct (emit_all_sim _ _ _ _ HR He) as (a1 & Ha & HR1). exists a1. split; [|done].
  ok_bind (exact H1). ok_bind (exact H2). ok_guard (exact G1). ok_guard (exact G2).
  ok_bind (exact H3). ok_bind (exact Ha). done.
Qed.

Lemma read_loop_nonneg n shift v b x b' :
  0 <= v -> read_loop n shift v b = Ok (x, b') -> 0 <= x.
Proof.
  revert shift v b. induction n as [|n IH]; intros shift v b Hv H; cbn [read_loop] in H.
  - by injection H as <- <-.
  - apply bind_ok in H as (byte & _ & H). eapply IH; [|exact H].
    apply Z.lor_nonneg. split; [done|]. apply Z.shiftl_nonneg, Z.land_nonneg. by right.
Qed.

Lemma at_index_In {A} (l : list A) i v : at_index l i = Ok v -> v ∈ l.
Proof.
  unfold at_index. destruct (_ <? _); [discriminate|]. intros H%ok_or_ok. by eapply list_elem_of_lookup_2.
Qed.

Lemma read_match_distance t code b length distance b' :
  read_match t code b = Ok (length, distance, b') -> 0 <= distance.
Proof.
  intros H. unfold read_match in H. repeat (ok_inv_step || match goal with x : _ * _ |- _ => destruct x end).
  repeat match goal with E : read _ _ = Ok (_, _) |- _ => apply read_loop_nonneg in E; [|lia] end.
  match goal with E : at_index DISTANCE_BASE _ = Ok ?v |- _ => apply at_index_In in E;
    assert (Forall (fun v => 0 <= v) DISTANCE_BASE) as HF by (unfold DISTANCE_BASE; repeat constructor; lia);
    rewrite Forall_forall in HF; apply HF in E end.
  lia.
Qed.

Lemma symbol_sim fuel lt dt b o a b' o' : R o a -> symbol_loop fuel lt dt b o = Ok (b', o') ->
  exists a', symbol_loop fuel lt dt b a = Ok (b', a') /\ R o' a'.
Proof using emit_sim copy_sim.
  revert b o a. induction fuel as [|fuel IH]; intros b o a HR H; [discriminate|].
  cbn [symbol_loop] in H |- *. apply bind_ok in H as ([code b1] & Hd & H).
  enough (exists a', (if code <=? 255 then
        let? o := emit a (byte_of_Z code) in symbol_loop fuel lt dt b1 o
      else if code =? 256 then Ok (b1, a)
      else if code <=? 285 then
        let? (length, distance, b) := read_match dt code b1 in
        let? o := copy a distance length in symbol_loop fuel lt dt b o
      else Err (Error Malformed)) = Ok (b', a') /\ R o' a') as (a' & Ha' & HR').
  { exists a'. split; [|done]. ok_bind (exact Hd). exact Ha'. }
  destruct (code <=? 255).
  { apply bind_ok in H as (o1 & He & H). destruct (emit_sim _ _ _ _ HR He) as (a1 & Ha & HR1).
    destruct (IH _ _ _ HR1 H) as (a' & Ha' & HR'). exists a'. split; [|done].
    ok_bind (exact Ha). exact Ha'. }
  destruct (code =? 256); [injection H as <- <-; eauto|]. destruct (code <=? 285); [|discriminate].
  apply bind_ok in H as ([[length distance] b2] & Em & H). pose proof (read_match_distance _ _ _ _ _ _ Em) as Hdist.
  apply bind_ok in H as (o1 & Hc & H).
  destruct (copy_sim _ _ _ _ _ HR Hdist Hc) as (a1 & Ha & HR1).
  destruct (IH _ _ _ HR1 H) as (a' & Ha' & HR'). exists a'. split; [|done].
  ok_bind (exact Em). ok_bind (exact Ha). exact Ha'.
Qed.

Lemma block_sim b kind o a b' o' : R o a -> block b kind o = Ok (b', o') ->
  exists a', block b kind a = Ok (b', a') /\ R o' a'.
Proof using emit_sim copy_sim room_sim.
  intros HR H. unfold block in *. destruct (kind =? 0); [by apply (stored_sim b o)|].
  destruct (_ || _); [|discriminate].
  apply bind_ok in H as ([[lt dt] b1] & Ht & H).
  destruct (symbol_sim _ _ _ _ _ _ _ _ HR H) as (a' & Ha' & HR'). exists a'. split; [|done].
  ok_bind (exact Ht). exact Ha'.
Qed.

Lemma inflate_sim fuel b o a b' o' : R o a -> inflate_loop fuel b o = Ok (b', o') ->
  exists a', inflate_loop fuel b a = Ok (b', a') /\ R o' a'.
Proof using emit_sim copy_sim room_sim.
  revert b o a. induction fuel as [|fuel IH]; intros b o a HR H; [discriminate|].
  cbn [inflate_loop] in H |- *.
  apply bind_ok in H as ([last b1] & H1 & H). apply bind_ok in H as ([kind b2] & H2 & H).
  apply bind_ok in H as ([b3 o1] & Hb & H). destruct (block_sim _ _ _ _ _ _ HR Hb) as (a1 & Ha & HR1).
  enough (exists a', (if negb (last =? 0) then Ok (align b3, a1) else inflate_loop fuel b3 a1) = Ok (b', a')
                     /\ R o' a') as (a' & Ha' & HR').
  { exists a'. split; [|done]. ok_bind (exact H1). ok_bind (exact H2). ok_bind (exact Ha). exact Ha'. }
  destruct (negb _); [injection H as <- <-; eauto|by apply (IH b3 o1)].
Qed.
End simulate.
End Simulate.
Import Simulate.

(** ** Members and streams *)
Module Members.

(** The decoder over lists of bytes, with the bitwise CRC. *)
Definition spec_member (b : Bits) (a : Stream) : capture (Bits * Stream) :=
  let? b := member_header b in
  let? (b, a) := inflate (H := stream_ops) b (mkStream (limit a) (past a ++ cur a) []) in
  let? (trailer, b) := take_bytes b 8 in
  throw_if negb (le_value (firstn 4 trailer) =? Crc.crc32_spec (cur a))
           || negb (le_value (skipn 4 trailer) =? len (cur a) mod 2 ^ 32)
    with Error Integrity ;;
  Ok (b, a).
Fixpoint spec_loop (fuel : nat) (members : Z) (b : Bits) (a : Stream) : capture Stream :=
  if byte_at b <? len (input b) then
    throw_if members =? MAX_MEMBERS with Error Limit ;;
    match fuel with
    | O => Err OutOfFuel
    | S fuel =>
        let? (b, a) := spec_member b a in
        spec_loop fuel (members + 1) b a
    end
  else Ok a.
Definition spec_decode (input : list byte) (maximum : Z) : capture (list byte) :=
  throw_if len input =? 0 with Error Malformed ;;
  let? a := spec_loop (Z.to_nat MAX_MEMBERS) 0 (mkBits input 0 0) (mkStream maximum [] []) in
  Ok (past a ++ cur a).

Lemma fold_left_ext {A B} (f g : A -> B -> A) l a :
  (forall a b, f a b = g a b) -> fold_left f l a = fold_left g l a.
Proof. intros H. revert a. induction l as [|b l IH]; intros a; cbn [fold_left]; [done|]. by rewrite H, IH. Qed.

Lemma crc_fold bs c : fold_left crc_byte bs c = fold_left Crc.crc_byte_spec bs c.
Proof. exact (fold_left_ext _ _ bs c Crc.crc_byte_eq). Qed.

Lemma crc32_spec_eq bs : not_u32 (fold_left crc_byte bs u32_max) = Crc.crc32_spec bs.
Proof. unfold Crc.crc32_spec. by rewrite crc_fold. Qed.

Section members.
Context {C : Type} (consume : C -> list byte -> capture C) (s0 : C) (max0 : Z).
Abbreviation impl := (implements consume s0 max0).

Lemma start_implements o a :
  impl o a -> impl (start_member o) (mkStream (limit a) (past a ++ cur a) []).
Proof.
  intros [I1 I2 I3 I3' I4 [I5 I6] I7 (chunks & I8 & I9 & I10)].
  split; cbn; rewrite ?len_app, ?len_nil; try done; try lia.
  - split; [done|]. intros i [Hi0 Hi]. unfold len in Hi. cbn in Hi. lia.
  - exists chunks. by rewrite app_nil_r.
Qed.

Lemma flush_implements o a o' :
  impl o a -> flush consume o = Ok o' -> impl o' a /\ pending_len o' = 0.
Proof.
  intros [I1 I2 I3 I3' I4 [I5 I6] [I7 I8] (chunks & I9 & I10 & I11)] H.
  eapply (flush_spec consume s0 o o' chunks) in H as (Heq & chunks' & F1 & F2 & F3);
    [|done|lia|exact I9|done|exact I11].
  injection Heq as E1 E2 E3 E4 E5 E6 E7. split; [|done].
  split; rewrite ?E1, ?E2, ?E3, ?E4, ?E5, ?E6, ?E7; try done.
  exists chunks'. cbn [Z.to_nat firstn]. by rewrite app_nil_r.
Qed.

Lemma member_sim b o a b' o' :
  impl o a -> member consume b o = Ok (b', o') ->
  exists a', spec_member b a = Ok (b', a') /\ impl o' a' /\ pending_len o' = 0.
Proof.
  intros I H. unfold member in H. unfold spec_member.
  apply bind_ok in H as (b1 & H1 & H). apply bind_ok in H as ([b2 o1] & H2 & H).
  apply bind_ok in H as ([trailer b3] & H3 & H). apply guard_ok in H as [G H].
  apply bind_ok in H as (o2 & H4 & [= <- <-]).
  destruct (inflate_sim (output_ops consume) stream_ops impl (emit_step consume s0 max0) (copy_step consume s0 max0)
              (fun o a I => f_equal2 Z.sub (im_maximum _ _ _ _ _ I) (im_total _ _ _ _ _ I))
              _ _ _ _ _ _ (start_implements o a I) H2) as (a1 & Ha & I1).
  destruct (flush_implements _ _ _ I1 H4) as [I2 Hp]. exists a1. split; [|done].
  rewrite (im_crc _ _ _ _ _ I1), (im_member _ _ _ _ _ I1), crc32_spec_eq in G.
  ok_bind (exact H1). ok_bind (exact Ha). ok_bind (exact H3). ok_guard (exact G). done.
Qed.

Lemma members_sim fuel m b o a o' :
  impl o a -> pending_len o = 0 -> members_loop consume fuel m b o = Ok o' ->
  exists a', spec_loop fuel m b a = Ok a' /\ impl o' a' /\ pending_len o' = 0.
Proof.
  revert m b o a. induction fuel as [|fuel IH]; intros m b o a I Hp H;
    cbn [members_loop spec_loop] in *; (destruct (_ <? _); [|injection H as <-; eauto]);
    (destruct (_ =? _); [discriminate|]); [discriminate|].
  apply bind_ok in H as ([b1 o1] & H1 & H).
  destruct (member_sim _ _ _ _ _ I H1) as (a1 & Ha & I1 & Hp1).
  destruct (IH _ _ _ _ I1 Hp1 H) as (a' & Ha' & I' & Hp'). exists a'. split; [|done].
  ok_bind (exact Ha). exact Ha'.
Qed.

Lemma initial_implements :
  0 <= max0 ->
  impl (mkOutput s0 (replicate (Z.to_nat HISTORY) x00) (replicate (Z.to_nat CHUNK) x00)
          0 0 0 max0 u32_max) (mkStream max0 [] []).
Proof.
  intros Hm. split; cbn [total member_bytes Gzip.maximum crc history pending pending_len consumer limit past cur];
    try done.
  - split; [unfold len; by rewrite length_replicate|]. intros i [Hi0 Hi]. unfold len in Hi. cbn in Hi. lia.
  - exists []. done.
Qed.

Lemma decode_sim input n s :
  0 <= max0 -> decode consume input max0 s0 = Ok (n, s) ->
  exists out chunks, spec_decode input max0 = Ok out /\ concat chunks = out /\
    Forall (fun c => 1 <= len c <= CHUNK) chunks /\ res_fold consume chunks s0 = Ok s /\
    n = len out /\ n <= max0.
Proof.
  intros Hm H. unfold decode in H. apply guard_ok in H as [G H].
  apply bind_ok in H as (o & H & [= <- <-]).
  destruct (members_sim _ _ _ _ _ _ (initial_implements Hm) eq_refl H) as (a & Ha & I & Hp).
  destruct I as [I1 I2 I3 I3' I4 I5 I7 (chunks & I8 & I9 & I10)].
  rewrite Hp in I10. cbn [Z.to_nat firstn] in I10. rewrite app_nil_r in I10.
  exists (past a ++ cur a), chunks. rewrite len_app. split_and!; try done; try lia.
  unfold spec_decode. ok_guard (exact G). ok_bind (exact Ha). done.
Qed.
End members.
End Members.
Import Members.

(** ** No panic, no loop without end *)
Module Safe.
Import BitsFacts Tables Canonical.

(** Progress of a step that leaves the reader well formed. *)
Definition after (b : Bits) (b' : Bits) : Prop := wf b' /\ input b' = input b /\ left b' <= left b.

Lemma after_refl b : wf b -> after b b.
Proof. intros Hb. unfold after. split_and!; (done || lia). Qed.

Lemma after_trans b b1 b2 : after b b1 -> after b1 b2 -> after b b2.
Proof. intros (? & ? & ?) (? & ? & ?). split_and!; (done || lia || congruence). Qed.

Lemma left_nonneg b : wf b -> 0 <= left b.
Proof. intros (_ & _ & H). unfold left. lia. Qed.

Lemma read_after n b : wf b ->
  runs (read b n) (fun '(x, b') => 0 <= x < 2 ^ Z.of_nat n /\ after b b' /\ left b' = left b - Z.of_nat n).
Proof. intros Hb. eapply runs_mono; [by apply read_runs|]. intros [x b'] _ (? & ? & ? & ?). unfold after. split_and!; (done || lia). Qed.

Lemma take_after b n : wf b -> 0 <= n -> runs (take_bytes b n) (fun '(bytes, b') => len bytes = n /\ after b b').
Proof. intros Hb Hn. eapply runs_mono; [by apply take_bytes_runs|]. intros [x b'] _ (? & ? & ? & ? & _). unfold after. split_and!; (done || lia). Qed.

Lemma le_value_nonneg bs : 0 <= le_value bs.
Proof. apply be_value_range. Qed.

Lemma read_code_lengths_runs order lengths b :
  wf b -> Forall (fun i => 0 <= i < 19) order -> len lengths = 19 -> Forall (fun x => 0 <= x) lengths ->
  runs (read_code_lengths order lengths b) (fun '(lengths', b') =>
    len lengths' = 19 /\ Forall (fun x => 0 <= x) lengths' /\ after b b').
Proof.
  intros Hb HF. revert lengths b Hb. induction HF as [|i order Hi HF IH]; intros lengths b Hb Hl Hn; cbn [read_code_lengths].
  - cbn [runs]. split_and!; [done..|by apply after_refl].
  - eapply runs_bind; [by apply read_after|]. intros [x b1] _ (Hx & A & _).
    rewrite set_index_ok by lia. cbn [res_bind].
    eapply runs_mono; [apply IH|].
    + apply A.
    + by rewrite len_insert'.
    + apply Forall_insert; [done|lia].
    + intros [l' b'] _ (? & ? & ?). split_and!; try done. by eapply after_trans.
Qed.

Lemma fill_runs n lengths i v :
  0 <= i -> i + Z.of_nat n <= len lengths -> 0 <= v -> Forall (fun x => 0 <= x) lengths ->
  runs (fill n lengths i v) (fun lengths' => len lengths' = len lengths /\ Forall (fun x => 0 <= x) lengths').
Proof.
  revert lengths i. induction n as [|n IH]; intros lengths i Hi Hl Hv HF; cbn [fill]; [done|].
  rewrite set_index_ok by lia. cbn [res_bind]. eapply runs_mono; [apply IH|].
  - lia.
  - rewrite len_insert'. lia.
  - done.
  - by apply Forall_insert.
  - intros l' _. by rewrite len_insert'.
Qed.

Lemma length_run_runs lengths i code b :
  wf b -> 0 <= i < len lengths -> 0 <= code -> Forall (fun x => 0 <= x) lengths ->
  runs (length_run lengths i code b) (fun '(v, n, b') => 0 <= v /\ 1 <= n /\ after b b').
Proof.
  intros Hb Hi Hc HF. unfold length_run. destruct (code <=? 15).
  { cbn [runs]. split_and!; [done..|by apply after_refl]. }
  destruct (_ && _) eqn:E16.
  { bool_to_prop. rewrite at_index_get by lia. cbn [res_bind].
    eapply runs_bind; [by apply read_after|]. intros [x b1] _ (Hx & A & _). cbn [runs]. split_and!; [|lia|done].
    unfold get. rewrite nth_lookup. destruct (lengths !! _) as [v|] eqn:El; [|done]. by eapply (proj1 (Forall_lookup _ _)) in HF. }
  destruct (code =? 17); [|destruct (code =? 18); [|done]];
    (eapply runs_bind; [by apply read_after|]; intros [x b1] _ (Hx & A & _); cbn [runs]; split_and!; (done || lia)).
Qed.

Lemma run_lengths_runs fuel ls t count lengths i b :
  tree_of ls t -> wf b -> 0 <= i -> count - i <= Z.of_nat fuel -> count <= len lengths ->
  Forall (fun x => 0 <= x) lengths ->
  runs (run_lengths fuel t count lengths i b) (fun '(lengths', b') =>
    len lengths' = len lengths /\ Forall (fun x => 0 <= x) lengths' /\ after b b').
Proof.
  intros Ht. revert lengths i b. induction fuel as [|fuel IH]; intros lengths i b Hb Hi Hf Hc HF; cbn [run_lengths];
    (destruct (Z.ltb_spec i count); [|cbn [runs]; split_and!; [done..|by apply after_refl]]); [lia|].
  eapply runs_bind; [by apply (decode_symbol_progress ls t Ht)|]. intros [code b1] _ (Hx & W1 & I1 & L1).
  eapply runs_bind; [apply length_run_runs; (done || lia)|]. intros [[v n] b2] _ (Hv & Hn & A2).
  apply runs_guard. intros Hr%Z.ltb_ge.
  eapply runs_bind; [apply fill_runs; (done || lia)|]. intros l' _ (Hl' & HF').
  eapply runs_mono; [apply IH; (apply A2 || done || lia)|].
  intros [l'' b'] _ (? & ? & ?). split_and!; [congruence|done|].
  eapply after_trans; [|done]. eapply after_trans; [|done]. unfold after. split_and!; (done || lia).
Qed.

Lemma get_range_nonneg lengths a b s :
  get_range lengths a b = Some s -> Forall (fun x : Z => 0 <= x) lengths -> Forall (fun x => 0 <= x) s.
Proof. intros (_ & _ & ->)%get_range_Some HF. by apply Forall_take, Forall_drop. Qed.

Lemma dynamic_trees_runs b :
  wf b ->
  runs (dynamic_trees b) (fun '(t1, t2, b') =>
    (exists l1, tree_of l1 t1) /\ (exists l2, tree_of l2 t2) /\ after b b').
Proof.
  intros Hb. unfold dynamic_trees.
  eapply runs_bind; [by apply read_after|]. intros [x1 b1] _ (Hx1 & A1 & _).
  eapply runs_bind; [apply read_after, A1|]. intros [x2 b2] _ (Hx2 & A2 & _).
  eapply runs_bind; [apply read_after, A2|]. intros [x3 b3] _ (Hx3 & A3 & _).
  apply runs_guard. intros Hlit%Z.ltb_ge.
  change (2 ^ Z.of_nat 5) with 32 in *. change (2 ^ Z.of_nat 4) with 16 in *.
  eapply runs_bind.
  { apply read_code_lengths_runs; [apply A3| |done|by apply Forall_replicate].
    apply Forall_take. unfold ORDER. repeat constructor; lia. }
  intros [cl b4] _ (Hcl & HFcl & A4).
  eapply runs_bind; [by apply huffman_new_runs|]. intros codes _ Htree.
  eapply runs_bind.
  { eapply run_lengths_runs; [exact Htree|apply A4|lia|lia| |by apply Forall_replicate].
    unfold len. rewrite length_replicate. lia. }
  intros [ls b5] _ (Hls & HFls & A5). unfold len in Hls at 2. rewrite length_replicate in Hls.
  rewrite at_index_get by lia. cbn [res_bind]. apply runs_guard. intros _.
  destruct (get_range ls 0 (x1 + 257)) as [l1|] eqn:G1; cycle 1.
  { unfold get_range in G1. destruct (_ && _) eqn:E; [done|]. apply andb_false_iff in E as [E|E]; bool_to_prop; [|lia].
    apply andb_false_iff in E as [E|E]; bool_to_prop; lia. }
  cbn [ok_or res_bind].
  eapply runs_bind; [apply huffman_new_runs; by eapply get_range_nonneg|]. intros t1 _ Ht1.
  destruct (get_range ls (x1 + 257) (x1 + 257 + (x2 + 1))) as [l2|] eqn:G2; cycle 1.
  { unfold get_range in G2. destruct (_ && _) eqn:E; [done|]. apply andb_false_iff in E as [E|E]; bool_to_prop; [|lia].
    apply andb_false_iff in E as [E|E]; bool_to_prop; lia. }
  cbn [ok_or res_bind].
  eapply runs_bind; [apply huffman_new_runs; by eapply get_range_nonneg|]. intros t2 _ Ht2.
  cbn [runs]. split_and!; [eauto..|]. repeat (eapply after_trans; [eassumption|]). unfold after. destruct A5 as (? & ? & ?).
  split_and!; (done || lia).
Qed.

Lemma fixed_trees_runs : runs fixed_trees (fun '(t1, t2) => (exists l1, tree_of l1 t1) /\ (exists l2, tree_of l2 t2)).
Proof.
  unfold fixed_trees. eapply runs_bind.
  { apply huffman_new_runs. unfold fixed_lengths. rewrite !Forall_app. split_and!; apply Forall_replicate; lia. }
  intros t1 _ H1. eapply runs_bind; [apply huffman_new_runs, Forall_replicate; lia|]. intros t2 _ H2. cbn. eauto.
Qed.

Lemma read_match_runs ls t code b :
  tree_of ls t -> wf b -> 257 <= code <= 285 ->
  runs (read_match t code b) (fun '(length, distance, b') => 0 <= length /\ 0 <= distance /\ after b b').
Proof.
  intros Ht Hb Hc. unfold read_match.
  assert (forall i, 0 <= i < 29 -> 0 <= get LENGTH_BASE i) as HB.
  { intros i Hi. unfold get. rewrite nth_lookup. destruct (LENGTH_BASE !! _) eqn:E; [|done].
    assert (Forall (fun x => 0 <= x) LENGTH_BASE) as HF by (unfold LENGTH_BASE; repeat constructor; lia).
    by eapply (proj1 (Forall_lookup _ _)) in HF. }
  assert (forall i, 0 <= i < 30 -> 0 <= get DISTANCE_BASE i) as HD.
  { intros i Hi. unfold get. rewrite nth_lookup. destruct (DISTANCE_BASE !! _) eqn:E; [|done].
    assert (Forall (fun x => 0 <= x) DISTANCE_BASE) as HF by (unfold DISTANCE_BASE; repeat constructor; lia).
    by eapply (proj1 (Forall_lookup _ _)) in HF. }
  rewrite at_index_get by (change (len LENGTH_BASE) with 29; lia). cbn [res_bind].
  rewrite at_index_get by (change (len LENGTH_EXTRA) with 29; lia). cbn [res_bind].
  eapply runs_bind; [by apply read_after|]. intros [x b1] _ (Hx & A1 & _).
  eapply runs_bind; [apply (decode_symbol_progress ls t Ht), A1|]. intros [d b2] _ (Hd & W2 & I2 & L2).
  apply runs_guard. intros Hd30%Z.leb_gt.
  rewrite at_index_get by (change (len DISTANCE_BASE) with 30; lia). cbn [res_bind].
  rewrite at_index_get by (change (len DISTANCE_EXTRA) with 30; lia). cbn [res_bind].
  eapply runs_bind; [by apply read_after|]. intros [y b3] _ (Hy & A3 & _).
  cbn [runs]. specialize (HB (code - 257) ltac:(lia)). specialize (HD d ltac:(lia)). split_and!; [lia|lia|].
  eapply after_trans; [exact A1|]. eapply after_trans; [|exact A3]. unfold after. split_and!; (done || lia).
Qed.

Section inflate.
Context {Out : Type} (ops : OutputOps Out) (I : Out -> Prop).
Hypothesis emit_runs : forall o b, I o -> runs (emit o b) I.
Hypothesis copy_runs : forall o d l, I o -> 0 <= d -> runs (copy o d l) I.

Definition post (b : Bits) (r : Bits * Out) : Prop := after b r.1 /\ I r.2.

Lemma stored_runs b o : wf b -> I o -> runs (stored_block b o) (post b).
Proof using emit_runs.
  intros Hb HI. unfold stored_block. destruct (align_wf b Hb) as (Wa & Ia & La & _).
  eapply runs_bind; [by apply read_after|]. intros [x1 b1] _ (Hx1 & A1 & _).
  eapply runs_bind; [apply read_after, A1|]. intros [x2 b2] _ (Hx2 & A2 & _).
  apply runs_guard. intros _. apply runs_guard. intros _.
  eapply runs_bind; [apply take_after; [apply A2|lia]|]. intros [bytes b3] _ (_ & A3).
  eapply runs_bind; [apply runs_fold; [by intros; apply emit_runs|done]|]. intros o' _ HI'. split; [|done].
  cbn [fst]. eapply after_trans; [|exact A3]. eapply after_trans; [|exact A2]. eapply after_trans; [|exact A1].
  done.
Qed.

Lemma symbol_loop_runs fuel l1 l2 t1 t2 b o :
  tree_of l1 t1 -> tree_of l2 t2 -> wf b -> left b < Z.of_nat fuel -> I o ->
  runs (symbol_loop fuel t1 t2 b o) (post b).
Proof using emit_runs copy_runs.
  intros Ht1 Ht2. revert b o. induction fuel as [|fuel IH]; intros b o Hb Hf HI.
  { pose proof (left_nonneg b Hb). lia. }
  cbn [symbol_loop]. eapply runs_bind; [by apply (decode_symbol_progress l1 t1 Ht1)|].
  intros [code b1] _ (Hx & W1 & I1 & L1).
  assert (after b b1) as A1 by (unfold after; split_and!; (done || lia)).
  destruct (Z.leb_spec code 255).
  { eapply runs_bind; [by apply emit_runs|]. intros o1 _ HI1. eapply runs_mono; [apply IH; (done || lia)|].
    intros [b' o'] _ [A' HI']. split; [by eapply after_trans|done]. }
  destruct (Z.eqb_spec code 256); [by split|]. destruct (Z.leb_spec code 285); [|done].
  eapply runs_bind; [apply (read_match_runs l2 t2); (done || lia)|]. intros [[length distance] b2] _ (Hl & Hd & A2).
  eapply runs_bind; [by apply copy_runs|]. intros o1 _ HI1.
  eapply runs_mono; [apply IH; [apply A2|destruct A2 as (_ & _ & ?); lia|done]|].
  intros [b' o'] _ [A' HI']. split; [|done]. cbn [fst]. do 2 (eapply after_trans; [eassumption|]). done.
Qed.

Lemma bits_fuel_left b : wf b -> left b < Z.of_nat (bits_fuel b).
Proof.
  intros (H1 & H2 & H3). unfold bits_fuel, left, size, pos. pose proof (len_nonneg (input b)). lia.
Qed.

Lemma block_runs b kind o : wf b -> I o -> runs (block b kind o) (post b).
Proof using emit_runs copy_runs.
  intros Hb HI. unfold block. destruct (kind =? 0); [by apply stored_runs|]. destruct (_ || _); [|done].
  eapply (runs_bind _ _ (fun '(t1, t2, b') => (exists l1, tree_of l1 t1) /\ (exists l2, tree_of l2 t2) /\ after b b')).
  - destruct (kind =? 1); [|by apply dynamic_trees_runs].
    eapply runs_bind; [apply fixed_trees_runs|]. intros [t1 t2] _ (H1 & H2). cbn [runs]. split_and!; [done..|by apply after_refl].
  - intros [[t1 t2] b1] _ ((l1 & H1) & (l2 & H2) & A1).
    eapply runs_mono; [eapply symbol_loop_runs; [done..|apply A1|apply bits_fuel_left, A1|done]|].
    intros [b' o'] _ [A' HI']. split; [by eapply after_trans|done].
Qed.

Lemma inflate_loop_runs fuel b o :
  wf b -> left b < Z.of_nat fuel -> I o -> runs (inflate_loop fuel b o) (post b).
Proof using emit_runs copy_runs.
  revert b o. induction fuel as [|fuel IH]; intros b o Hb Hf HI.
  { pose proof (left_nonneg b Hb). lia. }
  cbn [inflate_loop]. eapply runs_bind; [by apply read_after|]. intros [last b1] _ (_ & A1 & L1).
  eapply runs_bind; [apply read_after, A1|]. intros [kind b2] _ (_ & A2 & L2).
  eapply runs_bind; [apply block_runs; [apply A2|done]|]. intros [b3 o1] _ [A3 HI1]. cbn [fst snd] in *.
  assert (after b b3) as A by (eapply after_trans; [exact A1|]; by eapply after_trans).
  destruct (negb _).
  - cbn [runs]. split; [|done]. cbn [fst]. eapply after_trans; [exact A|].
    destruct (align_wf b3 (proj1 A3)) as (? & ? & ? & _). done.
  - eapply runs_mono; [apply IH; [apply A3| |done]|].
    + destruct A3 as (_ & _ & ?). lia.
    + intros [b' o'] _ [A' HI']. split; [by eapply after_trans|done].
Qed.
End inflate.

Lemma member_header_runs b : wf b -> runs (member_header b) (after b).
Proof.
  intros Hb. unfold member_header.
  eapply runs_bind; [by apply take_after|]. intros [header b1] _ (_ & A1). apply runs_guard. intros _.
  eapply (runs_bind _ _ (after b)).
  { destruct (negb _); [|done]. eapply runs_bind; [apply take_after; [apply A1|lia]|]. intros [l b2] _ (_ & A2).
    eapply runs_bind; [apply take_after; [apply A2|apply le_value_nonneg]|]. intros [x b3] _ (_ & A3). cbn [runs].
    eapply after_trans; [exact A1|]. by eapply after_trans. }
  intros b2 _ A2.
  assert (forall (c : bool) b2, after b b2 -> runs (if c then text b2 else Ok b2) (after b)) as Htext.
  { intros [] b' A'; [|done]. eapply runs_mono; [apply text_loop_runs, A'|].
    intros b'' _ (? & ? & ? & _). by eapply after_trans. }
  eapply runs_bind; [by apply Htext|]. intros b3 _ A3.
  eapply runs_bind; [by apply Htext|]. intros b4 _ A4.
  eapply (runs_bind _ _ (after b)).
  { destruct (negb _); [|done].
    destruct (get_range (input b4) (byte_at b) (byte_at b4)) as [covered|] eqn:G; cycle 1.
    { exfalso. unfold get_range in G. destruct Hb as (B1 & B2 & B3), A4 as ((C1 & C2 & C3) & E & L).
      unfold left, size, pos in *. rewrite E in *.
      rewrite !(proj2 (Z.leb_le _ _)) in G; (done || lia). }
    cbn [ok_or res_bind]. eapply runs_bind; [apply take_after; [apply A4|lia]|]. intros [e b5] _ (_ & A5).
    apply runs_guard. intros _. by eapply after_trans. }
  intros b5 _ A5. apply runs_guard. intros _. done.
Qed.

Section decode.
Context {C : Type} (consume : C -> list byte -> capture C) (s0 : C) (max0 : Z).
(** The consumer handles every chunk in every state that chunks lead to. *)
Hypothesis consume_runs : forall chunks s c,
  res_fold consume chunks s0 = Ok s -> 1 <= len c <= CHUNK -> runs (consume s c) (fun _ => True).
Definition live (o : Output C) : Prop := exists a, implements consume s0 max0 o a.

Lemma flush_runs o : live o -> 0 <= pending_len o ->
  runs (flush consume o) (fun o' => live o').
Proof using consume_runs.
  intros [a Him] Hp. pose proof Him as [I1 I2 I3 I3' I4 I5 [I7 I8] (chunks & I9 & I10 & I11)].
  eapply (runs_mono _ (fun _ => True)).
  - unfold flush. destruct (Z.eqb_spec (pending_len o) 0); [done|].
    destruct (get_range (pending o) 0 (pending_len o)) as [chunk|] eqn:G.
    + cbn [ok_or res_bind]. eapply runs_bind; [|done]. eapply consume_runs; [exact I9|].
      apply get_range_length in G. lia.
    + unfold get_range in G. rewrite !(proj2 (Z.leb_le _ _)) in G by lia. done.
  - intros o' Ho' _. destruct (flush_implements _ _ _ _ _ _ Him Ho') as [H _]. by exists a.
Qed.

Lemma output_emit_runs o b : live o -> runs (output_emit consume o b) live.
Proof using consume_runs.
  intros [a Him]. pose proof Him as [I1 I2 I3 I3' I4 [I5 _] [I7 I8] (chunks & I9 & I10 & I11)].
  eapply (runs_mono _ (fun _ => True)).
  - unfold output_emit. apply runs_guard. intros _.
    assert (0 <= member_bytes o mod HISTORY < HISTORY) by (apply Z.mod_pos_bound; unfold HISTORY; lia).
    rewrite set_index_ok by lia. cbn [res_bind]. rewrite set_index_ok by lia. cbn [res_bind].
    cbn [pending_len]. destruct (Z.eqb_spec (pending_len o + 1) CHUNK) as [E|]; [|done].
    unfold flush. cbn [pending_len pending consumer]. rewrite (proj2 (Z.eqb_neq _ _)) by lia.
    match goal with |- context [get_range ?l ?x ?y] => destruct (get_range l x y) as [chunk|] eqn:G end.
    + cbn [ok_or res_bind]. eapply runs_bind; [|done]. eapply consume_runs; [exact I9|].
      apply get_range_length in G. unfold CHUNK in *. lia.
    + unfold get_range in G. rewrite len_insert', I7, E in G. done.
  - intros o' Ho' _. destruct (emit_step _ _ _ _ _ _ _ Him Ho') as (a' & _ & H). by exists a'.
Qed.

Lemma copy_loop_runs n d o a :
  implements consume s0 max0 o a -> 0 < d <= HISTORY -> d <= len (cur a) ->
  runs (copy_loop consume n d o) live.
Proof using consume_runs.
  revert o a. induction n as [|n IH]; intros o a Him Hd Hl; cbn [copy_loop]; [by exists a|].
  rewrite (ring_lookup _ _ _ o a d Him Hd Hl). cbn [res_bind].
  eapply runs_bind; [apply output_emit_runs; by exists a|]. intros o1 Ho1 _.
  destruct (emit_step _ _ _ _ _ _ _ Him Ho1) as (a1 & Ha1 & Him1). eapply IH; [exact Him1|done|].
  apply guard_ok in Ha1 as [_ [= <-]]. cbn [cur]. rewrite len_app, len_cons, len_nil. lia.
Qed.

Lemma output_copy_runs o d l : live o -> 0 <= d -> runs (output_copy consume o d l) live.
Proof using consume_runs.
  intros [a Him] Hd. unfold output_copy. apply runs_guard. intros H1. apply runs_guard. intros _. bool_to_prop.
  eapply copy_loop_runs; [exact Him|lia|]. rewrite <- (im_member _ _ _ _ _ Him). lia.
Qed.

Lemma member_runs b o :
  wf b -> live o -> runs (member consume b o) (fun r => after b r.1 /\ live r.2).
Proof using consume_runs.
  intros Hb [a Him]. unfold member.
  eapply runs_bind; [by apply member_header_runs|]. intros b1 _ A1.
  eapply runs_bind.
  { apply (inflate_loop_runs (output_ops consume) live output_emit_runs output_copy_runs);
      [apply A1|apply bits_fuel_left, A1|]. eexists. by apply start_implements. }
  intros [b2 o2] _ [A2 HI2]. cbn [fst snd] in *.
  eapply runs_bind; [apply take_after; [apply A2|lia]|]. intros [trailer b3] _ (_ & A3).
  apply runs_guard. intros _. pose proof HI2 as [a2 Him2]. pose proof (im_pending _ _ _ _ _ Him2) as [_ [Hp _]].
  eapply runs_bind; [by apply flush_runs|]. intros o3 _ HI3. split; [|done]. cbn [fst].
  eapply after_trans; [exact A1|]. by eapply after_trans.
Qed.

Lemma members_loop_runs fuel m b o :
  wf b -> live o -> Z.of_nat fuel = MAX_MEMBERS - m -> runs (members_loop consume fuel m b o) live.
Proof using consume_runs.
  revert m b o. induction fuel as [|fuel IH]; intros m b o Hb HI Hm; cbn [members_loop];
    (destruct (_ <? _); [|done]); apply runs_guard; intros Hne%Z.eqb_neq; [lia|].
  eapply runs_bind; [by apply member_runs|]. intros [b1 o1] _ [A1 HI1]. apply IH; [apply A1|done|lia].
Qed.

Lemma decode_runs bytes : 0 <= max0 -> runs (decode consume bytes max0 s0) (fun _ => True).
Proof using consume_runs.
  intros Hm. unfold decode. apply runs_guard. intros _.
  eapply runs_bind; [apply members_loop_runs; [|eexists; by apply initial_implements|]|done].
  - unfold wf, pos, size; cbn [byte_at bit input]. pose proof (len_nonneg bytes). lia.
  - unfold MAX_MEMBERS. lia.
Qed.
End decode.
End Safe.
Import Safe.

(** ** The converse: an accepting consumer *)
Module Complete.
Section complete.
Context {C : Type} (consume : C -> list byte -> capture C) (s0 : C) (max0 : Z).
Hypothesis accepts : forall s c, exists s', consume s c = Ok s'.
Abbreviation impl := (implements consume s0 max0).

Lemma flush_total o a : impl o a -> exists o', flush consume o = Ok o'.
Proof using accepts.
  intros I. destruct (im_pending _ _ _ _ _ I) as [H1 H2]. unfold flush.
  destruct (Z.eqb_spec (pending_len o) 0); [by eexists|].
  destruct (get_range (pending o) 0 (pending_len o)) as [chunk|] eqn:G.
  - cbn [ok_or res_bind]. destruct (accepts (consumer o) chunk) as [s' ->]. cbn [res_bind]. by eexists.
  - unfold get_range in G. rewrite !(proj2 (Z.leb_le _ _)) in G by lia. done.
Qed.

Lemma member_complete b o a b' a' :
  impl o a -> spec_member b a = Ok (b', a') ->
  exists o', member consume b o = Ok (b', o') /\ impl o' a' /\ pending_len o' = 0.
Proof using accepts.
  intros I H. unfold spec_member in H. unfold member.
  apply bind_ok in H as (b1 & H1 & H). apply bind_ok in H as ([b2 a1] & H2 & H).
  apply bind_ok in H as ([trailer b3] & H3 & H). apply guard_ok in H as [G [= <- <-]].
  destruct (inflate_sim stream_ops (output_ops consume) (fun a o => impl o a)
              (fun a o b a' I Ha => emit_total consume s0 max0 accepts o a b a' I Ha)
              (fun a o d l a' I Hd Ha => copy_total consume s0 max0 accepts o a d l a' I Hd Ha)
              (fun a o I => eq_sym (f_equal2 Z.sub (im_maximum _ _ _ _ _ I) (im_total _ _ _ _ _ I)))
              _ _ _ _ _ _ (start_implements consume s0 max0 o a I) H2) as (o1 & Ho & I1).
  destruct (flush_total _ _ I1) as [o2 Hf]. destruct (flush_implements _ _ _ _ _ _ I1 Hf) as [I2 Hp].
  exists o2. split; [|done].
  rewrite <- crc32_spec_eq, <- (im_crc _ _ _ _ _ I1), <- (im_member _ _ _ _ _ I1) in G.
  ok_bind (exact H1). ok_bind (exact Ho). ok_bind (exact H3). ok_guard (exact G). ok_bind (exact Hf). done.
Qed.

Lemma members_complete fuel m b o a a' :
  impl o a -> pending_len o = 0 -> spec_loop fuel m b a = Ok a' ->
  exists o', members_loop consume fuel m b o = Ok o' /\ impl o' a' /\ pending_len o' = 0.
Proof using accepts.
  revert m b o a. induction fuel as [|fuel IH]; intros m b o a I Hp H;
    cbn [members_loop spec_loop] in *; (destruct (_ <? _); [|injection H as <-; eauto]);
    (destruct (_ =? _); [discriminate|]); [discriminate|].
  apply bind_ok in H as ([b1 a1] & H1 & H).
  destruct (member_complete _ _ _ _ _ I H1) as (o1 & Ho & I1 & Hp1).
  destruct (IH _ _ _ _ I1 Hp1 H) as (o' & Ho' & I' & Hp'). exists o'. split; [|done].
  ok_bind (exact Ho). exact Ho'.
Qed.

Lemma decode_complete input out :
  0 <= max0 -> spec_decode input max0 = Ok out -> exists s, decode consume input max0 s0 = Ok (len out, s).
Proof using accepts.
  intros Hm H. unfold spec_decode in H. apply guard_ok in H as [G H].
  apply bind_ok in H as (a & H & [= <-]).
  destruct (members_complete _ _ _ _ _ _ (initial_implements consume s0 max0 Hm) eq_refl H) as (o & Ho & I & _).
  exists (consumer o). unfold decode. ok_guard (exact G). ok_bind (exact Ho).
  by rewrite (im_total _ _ _ _ _ I), len_app.
Qed.
End complete.
End Complete.
Import Complete.

(** ** Properties *)

(** A consumer that keeps everything. *)
Definition collect (s : list byte) (c : list byte) : capture (list byte) := Ok (s ++ c).

(** C8. The ring of history, the chunk buffer, the running CRC and the size
    counters of the decoder implement a decoder over plain lists of bytes: when
    [decode] succeeds the list decoder returns some [out] on the same input, the
    consumer has been fed exactly [out], in order, in nonempty chunks of at most
    8192 bytes, and the returned size is the length of [out] and within the
    limit.  Conversely, with a consumer that accepts every chunk, [decode]
    succeeds whenever the list decoder does. *)
Theorem gzip_decode_refines {C} (consume : C -> list byte -> capture C) s0 max0 bytes :
  0 <= max0 ->
  (forall n s, decode consume bytes max0 s0 = Ok (n, s) ->
     exists out chunks, spec_decode bytes max0 = Ok out /\ concat chunks = out /\
       Forall (fun c => 1 <= len c <= CHUNK) chunks /\ res_fold consume chunks s0 = Ok s /\
       n = len out /\ n <= max0) /\
  ((forall s c, exists s', consume s c = Ok s') ->
   forall out, spec_decode bytes max0 = Ok out -> exists s, decode consume bytes max0 s0 = Ok (len out, s)).
Proof.
  intros Hm. split.
  - intros n s H. by apply decode_sim.
  - intros Ha out H. by apply decode_complete.
Qed.

(** The bytes of a real member: [gzip] of ["hellohello"]. *)
Definition sample : list byte :=
  [x1f; x8b; x08; x00; x00; x00; x00; x00; x02; x03; xcb; x48; xcd; xc9; xc9; xcf; x00; x11; x00;
   x68; x97; x8c; xf5; x0a; x00; x00; x00].

Lemma gzip_decode_refines_witness :
  0 <= 100 /\ spec_decode sample 100 = Ok (str_bytes "hellohello") /\
  exists s, decode collect sample 100 [] = Ok (10, s).
Proof.
  split; [lia|]. assert (spec_decode sample 100 = Ok (str_bytes "hellohello")) as H by (vm_compute; reflexivity).
  split; [exact H|].
  apply (proj2 (gzip_decode_refines collect [] 100 sample ltac:(lia)) (fun s c => ex_intro _ (s ++ c) eq_refl) _ H).
Defined.

(** Decoding never panics and always ends: on every input and limit, with a
    consumer that handles the chunks it can be given, every index of the tables,
    of the ring and of the buffers is in range, and each loop stops within the
    budget given by the bits left to read, the lengths to fill and the 64
    members. *)
Theorem gzip_decode_safe {C} (consume : C -> list byte -> capture C) s0 max0 bytes :
  0 <= max0 ->
  (forall chunks s c, res_fold consume chunks s0 = Ok s -> 1 <= len c <= CHUNK ->
     runs (consume s c) (fun _ => True)) ->
  decode consume bytes max0 s0 <> Err Panic /\ decode consume bytes max0 s0 <> Err OutOfFuel.
Proof. intros Hm Hc. exact (runs_not_stuck _ _ (decode_runs consume s0 max0 Hc bytes Hm)). Qed.

Lemma gzip_decode_safe_witness :
  decode collect (firstn 20 sample) 100 [] <> Err Panic /\ decode collect (firstn 20 sample) 100 [] <> Err OutOfFuel.
Proof.
  apply (gzip_decode_safe collect [] 100 (firstn 20 sample)); [lia|]. intros chunks s c _ _. exact I.
Defined.

(** The table-driven CRC-32 is the bit-by-bit CRC of the polynomial
    [0xedb88320], with initial value and final complement, for every byte
    string. *)
Theorem crc32_bitwise bytes : crc32 bytes = Crc.crc32_spec bytes.
Proof. apply crc32_spec_eq. Qed.
