(* ===== verification/Tar.v ===== *)
(** * Tar archives ([protocol/src/patch_capture.rs])

    The push parser for the ustar subset: it is written to in chunks, collects
    headers of 512 bytes and file bodies across chunk borders, and hands each
    file to the [SourceRowsBuilder]; [capture_archive] feeds it a plain or a
    gzip-compressed stream.  [reserve] and [reserve_body] are what the allocator
    answers to the two [try_reserve] calls. *)

From S2P Require Import Prelude Sha256 Paths SourceRows Gzip.

Record PendingFile : Set := mkPending {
  pending_path : string;
  pending_mode : Z;
  pending_size : Z;
  pending_bytes : list byte
}.

Record TarParser : Type := mkTar {
  rows : SourceRowsBuilder;
  header : list byte;
  header_bytes : Z;
  file : option PendingFile;
  padding : Z;
  zero_blocks : Z;
  expanded : Z
}.
Definition new : TarParser := mkTar SourceRows.new (replicate 512 x00) 0 None 0 0 0.

(** ** Header fields *)

Definition nonzero (b : byte) : bool := negb (bool_decide (b = x00)).
Definition printable (b : byte) : bool := (0x20 <=? bZ b) && (bZ b <=? 0x7e).

(** [iter().position(f).unwrap_or(len)] splits a slice: the part before the
    position and the part from it on. *)
Fixpoint break (f : byte -> bool) (bytes : list byte) : list byte * list byte :=
  match bytes with
  | [] => ([], [])
  | b :: rest => if f b then ([], bytes) else let '(p, q) := break f rest in (b :: p, q)
  end.

(** The text is ASCII, so [from_utf8] does not fail. *)
Definition tar_text (bytes : list byte) : capture string :=
  let '(text, tail) := break (fun b => bool_decide (b = x00)) bytes in
  throw_if existsb nonzero tail || existsb (fun b => negb (printable b)) text
    with Error Malformed ;;
  Ok (str_of_bytes text).

(** [while end < bytes.len() && (b'0'..=b'7').contains(&bytes[end])] *)
Fixpoint octal_digits (bytes : list byte) (value : Z) : capture (Z * list byte) :=
  match bytes with
  | [] => Ok (value, [])
  | b :: rest =>
      if (48 <=? bZ b) && (bZ b <=? 55) then
        let? value := ok_or (n ← checked_mul value 8; checked_add n (bZ b - 48)) (Error Limit) in
        octal_digits rest value
      else Ok (value, bytes)
  end.
Definition octal (bytes : list byte) : capture Z :=
  let '(_, digits) := break (fun b => negb (bool_decide (b = x20))) bytes in
  let? (value, tail) := octal_digits digits 0 in
  throw_if existsb (fun b => nonzero b && negb (bool_decide (b = x20))) tail with Error Malformed ;;
  Ok value.

(** [&header[a..b]] of the array of 512 bytes. *)
Definition slice (header : list byte) (a b : nat) : list byte := firstn (b - a) (skipn a header).

(** The sum of the bytes, those of the checksum field counted as spaces. *)
Definition header_checksum (header : list byte) : Z :=
  fold_left (fun sum (row : nat * byte) =>
    sum + (if (148 <=? Z.of_nat row.1) && (Z.of_nat row.1 <? 156) then 32 else bZ row.2))
    (zip (seq 0 (length header)) header) 0.

Definition GNU_MAGIC : list byte := str_bytes "ustar  " ++ [x00].
Definition POSIX_MAGIC : list byte := str_bytes "ustar" ++ [x00] ++ str_bytes "00".

Definition tar_header (header : list byte) : capture (string * Z * Z) :=
  let? expected := octal (slice header 148 156) in
  throw_if negb (expected =? header_checksum header) with Error Integrity ;;
  let type_flag := nth 156 header x00 in
  throw_if negb (bool_decide (type_flag = x00) || bool_decide (type_flag = x30)) with Error Type_ ;;
  let gnu := bool_decide (slice header 257 265 = GNU_MAGIC) in
  let posix := bool_decide (slice header 257 265 = POSIX_MAGIC) in
  throw_if negb gnu && negb posix with Error Malformed ;;
  throw_if (gnu && existsb nonzero (skipn 345 header)) || existsb nonzero (skipn 500 header)
    with Error Type_ ;;
  let? link := tar_text (slice header 157 257) in
  throw_if negb (bool_decide (link = ""%string)) with Error Type_ ;;
  let? major := octal (slice header 329 337) in
  throw_if negb (major =? 0) with Error Type_ ;;
  let? minor := octal (slice header 337 345) in
  throw_if negb (minor =? 0) with Error Type_ ;;
  let? _ := tar_text (slice header 265 297) in
  let? _ := tar_text (slice header 297 329) in
  let? _ := octal (slice header 108 116) in
  let? _ := octal (slice header 116 124) in
  let? _ := octal (slice header 136 148) in
  let? mode := octal (slice header 100 108) in
  throw_if u32_max <? mode with Error Type_ ;;
  let? _ := validate_source_mode mode in
  let? size := octal (slice header 124 136) in
  throw_if MAX_FILE_BYTES <? size with Error Limit ;;
  let? name := map_err (fun _ => Error Path) (tar_text (firstn 100 header)) in
  let? prefix :=
    (if posix then map_err (fun _ => Error Path) (tar_text (slice header 345 500)) else Ok ""%string) in
  let combined := (if bool_decide (prefix = ""%string) then name else prefix +:+ "/" +:+ name) in
  let? path := ok_or (strip_prefix PREFIX combined) (Error Path) in
  let? _ := validate_source_path path in
  Ok (path, mode, size).

(** ** The parser *)
Section parser.
Variable reserve : SourceRowsBuilder -> bool.
Variable reserve_body : SourceRowsBuilder -> Z -> bool.

(** A body is open: [if let Some(file) = &mut self.file]. *)
Definition write_body (p : TarParser) (f : PendingFile) (input : list byte)
    : capture (TarParser * list byte) :=
  throw_if pending_size f <? len (pending_bytes f) with Panic ;;
  let n := Z.min (pending_size f - len (pending_bytes f)) (len input) in
  let bytes := pending_bytes f ++ firstn (Z.to_nat n) input in
  let input := skipn (Z.to_nat n) input in
  if len bytes =? pending_size f then
    let padding := (512 - pending_size f mod 512) mod 512 in
    let? rows := push reserve (rows p) (pending_path f) (pending_mode f) bytes in
    Ok (mkTar rows (header p) (header_bytes p) None padding (zero_blocks p) (expanded p), input)
  else
    let f := mkPending (pending_path f) (pending_mode f) (pending_size f) bytes in
    Ok (mkTar (rows p) (header p) (header_bytes p) (Some f) (padding p) (zero_blocks p) (expanded p), input).

(** [else if self.padding != 0] *)
Definition write_padding (p : TarParser) (input : list byte) : capture (TarParser * list byte) :=
  let n := Z.min (padding p) (len input) in
  throw_if existsb nonzero (firstn (Z.to_nat n) input) with Error Malformed ;;
  Ok (mkTar (rows p) (header p) (header_bytes p) (file p) (padding p - n) (zero_blocks p) (expanded p),
      skipn (Z.to_nat n) input).

(** [if self.header_bytes == 512]: a complete header. *)
Definition header_complete (p : TarParser) : capture TarParser :=
  if forallb (fun b => negb (nonzero b)) (header p) then
    Ok (mkTar (rows p) (header p) 0 (file p) (padding p) (zero_blocks p + 1) (expanded p))
  else
    throw_if negb (zero_blocks p =? 0) with Error Malformed ;;
    let? (path, mode, size) := tar_header (header p) in
    let? _ := plan (rows p) path mode size in
    if size =? 0 then
      let? rows := push reserve (rows p) path mode [] in
      Ok (mkTar rows (header p) 0 (file p) (padding p) (zero_blocks p) (expanded p))
    else
      throw_if negb (reserve_body (rows p) size) with Error Limit ;;
      Ok (mkTar (rows p) (header p) 0 (Some (mkPending path mode size [])) (padding p)
            (zero_blocks p) (expanded p)).

Definition write_header (p : TarParser) (input : list byte) : capture (TarParser * list byte) :=
  throw_if 512 <? header_bytes p with Panic ;;
  let n := Z.min (512 - header_bytes p) (len input) in
  let header := firstn (Z.to_nat (header_bytes p)) (header p) ++ firstn (Z.to_nat n) input
                ++ skipn (Z.to_nat (header_bytes p + n)) (header p) in
  let input := skipn (Z.to_nat n) input in
  let p := mkTar (rows p) header (header_bytes p + n) (file p) (padding p) (zero_blocks p) (expanded p) in
  if header_bytes p =? 512 then let? p := header_complete p in Ok (p, input) else Ok (p, input).

(** One turn of [while !input.is_empty()] before the end of the archive. *)
Definition write_turn (p : TarParser) (input : list byte) : capture (TarParser * list byte) :=
  match file p with
  | Some f => write_body p f input
  | None => if negb (padding p =? 0) then write_padding p input else write_header p input
  end.

(** Every turn takes at least one byte. *)
Fixpoint write_loop (fuel : nat) (p : TarParser) (input : list byte) : capture TarParser :=
  match input with
  | [] => Ok p
  | _ :: _ =>
      if zero_blocks p =? 2 then
        throw_if existsb nonzero input with Error Malformed ;;
        Ok p
      else
        match fuel with
        | O => Err OutOfFuel
        | S fuel => let? (p, input) := write_turn p input in write_loop fuel p input
        end
  end.

Definition set_expanded (p : TarParser) (expanded : Z) : TarParser :=
  mkTar (rows p) (header p) (header_bytes p) (file p) (padding p) (zero_blocks p) expanded.

Definition write (p : TarParser) (input : list byte) : capture TarParser :=
  let? expanded :=
    ok_or (size ← checked_add (expanded p) (len input);
           if size <=? MAX_EXPANDED_BYTES then Some size else None) (Error Limit) in
  write_loop (length input) (set_expanded p expanded) input.

Definition finish (p : TarParser) : capture CapturedSourceRows :=
  throw_if negb (zero_blocks p =? 2) || bool_decide (is_Some (file p)) || negb (header_bytes p =? 0)
           || negb (padding p =? 0) || negb (expanded p mod 512 =? 0)
    with Error Malformed ;;
  SourceRows.finish (rows p).

Definition capture_archive (bytes : list byte) (format : ArchiveFormat) (expected_stream_digest : string)
    : capture CapturedSourceRows :=
  throw_if MAX_INPUT_BYTES <? len bytes with Error Limit ;;
  throw_if negb (valid_digest expected_stream_digest) with Error Malformed ;;
  let? digest := byte_digest bytes in
  throw_if negb (bool_decide (digest = expected_stream_digest)) with Error Integrity ;;
  let? parser :=
    match format with
    | Tar =>
        throw_if bool_decide (firstn 2 bytes = [x1f; x8b]) with Error Malformed ;;
        write new bytes
    | TarGzip =>
        let? (_, parser) := decode write bytes MAX_EXPANDED_BYTES new in
        Ok parser
    end in
  finish parser.
End parser.
