(* ===== verification/TarFacts.v ===== *)
(** * Theorems on tar archives

    [Chunks]: the parser does not see chunk borders.  [Format]: it accepts exactly
    the archives laid out as entries and zero blocks, and captures those entries.
    The properties at the end carry both to [capture_archive], where the chunks
    are those of the gzip decoder. *)

From S2P Require Import Prelude Sha256 Paths TextFacts SourceRows SourceRowsFacts Gzip HuffmanFacts GzipFacts Tar.
Import Builder.

(** ** Chunk independence *)
Module Chunks.

(** The states between turns. *)
Record ok (p : TarParser) : Prop := {
  ok_header : len (header p) = 512 /\ 0 <= header_bytes p < 512;
  ok_padding : 0 <= padding p < 512 /\ (padding p <> 0 -> header_bytes p = 0);
  ok_zero : 0 <= zero_blocks p <= 2;
  ok_file : forall f, file p = Some f ->
    0 <= pending_mode f <= u32_max /\ len (pending_bytes f) < pending_size f <= MAX_FILE_BYTES /\
    padding p = 0 /\ header_bytes p = 0
}.

Lemma ok_new : ok new.
Proof. split; cbn [header header_bytes padding zero_blocks file new]; try done; try lia. Qed.

Section parser.
Context (reserve : SourceRowsBuilder -> bool) (reserve_body : SourceRowsBuilder -> Z -> bool).
Abbreviation turn := (write_turn reserve reserve_body).
Abbreviation loop := (write_loop reserve reserve_body).

(** The parser on one byte. *)
Definition step (p : TarParser) (c : byte) : capture TarParser := loop 1 p [c].

Lemma step_turn p c p' : zero_blocks p <> 2 -> turn p [c] = Ok (p', []) -> step p c = Ok p'.
Proof.
  intros Hz Ht. unfold step. cbn [write_loop]. rewrite (proj2 (Z.eqb_neq _ _) Hz), Ht. done.
Qed.

Lemma existsb_cons (f : byte -> bool) c l : existsb f (c :: l) = f c || existsb f l.
Proof. done. Qed.

Lemma len_cons_pos (c : byte) l : 1 <= len (c :: l).
Proof. rewrite len_cons. pose proof (len_nonneg l). lia. Qed.

(** A turn on [c :: rest] takes [c] alone, or takes [c] and then goes on with
    [rest] the way the next turn would. *)
Definition splits (p : TarParser) (c : byte) (rest : list byte) : Prop :=
  turn p (c :: rest) = (let? (p', _) := turn p [c] in Ok (p', rest)) \/
  exists p1, turn p [c] = Ok (p1, []) /\ zero_blocks p1 <> 2 /\ rest <> [] /\
    turn p (c :: rest) = turn p1 rest.

Lemma body_splits p f c rest :
  ok p -> zero_blocks p <> 2 -> file p = Some f -> splits p c rest.
Proof.
  intros Hp Hz Hf. destruct (ok_file p Hp f Hf) as (_ & Hl & Hpad & _). unfold splits, write_turn. rewrite Hf.
  unfold write_body. rewrite (proj2 (Z.ltb_ge _ _)) by lia.
  pose proof (len_nonneg rest). rewrite !len_cons, len_nil.
  rewrite (Z.min_r _ (1 + 0)) by lia. change (Z.to_nat (1 + 0)) with 1%nat. cbn [firstn skipn].
  destruct (decide (pending_size f - len (pending_bytes f) = 1)) as [E|E]; [left|].
  { rewrite Z.min_l, E by lia. change (Z.to_nat 1) with 1%nat. cbn [firstn skipn].
    destruct (_ =? _); [|done]. by destruct (push _ _ _ _ _). }
  destruct rest as [|d rest]; [left|right].
  { rewrite len_nil, Z.min_r by lia. change (Z.to_nat (1 + 0)) with 1%nat. cbn [firstn skipn].
    destruct (_ =? _); [|done]. by destruct (push _ _ _ _ _). }
  rewrite len_app, len_cons, len_nil, (proj2 (Z.eqb_neq (len (pending_bytes f) + (1 + 0)) _)) by lia.
  eexists. split; [done|]. cbn [zero_blocks]. split_and!; [done..|].
  cbn [file]. cbn [pending_size pending_bytes pending_path pending_mode rows header header_bytes padding zero_blocks expanded].
  rewrite !len_app, !len_cons, len_nil, (proj2 (Z.ltb_ge _ _)) by lia. rewrite len_cons in *.
  set (n := Z.min (pending_size f - len (pending_bytes f)) (1 + (1 + len rest))).
  replace (Z.min (pending_size f - (len (pending_bytes f) + (1 + 0))) (1 + len rest)) with (n - 1) by lia.
  replace (Z.to_nat n) with (S (Z.to_nat (n - 1))) by lia. cbn [firstn skipn].
  rewrite <- app_assoc, len_cons, Z.add_assoc. reflexivity.
Qed.

Lemma padding_splits p c rest :
  ok p -> zero_blocks p <> 2 -> file p = None -> padding p <> 0 -> splits p c rest.
Proof.
  intros Hp Hz Hf Hpad. pose proof (ok_padding p Hp) as [Hr _]. unfold splits, write_turn. rewrite Hf.
  rewrite (proj2 (Z.eqb_neq _ _) Hpad). cbn [negb]. unfold write_padding.
  pose proof (len_nonneg rest). rewrite !len_cons, len_nil.
  rewrite (Z.min_r _ (1 + 0)) by lia. change (Z.to_nat (1 + 0)) with 1%nat. cbn [firstn skipn].
  destruct (decide (padding p = 1)) as [E|E]; [left|].
  { rewrite Z.min_l, E by lia. change (Z.to_nat 1) with 1%nat. cbn [firstn skipn]. by destruct (existsb _ _). }
  destruct rest as [|d rest]; [left|].
  { rewrite len_nil, Z.min_r by lia. change (Z.to_nat (1 + 0)) with 1%nat. cbn [firstn skipn]. by destruct (existsb _ _). }
  rewrite len_cons in *. set (n := Z.min (padding p) (1 + (1 + len rest))).
  replace (Z.to_nat n) with (S (Z.to_nat (n - 1))) by lia. cbn [firstn skipn].
  rewrite existsb_cons. change (existsb nonzero [c]) with (nonzero c || false). rewrite orb_false_r.
  destruct (nonzero c); [left; done|right]. cbn [orb].
  eexists. split; [done|]. cbn [zero_blocks]. split_and!; [done..|]. cbn [file padding].
  rewrite (proj2 (Z.eqb_neq _ 0)) by lia. cbn [negb].
  cbn [rows header header_bytes padding zero_blocks expanded file].
  replace (Z.min (padding p - (1 + 0)) (1 + len rest)) with (n - 1) by lia.
  rewrite Hf. by replace (padding p - n) with (padding p - (1 + 0) - (n - 1)) by lia.
Qed.

(** Writing [c :: l] at [k] is writing [c] at [k] and [l] behind it. *)
Lemma splice_split (h : list byte) k n c l :
  0 <= k -> 1 <= n -> k + n <= len h ->
  firstn (Z.to_nat k) h ++ (c :: firstn (Z.to_nat (n - 1)) l) ++ skipn (Z.to_nat (k + n)) h =
  firstn (Z.to_nat (k + (1 + 0))) (firstn (Z.to_nat k) h ++ [c] ++ skipn (Z.to_nat (k + (1 + 0))) h) ++
  firstn (Z.to_nat (n - 1)) l ++
  skipn (Z.to_nat (k + n)) (firstn (Z.to_nat k) h ++ [c] ++ skipn (Z.to_nat (k + (1 + 0))) h).
Proof.
  intros Hk Hn Hl. assert (length (firstn (Z.to_nat k) h) = Z.to_nat k) as El.
  { unfold len in Hl. rewrite length_take. lia. }
  replace (Z.to_nat (k + (1 + 0))) with (S (Z.to_nat k)) by lia.
  rewrite take_app, drop_app, El.
  replace (S (Z.to_nat k) - Z.to_nat k)%nat with 1%nat by lia.
  rewrite (take_ge (firstn _ h)), (drop_ge (firstn _ h)) by lia.
  replace (Z.to_nat (k + n) - Z.to_nat k)%nat with (S (Z.to_nat (n - 1))) by lia.
  cbn [app firstn skipn]. rewrite take_0, drop_drop, <- app_assoc. cbn [app]. do 4 f_equal. lia.
Qed.

Lemma header_splits p c rest :
  ok p -> zero_blocks p <> 2 -> file p = None -> padding p = 0 -> splits p c rest.
Proof.
  intros Hp Hz Hf Hpad. pose proof (ok_header p Hp) as [Hh Hb]. unfold splits, write_turn. rewrite Hf, Hpad.
  cbn [Z.eqb negb]. unfold write_header. rewrite (proj2 (Z.ltb_ge _ _)) by lia.
  pose proof (len_nonneg rest). rewrite !len_cons, len_nil.
  rewrite (Z.min_r _ (1 + 0)) by lia. change (Z.to_nat (1 + 0)) with 1%nat. cbn [firstn skipn header_bytes].
  destruct (decide (header_bytes p = 511)) as [E|E]; [left|].
  { rewrite E in *. rewrite (Z.min_l (512 - 511)) by lia. change (Z.to_nat (512 - 511)) with 1%nat. cbn [firstn skipn].
    change (512 - 511) with (1 + 0). cbn [Z.add Z.eqb Pos.eqb Pos.add Pos.succ]. by destruct (header_complete _ _ _). }
  destruct rest as [|d rest]; [left|right].
  { rewrite len_nil, Z.min_r by lia. change (Z.to_nat (1 + 0)) with 1%nat. cbn [firstn skipn].
    rewrite (proj2 (Z.eqb_neq _ _)) by lia. done. }
  rewrite (proj2 (Z.eqb_neq (header_bytes p + (1 + 0)) 512)) by lia.
  eexists. split; [done|]. cbn [zero_blocks]. split_and!; [done..|]. cbn [file padding].
  rewrite Hpad. cbn [Z.eqb negb header_bytes]. rewrite (proj2 (Z.ltb_ge _ _)) by lia.
  cbn [rows header header_bytes padding zero_blocks expanded file]. rewrite len_cons in *.
  set (n := Z.min (512 - header_bytes p) (1 + (1 + len rest))).
  replace (Z.min (512 - (header_bytes p + (1 + 0))) (1 + len rest)) with (n - 1) by lia.
  replace (header_bytes p + (1 + 0) + (n - 1)) with (header_bytes p + n) by lia.
  replace (Z.to_nat n) with (S (Z.to_nat (n - 1))) by lia. cbn [firstn skipn].
  rewrite Hf, <- (splice_split (header p) (header_bytes p) n c (d :: rest)) by lia. done.
Qed.

Lemma turn_splits p c rest : ok p -> zero_blocks p <> 2 -> splits p c rest.
Proof.
  intros Hp Hz. destruct (file p) as [f|] eqn:Hf; [by eapply body_splits|].
  destruct (decide (padding p = 0)); [by apply header_splits|by apply padding_splits].
Qed.

(** What [push] and [tar_header] leave for the parser. *)
Lemma octal_digits_nonneg bytes v r : 0 <= v -> octal_digits bytes v = Ok r -> 0 <= r.1.
Proof.
  revert v. induction bytes as [|b bytes IH]; intros v Hv H; cbn [octal_digits] in H; [by injection H as <-|].
  destruct (_ && _) eqn:E; [|by injection H as <-].
  apply bind_ok in H as (v' & Hc & H). apply (IH v'); [|done]. apply ok_or_ok in Hc.
  unfold checked_mul, checked_add in Hc. destruct (v * 8 <=? u64_max); cbn in Hc; [|discriminate].
  bool_to_prop. destruct (_ <=? u64_max); [|discriminate]. injection Hc as <-. lia.
Qed.

Lemma octal_nonneg bytes v : octal bytes = Ok v -> 0 <= v.
Proof.
  unfold octal. destruct (break _ _) as [p q]. intros H. apply bind_ok in H as ([w r] & H & Hr).
  apply guard_ok in Hr as [_ [= <-]]. by apply (octal_digits_nonneg q 0 (w, r)).
Qed.

Lemma tar_header_range h path mode size :
  tar_header h = Ok (path, mode, size) -> 0 <= mode <= u32_max /\ 0 <= size <= MAX_FILE_BYTES.
Proof.
  intros H. unfold tar_header in H. ok_inv. bool_to_prop.
  repeat match goal with E : octal _ = Ok _ |- _ => apply octal_nonneg in E end.
  split; lia.
Qed.

Lemma header_complete_ok p p' :
  ok p \/ (len (header p) = 512 /\ padding p = 0 /\ 0 <= zero_blocks p < 2 /\ file p = None) ->
  padding p = 0 -> zero_blocks p <> 2 -> file p = None ->
  header_complete reserve reserve_body p = Ok p' ->
  ok p' /\ expanded p' = expanded p.
Proof.
  intros Hp Hpad Hz Hf H.
  assert (len (header p) = 512 /\ 0 <= zero_blocks p < 2) as [Hl Hz'].
  { destruct Hp as [[[H1 _] _ H2 _]|(H1 & _ & H2 & _)]; split; (done || lia). }
  unfold header_complete in H. destruct (forallb _ _).
  { injection H as <-. split; [|done]. split; cbn [header header_bytes padding zero_blocks file]; rewrite ?Hpad, ?Hf; try done; try lia. }
  apply guard_ok in H as [Hz0 H]. bool_to_prop. apply bind_ok in H as ([[path mode] size] & Hh & H).
  apply bind_ok in H as (adds & _ & H). apply tar_header_range in Hh as [Hm Hs].
  destruct (Z.eqb_spec size 0) as [->|Hne].
  - apply bind_ok in H as (r & _ & [= <-]). split; [|done].
    split; cbn [header header_bytes padding zero_blocks file]; rewrite ?Hpad, ?Hf; try done; try lia.
  - apply guard_ok in H as [_ [= <-]]. split; [|done].
    split; cbn [header header_bytes padding zero_blocks file]; rewrite ?Hpad; try done; try lia.
    intros f [= <-]. cbn [pending_mode pending_bytes pending_size]. pose proof (@len_nil byte). lia.
Qed.

Lemma step_ok p c p' : ok p -> step p c = Ok p' -> ok p' /\ expanded p' = expanded p.
Proof.
  intros Hp H. unfold step in H. cbn [write_loop] in H.
  destruct (Z.eqb_spec (zero_blocks p) 2) as [|Hz]; [by apply guard_ok in H as [_ [= <-]]|].
  apply bind_ok in H as ([p1 i1] & Ht & H).
  enough (ok p1 /\ expanded p1 = expanded p /\ i1 = []) as (? & ? & ->) by (cbn in H; injection H as <-; done).
  clear H. pose proof Hp as [[H1 H2] [H3 H3'] H4 H5]. unfold write_turn in Ht.
  destruct (file p) as [f|] eqn:Hf.
  - destruct (H5 f eq_refl) as (Hm & Hl & Hpad & Hhb). unfold write_body in Ht.
    rewrite len_cons, len_nil, Z.min_r in Ht by lia. change (Z.to_nat (1 + 0)) with 1%nat in Ht. cbn [firstn skipn] in Ht.
    apply guard_ok in Ht as [_ Ht]. destruct (Z.eqb_spec (len (pending_bytes f ++ [c])) (pending_size f)) as [E|E].
    + apply bind_ok in Ht as (r & _ & [= <- <-]). split; [|done].
      assert (0 <= (512 - pending_size f mod 512) mod 512 < 512) by (apply Z.mod_pos_bound; lia).
      split; cbn [header header_bytes padding zero_blocks file]; (done || lia).
    + injection Ht as <- <-. split; [|done].
      split; cbn [header header_bytes padding zero_blocks file]; try done.
      intros f' [= <-]. cbn [pending_mode pending_bytes pending_size].
      assert (len (pending_bytes f ++ [c]) = len (pending_bytes f) + 1) as Ea by (rewrite len_app, len_cons, len_nil; lia).
      split_and!; (done || lia).
  - destruct (Z.eqb_spec (padding p) 0) as [Hpad|Hpad]; cbn [negb] in Ht.
    + unfold write_header in Ht. rewrite len_cons, len_nil, Z.min_r in Ht by lia.
      change (Z.to_nat (1 + 0)) with 1%nat in Ht. cbn [firstn skipn] in Ht. apply guard_ok in Ht as [_ Ht].
      assert (len (firstn (Z.to_nat (header_bytes p)) (header p) ++ [c] ++ skipn (Z.to_nat (header_bytes p + (1 + 0))) (header p)) = 512) as Hl.
      { rewrite !len_app, len_take, len_drop, len_cons, len_nil by lia. lia. }
      cbn [header_bytes] in Ht. destruct (Z.eqb_spec (header_bytes p + (1 + 0)) 512).
      * apply bind_ok in Ht as (p2 & Hc & [= <- <-]). apply header_complete_ok in Hc as [Ho He];
          [split_and!; [exact Ho|exact He|done]
          |right; cbn [header padding zero_blocks file]; split_and!; (done || lia)|done..].
      * injection Ht as <- <-. split; [|done].
        split; cbn [header header_bytes padding zero_blocks file]; rewrite ?Hf; split_and?; intros; (done || lia).
    + unfold write_padding in Ht. rewrite len_cons, len_nil, Z.min_r in Ht by lia.
      apply guard_ok in Ht as [_ [= <- <-]]. split; [|done].
      split; cbn [header header_bytes padding zero_blocks file]; rewrite ?Hf; split_and?; intros; (done || lia || (by apply H3')).
Qed.

(** A turn on one byte takes it. *)
Lemma turn_one p c p' i' : ok p -> turn p [c] = Ok (p', i') -> i' = [].
Proof.
  intros Hp Ht. pose proof Hp as [[H1 H2] [H3 H3'] H4 H5]. unfold write_turn in Ht.
  destruct (file p) as [f|] eqn:Hf; [|destruct (negb _) eqn:Hpad].
  - destruct (H5 f eq_refl) as (_ & Hl & _). unfold write_body in Ht. rewrite len_cons, len_nil, Z.min_r in Ht by lia.
    apply guard_ok in Ht as [_ Ht]. destruct (_ =? _); [apply bind_ok in Ht as (r & _ & [= _ <-])|injection Ht as _ <-]; done.
  - unfold write_padding in Ht. bool_to_prop. rewrite len_cons, len_nil, Z.min_r in Ht by lia.
    by apply guard_ok in Ht as [_ [= _ <-]].
  - unfold write_header in Ht. rewrite len_cons, len_nil, Z.min_r in Ht by lia.
    apply guard_ok in Ht as [_ Ht]. cbn [header_bytes] in Ht.
    destruct (header_bytes p + (1 + 0) =? 512); [apply bind_ok in Ht as (r & _ & [= _ <-])|injection Ht as _ <-]; done.
Qed.

(** The loop is the fold of the byte step, whatever budget covers the input. *)
Lemma loop_bytes input fuel p :
  ok p -> (length input <= fuel)%nat -> loop fuel p input = res_fold step input p.
Proof.
  revert fuel p. induction input as [|c rest IH]; intros fuel p Hp Hf; [by destruct fuel|].
  destruct fuel as [|fuel]; [cbn in Hf; lia|]. cbn [length] in Hf. cbn [res_fold].
  destruct (Z.eqb_spec (zero_blocks p) 2) as [Hz|Hz].
  - assert (step p c = throw_if nonzero c with Error Malformed ;; Ok p) as ->.
    { unfold step. cbn [write_loop]. rewrite Hz. cbn [Z.eqb Pos.eqb existsb]. by rewrite orb_false_r. }
    cbn [write_loop]. rewrite Hz. cbn [Z.eqb Pos.eqb]. rewrite existsb_cons.
    destruct (nonzero c); cbn [orb res_bind]; [done|]. rewrite <- (IH (S fuel) p) by (done || lia).
    destruct rest; cbn [write_loop]; [done|]. by rewrite Hz.
  - cbn [write_loop]. rewrite (proj2 (Z.eqb_neq _ _) Hz).
    destruct (turn_splits p c rest Hp Hz) as [E|(p1 & E1 & Hz1 & Hne & E)]; rewrite E.
    + assert (step p c = let? (p', _) := turn p [c] in Ok p') as Es.
      { unfold step. cbn [write_loop]. rewrite (proj2 (Z.eqb_neq _ _) Hz).
        destruct (turn p [c]) as [[p' i']|] eqn:Et; cbn [res_bind]; [|done]. by rewrite (turn_one p c p' i' Hp Et). }
      rewrite Es. destruct (turn p [c]) as [[p' i']|] eqn:Et; cbn [res_bind] in *; [|done].
      apply IH; [|lia]. by apply (step_ok p c).
    + assert (step p c = Ok p1) as Es by (by apply step_turn). rewrite Es. cbn [res_bind].
      rewrite <- (IH (S fuel) p1) by (first [lia | by apply (step_ok p c)]).
      destruct rest as [|d rest]; [done|]. cbn [write_loop]. by rewrite (proj2 (Z.eqb_neq _ _) Hz1).
Qed.

Lemma fold_ok input p p' :
  ok p -> res_fold step input p = Ok p' -> ok p' /\ expanded p' = expanded p.
Proof.
  revert p. induction input as [|c rest IH]; intros p Hp H; cbn [res_fold] in H; [by injection H as <-|].
  apply bind_ok in H as (p1 & Hs & H). apply step_ok in Hs as [Hp1 E]; [|done].
  destruct (IH _ Hp1 H) as [? E']. split; [done|]. by rewrite E'.
Qed.

(** The expanded size plays no role inside the loop. *)
Lemma turn_expanded p input e :
  turn (set_expanded p e) input =
  match turn p input with Ok (p', i') => Ok (set_expanded p' e, i') | Err x => Err x end.
Proof.
  destruct p as [r h hb f pad z x]. unfold set_expanded, write_turn.
  cbn [file padding rows header header_bytes zero_blocks expanded].
  destruct f as [f|]; [|destruct (negb _)].
  - unfold write_body. cbn [file padding rows header header_bytes zero_blocks expanded].
    destruct (_ <? _); [done|]. destruct (_ =? _); [|done]. by destruct (push _ _ _ _ _).
  - unfold write_padding. cbn [file padding rows header header_bytes zero_blocks expanded]. by destruct (existsb _ _).
  - unfold write_header. cbn [file padding rows header header_bytes zero_blocks expanded].
    destruct (_ <? _); [done|]. destruct (_ =? _); [|done]. unfold header_complete.
    cbn [file padding rows header header_bytes zero_blocks expanded].
    destruct (forallb _ _); [done|]. destruct (negb (z =? 0)); [done|].
    destruct (tar_header _) as [[[path mode] size]|]; [|done]. cbn [res_bind].
    destruct (plan _ _ _ _); [|done]. cbn [res_bind]. destruct (size =? 0); [by destruct (push _ _ _ _ _)|].
    by destruct (negb _).
Qed.

Lemma loop_expanded fuel p input e :
  loop fuel (set_expanded p e) input =
  match loop fuel p input with Ok p' => Ok (set_expanded p' e) | Err x => Err x end.
Proof.
  revert p input. induction fuel as [|fuel IH]; intros p [|c rest]; try done; cbn [write_loop];
    change (zero_blocks (set_expanded p e)) with (zero_blocks p);
    (destruct (_ =? 2); [by destruct (existsb _ _)|]); [done|].
  rewrite turn_expanded. destruct (turn p (c :: rest)) as [[p' i']|]; [|done]. cbn [res_bind]. apply IH.
Qed.

Lemma fold_expanded input p e :
  res_fold step input (set_expanded p e) =
  match res_fold step input p with Ok p' => Ok (set_expanded p' e) | Err x => Err x end.
Proof.
  revert p. induction input as [|c rest IH]; intros p; cbn [res_fold]; [done|].
  unfold step at 1 3. rewrite loop_expanded. destruct (loop 1 p [c]); cbn [res_bind]; [apply IH|done].
Qed.
End parser.
End Chunks.
Import Chunks.

(** ** The format *)
Module Format.

(** A member of an archive, and how it is laid out. *)
Record Entry : Set := mkEntry {
  entry_header : list byte;
  entry_body : list byte
}.
Definition pad_of (size : Z) : Z := (512 - size mod 512) mod 512.
Definition zeros (n : Z) : list byte := replicate (Z.to_nat n) x00.
Definition entry_bytes (e : Entry) : list byte :=
  entry_header e ++ entry_body e ++ zeros (pad_of (len (entry_body e))).

(** Entries, then two zero blocks and any number of further ones. *)
Definition archive_bytes (entries : list Entry) (k : nat) : list byte :=
  concat (map entry_bytes entries) ++ zeros (1024 + 512 * Z.of_nat k).

Definition all_zero (bytes : list byte) : bool := forallb (fun b => negb (nonzero b)) bytes.

Lemma all_zero_existsb bytes : existsb nonzero bytes = negb (all_zero bytes).
Proof. induction bytes as [|b bytes IH]; cbn; [done|]. rewrite IH. unfold all_zero. by destruct (nonzero b). Qed.

Lemma all_zero_spec bytes : all_zero bytes = true <-> bytes = zeros (len bytes).
Proof.
  unfold zeros, len, all_zero. rewrite Nat2Z.id. induction bytes as [|b bytes IH]; cbn; [done|].
  rewrite andb_true_iff, negb_true_iff, IH. unfold nonzero. rewrite negb_false_iff, bool_decide_eq_true.
  split; [intros [-> <-]; done|]. intros [= -> H]. by rewrite <- H.
Qed.

Lemma len_zeros n : 0 <= n -> len (zeros n) = n.
Proof. intros Hn. unfold zeros, len. rewrite length_replicate. lia. Qed.

Lemma all_zero_zeros n : 0 <= n -> all_zero (zeros n) = true.
Proof. intros Hn. apply all_zero_spec. by rewrite len_zeros. Qed.

Lemma pad_range n : 0 <= pad_of n < 512.
Proof. apply Z.mod_pos_bound. lia. Qed.

Lemma split_at (bytes : list byte) n :
  0 <= n <= len bytes -> exists a r, bytes = a ++ r /\ len a = n.
Proof.
  intros Hn. exists (firstn (Z.to_nat n) bytes), (skipn (Z.to_nat n) bytes).
  rewrite take_drop, len_take by lia. split; [done|lia].
Qed.

Section parser.
Context (reserve : SourceRowsBuilder -> bool) (reserve_body : SourceRowsBuilder -> Z -> bool).
Abbreviation bytes_fold := (res_fold (step reserve reserve_body)).
Abbreviation loop := (write_loop reserve reserve_body).

(** What the archive says of one entry: the header names it, and its file joins
    the rows. *)
Definition add_entry (b : SourceRowsBuilder) (e : Entry) : capture SourceRowsBuilder :=
  throw_if negb (len (entry_header e) =? 512) || all_zero (entry_header e) with Error Malformed ;;
  let? (path, mode, size) := tar_header (entry_header e) in
  throw_if negb (size =? len (entry_body e)) with Error Malformed ;;
  throw_if negb (size =? 0) && negb (reserve_body b size) with Error Limit ;;
  push reserve b path mode (entry_body e).

Definition idle (b : SourceRowsBuilder) (z : Z) (h : list byte) (x : Z) : TarParser := mkTar b h 0 None 0 z x.
Definition in_body (b : SourceRowsBuilder) (h : list byte) (f : PendingFile) (x : Z) : TarParser :=
  mkTar b h 0 (Some f) 0 0 x.
Definition in_padding (b : SourceRowsBuilder) (h : list byte) (n x : Z) : TarParser := mkTar b h 0 None n 0 x.

Lemma idle_ok b z h x : len h = 512 -> 0 <= z <= 2 -> ok (idle b z h x).
Proof. intros Hh Hz. split; cbn; try done; lia. Qed.
Lemma in_padding_ok b h n x : len h = 512 -> 0 <= n < 512 -> ok (in_padding b h n x).
Proof. intros Hh Hn. split; cbn; try done; lia. Qed.
Lemma in_body_ok b h path mode size x :
  len h = 512 -> 0 <= mode <= u32_max -> 0 < size <= MAX_FILE_BYTES -> ok (in_body b h (mkPending path mode size []) x).
Proof.
  intros Hh Hm Hs. split; cbn [in_body header header_bytes padding zero_blocks file]; try done; try lia.
  intros f [= <-]. cbn [pending_mode pending_bytes pending_size]. pose proof (@len_nil byte). split_and!; (done || lia).
Qed.

(** One turn that takes the whole input. *)
Lemma whole_turn p input : ok p -> zero_blocks p <> 2 -> input <> [] ->
  forall r, write_turn reserve reserve_body p input = r ->
  (forall p' i', r = Ok (p', i') -> i' = []) ->
  bytes_fold input p = (let? (p', _) := r in Ok p').
Proof.
  intros Hp Hz Hne r Hr Hi. rewrite <- (loop_bytes reserve reserve_body input (length input) p Hp) by lia.
  destruct input as [|c rest]; [done|]. cbn [length write_loop]. rewrite (proj2 (Z.eqb_neq _ _) Hz), Hr.
  destruct r as [[p' i']|]; cbn [res_bind]; [|done]. rewrite (Hi p' i' eq_refl). by destruct (length rest).
Qed.

Lemma not_nil (l : list byte) : 0 < len l -> l <> [].
Proof. intros H ->. discriminate H. Qed.

Lemma firstn_all' (l : list byte) n : len l <= n -> firstn (Z.to_nat n) l = l.
Proof. intros H. apply take_ge. unfold len in H. lia. Qed.
Lemma skipn_all' (l : list byte) n : len l <= n -> skipn (Z.to_nat n) l = [].
Proof. intros H. apply drop_ge. unfold len in H. lia. Qed.

Lemma run_header b z h0 x h :
  len h0 = 512 -> len h = 512 -> 0 <= z < 2 ->
  bytes_fold h (idle b z h0 x) = header_complete reserve reserve_body (mkTar b h 512 None 0 z x).
Proof.
  intros Hh0 Hh Hz.
  rewrite (whole_turn _ _ (idle_ok b z h0 x Hh0 ltac:(lia)) ltac:(cbn; lia) (not_nil h ltac:(lia))
             (let? p := header_complete reserve reserve_body (mkTar b h 512 None 0 z x) in Ok (p, []))).
  - by destruct (header_complete _ _ _).
  - unfold write_turn, write_header, idle. cbn [file padding header_bytes header rows zero_blocks expanded Z.eqb negb].
    change (512 <? 0) with false. cbn iota. rewrite Z.min_r by lia. rewrite (firstn_all' h), (skipn_all' h0), (skipn_all' h) by lia.
    rewrite app_nil_r, Hh. reflexivity.
  - intros p' i' H. by apply bind_ok in H as (? & _ & [= _ <-]).
Qed.

Lemma run_partial_header b z h0 x input p' :
  len h0 = 512 -> 0 <= z < 2 -> len input < 512 -> bytes_fold input (idle b z h0 x) = Ok p' ->
  header_bytes p' <> 0 \/ zero_blocks p' = z.
Proof.
  intros Hh0 Hz Hl H. destruct input as [|c rest]; [cbn in H; injection H as <-; by right|left].
  pose proof (len_cons_pos c rest).
  rewrite (whole_turn _ (c :: rest) (idle_ok b z h0 x Hh0 ltac:(lia)) ltac:(cbn; lia) ltac:(done)
             (Ok (mkTar b (c :: rest ++ skipn (Z.to_nat (len (c :: rest))) h0) (len (c :: rest)) None 0 z x, []))) in H.
  - cbn [res_bind] in H. injection H as <-. cbn [header_bytes]. lia.
  - unfold write_turn, write_header, idle. cbn [file padding header_bytes header rows zero_blocks expanded Z.eqb negb].
    change (512 <? 0) with false. cbn iota. rewrite Z.min_r by lia. rewrite (firstn_all' (c :: rest)), (skipn_all' (c :: rest)) by lia.
    rewrite (proj2 (Z.eqb_neq _ _)) by lia. done.
  - by intros p1 i1 [= _ <-].
Qed.

Lemma run_body b h path mode size x body :
  len h = 512 -> 0 <= mode <= u32_max -> 0 < size <= MAX_FILE_BYTES -> len body = size ->
  bytes_fold body (in_body b h (mkPending path mode size []) x) =
  let? r := push reserve b path mode body in Ok (in_padding r h (pad_of size) x).
Proof.
  intros Hh Hm Hs Hb. pose proof (@len_nil byte) as Hn.
  rewrite (whole_turn _ _ (in_body_ok b h path mode size x Hh Hm Hs) ltac:(cbn; lia) (not_nil body ltac:(lia))
             (let? r := push reserve b path mode body in Ok (in_padding r h (pad_of size) x, []))).
  - by destruct (push _ _ _ _ _).
  - unfold write_turn, write_body, in_body. cbn [file pending_size pending_bytes pending_path pending_mode rows header header_bytes zero_blocks expanded].
    rewrite (proj2 (Z.ltb_ge _ _)) by lia. rewrite Z.min_r by lia. rewrite firstn_all', skipn_all' by lia.
    cbn [app]. rewrite Hb, Z.eqb_refl. done.
  - intros p' i' H. by apply bind_ok in H as (? & _ & [= _ <-]).
Qed.

Lemma run_partial_body b h path mode size x input p' :
  len h = 512 -> 0 <= mode <= u32_max -> 0 < size <= MAX_FILE_BYTES -> len input < size ->
  bytes_fold input (in_body b h (mkPending path mode size []) x) = Ok p' -> file p' <> None.
Proof.
  intros Hh Hm Hs Hl H. pose proof (@len_nil byte) as Hn.
  destruct input as [|c rest]; [cbn in H; injection H as <-; done|].
  rewrite (whole_turn _ (c :: rest) (in_body_ok b h path mode size x Hh Hm Hs) ltac:(cbn; lia) ltac:(done)
             (Ok (in_body b h (mkPending path mode size (c :: rest)) x, []))) in H.
  - cbn [res_bind] in H. by injection H as <-.
  - unfold write_turn, write_body, in_body. cbn [file pending_size pending_bytes pending_path pending_mode rows header header_bytes zero_blocks expanded padding].
    rewrite (proj2 (Z.ltb_ge _ _)) by lia. rewrite Z.min_r by lia. rewrite firstn_all', skipn_all' by lia.
    change ([] ++ c :: rest) with (c :: rest). rewrite (proj2 (Z.eqb_neq _ _)) by lia. done.
  - by intros p1 i1 [= _ <-].
Qed.

Lemma run_padding b h n x input :
  len h = 512 -> 0 < n < 512 -> 0 < len input <= n ->
  bytes_fold input (in_padding b h n x) =
  throw_if existsb nonzero input with Error Malformed ;; Ok (in_padding b h (n - len input) x).
Proof.
  intros Hh Hn Hl.
  rewrite (whole_turn _ _ (in_padding_ok b h n x Hh ltac:(lia)) ltac:(cbn; lia) (not_nil input ltac:(lia))
             (throw_if existsb nonzero input with Error Malformed ;; Ok (in_padding b h (n - len input) x, []))).
  - by destruct (existsb _ _).
  - unfold write_turn, write_padding, in_padding. cbn [file padding header_bytes header rows zero_blocks expanded].
    rewrite (proj2 (Z.eqb_neq n 0)) by lia. cbn [negb]. rewrite Z.min_r by lia. by rewrite firstn_all', skipn_all' by lia.
  - intros p' i' H. by apply guard_ok in H as [_ [= _ <-]].
Qed.

Lemma run_end b h x input :
  len h = 512 -> bytes_fold input (idle b 2 h x) = throw_if existsb nonzero input with Error Malformed ;; Ok (idle b 2 h x).
Proof.
  intros Hh. rewrite <- (loop_bytes reserve reserve_body input (length input)) by (first [lia|by apply idle_ok]).
  by destruct input.
Qed.

(** The padding and what follows it. *)
Lemma run_padded b h n x rest :
  len h = 512 -> 0 <= n < 512 ->
  bytes_fold (zeros n ++ rest) (in_padding b h n x) = bytes_fold rest (idle b 0 h x).
Proof.
  intros Hh Hn. rewrite res_fold_app. destruct (decide (n = 0)) as [->|Hne]; [done|].
  rewrite run_padding by (rewrite ?len_zeros; lia). rewrite all_zero_existsb, all_zero_zeros, len_zeros by lia.
  cbn [negb res_bind]. by rewrite Z.sub_diag.
Qed.

Lemma run_entry b h0 x e b' rest :
  len h0 = 512 -> add_entry b e = Ok b' ->
  len (entry_header e) = 512 /\
  bytes_fold (entry_bytes e ++ rest) (idle b 0 h0 x) = bytes_fold rest (idle b' 0 (entry_header e) x).
Proof.
  intros Hh0 H. unfold add_entry in H. apply guard_ok in H as [G H]. apply orb_false_iff in G as [Hl Hz]. bool_to_prop.
  apply bind_ok in H as ([[path mode] size] & Hh & H). apply guard_ok in H as [Hs H]. apply guard_ok in H as [Hr H].
  bool_to_prop. split; [done|]. unfold entry_bytes. rewrite <- !app_assoc, res_fold_app, run_header by (done || lia).
  pose proof (tar_header_range _ _ _ _ Hh) as [Hm Hsr].
  assert (exists adds, plan b path mode size = Ok adds) as [adds Hp].
  { pose proof H as Hp. unfold push in Hp. apply bind_ok in Hp as (adds & Hp & _). rewrite Hs. by exists adds. }
  unfold header_complete. cbn [header zero_blocks rows file padding expanded].
  change (forallb (fun b0 : byte => negb (nonzero b0)) (entry_header e)) with (all_zero (entry_header e)).
  rewrite Hz, Hh. cbn [Z.eqb negb res_bind]. rewrite Hp. cbn [res_bind].
  destruct (Z.eqb_spec size 0) as [E|E]; cbn [negb andb] in Hr.
  - assert (entry_body e = []) as Eb by (destruct (entry_body e); [done|]; rewrite len_cons in Hs; pose proof (len_nonneg l); lia).
    rewrite Eb in *. rewrite H. cbn [res_bind app]. reflexivity.
  - rewrite Hr. cbn [res_bind negb]. rewrite res_fold_app.
    change (mkTar b (entry_header e) 0 (Some (mkPending path mode size [])) 0 0 x)
      with (in_body b (entry_header e) (mkPending path mode size []) x).
    rewrite run_body, H by (done || lia). cbn [res_bind]. rewrite <- Hs.
    apply run_padded; [done|apply pad_range].
Qed.

Lemma run_entries entries b h0 x b' rest :
  len h0 = 512 -> res_fold add_entry entries b = Ok b' ->
  exists h, len h = 512 /\
  bytes_fold (concat (map entry_bytes entries) ++ rest) (idle b 0 h0 x) = bytes_fold rest (idle b' 0 h x).
Proof.
  revert b h0. induction entries as [|e entries IH]; intros b h0 Hh0 H; cbn [res_fold map concat] in *.
  - injection H as <-. by exists h0.
  - apply bind_ok in H as (b1 & He & H). destruct (run_entry b h0 x e b1 (concat (map entry_bytes entries) ++ rest) Hh0 He) as [Hl E].
    rewrite <- app_assoc, E. by apply IH.
Qed.

Definition final (p : TarParser) : Prop :=
  zero_blocks p = 2 /\ file p = None /\ header_bytes p = 0 /\ padding p = 0.

(** Whatever the parser accepts is laid out that way. *)
Lemma run_inv n input b h0 x p' :
  (length input <= n)%nat -> len h0 = 512 -> bytes_fold input (idle b 0 h0 x) = Ok p' -> final p' ->
  exists entries zs b', input = concat (map entry_bytes entries) ++ zs /\ all_zero zs = true /\ 1024 <= len zs /\
    res_fold add_entry entries b = Ok b' /\ rows p' = b'.
Proof.
  revert input b h0. induction n as [|n IH]; intros input b h0 Hn Hh0 H (Fz & Ff & Fh & Fp).
  { destruct input; [|cbn in Hn; lia]. cbn in H. injection H as <-. done. }
  destruct (Z.ltb_spec (len input) 512) as [Hl|Hl].
  { apply run_partial_header in H; [|done|lia|done]. destruct H; [done|lia]. }
  destruct (split_at input 512) as (h & rest & -> & Hh); [lia|]. rewrite res_fold_app, run_header in H by (done || lia).
  apply bind_ok in H as (p1 & Hc & H). unfold header_complete in Hc.
  cbn [header zero_blocks rows file padding expanded] in Hc.
  change (forallb (fun b0 : byte => negb (nonzero b0)) h) with (all_zero h) in Hc.
  rewrite length_app in Hn. unfold len in Hh. rewrite len_app in Hl. fold (len h) in Hh.
  destruct (all_zero h) eqn:Ez.
  - injection Hc as <-. change (mkTar b h 0 None 0 (0 + 1) x) with (idle b 1 h x) in H.
    destruct (Z.ltb_spec (len rest) 512) as [Hl2|Hl2].
    { apply run_partial_header in H; [|done|lia|done]. destruct H; [done|lia]. }
    destruct (split_at rest 512) as (h2 & zs & -> & Hh2); [lia|]. rewrite res_fold_app, run_header in H by (done || lia).
    apply bind_ok in H as (p2 & Hc & H). unfold header_complete in Hc.
    cbn [header zero_blocks rows file padding expanded] in Hc.
    change (forallb (fun b0 : byte => negb (nonzero b0)) h2) with (all_zero h2) in Hc.
    destruct (all_zero h2) eqn:Ez2; [|discriminate]. injection Hc as <-.
    change (mkTar b h2 0 None 0 (1 + 1) x) with (idle b 2 h2 x) in H. rewrite run_end in H by done.
    apply guard_ok in H as [Hzs [= <-]]. rewrite all_zero_existsb, negb_false_iff in Hzs.
    exists [], (h ++ h2 ++ zs), b. cbn [map concat app res_fold]. split_and!; try done.
    + unfold all_zero in *. by rewrite !forallb_app, Ez, Ez2, Hzs.
    + rewrite !len_app. pose proof (len_nonneg zs). lia.
  - cbn [Z.eqb negb] in Hc. apply bind_ok in Hc as ([[path mode] size] & Hth & Hc).
    pose proof (tar_header_range _ _ _ _ Hth) as [Hm Hs]. apply bind_ok in Hc as (adds & Hp & Hc).
    destruct (Z.eqb_spec size 0) as [E|E].
    + apply bind_ok in Hc as (b1 & Hpush & [= <-]). change (mkTar b1 h 0 None 0 0 x) with (idle b1 0 h x) in H.
      destruct (IH rest b1 h) as (entries & zs & b' & -> & Hzs & Hlz & Hfold & Hr); [unfold len in *; lia|done|done|done|].
      exists (mkEntry h [] :: entries), zs, b'. cbn [map concat res_fold]. split_and!; try done.
      * unfold entry_bytes. cbn [entry_header entry_body app]. change (zeros (pad_of (len []))) with (@nil byte).
        by rewrite app_nil_r, app_assoc.
      * ok_bind (unfold add_entry; cbn [entry_header entry_body]; rewrite Hh, Ez, Hth; cbn [Z.eqb Pos.eqb negb orb res_bind];
                 rewrite E; exact Hpush). exact Hfold.
    + apply guard_ok in Hc as [Hres [= <-]]. rewrite negb_false_iff in Hres.
      change (mkTar b h 0 (Some (mkPending path mode size [])) 0 0 x) with (in_body b h (mkPending path mode size []) x) in H.
      destruct (Z.ltb_spec (len rest) size) as [Hl2|Hl2].
      { by apply run_partial_body in H; [|done|done|lia|done]. }
      destruct (split_at rest size) as (body & rest2 & -> & Hb); [lia|].
      rewrite res_fold_app, run_body in H by (done || lia). apply bind_ok in H as (p2 & Hpush & H).
      apply bind_ok in Hpush as (b1 & Hpush & [= <-]). pose proof (pad_range size) as Hpad.
      rewrite !length_app in Hn. unfold len in Hh. fold (len h) in Hh.
      assert (exists rest3, rest2 = zeros (pad_of size) ++ rest3 /\ bytes_fold rest3 (idle b1 0 h x) = Ok p') as (rest3 & -> & H3).
      { destruct (decide (pad_of size = 0)) as [E0|E0]; [rewrite E0 in *; by exists rest2|].
        destruct (Z.ltb_spec (len rest2) (pad_of size)) as [Hl3|Hl3].
        - exfalso. destruct rest2 as [|c rest2]; [cbn in H; injection H as <-; done|].
          pose proof (len_cons_pos c rest2). rewrite run_padding in H by (done || lia). apply guard_ok in H as [_ [= <-]].
          cbn [in_padding padding] in Fp. lia.
        - destruct (split_at rest2 (pad_of size)) as (zs & rest3 & -> & Hzs); [lia|]. exists rest3.
          rewrite res_fold_app, run_padding in H by (done || lia). apply bind_ok in H as (p3 & Hg & H).
          apply guard_ok in Hg as [Hg [= <-]]. rewrite all_zero_existsb, negb_false_iff in Hg. apply all_zero_spec in Hg.
          rewrite Hzs in *. split; [by rewrite <- Hg|]. by rewrite Z.sub_diag in H. }
      destruct (IH rest3 b1 h) as (entries & zs & b' & -> & Hzs & Hlz & Hfold & Hr); [rewrite length_app in Hn; unfold len in *; lia|done|done|done|].
      exists (mkEntry h body :: entries), zs, b'. cbn [map concat res_fold]. split_and!; try done.
      * unfold entry_bytes. cbn [entry_header entry_body]. rewrite Hb. by rewrite <- !app_assoc.
      * ok_bind (unfold add_entry; cbn [entry_header entry_body]; rewrite Hh, Ez, Hth; cbn [Z.eqb Pos.eqb negb orb res_bind];
                 rewrite Hb, Z.eqb_refl, Hres, andb_false_r; cbn [negb]; exact Hpush). exact Hfold.
Qed.

Lemma entries_aligned entries b b' :
  res_fold add_entry entries b = Ok b' -> len (concat (map entry_bytes entries)) mod 512 = 0.
Proof.
  revert b. induction entries as [|e entries IH]; intros b H; cbn [res_fold map concat] in *; [done|].
  apply bind_ok in H as (b1 & He & H). rewrite len_app. specialize (IH _ H).
  unfold add_entry in He. apply guard_ok in He as [G _]. apply orb_false_iff in G as [Hl _]. bool_to_prop.
  unfold entry_bytes at 1. pose proof (pad_range (len (entry_body e))).
  assert ((len (entry_body e) + pad_of (len (entry_body e))) mod 512 = 0) by (unfold pad_of; zmod).
  rewrite !len_app, len_zeros, Hl by lia. zmod.
Qed.
End parser.
End Format.
Import Format.

(** ** No panic *)
Module TarSafe.

Lemma ok_or_runs {A} (o : option A) (e : CaptureError) : runs (ok_or o (Error e)) (fun _ => True).
Proof. by destruct o. Qed.

Lemma octal_digits_runs bytes v : runs (octal_digits bytes v) (fun _ => True).
Proof.
  revert v. induction bytes as [|b bytes IH]; intros v; cbn [octal_digits]; [done|].
  destruct (_ && _); [|done]. eapply runs_bind; [apply ok_or_runs|]. intros v' _ _. apply IH.
Qed.

Lemma octal_runs bytes : runs (octal bytes) (fun _ => True).
Proof.
  unfold octal. destruct (break _ _). eapply runs_bind; [apply octal_digits_runs|]. intros [v t] _ _.
  by apply runs_guard.
Qed.

Lemma tar_text_runs bytes : runs (tar_text bytes) (fun _ => True).
Proof. unfold tar_text. destruct (break _ _). by apply runs_guard. Qed.

Lemma map_err_runs {E A} (m : result E A) (e : CaptureError) : runs (map_err (fun _ => Error e) m) (fun _ => True).
Proof. by destruct m. Qed.

#[local] Ltac run := first
  [ exact I
  | apply runs_guard; intros _
  | apply runs_bind with (P := fun _ => True); [|intros ? _ _]
  | apply octal_runs | apply tar_text_runs | apply map_err_runs | apply ok_or_runs
  | apply (NoPanic.validate_path_no_panic _) ].

Lemma tar_header_runs h : runs (tar_header h) (fun _ => True).
Proof.
  unfold tar_header. cbv zeta. repeat run. destruct (bool_decide _); [apply map_err_runs|done].
Qed.

Section parser.
Context (reserve : SourceRowsBuilder -> bool) (reserve_body : SourceRowsBuilder -> Z -> bool).

(** The parsers that writes reach. *)
Definition sound (p : TarParser) : Prop := ok p /\ reachable reserve (rows p) /\ 0 <= expanded p.

Lemma push_runs b path mode bytes :
  reachable reserve b -> 0 <= mode <= u32_max ->
  runs (push reserve b path mode bytes) (reachable reserve).
Proof.
  intros Hb Hm. pose proof (reachable_wf _ _ Hb) as [_ _ _ _ _ W _].
  eapply runs_mono; [by apply NoPanic.push_no_panic|]. intros b' Hp _. by eapply reach_push.
Qed.

Lemma header_complete_runs p :
  reachable reserve (rows p) ->
  runs (header_complete reserve reserve_body p) (fun p' => reachable reserve (rows p')).
Proof.
  intros Hb. pose proof (reachable_wf _ _ Hb) as [_ _ _ _ _ W _]. unfold header_complete.
  destruct (forallb _ _); [done|]. apply runs_guard. intros _.
  eapply runs_bind; [apply tar_header_runs|]. intros [[path mode] size] Hh _. apply tar_header_range in Hh as [Hm _].
  eapply runs_bind; [by apply NoPanic.plan_no_panic|]. intros adds _ _.
  destruct (size =? 0).
  - eapply runs_bind; [by apply push_runs|]. intros b' _ Hb'. done.
  - by apply runs_guard.
Qed.

Lemma turn_runs p input :
  ok p -> reachable reserve (rows p) ->
  runs (write_turn reserve reserve_body p input) (fun r => reachable reserve (rows r.1)).
Proof.
  intros Hp Hb. pose proof Hp as [[H1 H2] [H3 H3'] H4 H5]. unfold write_turn.
  destruct (file p) as [f|] eqn:Hf; [|destruct (negb _)].
  - destruct (H5 f eq_refl) as (Hm & Hl & _). unfold write_body. rewrite (proj2 (Z.ltb_ge _ _)) by lia.
    destruct (_ =? _); [|done]. eapply runs_bind; [by apply push_runs|]. intros b' _ Hb'. done.
  - unfold write_padding. by apply runs_guard.
  - unfold write_header. rewrite (proj2 (Z.ltb_ge _ _)) by lia. destruct (_ =? _); [|done].
    eapply runs_bind; [by apply header_complete_runs|]. intros p' _ Hp'. done.
Qed.

Lemma step_runs p c : sound p -> runs (step reserve reserve_body p c) sound.
Proof.
  intros (Hp & Hb & Hx). eapply (runs_mono _ (fun p' => reachable reserve (rows p'))).
  - unfold step. cbn [write_loop]. destruct (_ =? 2); [by apply runs_guard|].
    eapply runs_bind; [by apply turn_runs|]. intros [p' i'] Ht Hb'. cbn [fst] in Hb'.
    by rewrite (turn_one _ _ _ _ _ _ Hp Ht).
  - intros p' Hs Hb'. destruct (step_ok _ _ _ _ _ Hp Hs) as [? E]. split_and!; [done|done|lia].
Qed.

Lemma write_runs p input :
  sound p -> runs (write reserve reserve_body p input) (fun p' => sound p' /\ expanded p' <= MAX_EXPANDED_BYTES).
Proof.
  intros (Hp & Hb & Hx). unfold write, checked_add. pose proof (len_nonneg input).
  destruct (_ <=? u64_max); [|done]. cbn [mbind option_bind].
  destruct (Z.leb_spec (expanded p + len input) MAX_EXPANDED_BYTES) as [Hle|]; [|done]. cbn [ok_or res_bind].
  assert (sound (set_expanded p (expanded p + len input))) as Hs.
  { split_and!; [by destruct Hp; split|done|cbn; lia]. }
  rewrite loop_bytes by (done || apply Hs). eapply runs_mono.
  - apply (runs_fold _ sound); [|exact Hs]. intros q c _ Hq. by apply step_runs.
  - intros p' Hf Hs'. split; [done|]. apply fold_ok in Hf as [_ E]; [|apply Hs]. rewrite E. done.
Qed.

Lemma new_sound : sound new.
Proof. split_and!; [apply ok_new|constructor|done]. Qed.

(** The parsers that chunks lead to. *)
Lemma writes_sound chunks p :
  res_fold (write reserve reserve_body) chunks new = Ok p -> sound p /\ expanded p <= MAX_EXPANDED_BYTES.
Proof.
  apply (res_fold_inv _ (fun p => sound p /\ expanded p <= MAX_EXPANDED_BYTES)).
  - intros q c q' _ [Hq _] Hw. exact (runs_ok _ _ _ (write_runs q c Hq) Hw).
  - split; [apply new_sound|done].
Qed.

Lemma finish_runs p : runs (finish p) (fun _ => True).
Proof. unfold finish. apply runs_guard. intros _. apply finish_no_panic. Qed.

Lemma big_digest_runs bytes : len bytes <= MAX_INPUT_BYTES -> runs (byte_digest bytes) (fun _ => True).
Proof.
  intros Hl. assert (8 * len bytes <= u64_max) by (unfold MAX_INPUT_BYTES, u64_max in *; lia).
  rewrite byte_digest_spec by done. destruct (sha256_hex_total bytes) as (d & -> & _); done.
Qed.

Lemma capture_archive_runs bytes format digest :
  runs (capture_archive reserve reserve_body bytes format digest) (fun _ => True).
Proof.
  unfold capture_archive. apply runs_guard. intros Hl%Z.ltb_ge. apply runs_guard. intros _.
  eapply runs_bind; [by apply big_digest_runs|]. intros d _ _. apply runs_guard. intros _.
  eapply (runs_bind _ _ (fun _ => True)); [|intros p _ _; apply finish_runs]. destruct format.
  - apply runs_guard. intros _. eapply runs_mono; [apply write_runs, new_sound|done].
  - eapply (runs_bind _ _ (fun _ => True)); [|by intros [n p]].
    apply Safe.decode_runs; [|done]. intros chunks p c Hf _. apply writes_sound in Hf as [Hs _].
    eapply runs_mono; [by apply write_runs|done].
Qed.

(** *** Writing in pieces *)
Lemma write_fold p input :
  ok p -> 0 <= expanded p ->
  write reserve reserve_body p input =
    if expanded p + len input <=? MAX_EXPANDED_BYTES
    then res_fold (step reserve reserve_body) input (set_expanded p (expanded p + len input))
    else Err (Error Limit).
Proof.
  intros Hp Hx. unfold write, checked_add. pose proof (len_nonneg input).
  destruct (Z.leb_spec (expanded p + len input) MAX_EXPANDED_BYTES) as [Hle|Hgt].
  - assert (expanded p + len input <= u64_max) as Hu by (unfold MAX_EXPANDED_BYTES, u64_max in *; lia).
    rewrite (proj2 (Z.leb_le _ _) Hu). cbn [mbind option_bind]. rewrite (proj2 (Z.leb_le _ _) Hle). cbn [ok_or res_bind].
    apply loop_bytes; [by destruct Hp; split|done].
  - destruct (_ <=? u64_max); [|done]. cbn [mbind option_bind]. by rewrite (proj2 (Z.leb_gt _ _) Hgt).
Qed.

Lemma set_expanded_twice p x y : set_expanded (set_expanded p x) y = set_expanded p y.
Proof. done. Qed.

Lemma write_app p a b :
  ok p -> 0 <= expanded p -> expanded p + len a + len b <= MAX_EXPANDED_BYTES ->
  write reserve reserve_body p (a ++ b) =
  let? p1 := write reserve reserve_body p a in write reserve reserve_body p1 b.
Proof.
  intros Hp Hx Hl. pose proof (len_nonneg a). pose proof (len_nonneg b).
  rewrite (write_fold p a), (write_fold p (a ++ b)) by done. rewrite len_app.
  rewrite !(proj2 (Z.leb_le _ _)) by lia. rewrite res_fold_app.
  rewrite (fold_expanded _ _ a p (expanded p + (len a + len b))), (fold_expanded _ _ a p (expanded p + len a)).
  destruct (res_fold (step reserve reserve_body) a p) as [p1|] eqn:E; cbn [res_bind]; [|done].
  apply fold_ok in E as [Hp1 _]; [|done].
  rewrite write_fold by (cbn; first [lia|by destruct Hp1; split]). cbn [set_expanded expanded].
  rewrite (proj2 (Z.leb_le _ _)) by lia. by rewrite Z.add_assoc.
Qed.

Lemma write_nil p : ok p -> 0 <= expanded p <= MAX_EXPANDED_BYTES -> write reserve reserve_body p [] = Ok p.
Proof.
  intros Hp Hx. rewrite write_fold by (done || lia). change (len []) with 0. rewrite Z.add_0_r, (proj2 (Z.leb_le _ _)) by lia.
  cbn. by destruct p.
Qed.

Lemma writes_concat chunks p :
  sound p -> expanded p + len (concat chunks) <= MAX_EXPANDED_BYTES ->
  res_fold (write reserve reserve_body) chunks p = write reserve reserve_body p (concat chunks).
Proof.
  revert p. induction chunks as [|c chunks IH]; intros p Hp Hl; cbn [res_fold concat] in *.
  - rewrite write_nil; [done|apply Hp|]. destruct Hp as (_ & _ & ?). change (len []) with 0 in Hl. lia.
  - rewrite len_app in Hl. rewrite write_app by (apply Hp || lia).
    destruct (write reserve reserve_body p c) as [p1|] eqn:E; cbn [res_bind]; [|done].
    apply IH; [exact (proj1 (runs_ok _ _ _ (write_runs p c Hp) E))|].
    rewrite write_fold in E by apply Hp. destruct (_ <=? _); [|discriminate].
    apply fold_ok in E as [_ ->]; [|by destruct Hp as ([] & _ & _); split]. cbn. lia.
Qed.

Lemma writes_expanded chunks p p' :
  sound p -> res_fold (write reserve reserve_body) chunks p = Ok p' -> expanded p' = expanded p + len (concat chunks).
Proof.
  revert p. induction chunks as [|c chunks IH]; intros p Hp H; cbn [res_fold concat] in *.
  - injection H as <-. change (len []) with 0. lia.
  - apply bind_ok in H as (p1 & Hw & H). pose proof (runs_ok _ _ _ (write_runs p c Hp) Hw) as [Hp1 _].
    rewrite (IH p1 Hp1 H), len_app. rewrite write_fold in Hw by apply Hp. destruct (_ <=? _); [|discriminate].
    apply fold_ok in Hw as [_ ->]; [|by destruct Hp as ([] & _ & _); split]. cbn. lia.
Qed.

(** *** The rows of a stream *)
Definition tar_rows (bytes : list byte) : capture CapturedSourceRows :=
  let? p := write reserve reserve_body new bytes in finish p.

Lemma finish_final p r :
  finish p = Ok r <-> final p /\ expanded p mod 512 = 0 /\ SourceRows.finish (rows p) = Ok r.
Proof.
  unfold finish, final. rewrite guard_ok, !orb_false_iff, !negb_false_iff, !Z.eqb_eq, bool_decide_eq_false.
  destruct (file p); split; intros H; destruct_and?; split_and?; try done; exfalso; eauto.
Qed.

Lemma tar_rows_spec bytes r :
  tar_rows bytes = Ok r <->
  len bytes <= MAX_EXPANDED_BYTES /\
  exists entries k b, bytes = archive_bytes entries k /\
    res_fold (add_entry reserve reserve_body) entries SourceRows.new = Ok b /\ SourceRows.finish b = Ok r.
Proof.
  unfold tar_rows. rewrite write_fold by (done || apply ok_new). change (expanded new) with 0. rewrite Z.add_0_l.
  change (set_expanded new (len bytes)) with (idle SourceRows.new 0 (replicate 512 x00) (len bytes)).
  rewrite bind_ok. split.
  - intros (p & Hw & Hf). destruct (Z.leb_spec (len bytes) MAX_EXPANDED_BYTES) as [Hl|]; [|discriminate]. split; [done|].
    apply finish_final in Hf as (Hfin & Hx & Hr).
    pose proof (fold_ok _ _ _ _ _ (idle_ok SourceRows.new 0 (replicate 512 x00) (len bytes) eq_refl ltac:(lia)) Hw) as [_ He].
    destruct (run_inv reserve reserve_body (length bytes) bytes SourceRows.new (replicate 512 x00) (len bytes) p
                (le_n _) eq_refl Hw Hfin) as (entries & zs & b & Hb & Hz & Hzl & Hfold & Hrows).
    exists entries, (Z.to_nat ((len zs - 1024) / 512)), b. split_and!; [|done|by rewrite <- Hrows].
    rewrite He in Hx. cbn [idle expanded] in Hx. rewrite Hb, len_app in Hx.
    pose proof (entries_aligned _ _ _ _ _ Hfold) as Ha. unfold archive_bytes. rewrite Hb. f_equal.
    apply all_zero_spec in Hz. rewrite Hz at 1. f_equal. zmod.
  - intros (Hl & entries & k & b & -> & Hfold & Hr). rewrite (proj2 (Z.leb_le _ _) Hl).
    destruct (run_entries reserve reserve_body entries SourceRows.new (replicate 512 x00) (len (archive_bytes entries k)) b
                (zeros (1024 + 512 * Z.of_nat k)) eq_refl Hfold) as (h & Hh & E).
    unfold archive_bytes at 1. rewrite E.
    replace (zeros (1024 + 512 * Z.of_nat k)) with (zeros 512 ++ zeros 512 ++ zeros (512 * Z.of_nat k)).
    2: { unfold zeros. rewrite <- !replicate_add. f_equal. lia. }
    exists (idle b 2 (zeros 512) (len (archive_bytes entries k))). split.
    + rewrite res_fold_app, run_header by (done || lia). unfold header_complete. cbn [header zero_blocks rows file padding expanded].
      change (forallb _ (zeros 512)) with true. cbn iota. cbn [res_bind].
      rewrite res_fold_app. change (mkTar b (zeros 512) 0 None 0 (0 + 1) (len (archive_bytes entries k)))
        with (idle b 1 (zeros 512) (len (archive_bytes entries k))).
      rewrite run_header by (done || lia). unfold header_complete. cbn [header zero_blocks rows file padding expanded].
      change (forallb _ (zeros 512)) with true. cbn iota. cbn [res_bind].
      change (mkTar b (zeros 512) 0 None 0 (1 + 1) (len (archive_bytes entries k)))
        with (idle b 2 (zeros 512) (len (archive_bytes entries k))).
      rewrite run_end by done. by rewrite all_zero_existsb, all_zero_zeros by lia.
    + apply finish_final. split_and!; try done. cbn [idle expanded]. unfold archive_bytes.
      rewrite len_app, len_zeros by lia. pose proof (entries_aligned _ _ _ _ _ Hfold). zmod.
Qed.
End parser.
End TarSafe.
Import TarSafe.

(** ** Properties *)

Definition grant_body (b : SourceRowsBuilder) (size : Z) : bool := true.

(** [gzip] of the empty archive, 1024 zero bytes. *)
Definition sample_gzip : list byte :=
  [x1f; x8b; x08; x00; x00; x00; x00; x00; x02; x03; x63; x60; x18; x05; xa3; x60; x14; x8c; x54;
   x00; x00; x2e; xaf; xb5; xef; x00; x04; x00; x00].
Definition sample_digest : string := "deb230b21e0d7ef6a0a2d65a19599d4251b5f08888a5155882fbef2ef71e1e11".
Definition sample_inventory : CapturedSourceRows :=
  match SourceRows.finish SourceRows.new with Ok r => r | Err _ => mkRows [] 0 "" end.

(** An archive that the parser accepts does not look like a gzip stream. *)
Lemma break_first f c bytes : f c = false -> exists p q, break f (c :: bytes) = (c :: p, q).
Proof. intros Hf. cbn. rewrite Hf. destruct (break f bytes) as [p q]. by exists p, q. Qed.

Lemma not_gzip reserve reserve_body entries k b :
  res_fold (add_entry reserve reserve_body) entries SourceRows.new = Ok b ->
  firstn 2 (archive_bytes entries k) <> [x1f; x8b].
Proof.
  intros H. destruct entries as [|e entries]; cbn [res_fold] in H.
  - unfold archive_bytes, zeros. replace (Z.to_nat (1024 + 512 * Z.of_nat k)) with (S (S (1022 + 512 * k))) by lia.
    discriminate.
  - apply bind_ok in H as (b1 & He & _). unfold add_entry in He.
    apply guard_ok in He as [G He]. apply orb_false_iff in G as [Hl _]. bool_to_prop.
    apply bind_ok in He as ([[path mode] size] & Hh & _). intros E.
    unfold archive_bytes in E. cbn [map concat] in E. unfold entry_bytes in E at 1. rewrite <- !app_assoc in E.
    destruct (entry_header e) as [|c h]; [done|]. cbn [app] in E.
    assert (c = x1f) as -> by (destruct (h ++ _); by injection E).
    unfold tar_header in Hh. cbv zeta in Hh. clear E.
    assert (map_err (fun _ => Error Path) (tar_text (firstn 100 (x1f :: h))) = Err (Error Path) :> capture string) as Ht.
    { change (firstn 100 (x1f :: h)) with (x1f :: firstn 99 h). unfold tar_text.
      destruct (break_first (fun b => bool_decide (b = x00)) x1f (firstn 99 h)
        (bool_decide_eq_false_2 (x1f = x00) ltac:(discriminate))) as (p & q & ->).
      cbn [existsb]. by rewrite orb_true_r. }
    rewrite Ht in Hh. cbn [res_bind] in Hh. clear Ht Hl.
    repeat (apply guard_ok in Hh as [_ Hh] || apply bind_ok in Hh as (? & _ & Hh)). discriminate Hh.
Qed.

(** The parser does not see where its input is cut: writing chunks one after
    the other gives the same parser, or the same error, as writing them at once,
    while their total stays within the limit of 144 MiB; beyond it both are
    refused. *)
Theorem tar_chunks_independent reserve reserve_body chunks :
  (len (concat chunks) <= MAX_EXPANDED_BYTES ->
   res_fold (write reserve reserve_body) chunks new = write reserve reserve_body new (concat chunks)) /\
  (MAX_EXPANDED_BYTES < len (concat chunks) ->
   write reserve reserve_body new (concat chunks) = Err (Error Limit) /\
   forall p, res_fold (write reserve reserve_body) chunks new <> Ok p).
Proof.
  split; intros Hl.
  - apply writes_concat; [apply new_sound|]. change (expanded new) with 0. lia.
  - split.
    + rewrite write_fold by (done || apply ok_new). change (expanded new) with 0. by rewrite (proj2 (Z.leb_gt _ _)) by lia.
    + intros p H. pose proof (writes_expanded _ _ _ _ _ (new_sound reserve) H) as E.
      apply writes_sound in H as [_ H]. rewrite E in H. change (expanded new) with 0 in H. lia.
Qed.

Lemma tar_chunks_independent_witness :
  len (concat [[x00]; [x00; x00]]) <= MAX_EXPANDED_BYTES /\
  res_fold (write grant grant_body) [[x00]; [x00; x00]] new = write grant grant_body new [x00; x00; x00].
Proof.
  split; [unfold len, MAX_EXPANDED_BYTES; cbn; lia|].
  apply (proj1 (tar_chunks_independent grant grant_body [[x00]; [x00; x00]])).
  unfold len, MAX_EXPANDED_BYTES; cbn; lia.
Defined.

(** C5. [capture_archive] accepts exactly the plain archives of the format: the
    declared digest is well formed and is that of the bytes, and the bytes are
    entries (header, body, zero padding to 512) followed by at least two zero
    blocks, where each header passes [tar_header] and announces the length of
    its body and the files can be added to the rows in order.  The result is the
    inventory of just these files. *)
Theorem capture_tar_exact reserve reserve_body bytes digest r :
  capture_archive reserve reserve_body bytes Tar digest = Ok r <->
  valid_digest digest = true /\ byte_digest bytes = Ok digest /\ len bytes <= MAX_INPUT_BYTES /\
  exists entries k b, bytes = archive_bytes entries k /\
    res_fold (add_entry reserve reserve_body) entries SourceRows.new = Ok b /\ SourceRows.finish b = Ok r.
Proof.
  unfold capture_archive. rewrite guard_ok, guard_ok, bind_ok, Z.ltb_ge, negb_false_iff. split.
  - intros (Hl & Hv & d & Hd & H). apply guard_ok in H as [E H]. bool_to_prop. subst d.
    apply bind_ok in H as (p & Hp & H). apply guard_ok in Hp as [_ Hp].
    assert (tar_rows reserve reserve_body bytes = Ok r) as Hr by (unfold tar_rows; ok_bind (exact Hp); exact H).
    apply tar_rows_spec in Hr as [_ Hr]. done.
  - intros (Hv & Hd & Hl & Hr). split_and!; [done..|]. exists digest. split; [done|].
    ok_guard (rewrite negb_false_iff; by apply bool_decide_eq_true).
    assert (tar_rows reserve reserve_body bytes = Ok r) as Ht by (apply tar_rows_spec; done).
    unfold tar_rows in Ht. apply bind_ok in Ht as (p & Hw & Hf). ok_bind (ok_guard (
      destruct Hr as (entries & k & b & -> & Hfold & _); apply bool_decide_eq_false; by eapply not_gzip); exact Hw).
    exact Hf.
Qed.

(** Capturing a gzip archive is capturing the tar archive inside: when it
    succeeds, the stream decodes, by the decoder over lists, to an archive of the
    format above, and the rows are those of its entries, as they would be for
    that archive given in plain. *)
Theorem capture_gzip_is_tar reserve reserve_body bytes digest r :
  capture_archive reserve reserve_body bytes TarGzip digest = Ok r ->
  byte_digest bytes = Ok digest /\
  exists out, Members.spec_decode bytes MAX_EXPANDED_BYTES = Ok out /\
  exists entries k b, out = archive_bytes entries k /\
    res_fold (add_entry reserve reserve_body) entries SourceRows.new = Ok b /\ SourceRows.finish b = Ok r.
Proof.
  unfold capture_archive. intros H. apply guard_ok in H as [_ H]. apply guard_ok in H as [_ H].
  apply bind_ok in H as (d & Hd & H). apply guard_ok in H as [E H]. bool_to_prop. subst d. split; [done|].
  apply bind_ok in H as (p & Hp & H). apply bind_ok in Hp as ([n q] & Hdec & [= ->]).
  apply Members.decode_sim in Hdec as (out & chunks & Hspec & <- & _ & Hfold & -> & Hl); [|done].
  exists (concat chunks). split; [done|].
  rewrite writes_concat in Hfold by (first [apply new_sound|change (expanded new) with 0; lia]).
  assert (tar_rows reserve reserve_body (concat chunks) = Ok r) as Hr by (unfold tar_rows; ok_bind (exact Hfold); exact H).
  apply tar_rows_spec in Hr as [_ Hr]. done.
Qed.

Lemma capture_gzip_is_tar_witness :
  row_files sample_inventory = [] /\ byte_digest sample_gzip = Ok sample_digest /\
  exists out, Members.spec_decode sample_gzip MAX_EXPANDED_BYTES = Ok out /\
  exists entries k b, out = archive_bytes entries k /\
    res_fold (add_entry grant grant_body) entries SourceRows.new = Ok b /\
    SourceRows.finish b = Ok sample_inventory.
Proof.
  split; [vm_compute; reflexivity|].
  apply (capture_gzip_is_tar grant grant_body sample_gzip sample_digest sample_inventory).
  vm_compute. reflexivity.
Defined.

(** Capturing an archive never panics and always ends, for every input of
    either format, whatever digest is declared and whatever the allocator
    answers. *)
Theorem capture_archive_safe reserve reserve_body bytes format digest :
  capture_archive reserve reserve_body bytes format digest <> Err Panic /\
  capture_archive reserve reserve_body bytes format digest <> Err OutOfFuel.
Proof. exact (runs_not_stuck _ _ (capture_archive_runs reserve reserve_body bytes format digest)). Qed.
