(* ===== verification/Directory.v ===== *)
(** * Capture of a source directory ([p2-d2-supervisor/src/lib.rs])

    The walk over a held directory that collects its files into the
    [SourceRowsBuilder].  The directory handle itself wraps system calls
    ([linux-abi/src/lib.rs]); here it is the interface [PinnedDirectory], whose
    operations act on an explicit world, since another process may change the
    tree between two calls. *)

From S2P Require Import Prelude Paths SourceRows.

Definition MAX_ENTRIES : Z := MAX_SOURCE_FILES + MAX_DIRECTORIES.
Definition MAX_NAME_BYTES : Z := MAX_ENTRIES * 255.

(** [CaptureIoFailure]; [None] is an error that [from_io] does not name. *)
Inductive CaptureIoFailure : Set :=
| IoPath | IoType | IoLimit | IoRace | IoUnsupported.
Definition io_error : Set := option CaptureIoFailure.

Definition capture_io (error : io_error) : failure CaptureError :=
  Error match error with
        | Some IoPath => Path
        | Some IoType => Type_
        | Some IoLimit => Limit
        | Some IoRace => Race
        | Some IoUnsupported => Unsupported
        | None => Io
        end.

Record FileIdentity : Set := mkIdentity {
  device : Z;
  inode : Z;
  identity_mode : Z;
  links : Z;
  uid : Z;
  gid : Z;
  size : Z;
  modified_seconds : Z;
  modified_nanoseconds : Z;
  changed_seconds : Z;
  changed_nanoseconds : Z
}.
#[export] Instance FileIdentity_eq_dec : EqDecision FileIdentity.
Proof. solve_decision. Defined.

Record DirectoryEntryIdentity : Set := mkDirEntry {
  name : string;
  entry_identity : FileIdentity
}.
#[export] Instance DirectoryEntryIdentity_eq_dec : EqDecision DirectoryEntryIdentity.
Proof. solve_decision. Defined.

Record CapturedRegularFile : Set := mkCapturedFile {
  captured_bytes : list byte;
  captured_identity : FileIdentity
}.

(** What the walk uses of [PinnedDirectory]. *)
Class PinnedDirectory (Dir World : Type) : Type := {
  identity : Dir -> FileIdentity;
  inventory : Dir -> Z -> Z -> World -> result io_error (list DirectoryEntryIdentity * World);
  open_child_directory : Dir -> string -> World -> result io_error (Dir * World);
  capture_regular_file : Dir -> string -> Z -> World -> result io_error (CapturedRegularFile * World)
}.

Section walk.
Context {Dir World : Type} `{PinnedDirectory Dir World}.
Variable reserve : SourceRowsBuilder -> bool.

(** The mutable state of the walk: [folded] is the local name set of one
    directory, [directories] and [rows] are shared by the whole walk. *)
Record Walk : Type := mkWalk {
  folded : gset string;
  directories : Z;
  walk_rows : SourceRowsBuilder;
  world : World
}.

(** [0o170000], [0o040000] and [0o100000]. *)
Definition S_IFMT : Z := 61440.
Definition S_IFDIR : Z := 16384.
Definition S_IFREG : Z := 32768.

(** The arm of a regular file. *)
Definition capture_file (directory : Dir) (entry : DirectoryEntryIdentity) (path : string) (s : Walk)
    : capture Walk :=
  let mode := identity_mode (entry_identity entry) in
  let? _ := validate_source_mode (Z.land mode 4095) in
  throw_if negb (links (entry_identity entry) =? 1) with Error Type_ ;;
  let? _ := check_file (walk_rows s) path (Z.land mode 511) (size (entry_identity entry)) in
  let? remaining := remaining_file_bytes (walk_rows s) in
  let? (file, w) := map_err capture_io (capture_regular_file directory (name entry) remaining (world s)) in
  throw_if negb (bool_decide (captured_identity file = entry_identity entry)) with Error Race ;;
  let? rows := push reserve (walk_rows s) path (Z.land mode 511) (captured_bytes file) in
  Ok (mkWalk (folded s) (directories s) rows w).

(** [directories.checked_add(1).filter(|count| *count <= MAX_DIRECTORIES)] *)
Definition count_directory (directories : Z) : capture Z :=
  ok_or (n ← checked_add directories 1; if n <=? MAX_DIRECTORIES then Some n else None) (Error Limit).

Definition entry_path (prefix name : string) : string :=
  if bool_decide (prefix = ""%string) then name else prefix +:+ "/" +:+ name.

(** One turn of [for entry in &before]; [recurse] captures a child directory. *)
Definition capture_entry (recurse : Dir -> string -> Walk -> capture Walk)
    (directory : Dir) (prefix : string) (depth : Z) (s : Walk) (entry : DirectoryEntryIdentity)
    : capture Walk :=
  let lower := to_ascii_lowercase (name entry) in
  throw_if bool_decide (lower ∈ folded s) with Error Path ;;
  let s := mkWalk ({[lower]} ∪ folded s) (directories s) (walk_rows s) (world s) in
  let path := entry_path prefix (name entry) in
  let? _ := validate_source_path path in
  let kind := Z.land (identity_mode (entry_identity entry)) S_IFMT in
  if kind =? S_IFDIR then
    let? count := count_directory (directories s) in
    throw_if 32 <=? depth with Error Limit ;;
    let? (child, w) := map_err capture_io (open_child_directory directory (name entry) (world s)) in
    throw_if negb (bool_decide (identity child = entry_identity entry)) with Error Race ;;
    let? inner := recurse child path (mkWalk ∅ count (walk_rows s) w) in
    Ok (mkWalk (folded s) (directories inner) (walk_rows inner) (world inner))
  else if kind =? S_IFREG then capture_file directory entry path s
  else Err (Error Type_).

(** The depth check bounds the recursion; [fuel] counts the levels left. *)
Fixpoint capture_directory (fuel : nat) (directory : Dir) (prefix : string) (depth : Z) (s : Walk)
    : capture Walk :=
  match fuel with
  | O => Err OutOfFuel
  | S fuel =>
      let? (before, w) := map_err capture_io (inventory directory MAX_ENTRIES MAX_NAME_BYTES (world s)) in
      let s := mkWalk ∅ (directories s) (walk_rows s) w in
      let? s :=
        res_fold (capture_entry (fun child path s => capture_directory fuel child path (depth + 1) s)
                    directory prefix depth) before s in
      let? (after, w) := map_err capture_io (inventory directory MAX_ENTRIES MAX_NAME_BYTES (world s)) in
      throw_if negb (bool_decide (after = before)) with Error Race ;;
      Ok (mkWalk (folded s) (directories s) (walk_rows s) w)
  end.

Definition LEVELS : nat := 33.

Definition capture_source_directory (directory : Dir) (expected : string) (w : World)
    : capture (CapturedSourceRows * World) :=
  throw_if negb (slen expected =? 64)
           || negb (forallb lower_hex (str_bytes expected))
           || forallb (fun b => bool_decide (b = x30)) (str_bytes expected)
    with Error Malformed ;;
  let? s := capture_directory LEVELS directory "" 0 (mkWalk ∅ 0 SourceRows.new w) in
  let? rows := finish (walk_rows s) in
  throw_if negb (bool_decide (row_digest rows = expected)) with Error Integrity ;;
  Ok (rows, world s).
End walk.
Arguments Walk : clear implicits.
