(* ===== verification/DirectoryFacts.v ===== *)
(** * Theorems on the capture of a source directory

    [Walks] shows that the walk of [Directory.v] terminates and never panics,
    whatever the directory does between two calls.  [Trees] gives the walk its
    meaning over a directory that presents a fixed tree: the captured rows are
    the files of the tree, in order. *)

From S2P Require Import Prelude Paths SourceRows SourceRowsFacts Directory.
Import Builder.

Abbreviation reach := SourceRowsFacts.Builder.reachable.

(** ** Every directory *)
Module Walks.
Section walks.
Context {Dir World : Type} `{PinnedDirectory Dir World}.
Variable reserve : SourceRowsBuilder -> bool.

(** What the walk keeps. *)
Definition sound (s : Walk World) : Prop :=
  reach reserve (walk_rows s) /\ 0 <= directories s <= MAX_DIRECTORIES.

Lemma io_runs {A} (m : result io_error A) : runs (map_err capture_io m) (fun _ => True).
Proof. by destruct m. Qed.

Lemma io_bind {A B} (m : result io_error A) (f : A -> capture B) Q :
  (forall a, m = Ok a -> runs (f a) Q) -> runs (res_bind (map_err capture_io m) f) Q.
Proof. intros Hf. eapply runs_bind; [apply io_runs|]. intros a Ha _. apply Hf. by apply map_err_ok in Ha. Qed.

Lemma no_panic_bind {A B} (m : capture A) (f : A -> capture B) Q :
  NoPanic.no_panic m -> (forall a, m = Ok a -> runs (f a) Q) -> runs (res_bind m f) Q.
Proof. intros Hm Hf. eapply runs_bind; [exact Hm|]. intros a Ha _. by apply Hf. Qed.

Lemma remaining_runs b : total b <= MAX_SOURCE_BYTES -> NoPanic.no_panic (remaining_file_bytes b).
Proof. intros Hb. unfold remaining_file_bytes. by rewrite (proj2 (Z.leb_le _ _) Hb). Qed.

Lemma file_mode_range m : 0 <= Z.land m 511 <= 511.
Proof. change (Z.land m 511) with (Z.land m (Z.ones 9)). rewrite Z.land_ones by lia. pose proof (Z.mod_pos_bound m (2 ^ 9) eq_refl). lia. Qed.

Lemma capture_file_runs d e p s :
  sound s -> runs (capture_file reserve d e p s) sound.
Proof.
  intros [Hr Hd]. pose proof (reachable_wf _ _ Hr) as Hwf. pose proof (wf_bytes _ Hwf) as Hb. unfold capture_file.
  apply no_panic_bind; [unfold validate_source_mode; apply NoPanic.guard_no_panic, NoPanic.ok_no_panic|]. intros [] _.
  apply runs_guard. intros _.
  apply no_panic_bind.
  { unfold check_file. apply NoPanic.bind_no_panic; [by apply NoPanic.plan_no_panic|]. intros. apply NoPanic.ok_no_panic. }
  intros [] _. apply no_panic_bind; [by apply remaining_runs|]. intros n _.
  apply io_bind. intros [f w] _. apply runs_guard. intros _.
  apply no_panic_bind; [by apply NoPanic.push_no_panic|]. intros rows Hp. split; [|done].
  cbn [walk_rows]. eapply reach_push; [exact Hr| |exact Hp]. pose proof (file_mode_range (identity_mode (entry_identity e))).
  unfold u32_max. lia.
Qed.

Lemma capture_entry_runs recurse d prefix depth s e :
  (depth < 32 -> forall c p s, sound s -> runs (recurse c p s) sound) ->
  sound s -> runs (capture_entry reserve recurse d prefix depth s e) sound.
Proof.
  intros Hrec [Hr Hd]. unfold capture_entry. apply runs_guard. intros _.
  apply no_panic_bind; [apply NoPanic.validate_path_no_panic|]. intros [] _.
  destruct (_ =? S_IFDIR); [|destruct (_ =? S_IFREG); [by apply capture_file_runs|done]].
  apply no_panic_bind; [apply NoPanic.ok_or_no_panic|]. intros n Hn%ok_or_ok.
  apply bind_Some in Hn as (m & Hm & Hn). cbn [directories] in Hm. unfold checked_add in Hm.
  destruct (_ <=? u64_max); [|discriminate]. injection Hm as <-.
  destruct (Z.leb_spec (directories s + 1) MAX_DIRECTORIES) as [Hle|]; [|discriminate]. injection Hn as <-.
  apply runs_guard. intros Hdepth%Z.leb_gt. apply io_bind. intros [c w] _. apply runs_guard. intros _.
  eapply (runs_bind _ _ sound); [|intros s' _ [Hr' Hd']; by split].
  apply Hrec; [done|]. split; [done|]. cbn [directories]. lia.
Qed.

Lemma capture_directory_runs fuel d prefix depth s :
  33 - depth <= Z.of_nat fuel -> depth <= 32 -> sound s ->
  runs (capture_directory reserve fuel d prefix depth s) sound.
Proof.
  revert d prefix depth s. induction fuel as [|fuel IH]; intros d prefix depth s Hf Hdepth [Hr Hd]; [lia|].
  cbn [capture_directory]. apply io_bind. intros [before w] _.
  eapply (runs_bind _ _ sound).
  - apply runs_fold; [|by split]. intros s' e _ Hs'. apply capture_entry_runs; [|done].
    intros Hlt c p s1 Hs1. apply IH; [lia|lia|done].
  - intros s' _ [Hr' Hd']. apply io_bind. intros [after w'] _. apply runs_guard. intros _. by split.
Qed.

Lemma capture_source_directory_runs d expected w :
  runs (capture_source_directory reserve d expected w)
    (fun r => exists b, reach reserve b /\ finish b = Ok r.1 /\ row_digest r.1 = expected).
Proof.
  unfold capture_source_directory. apply runs_guard. intros _. eapply runs_bind.
  - apply (capture_directory_runs LEVELS d "" 0); [done|done|]. split; [constructor|done].
  - intros s _ [Hr _]. apply no_panic_bind; [apply finish_no_panic|]. intros rows Hrows.
    apply runs_guard. intros Heq. bool_to_prop. by exists (walk_rows s).
Qed.
End walks.
End Walks.

(** ** A fixed tree *)
Module Trees.

(** What a directory entry names. *)
Inductive Node : Set :=
| RegularFile (bytes : list byte)
| Folder (children : list (DirectoryEntryIdentity * Node)).

Abbreviation Listing := (list (DirectoryEntryIdentity * Node)).

(** The files below an entry: path, permission bits and content. *)
Fixpoint node_files (path : string) (e : DirectoryEntryIdentity) (n : Node) : list (string * Z * list byte) :=
  match n with
  | RegularFile bytes => [(path, Z.land (identity_mode (entry_identity e)) 511, bytes)]
  | Folder children =>
      concat (map (fun child : DirectoryEntryIdentity * Node =>
                     node_files (entry_path path (name child.1)) child.1 child.2) children)
  end.
Definition child_files (prefix : string) (child : DirectoryEntryIdentity * Node) : list (string * Z * list byte) :=
  node_files (entry_path prefix (name child.1)) child.1 child.2.
Definition listing_files (prefix : string) (children : Listing) : list (string * Z * list byte) :=
  concat (map (child_files prefix) children).

(** A tree that may be captured: directories, and regular files with one link
    and no bits beyond the permissions. *)
Fixpoint capturable (e : DirectoryEntryIdentity) (n : Node) : bool :=
  let mode := identity_mode (entry_identity e) in
  match n with
  | RegularFile _ =>
      (Z.land mode S_IFMT =? S_IFREG) && (Z.land mode 4095 <=? 511) && (links (entry_identity e) =? 1)
  | Folder children =>
      (Z.land mode S_IFMT =? S_IFDIR)
      && forallb (fun child : DirectoryEntryIdentity * Node => capturable child.1 child.2) children
  end.

Definition push_row (reserve : SourceRowsBuilder -> bool) (b : SourceRowsBuilder) (row : string * Z * list byte)
    : capture SourceRowsBuilder :=
  let '(p, m, bytes) := row in push reserve b p m bytes.

(** The directory handles of a tree that does not change: [presents d c] says
    that [d] is open on a directory whose entries are [c]. *)
Class StaticTree {Dir World : Type} `{PinnedDirectory Dir World} (presents : Dir -> Listing -> Prop) : Prop := {
  presents_inventory d c n m w l w' :
    presents d c -> inventory d n m w = Ok (l, w') -> l = map fst c;
  presents_child d c e sub w child w' :
    presents d c -> (e, sub) ∈ c -> open_child_directory d (name e) w = Ok (child, w') ->
    exists children, sub = Folder children /\ presents child children;
  presents_file d c e sub n w f w' :
    presents d c -> (e, sub) ∈ c -> capture_regular_file d (name e) n w = Ok (f, w') ->
    exists bytes, sub = RegularFile bytes /\ captured_bytes f = bytes
}.

Section trees.
Context {Dir World : Type} `{HP : PinnedDirectory Dir World} (presents : Dir -> Listing -> Prop).
Context `{!StaticTree presents}.
Variable reserve : SourceRowsBuilder -> bool.

Lemma capture_file_tree d c e n path s s' :
  presents d c -> (e, n) ∈ c -> Z.land (identity_mode (entry_identity e)) S_IFMT = S_IFREG ->
  capture_file reserve d e path s = Ok s' ->
  capturable e n = true /\ res_fold (push_row reserve) (node_files path e n) (walk_rows s) = Ok (walk_rows s').
Proof using All.
  intros Hd Hin Hkind H. unfold capture_file in H.
  apply bind_ok in H as ([] & Hm & H). apply guard_ok in H as [Hl H].
  apply bind_ok in H as ([] & _ & H). apply bind_ok in H as (r & _ & H).
  apply bind_ok in H as ([f w] & Hf%map_err_ok & H). apply guard_ok in H as [_ H].
  apply bind_ok in H as (rows & Hp & [= <-]).
  destruct (presents_file _ _ _ _ _ _ _ _ Hd Hin Hf) as (bytes & -> & Hb). rewrite Hb in Hp.
  split; [|cbn [node_files res_fold push_row walk_rows]; by rewrite Hp].
  unfold validate_source_mode in Hm. destruct (Z.ltb_spec 511 (Z.land (identity_mode (entry_identity e)) 4095)); [done|].
  cbn [capturable]. rewrite Hkind. bool_to_prop. rewrite (proj2 (Z.leb_le _ _)), (proj2 (Z.eqb_eq _ 1)) by done. done.
Qed.

Lemma capture_entry_tree recurse d c prefix depth s e n s' :
  (forall child children p s1 s2, presents child children -> recurse child p s1 = Ok s2 ->
     forallb (fun x : DirectoryEntryIdentity * Node => capturable x.1 x.2) children = true /\
     res_fold (push_row reserve) (listing_files p children) (walk_rows s1) = Ok (walk_rows s2)) ->
  presents d c -> (e, n) ∈ c -> capture_entry reserve recurse d prefix depth s e = Ok s' ->
  capturable e n = true /\ res_fold (push_row reserve) (child_files prefix (e, n)) (walk_rows s) = Ok (walk_rows s').
Proof using All.
  intros Hrec Hd Hin H. unfold capture_entry in H. apply guard_ok in H as [_ H].
  apply bind_ok in H as ([] & _ & H).
  destruct (Z.eqb_spec (Z.land (identity_mode (entry_identity e)) S_IFMT) S_IFDIR) as [Hk|_].
  - apply bind_ok in H as (count & _ & H). apply guard_ok in H as [_ H].
    apply bind_ok in H as ([child w] & Ho%map_err_ok & H). apply guard_ok in H as [_ H].
    apply bind_ok in H as (inner & Hi & [= <-]).
    destruct (presents_child _ _ _ _ _ _ _ Hd Hin Ho) as (children & -> & Hc).
    destruct (Hrec _ _ _ _ _ Hc Hi) as [H1 H2]. split; [|exact H2].
    cbn [capturable]. rewrite Hk. exact H1.
  - destruct (Z.eqb_spec (Z.land (identity_mode (entry_identity e)) S_IFMT) S_IFREG) as [Hk|_]; [|discriminate].
    by apply (capture_file_tree _ _ _ _ _ _ _ Hd Hin Hk) in H.
Qed.

Lemma capture_directory_tree fuel d c prefix depth s s' :
  presents d c -> capture_directory reserve fuel d prefix depth s = Ok s' ->
  forallb (fun x : DirectoryEntryIdentity * Node => capturable x.1 x.2) c = true /\
  res_fold (push_row reserve) (listing_files prefix c) (walk_rows s) = Ok (walk_rows s').
Proof using All.
  revert d c prefix depth s s'. induction fuel as [|fuel IH]; intros d c prefix depth s s' Hd H; [discriminate|].
  cbn [capture_directory] in H. apply bind_ok in H as ([before w] & Hb%map_err_ok & H).
  apply (presents_inventory _ _ _ _ _ _ _ Hd) in Hb as ->.
  apply bind_ok in H as (s1 & Hf & H). apply bind_ok in H as ([after w'] & _ & H). apply guard_ok in H as [_ [= <-]].
  cbn [walk_rows]. change (walk_rows s) with (walk_rows (mkWalk ∅ (directories s) (walk_rows s) w)).
  assert (forall x, x ∈ c -> x ∈ c) as Hin by done. revert Hin Hf.
  generalize (mkWalk ∅ (directories s) (walk_rows s) w) as s0. generalize c at 1 3 4 5 as l.
  induction l as [|[e n] l IHl]; intros s0 Hin Hf.
  - cbn [map res_fold] in Hf. injection Hf as <-. done.
  - cbn [map fst res_fold] in Hf. apply bind_ok in Hf as (s2 & He & Hf).
    eapply (capture_entry_tree _ _ _ _ _ _ _ n) in He as [H1 H2]; [|by intros; eapply IH|exact Hd|apply Hin; left].
    destruct (IHl s2) as [H3 H4]; [intros; apply Hin; by right|exact Hf|].
    cbn [forallb fst snd]. rewrite H1, H3. split; [done|].
    unfold listing_files. cbn [map concat]. rewrite res_fold_app, H2. exact H4.
Qed.
End trees.
End Trees.

(** ** A tree held in memory *)
Module Sample.
Import Trees.

(** No two entries of a directory have the same name. *)
Fixpoint names_unique (n : Node) : bool :=
  match n with
  | RegularFile _ => true
  | Folder children =>
      bool_decide (NoDup (map (fun child : DirectoryEntryIdentity * Node => name child.1) children))
      && forallb (fun child : DirectoryEntryIdentity * Node => names_unique child.2) children
  end.

Definition Handle : Type := FileIdentity * Listing.

Definition find_entry (d : Handle) (n : string) : option (DirectoryEntryIdentity * Node) :=
  List.find (fun child => bool_decide (name child.1 = n)) d.2.

#[export] Instance memory_directory : PinnedDirectory Handle unit := {
  identity d := d.1;
  inventory d _ _ w := Ok (map fst d.2, w);
  open_child_directory d n w :=
    match find_entry d n with
    | Some (e, Folder children) => Ok ((entry_identity e, children), w)
    | _ => Err (Some IoType)
    end;
  capture_regular_file d n maximum w :=
    match find_entry d n with
    | Some (e, RegularFile bytes) =>
        if maximum <? len bytes then Err (Some IoLimit) else Ok (mkCapturedFile bytes (entry_identity e), w)
    | _ => Err (Some IoType)
    end
}.

Definition holds (d : Handle) (c : Listing) : Prop := d.2 = c /\ names_unique (Folder c) = true.

Lemma find_entry_unique d c e n :
  holds d c -> (e, n) ∈ c -> find_entry d (name e) = Some (e, n).
Proof.
  destruct d as [i c']. intros [E Hu] Hin. cbn [snd] in E. subst c'. unfold find_entry. cbn [snd].
  cbn [names_unique] in Hu. apply andb_true_iff in Hu as [Hu _]. bool_to_prop. induction c as [|[e' n'] c IH]; [by inv Hin|].
  cbn [map fst] in Hu. inv Hu. cbn [List.find fst]. destruct (decide (name e' = name e)) as [Heq|Hne].
  - rewrite bool_decide_eq_true_2 by done. apply elem_of_cons in Hin as [[= -> ->]|Hin]; [done|]. destruct H1. rewrite Heq. by apply (list_elem_of_fmap_2 (fun x : DirectoryEntryIdentity * Node => name x.1) c (e, n)).
  - rewrite bool_decide_eq_false_2 by done. apply elem_of_cons in Hin as [[= -> ->]|Hin]; [done|]. by apply IH.
Qed.

Lemma holds_child d c e children i : holds d c -> (e, Folder children) ∈ c -> holds (i, children) children.
Proof.
  intros [_ Hu] Hin. split; [done|]. cbn [names_unique] in Hu. apply andb_true_iff in Hu as [_ Hu].
  rewrite forallb_forall in Hu. apply (Hu (e, Folder children)). by apply list_elem_of_In.
Qed.

#[export] Instance memory_tree : StaticTree holds.
Proof.
  split.
  - intros d c n m w l w' [<- _] [= <- _]. done.
  - intros d c e sub w child w' Hd Hin H. cbn [open_child_directory memory_directory] in H.
    rewrite (find_entry_unique _ _ _ _ Hd Hin) in H. destruct sub as [|children]; [discriminate|].
    injection H as <- _. exists children. split; [done|]. by apply (holds_child d c e).
  - intros d c e sub n w f w' Hd Hin H. cbn [capture_regular_file memory_directory] in H.
    rewrite (find_entry_unique _ _ _ _ Hd Hin) in H. destruct sub as [bytes|]; [|discriminate].
    apply guard_ok in H as [_ [= <- _]]. by exists bytes.
Qed.

(** A file and a directory with a file. *)
Definition entry_of (n : string) (inode mode size : Z) : DirectoryEntryIdentity :=
  mkDirEntry n (mkIdentity 1 inode mode 1 0 0 size 0 0 0 0).
Definition listing : Listing :=
  [(entry_of "a" 2 (S_IFREG + 420) 2, RegularFile (str_bytes "hi"));
   (entry_of "b" 3 (S_IFDIR + 493) 0,
    Folder [(entry_of "c" 4 (S_IFREG + 493) 3, RegularFile (str_bytes "one"))])].
Definition handle : Handle := (entry_identity (entry_of "" 1 (S_IFDIR + 493) 0), listing).

(** The rows of [listing], pushed one by one. *)
Definition sample_files : SourceRowsBuilder := Eval vm_compute in
  builder_of (res_fold (push_row grant) (listing_files "" listing) SourceRows.new).
Definition sample_rows : CapturedSourceRows := Eval vm_compute in
  match finish sample_files with Ok r => r | Err _ => mkRows [] 0 "" end.
End Sample.
Import Trees Sample.

(** ** Properties *)

(** The capture of a directory terminates and never panics, whatever the
    directory answers and however it changes between two calls: 33 levels of
    recursion are enough because the depth is checked before each descent. *)
Theorem directory_capture_terminates {Dir World : Type} `{PinnedDirectory Dir World} reserve (d : Dir) expected (w : World) :
  capture_source_directory reserve d expected w <> Err Panic /\
  capture_source_directory reserve d expected w <> Err OutOfFuel.
Proof. exact (runs_not_stuck _ _ (Walks.capture_source_directory_runs reserve d expected w)). Qed.

(** C7. Over a directory that presents a fixed tree, the captured rows are the
    rows of exactly the regular files of the tree, each under its full path with
    its permission bits and content, and they hash to the expected digest; such
    a tree holds nothing but directories and regular files with one link and
    without set-id or sticky bits. *)
Theorem directory_rows_are_tree {Dir World : Type} `{PinnedDirectory Dir World} (presents : Dir -> Listing -> Prop)
    `{!StaticTree presents} reserve d c expected w rows w' :
  presents d c -> capture_source_directory reserve d expected w = Ok (rows, w') ->
  forallb (fun x : DirectoryEntryIdentity * Node => capturable x.1 x.2) c = true /\
  exists b, res_fold (push_row reserve) (listing_files "" c) SourceRows.new = Ok b /\
    finish b = Ok rows /\ row_digest rows = expected.
Proof.
  intros Hd Hc. unfold capture_source_directory in Hc. apply guard_ok in Hc as [_ Hc].
  apply bind_ok in Hc as (s & Hs & Hc). apply bind_ok in Hc as (r & Hr & Hc).
  apply guard_ok in Hc as [E [= <- <-]]. bool_to_prop.
  destruct (capture_directory_tree presents reserve _ _ _ _ _ _ _ Hd Hs) as [Ht Hf]. split; [done|].
  by exists (walk_rows s).
Qed.

Lemma directory_rows_are_tree_witness :
  capture_source_directory grant handle (row_digest sample_rows) tt = Ok (sample_rows, tt) /\
  exists b, res_fold (push_row grant) (listing_files "" listing) SourceRows.new = Ok b /\
    finish b = Ok sample_rows /\ row_digest sample_rows = row_digest sample_rows.
Proof.
  assert (capture_source_directory grant handle (row_digest sample_rows) tt = Ok (sample_rows, tt)) as H
    by (vm_compute; reflexivity).
  split; [exact H|]. apply (directory_rows_are_tree holds grant handle listing _ tt _ tt); [|exact H].
  split; reflexivity.
Defined.
