(* ===== verification/Supervisor.v ===== *)
(** * Patch input capture and its response ([p2-d2-supervisor/src/lib.rs])

    [capture_patch_inputs] acquires the overlay, the carriers and the source
    that a request names; [write_response] emits them as length-prefixed frames
    after [check_response_budget] has bounded their number and size. *)

From S2P Require Import Prelude Cbor Sha256 Paths PatchOverlay SourceRows Tar Directory.

Definition CAPTURE_CHUNK_BYTES : Z := 32 * 1024.
Definition MAX_CAPTURE_FRAMES : Z := 32768.
Definition MAX_CAPTURE_RESPONSE_BYTES : Z := 320 * 1024 * 1024.
Definition CAPTURE_RESPONSE_DOMAIN : list byte := str_bytes "keep.patch-input-response/v1" ++ [x00].

Record CapturedPatchInputs : Set := mkInputs {
  request : ValidatedCaptureRequest;
  inputs_source : CapturedSourceRows;
  inputs_overlay : ValidatedPatchOverlayPlan;
  inputs_carrier : ValidatedPatchByteCarrierSet
}.

(** [n.div_ceil(d)] *)
Definition div_ceil (n d : Z) : Z := (n + (d - 1)) / d.

(** One turn of [for file in self.source.files()]. *)
Definition file_budget (acc : Z * Z) (f : CapturedSourceFile) : Z * Z :=
  (acc.1 + (1 + div_ceil (len (SourceRows.file_bytes f)) CAPTURE_CHUNK_BYTES),
   acc.2 + (slen (SourceRows.path f) + 160)).

Definition check_response_budget (i : CapturedPatchInputs) : capture unit :=
  let '(frames, metadata) := fold_left file_budget (row_files (inputs_source i)) (4, 2048) in
  let overlay := len (plan_canonical_bytes (inputs_overlay i)) in
  let carrier := len (set_canonical_bytes (inputs_carrier i)) in
  let frames := frames + (div_ceil overlay CAPTURE_CHUNK_BYTES + div_ceil carrier CAPTURE_CHUNK_BYTES) in
  let bytes := SourceRows.byte_length (inputs_source i) + overlay + carrier + metadata + frames * 128 in
  throw_if (MAX_CAPTURE_FRAMES <? frames) || (MAX_CAPTURE_RESPONSE_BYTES <? bytes) with Error Limit ;;
  Ok tt.

(** ** Acquisition *)
Section capture.
Context {Dir World : Type} `{PinnedDirectory Dir World}.
Variable open_root : string -> World -> result io_error (Dir * World).
Variable reserve : SourceRowsBuilder -> bool.
Variable reserve_body : SourceRowsBuilder -> Z -> bool.

(** [.map_err(|_| e)] on an error of the overlay code, which may be a panic. *)
Definition overlay_failure (e : CaptureError) (x : OverlayError) : failure CaptureError :=
  match x with
  | OverlayErr _ => Error e
  | Panicked => Panic
  end.

(** Read a file of the root and compare its digest. *)
Definition read_checked (root : Dir) (path : string) (maximum : Z) (digest : string) (w : World)
    : capture (list byte * World) :=
  let? (raw, w) := map_err capture_io (capture_regular_file root path maximum w) in
  let? actual := byte_digest (captured_bytes raw) in
  throw_if negb (bool_decide (actual = digest)) with Error Integrity ;;
  Ok (captured_bytes raw, w).

(** [for part in parts { directory = directory.open_child_directory(part)?; }] *)
Definition open_part (acc : Dir * World) (part : string) : capture (Dir * World) :=
  map_err capture_io (open_child_directory acc.1 part acc.2).

Definition open_source_directory (root : Dir) (path : string) (w : World) : capture (Dir * World) :=
  match split x2f path with
  | [] => Err (Error Path)
  | first :: parts =>
      let? acc := map_err capture_io (open_child_directory root first w) in
      res_fold open_part parts acc
  end.

Definition capture_source (root : Dir) (r : ValidatedCaptureRequest) (w : World)
    : capture (CapturedSourceRows * World) :=
  match source r with
  | Archive format stream_digest =>
      let? (raw, w) := map_err capture_io (capture_regular_file root (source_path r) MAX_INPUT_BYTES w) in
      let? rows := capture_archive reserve reserve_body (captured_bytes raw) format stream_digest in
      Ok (rows, w)
  | SourceRows.Directory expected_row_digest _ =>
      let? (directory, w) := open_source_directory root (source_path r) w in
      capture_source_directory reserve directory expected_row_digest w
  end.

Definition capture_patch_inputs (r : ValidatedCaptureRequest) (w : World)
    : capture (CapturedPatchInputs * World) :=
  let? (root, w) := map_err capture_io (open_root (SourceRows.root r) w) in
  let? (bytes, w) := read_checked root (overlay_path r) (max_bytes WIRE) (overlay_byte_digest r) w in
  let? plan := map_err (overlay_failure Malformed) (capture_patch_overlay bytes) in
  throw_if negb (bool_decide (base_archive_digest (overlay plan) = overlay_base_digest r))
    with Error Integrity ;;
  let? (bytes, w) :=
    read_checked root (SourceRows.carrier_path r) MAX_CARRIER_SET_ENCODED_BYTES (carrier_byte_digest r) w in
  let? carrier := map_err (overlay_failure Malformed) (capture_patch_byte_carrier_set bytes) in
  let? _ := map_err (overlay_failure Integrity) (join_patch_application_inputs plan carrier) in
  let? (rows, w) := capture_source root r w in
  let inputs := mkInputs r rows plan carrier in
  let? _ := check_response_budget inputs in
  Ok (inputs, w).
End capture.

(** ** The response *)

(** What the writer uses of [std::io::Write]; [None] is an I/O error. *)
Class Write (O : Type) : Type := {
  write_all : O -> list byte -> option O;
  flush : O -> option O
}.

Section response.
Context {O : Type} `{Write O}.

Record ResponseWriter : Type := mkWriter {
  output : O;
  hash : Streaming.Sha256State;
  frames : Z;
  sent : Z
}.

Definition new_writer (o : O) : capture ResponseWriter :=
  let? st := hash_update Streaming.new CAPTURE_RESPONSE_DOMAIN in
  Ok (mkWriter o st 0 0).

Definition frame (s : ResponseWriter) (value : Value) : capture ResponseWriter :=
  let? bytes := map_err (fun _ => Error Limit) (encode_bounded value CAPTURE_FRAME_LIMITS) in
  let frames := frames s + 1 in
  let? sent := ok_or (checked_add (sent s) (len bytes + 4)) (Error Limit) in
  throw_if (MAX_CAPTURE_FRAMES <? frames) || (MAX_CAPTURE_RESPONSE_BYTES <? sent) with Error Limit ;;
  let length := be_bytes 4 (len bytes mod 2 ^ 32) in
  let? st := hash_update (hash s) length in
  let? st := hash_update st bytes in
  let? o := ok_or (write_all (output s) length) (Error Io) in
  let? o := ok_or (write_all o bytes) (Error Io) in
  Ok (mkWriter o st frames sent).

(** [bytes.chunks(n)] *)
Fixpoint chunks_of (fuel n : nat) (bytes : list byte) : list (list byte) :=
  match fuel, bytes with
  | S fuel, _ :: _ => firstn n bytes :: chunks_of fuel n (skipn n bytes)
  | _, _ => []
  end.
Definition chunks (n : nat) (bytes : list byte) : list (list byte) := chunks_of (length bytes) n bytes.

Definition chunk_value (row : nat * list byte) : Value :=
  Map [("record"%string, Text "chunk"); ("sequence"%string, Unsigned (Z.of_nat row.1));
       ("bytes"%string, Bytes row.2)].
Definition chunk_values (bytes : list byte) : list Value :=
  let parts := chunks (Z.to_nat CAPTURE_CHUNK_BYTES) bytes in
  map chunk_value (zip (seq 0 (length parts)) parts).
Definition write_chunks (s : ResponseWriter) (bytes : list byte) : capture ResponseWriter :=
  res_fold frame (chunk_values bytes) s.

Definition finish_response (s : ResponseWriter) : capture O :=
  let? digest := hash_finalize (hash s) in
  let s := mkWriter (output s) Streaming.new (frames s) (sent s) in
  let? s := frame s (Map [("record"%string, Text "end"); ("responseDigest"%string, Text digest)]) in
  ok_or (flush (output s)) (Error Io).

Definition header_value (i : CapturedPatchInputs) : Value :=
  let r := request i in
  Map ([("record"%string, Text "header");
        ("schema"%string, Text "keep.patch-input-result");
        ("version"%string, Unsigned 1);
        ("requestDigest"%string, Text (request_digest r));
        ("sourceKind"%string, Text (source_kind r));
        ("sourceRowDigest"%string, Text (row_digest (inputs_source i)));
        ("overlayTypedDigest"%string, Text (patch_overlay_digest (inputs_overlay i)));
        ("carrierTypedDigest"%string, Text (patch_byte_carrier_set_digest (inputs_carrier i)));
        ("overlayByteDigest"%string, Text (overlay_byte_digest r));
        ("carrierByteDigest"%string, Text (carrier_byte_digest r));
        ("sourceCount"%string, Unsigned (len (row_files (inputs_source i))));
        ("sourceBytes"%string, Unsigned (SourceRows.byte_length (inputs_source i)));
        ("overlayBytes"%string, Unsigned (len (plan_canonical_bytes (inputs_overlay i))));
        ("carrierBytes"%string, Unsigned (len (set_canonical_bytes (inputs_carrier i))))] ++
       [match source r with
        | SourceRows.Directory _ declared => ("declaredBaseArchiveDigest"%string, Text declared)
        | Archive _ stream_digest => ("sourceStreamDigest"%string, Text stream_digest)
        end]).

Definition source_row_value (row : nat * CapturedSourceFile) : Value :=
  let '(index, f) := row in
  Map [("record"%string, Text "source-row"); ("index"%string, Unsigned (Z.of_nat index));
       ("path"%string, Text (SourceRows.path f)); ("mode"%string, Unsigned (SourceRows.mode f));
       ("byteLength"%string, Unsigned (len (SourceRows.file_bytes f)));
       ("byteDigest"%string, Text (file_digest f))].

Definition input_value (role : string) (bytes : list byte) (digest : string) : Value :=
  Map [("record"%string, Text "input"); ("role"%string, Text role);
       ("byteLength"%string, Unsigned (len bytes)); ("byteDigest"%string, Text digest)].

(** One turn of the loop over the source files. *)
Definition write_file (s : ResponseWriter) (row : nat * CapturedSourceFile) : capture ResponseWriter :=
  let? s := frame s (source_row_value row) in
  write_chunks s (SourceRows.file_bytes row.2).

(** One turn of the loop over the two inputs. *)
Definition write_input (s : ResponseWriter) (row : string * list byte * string) : capture ResponseWriter :=
  let '(role, bytes, digest) := row in
  let? s := frame s (input_value role bytes digest) in
  write_chunks s bytes.

Definition write_response (i : CapturedPatchInputs) (o : O) : capture O :=
  let? s := new_writer o in
  let? s := frame s (header_value i) in
  let files := row_files (inputs_source i) in
  let? s := res_fold write_file (zip (seq 0 (length files)) files) s in
  let? s :=
    res_fold write_input
      [("overlay"%string, plan_canonical_bytes (inputs_overlay i), overlay_byte_digest (request i));
       ("carrier"%string, set_canonical_bytes (inputs_carrier i), carrier_byte_digest (request i))] s in
  finish_response s.
End response.
Arguments ResponseWriter : clear implicits.
