(* ===== verification/SupervisorFacts.v ===== *)
(** * Theorems on the response of the supervisor

    [Wire] relates the writer to the list of its frames, and [Sizes] bounds the
    encoding of each frame.  What [check_response_budget] admits is the subject of
    [CaptureFacts]. *)

From S2P Require Import Prelude Cbor CborFacts Sha256 Paths TextFacts PatchOverlay OverlayFacts SourceRows SourceRowsFacts Gzip GzipFacts Tar TarFacts Directory Supervisor.
Import Spec Encode Builder.

(** ** Chunks *)
Module Chunking.

Lemma chunks_of_concat fuel n bytes :
  (0 < n)%nat -> (length bytes <= fuel)%nat -> concat (chunks_of fuel n bytes) = bytes.
Proof.
  intros Hn. revert bytes. induction fuel as [|fuel IH]; intros [|c bytes] Hl; cbn [chunks_of concat length] in *; try done; [lia|].
  rewrite IH; [by rewrite take_drop|]. rewrite length_skipn. cbn [length]. lia.
Qed.

Lemma chunks_of_sizes fuel n bytes :
  (0 < n)%nat -> Forall (fun c => 1 <= len c <= Z.of_nat n) (chunks_of fuel n bytes).
Proof.
  intros Hn. revert bytes. induction fuel as [|fuel IH]; intros [|c bytes]; cbn [chunks_of]; constructor; [|apply IH].
  unfold len. rewrite length_take. cbn [length]. lia.
Qed.

Lemma chunks_of_count fuel n bytes :
  (0 < n)%nat -> (length bytes <= fuel)%nat -> len (chunks_of fuel n bytes) = div_ceil (len bytes) (Z.of_nat n).
Proof.
  intros Hn. revert bytes. induction fuel as [|fuel IH]; intros [|c bytes] Hl; cbn [chunks_of length] in *; try lia.
  1,2: change (len (@nil (list byte))) with 0; change (len (@nil byte)) with 0; unfold div_ceil; rewrite Z.div_small; lia.
  rewrite len_cons, IH by (rewrite length_skipn; cbn [length]; lia). unfold div_ceil.
  assert (len (c :: bytes) = 1 + len bytes) as E by apply len_cons. pose proof (len_nonneg bytes).
  replace (skipn n (c :: bytes)) with (skipn (Z.to_nat (Z.of_nat n)) (c :: bytes)) by (by rewrite Nat2Z.id).
  rewrite len_drop, E by lia. destruct (Z.leb_spec (1 + len bytes) (Z.of_nat n)).
  - rewrite Z.max_l, Z.add_0_l, (Z.div_small (Z.of_nat n - 1)) by lia.
    apply (Z.div_unique _ _ _ (len bytes)); lia.
  - rewrite Z.max_r by lia.
    replace (1 + len bytes + (Z.of_nat n - 1)) with (1 + len bytes - Z.of_nat n + (Z.of_nat n - 1) + 1 * Z.of_nat n) by lia.
    rewrite Z.div_add by lia. lia.
Qed.

Definition size_of_chunk : nat := Z.to_nat CAPTURE_CHUNK_BYTES.
Lemma chunks_spec bytes :
  concat (chunks size_of_chunk bytes) = bytes /\
  Forall (fun c => 1 <= len c <= CAPTURE_CHUNK_BYTES) (chunks size_of_chunk bytes) /\
  len (chunks size_of_chunk bytes) = div_ceil (len bytes) CAPTURE_CHUNK_BYTES.
Proof.
  assert (0 < size_of_chunk)%nat by (unfold size_of_chunk, CAPTURE_CHUNK_BYTES; lia).
  assert (Z.of_nat size_of_chunk = CAPTURE_CHUNK_BYTES) as E by (unfold size_of_chunk, CAPTURE_CHUNK_BYTES; lia).
  unfold chunks. split_and!.
  - by apply chunks_of_concat.
  - rewrite <- E. by apply chunks_of_sizes.
  - rewrite <- E. by apply chunks_of_count.
Qed.
End Chunking.
Import Chunking.

(** ** The writer and its frames *)
Module Wire.

(** A frame on the wire: its length in four bytes, then its encoding. *)
Definition framed (encoding : list byte) : list byte := be_bytes 4 (len encoding) ++ encoding.

(** The frames of a response, without the last one. *)
Definition file_frames (row : nat * CapturedSourceFile) : list Value :=
  source_row_value row :: chunk_values (SourceRows.file_bytes row.2).
Definition input_frames (row : string * list byte * string) : list Value :=
  let '(role, bytes, digest) := row in input_value role bytes digest :: chunk_values bytes.
Definition indexed (files : list CapturedSourceFile) : list (nat * CapturedSourceFile) :=
  zip (seq 0 (length files)) files.
Definition inputs_of (i : CapturedPatchInputs) : list (string * list byte * string) :=
  [("overlay"%string, plan_canonical_bytes (inputs_overlay i), overlay_byte_digest (request i));
   ("carrier"%string, set_canonical_bytes (inputs_carrier i), carrier_byte_digest (request i))].
Definition body_frames (i : CapturedPatchInputs) : list Value :=
  header_value i :: concat (map file_frames (indexed (row_files (inputs_source i))))
    ++ concat (map input_frames (inputs_of i)).
Definition end_value (digest : string) : Value :=
  Map [("record"%string, Text "end"); ("responseDigest"%string, Text digest)].

(** What a sink promises: a write that succeeds appends the bytes. *)
Class WriteLaws (O : Type) `{Write O} (view : O -> list byte) : Prop := {
  write_appends o bytes o' : write_all o bytes = Some o' -> view o' = view o ++ bytes;
  flush_keeps o o' : flush o = Some o' -> view o' = view o
}.

Section wire.
Context {O : Type} `{HW : Write O} (view : O -> list byte) `{!WriteLaws O view}.

(** Writing item by item is writing the frames of all items. *)
Lemma fold_frames {A} (item : A -> list Value) (f : ResponseWriter O -> A -> capture (ResponseWriter O)) l s :
  (forall s a, f s a = res_fold frame (item a) s) ->
  res_fold f l s = res_fold frame (concat (map item l)) s.
Proof.
  intros Hf. revert s. induction l as [|a l IH]; intros s; cbn [res_fold map concat]; [done|].
  rewrite res_fold_app, Hf. destruct (res_fold frame (item a) s); cbn [res_bind]; [apply IH|done].
Qed.

Lemma write_response_frames i o :
  write_response i o =
  let? s := new_writer o in let? s := res_fold frame (body_frames i) s in finish_response s.
Proof.
  unfold write_response. destruct (new_writer o) as [s|]; cbn [res_bind]; [|done].
  unfold body_frames, res_fold at 3. fold (@res_fold (failure CaptureError) Value (ResponseWriter O)).
  destruct (frame s (header_value i)) as [s1|]; cbn [res_bind]; [|done].
  rewrite (fold_frames file_frames write_file) by done.
  rewrite res_fold_app. fold (indexed (row_files (inputs_source i))).
  destruct (res_fold frame _ s1) as [s2|]; cbn [res_bind]; [|done].
  by rewrite (fold_frames input_frames write_input) by (by intros ? [[? ?] ?]).
Qed.

(** The writer after it has emitted the frames [encs]. *)
Record emitted (o : O) (encs : list (list byte)) (s : ResponseWriter O) : Prop := {
  em_view : view (output s) = view o ++ concat (map framed encs);
  em_hash : Facts.represents (hash s) (CAPTURE_RESPONSE_DOMAIN ++ concat (map framed encs));
  em_frames : frames s = len encs;
  em_sent : sent s = len (concat (map framed encs))
}.

Lemma frame_limits_ok : limits_ok CAPTURE_FRAME_LIMITS.
Proof. done. Qed.

Lemma len_framed e : len (framed e) = 4 + len e.
Proof. unfold framed. by rewrite len_app, len_be_bytes. Qed.

Lemma framed_snoc encs e : concat (map framed (encs ++ [e])) = concat (map framed encs) ++ framed e.
Proof. rewrite map_app, concat_app. cbn [map concat]. by rewrite app_nil_r. Qed.

Lemma encoding_small v e : encode_bounded v CAPTURE_FRAME_LIMITS = Ok e -> len e = size v /\ 0 <= len e <= 65536.
Proof.
  intros He. apply encode_bounded_spec in He as (He & _ & _ & Hs); [|apply frame_limits_ok].
  rewrite (encode_len _ _ He). pose proof (size_pos v). cbn in Hs. unfold MAX_CAPTURE_FRAME_BYTES in Hs. lia.
Qed.

(** A frame within the limits is hashed and handed to the sink. *)
Lemma frame_step o encs s v e :
  emitted o encs s -> encode_bounded v CAPTURE_FRAME_LIMITS = Ok e ->
  len encs + 1 <= MAX_CAPTURE_FRAMES -> len (concat (map framed encs)) + len (framed e) <= MAX_CAPTURE_RESPONSE_BYTES ->
  exists st, Facts.represents st (CAPTURE_RESPONSE_DOMAIN ++ concat (map framed (encs ++ [e]))) /\
  frame s v =
    let? o1 := ok_or (write_all (output s) (be_bytes 4 (len e))) (Error Io) in
    let? o2 := ok_or (write_all o1 e) (Error Io) in
    Ok (mkWriter o2 st (len encs + 1) (len (concat (map framed (encs ++ [e]))))).
Proof.
  intros [E1 E2 E3 E4] He Hf Hs. pose proof (encoding_small v e He) as [_ Hl].
  rewrite len_framed in Hs. unfold MAX_CAPTURE_RESPONSE_BYTES in Hs. pose proof (len_nonneg (concat (map framed encs))).
  assert (be_bytes 4 (len e mod 2 ^ 32) = be_bytes 4 (len e)) as Hlen by (rewrite Z.mod_small by lia; done).
  destruct (hash_spec (hash s) _ (be_bytes 4 (len e)) E2) as (st1 & Es1 & R1).
  { rewrite !len_app, len_be_bytes. change (len CAPTURE_RESPONSE_DOMAIN) with 29. unfold u64_max. lia. }
  destruct (hash_spec st1 _ e R1) as (st2 & Es2 & R2).
  { rewrite !len_app, len_be_bytes. change (len CAPTURE_RESPONSE_DOMAIN) with 29. unfold u64_max. lia. }
  exists st2. split.
  { rewrite framed_snoc. unfold framed at 2. by rewrite !app_assoc. }
  unfold frame. rewrite He. cbn [map_err res_bind]. unfold checked_add.
  rewrite (proj2 (Z.leb_le (sent s + (len e + 4)) u64_max)) by (rewrite E4; unfold u64_max; lia).
  cbn [ok_or res_bind]. rewrite E3, E4, (proj2 (Z.ltb_ge _ _)), (proj2 (Z.ltb_ge _ _)) by (unfold MAX_CAPTURE_RESPONSE_BYTES; lia).
  cbn [orb]. rewrite Hlen, Es1. cbn [res_bind]. rewrite Es2. cbn [res_bind].
  rewrite framed_snoc, len_app, len_framed.
  replace (len (concat (map framed encs)) + (len e + 4)) with (len (concat (map framed encs)) + (4 + len e)) by lia.
  done.
Qed.

Lemma frame_emitted o encs s v s' :
  emitted o encs s -> frame s v = Ok s' ->
  exists e, encode_bounded v CAPTURE_FRAME_LIMITS = Ok e /\ emitted o (encs ++ [e]) s'.
Proof using All.
  intros Hem H. pose proof H as H0. pose proof Hem as [E1 E2 E3 E4]. unfold frame in H0.
  apply bind_ok in H0 as (e & He%map_err_ok & H0). apply bind_ok in H0 as (n & Hn%ok_or_ok & H0).
  apply guard_ok in H0 as [G _]. apply orb_false_iff in G as [G1 G2]. bool_to_prop.
  unfold checked_add in Hn. destruct (_ <=? u64_max); [|discriminate]. injection Hn as <-.
  exists e. split; [done|].
  destruct (frame_step o encs s v e Hem He) as (st & R & E); [lia|rewrite len_framed; lia|].
  rewrite E in H. apply bind_ok in H as (o1 & W1%ok_or_ok & H). apply bind_ok in H as (o2 & W2%ok_or_ok & [= <-]).
  apply (write_appends (view := view)) in W1, W2. split; cbn [output hash frames sent].
  - rewrite W2, W1, E1, framed_snoc. unfold framed at 3. by rewrite !app_assoc.
  - exact R.
  - rewrite len_app. change (len [e]) with 1. done.
  - done.
Qed.

Lemma frames_emitted o vs encs s s' :
  emitted o encs s -> res_fold frame vs s = Ok s' ->
  exists es, Forall2 (fun v e => encode_bounded v CAPTURE_FRAME_LIMITS = Ok e) vs es /\ emitted o (encs ++ es) s'.
Proof using All.
  revert encs s. induction vs as [|v vs IH]; intros encs s Hem H; cbn [res_fold] in H.
  - injection H as <-. exists []. rewrite app_nil_r. by split; [constructor|].
  - apply bind_ok in H as (s1 & Hv & H). destruct (frame_emitted _ _ _ _ _ Hem Hv) as (e & He & Hem1).
    destruct (IH _ _ Hem1 H) as (es & HF & Hem'). exists (e :: es). rewrite <- app_assoc in Hem'.
    split; [by constructor|done].
Qed.

Lemma new_writer_emitted o : exists s, new_writer o = Ok s /\ emitted o [] s.
Proof using All.
  destruct (hash_spec Streaming.new [] CAPTURE_RESPONSE_DOMAIN Facts.represents_new) as (st & E & R); [done|].
  unfold new_writer. rewrite E. cbn [res_bind]. eexists. split; [done|].
  split; cbn [output hash frames sent map concat]; rewrite ?app_nil_r; done.
Qed.

(** The bytes of a complete response. *)
Definition wire_of (i : CapturedPatchInputs) (encs : list (list byte)) (digest : string) (last : list byte) : Prop :=
  Forall2 (fun v e => encode_bounded v CAPTURE_FRAME_LIMITS = Ok e) (body_frames i) encs /\
  OneShot.sha256_hex (CAPTURE_RESPONSE_DOMAIN ++ concat (map framed encs)) = Some digest /\
  encode_bounded (end_value digest) CAPTURE_FRAME_LIMITS = Ok last.

Lemma digest_bound encs : len (concat (map framed encs)) <= MAX_CAPTURE_RESPONSE_BYTES ->
  8 * len (CAPTURE_RESPONSE_DOMAIN ++ concat (map framed encs)) <= u64_max.
Proof.
  intros H. rewrite len_app. change (len CAPTURE_RESPONSE_DOMAIN) with 29.
  unfold MAX_CAPTURE_RESPONSE_BYTES, u64_max in *. lia.
Qed.

Lemma finish_emitted o encs s o' :
  emitted o encs s -> len (concat (map framed encs)) <= MAX_CAPTURE_RESPONSE_BYTES -> finish_response s = Ok o' ->
  exists digest last, OneShot.sha256_hex (CAPTURE_RESPONSE_DOMAIN ++ concat (map framed encs)) = Some digest /\
    encode_bounded (end_value digest) CAPTURE_FRAME_LIMITS = Ok last /\
    view o' = view o ++ concat (map framed encs) ++ framed last.
Proof using All.
  intros [E1 E2 E3 E4] Hl H. unfold finish_response in H. apply bind_ok in H as (d & Hd & H).
  rewrite (hash_finalize_spec _ _ E2 (digest_bound _ Hl)) in Hd. apply ok_or_ok in Hd.
  apply bind_ok in H as (s2 & Hf & H). apply ok_or_ok in H. apply (flush_keeps (view := view)) in H.
  unfold frame in Hf. apply bind_ok in Hf as (e & He%map_err_ok & Hf). cbn [sent frames output hash] in Hf.
  apply bind_ok in Hf as (n & _ & Hf). apply guard_ok in Hf as [_ Hf].
  apply bind_ok in Hf as (st1 & _ & Hf). apply bind_ok in Hf as (st2 & _ & Hf).
  apply bind_ok in Hf as (o1 & W1%ok_or_ok & Hf). apply bind_ok in Hf as (o2 & W2%ok_or_ok & [= <-]).
  apply (write_appends (view := view)) in W1, W2. cbn [output] in H.
  exists d, e. split_and!; [done|done|]. pose proof (encoding_small _ _ He) as [_ Hle].
  rewrite H, W2, W1, E1. unfold framed at 3. rewrite Z.mod_small by lia. by rewrite !app_assoc.
Qed.

Lemma write_response_spec i o o' :
  write_response i o = Ok o' ->
  exists encs digest last, wire_of i encs digest last /\
    view o' = view o ++ concat (map framed encs) ++ framed last.
Proof using All.
  rewrite write_response_frames. destruct (new_writer_emitted o) as (s0 & -> & Hem0). cbn [res_bind].
  intros (s & Hs & H)%bind_ok. destruct (frames_emitted _ _ _ _ _ Hem0 Hs) as (es & HF & Hem). cbn [app] in Hem.
  destruct (finish_emitted o es s o') as (d & last & H1 & H2 & H3); [done| |done|by exists es, d, last].
  revert HF Hs. unfold body_frames. generalize (concat (map file_frames (indexed (row_files (inputs_source i)))) ++
    concat (map input_frames (inputs_of i))). intros vs HF Hs.
  (* the last frame has passed the check *)
  destruct (exists_last (l := header_value i :: vs) ltac:(done)) as (vs0 & v & E). rewrite E, res_fold_app in Hs.
  apply bind_ok in Hs as (s1 & _ & Hs). cbn [res_fold] in Hs. apply bind_ok in Hs as (s2 & Hf & [= <-]).
  unfold frame in Hf. apply bind_ok in Hf as (e & _ & Hf). apply bind_ok in Hf as (n & Hn & Hf).
  apply guard_ok in Hf as [G Hf]. apply orb_false_iff in G as [_ G]. bool_to_prop.
  repeat (apply bind_ok in Hf as (? & _ & Hf)). injection Hf as <-.
  rewrite <- (em_sent _ _ _ Hem). cbn [sent]. done.
Qed.
End wire.
End Wire.
Import Wire.

(** ** The size of each frame *)
Module Sizes.

(** The texts and numbers that frames hold. *)
Definition text_fits (s : string) : bool := native_text s && (slen s <=? 4096).
Definition leaf (v : Value) : bool :=
  match v with
  | Text s => text_fits s
  | Unsigned _ | Bytes _ => true
  | _ => false
  end.

Lemma leaf_encodes v : leaf v = true -> exists e, encode_into v = Ok e.
Proof.
  destruct v; try done; intros H; try (eexists; reflexivity).
  apply andb_true_iff in H as [H _]. exists (key_bytes s). by apply encode_text_spec.
Qed.

Lemma leaf_within depth v : depth <= 16 -> leaf v = true -> within CAPTURE_FRAME_LIMITS depth v = true.
Proof.
  intros Hd. destruct v; try done; intros H; cbn [within]; try by apply Z.leb_le.
  unfold text_within. apply andb_true_iff in H as [-> H]. cbn [CAPTURE_FRAME_LIMITS max_depth max_text_bytes].
  by rewrite H, (proj2 (Z.leb_le _ _) Hd).
Qed.

Lemma sum_leaves (kvs : list (string * Value)) :
  Forall (fun kv => leaf kv.2 = true) kvs -> sumZ (map (fun kv : string * Value => 1 + count kv.2) kvs) = 2 * len kvs.
Proof.
  induction 1 as [|[k v] kvs Hv HF IH]; [done|]. rewrite len_cons. cbn [map sumZ foldr snd] in *. unfold sumZ in IH. rewrite IH.
  destruct v; try done; cbn [count]; lia.
Qed.

(** A flat record of at most 32 fields is a frame if its size is. *)
Lemma encode_flat kvs :
  Forall (fun kv : string * Value => text_fits kv.1 = true) kvs -> Forall (fun kv => leaf kv.2 = true) kvs ->
  keys_sorted (sort_by key_cmp (map fst kvs)) = true -> len kvs <= 32 -> size (Map kvs) <= 65536 ->
  exists e, encode_bounded (Map kvs) CAPTURE_FRAME_LIMITS = Ok e.
Proof.
  intros Hk Hv Hs Hl Hsize.
  assert (exists encs, Forall2 (fun (kv : string * Value) b => encode_into kv.2 = Ok b) (sort_kvs kvs) encs) as [encs HF].
  { assert (Forall (fun kv : string * Value => leaf kv.2 = true) (sort_kvs kvs)) as H
      by (unfold sort_kvs; by rewrite sort_by_perm).
    induction H as [|kv l Hkv HF [encs IH]]; [by exists []|].
    destruct (leaf_encodes _ Hkv) as [e He]. exists (e :: encs). by constructor. }
  eexists. apply encode_bounded_spec; [apply frame_limits_ok|]. split_and!.
  - apply encode_map_spec. split_and!; [| |by exists encs].
    + apply forallb_Forall', Forall_map. eapply Forall_impl; [exact Hk|]. intros kv Hkv. by apply andb_true_iff in Hkv as [? _].
    + unfold sort_kvs, kv_cmp. by rewrite <- (sort_by_map key_cmp fst).
  - cbn [within]. change (max_collection_items CAPTURE_FRAME_LIMITS) with 32. rewrite (proj2 (Z.leb_le (len kvs) 32) Hl).
    change (0 <=? max_depth CAPTURE_FRAME_LIMITS) with true. cbn [andb].
    apply forallb_Forall', Forall_forall. intros kv Hin. rewrite Forall_forall in Hk, Hv.
    specialize (Hk kv Hin). specialize (Hv kv Hin). rewrite leaf_within by (done || lia).
    unfold text_within. apply andb_true_iff in Hk as [-> Hk]. cbn [CAPTURE_FRAME_LIMITS max_text_bytes]. by rewrite Hk.
  - cbn [count]. rewrite sum_leaves by done. cbn [CAPTURE_FRAME_LIMITS max_items]. lia.
  - done.
Qed.

(** A digest in hexadecimal. *)
Definition hex64 (s : string) : Prop := slen s = 64 /\ native_text s = true.

Lemma hex64_fits s : hex64 s -> text_fits s = true.
Proof. intros [Hl Hn]. unfold text_fits. rewrite Hn, Hl. done. Qed.
Lemma hex64_size s : hex64 s -> size (Text s) = 66.
Proof. intros [Hl _]. cbn [size]. unfold text_size. rewrite Hl. done. Qed.
Lemma number_size n : size (Unsigned n) <= 9.
Proof. cbn [size]. apply head_len_pos. Qed.
Lemma head_len_16 n : n <= 65535 -> head_len n <= 3.
Proof. intros H. unfold head_len. repeat case_match; bool_to_prop; unfold u16_max in *; lia. Qed.

Lemma sha256_hex64 bs d : OneShot.sha256_hex bs = Some d -> hex64 d.
Proof.
  intros H. pose proof (sha256_hex_length _ _ H) as Hl. destruct (sha256_hex_total bs Hl) as (d' & E & Hd).
  rewrite H in E. injection E as <-. split; [done|]. unfold OneShot.sha256_hex in H.
  destruct (OneShot.sha256 bs); [|discriminate]. injection H as <-. apply hex_native.
Qed.

Lemma valid_digest_hex64 s : valid_digest s = true -> hex64 s.
Proof.
  unfold valid_digest. rewrite !andb_true_iff. intros [[Hl Hh] _]. bool_to_prop. split; [done|].
  apply forallb_Forall'. apply forallb_Forall' in Hh. eapply Forall_impl; [exact Hh|]. apply lower_hex_native.
Qed.

Lemma join_bytes_Forall (P : byte -> Prop) sep parts :
  P sep -> Forall (Forall P) parts -> Forall P (join_bytes sep parts).
Proof.
  intros Hs. induction 1 as [|part parts Hp HF IH]; [constructor|]. destruct parts; cbn [join_bytes] in *; [done|].
  apply Forall_app. split; [done|]. by constructor.
Qed.

Lemma path_fits p : slen p <= 4096 -> canonical_relative p = true -> text_fits p = true.
Proof.
  intros Hl Hc. unfold text_fits. rewrite (proj2 (Z.leb_le _ _) Hl), andb_true_r. unfold native_text.
  apply forallb_Forall'. rewrite <- (join_split_bytes x2f (str_bytes p)).
  apply join_bytes_Forall; [done|]. apply canonical_relative_parts in Hc. unfold split in Hc. apply Forall_map in Hc.
  eapply Forall_impl; [exact Hc|]. intros part Hp. unfold canonical_part in Hp. rewrite str_bytes_of_bytes in Hp.
  rewrite !andb_true_iff in Hp. destruct Hp as [_ Hp]. apply forallb_Forall' in Hp. eapply Forall_impl; [exact Hp|].
  intros b Hb. destruct b; (done || discriminate).
Qed.

(** What a frame adds to the wire. *)
Definition cost (v : Value) : Z := 4 + size v.
Definition encodes (v : Value) : Prop := exists e, encode_bounded v CAPTURE_FRAME_LIMITS = Ok e.

(** Solve the side conditions of [encode_flat] for a literal record. *)
#[local] Ltac keys_fit := repeat constructor.

Lemma size_map kvs : size (Map kvs) = head_len (len kvs) + sumZ (map (fun kv : string * Value => text_size kv.1 + size kv.2) kvs).
Proof. done. Qed.

(** The sizes of the entries of a literal record, one by one. *)
#[local] Ltac record_size :=
  rewrite size_map; cbn [map fst snd app sumZ foldr];
  repeat match goal with
  | |- context [text_size ?k] => let n := eval vm_compute in (text_size k) in change (text_size k) with n
  | |- context [head_len (len ?l)] => let n := eval cbv in (head_len (Z.of_nat (length l))) in
      change (head_len (len l)) with n
  end.

Lemma chunk_frame n part :
  len part <= CAPTURE_CHUNK_BYTES -> encodes (chunk_value (n, part)) /\ cost (chunk_value (n, part)) <= len part + 128.
Proof.
  intros Hl. unfold CAPTURE_CHUNK_BYTES in Hl. pose proof (number_size (Z.of_nat n)) as Hn. pose proof (len_nonneg part).
  assert (size (Bytes part) <= 3 + len part) as Hb.
  { cbn [size]. pose proof (head_len_16 (len part) ltac:(lia)). lia. }
  assert (size (chunk_value (n, part)) <= 41 + len part) as Hs.
  { unfold chunk_value. record_size. change (size (Text "chunk")) with 6. lia. }
  split; [|unfold cost; lia]. apply encode_flat; [keys_fit|keys_fit|reflexivity|unfold len; cbn; lia|].
  change (Map _) with (chunk_value (n, part)). lia.
Qed.

Lemma source_row_frame n f :
  text_fits (SourceRows.path f) = true -> hex64 (file_digest f) ->
  encodes (source_row_value (n, f)) /\ cost (source_row_value (n, f)) <= slen (SourceRows.path f) + 160 + 128.
Proof.
  intros Hp Hd. pose proof Hp as Hp'. unfold text_fits in Hp'. apply andb_true_iff in Hp' as [_ Hp']. bool_to_prop.
  assert (size (Text (SourceRows.path f)) <= 3 + slen (SourceRows.path f)) as Hs1.
  { cbn [size]. unfold text_size. pose proof (head_len_16 (slen (SourceRows.path f)) ltac:(lia)). lia. }
  pose proof (number_size (Z.of_nat n)). pose proof (number_size (SourceRows.mode f)).
  pose proof (number_size (len (SourceRows.file_bytes f))). pose proof (hex64_size _ Hd).
  assert (0 <= slen (SourceRows.path f)) by apply len_nonneg.
  assert (size (source_row_value (n, f)) <= 170 + slen (SourceRows.path f)) as Hs.
  { unfold source_row_value. record_size. change (size (Text "source-row")) with 11. lia. }
  split; [|unfold cost; lia].
  apply encode_flat; [keys_fit| |reflexivity|unfold len; cbn; lia|].
  - repeat constructor; cbn [snd leaf]; [done|by apply hex64_fits].
  - change (Map _) with (source_row_value (n, f)). lia.
Qed.

Lemma input_frame role bytes digest :
  role = "overlay"%string \/ role = "carrier"%string -> hex64 digest ->
  encodes (input_value role bytes digest) /\ cost (input_value role bytes digest) <= 128 + 128.
Proof.
  intros Hr Hd. pose proof (number_size (len bytes)). pose proof (hex64_size _ Hd).
  assert (size (Text role) = 8 /\ leaf (Text role) = true) as [Hs1 Hl1] by (destruct Hr as [-> | ->]; done).
  assert (size (input_value role bytes digest) <= 130) as Hs.
  { unfold input_value. record_size. change (size (Text "input")) with 6. lia. }
  split; [|unfold cost; lia].
  apply encode_flat; [keys_fit| |reflexivity|unfold len; cbn; lia|].
  - repeat constructor; cbn [snd]; [done|by apply hex64_fits].
  - change (Map _) with (input_value role bytes digest). lia.
Qed.

Lemma end_frame digest : hex64 digest -> encodes (end_value digest) /\ cost (end_value digest) <= 128.
Proof.
  intros Hd. pose proof (hex64_size _ Hd).
  assert (size (end_value digest) <= 100) as Hs.
  { unfold end_value. record_size. change (size (Text "end")) with 4. lia. }
  split; [|unfold cost; lia].
  apply encode_flat; [keys_fit| |reflexivity|unfold len; cbn; lia|].
  - repeat constructor; cbn [snd leaf]; by apply hex64_fits.
  - change (Map _) with (end_value digest). lia.
Qed.

(** The texts of the header. *)
Record header_ok (i : CapturedPatchInputs) : Prop := {
  hd_request : hex64 (request_digest (request i));
  hd_rows : hex64 (row_digest (inputs_source i));
  hd_overlay : hex64 (patch_overlay_digest (inputs_overlay i));
  hd_carrier : hex64 (patch_byte_carrier_set_digest (inputs_carrier i));
  hd_overlay_bytes : hex64 (overlay_byte_digest (request i));
  hd_carrier_bytes : hex64 (carrier_byte_digest (request i));
  hd_source : match source (request i) with
              | SourceRows.Directory _ declared => hex64 declared
              | Archive _ stream => hex64 stream
              end
}.

Lemma size_map_le kvs b n :
  Forall (fun kv : string * Value => text_size kv.1 + size kv.2 <= b) kvs -> len kvs = n ->
  size (Map kvs) <= 9 + b * n.
Proof.
  intros HF <-. rewrite size_map. pose proof (head_len_pos (len kvs)) as Hh.
  enough (sumZ (map (fun kv : string * Value => text_size kv.1 + size kv.2) kvs) <= b * len kvs) by lia.
  clear Hh. induction HF as [|kv kvs Hkv HF IH]; [by rewrite Z.mul_0_r|].
  rewrite len_cons. cbn [map sumZ foldr] in *. unfold sumZ in IH. lia.
Qed.

Lemma field_le k v b : size v <= b -> (text_size k + b <=? 110) = true -> text_size k + size v <= 110.
Proof. intros Hv Hk%Z.leb_le. lia. Qed.

(** A field of the header is at most 110 bytes. *)
#[local] Ltac header_field :=
  cbn [fst snd];
  match goal with
  | H : text_size ?k + size ?v <= _ |- text_size ?k + size ?v <= _ => apply (Z.le_trans _ _ _ H); done
  | H : size ?v <= ?b |- _ + size ?v <= _ => apply (field_le _ _ b H); vm_compute; reflexivity
  | H : size ?v = ?b |- _ + size ?v <= _ => apply (field_le _ _ b (Z.eq_le_incl _ _ H)); vm_compute; reflexivity
  | |- text_size ?k + size ?v <= _ => vm_compute; discriminate
  end.

Lemma header_frame i : header_ok i -> encodes (header_value i) /\ cost (header_value i) <= 1664.
Proof.
  intros [H1 H2 H3 H4 H5 H6 H7].
  pose proof (hex64_size _ H1). pose proof (hex64_size _ H2). pose proof (hex64_size _ H3).
  pose proof (hex64_size _ H4). pose proof (hex64_size _ H5). pose proof (hex64_size _ H6).
  pose proof (number_size (len (row_files (inputs_source i)))).
  pose proof (number_size (SourceRows.byte_length (inputs_source i))).
  pose proof (number_size (len (plan_canonical_bytes (inputs_overlay i)))).
  pose proof (number_size (len (set_canonical_bytes (inputs_carrier i)))).
  assert (size (Text (source_kind (request i))) <= 10 /\ leaf (Text (source_kind (request i))) = true) as [Hk Hkl].
  { unfold source_kind. destruct (source (request i)) as [? ?|[] ?]; split; (done || reflexivity). }
  assert (forall kv : string * Value,
    kv = match source (request i) with
         | SourceRows.Directory _ declared => ("declaredBaseArchiveDigest"%string, Text declared)
         | Archive _ stream_digest => ("sourceStreamDigest"%string, Text stream_digest)
         end -> text_size kv.1 + size kv.2 <= 100 /\ text_fits kv.1 = true /\ leaf kv.2 = true /\
         (kv.1 = "declaredBaseArchiveDigest"%string \/ kv.1 = "sourceStreamDigest"%string)) as Hlast.
  { intros kv ->. destruct (source (request i)); cbn [fst snd]; rewrite (hex64_size _ H7);
      (split_and!; [unfold text_size; vm_compute; discriminate|reflexivity|by apply hex64_fits|]); [by left|by right]. }
  unfold header_value, encodes, cost.
  destruct (match source (request i) with
            | SourceRows.Directory _ declared => ("declaredBaseArchiveDigest"%string, Text declared)
            | Archive _ stream_digest => ("sourceStreamDigest"%string, Text stream_digest)
            end) as [k v]. specialize (Hlast (k, v) eq_refl) as (Hs & Hkf & Hvl & Hk'). cbn [fst snd] in *.
  match goal with |- (exists e, encode_bounded (Map ?l) _ = _) /\ _ => assert (size (Map l) <= 9 + 110 * 15) as Hsize end.
  { apply size_map_le; [|done]. cbn [app]. repeat (constructor; [header_field|]). constructor. }
  split; [|lia]. apply encode_flat; [| | | |lia].
  - cbn [app]. repeat constructor; done.
  - cbn [app]. repeat constructor; cbn [snd leaf]; (done || by apply hex64_fits).
  - cbn [app map fst]. destruct Hk' as [-> | ->]; reflexivity.
  - unfold len. cbn [app length]. lia.
Qed.
End Sizes.
