(* ===== verification/CaptureFacts.v ===== *)
(** * Theorems on the capture of patch inputs

    [Acquired] says what a successful capture hands to the response writer,
    [Budget] that [check_response_budget] bounds everything the writer will
    emit, so that a captured input is always answered by a complete response. *)

From S2P Require Import Prelude Cbor CborFacts Sha256 Paths TextFacts PatchOverlay OverlayFacts SourceRows SourceRowsFacts Gzip GzipFacts Tar TarFacts Directory DirectoryFacts Supervisor SupervisorFacts.
Import Spec Encode Builder Chunking Wire Sizes.

(** ** What was acquired *)
Module Acquired.

(** Rows that a builder finished. *)
Definition built (reserve : SourceRowsBuilder -> bool) (rows : CapturedSourceRows) : Prop :=
  exists b, reach reserve b /\ SourceRows.finish b = Ok rows.

Lemma archive_built reserve reserve_body bytes format digest r :
  capture_archive reserve reserve_body bytes format digest = Ok r -> built reserve r.
Proof.
  unfold capture_archive. intros H. apply guard_ok in H as [_ H]. apply guard_ok in H as [_ H].
  apply bind_ok in H as (d & _ & H). apply guard_ok in H as [_ H]. apply bind_ok in H as (p & Hp & H).
  enough (TarSafe.sound reserve p) as (_ & Hb & _).
  { unfold finish in H. apply guard_ok in H as [_ H]. by exists (Tar.rows p). }
  destruct format.
  - apply guard_ok in Hp as [_ Hp]. by destruct (runs_ok _ _ _ (TarSafe.write_runs _ _ _ _ (TarSafe.new_sound _)) Hp).
  - apply bind_ok in Hp as ([n q] & Hdec & [= ->]).
    apply Members.decode_sim in Hdec as (out & chunks & _ & _ & _ & Hfold & _); [|done].
    by apply TarSafe.writes_sound in Hfold as [Hs _].
Qed.

Lemma directory_built {Dir World : Type} `{PinnedDirectory Dir World} reserve d expected w r w' :
  capture_source_directory reserve d expected w = Ok (r, w') -> built reserve r.
Proof. intros H0. apply (runs_ok _ _ _ (Walks.capture_source_directory_runs _ _ _ _)) in H0 as (b & Hb & Hf & _). by exists b. Qed.

(** The rows of a finished builder. *)
Record rows_ok (rows : CapturedSourceRows) : Prop := {
  ro_files : Forall file_ok (row_files rows);
  ro_digest : hex64 (row_digest rows);
  ro_length : SourceRows.byte_length rows = sumZ (map (fun f => len (file_bytes f)) (row_files rows))
}.

Lemma built_ok reserve rows : built reserve rows -> rows_ok rows.
Proof.
  intros (b & Hb & Hf). pose proof (reachable_wf _ _ Hb) as [W1 _ _ W4 W5 _ _].
  destruct (finish_spec b rows W4 Hf) as (E1 & E2 & enc & _ & Hd). unfold sorted_files in E1. split.
  - rewrite E1. by rewrite sort_by_perm.
  - by eapply sha256_hex64.
  - rewrite E1, E2, W5. apply sumZ_perm. by rewrite sort_by_perm.
Qed.

(** The texts of a request. *)
Record request_ok (r : ValidatedCaptureRequest) : Prop := {
  rq_digest : hex64 (request_digest r);
  rq_overlay : hex64 (overlay_byte_digest r);
  rq_carrier : hex64 (carrier_byte_digest r);
  rq_source : match source r with
              | SourceRows.Directory _ declared => hex64 declared
              | Archive _ stream => hex64 stream
              end
}.

Lemma digest_field_ok value key d : request_digest_field value key = Ok d -> hex64 d.
Proof.
  unfold request_digest_field. intros H. apply bind_ok in H as (t & _ & H). apply guard_ok in H as [Hv [= <-]].
  apply valid_digest_hex64. by apply negb_false_iff in Hv.
Qed.

Lemma request_source_ok value kind s :
  request_source value kind = Ok s ->
  match s with SourceRows.Directory _ declared => hex64 declared | Archive _ stream => hex64 stream end.
Proof.
  unfold request_source. case_bool_decide.
  - intros H0. apply bind_ok in H0 as (e & _ & H0). apply bind_ok in H0 as (d & Hd & [= <-]). by eapply digest_field_ok.
  - intros H0. apply bind_ok in H0 as (d & Hd & [= <-]). by eapply digest_field_ok.
Qed.

Lemma capture_request_ok bytes r : capture_input_request bytes = Ok r -> request_ok r.
Proof.
  unfold capture_input_request. intros H. apply guard_ok in H as [Hl H]. bool_to_prop.
  apply bind_ok in H as (v & _ & H). destruct v; try discriminate.
  apply bind_ok in H as (? & _ & H). apply guard_ok in H as [_ H]. apply bind_ok in H as (? & _ & H).
  apply bind_ok in H as (? & _ & H). apply guard_ok in H as [_ H].
  apply bind_ok in H as (? & _ & H). apply guard_ok in H as [_ H].
  do 3 apply bind_ok in H as (? & _ & H). do 2 apply guard_ok in H as [_ H].
  apply bind_ok in H as (s & Hs & H). apply bind_ok in H as (st1 & H1 & H). apply bind_ok in H as (st2 & H2 & H).
  apply bind_ok in H as (od & Hod & H). apply bind_ok in H as (cd & Hcd & H). apply bind_ok in H as (d & Hd & [= <-]).
  split; cbn [request_digest overlay_byte_digest carrier_byte_digest source].
  - assert (len (CAPTURE_REQUEST_DOMAIN ++ bytes) <= 65536 + 64) as Hm.
    { rewrite len_app. change (len CAPTURE_REQUEST_DOMAIN) with 28. unfold MAX_CAPTURE_FRAME_BYTES in Hl. lia. }
    destruct (hash_spec Streaming.new [] CAPTURE_REQUEST_DOMAIN Facts.represents_new) as (st1' & E1 & R1); [done|].
    rewrite H1 in E1. injection E1 as <-.
    destruct (hash_spec st1 _ bytes R1) as (st2' & E2 & R2); [cbn [app]; unfold u64_max; lia|].
    rewrite H2 in E2. injection E2 as <-.
    rewrite (hash_finalize_spec _ _ R2) in Hd by (cbn [app]; unfold u64_max; lia). apply ok_or_ok in Hd. by eapply sha256_hex64.
  - by eapply digest_field_ok.
  - by eapply digest_field_ok.
  - by eapply request_source_ok.
Qed.

Lemma carrier_digest_ok bytes c :
  capture_patch_byte_carrier_set bytes = Ok c -> hex64 (patch_byte_carrier_set_digest c).
Proof.
  unfold capture_patch_byte_carrier_set. intros H. apply bind_ok in H as (v & _ & H). apply bind_ok in H as (? & _ & H).
  apply bind_ok in H as (? & _ & H). apply guard_ok in H as [_ H]. apply bind_ok in H as (? & _ & H).
  apply guard_ok in H as [_ H]. apply bind_ok in H as (? & _ & H). apply guard_ok in H as [_ H].
  apply bind_ok in H as (rows & _ & H). destruct rows; try discriminate. apply guard_ok in H as [_ H].
  do 2 apply bind_ok in H as (? & _ & H). apply guard_ok in H as [_ H]. apply bind_ok in H as (d & Hd & [= <-]).
  cbn [patch_byte_carrier_set_digest]. apply ok_or_ok in Hd. by eapply sha256_hex64.
Qed.
End Acquired.
Import Acquired.

(** ** The budget *)
Module Budget.

(** A sink that takes every write. *)
Class Accepting (O : Type) `{Write O} : Prop := {
  write_accepted o bytes : exists o', write_all o bytes = Some o';
  flush_accepted o : exists o', flush o = Some o'
}.

Definition total_cost (vs : list Value) : Z := sumZ (map cost vs).

Lemma total_cost_app vs ws : total_cost (vs ++ ws) = total_cost vs + total_cost ws.
Proof. unfold total_cost, sumZ. rewrite map_app. induction (map cost vs) as [|x l IH]; cbn [app foldr]; lia. Qed.
Lemma total_cost_cons v vs : total_cost (v :: vs) = cost v + total_cost vs.
Proof. done. Qed.

Section sink.
Context {O : Type} `{HW : Write O} (view : O -> list byte) `{!WriteLaws O view} `{!Accepting O}.

Lemma frame_succeeds o encs s v :
  emitted view o encs s -> encodes v ->
  len encs + 1 <= MAX_CAPTURE_FRAMES -> len (concat (map framed encs)) + cost v <= MAX_CAPTURE_RESPONSE_BYTES ->
  exists e s', frame s v = Ok s' /\ emitted view o (encs ++ [e]) s' /\
    len (concat (map framed (encs ++ [e]))) = len (concat (map framed encs)) + cost v.
Proof using All.
  intros Hem [e He] Hn Hs. assert (len (framed e) = cost v) as Hc.
  { rewrite len_framed. apply encoding_small in He as [-> _]. done. }
  destruct (frame_step view o encs s v e Hem He Hn) as (st & R & E); [lia|].
  destruct (write_accepted (output s) (be_bytes 4 (len e))) as [o1 W1].
  destruct (write_accepted o1 e) as [o2 W2]. rewrite W1 in E. cbn [ok_or res_bind] in E. rewrite W2 in E. cbn [ok_or res_bind] in E.
  destruct (frame_emitted view o encs s v _ Hem E) as (e' & He' & Hem').
  rewrite He in He'. injection He' as <-. exists e. eexists. split; [exact E|]. split; [done|].
  rewrite framed_snoc, len_app. lia.
Qed.

Lemma frames_succeed o vs encs s :
  emitted view o encs s -> Forall encodes vs ->
  len encs + len vs <= MAX_CAPTURE_FRAMES ->
  len (concat (map framed encs)) + total_cost vs <= MAX_CAPTURE_RESPONSE_BYTES ->
  exists es s', res_fold frame vs s = Ok s' /\ emitted view o (encs ++ es) s' /\
    len (concat (map framed (encs ++ es))) = len (concat (map framed encs)) + total_cost vs /\ length es = length vs.
Proof using All.
  revert encs s. induction vs as [|v vs IH]; intros encs s Hem Hvs Hn Hs.
  - exists [], s. rewrite app_nil_r. change (total_cost []) with 0. split_and!; [done|done|lia|done].
  - inv Hvs. rewrite len_cons in Hn. rewrite total_cost_cons in Hs. pose proof (len_nonneg vs).
    assert (0 <= total_cost vs) as Ht.
    { clear. unfold total_cost, sumZ. induction vs as [|v vs IH]; cbn [map foldr]; [lia|]. unfold cost at 1.
      pose proof (size_pos v). lia. }
    destruct (frame_succeeds o encs s v Hem) as (e & s1 & E1 & Hem1 & Hl1); [done|lia|lia|].
    destruct (IH (encs ++ [e]) s1 Hem1) as (es & s' & E2 & Hem2 & Hl2 & Hlen); [done|rewrite len_app; change (len [e]) with 1; lia|lia|].
    exists (e :: es), s'. rewrite <- app_assoc in Hem2, Hl2. change ([e] ++ es) with (e :: es) in *. cbn [res_fold]. rewrite E1. cbn [res_bind].
    split_and!; [done|done|rewrite total_cost_cons; lia|by cbn; f_equal].
Qed.

Lemma finish_succeeds o encs s :
  emitted view o encs s -> len encs + 1 <= MAX_CAPTURE_FRAMES ->
  len (concat (map framed encs)) + 128 <= MAX_CAPTURE_RESPONSE_BYTES ->
  exists o', finish_response s = Ok o'.
Proof using All.
  intros [E1 E2 E3 E4] Hn Hs. unfold finish_response.
  rewrite (hash_finalize_spec _ _ E2) by (apply digest_bound; lia).
  destruct (sha256_hex_total _ (digest_bound encs ltac:(lia))) as (d & Ed & _). rewrite Ed. cbn [ok_or res_bind].
  destruct (end_frame d (sha256_hex64 _ _ Ed)) as [[e He] Hc]. fold (end_value d).
  pose proof (encoding_small _ _ He) as [Hsize Hle]. unfold cost in Hc.
  unfold frame. cbn [output hash frames sent]. rewrite He. cbn [map_err res_bind]. unfold checked_add.
  unfold MAX_CAPTURE_RESPONSE_BYTES in *. pose proof (len_nonneg (concat (map framed encs))).
  rewrite (proj2 (Z.leb_le _ u64_max)) by (rewrite E4; unfold u64_max; lia). cbn [ok_or res_bind].
  rewrite E3, E4, !(proj2 (Z.ltb_ge _ _)) by lia. cbn [orb].
  destruct (hash_spec Streaming.new [] (be_bytes 4 (len e mod 2 ^ 32)) Facts.represents_new) as (st1 & -> & R1).
  { cbn [app]. rewrite len_be_bytes. done. }
  cbn [res_bind]. destruct (hash_spec st1 _ e R1) as (st2 & -> & _).
  { cbn [app]. rewrite len_app, len_be_bytes. unfold u64_max. lia. }
  cbn [res_bind]. destruct (write_accepted (output s) (be_bytes 4 (len e mod 2 ^ 32))) as [o1 ->].
  cbn [ok_or res_bind]. destruct (write_accepted o1 e) as [o2 ->]. cbn [ok_or res_bind output].
  destruct (flush_accepted o2) as [o3 ->]. by exists o3.
Qed.
End sink.

(** *** The frames of a response, against their budget *)
Lemma chunk_frames bytes :
  Forall encodes (chunk_values bytes) /\
  len (chunk_values bytes) = div_ceil (len bytes) CAPTURE_CHUNK_BYTES /\
  total_cost (chunk_values bytes) <= len bytes + 128 * div_ceil (len bytes) CAPTURE_CHUNK_BYTES.
Proof.
  destruct (chunks_spec bytes) as (Hc & Hs & Hn). fold size_of_chunk in *. unfold chunk_values. fold size_of_chunk.
  set (parts := chunks size_of_chunk bytes) in *.
  rewrite len_map. assert (len (zip (seq 0 (length parts)) parts) = len parts) as Hz.
  { unfold len. rewrite length_zip_with, length_seq. lia. }
  rewrite Hz. split; [|split; [done|]].
  - apply Forall_map, Forall_forall. intros [n part] Hin. apply elem_of_zip_r in Hin. rewrite Forall_forall in Hs.
    apply Hs in Hin. apply chunk_frame. lia.
  - rewrite <- Hn, <- Hc. clear Hc Hn Hz. generalize 0%nat. induction parts as [|part parts IH]; intros k; [done|].
    cbn [length seq zip_with map concat]. rewrite total_cost_cons, len_app, len_cons. inv Hs.
    destruct (chunk_frame k part) as [_ Hk]; [lia|]. specialize (IH H2 (S k)). lia.
Qed.

Lemma file_frames_budget k f :
  file_ok f ->
  Forall encodes (file_frames (k, f)) /\
  len (file_frames (k, f)) = 1 + div_ceil (len (file_bytes f)) CAPTURE_CHUNK_BYTES /\
  total_cost (file_frames (k, f)) <=
    slen (SourceRows.path f) + 160 + len (file_bytes f) + 128 * (1 + div_ceil (len (file_bytes f)) CAPTURE_CHUNK_BYTES).
Proof.
  intros (Hp & _ & _ & Hd). destruct (chunk_frames (file_bytes f)) as (H1 & H2 & H3).
  destruct (source_row_frame k f) as [H4 H5]; [|by eapply sha256_hex64|].
  - apply validate_path_spec in Hp as (? & ? & _). by apply path_fits.
  - unfold file_frames. cbn [snd]. rewrite len_cons, total_cost_cons. split_and!; [by constructor|lia|lia].
Qed.

Definition files_frames (fs : list CapturedSourceFile) : Z :=
  sumZ (map (fun f => 1 + div_ceil (len (file_bytes f)) CAPTURE_CHUNK_BYTES) fs).
Definition files_metadata (fs : list CapturedSourceFile) : Z :=
  sumZ (map (fun f => slen (SourceRows.path f) + 160) fs).
Definition files_bytes (fs : list CapturedSourceFile) : Z := sumZ (map (fun f => len (file_bytes f)) fs).

Lemma all_files_budget fs :
  Forall file_ok fs ->
  Forall encodes (concat (map file_frames (indexed fs))) /\
  len (concat (map file_frames (indexed fs))) = files_frames fs /\
  total_cost (concat (map file_frames (indexed fs))) <= files_metadata fs + files_bytes fs + 128 * files_frames fs.
Proof.
  unfold indexed. generalize 0%nat. induction fs as [|f fs IH]; intros k Hfs; [by split_and!|].
  inv Hfs. destruct (file_frames_budget k f) as (H3 & H4 & H5); [done|].
  destruct (IH (S k)) as (H6 & H7 & H8); [done|]. cbn [length seq zip_with map concat].
  rewrite len_app, total_cost_app. unfold files_frames, files_metadata, files_bytes, sumZ in *. cbn [map foldr].
  split_and!; [by apply Forall_app|lia|lia].
Qed.

Lemma budget_fold fs a b :
  fold_left file_budget fs (a, b) = (a + files_frames fs, b + files_metadata fs).
Proof.
  unfold files_frames, files_metadata. revert a b.
  induction fs as [|f fs IH]; intros a b; cbn [fold_left map sumZ foldr]; [by rewrite !Z.add_0_r|].
  unfold file_budget at 2. cbn [fst snd]. rewrite IH. unfold sumZ. f_equal; lia.
Qed.

Lemma input_frames_budget role bytes digest :
  role = "overlay"%string \/ role = "carrier"%string -> hex64 digest ->
  Forall encodes (input_frames (role, bytes, digest)) /\
  len (input_frames (role, bytes, digest)) = 1 + div_ceil (len bytes) CAPTURE_CHUNK_BYTES /\
  total_cost (input_frames (role, bytes, digest)) <= 256 + len bytes + 128 * div_ceil (len bytes) CAPTURE_CHUNK_BYTES.
Proof.
  intros Hr Hd. destruct (chunk_frames bytes) as (H1 & H2 & H3). destruct (input_frame role bytes digest Hr Hd) as [H4 H5].
  unfold input_frames. rewrite len_cons, total_cost_cons. split_and!; [by constructor|lia|lia].
Qed.

(** Inputs whose texts are what captures produce. *)
Record inputs_ok (i : CapturedPatchInputs) : Prop := {
  io_request : request_ok (request i);
  io_rows : rows_ok (inputs_source i);
  io_overlay : hex64 (patch_overlay_digest (inputs_overlay i));
  io_carrier : hex64 (patch_byte_carrier_set_digest (inputs_carrier i))
}.

Lemma inputs_header i : inputs_ok i -> header_ok i.
Proof. intros [[R1 R2 R3 R4] [_ D _] H3 H4]. by split. Qed.

(** What the budget admits is room for every frame and the last one. *)
Lemma body_budget i :
  inputs_ok i -> check_response_budget i = Ok tt ->
  Forall encodes (body_frames i) /\ len (body_frames i) + 1 <= MAX_CAPTURE_FRAMES /\
  total_cost (body_frames i) + 128 <= MAX_CAPTURE_RESPONSE_BYTES.
Proof.
  intros Hok H. pose proof (header_frame i (inputs_header i Hok)) as [Hh Hhc].
  destruct Hok as [[R1 R2 R3 R4] [F1 F2 F3] H3 H4]. unfold check_response_budget in H. rewrite budget_fold in H.
  apply guard_ok in H as [H _]. apply orb_false_iff in H as [G1 G2]. apply Z.ltb_ge in G1, G2.
  destruct (all_files_budget _ F1) as (A1 & A2 & A3).
  destruct (input_frames_budget "overlay" (plan_canonical_bytes (inputs_overlay i)) (overlay_byte_digest (request i)))
    as (B1 & B2 & B3); [by left|done|].
  destruct (input_frames_budget "carrier" (set_canonical_bytes (inputs_carrier i)) (carrier_byte_digest (request i)))
    as (C1 & C2 & C3); [by right|done|].
  unfold body_frames, inputs_of. cbn [map concat]. rewrite app_nil_r.
  rewrite len_cons, !len_app, total_cost_cons, !total_cost_app. fold (files_bytes (row_files (inputs_source i))) in F3.
  split_and!; [constructor; [done|]; by rewrite !Forall_app|lia|lia].
Qed.
End Budget.
Import Budget.

(** ** From a request to its inputs *)
Module Captured.
Section captured.
Context {Dir World : Type} `{HP : PinnedDirectory Dir World}.
Context (open_root : string -> World -> result io_error (Dir * World)).
Context (reserve : SourceRowsBuilder -> bool) (reserve_body : SourceRowsBuilder -> Z -> bool).

(** The steps of a capture that succeeded. *)
Lemma capture_steps r w i w' :
  capture_patch_inputs open_root reserve reserve_body r w = Ok (i, w') ->
  request i = r /\ check_response_budget i = Ok tt /\
  exists overlay_bytes carrier_bytes,
    byte_digest overlay_bytes = Ok (overlay_byte_digest r) /\
    capture_patch_overlay overlay_bytes = Ok (inputs_overlay i) /\
    base_archive_digest (overlay (inputs_overlay i)) = overlay_base_digest r /\
    byte_digest carrier_bytes = Ok (carrier_byte_digest r) /\
    capture_patch_byte_carrier_set carrier_bytes = Ok (inputs_carrier i) /\
    join_patch_application_inputs (inputs_overlay i) (inputs_carrier i) = Ok tt /\
    exists d w1 w2, capture_source reserve reserve_body d r w1 = Ok (inputs_source i, w2).
Proof.
  unfold capture_patch_inputs, read_checked. intros H0. apply bind_ok in H0 as ([d w1] & _ & H0).
  apply bind_ok in H0 as ([b1 w2] & Hr1 & H0). apply bind_ok in Hr1 as ([raw1 v1] & _ & Hr1).
  apply bind_ok in Hr1 as (d1 & Hd1 & Hr1). apply guard_ok in Hr1 as [E1 [= <- <-]].
  apply bind_ok in H0 as (plan & Hplan%map_err_ok & H0). apply guard_ok in H0 as [Eb H0].
  apply bind_ok in H0 as ([b2 w3] & Hr2 & H0). apply bind_ok in Hr2 as ([raw2 v2] & _ & Hr2).
  apply bind_ok in Hr2 as (d2 & Hd2 & Hr2). apply guard_ok in Hr2 as [E2 [= <- <-]].
  apply bind_ok in H0 as (c & Hc%map_err_ok & H0). apply bind_ok in H0 as ([] & Hj%map_err_ok & H0).
  apply bind_ok in H0 as ([rows w4] & Hs & H0). apply bind_ok in H0 as ([] & Hb & [= <- <-]).
  bool_to_prop. subst d1 d2. cbn [request inputs_overlay inputs_carrier inputs_source] in *.
  split_and!; [done|done|]. exists (captured_bytes raw1), (captured_bytes raw2). split_and!; try done. by exists d, v2, w4.
Qed.

Lemma capture_source_ok d r w rows w' :
  capture_source reserve reserve_body d r w = Ok (rows, w') -> rows_ok rows.
Proof.
  unfold capture_source. destruct (source r) as [expected declared|format stream]; intros H0.
  - apply bind_ok in H0 as ([d' w1] & _ & H0). apply directory_built in H0. by eapply built_ok.
  - apply bind_ok in H0 as ([raw w1] & _ & H0). apply bind_ok in H0 as (rows' & Ha & [= <- <-]).
    apply archive_built in Ha. by eapply built_ok.
Qed.

Lemma captured_ok bytes r w i w' :
  capture_input_request bytes = Ok r ->
  capture_patch_inputs open_root reserve reserve_body r w = Ok (i, w') ->
  inputs_ok i /\ check_response_budget i = Ok tt.
Proof.
  intros Hr H0. apply capture_steps in H0 as (<- & Hb & ob & cb & _ & Ho & _ & _ & Hc & _ & d & w1 & w2 & Hs).
  split; [|done]. split.
  - by eapply capture_request_ok.
  - by eapply capture_source_ok.
  - apply OverlayFacts.Capture.overlay_sound in Ho as (_ & _ & _ & Hd). by eapply sha256_hex64.
  - by eapply carrier_digest_ok.
Qed.
End captured.
End Captured.
Import Captured.

(** ** A complete exchange in memory *)
Module Exchange.
Import Trees Sample.

(** A sink that keeps what it is given. *)
#[export] Instance buffer : Write (list byte) := {
  write_all o bytes := Some (o ++ bytes);
  flush o := Some o
}.
#[export] Instance buffer_laws : WriteLaws (list byte) (fun o => o).
Proof. by split; intros ? ? ? [= <-] || intros ? ? [= <-]. Qed.
#[export] Instance buffer_accepting : Accepting (list byte).
Proof. split; intros; by eexists. Qed.

Definition carrier_bytes : list byte := Eval vm_compute in
  bytes_of (encode_bounded (Map [("schema"%string, Text CARRIER_SET_SCHEMA); ("version"%string, Unsigned 1);
    ("packageId"%string, Text OVERLAY_PACKAGE_ID);
    ("entries"%string, Array [
      Map [("path"%string, Text "b/new.rs"); ("operation"%string, Text "add"); ("bytes"%string, Bytes (str_bytes "fresh"))];
      Map [("path"%string, Text "lib.rs"); ("operation"%string, Text "replace"); ("bytes"%string, Bytes [])]])]) CARRIER_LIMITS).

(** The root holds the overlay, the carriers and the source directory. *)
Definition root_listing : Listing :=
  [(entry_of "carrier" 10 (S_IFREG + 420) (len carrier_bytes), RegularFile carrier_bytes);
   (entry_of "overlay" 11 (S_IFREG + 420) (len sample_overlay_bytes), RegularFile sample_overlay_bytes);
   (entry_of "src" 12 (S_IFDIR + 493) 0, Folder listing)].
Definition open_memory (path : string) (w : unit) : result io_error (Handle * unit) :=
  Ok ((entry_identity (entry_of "" 9 (S_IFDIR + 493) 0), root_listing), w).

Definition request_bytes : list byte := Eval vm_compute in
  bytes_of (encode_bounded (Map [
    ("schema"%string, Text "keep.patch-input-capture"); ("version"%string, Unsigned 1);
    ("root"%string, Text "/root"); ("sourcePath"%string, Text "src"); ("sourceKind"%string, Text "directory");
    ("overlayPath"%string, Text "overlay"); ("overlayByteDigest"%string, Text (hash_of sample_overlay_bytes));
    ("carrierPath"%string, Text "carrier"); ("carrierByteDigest"%string, Text (hash_of carrier_bytes));
    ("expectedSourceRowDigest"%string, Text (row_digest sample_rows));
    ("declaredBaseArchiveDigest"%string, Text (hash_of (str_bytes "base")))]) CAPTURE_FRAME_LIMITS).
Definition no_request : ValidatedCaptureRequest := mkRequest "" "" "" "" "" "" (Archive SourceRows.Tar "") "".
Definition request_of : ValidatedCaptureRequest := Eval vm_compute in
  match capture_input_request request_bytes with Ok r => r | Err _ => no_request end.
Definition capture_of : capture (CapturedPatchInputs * unit) :=
  capture_patch_inputs open_memory grant (fun _ _ => true) request_of tt.
Definition inputs : CapturedPatchInputs := Eval vm_compute in
  match capture_of with
  | Ok (i, _) => i
  | Err _ => mkInputs no_request (mkRows [] 0 "") sample_plan sample_carriers
  end.

Lemma request_captured : capture_input_request request_bytes = Ok request_of.
Proof. vm_compute. reflexivity. Qed.
Lemma inputs_captured : capture_of = Ok (inputs, tt).
Proof. vm_compute. reflexivity. Qed.
End Exchange.
Import Trees Sample Exchange.

(** Inputs within the budget are written without a refusal. *)
Lemma budgeted_completes {O : Type} {HW : Write O} (view : O -> list byte) {HL : WriteLaws O view} {HA : Accepting O} i (o : O) :
  inputs_ok i -> check_response_budget i = Ok tt -> exists o', write_response i o = Ok o'.
Proof.
  intros Hok Hb.
  destruct (body_budget i Hok Hb) as (Henc & Hn & Hcost).
  rewrite (write_response_frames i o). destruct (new_writer_emitted view o) as (s0 & -> & Hem). cbn [res_bind].
  destruct (frames_succeed view o (body_frames i) [] s0 Hem Henc) as (es & s & -> & Hem' & Hl & Hlen);
    [change (len (@nil (list byte))) with 0; lia|cbn [map concat]; change (len (@nil byte)) with 0; lia|].
  cbn [res_bind app] in *. change (len (concat (map framed []))) with 0 in Hl.
  apply (finish_succeeds view o es s Hem'); [unfold len in *; lia|lia].
Qed.

(** ** Properties *)

(** A captured input is always answered: when the request was accepted and
    the capture succeeded, a sink that takes every write receives a complete
    response.  No frame is refused: [check_response_budget] bounds the number and
    the size of every frame of the response beforehand. *)
Theorem capture_response_completes {Dir World O : Type} `{PinnedDirectory Dir World} `{Write O} (view : O -> list byte)
    `{!WriteLaws O view} `{!Accepting O} open_root reserve reserve_body bytes r (w : World) i w' (o : O) :
  capture_input_request bytes = Ok r ->
  capture_patch_inputs (Dir:=Dir) open_root reserve reserve_body r w = Ok (i, w') ->
  exists o', write_response i o = Ok o'.
Proof.
  intros Hr Hc. destruct (captured_ok _ _ _ _ _ _ _ _ Hr Hc) as [Hok Hb].
  by apply (budgeted_completes view).
Qed.

Lemma capture_response_completes_witness :
  capture_input_request request_bytes = Ok request_of /\
  capture_patch_inputs open_memory grant (fun _ _ => true) request_of tt = Ok (inputs, tt) /\
  exists o', write_response inputs (@nil byte) = Ok o'.
Proof.
  split; [exact request_captured|]. split; [exact inputs_captured|].
  exact (capture_response_completes (fun o => o) open_memory grant (fun _ _ => true) request_bytes request_of tt inputs tt []
    request_captured inputs_captured).
Defined.

(** Whatever a response consists of is fixed by the inputs: a sink that
    accepted it holds, after what it held before, the header, a row and the
    32 KiB chunks of every source file, the two inputs with their chunks, each
    as a canonical encoding behind its length, and last a frame that commits to
    the SHA-256 of everything before it. *)
Theorem response_wire_format {O : Type} `{Write O} (view : O -> list byte) `{!WriteLaws O view} i (o o' : O) :
  write_response i o = Ok o' ->
  exists encs digest last, wire_of i encs digest last /\
    view o' = view o ++ concat (map framed encs) ++ framed last.
Proof. intros Hw. exact (write_response_spec view i o o' Hw). Qed.

(** The response to [inputs]. *)
Definition sample_response : list byte := Eval vm_compute in
  match write_response inputs (@nil byte) with Ok o => o | Err _ => [] end.

Lemma response_wire_format_witness :
  exists encs digest last, wire_of inputs encs digest last /\
    sample_response = [] ++ concat (map framed encs) ++ framed last.
Proof. apply (response_wire_format (fun o => o) inputs [] sample_response). vm_compute. reflexivity. Defined.

(** C36. A successful capture agrees with its request: the overlay and the
    carriers are captures of bytes whose SHA-256 the request names, the overlay
    applies to the archive the request declares, its operations and the carriers
    join, and the rows are those of a finished builder whose digest is the
    request's (for a directory). *)
Theorem captured_inputs_agree {Dir World : Type} `{PinnedDirectory Dir World} open_root reserve reserve_body r (w : World) i w' :
  capture_patch_inputs (Dir:=Dir) open_root reserve reserve_body r w = Ok (i, w') ->
  request i = r /\
  (exists bytes, byte_digest bytes = Ok (overlay_byte_digest r) /\
     capture_patch_overlay bytes = Ok (inputs_overlay i) /\ plan_canonical_bytes (inputs_overlay i) = bytes) /\
  (exists bytes, byte_digest bytes = Ok (carrier_byte_digest r) /\
     capture_patch_byte_carrier_set bytes = Ok (inputs_carrier i)) /\
  base_archive_digest (overlay (inputs_overlay i)) = overlay_base_digest r /\
  join_patch_application_inputs (inputs_overlay i) (inputs_carrier i) = Ok tt /\
  built reserve (inputs_source i) /\
  (forall expected declared, source r = SourceRows.Directory expected declared ->
     row_digest (inputs_source i) = expected).
Proof.
  intros Hc. apply capture_steps in Hc as (<- & _ & ob & cb & Hd & Ho & Hbase & Hcd & Hcc & Hj & d & w1 & w2 & Hs).
  split; [done|]. split; [exists ob; split_and!; [done|done|]; by apply OverlayFacts.Capture.overlay_sound in Ho as (_ & _ & ? & _)|].
  split; [by exists cb|]. split_and!; [done|done| |].
  - unfold capture_source in Hs. destruct (source (request i)) as [expected declared|format stream].
    + apply bind_ok in Hs as ([d' w3] & _ & Hs). by eapply directory_built.
    + apply bind_ok in Hs as ([raw w3] & _ & Hs). apply bind_ok in Hs as (rows' & Ha & [= <- <-]). by eapply archive_built.
  - intros expected declared E. unfold capture_source in Hs. rewrite E in Hs.
    apply bind_ok in Hs as ([d' w3] & _ & Hs). unfold capture_source_directory in Hs. apply guard_ok in Hs as [_ Hs].
    apply bind_ok in Hs as (s & _ & Hs). apply bind_ok in Hs as (rows & _ & Hs). apply guard_ok in Hs as [Hx [= <- _]].
    by bool_to_prop.
Qed.

Lemma captured_inputs_agree_witness :
  row_digest (inputs_source inputs) = row_digest sample_rows.
Proof.
  refine (proj2 (proj2 (proj2 (proj2 (proj2 (proj2
    (captured_inputs_agree open_memory grant (fun _ _ => true) request_of tt inputs tt inputs_captured)))))) _
    (hash_of (str_bytes "base")) _).
  vm_compute. reflexivity.
Defined.
