(* ===== verification/Sha512.v ===== *)
(** * SHA-512 ([protocol/src/p2_schema.rs])

    The digest of signature messages, after FIPS 180-4.  [reserve n] is what
    [try_reserve_exact(n)] answers. *)

From S2P Require Import Prelude Cbor Sha256.

(** ** 64-bit words *)
Definition mask64 : Z := u64_max.
Definition rotr64 (x n : Z) : Z := Z.lor (Z.shiftr x n) (Z.land (Z.shiftl x (64 - n)) mask64).
Definition not64 (x : Z) : Z := Z.lxor x mask64.
Definition wrapping_add64 (a b : Z) : Z := (a + b) mod 2 ^ 64.

Definition K512 : list Z := concat [
  [0x428a2f98d728ae22; 0x7137449123ef65cd; 0xb5c0fbcfec4d3b2f; 0xe9b5dba58189dbbc; 0x3956c25bf348b538];
  [0x59f111f1b605d019; 0x923f82a4af194f9b; 0xab1c5ed5da6d8118; 0xd807aa98a3030242; 0x12835b0145706fbe];
  [0x243185be4ee4b28c; 0x550c7dc3d5ffb4e2; 0x72be5d74f27b896f; 0x80deb1fe3b1696b1; 0x9bdc06a725c71235];
  [0xc19bf174cf692694; 0xe49b69c19ef14ad2; 0xefbe4786384f25e3; 0x0fc19dc68b8cd5b5; 0x240ca1cc77ac9c65];
  [0x2de92c6f592b0275; 0x4a7484aa6ea6e483; 0x5cb0a9dcbd41fbd4; 0x76f988da831153b5; 0x983e5152ee66dfab];
  [0xa831c66d2db43210; 0xb00327c898fb213f; 0xbf597fc7beef0ee4; 0xc6e00bf33da88fc2; 0xd5a79147930aa725];
  [0x06ca6351e003826f; 0x142929670a0e6e70; 0x27b70a8546d22ffc; 0x2e1b21385c26c926; 0x4d2c6dfc5ac42aed];
  [0x53380d139d95b3df; 0x650a73548baf63de; 0x766a0abb3c77b2a8; 0x81c2c92e47edaee6; 0x92722c851482353b];
  [0xa2bfe8a14cf10364; 0xa81a664bbc423001; 0xc24b8b70d0f89791; 0xc76c51a30654be30; 0xd192e819d6ef5218];
  [0xd69906245565a910; 0xf40e35855771202a; 0x106aa07032bbd1b8; 0x19a4c116b8d2d0c8; 0x1e376c085141ab53];
  [0x2748774cdf8eeb99; 0x34b0bcb5e19b48a8; 0x391c0cb3c5c95a63; 0x4ed8aa4ae3418acb; 0x5b9cca4f7763e373];
  [0x682e6ff3d6b2b8a3; 0x748f82ee5defb2fc; 0x78a5636f43172f60; 0x84c87814a1f0ab72; 0x8cc702081a6439ec];
  [0x90befffa23631e28; 0xa4506cebde82bde9; 0xbef9a3f7b2c67915; 0xc67178f2e372532b; 0xca273eceea26619c];
  [0xd186b8c721c0c207; 0xeada7dd6cde0eb1e; 0xf57d4f7fee6ed178; 0x06f067aa72176fba; 0x0a637dc5a2c898a6];
  [0x113f9804bef90dae; 0x1b710b35131c471b; 0x28db77f523047d84; 0x32caab7b40c72493; 0x3c9ebe0a15c9bebc];
  [0x431d67c49c100d4c; 0x4cc5d4becb3e42b6; 0x597f299cfc657e2a; 0x5fcb6fab3ad6faec; 0x6c44198c4a475817]].

(** [[u64; 8]]: the record of [Sha256] with wider words. *)
Definition initial_hash512 : words8 :=
  W8 0x6a09e667f3bcc908 0xbb67ae8584caa73b 0x3c6ef372fe94f82b 0xa54ff53a5f1d36f1
     0x510e527fade682d1 0x9b05688c2b3e6c1f 0x1f83d9abfb41bd6b 0x5be0cd19137e2179.
Definition wrapping_add8_64 (x y : words8) : words8 :=
  W8 (wrapping_add64 (wa x) (wa y)) (wrapping_add64 (wb x) (wb y))
     (wrapping_add64 (wc x) (wc y)) (wrapping_add64 (wd x) (wd y))
     (wrapping_add64 (we x) (we y)) (wrapping_add64 (wf x) (wf y))
     (wrapping_add64 (wg x) (wg y)) (wrapping_add64 (wh x) (wh y)).
Definition words8_bytes512 (h : words8) : list byte :=
  be_bytes 8 (wa h) ++ be_bytes 8 (wb h) ++ be_bytes 8 (wc h) ++ be_bytes 8 (wd h) ++
  be_bytes 8 (we h) ++ be_bytes 8 (wf h) ++ be_bytes 8 (wg h) ++ be_bytes 8 (wh h).

(** ** One block *)
Definition word512 (w : list Z) (i : nat) : Z := nth i w 0.
Definition small_sigma0 (x : Z) : Z := Z.lxor (Z.lxor (rotr64 x 1) (rotr64 x 8)) (Z.shiftr x 7).
Definition small_sigma1 (x : Z) : Z := Z.lxor (Z.lxor (rotr64 x 19) (rotr64 x 61)) (Z.shiftr x 6).

(** One step of [for i in 16..80]. *)
Definition extend512 (w : list Z) (i : nat) : list Z :=
  let s0 := small_sigma0 (word512 w (i - 15)) in
  let s1 := small_sigma1 (word512 w (i - 2)) in
  <[i := wrapping_add64 (wrapping_add64 (wrapping_add64 (word512 w (i - 16)) s0) (word512 w (i - 7))) s1]> w.
Definition schedule512 (chunk : list byte) : list Z :=
  fold_left extend512 (seq 16 64) (map be_value (chunks_exact 8 chunk) ++ replicate 64 0).

(** One step of [for i in 0..80]. *)
Definition round512 (w : list Z) (s : words8) (i : nat) : words8 :=
  let '(W8 a b c d e f g hh) := s in
  let s1 := Z.lxor (Z.lxor (rotr64 e 14) (rotr64 e 18)) (rotr64 e 41) in
  let ch := Z.lxor (Z.land e f) (Z.land (not64 e) g) in
  let t1 := wrapping_add64 (wrapping_add64 (wrapping_add64 (wrapping_add64 hh s1) ch)
              (nth i K512 0)) (word512 w i) in
  let s0 := Z.lxor (Z.lxor (rotr64 a 28) (rotr64 a 34)) (rotr64 a 39) in
  let maj := Z.lxor (Z.lxor (Z.land a b) (Z.land a c)) (Z.land b c) in
  let t2 := wrapping_add64 s0 maj in
  W8 (wrapping_add64 t1 t2) a b c (wrapping_add64 d t1) e f g.
Definition block512 (h : words8) (chunk : list byte) : words8 :=
  wrapping_add8_64 h (fold_left (round512 (schedule512 chunk)) (seq 0 80) h).

(** ** The function *)
Section sha512.
Variable reserve : Z -> bool.

(** [Vec::resize(n, 0)] *)
Definition resize_zero (n : Z) (l : list byte) : list byte :=
  firstn (Z.to_nat n) l ++ replicate (Z.to_nat n - length l) x00.
Definition padded_length (n : Z) : option Z :=
  n ← checked_add n 1; n ← checked_add n 16; n ← checked_add n 127; Some (n / 128 * 128).
(** [padded_length - 16] is not negative, and [bit_length] is a [u128]: the product cannot overflow. *)
Definition padded512 (bytes : list byte) (padded_length : Z) : list byte :=
  resize_zero (padded_length - 16) (bytes ++ [byte_of_Z 128]) ++ be_bytes 16 (len bytes * 8).
Definition sha512 (bytes : list byte) : result ProtocolError (list byte) :=
  let? padded_length := ok_or (padded_length (len bytes)) "SHA-512 length overflow"%string in
  throw_if negb (reserve padded_length) with "SHA-512 allocation failed"%string ;;
  Ok (words8_bytes512 (fold_left block512 (chunks_exact 128 (padded512 bytes padded_length)) initial_hash512)).
End sha512.

(** ** Against the standard *)
Module Fips.

(** FIPS 180-4, 5.1.2: a one bit, the fewest zeros that leave room for the
    length in 128 bits, and the length. *)
Definition zeros (n : Z) : Z := (111 - n) mod 128.
Definition pad (bytes : list byte) : list byte :=
  bytes ++ [x80] ++ replicate (Z.to_nat (zeros (len bytes))) x00 ++ be_bytes 16 (8 * len bytes).

(** FIPS 180-4, 6.4.2: the message schedule as a recurrence on its index. *)
Fixpoint schedule_word (fuel : nat) (block : list byte) (t : nat) : Z :=
  match fuel with
  | O => 0
  | S fuel =>
      if (t <? 16)%nat then be_value (firstn 8 (skipn (8 * t) block))
      else
        (small_sigma1 (schedule_word fuel block (t - 2)) + schedule_word fuel block (t - 7)
         + small_sigma0 (schedule_word fuel block (t - 15)) + schedule_word fuel block (t - 16)) mod 2 ^ 64
  end.
End Fips.

(** ** The schedule *)
Module ScheduleFacts.
Import Fips.

Lemma schedule_word_fuel f1 f2 block t :
  (t < f1)%nat -> (t < f2)%nat -> schedule_word f1 block t = schedule_word f2 block t.
Proof.
  revert f2 t. induction f1 as [|f1 IH]; intros [|f2] t H1 H2; try lia. cbn [schedule_word].
  destruct (t <? 16)%nat eqn:E; [done|]. apply Nat.ltb_ge in E.
  by rewrite (IH f2 (t - 2)%nat), (IH f2 (t - 7)%nat), (IH f2 (t - 15)%nat), (IH f2 (t - 16)%nat) by lia.
Qed.

(** The words of a block. *)
Definition word_of (block : list byte) (t : nat) : Z := schedule_word (S t) block t.

Lemma word_of_recurrence block t :
  (16 <= t)%nat ->
  word_of block t =
    (small_sigma1 (word_of block (t - 2)) + word_of block (t - 7) + small_sigma0 (word_of block (t - 15))
     + word_of block (t - 16)) mod 2 ^ 64.
Proof.
  intros Ht. unfold word_of. cbn [schedule_word]. rewrite (proj2 (Nat.ltb_ge t 16)) by done.
  rewrite (schedule_word_fuel t (S (t - 2))), (schedule_word_fuel t (S (t - 7))), (schedule_word_fuel t (S (t - 15))),
    (schedule_word_fuel t (S (t - 16))) by lia. done.
Qed.

(** The array after [k] steps holds the first [16 + k] words. *)
Definition holds_words (block : list byte) (w : list Z) (n : nat) : Prop :=
  length w = 80%nat /\ forall j, (j < n)%nat -> word512 w j = word_of block j.

Lemma extend_holds block w i :
  (16 <= i < 80)%nat -> holds_words block w i -> holds_words block (extend512 w i) (S i).
Proof.
  intros Hi [Hl Hw]. split; [unfold extend512; by rewrite length_insert|]. intros j Hj. unfold extend512, word512.
  destruct (decide (j = i)) as [->|Hne].
  - rewrite nth_lookup, list_lookup_insert_eq by lia. unfold default, id. cbn [from_option].
    fold (word512 w (i - 16)) (word512 w (i - 15)) (word512 w (i - 7)) (word512 w (i - 2)).
    rewrite !Hw by lia. rewrite (word_of_recurrence block i) by lia. unfold wrapping_add64.
    rewrite Zplus_mod_idemp_l, <- Z.add_assoc, Zplus_mod_idemp_l. f_equal. lia.
  - assert (nth j (<[i := _]> w) 0 = nth j w 0) as ->; [|by apply Hw; lia].
    rewrite !nth_lookup. by rewrite list_lookup_insert_ne.
Qed.

Lemma extends_hold block w k :
  (k <= 64)%nat -> holds_words block w 16 -> holds_words block (fold_left extend512 (seq 16 k) w) (16 + k).
Proof.
  intros Hk Hw. induction k as [|k IH]; [done|]. rewrite seq_S, fold_left_app. cbn [fold_left].
  replace (16 + S k)%nat with (S (16 + k)) by lia. apply extend_holds; [lia|]. apply IH. lia.
Qed.

Lemma chunks_fuel_nth {A} fuel n (l : list A) i :
  (0 < n)%nat -> (length l <= fuel)%nat -> (n * S i <= length l)%nat ->
  chunks_fuel fuel n l !! i = Some (firstn n (skipn (n * i) l)).
Proof.
  intros Hn. revert l i. induction fuel as [|fuel IH]; intros l i Hl Hi; [lia|]. cbn [chunks_fuel].
  rewrite (proj2 (Nat.leb_le n (length l))) by lia. destruct i as [|i].
  - rewrite Nat.mul_0_r. done.
  - cbn [lookup list_lookup]. rewrite IH by (rewrite length_skipn; lia). rewrite skipn_skipn. do 3 f_equal. lia.
Qed.

Lemma chunks_fuel_length {A} fuel n (l : list A) k :
  (0 < n)%nat -> (length l <= fuel)%nat -> length l = (n * k)%nat -> length (chunks_fuel fuel n l) = k.
Proof.
  intros Hn. revert l k. induction fuel as [|fuel IH]; intros l k Hf Hl; cbn [chunks_fuel].
  - destruct k; [done|nia].
  - destruct k as [|k].
    + rewrite (proj2 (Nat.leb_gt n (length l))) by lia. done.
    + rewrite (proj2 (Nat.leb_le n (length l))) by nia. cbn [length]. f_equal. apply IH; rewrite length_skipn; nia.
Qed.

Lemma first_words block :
  length block = 128%nat -> holds_words block (map be_value (chunks_exact 8 block) ++ replicate 64 0) 16.
Proof.
  intros Hl. assert (length (chunks_exact 8 block) = 16%nat) as Hc by (apply chunks_fuel_length; lia).
  split; [by rewrite length_app, length_map, length_replicate, Hc|]. intros j Hj. unfold word512, word_of.
  cbn [schedule_word]. rewrite (proj2 (Nat.ltb_lt j 16)) by done.
  apply nth_lookup_Some. rewrite lookup_app_l by (rewrite length_map; lia).
  rewrite list_lookup_fmap. unfold chunks_exact. by rewrite chunks_fuel_nth by lia.
Qed.

Lemma schedule_words block t :
  length block = 128%nat -> (t < 80)%nat -> word512 (schedule512 block) t = word_of block t.
Proof. intros Hl Ht. by apply (extends_hold block _ 64 ltac:(lia) (first_words block Hl)). Qed.
End ScheduleFacts.
Import ScheduleFacts.

Lemma padded_length_spec n :
  0 <= n -> padded_length n = if n + 144 <=? u64_max then Some ((n + 144) / 128 * 128) else None.
Proof.
  intros Hn. unfold padded_length, checked_add.
  destruct (Z.leb_spec (n + 1) u64_max); cbn [mbind option_bind]; [|by rewrite (proj2 (Z.leb_gt _ _)) by lia].
  destruct (Z.leb_spec (n + 1 + 16) u64_max); cbn [mbind option_bind]; [|by rewrite (proj2 (Z.leb_gt _ _)) by lia].
  replace (n + 1 + 16 + 127) with (n + 144) by lia. by destruct (n + 144 <=? u64_max).
Qed.

(** The padding is that of the standard. *)
Lemma padded_fips bytes n :
  padded_length (len bytes) = Some n -> padded512 bytes n = Fips.pad bytes.
Proof.
  pose proof (len_nonneg bytes) as Hn. rewrite padded_length_spec by done. destruct (_ <=? u64_max); [|done].
  intros [= <-]. unfold padded512, resize_zero, Fips.pad, Fips.zeros.
  change (byte_of_Z 128) with x80. rewrite (Z.mul_comm (len bytes)). set (m := (len bytes + 144) / 128 * 128 - 16).
  assert (length (bytes ++ [x80]) <= Z.to_nat m)%nat as Hle.
  { rewrite length_app. cbn [length]. unfold m, len in *. zmod. }
  rewrite firstn_all2 by done. rewrite <- !app_assoc. do 3 f_equal. f_equal.
  rewrite length_app. cbn [length]. unfold m, len in *. zmod.
Qed.

(** ** Properties *)

(** [sha512] is SHA-512 of FIPS 180-4: whenever the length fits and the
    allocation is granted it returns the hash of the standard's padding, 64 bytes,
    and the schedule that it fills in place satisfies the standard's recurrence;
    it fails on a message within 143 bytes of the address space, or when the
    allocation is refused, and never otherwise. *)
Theorem sha512_fips reserve bytes :
  (forall n, padded_length (len bytes) = Some n ->
     sha512 reserve bytes =
       if reserve n
       then Ok (words8_bytes512 (fold_left block512 (chunks_exact 128 (Fips.pad bytes)) initial_hash512))
       else Err "SHA-512 allocation failed"%string) /\
  (padded_length (len bytes) = None <-> u64_max < len bytes + 144) /\
  (forall block t, length block = 128%nat -> (t < 80)%nat ->
     word512 (schedule512 block) t = Fips.schedule_word (S t) block t).
Proof.
  split_and!.
  - intros n Hn. unfold sha512. rewrite Hn. cbn [ok_or res_bind]. rewrite (padded_fips bytes n Hn). by destruct (reserve n).
  - rewrite padded_length_spec by apply len_nonneg. destruct (Z.leb_spec (len bytes + 144) u64_max); split; try done; lia.
  - apply schedule_words.
Qed.

Lemma sha512_fips_witness :
  padded_length 3 = Some 128 /\
  sha512 (fun _ => true) (str_bytes "abc")
    = Ok (words8_bytes512 (fold_left block512 (chunks_exact 128 (Fips.pad (str_bytes "abc"))) initial_hash512)).
Proof. split; [reflexivity|]. apply (proj1 (sha512_fips (fun _ => true) (str_bytes "abc")) 128). reflexivity. Defined.

Example sha512_abc :
  (hex <$> (match sha512 (fun _ => true) (str_bytes "abc") with Ok d => Some d | Err _ => None end)) =
  Some ("ddaf35a193617abacc417349ae20413112e6fa4e89a97ea20a9eeee64b55d39a2192992a274fc1a836ba3c23a3feebbd454d4423643ce80e2a9ac94fa54ca49f")%string.
Proof. vm_compute. reflexivity. Qed.
