(* ===== verification/Schema.v ===== *)
(** * The recursive schema language ([protocol/src/p2_schema.rs])

    [RSpec] is the grammar of the P2 schemas and [validate_recursive] its
    interpreter.  Every check of this part of the code is in the monad [P2],
    whose errors are the code's own or a panic. *)

From S2P Require Import Prelude Cbor Sha256 Paths.

Abbreviation P2 A := (result (failure ProtocolError) A).

(** [struct RFieldSpec] and [struct VariantSpec] are pairs of name and spec. *)
Inductive RSpec : Set :=
| RIdentifier (values : option (list string))
| RText (values : option (list string)) (pattern : option string)
| RUint (minimum maximum : Z)
| RBoolean
| RDigest (semantic : string)
| RBytes (exact maximum : option Z)
| RNullable (inner : RSpec)
| ROneOf (variants : list RSpec)
| RRecord (fields : list (string * RSpec))
| RArray (item : RSpec) (minimum maximum : Z) (sorted_scalar : bool) (sort_by unique_by : list string)
| RTagged (tag : string) (variants : list (string * RSpec)).

(** [sha256_hex] of the crate, which panics where [sha256] would, and [encode_bounded]. *)
Definition p2_sha256_hex (bytes : list byte) : P2 string := ok_or (OneShot.sha256_hex bytes) Panic.
Definition p2_encode (value : Value) (limits : Limits) : P2 (list byte) := map_err Error (encode_bounded value limits).

(** [<Value as PartialEq>::eq] *)
Fixpoint value_eqb (a b : Value) {struct a} : bool :=
  match a, b with
  | Null, Null => true
  | Bool x, Bool y => eqb x y
  | Unsigned x, Unsigned y => x =? y
  | Bytes x, Bytes y => bool_decide (x = y)
  | Text x, Text y => bool_decide (x = y)
  | Array l, Array k =>
      (fix go (l k : list Value) : bool :=
         match l, k with
         | [], [] => true
         | x :: l, y :: k => value_eqb x y && go l k
         | _, _ => false
         end) l k
  | Map l, Map k =>
      (fix go (l k : list (string * Value)) : bool :=
         match l, k with
         | [], [] => true
         | (n, x) :: l, (m, y) :: k => bool_decide (n = m) && value_eqb x y && go l k
         | _, _ => false
         end) l k
  | _, _ => false
  end.

(** ** Access *)

Definition entries (value : Value) : P2 (list (string * Value)) :=
  match value with
  | Map rows => Ok rows
  | _ => Err (Error "P2 object is not a map")
  end.
Definition get (value : Value) (name : string) : P2 Value :=
  ok_or (field value name) (Error "P2 required field missing").
Definition text (value : Value) : P2 string :=
  match value with
  | Text text => Ok text
  | _ => Err (Error "P2 text malformed")
  end.
Definition digest (text : string) : P2 (list byte) := map_err Error (parse_digest text).

(** [set.contains(&text)] *)
Definition contains (set : list string) (text : string) : bool :=
  existsb (fun s => bool_decide (s = text)) set.

Definition identifier_byte (i : nat) (b : byte) : bool :=
  is_alphanumeric b || ((0 <? Z.of_nat i) && existsb (fun c => bool_decide (c = b)) (str_bytes "._:@/-")).
Definition identifier (value : Value) : P2 string :=
  let? value := text value in
  throw_if bool_decide (value = ""%string) || (128 <? slen value)
           || negb (forallb (fun ib : nat * byte => identifier_byte ib.1 ib.2)
                      (zip (seq 0 (length (str_bytes value))) (str_bytes value)))
    with Error "P2 identifier malformed" ;;
  Ok value.

(** ** Keys of array rows *)

(** [format!("{number:0width$}")]; 20 digits hold every [u64]. *)
Fixpoint decimal_digits (fuel : nat) (n : Z) (digits : list byte) : list byte :=
  match fuel with
  | O => digits
  | S fuel =>
      let digits := byte_of_Z (48 + n mod 10) :: digits in
      if n <? 10 then digits else decimal_digits fuel (n / 10) digits
  end.
Definition decimal (n : Z) : list byte := decimal_digits 20 n [].
Definition decimal_padded (width : nat) (n : Z) : list byte :=
  repeat x30 (width - length (decimal n)) ++ decimal n.

(** One turn of [for key in keys]. *)
Definition key_part (value : Value) (out : list byte) (key : string) : P2 (list byte) :=
  let? v := get value key in
  match v with
  | Text text => Ok (out ++ str_bytes text ++ [x00])
  | Unsigned number => Ok (out ++ decimal_padded 20 number ++ [x00])
  | _ => Err (Error "P2 array key is not scalar")
  end.
Definition recursive_key (value : Value) (keys : list string) : P2 string :=
  let? out := res_fold (key_part value) keys [] in
  Ok (str_of_bytes out).

(** ** Text patterns *)

Definition IDENTIFIER_PATTERN : string := "^[A-Za-z0-9][A-Za-z0-9._+@-]{0,4095}$".
Definition URI_PATTERN : string := "^(?:keep-artifact:|keep-source:|oci:)[A-Za-z0-9._:/+@-]+$".
Definition ABSOLUTE_PATTERN : string :=
  "^(?!.*(?:^|\/)\.\.?(?:\/|$))\/(?:[A-Za-z0-9._+-]+(?:\/[A-Za-z0-9._+-]+)*)?$".
Definition RELATIVE_PATTERN : string :=
  "^(?!\/)(?!.*(?:^|\/)\.\.?(?:\/|$))(?!.*\/\/)[A-Za-z0-9._+-]+(?:\/[A-Za-z0-9._+-]+)*$".

(** [b.is_ascii_alphanumeric() || set.contains(&b)] *)
Definition byte_among (set : string) (b : byte) : bool :=
  is_alphanumeric b || existsb (fun c => bool_decide (c = b)) (str_bytes set).

Definition canonical_absolute (path : string) : bool :=
  starts_with "/" path && (slen path <=? 4096) && negb (contains_double_slash path)
  && match strip_prefix "/" path with
     | Some tail =>
         bool_decide (tail = ""%string)
         || forallb (fun part : string => negb (bool_decide (part = ""%string))
                       && negb (bool_decide (part = "."%string) || bool_decide (part = ".."%string)))
              (split x2f tail)
     | None => false
     end
  && forallb (fun b => bool_decide (b = x2f) || byte_among "._@-" b) (str_bytes path).

Definition uri_tail (text prefix : string) : bool :=
  match strip_prefix prefix text with
  | Some tail => negb (bool_decide (tail = ""%string)) && forallb (byte_among "._:/+@-") (str_bytes tail)
  | None => false
  end.

Definition validate_text_pattern (text pattern : string) : bool :=
  if bool_decide (pattern = IDENTIFIER_PATTERN) then
    negb (bool_decide (text = ""%string)) && (slen text <=? 4096) && forallb (byte_among "._+@-") (str_bytes text)
  else if bool_decide (pattern = URI_PATTERN) then
    existsb (uri_tail text) ["keep-artifact:"; "keep-source:"; "oci:"]%string
  else if bool_decide (pattern = ABSOLUTE_PATTERN) then canonical_absolute text
  else if bool_decide (pattern = RELATIVE_PATTERN) then canonical_relative text
  else false.

(** ** The interpreter *)

(** [option.is_some_and(f)] *)
Definition is_some_and {A : Type} (o : option A) (f : A -> bool) : bool :=
  match o with Some a => f a | None => false end.

Section iteration.
Context {E A B : Type}.
(** [for a in l { f(a)?; }] *)
Fixpoint for_each (f : A -> result E unit) (l : list A) : result E unit :=
  match l with
  | [] => Ok tt
  | a :: l => let? _ := f a in for_each f l
  end.
(** [l.iter().find_map(f)] *)
Fixpoint find_map (f : A -> option B) (l : list A) : option B :=
  match l with
  | [] => None
  | a :: l => match f a with Some b => Some b | None => find_map f l end
  end.
End iteration.

(** The loop state of an array: [previous] and [seen]. *)
Abbreviation Order := (option string * gset string)%type.

(** The order checks on one item. *)
Definition check_order (sorted_scalar : bool) (sort_by unique_by : list string) (st : Order) (child : Value) : P2 Order :=
  let '(previous, seen) := st in
  if sorted_scalar then
    let? key := text child in
    throw_if is_some_and previous (fun p => negb (str_ltb p key)) with Error "P2 scalar array not sorted unique" ;;
    Ok (Some key, seen)
  else if negb (bool_decide (sort_by = [])) || negb (bool_decide (unique_by = [])) then
    let? order :=
      if bool_decide (sort_by = []) then Ok None
      else let? key := recursive_key child sort_by in Ok (Some key) in
    let? identity := recursive_key child (if bool_decide (unique_by = []) then sort_by else unique_by) in
    throw_if is_some_and order (fun key => is_some_and previous (fun p => negb (str_ltb p key)))
             || bool_decide (identity ∈ seen)
      with Error "P2 record array order/uniqueness violated" ;;
    Ok (order, {[identity]} ∪ seen)
  else Ok st.

Fixpoint validate_recursive (value : Value) (spec : RSpec) {struct spec} : P2 unit :=
  match spec with
  | RIdentifier values =>
      let? text := identifier value in
      throw_if is_some_and values (fun set => negb (contains set text))
        with Error "P2 identifier outside enum" ;;
      Ok tt
  | RText values pattern =>
      match value with
      | Text text =>
          throw_if (4096 <? slen text) || negb (native_text text)
                   || is_some_and values (fun set => negb (contains set text))
                   || is_some_and pattern (fun p => negb (validate_text_pattern text p))
            with Error "P2 bounded text malformed" ;;
          Ok tt
      | _ => Err (Error "P2 text malformed")
      end
  | RUint minimum maximum =>
      throw_if negb match value with
                    | Unsigned v => (minimum <=? v) && (v <=? maximum)
                    | _ => false
                    end
        with Error "P2 uint64 bound violated" ;;
      Ok tt
  | RBoolean =>
      throw_if negb match value with Bool _ => true | _ => false end with Error "P2 boolean malformed" ;;
      Ok tt
  | RDigest _ =>
      let? text := text value in
      let? _ := digest text in
      Ok tt
  | RBytes exact maximum =>
      match value with
      | Bytes bytes =>
          throw_if is_some_and exact (fun n => negb (len bytes =? n))
                   || (default (1024 * 1024) maximum <? len bytes)
            with Error "P2 byte-string bound violated" ;;
          Ok tt
      | _ => Err (Error "P2 bytes malformed")
      end
  | RNullable inner =>
      match value with
      | Null => Ok tt
      | _ => validate_recursive value inner
      end
  | ROneOf variants =>
      throw_if negb (existsb (fun variant => is_ok (validate_recursive value variant)) variants)
        with Error "P2 value matches no variant" ;;
      Ok tt
  | RRecord fields =>
      let? rows := entries value in
      throw_if negb (len rows =? len fields) with Error "P2 record fields not exact" ;;
      for_each (fun child : string * RSpec =>
                  let? v := get value child.1 in validate_recursive v child.2) fields
  | RArray item minimum maximum sorted_scalar sort_by unique_by =>
      match value with
      | Array items =>
          throw_if (len items <? minimum) || (maximum <? len items) with Error "P2 collection bound violated" ;;
          let? _ :=
            res_fold (fun (st : Order) child =>
                        let? _ := validate_recursive child item in
                        check_order sorted_scalar sort_by unique_by st child)
              items (None, ∅) in
          Ok tt
      | _ => Err (Error "P2 array malformed")
      end
  | RTagged tag variants =>
      let? v := get value tag in
      let? discriminator := text v in
      match find_map (fun variant : string * RSpec =>
                        if bool_decide (variant.1 = discriminator)
                        then Some (validate_recursive value variant.2) else None) variants with
      | Some r => r
      | None => Err (Error "P2 tagged variant unknown")
      end
  end.
