(* ===== verification/Numbers.v ===== *)
(** * Text of numbers, and trimming

    The decimal text of an integer, as [format!] writes it, [str::parse::<u64>] and
    [str::trim]. *)

From S2P Require Import Prelude Cbor Paths Schema.

(** [str::parse::<u64>]: an optional plus sign and at least one digit, in range. *)
Definition digit_value (b : byte) : option Z :=
  let d := bZ b - 48 in if (0 <=? d) && (d <=? 9) then Some d else None.
Definition parse_digit (acc : option Z) (b : byte) : option Z :=
  n ← acc; d ← digit_value b; if n * 10 + d <=? u64_max then Some (n * 10 + d) else None.
Definition parse_u64 (s : string) : option Z :=
  let digits := match str_bytes s with x2b :: rest => rest | bytes => bytes end in
  if bool_decide (digits = []) then None else fold_left parse_digit digits (Some 0).
(** The encodings of the characters with the property White_Space. *)
Definition WHITESPACE : list (list byte) :=
  map (fun b => [b]) [x09; x0a; x0b; x0c; x0d; x20]
  ++ [[xc2; x85]; [xc2; xa0]; [xe1; x9a; x80]; [xe2; x80; xa8]; [xe2; x80; xa9]; [xe2; x80; xaf]; [xe2; x81; x9f]; [xe3; x80; x80]]
  ++ map (fun b => [xe2; x80; b]) [x80; x81; x82; x83; x84; x85; x86; x87; x88; x89; x8a].
Definition strip_one (spaces : list (list byte)) (bs : list byte) : option (list byte) :=
  fold_left (fun found space => match found with Some _ => found | None => strip_prefix_bytes space bs end) spaces None.
(** Every turn removes a byte. *)
Fixpoint strip_spaces (fuel : nat) (spaces : list (list byte)) (bs : list byte) : list byte :=
  match fuel with
  | O => bs
  | S fuel => match strip_one spaces bs with Some rest => strip_spaces fuel spaces rest | None => bs end
  end.
(** [str::trim] *)
Definition trim (s : string) : string :=
  let bs := str_bytes s in
  let bs := strip_spaces (length bs) WHITESPACE bs in
  str_of_bytes (reverse (strip_spaces (length bs) (map reverse WHITESPACE) (reverse bs))).

(** ** Facts *)

Definition digit_range (b : byte) : Prop := 48 <= bZ b <= 57.

Lemma digit_byte n : 0 <= n < 10 -> bZ (byte_of_Z (48 + n)) = 48 + n.
Proof. intros Hn. rewrite bZ_byte_of. apply Z.mod_small. lia. Qed.

Lemma decimal_digits_app fuel n acc : decimal_digits fuel n acc = decimal_digits fuel n [] ++ acc.
Proof.
  revert n acc. induction fuel as [|fuel IH]; intros n acc; cbn [decimal_digits]; [done|].
  destruct (n <? 10); [done|]. rewrite IH, (IH _ [_]). by rewrite <- app_assoc.
Qed.

Lemma decimal_digits_are fuel n : Forall digit_range (decimal_digits fuel n []).
Proof.
  revert n. induction fuel as [|fuel IH]; intros n; cbn [decimal_digits]; [constructor|].
  assert (digit_range (byte_of_Z (48 + n mod 10))).
  { unfold digit_range. pose proof (Z.mod_pos_bound n 10 eq_refl). rewrite digit_byte by done. lia. }
  destruct (n <? 10); [by constructor|]. rewrite decimal_digits_app. apply Forall_app. split; [apply IH|by constructor].
Qed.
Lemma decimal_are n : 0 <= n -> Forall digit_range (decimal n). Proof. intros _. apply decimal_digits_are. Qed.

Lemma parse_digit_ok a n : 0 <= n < 10 -> a * 10 + n <= u64_max ->
  parse_digit (Some a) (byte_of_Z (48 + n)) = Some (a * 10 + n).
Proof.
  intros Hn Ha. unfold parse_digit, digit_value. cbn [mbind option_bind]. rewrite digit_byte by done.
  replace (48 + n - 48) with n by lia. rewrite (proj2 (Z.leb_le 0 n)), (proj2 (Z.leb_le n 9)) by lia. cbn [andb].
  cbn [mbind option_bind]. by rewrite (proj2 (Z.leb_le _ _)).
Qed.

Lemma parse_digits fuel n :
  (0 < fuel)%nat -> 0 <= n <= u64_max -> n < 10 ^ Z.of_nat fuel ->
  fold_left parse_digit (decimal_digits fuel n []) (Some 0) = Some n.
Proof.
  revert n. induction fuel as [|fuel IH]; intros n Hf Hn Hp; [lia|]. cbn [decimal_digits].
  destruct (Z.ltb_spec n 10).
  - rewrite Z.mod_small by lia. cbn [fold_left]. rewrite parse_digit_ok by lia. f_equal.
  - rewrite decimal_digits_app, fold_left_app. rewrite Nat2Z.inj_succ, Z.pow_succ_r in Hp by lia.
    destruct fuel as [|fuel]; [change (10 ^ Z.of_nat 0) with 1 in Hp; lia|].
    rewrite IH; [|lia|split; zmod|apply Z.div_lt_upper_bound; lia]. cbn [fold_left].
    pose proof (Z.mod_pos_bound n 10 eq_refl). pose proof (Z.div_mod n 10 ltac:(lia)).
    rewrite parse_digit_ok by lia. f_equal. lia.
Qed.

Lemma digits_not_nil fuel n : decimal_digits (S fuel) n [] <> [].
Proof.
  cbn [decimal_digits]. destruct (n <? 10); [done|]. rewrite decimal_digits_app. by intros [_ E]%app_eq_nil.
Qed.
Lemma decimal_digits_length fuel w n :
  (w <= fuel)%nat -> 0 <= n < 10 ^ Z.of_nat w -> (0 < w)%nat -> (length (decimal_digits fuel n []) <= w)%nat.
Proof.
  revert w n. induction fuel as [|fuel IH]; intros w n Hw Hn H0; cbn [decimal_digits]; [cbn; lia|].
  destruct (Z.ltb_spec n 10); [cbn; lia|]. rewrite decimal_digits_app, length_app. cbn [length].
  destruct w as [|[|w]]; [lia|change (10 ^ Z.of_nat 1) with 10 in Hn; lia|].
  assert (length (decimal_digits fuel (n / 10) []) <= S w)%nat; [|lia]. apply IH; [lia| |lia].
  rewrite (Nat2Z.inj_succ (S w)), Z.pow_succ_r in Hn by lia. split; [zmod|]. apply Z.div_lt_upper_bound; lia.
Qed.

Lemma decimal_length w n : (0 < w <= 20)%nat -> 0 <= n < 10 ^ Z.of_nat w -> (length (decimal n) <= w)%nat.
Proof. intros Hw Hn. apply decimal_digits_length; [lia|done|lia]. Qed.
Lemma decimal_digits_head fuel n : 0 < n < 10 ^ Z.of_nat fuel ->
  exists b bs, decimal_digits fuel n [] = b :: bs /\ b <> x30.
Proof.
  revert n. induction fuel as [|fuel IH]; intros n Hn; [change (10 ^ Z.of_nat 0) with 1 in Hn; lia|]. cbn [decimal_digits].
  destruct (Z.ltb_spec n 10) as [H|H].
  - exists (byte_of_Z (48 + n mod 10)), []. split; [done|]. intros E. apply (f_equal bZ) in E.
    rewrite Z.mod_small, digit_byte in E by lia. change (bZ x30) with 48 in E. lia.
  - rewrite Nat2Z.inj_succ, Z.pow_succ_r in Hn by lia. destruct (IH (n / 10)) as (b & bs & E & Hb).
    { split; [zmod|apply Z.div_lt_upper_bound; lia]. }
    rewrite decimal_digits_app, E. by exists b, (bs ++ [byte_of_Z (48 + n mod 10)]).
Qed.
Lemma decimal_cons n : 0 <= n -> exists b bs, decimal n = b :: bs /\ digit_range b.
Proof.
  intros Hn. pose proof (decimal_are n Hn) as H. pose proof (digits_not_nil 19 n) as Hne. fold (decimal n) in Hne.
  destruct (decimal n) as [|b bs]; [done|]. apply Forall_cons in H as [H _]. eauto.
Qed.

Lemma parse_decimal n : 0 <= n <= u64_max -> parse_u64 (str_of_bytes (decimal n)) = Some n.
Proof.
  intros Hn. unfold parse_u64. rewrite str_bytes_of_bytes. destruct (decimal_cons n) as (b & bs & E & Hb); [lia|].
  assert (match decimal n with x2b :: rest => rest | bytes => bytes end = decimal n) as ->.
  { rewrite E. destruct b; try done. by unfold digit_range in Hb; cbn in Hb; lia. }
  rewrite bool_decide_false by (by rewrite E). apply parse_digits; [lia|done|]. unfold u64_max in Hn. lia.
Qed.

Lemma parse_range s n : parse_u64 s = Some n -> 0 <= n <= u64_max.
Proof.
  unfold parse_u64. case_bool_decide; [done|]. clear.
  set (bs := match str_bytes s with x2b :: rest => rest | bytes => bytes end). clearbody bs.
  assert (forall a, (forall k, a = Some k -> 0 <= k <= u64_max) ->
    fold_left parse_digit bs a = Some n -> 0 <= n <= u64_max) as H; [|apply H; by intros k [= <-]].
  induction bs as [|b bs IH]; intros a Ha; cbn [fold_left]; [by apply Ha|]. apply IH. intros k Hk.
  unfold parse_digit in Hk. apply bind_Some in Hk as (m & Hm & Hk). apply bind_Some in Hk as (d & Hd & Hk).
  apply Ha in Hm. unfold digit_value in Hd. destruct (_ && _) eqn:E in Hd; [|done]. injection Hd as <-.
  bool_to_prop. destruct (Z.leb_spec (m * 10 + (bZ b - 48)) u64_max); [|done]. injection Hk as <-. lia.
Qed.


(** A text of digits without a leading zero is the decimal text of its value. *)
Definition no_leading_zero (bs : list byte) : Prop := forall bs', bs = x30 :: bs' -> bs' = [].

Lemma digit_value_range b : digit_range b -> digit_value b = Some (bZ b - 48).
Proof.
  unfold digit_range, digit_value. intros Hb. by rewrite (proj2 (Z.leb_le _ _)), (proj2 (Z.leb_le _ _)) by lia.
Qed.
Lemma digits_value bs fuel n :
  Forall digit_range bs -> no_leading_zero bs -> bs <> [] -> (length bs <= fuel)%nat ->
  fold_left parse_digit bs (Some 0) = Some n ->
  decimal_digits fuel n [] = bs /\ (bs <> [x30] -> 10 ^ (len bs - 1) <= n).
Proof.
  revert fuel n. induction bs as [|b bs IH] using rev_ind; intros fuel n Hr Hz Hne Hf H; [done|].
  apply Forall_app in Hr as [Hr [Hb _]%Forall_cons]. rewrite length_app in Hf. cbn [length] in Hf.
  rewrite fold_left_app in H. cbn [fold_left] in H. unfold parse_digit in H at 1. apply bind_Some in H as (m & Hm & H).
  rewrite digit_value_range in H by done. cbn [mbind option_bind] in H.
  destruct (_ <=? _) in H; [|done]. injection H as <-. unfold digit_range in Hb.
  destruct fuel as [|fuel]; [lia|]. cbn [decimal_digits]. destruct (decide (bs = [])) as [->|Hbs].
  - injection Hm as <-. change (0 * 10) with 0. rewrite (proj2 (Z.ltb_lt _ _)), Z.mod_small by lia.
    replace (48 + (0 + (bZ b - 48))) with (bZ b) by lia. rewrite byte_of_bZ. split; [done|]. intros Hx. change (10 ^ (len ([] ++ [b]) - 1)) with 1.
    destruct (decide (bZ b = 48)) as [E|]; [|lia]. destruct Hx. cbn. f_equal. by apply bZ_inj.
  - assert (bs <> [x30]) as Hnz.
    { intros ->. specialize (Hz [b] eq_refl). done. }
    destruct (IH fuel m) as [E Hlow]; [done| |done|lia|done|].
    { intros bs' ->. specialize (Hz (bs' ++ [b]) eq_refl). by destruct bs'. }
    specialize (Hlow Hnz). assert (1 <= m).
    { destruct bs; [done|]. rewrite len_cons in Hlow. pose proof (len_nonneg bs).
      pose proof (Z.pow_pos_nonneg 10 (1 + len bs - 1) ltac:(lia) ltac:(lia)). lia. }
    rewrite (proj2 (Z.ltb_ge _ _)) by lia.
    replace ((m * 10 + (bZ b - 48)) / 10) with m by (rewrite Z.div_add_l, Z.div_small by lia; lia).
    replace ((m * 10 + (bZ b - 48)) mod 10) with (bZ b - 48) by (rewrite Z.add_comm, Z.mod_add, Z.mod_small by lia; lia).
    rewrite decimal_digits_app, E. replace (48 + (bZ b - 48)) with (bZ b) by lia. rewrite byte_of_bZ. split; [done|]. intros _.
    rewrite len_app. change (len [b]) with 1. replace (len bs + 1 - 1) with (Z.succ (len bs - 1)) by lia.
    destruct bs; [done|]. rewrite len_cons in *. pose proof (len_nonneg bs). rewrite Z.pow_succ_r by lia. lia.
Qed.

Lemma parse_canonical s n :
  Forall digit_range (str_bytes s) -> no_leading_zero (str_bytes s) -> parse_u64 s = Some n ->
  s = str_of_bytes (decimal n).
Proof.
  intros Hr Hz H. pose proof (parse_range _ _ H) as Hn. unfold parse_u64 in H.
  assert (match str_bytes s with x2b :: rest => rest | bytes => bytes end = str_bytes s) as E.
  { destruct (str_bytes s) as [|b bs]; [done|]. apply Forall_cons in Hr as [Hb _]. unfold digit_range in Hb.
    destruct b; try done; cbn in Hb; lia. }
  rewrite E in H. case_bool_decide as Hne; [done|].
  destruct (digits_value _ (length (str_bytes s)) _ Hr Hz Hne (Nat.le_refl _) H) as [_ Hlow].
  assert (length (str_bytes s) <= 20)%nat as Hl.
  { destruct (decide (str_bytes s = [x30])) as [->|Hx]; [cbn; lia|]. specialize (Hlow Hx).
    destruct (Nat.le_gt_cases (length (str_bytes s)) 20) as [|Hgt]; [done|].
    assert (10 ^ 20 <= 10 ^ (len (str_bytes s) - 1)) by (apply Z.pow_le_mono_r; unfold len; lia).
    unfold u64_max in Hn. change (10 ^ 20) with 100000000000000000000 in *. lia. }
  destruct (digits_value _ 20 _ Hr Hz Hne Hl H) as [Ed _]. unfold decimal. by rewrite Ed, str_of_str_bytes.
Qed.
Lemma digit_rangeP b : Prelude.is_digit b = true <-> digit_range b.
Proof. unfold Prelude.is_digit, digit_range. rewrite andb_true_iff, !Z.leb_le. lia. Qed.

Lemma decimal_no_leading_zero n : 0 <= n <= u64_max -> no_leading_zero (decimal n).
Proof.
  intros Hn bs E. destruct (decide (n = 0)) as [->|Hz]; [by injection E|].
  destruct (decimal_digits_head 20 n) as (b & bs' & E' & Hb); [unfold u64_max in Hn; lia|].
  unfold decimal in E. rewrite E' in E. by injection E as -> _.
Qed.
