(* ===== verification/P2Specs.v ===== *)
(** * The schema tables ([protocol/src/p2_schema.rs], [protocol/src/p2_schema_specs.rs])

    The recursive spec of every P2 document, the field list of every payload and
    the registries [P2_SCHEMAS] and [B3_OPERATION_SCHEMAS]. *)

From S2P Require Import Prelude Cbor Schema.
#[local] Open Scope string_scope.

(** ** The recursive specs *)

Definition B3_CAS_OPERATION_V1_SPEC : RSpec :=
  RRecord [
    ("schema", RIdentifier (Some ["keep.native-b3-operation"]));
    ("version", RUint 1 1);
    ("operationKind", RIdentifier (Some ["compare-and-advance"]));
    ("scopeKey", RRecord [
        ("authorityId", RIdentifier None);
        ("namespace", RIdentifier None);
        ("scope", RIdentifier None);
        ("genesisRootDigest", RDigest "GenesisRootEnvelopeDigest")]);
    ("expectedStateDigest", RDigest "B3StateDigest");
    ("newStateDigest", RDigest "B3StateDigest");
    ("callerPurpose", RTagged "purpose" [
        ("root-update", RRecord [
            ("purpose", RIdentifier (Some ["root-update"]));
            ("authorization", RTagged "kind" [
                ("root-update", RRecord [
                    ("kind", RIdentifier (Some ["root-update"]));
                    ("authorizationEnvelopeDigest", RDigest "RootEnvelopeDigest")]);
                ("revocation", RRecord [
                    ("kind", RIdentifier (Some ["revocation"]));
                    ("authorizationEnvelopeDigest", RDigest "RevocationEnvelopeDigest")]);
                ("rollback", RRecord [
                    ("kind", RIdentifier (Some ["rollback"]));
                    ("authorizationEnvelopeDigest", RDigest "RollbackAuthorizationEnvelopeDigest")]);
                ("recovery", RRecord [
                    ("kind", RIdentifier (Some ["recovery"]));
                    ("authorizationEnvelopeDigest", RDigest "RevocationRecoveryEnvelopeDigest")]);
                ("deployment", RRecord [
                    ("kind", RIdentifier (Some ["deployment"]));
                    ("authorizationEnvelopeDigest", RDigest "DeploymentEnvelopeDigest")])])]);
        ("revocation-advance", RRecord [
            ("purpose", RIdentifier (Some ["revocation-advance"]));
            ("authorization", RTagged "kind" [
                ("root-update", RRecord [
                    ("kind", RIdentifier (Some ["root-update"]));
                    ("authorizationEnvelopeDigest", RDigest "RootEnvelopeDigest")]);
                ("revocation", RRecord [
                    ("kind", RIdentifier (Some ["revocation"]));
                    ("authorizationEnvelopeDigest", RDigest "RevocationEnvelopeDigest")]);
                ("rollback", RRecord [
                    ("kind", RIdentifier (Some ["rollback"]));
                    ("authorizationEnvelopeDigest", RDigest "RollbackAuthorizationEnvelopeDigest")]);
                ("recovery", RRecord [
                    ("kind", RIdentifier (Some ["recovery"]));
                    ("authorizationEnvelopeDigest", RDigest "RevocationRecoveryEnvelopeDigest")]);
                ("deployment", RRecord [
                    ("kind", RIdentifier (Some ["deployment"]));
                    ("authorizationEnvelopeDigest", RDigest "DeploymentEnvelopeDigest")])])]);
        ("rollback", RRecord [
            ("purpose", RIdentifier (Some ["rollback"]));
            ("authorization", RTagged "kind" [
                ("root-update", RRecord [
                    ("kind", RIdentifier (Some ["root-update"]));
                    ("authorizationEnvelopeDigest", RDigest "RootEnvelopeDigest")]);
                ("revocation", RRecord [
                    ("kind", RIdentifier (Some ["revocation"]));
                    ("authorizationEnvelopeDigest", RDigest "RevocationEnvelopeDigest")]);
                ("rollback", RRecord [
                    ("kind", RIdentifier (Some ["rollback"]));
                    ("authorizationEnvelopeDigest", RDigest "RollbackAuthorizationEnvelopeDigest")]);
                ("recovery", RRecord [
                    ("kind", RIdentifier (Some ["recovery"]));
                    ("authorizationEnvelopeDigest", RDigest "RevocationRecoveryEnvelopeDigest")]);
                ("deployment", RRecord [
                    ("kind", RIdentifier (Some ["deployment"]));
                    ("authorizationEnvelopeDigest", RDigest "DeploymentEnvelopeDigest")])])]);
        ("recovery", RRecord [
            ("purpose", RIdentifier (Some ["recovery"]));
            ("authorization", RTagged "kind" [
                ("root-update", RRecord [
                    ("kind", RIdentifier (Some ["root-update"]));
                    ("authorizationEnvelopeDigest", RDigest "RootEnvelopeDigest")]);
                ("revocation", RRecord [
                    ("kind", RIdentifier (Some ["revocation"]));
                    ("authorizationEnvelopeDigest", RDigest "RevocationEnvelopeDigest")]);
                ("rollback", RRecord [
                    ("kind", RIdentifier (Some ["rollback"]));
                    ("authorizationEnvelopeDigest", RDigest "RollbackAuthorizationEnvelopeDigest")]);
                ("recovery", RRecord [
                    ("kind", RIdentifier (Some ["recovery"]));
                    ("authorizationEnvelopeDigest", RDigest "RevocationRecoveryEnvelopeDigest")]);
                ("deployment", RRecord [
                    ("kind", RIdentifier (Some ["deployment"]));
                    ("authorizationEnvelopeDigest", RDigest "DeploymentEnvelopeDigest")])])]);
        ("deployment-advance", RRecord [
            ("purpose", RIdentifier (Some ["deployment-advance"]));
            ("authorization", RTagged "kind" [
                ("root-update", RRecord [
                    ("kind", RIdentifier (Some ["root-update"]));
                    ("authorizationEnvelopeDigest", RDigest "RootEnvelopeDigest")]);
                ("revocation", RRecord [
                    ("kind", RIdentifier (Some ["revocation"]));
                    ("authorizationEnvelopeDigest", RDigest "RevocationEnvelopeDigest")]);
                ("rollback", RRecord [
                    ("kind", RIdentifier (Some ["rollback"]));
                    ("authorizationEnvelopeDigest", RDigest "RollbackAuthorizationEnvelopeDigest")]);
                ("recovery", RRecord [
                    ("kind", RIdentifier (Some ["recovery"]));
                    ("authorizationEnvelopeDigest", RDigest "RevocationRecoveryEnvelopeDigest")]);
                ("deployment", RRecord [
                    ("kind", RIdentifier (Some ["deployment"]));
                    ("authorizationEnvelopeDigest", RDigest "DeploymentEnvelopeDigest")])])])]);
    ("requestNonce", RBytes (Some 32) None)].

Definition B3_GENESIS_OPERATION_V1_SPEC : RSpec :=
  RRecord [
    ("schema", RIdentifier (Some ["keep.native-b3-operation"]));
    ("version", RUint 1 1);
    ("operationKind", RIdentifier (Some ["genesis"]));
    ("genesisBaseDigest", RDigest "GenesisBaseDigest");
    ("b0RootEnvelopeDigest", RDigest "RootEnvelopeDigest");
    ("b3ProfileEnvelopeDigest", RDigest "B3ProfileEnvelopeDigest");
    ("derivedGenesisStateDigest", RDigest "B3StateDigest");
    ("requestNonce", RBytes (Some 32) None)].

Definition B3_INVALIDATION_ACK_V1_SPEC : RSpec :=
  RRecord [
    ("schema", RIdentifier (Some ["keep.native-b3-invalidation-ack"]));
    ("version", RUint 1 1);
    ("sessionId", RIdentifier None);
    ("sequence", RUint 1 u64_max);
    ("frameEnvelopeDigest", RDigest "B3InvalidationFrameEnvelopeDigest");
    ("requestNonce", RBytes (Some 32) None)].

Definition B3_INVALIDATION_FRAME_V1_SPEC : RSpec :=
  RRecord [
    ("payload", RRecord [
        ("schema", RIdentifier (Some ["keep.native-b3-invalidation"]));
        ("version", RUint 1 1);
        ("authorityId", RIdentifier None);
        ("b3ProfileEnvelopeDigest", RDigest "B3ProfileEnvelopeDigest");
        ("scopeKey", RRecord [
            ("authorityId", RIdentifier None);
            ("namespace", RIdentifier None);
            ("scope", RIdentifier None);
            ("genesisRootDigest", RDigest "GenesisRootEnvelopeDigest")]);
        ("sessionId", RIdentifier None);
        ("frameKind", RIdentifier (Some ["heartbeat"; "invalidated"]));
        ("sequence", RUint 1 u64_max);
        ("priorGeneration", RUint 0 u64_max);
        ("newGeneration", RUint 0 u64_max);
        ("newStateDigest", RDigest "B3StateDigest");
        ("counter", RUint 0 u64_max);
        ("requestNonce", RBytes (Some 32) None);
        ("priorAckDigest", RNullable (RDigest "B3InvalidationAckDigest"))]);
    ("payloadDigest", RDigest "PayloadDigest");
    ("signatures", RArray (
        RRecord [
          ("keyId", RIdentifier None);
          ("algorithm", RIdentifier (Some ["ed25519"]));
          ("keyEpoch", RUint 0 u64_max);
          ("signature", RBytes (Some 64) None)])
        1 64 false ["keyId"] ["keyId"])].

Definition B3_LEASE_OPERATION_V1_SPEC : RSpec :=
  RRecord [
    ("schema", RIdentifier (Some ["keep.native-b3-operation"]));
    ("version", RUint 1 1);
    ("operationKind", RIdentifier (Some ["validate-lease"]));
    ("scopeKey", RRecord [
        ("authorityId", RIdentifier None);
        ("namespace", RIdentifier None);
        ("scope", RIdentifier None);
        ("genesisRootDigest", RDigest "GenesisRootEnvelopeDigest")]);
    ("generation", RUint 0 u64_max);
    ("headEnvelopeDigest", RDigest "RevocationEnvelopeDigest");
    ("b3CounterCeiling", RUint 0 u64_max);
    ("requestNonce", RBytes (Some 32) None)].

Definition B3_READ_OPERATION_V1_SPEC : RSpec :=
  RRecord [
    ("schema", RIdentifier (Some ["keep.native-b3-operation"]));
    ("version", RUint 1 1);
    ("operationKind", RIdentifier (Some ["read"]));
    ("scopeKey", RRecord [
        ("authorityId", RIdentifier None);
        ("namespace", RIdentifier None);
        ("scope", RIdentifier None);
        ("genesisRootDigest", RDigest "GenesisRootEnvelopeDigest")]);
    ("requestNonce", RBytes (Some 32) None)].

Definition B3_RECEIPT_V1_SPEC : RSpec :=
  RRecord [
    ("payload", RRecord [
        ("schema", RIdentifier (Some ["keep.native-b3-receipt"]));
        ("version", RUint 1 1);
        ("operationKind", RIdentifier (Some ["genesis"; "read"; "compare-and-advance"; "validate-lease"; "subscribe-invalidation"]));
        ("authorityId", RIdentifier None);
        ("b3ProfileEnvelopeDigest", RDigest "B3ProfileEnvelopeDigest");
        ("scopeKey", RRecord [
            ("authorityId", RIdentifier None);
            ("namespace", RIdentifier None);
            ("scope", RIdentifier None);
            ("genesisRootDigest", RDigest "GenesisRootEnvelopeDigest")]);
        ("priorStateDigest", RDigest "B3StateDigest");
        ("newStateDigest", RDigest "B3StateDigest");
        ("operationDigest", RDigest "B3OperationDigest");
        ("requestNonce", RBytes (Some 32) None);
        ("generation", RUint 0 u64_max);
        ("counter", RUint 0 u64_max);
        ("committed", RBoolean);
        ("keyId", RIdentifier None);
        ("keyEpoch", RUint 0 u64_max)]);
    ("payloadDigest", RDigest "PayloadDigest");
    ("signatures", RArray (
        RRecord [
          ("keyId", RIdentifier None);
          ("algorithm", RIdentifier (Some ["ed25519"]));
          ("keyEpoch", RUint 0 u64_max);
          ("signature", RBytes (Some 64) None)])
        1 64 false ["keyId"] ["keyId"])].

Definition B3_STATE_V1_SPEC : RSpec :=
  RRecord [
    ("scopeKey", RRecord [
        ("authorityId", RIdentifier None);
        ("namespace", RIdentifier None);
        ("scope", RIdentifier None);
        ("genesisRootDigest", RDigest "GenesisRootEnvelopeDigest")]);
    ("generation", RUint 0 u64_max);
    ("rootEpoch", RUint 0 u64_max);
    ("rootEnvelopeDigest", RDigest "RootEnvelopeDigest");
    ("b3ProfileEnvelopeDigest", RDigest "B3ProfileEnvelopeDigest");
    ("headSequence", RUint 0 u64_max);
    ("headEnvelopeDigest", RDigest "RevocationEnvelopeDigest");
    ("deploymentEpoch", RUint 0 u64_max);
    ("artifactFloor", RUint 0 u64_max);
    ("counter", RUint 0 u64_max);
    ("quarantined", RBoolean);
    ("quarantineDigest", RDigest "QuarantineDigest");
    ("consumedAuthorization", RNullable (RTagged "kind" [
          ("rollback", RRecord [
              ("kind", RIdentifier (Some ["rollback"]));
              ("authorizationEnvelopeDigest", RDigest "RollbackAuthorizationEnvelopeDigest")]);
          ("recovery", RRecord [
              ("kind", RIdentifier (Some ["recovery"]));
              ("authorizationEnvelopeDigest", RDigest "RevocationRecoveryEnvelopeDigest")])]))].

Definition B3_SUBSCRIBE_OPERATION_V1_SPEC : RSpec :=
  RRecord [
    ("schema", RIdentifier (Some ["keep.native-b3-operation"]));
    ("version", RUint 1 1);
    ("operationKind", RIdentifier (Some ["subscribe-invalidation"]));
    ("scopeKey", RRecord [
        ("authorityId", RIdentifier None);
        ("namespace", RIdentifier None);
        ("scope", RIdentifier None);
        ("genesisRootDigest", RDigest "GenesisRootEnvelopeDigest")]);
    ("generation", RUint 0 u64_max);
    ("sessionId", RIdentifier None);
    ("requestNonce", RBytes (Some 32) None)].

Definition NATIVE_ARTIFACT_INVENTORY_V1_SPEC : RSpec :=
  RRecord [
    ("schema", RIdentifier (Some ["keep.native-artifact-inventory"]));
    ("version", RUint 1 1);
    ("buildId", RIdentifier None);
    ("targetTriple", RIdentifier None);
    ("variant", RIdentifier None);
    ("rows", RArray (
        RRecord [
          ("artifactId", RIdentifier None);
          ("kind", RIdentifier (Some ["helper"; "trampoline"; "role"; "prober"; "provisioner"; "policy"; "evidence-schema"]));
          ("digest", RDigest "ArtifactFileDigest");
          ("size", RUint 0 u64_max);
          ("mode", RIdentifier (Some ["0444"; "0555"]));
          ("targetTriple", RIdentifier None);
          ("variant", RIdentifier None);
          ("releaseMember", RBoolean)])
        0 256 false ["artifactId"] ["artifactId"])].

Definition NATIVE_B3_GENESIS_BASE_V1_SPEC : RSpec :=
  RRecord [
    ("schema", RIdentifier (Some ["keep.native-b3-genesis-base"]));
    ("version", RUint 1 1);
    ("trustClass", RIdentifier (Some ["production"; "development"]));
    ("authorityId", RIdentifier None);
    ("namespace", RIdentifier None);
    ("scope", RIdentifier None);
    ("headSequence", RUint 0 u64_max);
    ("headEnvelopeDigest", RDigest "RevocationEnvelopeDigest");
    ("deploymentEpoch", RUint 0 u64_max);
    ("artifactFloor", RUint 0 u64_max);
    ("counter", RUint 0 u64_max)].

Definition NATIVE_B3_PROFILE_V1_SPEC : RSpec :=
  RRecord [
    ("payload", RRecord [
        ("schema", RIdentifier (Some ["keep.native-b3-profile"]));
        ("version", RUint 1 1);
        ("trustClass", RIdentifier (Some ["production"; "development"]));
        ("authorityId", RIdentifier None);
        ("b0RootEnvelopeDigest", RDigest "RootEnvelopeDigest");
        ("genesisBaseDigest", RDigest "GenesisBaseDigest");
        ("predecessorProfileEnvelopeDigest", RNullable (RDigest "B3ProfileEnvelopeDigest"));
        ("algorithm", RIdentifier (Some ["ed25519"]));
        ("keyId", RIdentifier None);
        ("keyEpoch", RUint 0 u64_max);
        ("publicKey", RBytes (Some 32) None);
        ("validFromCounter", RUint 0 u64_max);
        ("validUntilCounter", RUint 0 u64_max);
        ("transportIdentityDigest", RDigest "TransportIdentityDigest");
        ("maxHeartbeatIntervalMs", RUint 1 1000)]);
    ("payloadDigest", RDigest "PayloadDigest");
    ("signatures", RArray (
        RRecord [
          ("keyId", RIdentifier None);
          ("algorithm", RIdentifier (Some ["ed25519"]));
          ("keyEpoch", RUint 0 u64_max);
          ("signature", RBytes (Some 64) None)])
        1 64 false ["keyId"] ["keyId"])].

Definition NATIVE_BUILD_COMMAND_V1_SPEC : RSpec :=
  RRecord [
    ("schema", RIdentifier (Some ["keep.native-build-command"]));
    ("version", RUint 1 1);
    ("executableDigest", RDigest "BuildToolDigest");
    ("arguments", RArray (
        RText None None)
        0 256 false [] [])].

Definition NATIVE_BUILD_IDENTITY_V1_SPEC : RSpec :=
  RRecord [
    ("payload", RRecord [
        ("schema", RIdentifier (Some ["keep.native-build-identity"]));
        ("version", RUint 1 1);
        ("trustClass", RIdentifier (Some ["production"; "development"]));
        ("identityKind", RIdentifier (Some ["builder"; "comparer"]));
        ("identityId", RIdentifier None);
        ("administrativeDomain", RIdentifier None);
        ("toolchainLineageDigest", RDigest "ToolchainLineageDigest");
        ("keyId", RIdentifier None);
        ("keyEpoch", RUint 0 u64_max);
        ("publicKey", RBytes (Some 32) None);
        ("validFromCounter", RUint 0 u64_max);
        ("validUntilCounter", RUint 0 u64_max)]);
    ("payloadDigest", RDigest "PayloadDigest");
    ("signatures", RArray (
        RRecord [
          ("keyId", RIdentifier None);
          ("algorithm", RIdentifier (Some ["ed25519"]));
          ("keyEpoch", RUint 0 u64_max);
          ("signature", RBytes (Some 64) None)])
        1 64 false ["keyId"] ["keyId"])].

Definition NATIVE_COMPARISON_V1_SPEC : RSpec :=
  RRecord [
    ("schema", RIdentifier (Some ["keep.native-comparison"]));
    ("version", RUint 1 1);
    ("algorithm", RIdentifier (Some ["sha256-byte-for-byte/v1"]));
    ("leftSubjectDigest", RDigest "SubjectDigest");
    ("rightSubjectDigest", RDigest "SubjectDigest");
    ("disagreementsDigest", RDigest "DisagreementsDigest")].

Definition NATIVE_CONTROL_POLICY_V1_SPEC : RSpec :=
  RRecord [
    ("schema", RIdentifier (Some ["keep.native-control-policy"]));
    ("version", RUint 1 1);
    ("controlId", RIdentifier None);
    ("decisionClass", RIdentifier (Some ["permit"; "deny"; "measure-only"]));
    ("requirements", RArray (
        RIdentifier (Some ["signature-valid"; "threshold-met"; "content-address-match"; "subject-match"; "fresh"; "not-revoked"; "floor-satisfied"; "lease-active"; "isolation-measured"]))
        0 256 true [] [])].

Definition NATIVE_CONTROL_V1_SPEC : RSpec :=
  RRecord [
    ("schema", RIdentifier (Some ["keep.native-control"]));
    ("version", RUint 1 1);
    ("controlId", RIdentifier None);
    ("subjectDigest", RDigest "SubjectDigest");
    ("policyDigest", RDigest "ControlPolicyDigest")].

Definition NATIVE_ENVIRONMENT_POLICY_V1_SPEC : RSpec :=
  RRecord [
    ("schema", RIdentifier (Some ["keep.native-environment-policy"]));
    ("version", RUint 1 1);
    ("allowedVariables", RArray (
        RIdentifier None)
        0 256 true [] []);
    ("workingDirectoryPolicy", RIdentifier (Some ["empty"; "fixed-source-root"]));
    ("networkPolicy", RIdentifier (Some ["denied"; "builder-isolated"]))].

Definition NATIVE_FD_FLAGS_V1_SPEC : RSpec :=
  RRecord [
    ("schema", RIdentifier (Some ["keep.native-fd-flags"]));
    ("version", RUint 1 1);
    ("flags", RArray (
        RIdentifier (Some ["O_RDONLY"; "O_CLOEXEC"; "O_NOFOLLOW"; "O_PATH"; "O_DIRECTORY"]))
        0 5 true [] []);
    ("closeOnExec", RBoolean);
    ("seals", RArray (
        RIdentifier (Some ["F_SEAL_WRITE"; "F_SEAL_SHRINK"; "F_SEAL_GROW"; "F_SEAL_EXEC"; "F_SEAL_SEAL"]))
        0 5 true [] [])].

Definition NATIVE_GENESIS_EPOCH_V1_SPEC : RSpec :=
  RRecord [
    ("schema", RIdentifier (Some ["keep.native-genesis-epoch"]));
    ("version", RUint 1 1);
    ("trustClass", RIdentifier (Some ["production"; "development"]));
    ("rootId", RIdentifier None);
    ("rootKeys", RArray (
        RRecord [
          ("keyId", RIdentifier None);
          ("algorithm", RIdentifier (Some ["ed25519"]));
          ("publicKey", RBytes (Some 32) None);
          ("keyEpoch", RUint 0 u64_max);
          ("validFromCounter", RUint 0 u64_max);
          ("validUntilCounter", RUint 0 u64_max)])
        1 32 false ["keyId"] ["keyId"]);
    ("rootThreshold", RUint 1 32);
    ("participantIds", RArray (
        RIdentifier None)
        1 64 true [] []);
    ("minimumParticipants", RUint 1 64);
    ("requiredOffline", RBoolean);
    ("requiredWitnesses", RUint 0 u64_max);
    ("issuedCounter", RUint 0 u64_max);
    ("nonce", RBytes (Some 32) None)].

Definition NATIVE_INVOCATION_V1_SPEC : RSpec :=
  RRecord [
    ("schema", RIdentifier (Some ["keep.native-invocation"]));
    ("version", RUint 1 1);
    ("buildId", RIdentifier None);
    ("commandDigest", RDigest "BuildCommandDigest");
    ("environmentPolicyDigest", RDigest "EnvironmentPolicyDigest");
    ("inputs", RArray (
        RRecord [
          ("uri", RText None (Some URI_PATTERN));
          ("artifactDigest", RDigest "InvocationInputArtifactDigest")])
        0 4096 false ["uri"] ["uri"])].

Definition NATIVE_IO_MAX_V1_SPEC : RSpec :=
  RRecord [
    ("schema", RIdentifier (Some ["keep.native-io-max"]));
    ("version", RUint 1 1);
    ("defaultPolicy", RIdentifier (Some ["deny-unlisted"]));
    ("rows", RArray (
        RRecord [
          ("deviceMajor", RUint 0 u64_max);
          ("deviceMinor", RUint 0 u64_max);
          ("readBytesPerSecond", RNullable (RUint 0 u64_max));
          ("writeBytesPerSecond", RNullable (RUint 0 u64_max));
          ("readIops", RNullable (RUint 0 u64_max));
          ("writeIops", RNullable (RUint 0 u64_max))])
        0 128 false ["deviceMajor"; "deviceMinor"] ["deviceMajor"; "deviceMinor"])].

Definition NATIVE_JOURNAL_ENTRIES_V1_SPEC : RSpec :=
  RRecord [
    ("schema", RIdentifier (Some ["keep.native-journal-entries"]));
    ("version", RUint 1 1);
    ("entries", RArray (
        RRecord [
          ("sequence", RUint 0 u64_max);
          ("eventCode", RIdentifier None);
          ("subjectDigest", RDigest "JournalSubjectDigest");
          ("counter", RUint 0 u64_max)])
        0 4096 false ["sequence"] ["sequence"])].

Definition NATIVE_JOURNAL_V1_SPEC : RSpec :=
  RRecord [
    ("schema", RIdentifier (Some ["keep.native-journal"]));
    ("version", RUint 1 1);
    ("deploymentId", RIdentifier None);
    ("bootId", RIdentifier None);
    ("sequence", RUint 0 u64_max);
    ("previousJournalDigest", RDigest "JournalDigest");
    ("entriesDigest", RDigest "JournalEntriesDigest")].

Definition NATIVE_LANDLOCK_POLICY_V1_SPEC : RSpec :=
  RRecord [
    ("schema", RIdentifier (Some ["keep.native-landlock-policy"]));
    ("version", RUint 1 1);
    ("minimumAbi", RUint 1 255);
    ("handledFilesystemRights", RArray (
        RIdentifier (Some ["execute"; "write-file"; "read-file"; "read-dir"; "remove-dir"; "remove-file"; "make-char"; "make-dir"; "make-reg"; "make-sock"; "make-fifo"; "make-block"; "make-sym"; "refer"; "truncate"; "ioctl-dev"]))
        0 16 true [] []);
    ("handledNetworkRights", RArray (
        RIdentifier (Some ["bind-tcp"; "connect-tcp"]))
        0 2 true [] []);
    ("handledScopeRights", RArray (
        RIdentifier (Some ["signal"; "abstract-unix-socket"]))
        0 2 true [] []);
    ("rules", RArray (
        RTagged "kind" [
          ("path-beneath", RRecord [
              ("kind", RIdentifier (Some ["path-beneath"]));
              ("path", RText None (Some ABSOLUTE_PATTERN));
              ("accessRights", RArray (
                  RIdentifier (Some ["execute"; "write-file"; "read-file"; "read-dir"; "remove-dir"; "remove-file"; "make-char"; "make-dir"; "make-reg"; "make-sock"; "make-fifo"; "make-block"; "make-sym"; "refer"; "truncate"; "ioctl-dev"]))
                  0 16 true [] [])]);
          ("tcp-port", RRecord [
              ("kind", RIdentifier (Some ["tcp-port"]));
              ("port", RUint 1 65535);
              ("accessRights", RArray (
                  RIdentifier (Some ["bind-tcp"; "connect-tcp"]))
                  0 2 true [] [])])])
        0 256 false [] [])].

Definition NATIVE_LANDLOCK_POLICY_V2_SPEC : RSpec :=
  RRecord [
    ("schema", RIdentifier (Some ["keep.native-landlock-policy"]));
    ("version", RUint 2 2);
    ("minimumAbi", RUint 4 10);
    ("effectiveAbi", RUint 4 10);
    ("reviewedMaximumAbi", RUint 10 10);
    ("handledFilesystemRights", RArray (
        RIdentifier (Some ["execute"; "write-file"; "read-file"; "read-dir"; "remove-dir"; "remove-file"; "make-char"; "make-dir"; "make-reg"; "make-sock"; "make-fifo"; "make-block"; "make-sym"; "refer"; "truncate"; "ioctl-dev"; "resolve-unix"]))
        0 17 true [] []);
    ("handledNetworkRights", RArray (
        RIdentifier (Some ["bind-tcp"; "connect-tcp"; "bind-udp"; "connect-send-udp"]))
        0 4 true [] []);
    ("handledScopeRights", RArray (
        RIdentifier (Some ["signal"; "abstract-unix-socket"]))
        0 2 true [] []);
    ("rules", RArray (
        RTagged "kind" [
          ("path-beneath", RRecord [
              ("kind", RIdentifier (Some ["path-beneath"]));
              ("path", RText None (Some ABSOLUTE_PATTERN));
              ("accessRights", RArray (
                  RIdentifier (Some ["execute"; "write-file"; "read-file"; "read-dir"; "remove-dir"; "remove-file"; "make-char"; "make-dir"; "make-reg"; "make-sock"; "make-fifo"; "make-block"; "make-sym"; "refer"; "truncate"; "ioctl-dev"; "resolve-unix"]))
                  0 17 true [] [])]);
          ("tcp-port", RRecord [
              ("kind", RIdentifier (Some ["tcp-port"]));
              ("port", RUint 1 65535);
              ("accessRights", RArray (
                  RIdentifier (Some ["bind-tcp"; "connect-tcp"]))
                  0 2 true [] [])]);
          ("udp-port", RRecord [
              ("kind", RIdentifier (Some ["udp-port"]));
              ("port", RUint 0 65535);
              ("accessRights", RArray (
                  RIdentifier (Some ["bind-udp"; "connect-send-udp"]))
                  0 2 true [] [])])])
        0 256 false [] [])].

Definition NATIVE_OBSERVATION_RESULT_V1_SPEC : RSpec :=
  RRecord [
    ("schema", RIdentifier (Some ["keep.native-observation-result"]));
    ("version", RUint 1 1);
    ("resultCode", RIdentifier (Some ["pass"; "fail"; "inconclusive"]));
    ("facts", RArray (
        RTagged "valueType" [
          ("identifier", RRecord [
              ("factId", RIdentifier None);
              ("valueType", RIdentifier (Some ["identifier"]));
              ("value", RIdentifier None)]);
          ("uint64", RRecord [
              ("factId", RIdentifier None);
              ("valueType", RIdentifier (Some ["uint64"]));
              ("value", RUint 0 u64_max)]);
          ("boolean", RRecord [
              ("factId", RIdentifier None);
              ("valueType", RIdentifier (Some ["boolean"]));
              ("value", RBoolean)])])
        0 1024 false ["factId"] ["factId"])].

Definition NATIVE_PACKAGE_PAYLOAD_V1_SPEC : RSpec :=
  RRecord [
    ("schema", RIdentifier (Some ["keep.native-package-payload"]));
    ("version", RUint 1 1);
    ("buildId", RIdentifier None);
    ("targetTriple", RIdentifier None);
    ("variant", RIdentifier None);
    ("nativeArtifactInventoryDigest", RDigest "NativeArtifactInventoryDigest");
    ("members", RArray (
        RRecord [
          ("installRoot", RIdentifier (Some ["artifacts"; "policy"; "evidence-schema"; "inventory"; "toolchain"]));
          ("relativePath", RText None (Some RELATIVE_PATTERN));
          ("digest", RDigest "PackageMemberDigest");
          ("size", RUint 0 u64_max);
          ("mode", RIdentifier (Some ["0444"; "0555"]));
          ("ownerUid", RUint 0 u64_max);
          ("ownerGid", RUint 0 u64_max);
          ("objectType", RIdentifier (Some ["regular-executable"; "regular-data"]))])
        0 4096 false ["installRoot"; "relativePath"] ["installRoot"; "relativePath"])].

Definition NATIVE_PEER_POLICY_V1_SPEC : RSpec :=
  RRecord [
    ("schema", RIdentifier (Some ["keep.native-peer-policy"]));
    ("version", RUint 1 1);
    ("requiredUid", RNullable (RUint 0 u64_max));
    ("requiredGid", RNullable (RUint 0 u64_max));
    ("requiredSecurityLabel", RNullable (RIdentifier None))].

Definition NATIVE_PROVENANCE_V1_SPEC : RSpec :=
  RRecord [
    ("payload", RRecord [
        ("schema", RIdentifier (Some ["keep.native-provenance"]));
        ("version", RUint 1 1);
        ("builderId", RIdentifier None);
        ("builderIdentityEnvelopeDigest", RDigest "BuilderIdentityEnvelopeDigest");
        ("buildType", RIdentifier None);
        ("buildId", RIdentifier None);
        ("targetTriple", RIdentifier None);
        ("variant", RIdentifier None);
        ("nativeArtifactInventoryDigest", RDigest "NativeArtifactInventoryDigest");
        ("nativePackagePayloadDigest", RDigest "NativePackagePayloadDigest");
        ("toolchainClosureEnvelopeDigest", RDigest "ToolchainClosureEnvelopeDigest");
        ("invocationDigest", RDigest "InvocationDigest");
        ("materials", RArray (
            RRecord [
              ("uri", RText None (Some URI_PATTERN));
              ("digestType", RIdentifier (Some ["ArtifactDigest"; "SourceDigest"; "OciBlobDigest"; "SubjectDigest"]));
              ("digest", RDigest "MaterialDigest")])
            0 8192 false ["uri"] ["uri"]);
        ("subjects", RArray (
            RRecord [
              ("uri", RText None (Some URI_PATTERN));
              ("digestType", RIdentifier (Some ["ArtifactDigest"; "SourceDigest"; "OciBlobDigest"; "SubjectDigest"]));
              ("digest", RDigest "MaterialDigest")])
            0 4096 false ["uri"] ["uri"]);
        ("startedCounter", RUint 0 u64_max);
        ("finishedCounter", RUint 0 u64_max)]);
    ("payloadDigest", RDigest "PayloadDigest");
    ("signatures", RArray (
        RRecord [
          ("keyId", RIdentifier None);
          ("algorithm", RIdentifier (Some ["ed25519"]));
          ("keyEpoch", RUint 0 u64_max);
          ("signature", RBytes (Some 64) None)])
        1 64 false ["keyId"] ["keyId"])].

Definition NATIVE_REPRODUCIBILITY_RECORD_V1_SPEC : RSpec :=
  RRecord [
    ("payload", RRecord [
        ("schema", RIdentifier (Some ["keep.native-repro"]));
        ("version", RUint 1 1);
        ("comparerIdentityEnvelopeDigest", RDigest "ComparerIdentityEnvelopeDigest");
        ("buildId", RIdentifier None);
        ("targetTriple", RIdentifier None);
        ("variant", RIdentifier None);
        ("nativeArtifactInventoryDigest", RDigest "NativeArtifactInventoryDigest");
        ("nativePackagePayloadDigest", RDigest "NativePackagePayloadDigest");
        ("toolchainClosureEnvelopeDigest", RDigest "ToolchainClosureEnvelopeDigest");
        ("builderProvenanceEnvelopeDigests", RArray (
            RDigest "ProvenanceEnvelopeDigest")
            2 8 true [] []);
        ("comparisonAlgorithm", RIdentifier (Some ["sha256-byte-for-byte/v1"]));
        ("comparisonDigest", RDigest "ComparisonDigest");
        ("disagreements", RArray (
            RRecord [
              ("path", RText None (Some RELATIVE_PATTERN));
              ("leftBuilderId", RIdentifier None);
              ("rightBuilderId", RIdentifier None);
              ("leftDigest", RDigest "ComparedArtifactDigest");
              ("rightDigest", RDigest "ComparedArtifactDigest");
              ("reasonCode", RIdentifier None)])
            0 1024 false ["path"; "leftBuilderId"; "rightBuilderId"] ["path"; "leftBuilderId"; "rightBuilderId"])]);
    ("payloadDigest", RDigest "PayloadDigest");
    ("signatures", RArray (
        RRecord [
          ("keyId", RIdentifier None);
          ("algorithm", RIdentifier (Some ["ed25519"]));
          ("keyEpoch", RUint 0 u64_max);
          ("signature", RBytes (Some 64) None)])
        1 64 false ["keyId"] ["keyId"])].

Definition NATIVE_REVOCATION_LOCATOR_V1_SPEC : RSpec :=
  RRecord [
    ("schema", RIdentifier (Some ["keep.native-revocation-locator"]));
    ("version", RUint 1 1);
    ("sequence", RUint 0 u64_max);
    ("revocationEnvelopeDigest", RDigest "RevocationEnvelopeDigest")].

Definition NATIVE_REVOCATION_RECOVERY_V1_SPEC : RSpec :=
  RRecord [
    ("payload", RRecord [
        ("schema", RIdentifier (Some ["keep.native-revocation-recovery"]));
        ("version", RUint 1 1);
        ("trustClass", RIdentifier (Some ["production"; "development"]));
        ("recoveryId", RIdentifier None);
        ("authorityId", RIdentifier None);
        ("namespace", RIdentifier None);
        ("scope", RIdentifier None);
        ("expectedB3State", RRecord [
            ("scopeKey", RRecord [
                ("authorityId", RIdentifier None);
                ("namespace", RIdentifier None);
                ("scope", RIdentifier None);
                ("genesisRootDigest", RDigest "GenesisRootEnvelopeDigest")]);
            ("generation", RUint 0 u64_max);
            ("rootEpoch", RUint 0 u64_max);
            ("rootEnvelopeDigest", RDigest "RootEnvelopeDigest");
            ("b3ProfileEnvelopeDigest", RDigest "B3ProfileEnvelopeDigest");
            ("headSequence", RUint 0 u64_max);
            ("headEnvelopeDigest", RDigest "RevocationEnvelopeDigest");
            ("deploymentEpoch", RUint 0 u64_max);
            ("artifactFloor", RUint 0 u64_max);
            ("counter", RUint 0 u64_max);
            ("quarantined", RBoolean);
            ("quarantineDigest", RDigest "QuarantineDigest");
            ("consumedAuthorization", RNullable (RTagged "kind" [
                  ("rollback", RRecord [
                      ("kind", RIdentifier (Some ["rollback"]));
                      ("authorizationEnvelopeDigest", RDigest "RollbackAuthorizationEnvelopeDigest")]);
                  ("recovery", RRecord [
                      ("kind", RIdentifier (Some ["recovery"]));
                      ("authorizationEnvelopeDigest", RDigest "RevocationRecoveryEnvelopeDigest")])]))]);
        ("proposedB3StateProjection", RRecord [
            ("scopeKey", RRecord [
                ("authorityId", RIdentifier None);
                ("namespace", RIdentifier None);
                ("scope", RIdentifier None);
                ("genesisRootDigest", RDigest "GenesisRootEnvelopeDigest")]);
            ("rootEpoch", RUint 0 u64_max);
            ("rootEnvelopeDigest", RDigest "RootEnvelopeDigest");
            ("b3ProfileEnvelopeDigest", RDigest "B3ProfileEnvelopeDigest");
            ("headSequence", RUint 0 u64_max);
            ("headEnvelopeDigest", RDigest "RevocationEnvelopeDigest");
            ("deploymentEpoch", RUint 0 u64_max);
            ("artifactFloor", RUint 0 u64_max);
            ("counter", RUint 0 u64_max);
            ("quarantined", RBoolean);
            ("quarantineDigest", RDigest "QuarantineDigest")]);
        ("quarantinedHeadEnvelopeDigests", RArray (
            RDigest "RevocationEnvelopeDigest")
            1 4096 true [] []);
        ("selectedHeadEnvelopeDigest", RDigest "RevocationEnvelopeDigest");
        ("selectedSequence", RUint 0 u64_max);
        ("issuedCounter", RUint 0 u64_max);
        ("expiresCounter", RUint 0 u64_max);
        ("reasonCode", RIdentifier None);
        ("transcriptDigest", RDigest "TranscriptDigest")]);
    ("payloadDigest", RDigest "PayloadDigest");
    ("signatures", RArray (
        RRecord [
          ("keyId", RIdentifier None);
          ("algorithm", RIdentifier (Some ["ed25519"]));
          ("keyEpoch", RUint 0 u64_max);
          ("signature", RBytes (Some 64) None)])
        1 64 false ["keyId"] ["keyId"])].

Definition NATIVE_ROLLBACK_AUTHORIZATION_V1_SPEC : RSpec :=
  RRecord [
    ("payload", RRecord [
        ("schema", RIdentifier (Some ["keep.native-rollback"]));
        ("version", RUint 1 1);
        ("trustClass", RIdentifier (Some ["production"; "development"]));
        ("authorizationId", RIdentifier None);
        ("fromDeploymentEnvelopeDigest", RDigest "DeploymentEnvelopeDigest");
        ("fromDeploymentEpoch", RUint 0 u64_max);
        ("fromArtifactVersion", RUint 0 u64_max);
        ("toDeploymentBaseDigest", RDigest "DeploymentBaseDigest");
        ("toDeploymentEpoch", RUint 0 u64_max);
        ("toArtifactVersion", RUint 0 u64_max);
        ("minimumArtifactVersion", RUint 0 u64_max);
        ("predecessorDigest", RDigest "RollbackAuthorizationEnvelopeDigest");
        ("issuedCounter", RUint 0 u64_max);
        ("expiresCounter", RUint 0 u64_max);
        ("nonce", RBytes (Some 32) None)]);
    ("payloadDigest", RDigest "PayloadDigest");
    ("signatures", RArray (
        RRecord [
          ("keyId", RIdentifier None);
          ("algorithm", RIdentifier (Some ["ed25519"]));
          ("keyEpoch", RUint 0 u64_max);
          ("signature", RBytes (Some 64) None)])
        1 64 false ["keyId"] ["keyId"])].

Definition NATIVE_ROOT_CEREMONY_RECORD_V1_SPEC : RSpec :=
  RRecord [
    ("payload", RRecord [
        ("schema", RIdentifier (Some ["keep.native-root-ceremony"]));
        ("version", RUint 1 1);
        ("trustClass", RIdentifier (Some ["production"; "development"]));
        ("ceremonyId", RIdentifier None);
        ("rootEnvelopeDigest", RDigest "RootEnvelopeDigest");
        ("genesisCarrierDigest", RDigest "GenesisCarrierDigest");
        ("participantKeyIds", RArray (
            RIdentifier None)
            1 64 true [] []);
        ("requestDigest", RDigest "CeremonyRequestDigest");
        ("transcriptDigest", RDigest "TranscriptDigest");
        ("issuedCounter", RUint 0 u64_max)]);
    ("payloadDigest", RDigest "PayloadDigest");
    ("signatures", RArray (
        RRecord [
          ("keyId", RIdentifier None);
          ("algorithm", RIdentifier (Some ["ed25519"]));
          ("keyEpoch", RUint 0 u64_max);
          ("signature", RBytes (Some 64) None)])
        1 64 false ["keyId"] ["keyId"])].

Definition NATIVE_ROOT_LOCATOR_V1_SPEC : RSpec :=
  RRecord [
    ("schema", RIdentifier (Some ["keep.native-root-locator"]));
    ("version", RUint 1 1);
    ("rootEpoch", RUint 0 u64_max);
    ("rootEnvelopeDigest", RDigest "RootEnvelopeDigest")].

Definition NATIVE_ROOT_V1_SPEC : RSpec :=
  RRecord [
    ("payload", RRecord [
        ("schema", RIdentifier (Some ["keep.native-root"]));
        ("version", RUint 1 1);
        ("trustClass", RIdentifier (Some ["production"; "development"]));
        ("rootId", RIdentifier None);
        ("rootEpoch", RUint 0 u64_max);
        ("genesisEpochDigest", RDigest "GenesisEpochDigest");
        ("predecessorRootEnvelopeDigest", RNullable (RDigest "RootEnvelopeDigest"));
        ("issuedCounter", RUint 0 u64_max);
        ("threshold", RRecord [
            ("root", RUint 1 32);
            ("release", RUint 1 32);
            ("timestamp", RUint 1 32);
            ("revocation", RUint 1 32);
            ("recovery", RUint 1 32);
            ("b3", RUint 1 32);
            ("builder", RUint 1 32);
            ("comparer", RUint 1 32)]);
        ("rootKeys", RArray (
            RRecord [
              ("keyId", RIdentifier None);
              ("algorithm", RIdentifier (Some ["ed25519"]));
              ("publicKey", RBytes (Some 32) None);
              ("keyEpoch", RUint 0 u64_max);
              ("validFromCounter", RUint 0 u64_max);
              ("validUntilCounter", RUint 0 u64_max)])
            1 32 false ["keyId"] ["keyId"]);
        ("releaseKeys", RArray (
            RRecord [
              ("keyId", RIdentifier None);
              ("algorithm", RIdentifier (Some ["ed25519"]));
              ("publicKey", RBytes (Some 32) None);
              ("keyEpoch", RUint 0 u64_max);
              ("validFromCounter", RUint 0 u64_max);
              ("validUntilCounter", RUint 0 u64_max)])
            1 32 false ["keyId"] ["keyId"]);
        ("timestampKeys", RArray (
            RRecord [
              ("keyId", RIdentifier None);
              ("algorithm", RIdentifier (Some ["ed25519"]));
              ("publicKey", RBytes (Some 32) None);
              ("keyEpoch", RUint 0 u64_max);
              ("validFromCounter", RUint 0 u64_max);
              ("validUntilCounter", RUint 0 u64_max)])
            1 32 false ["keyId"] ["keyId"]);
        ("revocationKeys", RArray (
            RRecord [
              ("keyId", RIdentifier None);
              ("algorithm", RIdentifier (Some ["ed25519"]));
              ("publicKey", RBytes (Some 32) None);
              ("keyEpoch", RUint 0 u64_max);
              ("validFromCounter", RUint 0 u64_max);
              ("validUntilCounter", RUint 0 u64_max)])
            1 32 false ["keyId"] ["keyId"]);
        ("recoveryKeys", RArray (
            RRecord [
              ("keyId", RIdentifier None);
              ("algorithm", RIdentifier (Some ["ed25519"]));
              ("publicKey", RBytes (Some 32) None);
              ("keyEpoch", RUint 0 u64_max);
              ("validFromCounter", RUint 0 u64_max);
              ("validUntilCounter", RUint 0 u64_max)])
            1 32 false ["keyId"] ["keyId"]);
        ("b3Keys", RArray (
            RRecord [
              ("keyId", RIdentifier None);
              ("algorithm", RIdentifier (Some ["ed25519"]));
              ("publicKey", RBytes (Some 32) None);
              ("keyEpoch", RUint 0 u64_max);
              ("validFromCounter", RUint 0 u64_max);
              ("validUntilCounter", RUint 0 u64_max)])
            1 32 false ["keyId"] ["keyId"]);
        ("builderKeys", RArray (
            RRecord [
              ("keyId", RIdentifier None);
              ("algorithm", RIdentifier (Some ["ed25519"]));
              ("publicKey", RBytes (Some 32) None);
              ("keyEpoch", RUint 0 u64_max);
              ("validFromCounter", RUint 0 u64_max);
              ("validUntilCounter", RUint 0 u64_max)])
            1 32 false ["keyId"] ["keyId"]);
        ("comparerKeys", RArray (
            RRecord [
              ("keyId", RIdentifier None);
              ("algorithm", RIdentifier (Some ["ed25519"]));
              ("publicKey", RBytes (Some 32) None);
              ("keyEpoch", RUint 0 u64_max);
              ("validFromCounter", RUint 0 u64_max);
              ("validUntilCounter", RUint 0 u64_max)])
            1 32 false ["keyId"] ["keyId"]);
        ("keyEpochs", RArray (
            RRecord [
              ("role", RIdentifier (Some ["root"; "release"; "timestamp"; "revocation"; "recovery"; "b3"; "builder"; "comparer"]));
              ("minimumEpoch", RUint 0 u64_max)])
            8 8 false ["role"] ["role"])]);
    ("payloadDigest", RDigest "PayloadDigest");
    ("signatures", RArray (
        ROneOf [
          RRecord [
            ("keyId", RIdentifier None);
            ("algorithm", RIdentifier (Some ["ed25519"]));
            ("keyEpoch", RUint 0 u64_max);
            ("signature", RBytes (Some 64) None)];
          RRecord [
            ("keyId", RIdentifier None);
            ("algorithm", RIdentifier (Some ["ed25519"]));
            ("keyEpoch", RUint 0 u64_max);
            ("authorizationRole", RIdentifier (Some ["root"; "recovery"]));
            ("signature", RBytes (Some 64) None)]])
        1 64 false ["keyId"] ["keyId"])].

Definition NATIVE_SBOM_V1_SPEC : RSpec :=
  RRecord [
    ("payload", RRecord [
        ("schema", RIdentifier (Some ["keep.native-sbom"]));
        ("version", RUint 1 1);
        ("buildId", RIdentifier None);
        ("targetTriple", RIdentifier None);
        ("variant", RIdentifier None);
        ("nativeArtifactInventoryDigest", RDigest "NativeArtifactInventoryDigest");
        ("packages", RArray (
            RRecord [
              ("purl", RText None None);
              ("name", RIdentifier None);
              ("version", RText None None);
              ("license", RText None None);
              ("sourceDigest", RDigest "SourceDigest");
              ("checksumAlgorithm", RIdentifier (Some ["sha256"]));
              ("checksum", RDigest "SbomChecksumDigest")])
            0 4096 false ["purl"] ["purl"])]);
    ("payloadDigest", RDigest "PayloadDigest");
    ("signatures", RArray (
        RRecord [
          ("keyId", RIdentifier None);
          ("algorithm", RIdentifier (Some ["ed25519"]));
          ("keyEpoch", RUint 0 u64_max);
          ("signature", RBytes (Some 64) None)])
        1 64 false ["keyId"] ["keyId"])].

Definition NATIVE_SECCOMP_POLICY_V1_SPEC : RSpec :=
  RRecord [
    ("schema", RIdentifier (Some ["keep.native-seccomp-policy"]));
    ("version", RUint 1 1);
    ("architecture", RIdentifier (Some ["x86_64"; "aarch64"]));
    ("defaultAction", RIdentifier (Some ["kill-process"]));
    ("rules", RArray (
        RRecord [
          ("syscall", RIdentifier None);
          ("action", RIdentifier (Some ["allow"; "kill-process"; "errno"]));
          ("errno", RNullable (RUint 0 u64_max));
          ("arguments", RArray (
              RRecord [
                ("index", RUint 0 5);
                ("operator", RIdentifier (Some ["eq"; "ne"; "lt"; "le"; "gt"; "ge"; "masked-eq"]));
                ("value", RUint 0 u64_max);
                ("mask", RNullable (RUint 0 u64_max))])
              0 6 false ["index"] ["index"])])
        0 512 false ["syscall"] ["syscall"])].

Definition NATIVE_TIMESTAMP_V1_SPEC : RSpec :=
  RRecord [
    ("payload", RRecord [
        ("schema", RIdentifier (Some ["keep.native-timestamp"]));
        ("version", RUint 1 1);
        ("trustClass", RIdentifier (Some ["production"; "development"]));
        ("nativeClosureBaseDigest", RDigest "ReleaseClosureBaseDigest");
        ("artifactVersion", RUint 0 u64_max);
        ("deploymentEpoch", RUint 0 u64_max);
        ("releaseKeyEpoch", RUint 0 u64_max);
        ("timestampKeyEpoch", RUint 0 u64_max);
        ("issuedCounter", RUint 0 u64_max);
        ("expiresCounter", RUint 0 u64_max);
        ("revocationCheckpointEnvelopeDigest", RDigest "RevocationEnvelopeDigest");
        ("revocationSequence", RUint 0 u64_max)]);
    ("payloadDigest", RDigest "PayloadDigest");
    ("signatures", RArray (
        RRecord [
          ("keyId", RIdentifier None);
          ("algorithm", RIdentifier (Some ["ed25519"]));
          ("keyEpoch", RUint 0 u64_max);
          ("signature", RBytes (Some 64) None)])
        1 64 false ["keyId"] ["keyId"])].

Definition NATIVE_TOOLCHAIN_CLOSURE_V1_SPEC : RSpec :=
  RRecord [
    ("payload", RRecord [
        ("schema", RIdentifier (Some ["keep.native-toolchain"]));
        ("version", RUint 1 1);
        ("toolchainId", RIdentifier None);
        ("targetTriple", RIdentifier None);
        ("variant", RIdentifier None);
        ("compilerDigest", RDigest "CompilerDigest");
        ("sysrootDigest", RDigest "SysrootDigest");
        ("linkerDigest", RDigest "LinkerDigest");
        ("vendorDigest", RDigest "VendorDigest");
        ("containerDigest", RDigest "ContainerDigest");
        ("environmentPolicyDigest", RDigest "EnvironmentPolicyDigest");
        ("entries", RArray (
            RRecord [
              ("path", RText None (Some RELATIVE_PATTERN));
              ("size", RUint 0 u64_max);
              ("digest", RDigest "ToolchainEntryDigest");
              ("kind", RIdentifier (Some ["compiler"; "rustlib"; "linker"; "sysroot"; "vendor-source"; "container-manifest"; "build-tool"]))])
            0 8192 false ["path"] ["path"])]);
    ("payloadDigest", RDigest "PayloadDigest");
    ("signatures", RArray (
        RRecord [
          ("keyId", RIdentifier None);
          ("algorithm", RIdentifier (Some ["ed25519"]));
          ("keyEpoch", RUint 0 u64_max);
          ("signature", RBytes (Some 64) None)])
        1 64 false ["keyId"] ["keyId"])].

Definition NATIVE_TRANSCRIPT_V1_SPEC : RSpec :=
  RRecord [
    ("schema", RIdentifier (Some ["keep.native-transcript"]));
    ("version", RUint 1 1);
    ("subjectDigest", RDigest "SubjectDigest");
    ("mechanism", RIdentifier None);
    ("mechanismVersion", RIdentifier None);
    ("capturedCounter", RUint 0 u64_max);
    ("resultDigest", RDigest "ObservationResultDigest")].

Definition NATIVE_TRANSPORT_IDENTITY_V1_SPEC : RSpec :=
  RRecord [
    ("schema", RIdentifier (Some ["keep.native-transport-identity"]));
    ("version", RUint 1 1);
    ("transportKind", RIdentifier (Some ["unix-seqpacket"; "vsock"]));
    ("endpointIdentity", RText None (Some IDENTIFIER_PATTERN));
    ("peerPolicyDigest", RDigest "PeerPolicyDigest")].

(** The [match] of [recursive_schema_spec], in its order. *)
Definition recursive_specs : list (string * RSpec) := [
  ("B3CasOperationV1", B3_CAS_OPERATION_V1_SPEC);
  ("B3GenesisOperationV1", B3_GENESIS_OPERATION_V1_SPEC);
  ("B3InvalidationAckV1", B3_INVALIDATION_ACK_V1_SPEC);
  ("B3InvalidationFrameV1", B3_INVALIDATION_FRAME_V1_SPEC);
  ("B3LeaseOperationV1", B3_LEASE_OPERATION_V1_SPEC);
  ("B3ReadOperationV1", B3_READ_OPERATION_V1_SPEC);
  ("B3ReceiptV1", B3_RECEIPT_V1_SPEC);
  ("B3StateV1", B3_STATE_V1_SPEC);
  ("B3SubscribeOperationV1", B3_SUBSCRIBE_OPERATION_V1_SPEC);
  ("NativeArtifactInventoryV1", NATIVE_ARTIFACT_INVENTORY_V1_SPEC);
  ("NativeB3GenesisBaseV1", NATIVE_B3_GENESIS_BASE_V1_SPEC);
  ("NativeB3ProfileV1", NATIVE_B3_PROFILE_V1_SPEC);
  ("NativeBuildCommandV1", NATIVE_BUILD_COMMAND_V1_SPEC);
  ("NativeBuildIdentityV1", NATIVE_BUILD_IDENTITY_V1_SPEC);
  ("NativeComparisonV1", NATIVE_COMPARISON_V1_SPEC);
  ("NativeControlPolicyV1", NATIVE_CONTROL_POLICY_V1_SPEC);
  ("NativeControlV1", NATIVE_CONTROL_V1_SPEC);
  ("NativeEnvironmentPolicyV1", NATIVE_ENVIRONMENT_POLICY_V1_SPEC);
  ("NativeFdFlagsV1", NATIVE_FD_FLAGS_V1_SPEC);
  ("NativeGenesisEpochV1", NATIVE_GENESIS_EPOCH_V1_SPEC);
  ("NativeInvocationV1", NATIVE_INVOCATION_V1_SPEC);
  ("NativeIoMaxV1", NATIVE_IO_MAX_V1_SPEC);
  ("NativeJournalEntriesV1", NATIVE_JOURNAL_ENTRIES_V1_SPEC);
  ("NativeJournalV1", NATIVE_JOURNAL_V1_SPEC);
  ("NativeLandlockPolicyV1", NATIVE_LANDLOCK_POLICY_V1_SPEC);
  ("NativeLandlockPolicyV2", NATIVE_LANDLOCK_POLICY_V2_SPEC);
  ("NativeObservationResultV1", NATIVE_OBSERVATION_RESULT_V1_SPEC);
  ("NativePackagePayloadV1", NATIVE_PACKAGE_PAYLOAD_V1_SPEC);
  ("NativePeerPolicyV1", NATIVE_PEER_POLICY_V1_SPEC);
  ("NativeProvenanceV1", NATIVE_PROVENANCE_V1_SPEC);
  ("NativeReproducibilityRecordV1", NATIVE_REPRODUCIBILITY_RECORD_V1_SPEC);
  ("NativeRevocationLocatorV1", NATIVE_REVOCATION_LOCATOR_V1_SPEC);
  ("NativeRevocationRecoveryV1", NATIVE_REVOCATION_RECOVERY_V1_SPEC);
  ("NativeRollbackAuthorizationV1", NATIVE_ROLLBACK_AUTHORIZATION_V1_SPEC);
  ("NativeRootCeremonyRecordV1", NATIVE_ROOT_CEREMONY_RECORD_V1_SPEC);
  ("NativeRootLocatorV1", NATIVE_ROOT_LOCATOR_V1_SPEC);
  ("NativeRootV1", NATIVE_ROOT_V1_SPEC);
  ("NativeSbomV1", NATIVE_SBOM_V1_SPEC);
  ("NativeSeccompPolicyV1", NATIVE_SECCOMP_POLICY_V1_SPEC);
  ("NativeTimestampV1", NATIVE_TIMESTAMP_V1_SPEC);
  ("NativeToolchainClosureV1", NATIVE_TOOLCHAIN_CLOSURE_V1_SPEC);
  ("NativeTranscriptV1", NATIVE_TRANSCRIPT_V1_SPEC);
  ("NativeTransportIdentityV1", NATIVE_TRANSPORT_IDENTITY_V1_SPEC)].

Definition recursive_schema_spec (name : string) : option RSpec :=
  find_map (fun row : string * RSpec => if bool_decide (row.1 = name) then Some row.2 else None) recursive_specs.

(** ** The registries *)

Module Shape.
Inductive SchemaShape : Set := Unsigned | Envelope | RootEnvelope.
#[global] Instance shape_eq_dec : EqDecision SchemaShape.
Proof. solve_decision. Defined.
End Shape.

(** [struct FieldSpec] holds a name only. *)
Record SchemaSpec : Set := mkSchema {
  spec_name : string;
  spec_schema : string;
  spec_shape : Shape.SchemaShape;
  spec_fields : list string;
  signature_domain : option (list byte);
  maximum_bytes : Z
}.

Definition MAX_ENVELOPE_BYTES : Z := 4 * 1024 * 1024.
Definition MAX_SIGNATURES : Z := 64.

(** [b"...\0"] *)
Definition domain (text : string) : list byte := str_bytes text ++ [x00].

(** The macro [schema!]. *)
Definition schema (name schema : string) (shape : Shape.SchemaShape) (fields : list string) (d : option (list byte))
    : SchemaSpec :=
  mkSchema name schema shape fields d MAX_ENVELOPE_BYTES.

Definition GENESIS_EPOCH : list string :=
  ["schema"; "version"; "trustClass"; "rootId"; "rootKeys"; "rootThreshold"; "participantIds";
   "minimumParticipants"; "requiredOffline"; "requiredWitnesses"; "issuedCounter"; "nonce"].
Definition ROOT : list string :=
  ["schema"; "version"; "trustClass"; "rootId"; "rootEpoch"; "genesisEpochDigest";
   "predecessorRootEnvelopeDigest"; "issuedCounter"; "threshold"; "rootKeys"; "releaseKeys"; "timestampKeys";
   "revocationKeys"; "recoveryKeys"; "b3Keys"; "builderKeys"; "comparerKeys"; "keyEpochs"].
Definition CEREMONY : list string :=
  ["schema"; "version"; "trustClass"; "ceremonyId"; "rootEnvelopeDigest"; "genesisCarrierDigest";
   "participantKeyIds"; "requestDigest"; "transcriptDigest"; "issuedCounter"].
Definition TIMESTAMP : list string :=
  ["schema"; "version"; "trustClass"; "nativeClosureBaseDigest"; "artifactVersion"; "deploymentEpoch";
   "releaseKeyEpoch"; "timestampKeyEpoch"; "issuedCounter"; "expiresCounter";
   "revocationCheckpointEnvelopeDigest"; "revocationSequence"].
Definition ROLLBACK : list string :=
  ["schema"; "version"; "trustClass"; "authorizationId"; "fromDeploymentEnvelopeDigest";
   "fromDeploymentEpoch"; "fromArtifactVersion"; "toDeploymentBaseDigest"; "toDeploymentEpoch";
   "toArtifactVersion"; "minimumArtifactVersion"; "predecessorDigest"; "issuedCounter"; "expiresCounter";
   "nonce"].
Definition RECOVERY : list string :=
  ["schema"; "version"; "trustClass"; "recoveryId"; "authorityId"; "namespace"; "scope"; "expectedB3State";
   "proposedB3StateProjection"; "quarantinedHeadEnvelopeDigests"; "selectedHeadEnvelopeDigest";
   "selectedSequence"; "issuedCounter"; "expiresCounter"; "reasonCode"; "transcriptDigest"].
Definition B3_GENESIS_BASE : list string :=
  ["schema"; "version"; "trustClass"; "authorityId"; "namespace"; "scope"; "headSequence";
   "headEnvelopeDigest"; "deploymentEpoch"; "artifactFloor"; "counter"].
Definition B3_PROFILE : list string :=
  ["schema"; "version"; "trustClass"; "authorityId"; "b0RootEnvelopeDigest"; "genesisBaseDigest";
   "predecessorProfileEnvelopeDigest"; "algorithm"; "keyId"; "keyEpoch"; "publicKey"; "validFromCounter";
   "validUntilCounter"; "transportIdentityDigest"; "maxHeartbeatIntervalMs"].
Definition B3_STATE : list string :=
  ["scopeKey"; "generation"; "rootEpoch"; "rootEnvelopeDigest"; "b3ProfileEnvelopeDigest"; "headSequence";
   "headEnvelopeDigest"; "deploymentEpoch"; "artifactFloor"; "counter"; "quarantined"; "quarantineDigest";
   "consumedAuthorization"].
Definition B3_RECEIPT : list string :=
  ["schema"; "version"; "operationKind"; "authorityId"; "b3ProfileEnvelopeDigest"; "scopeKey";
   "priorStateDigest"; "newStateDigest"; "operationDigest"; "requestNonce"; "generation"; "counter";
   "committed"; "keyId"; "keyEpoch"].
Definition B3_FRAME : list string :=
  ["schema"; "version"; "authorityId"; "b3ProfileEnvelopeDigest"; "scopeKey"; "sessionId"; "frameKind";
   "sequence"; "priorGeneration"; "newGeneration"; "newStateDigest"; "counter"; "requestNonce";
   "priorAckDigest"].
Definition B3_ACK : list string :=
  ["schema"; "version"; "sessionId"; "sequence"; "frameEnvelopeDigest"; "requestNonce"].
Definition AUX_TRANSCRIPT : list string :=
  ["schema"; "version"; "subjectDigest"; "mechanism"; "mechanismVersion"; "capturedCounter"; "resultDigest"].
Definition AUX_CONTROL : list string :=
  ["schema"; "version"; "controlId"; "subjectDigest"; "policyDigest"].
Definition AUX_JOURNAL : list string :=
  ["schema"; "version"; "deploymentId"; "bootId"; "sequence"; "previousJournalDigest"; "entriesDigest"].
Definition AUX_FD_FLAGS : list string :=
  ["schema"; "version"; "flags"; "closeOnExec"; "seals"].
Definition AUX_TRANSPORT : list string :=
  ["schema"; "version"; "transportKind"; "endpointIdentity"; "peerPolicyDigest"].
Definition AUX_INVOCATION : list string :=
  ["schema"; "version"; "buildId"; "commandDigest"; "environmentPolicyDigest"; "inputs"].
Definition AUX_ENVIRONMENT : list string :=
  ["schema"; "version"; "allowedVariables"; "workingDirectoryPolicy"; "networkPolicy"].
Definition AUX_COMPARISON : list string :=
  ["schema"; "version"; "algorithm"; "leftSubjectDigest"; "rightSubjectDigest"; "disagreementsDigest"].
Definition OBSERVATION_RESULT : list string :=
  ["schema"; "version"; "resultCode"; "facts"].
Definition CONTROL_POLICY : list string :=
  ["schema"; "version"; "controlId"; "decisionClass"; "requirements"].
Definition JOURNAL_ENTRIES : list string :=
  ["schema"; "version"; "entries"].
Definition PEER_POLICY : list string :=
  ["schema"; "version"; "requiredUid"; "requiredGid"; "requiredSecurityLabel"].
Definition ARTIFACT_INVENTORY : list string :=
  ["schema"; "version"; "buildId"; "targetTriple"; "variant"; "rows"].
Definition PACKAGE_PAYLOAD : list string :=
  ["schema"; "version"; "buildId"; "targetTriple"; "variant"; "nativeArtifactInventoryDigest"; "members"].
Definition TOOLCHAIN : list string :=
  ["schema"; "version"; "toolchainId"; "targetTriple"; "variant"; "compilerDigest"; "sysrootDigest";
   "linkerDigest"; "vendorDigest"; "containerDigest"; "environmentPolicyDigest"; "entries"].
Definition SBOM : list string :=
  ["schema"; "version"; "buildId"; "targetTriple"; "variant"; "nativeArtifactInventoryDigest"; "packages"].
Definition PROVENANCE : list string :=
  ["schema"; "version"; "builderId"; "builderIdentityEnvelopeDigest"; "buildType"; "buildId"; "targetTriple";
   "variant"; "nativeArtifactInventoryDigest"; "nativePackagePayloadDigest"; "toolchainClosureEnvelopeDigest";
   "invocationDigest"; "materials"; "subjects"; "startedCounter"; "finishedCounter"].
Definition REPRO : list string :=
  ["schema"; "version"; "comparerIdentityEnvelopeDigest"; "buildId"; "targetTriple"; "variant";
   "nativeArtifactInventoryDigest"; "nativePackagePayloadDigest"; "toolchainClosureEnvelopeDigest";
   "builderProvenanceEnvelopeDigests"; "comparisonAlgorithm"; "comparisonDigest"; "disagreements"].
Definition BUILD_IDENTITY : list string :=
  ["schema"; "version"; "trustClass"; "identityKind"; "identityId"; "administrativeDomain";
   "toolchainLineageDigest"; "keyId"; "keyEpoch"; "publicKey"; "validFromCounter"; "validUntilCounter"].
Definition ROOT_LOCATOR : list string :=
  ["schema"; "version"; "rootEpoch"; "rootEnvelopeDigest"].
Definition REVOCATION_LOCATOR : list string :=
  ["schema"; "version"; "sequence"; "revocationEnvelopeDigest"].
Definition BUILD_COMMAND : list string :=
  ["schema"; "version"; "executableDigest"; "arguments"].
Definition IO_MAX : list string :=
  ["schema"; "version"; "defaultPolicy"; "rows"].
Definition LANDLOCK : list string :=
  ["schema"; "version"; "minimumAbi"; "handledFilesystemRights"; "handledNetworkRights"; "handledScopeRights";
   "rules"].
Definition LANDLOCK_V2 : list string :=
  ["schema"; "version"; "minimumAbi"; "effectiveAbi"; "reviewedMaximumAbi"; "handledFilesystemRights";
   "handledNetworkRights"; "handledScopeRights"; "rules"].
Definition SECCOMP : list string :=
  ["schema"; "version"; "architecture"; "defaultAction"; "rules"].
Definition OP_COMMON : list string :=
  ["schema"; "version"; "operationKind"].
Definition OP_GENESIS : list string :=
  ["schema"; "version"; "operationKind"; "genesisBaseDigest"; "b0RootEnvelopeDigest";
   "b3ProfileEnvelopeDigest"; "derivedGenesisStateDigest"; "requestNonce"].
Definition OP_READ : list string :=
  ["schema"; "version"; "operationKind"; "scopeKey"; "requestNonce"].
Definition OP_CAS : list string :=
  ["schema"; "version"; "operationKind"; "scopeKey"; "expectedStateDigest"; "newStateDigest"; "callerPurpose";
   "requestNonce"].
Definition OP_LEASE : list string :=
  ["schema"; "version"; "operationKind"; "scopeKey"; "generation"; "headEnvelopeDigest"; "b3CounterCeiling";
   "requestNonce"].
Definition OP_SUBSCRIBE : list string :=
  ["schema"; "version"; "operationKind"; "scopeKey"; "generation"; "sessionId"; "requestNonce"].

Definition P2_SCHEMAS : list SchemaSpec := [
  schema "NativeBuildIdentityV1" "keep.native-build-identity" Shape.Envelope BUILD_IDENTITY (Some (domain "keep.native-build-identity/v1"));
  schema "NativeArtifactInventoryV1" "keep.native-artifact-inventory" Shape.Unsigned ARTIFACT_INVENTORY None;
  schema "NativePackagePayloadV1" "keep.native-package-payload" Shape.Unsigned PACKAGE_PAYLOAD None;
  schema "NativeToolchainClosureV1" "keep.native-toolchain" Shape.Envelope TOOLCHAIN (Some (domain "keep.native-toolchain/v1"));
  schema "NativeSbomV1" "keep.native-sbom" Shape.Envelope SBOM (Some (domain "keep.native-sbom/v1"));
  schema "NativeProvenanceV1" "keep.native-provenance" Shape.Envelope PROVENANCE (Some (domain "keep.native-provenance/v1"));
  schema "NativeReproducibilityRecordV1" "keep.native-repro" Shape.Envelope REPRO (Some (domain "keep.native-repro/v1"));
  schema "NativeRootLocatorV1" "keep.native-root-locator" Shape.Unsigned ROOT_LOCATOR None;
  schema "NativeRevocationLocatorV1" "keep.native-revocation-locator" Shape.Unsigned REVOCATION_LOCATOR None;
  schema "NativeGenesisEpochV1" "keep.native-genesis-epoch" Shape.Unsigned GENESIS_EPOCH None;
  schema "NativeRootV1" "keep.native-root" Shape.RootEnvelope ROOT None;
  schema "NativeRootCeremonyRecordV1" "keep.native-root-ceremony" Shape.Envelope CEREMONY (Some (domain "keep.native-root-ceremony/v1"));
  schema "NativeTimestampV1" "keep.native-timestamp" Shape.Envelope TIMESTAMP (Some (domain "keep.native-timestamp/v1"));
  schema "NativeRollbackAuthorizationV1" "keep.native-rollback" Shape.Envelope ROLLBACK (Some (domain "keep.native-rollback/v1"));
  schema "NativeRevocationRecoveryV1" "keep.native-revocation-recovery" Shape.Envelope RECOVERY (Some (domain "keep.native-revocation-recovery/v1"));
  schema "NativeB3GenesisBaseV1" "keep.native-b3-genesis-base" Shape.Unsigned B3_GENESIS_BASE None;
  schema "B3StateV1" "keep.native-b3-state" Shape.Unsigned B3_STATE None;
  schema "NativeB3ProfileV1" "keep.native-b3-profile" Shape.Envelope B3_PROFILE (Some (domain "keep.native-b3-profile/v1"));
  schema "B3ReceiptV1" "keep.native-b3-receipt" Shape.Envelope B3_RECEIPT (Some (domain "keep.native-b3-receipt/v1"));
  schema "B3InvalidationFrameV1" "keep.native-b3-invalidation" Shape.Envelope B3_FRAME (Some (domain "keep.native-b3-invalidation/v1"));
  schema "B3InvalidationAckV1" "keep.native-b3-invalidation-ack" Shape.Unsigned B3_ACK None;
  schema "NativeTranscriptV1" "keep.native-transcript" Shape.Unsigned AUX_TRANSCRIPT None;
  schema "NativeControlV1" "keep.native-control" Shape.Unsigned AUX_CONTROL None;
  schema "NativeJournalV1" "keep.native-journal" Shape.Unsigned AUX_JOURNAL None;
  schema "NativeFdFlagsV1" "keep.native-fd-flags" Shape.Unsigned AUX_FD_FLAGS None;
  schema "NativeTransportIdentityV1" "keep.native-transport-identity" Shape.Unsigned AUX_TRANSPORT None;
  schema "NativeInvocationV1" "keep.native-invocation" Shape.Unsigned AUX_INVOCATION None;
  schema "NativeEnvironmentPolicyV1" "keep.native-environment-policy" Shape.Unsigned AUX_ENVIRONMENT None;
  schema "NativeComparisonV1" "keep.native-comparison" Shape.Unsigned AUX_COMPARISON None;
  schema "NativeObservationResultV1" "keep.native-observation-result" Shape.Unsigned OBSERVATION_RESULT None;
  schema "NativeControlPolicyV1" "keep.native-control-policy" Shape.Unsigned CONTROL_POLICY None;
  schema "NativeJournalEntriesV1" "keep.native-journal-entries" Shape.Unsigned JOURNAL_ENTRIES None;
  schema "NativePeerPolicyV1" "keep.native-peer-policy" Shape.Unsigned PEER_POLICY None;
  schema "NativeBuildCommandV1" "keep.native-build-command" Shape.Unsigned BUILD_COMMAND None;
  schema "NativeIoMaxV1" "keep.native-io-max" Shape.Unsigned IO_MAX None;
  schema "NativeLandlockPolicyV1" "keep.native-landlock-policy" Shape.Unsigned LANDLOCK None;
  schema "NativeLandlockPolicyV2" "keep.native-landlock-policy" Shape.Unsigned LANDLOCK_V2 None;
  schema "NativeSeccompPolicyV1" "keep.native-seccomp-policy" Shape.Unsigned SECCOMP None].

Definition B3_OPERATION_SCHEMAS : list SchemaSpec := [
  schema "B3GenesisOperationV1" "keep.native-b3-operation" Shape.Unsigned OP_GENESIS (Some (domain "keep.native-b3-genesis-operation/v1"));
  schema "B3ReadOperationV1" "keep.native-b3-operation" Shape.Unsigned OP_READ (Some (domain "keep.native-b3-read/v1"));
  schema "B3CasOperationV1" "keep.native-b3-operation" Shape.Unsigned OP_CAS (Some (domain "keep.native-b3-cas/v1"));
  schema "B3LeaseOperationV1" "keep.native-b3-operation" Shape.Unsigned OP_LEASE (Some (domain "keep.native-b3-lease/v1"));
  schema "B3SubscribeOperationV1" "keep.native-b3-operation" Shape.Unsigned OP_SUBSCRIBE (Some (domain "keep.native-b3-subscribe/v1"))].

Definition all_schemas : list SchemaSpec := (P2_SCHEMAS ++ B3_OPERATION_SCHEMAS)%list.
