(* ===== verification/P2Validators.v ===== *)
(** * P2 document validators ([protocol/src/p2_schema.rs])

    The checks that [validate_special] adds to the recursive schema of a
    document.  [unreachable!()] of the code is [Err Panic]. *)

From S2P Require Import Prelude Cbor Paths Schema P2Specs.

(** ** Shared checks *)

(** [fn exact] and [fn exact_keys] differ in their message only. *)
Definition fields_exact (message : string) (value : Value) (keys : list string) : P2 unit :=
  let? rows := entries value in
  throw_if negb (len rows =? len keys)
           || existsb (fun key => bool_decide (field value key = None)) keys
    with Error message ;;
  Ok tt.
Definition exact (value : Value) (specs : list string) : P2 unit :=
  fields_exact "P2 schema fields are not exact" value specs.
Definition exact_keys (value : Value) (keys : list string) : P2 unit :=
  fields_exact "P2 nested row fields not exact" value keys.

Definition require (value : Value) (name expected : string) : P2 unit :=
  let? v := get value name in
  let? text := text v in
  if bool_decide (text = expected) then Ok tt else Err (Error "P2 discriminator mismatch").
Definition require_version (value : Value) (expected : Z) : P2 unit :=
  let? v := get value "version" in
  match v with
  | Unsigned version => if version =? expected then Ok tt else Err (Error "P2 version mismatch")
  | _ => Err (Error "P2 version mismatch")
  end.
Definition uint_field (value : Value) (name : string) : P2 Z :=
  let? v := get value name in
  match v with
  | Unsigned v => Ok v
  | _ => Err (Error "P2 uint field malformed")
  end.
(** [match field(value, name)? { Value::Unsigned(v) => *v, _ => unreachable!() }] *)
Definition uint_or_unreachable (value : Value) (name : string) : P2 Z :=
  let? v := get value name in
  match v with
  | Unsigned v => Ok v
  | _ => Err Panic
  end.
(** [match field(value, name)? { Value::Array(rows) => rows, _ => unreachable!() }] *)
Definition array_or_unreachable (value : Value) (name : string) : P2 (list Value) :=
  let? v := get value name in
  match v with
  | Array rows => Ok rows
  | _ => Err Panic
  end.
Definition text_field (value : Value) (name : string) : P2 string :=
  let? v := get value name in text v.
Definition identifier_field (value : Value) (name : string) : P2 string :=
  let? v := get value name in identifier v.
Definition digest_field (value : Value) (name : string) : P2 unit :=
  let? text := text_field value name in
  let? _ := digest text in
  Ok tt.
(** [matches!(field(value, name)?, Value::Unsigned(_))] *)
Definition is_unsigned (v : Value) : bool := match v with Unsigned _ => true | _ => false end.
Definition is_null (v : Value) : bool := match v with Null => true | _ => false end.
Definition is_bool (v : Value) : bool := match v with Bool _ => true | _ => false end.
Definition bytes_of_length (n : Z) (v : Value) : bool := match v with Bytes b => len b =? n | _ => false end.

(** [prior.is_some_and(|p| p >= key)] *)
Definition not_after (prior : option string) (key : string) : bool :=
  is_some_and prior (fun p => negb (str_ltb p key)).

Definition validate_interval (value : Value) (from until : string) (strict : bool) : P2 unit :=
  let? a := uint_field value from in
  let? b := uint_field value until in
  throw_if (strict && (b <=? a)) || (negb strict && (b <? a)) with Error "P2 counter interval invalid" ;;
  Ok tt.

(** ** Signatures *)

Definition SIGNATURE_KEYS : list string := ["keyId"; "algorithm"; "keyEpoch"; "signature"]%string.
Definition ROLE_SIGNATURE_KEYS : list string :=
  ["keyId"; "algorithm"; "keyEpoch"; "authorizationRole"; "signature"]%string.

(** One turn of the loop over the rows; the state is [prior]. *)
Definition validate_signature_row (role_tagged : bool) (prior : option string) (row : Value) : P2 (option string) :=
  let? _ := fields_exact "P2 signature fields not exact" row (if role_tagged then ROLE_SIGNATURE_KEYS else SIGNATURE_KEYS) in
  let? key := identifier_field row "keyId" in
  throw_if not_after prior key with Error "P2 signatures not sorted unique" ;;
  let? _ := require row "algorithm" "ed25519" in
  let? v := get row "keyEpoch" in
  throw_if negb (is_unsigned v) with Error "P2 signature epoch malformed" ;;
  let? _ :=
    if role_tagged then
      let? role := text_field row "authorizationRole" in
      throw_if negb (contains ["root"; "recovery"]%string role) with Error "P2 authorization role malformed" ;;
      Ok tt
    else Ok tt in
  let? v := get row "signature" in
  throw_if negb (bytes_of_length 64 v) with Error "P2 signature bytes malformed" ;;
  Ok (Some key).
Definition validate_signature_rows (value : Value) (role_tagged : bool) : P2 unit :=
  match value with
  | Array rows =>
      throw_if bool_decide (rows = []) || (MAX_SIGNATURES <? len rows) with Error "P2 signatures malformed" ;;
      let? _ := res_fold (validate_signature_row role_tagged) rows None in
      Ok tt
  | _ => Err (Error "P2 signatures malformed")
  end.

Definition validate_signer_namespace (payload signatures : Value) : P2 unit :=
  let? class := text_field payload "trustClass" in
  let development := bool_decide (class = "development"%string) in
  match signatures with
  | Array rows =>
      for_each (fun row =>
        let? key_id := identifier_field row "keyId" in
        throw_if negb (eqb development (starts_with "development." key_id))
          with Error "P2 signer key namespace does not match trust class" ;;
        Ok tt) rows
  | _ => Err (Error "P2 signatures malformed")
  end.

(** ** Roots and keys *)

Definition SCOPE_KEYS : list string := ["authorityId"; "namespace"; "scope"; "genesisRootDigest"]%string.
Definition validate_scope (value : Value) : P2 unit :=
  let? _ := fields_exact "P2 scope fields not exact" value SCOPE_KEYS in
  let? _ := for_each (fun key => let? _ := identifier_field value key in Ok tt)
              ["authorityId"; "namespace"; "scope"]%string in
  digest_field value "genesisRootDigest".

Definition KEY_ROW_KEYS : list string :=
  ["keyId"; "algorithm"; "publicKey"; "keyEpoch"; "validFromCounter"; "validUntilCounter"]%string.

(** One turn of the loop over the rows; the state is [prior] and [global]. *)
Definition validate_key_row (st : option string * gset string) (row : Value) : P2 (option string * gset string) :=
  let '(prior, global) := st in
  let? _ := exact_keys row KEY_ROW_KEYS in
  let? key := identifier_field row "keyId" in
  throw_if starts_with "development." key || not_after prior key || bool_decide (key ∈ global)
    with Error "P2 key identity duplicate/order" ;;
  let? _ := require row "algorithm" "ed25519" in
  let? v := get row "publicKey" in
  throw_if negb (bytes_of_length 32 v) with Error "P2 public key length" ;;
  let? _ := validate_interval row "validFromCounter" "validUntilCounter" false in
  Ok (Some key, {[key]} ∪ global).

(** The count of the rows, and [global] with their key ids. *)
Definition validate_key_rows (value : Value) (name : string) (global : gset string) : P2 (Z * gset string) :=
  let? v := get value name in
  match v with
  | Array rows =>
      throw_if bool_decide (rows = []) || (32 <? len rows) with Error "P2 key cardinality" ;;
      let? st := res_fold validate_key_row rows (None, global) in
      Ok (len rows, st.2)
  | _ => Err (Error "P2 key cardinality")
  end.

(** [let id = ..?; if prior.is_some_and(..) { .. } prior = Some(id);] *)
Definition sorted_step (read : Value -> P2 string) (message : string) (prior : option string) (v : Value)
    : P2 (option string) :=
  let? id := read v in
  throw_if not_after prior id with Error message ;;
  Ok (Some id).

Definition validate_genesis_epoch (value : Value) : P2 unit :=
  let? _ := require value "trustClass" "production" in
  let? (count, _) := validate_key_rows value "rootKeys" ∅ in
  let? threshold := uint_field value "rootThreshold" in
  throw_if (threshold =? 0) || (count <? threshold) with Error "P2 genesis root threshold" ;;
  let? v := get value "participantIds" in
  let? participants :=
    match v with
    | Array ((_ :: _) as participants) => Ok participants
    | _ => Err (Error "P2 genesis participants empty")
    end in
  let? _ := res_fold (sorted_step identifier "P2 participants not sorted unique") participants None in
  let? minimum := uint_field value "minimumParticipants" in
  throw_if (minimum =? 0) || (len participants <? minimum) with Error "P2 participant policy invalid" ;;
  let? witnesses := uint_field value "requiredWitnesses" in
  throw_if len participants <? witnesses with Error "P2 participant policy invalid" ;;
  Ok tt.

Definition ROLES : list string :=
  ["root"; "release"; "timestamp"; "revocation"; "recovery"; "b3"; "builder"; "comparer"]%string.
Definition SORTED_ROLES : list string :=
  ["b3"; "builder"; "comparer"; "recovery"; "release"; "revocation"; "root"; "timestamp"]%string.

(** One turn of [for role in roles]; the state is [global]. *)
Definition validate_role (value threshold : Value) (global : gset string) (role : string) : P2 (gset string) :=
  let? (count, global) := validate_key_rows value (role +:+ "Keys") global in
  let? n := uint_field threshold role in
  throw_if (n =? 0) || (count <? n) with Error "P2 root threshold invalid" ;;
  Ok global.
Definition validate_epoch (row : Value * string) : P2 unit :=
  let? _ := exact_keys row.1 ["role"; "minimumEpoch"]%string in
  let? _ := require row.1 "role" row.2 in
  let? _ := uint_field row.1 "minimumEpoch" in
  Ok tt.
Definition validate_root (value : Value) : P2 unit :=
  let? _ := require value "trustClass" "production" in
  let? epoch := uint_field value "rootEpoch" in
  let? predecessor := get value "predecessorRootEnvelopeDigest" in
  throw_if negb (eqb (epoch =? 0) (is_null predecessor)) with Error "P2 root predecessor equation" ;;
  let? threshold := get value "threshold" in
  let? _ := exact_keys threshold ROLES in
  let? global := res_fold (validate_role value threshold) ROLES ∅ in
  throw_if 256 <? Z.of_nat (base.size global) with Error "P2 combined keys bound" ;;
  let? v := get value "keyEpochs" in
  match v with
  | Array epochs =>
      throw_if negb (len epochs =? 8) with Error "P2 key epochs cardinality" ;;
      for_each validate_epoch (zip epochs SORTED_ROLES)
  | _ => Err (Error "P2 key epochs cardinality")
  end.

Definition validate_rollback (value : Value) : P2 unit :=
  let? _ := validate_interval value "issuedCounter" "expiresCounter" true in
  let? to := uint_field value "toDeploymentEpoch" in
  let? from := uint_field value "fromDeploymentEpoch" in
  throw_if to <=? from with Error "P2 rollback equation" ;;
  let? to := uint_field value "toArtifactVersion" in
  let? minimum := uint_field value "minimumArtifactVersion" in
  throw_if to <? minimum with Error "P2 rollback equation" ;;
  Ok tt.

(** ** B3 *)

Definition STATE_PROJECTION_KEYS : list string :=
  ["scopeKey"; "rootEpoch"; "rootEnvelopeDigest"; "b3ProfileEnvelopeDigest"; "headSequence"; "headEnvelopeDigest";
   "deploymentEpoch"; "artifactFloor"; "counter"; "quarantined"; "quarantineDigest"]%string.

Definition validate_state_projection (value : Value) : P2 unit :=
  let? v := get value "scopeKey" in
  let? _ := validate_scope v in
  let? _ := for_each (fun name => let? _ := uint_field value name in Ok tt)
              ["rootEpoch"; "headSequence"; "deploymentEpoch"; "artifactFloor"; "counter"]%string in
  let? _ := for_each (digest_field value)
              ["rootEnvelopeDigest"; "b3ProfileEnvelopeDigest"; "headEnvelopeDigest"; "quarantineDigest"]%string in
  let? v := get value "quarantined" in
  throw_if negb (is_bool v) with Error "P2 projected quarantine flag malformed" ;;
  Ok tt.

Definition validate_consumed (value : Value) : P2 unit :=
  if is_null value then Ok tt
  else
    let? _ := exact_keys value ["kind"; "authorizationEnvelopeDigest"]%string in
    let? kind := text_field value "kind" in
    throw_if negb (contains ["rollback"; "recovery"]%string kind) with Error "P2 consumed authorization kind" ;;
    digest_field value "authorizationEnvelopeDigest".

Definition validate_b3_state (value : Value) : P2 unit :=
  let? _ := exact value B3_STATE in
  let? v := get value "scopeKey" in
  let? _ := validate_scope v in
  let? v := get value "consumedAuthorization" in
  validate_consumed v.

(** [let digest = text(head)?; parse_digest(digest)?;] *)
Definition read_digest (v : Value) : P2 string :=
  let? t := text v in
  let? _ := digest t in
  Ok t.

Definition validate_recovery (value : Value) : P2 unit :=
  let? _ := validate_interval value "issuedCounter" "expiresCounter" true in
  let? expected := get value "expectedB3State" in
  let? _ := validate_b3_state expected in
  let? proposed := get value "proposedB3StateProjection" in
  let? _ := exact_keys proposed STATE_PROJECTION_KEYS in
  let? _ := validate_state_projection proposed in
  let? v := get value "quarantinedHeadEnvelopeDigests" in
  let? heads :=
    match v with
    | Array ((_ :: _) as heads) => Ok heads
    | _ => Err (Error "P2 recovery heads empty")
    end in
  let? _ := res_fold (sorted_step read_digest "P2 recovery heads order") heads None in
  let? selected := uint_field value "selectedSequence" in
  let? head := uint_field expected "headSequence" in
  throw_if selected <=? head with Error "P2 recovery sequence not advanced" ;;
  Ok tt.

Definition validate_b3_profile (value : Value) : P2 unit :=
  let? _ := require value "algorithm" "ed25519" in
  let? _ := validate_interval value "validFromCounter" "validUntilCounter" false in
  let? heartbeat := uint_field value "maxHeartbeatIntervalMs" in
  throw_if (heartbeat =? 0) || (1000 <? heartbeat) with Error "P2 heartbeat interval bound" ;;
  Ok tt.

Definition RECEIPT_KINDS : list string :=
  ["genesis"; "read"; "compare-and-advance"; "validate-lease"; "subscribe-invalidation"]%string.
Definition validate_b3_receipt (value : Value) : P2 unit :=
  let? v := get value "scopeKey" in
  let? _ := validate_scope v in
  let? kind := text_field value "operationKind" in
  throw_if negb (contains RECEIPT_KINDS kind) with Error "P2 receipt kind unknown" ;;
  let? v := get value "committed" in
  let committed := match v with Bool true => true | _ => false end in
  throw_if negb (eqb committed (bool_decide (kind = "compare-and-advance"%string)))
    with Error "P2 receipt commit equation" ;;
  if committed then Ok tt
  else
    let? prior := get value "priorStateDigest" in
    let? new := get value "newStateDigest" in
    throw_if negb (value_eqb prior new) with Error "P2 readonly receipt mutated" ;;
    Ok tt.

Definition validate_b3_ack (value : Value) : P2 unit :=
  let? sequence := uint_field value "sequence" in
  throw_if sequence =? 0 with Error "P2 invalidation ACK sequence zero" ;;
  Ok tt.

Definition validate_frame (value : Value) : P2 unit :=
  let? kind := text_field value "frameKind" in
  let? prior := uint_or_unreachable value "priorGeneration" in
  let? new := uint_or_unreachable value "newGeneration" in
  let? v := get value "sequence" in
  throw_if negb match v with Unsigned n => 1 <=? n | _ => false end
           || negb ((bool_decide (kind = "heartbeat"%string) && (prior =? new))
                    || (bool_decide (kind = "invalidated"%string) && (prior <? new)))
    with Error "P2 invalidation frame equation" ;;
  let? sequence := uint_field value "sequence" in
  let? ack := get value "priorAckDigest" in
  throw_if negb (eqb (sequence =? 1) (is_null ack)) with Error "P2 invalidation ACK chain equation" ;;
  Ok tt.

(** [match purpose { .. }] *)
Definition purpose_kind (purpose : string) : option string :=
  find_map (fun row : string * string => if bool_decide (row.1 = purpose) then Some row.2 else None)
    [("root-update", "root-update"); ("revocation-advance", "revocation"); ("rollback", "rollback");
     ("recovery", "recovery"); ("deployment-advance", "deployment")]%string.
Definition validate_caller_purpose (value : Value) : P2 unit :=
  let? _ := fields_exact "P2 caller purpose fields not exact" value ["purpose"; "authorization"]%string in
  let? purpose := text_field value "purpose" in
  let? authorization := get value "authorization" in
  let? _ := fields_exact "P2 caller authorization fields not exact" authorization
              ["kind"; "authorizationEnvelopeDigest"]%string in
  let? kind := text_field authorization "kind" in
  let? expected := ok_or (purpose_kind purpose) (Error "P2 caller purpose unknown") in
  throw_if negb (bool_decide (kind = expected)) with Error "P2 caller purpose/kind mismatch" ;;
  digest_field authorization "authorizationEnvelopeDigest".

(** ** Builds *)

Definition validate_build_identity (value : Value) : P2 unit :=
  let? kind := text_field value "identityKind" in
  throw_if negb (contains ["builder"; "comparer"]%string kind) with Error "P2 build identity kind unknown" ;;
  let? from := uint_or_unreachable value "validFromCounter" in
  let? until := uint_or_unreachable value "validUntilCounter" in
  throw_if until <? from with Error "P2 build identity validity inverted" ;;
  Ok tt.

(** [text.split_once(':')] *)
Fixpoint split_once_bytes (sep : byte) (bs : list byte) : option (list byte * list byte) :=
  match bs with
  | [] => None
  | b :: bs =>
      if bool_decide (b = sep) then Some ([], bs)
      else '(l, r) ← split_once_bytes sep bs; Some (b :: l, r)
  end.
Definition split_once (sep : byte) (text : string) : option (string * string) :=
  '(l, r) ← split_once_bytes sep (str_bytes text); Some (str_of_bytes l, str_of_bytes r).

Definition URI_SCHEMES : list string := ["keep-artifact"; "keep-source"; "oci"]%string.
(** [matches!(uri.split_once(':'), Some((scheme, suffix)) if !suffix.is_empty())] *)
Definition uri_grammar (uri : string) : bool :=
  match split_once x3a uri with
  | Some (scheme, suffix) => contains URI_SCHEMES scheme && negb (bool_decide (suffix = ""%string))
  | None => false
  end.

Definition DIGEST_TYPES : list string := ["ArtifactDigest"; "SourceDigest"; "OciBlobDigest"; "SubjectDigest"]%string.
Definition expected_digest_type (subjects : bool) (uri : string) : P2 string :=
  if subjects then Ok "SubjectDigest"%string
  else
    let scheme := match split_once x3a uri with Some (scheme, _) => scheme | None => ""%string end in
    if bool_decide (scheme = "keep-artifact"%string) then Ok "ArtifactDigest"%string
    else if bool_decide (scheme = "keep-source"%string) then Ok "SourceDigest"%string
    else if bool_decide (scheme = "oci"%string) then Ok "OciBlobDigest"%string
    else Err Panic.

(** One turn of the loop over the rows; the state is [prior]. *)
Definition validate_typed_uri_row (subjects : bool) (prior : option string) (row : Value) : P2 (option string) :=
  let? _ := exact_keys row ["uri"; "digestType"; "digest"]%string in
  let? uri := text_field row "uri" in
  throw_if negb (uri_grammar uri) with Error "P2 typed URI grammar" ;;
  throw_if not_after prior uri with Error "P2 typed URI rows not sorted unique" ;;
  let? kind := identifier_field row "digestType" in
  throw_if negb (contains DIGEST_TYPES kind) with Error "P2 digest type unknown" ;;
  let? expected := expected_digest_type subjects uri in
  throw_if negb (bool_decide (kind = expected)) with Error "P2 provenance URI/digest type mismatch" ;;
  let? _ := digest_field row "digest" in
  Ok (Some uri).
Definition validate_typed_uri_rows (value : Value) (name : string) (maximum : Z) (subjects : bool) : P2 unit :=
  let? v := get value name in
  match v with
  | Array rows =>
      throw_if maximum <? len rows with Error "P2 typed URI bound" ;;
      let? _ := res_fold (validate_typed_uri_row subjects) rows None in
      Ok tt
  | _ => Err (Error "P2 typed URI bound")
  end.

Definition validate_provenance (value : Value) : P2 unit :=
  let? _ := validate_typed_uri_rows value "materials" 8192 false in
  let? _ := validate_typed_uri_rows value "subjects" 4096 true in
  let? started := uint_or_unreachable value "startedCounter" in
  let? finished := uint_or_unreachable value "finishedCounter" in
  throw_if finished <? started with Error "P2 provenance counters inverted" ;;
  Ok tt.

Definition validate_repro (value : Value) : P2 unit :=
  let? _ := require value "comparisonAlgorithm" "sha256-byte-for-byte/v1" in
  let? v := get value "builderProvenanceEnvelopeDigests" in
  let? builders :=
    match v with
    | Array builders => if 2 <=? len builders then Ok builders else Err (Error "P2 repro requires two builders")
    | _ => Err (Error "P2 repro requires two builders")
    end in
  let? _ := res_fold (sorted_step read_digest "P2 builder provenances not sorted unique") builders None in
  let? v := get value "disagreements" in
  match v with
  | Array [] => Ok tt
  | _ => Err (Error "P2 official disagreements nonempty")
  end.

Definition validate_inventory_row (prior : option string) (row : Value) : P2 (option string) :=
  let? _ := exact_keys row ["artifactId"; "kind"; "digest"; "size"; "mode"; "targetTriple"; "variant"; "releaseMember"]%string in
  let? id := identifier_field row "artifactId" in
  throw_if not_after prior id with Error "P2 inventory rows not sorted unique" ;;
  let? kind := text_field row "kind" in
  throw_if negb (contains ["helper"; "trampoline"; "prober"; "provisioner"; "role"; "policy"; "evidence-schema"]%string kind)
    with Error "P2 inventory enum unknown" ;;
  let? mode := text_field row "mode" in
  throw_if negb (contains ["0444"; "0555"]%string mode) with Error "P2 inventory enum unknown" ;;
  let? _ := digest_field row "digest" in
  let? size := get row "size" in
  throw_if negb (is_unsigned size) with Error "P2 inventory row type mismatch" ;;
  let? member := get row "releaseMember" in
  throw_if negb (is_bool member) with Error "P2 inventory row type mismatch" ;;
  let? _ := identifier_field row "targetTriple" in
  let? _ := identifier_field row "variant" in
  Ok (Some id).
Definition validate_inventory (value : Value) : P2 unit :=
  let? rows := array_or_unreachable value "rows" in
  let? _ := res_fold validate_inventory_row rows None in
  Ok tt.

(** [p >= key] on pairs of texts. *)
Definition pair_before (p key : string * string) : bool :=
  match str_cmp p.1 key.1 with
  | Eq => str_ltb p.2 key.2
  | c => is_lt c
  end.
Definition package_path_bad (path : string) : bool :=
  starts_with "/" path || contains_double_slash path
  || existsb (fun part : string => contains [""; "."; ".."]%string part) (split x2f path).

Definition validate_package_row (prior : option (string * string)) (row : Value) : P2 (option (string * string)) :=
  let? _ := exact_keys row
    ["installRoot"; "relativePath"; "digest"; "size"; "mode"; "ownerUid"; "ownerGid"; "objectType"]%string in
  let? root := text_field row "installRoot" in
  throw_if negb (contains ["artifacts"; "policy"; "evidence-schema"; "inventory"; "toolchain"]%string root)
    with Error "P2 package root unknown" ;;
  let? path := text_field row "relativePath" in
  throw_if package_path_bad path with Error "P2 package path malformed" ;;
  let key := (root, path) in
  throw_if is_some_and prior (fun p => negb (pair_before p key)) with Error "P2 package rows not sorted unique" ;;
  let? _ := digest_field row "digest" in
  let? object := text_field row "objectType" in
  throw_if negb (contains ["regular-executable"; "regular-data"]%string object) with Error "P2 package row type mismatch" ;;
  let? _ := for_each (fun name =>
              let? v := get row name in
              throw_if negb (is_unsigned v) with Error "P2 package row type mismatch" ;;
              Ok tt) ["size"; "ownerUid"; "ownerGid"]%string in
  Ok (Some key).
Definition validate_package (value : Value) : P2 unit :=
  let? rows := array_or_unreachable value "members" in
  let? _ := res_fold validate_package_row rows None in
  Ok tt.

Definition validate_toolchain_row (prior : option string) (row : Value) : P2 (option string) :=
  let? _ := exact_keys row ["path"; "size"; "digest"; "kind"]%string in
  let? path := text_field row "path" in
  throw_if not_after prior path with Error "P2 toolchain rows not sorted unique" ;;
  let? _ := digest_field row "digest" in
  let? kind := text_field row "kind" in
  throw_if negb (contains ["compiler"; "rustlib"; "linker"; "sysroot"; "vendor-source"; "container-manifest"; "build-tool"]%string kind)
    with Error "P2 toolchain row malformed" ;;
  let? size := get row "size" in
  throw_if negb (is_unsigned size) with Error "P2 toolchain row malformed" ;;
  Ok (Some path).
Definition validate_toolchain (value : Value) : P2 unit :=
  let? rows := array_or_unreachable value "entries" in
  let? _ := res_fold validate_toolchain_row rows None in
  Ok tt.

Definition validate_sbom_row (prior : option string) (row : Value) : P2 (option string) :=
  let? _ := exact_keys row
    ["purl"; "name"; "version"; "license"; "sourceDigest"; "checksumAlgorithm"; "checksum"]%string in
  let? purl := text_field row "purl" in
  throw_if not_after prior purl with Error "P2 SBOM rows not sorted unique" ;;
  let? _ := require row "checksumAlgorithm" "sha256" in
  let? _ := digest_field row "sourceDigest" in
  let? _ := digest_field row "checksum" in
  Ok (Some purl).
Definition validate_sbom (value : Value) : P2 unit :=
  let? rows := array_or_unreachable value "packages" in
  let? _ := res_fold validate_sbom_row rows None in
  Ok tt.
