(* ===== verification/P2Policies.v ===== *)
(** * P2 policy and record validators ([protocol/src/p2_schema.rs])

    Descriptor, environment, I/O, Landlock and seccomp policies, journals,
    invocations, observations and peer policies. *)

From S2P Require Import Prelude Cbor Paths Schema P2Specs P2Validators.

(** [fn sorted_text_array]: the texts, in order. *)
Definition sorted_text_step (allowed : list string) (out : list string) (row : Value) : P2 (list string) :=
  let? text := text row in
  throw_if negb (contains allowed text) || not_after (last out) text
    with Error "P2 array not sorted unique or enum unknown" ;;
  Ok (out ++ [text]).
Definition sorted_text_array (value : Value) (allowed : list string) : P2 (list string) :=
  match value with
  | Array rows => res_fold (sorted_text_step allowed) rows []
  | _ => Err (Error "P2 array malformed")
  end.
Definition sorted_text_field (value : Value) (name : string) (allowed : list string) : P2 (list string) :=
  let? v := get value name in sorted_text_array v allowed.

Definition REQUIREMENTS : list string :=
  ["signature-valid"; "threshold-met"; "content-address-match"; "subject-match"; "fresh"; "not-revoked";
   "floor-satisfied"; "lease-active"; "isolation-measured"]%string.
Definition validate_control_policy (value : Value) : P2 unit :=
  let? class := text_field value "decisionClass" in
  throw_if negb (contains ["permit"; "deny"; "measure-only"]%string class) with Error "P2 control decision class unknown" ;;
  let? _ := sorted_text_field value "requirements" REQUIREMENTS in
  Ok tt.

(** One turn of the loop over the entries; [p + 1] panics on overflow in a
    checked build and wraps in a release build: [overflow] says which. *)
Definition successor (overflow : bool) (p : Z) : P2 Z :=
  if p <? u64_max then Ok (p + 1) else if overflow then Err Panic else Ok 0.
Definition validate_journal_entry (overflow : bool) (prior : option Z) (row : Value) : P2 (option Z) :=
  let? _ := fields_exact "P2 journal entry fields not exact" row
              ["sequence"; "eventCode"; "subjectDigest"; "counter"]%string in
  let? v := get row "sequence" in
  let? sequence :=
    match v with Unsigned v => Ok v | _ => Err (Error "P2 journal sequence malformed") end in
  let? _ :=
    match prior with
    | Some p =>
        let? next := successor overflow p in
        throw_if negb (sequence =? next) with Error "P2 journal sequence not consecutive" ;;
        Ok tt
    | None => Ok tt
    end in
  let? _ := identifier_field row "eventCode" in
  let? _ := digest_field row "subjectDigest" in
  let? v := get row "counter" in
  throw_if negb (is_unsigned v) with Error "P2 journal counter malformed" ;;
  Ok (Some sequence).
Definition validate_journal_entries (overflow : bool) (value : Value) : P2 unit :=
  let? rows := array_or_unreachable value "entries" in
  let? _ := res_fold (validate_journal_entry overflow) rows None in
  Ok tt.

Definition validate_transport (value : Value) : P2 unit :=
  let? kind := text_field value "transportKind" in
  throw_if negb (contains ["unix-seqpacket"; "vsock"]%string kind) with Error "P2 transport kind unknown" ;;
  Ok tt.

Definition validate_invocation_row (prior : option string) (row : Value) : P2 (option string) :=
  let? _ := fields_exact "P2 invocation input fields not exact" row ["uri"; "artifactDigest"]%string in
  let? uri := text_field row "uri" in
  throw_if negb (uri_grammar uri) with Error "P2 invocation URI grammar" ;;
  throw_if not_after prior uri with Error "P2 invocation inputs not sorted unique" ;;
  let? _ := digest_field row "artifactDigest" in
  Ok (Some uri).
Definition validate_invocation (value : Value) : P2 unit :=
  let? rows := array_or_unreachable value "inputs" in
  let? _ := res_fold validate_invocation_row rows None in
  Ok tt.

Definition validate_comparison (value : Value) : P2 unit :=
  let? _ := require value "algorithm" "sha256-byte-for-byte/v1" in
  let? lhs := get value "leftSubjectDigest" in
  let? rhs := get value "rightSubjectDigest" in
  throw_if value_eqb lhs rhs with Error "P2 comparison subjects identical" ;;
  Ok tt.

Definition validate_peer_policy (value : Value) : P2 unit :=
  throw_if forallb (fun key => match field value key with Some Null => true | _ => false end)
             ["requiredUid"; "requiredGid"; "requiredSecurityLabel"]%string
    with Error "P2 peer policy has no constraint" ;;
  Ok tt.

Definition validate_fact (prior : option string) (fact : Value) : P2 (option string) :=
  let? _ := fields_exact "P2 fact fields not exact" fact ["factId"; "valueType"; "value"]%string in
  let? id := identifier_field fact "factId" in
  throw_if not_after prior id with Error "P2 facts not sorted unique" ;;
  let? kind := text_field fact "valueType" in
  let? _ :=
    if bool_decide (kind = "identifier"%string) then
      let? _ := identifier_field fact "value" in Ok tt
    else if bool_decide (kind = "uint64"%string) then
      let? v := get fact "value" in
      if is_unsigned v then Ok tt else Err (Error "P2 fact tagged value mismatch")
    else if bool_decide (kind = "boolean"%string) then
      let? v := get fact "value" in
      if is_bool v then Ok tt else Err (Error "P2 fact tagged value mismatch")
    else Err (Error "P2 fact tagged value mismatch") in
  Ok (Some id).
Definition validate_observation (value : Value) : P2 unit :=
  let? code := text_field value "resultCode" in
  throw_if negb (contains ["pass"; "fail"; "inconclusive"]%string code) with Error "P2 observation result unknown" ;;
  let? facts := array_or_unreachable value "facts" in
  let? _ := res_fold validate_fact facts None in
  Ok tt.

Definition FLAGS : list string := ["O_RDONLY"; "O_CLOEXEC"; "O_NOFOLLOW"; "O_PATH"; "O_DIRECTORY"]%string.
Definition SEALS : list string := ["F_SEAL_WRITE"; "F_SEAL_SHRINK"; "F_SEAL_GROW"; "F_SEAL_EXEC"; "F_SEAL_SEAL"]%string.
Definition validate_fd_flags (value : Value) : P2 unit :=
  let? flags := sorted_text_field value "flags" FLAGS in
  let? _ := sorted_text_field value "seals" SEALS in
  let? v := get value "closeOnExec" in
  let close := match v with Bool true => true | _ => false end in
  throw_if negb (eqb close (contains flags "O_CLOEXEC")) with Error "P2 close-on-exec contradiction" ;;
  Ok tt.

(** The closure of [or_else]: the variables as sorted identifiers. *)
Definition environment_variables (value : Value) : P2 (list string) :=
  let? v := get value "allowedVariables" in
  match v with
  | Array rows =>
      let? _ := res_fold (sorted_step identifier "P2 environment variables not sorted unique") rows None in
      Ok []
  | _ => Err (Error "P2 environment array malformed")
  end.
Definition validate_environment (value : Value) : P2 unit :=
  let? v := get value "allowedVariables" in
  let? _ :=
    match sorted_text_array v [] with
    | Ok out => Ok out
    | Err _ => environment_variables value
    end in
  let? directory := text_field value "workingDirectoryPolicy" in
  throw_if negb (contains ["empty"; "fixed-source-root"]%string directory) with Error "P2 environment policy enum unknown" ;;
  let? network := text_field value "networkPolicy" in
  throw_if negb (contains ["denied"; "builder-isolated"]%string network) with Error "P2 environment policy enum unknown" ;;
  Ok tt.

(** [p >= (major, minor)] *)
Definition device_before (p q : Z * Z) : bool := (p.1 <? q.1) || ((p.1 =? q.1) && (p.2 <? q.2)).
Definition IO_LIMITS : list string := ["readBytesPerSecond"; "writeBytesPerSecond"; "readIops"; "writeIops"]%string.
Definition device_field (row : Value) (name : string) : P2 Z :=
  let? v := get row name in
  match v with Unsigned v => Ok v | _ => Err (Error "P2 io-max device malformed") end.
(** One turn of [for key in &keys[2..]]; the state is [present]. *)
Definition io_limit (row : Value) (present : bool) (key : string) : P2 bool :=
  let? v := get row key in
  match v with
  | Null => Ok present
  | Unsigned _ => Ok true
  | _ => Err (Error "P2 io-max limit malformed")
  end.
Definition validate_io_row (prior : option (Z * Z)) (row : Value) : P2 (option (Z * Z)) :=
  let? _ := fields_exact "P2 io-max row fields not exact" row ("deviceMajor" :: "deviceMinor" :: IO_LIMITS)%string in
  let? major := device_field row "deviceMajor" in
  let? minor := device_field row "deviceMinor" in
  throw_if is_some_and prior (fun p => negb (device_before p (major, minor))) with Error "P2 io-max rows not sorted unique" ;;
  let? present := res_fold (io_limit row) IO_LIMITS false in
  throw_if negb present with Error "P2 io-max row has no limit" ;;
  Ok (Some (major, minor)).
Definition validate_io_max (value : Value) : P2 unit :=
  let? _ := require value "defaultPolicy" "deny-unlisted" in
  let? rows := array_or_unreachable value "rows" in
  let? _ := res_fold validate_io_row rows None in
  Ok tt.

(** ** Landlock *)

Definition LANDLOCK_V2_FS : list string :=
  ["execute"; "ioctl-dev"; "make-block"; "make-char"; "make-dir"; "make-fifo"; "make-reg"; "make-sock"; "make-sym";
   "read-dir"; "read-file"; "refer"; "remove-dir"; "remove-file"; "resolve-unix"; "truncate"; "write-file"]%string.
Definition LANDLOCK_V2_NET : list string := ["bind-tcp"; "bind-udp"; "connect-send-udp"; "connect-tcp"]%string.
Definition LANDLOCK_V2_NET_ABI4_9 : list string := ["bind-tcp"; "connect-tcp"]%string.
Definition LANDLOCK_SCOPE : list string := ["abstract-unix-socket"; "signal"]%string.

(** The constants of [validate_landlock]. *)
Definition FS : list string :=
  ["execute"; "write-file"; "read-file"; "read-dir"; "remove-dir"; "remove-file"; "make-char"; "make-dir"; "make-reg";
   "make-sock"; "make-fifo"; "make-block"; "make-sym"; "refer"; "truncate"; "ioctl-dev"]%string.
Definition NET : list string := ["bind-tcp"; "connect-tcp"]%string.
Definition SCOPE : list string := ["signal"; "abstract-unix-socket"]%string.

(** The rights of a rule: sorted, admitted and handled. *)
Definition rule_rights (row : Value) (admitted handled : list string) (message : string) : P2 unit :=
  let? rights := sorted_text_field row "accessRights" admitted in
  throw_if existsb (fun right => negb (contains handled right)) rights with Error message ;;
  Ok tt.
(** [if !prior.is_empty() && prior >= sort { .. } prior = sort;] *)
Definition rule_order (prior sort message : string) : P2 string :=
  throw_if negb (bool_decide (prior = ""%string)) && negb (str_ltb prior sort) with Error message ;;
  Ok sort.
Definition port_in (low : Z) (v : Value) (message : string) : P2 Z :=
  match v with
  | Unsigned n => if (low <=? n) && (n <=? 65535) then Ok n else Err (Error message)
  | _ => Err (Error message)
  end.
Definition decimal5 (n : Z) : string := str_of_bytes (decimal_padded 5 n).

(** One turn of the loop over the rules; the state is [prior]. *)
Definition validate_landlock_rule (handled_fs handled_net : list string) (prior : string) (row : Value) : P2 string :=
  let? kind := text_field row "kind" in
  let? sort :=
    if bool_decide (kind = "path-beneath"%string) then
      let? _ := fields_exact "P2 landlock path rule fields not exact" row ["kind"; "path"; "accessRights"]%string in
      let? path := text_field row "path" in
      throw_if negb (canonical_absolute path) with Error "P2 landlock path malformed" ;;
      let? _ := rule_rights row FS handled_fs "P2 landlock rule right not handled" in
      Ok ("0:" +:+ path)
    else if bool_decide (kind = "tcp-port"%string) then
      let? _ := fields_exact "P2 landlock port rule fields not exact" row ["kind"; "port"; "accessRights"]%string in
      let? v := get row "port" in
      let? port := port_in 1 v "P2 landlock port malformed" in
      let? _ := rule_rights row NET handled_net "P2 landlock rule right not handled" in
      Ok ("1:" +:+ decimal5 port)
    else Err (Error "P2 landlock rule kind unknown") in
  rule_order prior sort "P2 landlock rules not sorted unique".
Definition validate_landlock (value : Value) : P2 unit :=
  let? v := get value "minimumAbi" in
  throw_if negb match v with Unsigned n => (1 <=? n) && (n <=? 255) | _ => false end
    with Error "P2 landlock ABI out of range" ;;
  let? handled_fs := sorted_text_field value "handledFilesystemRights" FS in
  let? handled_net := sorted_text_field value "handledNetworkRights" NET in
  let? _ := sorted_text_field value "handledScopeRights" SCOPE in
  let? rules := array_or_unreachable value "rules" in
  let? _ := res_fold (validate_landlock_rule handled_fs handled_net) rules ""%string in
  Ok tt.

(** [expected_fs], [expected_net] and [expected_scope]. *)
Definition expected_fs (abi : Z) : list string :=
  List.filter (fun right =>
    (negb (bool_decide (right = "resolve-unix"%string)) && (negb (bool_decide (right = "ioctl-dev"%string)) || (5 <=? abi)))
    || (bool_decide (right = "resolve-unix"%string) && (9 <=? abi))) LANDLOCK_V2_FS.
Definition expected_net (abi : Z) : list string := if 10 <=? abi then LANDLOCK_V2_NET else LANDLOCK_V2_NET_ABI4_9.
Definition expected_scope (abi : Z) : list string := if 6 <=? abi then LANDLOCK_SCOPE else [].

Definition validate_landlock_v2_rule (handled_fs handled_net : list string) (prior : string) (row : Value) : P2 string :=
  let? kind := text_field row "kind" in
  let? _ := fields_exact "P2 Landlock v2 rule fields not exact" row
              ["kind"; (if bool_decide (kind = "path-beneath"%string) then "path" else "port"); "accessRights"]%string in
  let? sort :=
    if bool_decide (kind = "path-beneath"%string) then
      let? path := text_field row "path" in
      throw_if negb (canonical_absolute path) with Error "P2 Landlock v2 path malformed" ;;
      let? _ := rule_rights row LANDLOCK_V2_FS handled_fs "P2 Landlock v2 path right not handled" in
      Ok (str_of_bytes (str_bytes "path-beneath" ++ [x00] ++ str_bytes path))
    else if bool_decide (kind = "tcp-port"%string) || bool_decide (kind = "udp-port"%string) then
      let tcp := bool_decide (kind = "tcp-port"%string) in
      let? v := get row "port" in
      let? port := port_in (if tcp then 1 else 0) v "P2 Landlock v2 port malformed" in
      let? _ := rule_rights row (if tcp then ["bind-tcp"; "connect-tcp"] else ["bind-udp"; "connect-send-udp"])%string
                  handled_net "P2 Landlock v2 network right not handled" in
      Ok (str_of_bytes (str_bytes kind ++ [x00] ++ decimal_padded 5 port))
    else Err (Error "P2 Landlock v2 rule kind unknown") in
  rule_order prior sort "P2 Landlock v2 rules not sorted unique".
Definition validate_landlock_v2 (value : Value) : P2 unit :=
  let? v := get value "minimumAbi" in
  throw_if negb match v with Unsigned n => (4 <=? n) && (n <=? 10) | _ => false end
    with Error "P2 Landlock v2 ABI range is not reviewed" ;;
  let? v := get value "reviewedMaximumAbi" in
  throw_if negb (value_eqb v (Unsigned 10)) with Error "P2 Landlock v2 ABI range is not reviewed" ;;
  let? v := get value "effectiveAbi" in
  let? effective_abi :=
    match v with
    | Unsigned n =>
        if (4 <=? n) && (n <=? 10) then Ok n else Err (Error "P2 Landlock v2 effective ABI is not reviewed")
    | _ => Err (Error "P2 Landlock v2 effective ABI is not reviewed")
    end in
  let? minimum_abi := uint_or_unreachable value "minimumAbi" in
  throw_if effective_abi <? minimum_abi with Error "P2 Landlock v2 effective ABI is below minimum" ;;
  let? handled_fs := sorted_text_field value "handledFilesystemRights" LANDLOCK_V2_FS in
  let? handled_net := sorted_text_field value "handledNetworkRights" LANDLOCK_V2_NET in
  let? handled_scope := sorted_text_field value "handledScopeRights" LANDLOCK_SCOPE in
  throw_if negb (bool_decide (handled_fs = expected_fs effective_abi))
           || negb (bool_decide (handled_net = expected_net effective_abi))
           || negb (bool_decide (handled_scope = expected_scope effective_abi))
    with Error "P2 Landlock v2 handled-right closure is incomplete" ;;
  let? rules := array_or_unreachable value "rules" in
  let? _ := res_fold (validate_landlock_v2_rule handled_fs handled_net) rules ""%string in
  Ok tt.

(** ** Seccomp *)

Definition validate_argument (prior : option Z) (arg : Value) : P2 (option Z) :=
  let? _ := fields_exact "P2 seccomp argument fields not exact" arg ["index"; "operator"; "value"; "mask"]%string in
  let? v := get arg "index" in
  let? index :=
    match v with
    | Unsigned n => if (0 <=? n) && (n <=? 5) then Ok n else Err (Error "P2 seccomp argument index")
    | _ => Err (Error "P2 seccomp argument index")
    end in
  throw_if is_some_and prior (fun p => negb (p <? index)) with Error "P2 seccomp arguments not sorted unique" ;;
  let? op := text_field arg "operator" in
  throw_if negb (contains ["eq"; "ne"; "lt"; "le"; "gt"; "ge"; "masked-eq"]%string op) with Error "P2 seccomp argument malformed" ;;
  let? v := get arg "value" in
  throw_if negb (is_unsigned v) with Error "P2 seccomp argument malformed" ;;
  let? mask := get arg "mask" in
  throw_if negb (eqb (bool_decide (op = "masked-eq"%string)) (is_unsigned mask)) with Error "P2 seccomp argument malformed" ;;
  Ok (Some index).
Definition validate_seccomp_rule (prior : option string) (row : Value) : P2 (option string) :=
  let? _ := fields_exact "P2 seccomp rule fields not exact" row ["syscall"; "action"; "errno"; "arguments"]%string in
  let? syscall := identifier_field row "syscall" in
  throw_if not_after prior syscall with Error "P2 seccomp rules not sorted unique" ;;
  let? action := text_field row "action" in
  throw_if negb (contains ["allow"; "kill-process"; "errno"]%string action) with Error "P2 seccomp action unknown" ;;
  let? errno := get row "errno" in
  throw_if negb (eqb (bool_decide (action = "errno"%string)) (is_unsigned errno)) with Error "P2 seccomp errno contradiction" ;;
  let? v := get row "arguments" in
  match v with
  | Array args =>
      throw_if 6 <? len args with Error "P2 seccomp arguments bound" ;;
      let? _ := res_fold validate_argument args None in
      Ok (Some syscall)
  | _ => Err (Error "P2 seccomp arguments bound")
  end.
Definition validate_seccomp (value : Value) : P2 unit :=
  let? architecture := text_field value "architecture" in
  throw_if negb (contains ["x86_64"; "aarch64"]%string architecture) with Error "P2 seccomp header malformed" ;;
  let? action := text_field value "defaultAction" in
  throw_if negb (bool_decide (action = "kill-process"%string)) with Error "P2 seccomp header malformed" ;;
  let? rules := array_or_unreachable value "rules" in
  let? _ := res_fold validate_seccomp_rule rules None in
  Ok tt.
