(* ===== verification/P2Capture.v ===== *)
(** * Capture and preimages of P2 documents ([protocol/src/p2_schema.rs])

    [capture_p2] decodes a document, selects its schema, runs the recursive
    schema, the envelope checks and the special checks; the digests and signature
    preimages of documents follow. *)

From S2P Require Import Prelude Cbor Sha256 Paths Schema Sha512 P2Specs P2Validators P2Policies.

Definition bare_digest (value : Value) (limits : Limits) : P2 string :=
  let? bytes := p2_encode value limits in p2_sha256_hex bytes.

Definition envelope_digest (envelope : Value) (limits : Limits) : P2 string :=
  let? payload := get envelope "payload" in
  let? declared := text_field envelope "payloadDigest" in
  let? actual := bare_digest payload limits in
  throw_if negb (bool_decide (declared = actual)) with Error "P2 payload digest mismatch" ;;
  let? bytes := p2_encode envelope limits in p2_sha256_hex bytes.

(** [domain.ends_with(suffix)] *)
Definition ends_with (suffix l : list byte) : bool :=
  (length suffix <=? length l)%nat && bool_decide (skipn (length l - length suffix) l = suffix).

Definition domain_preimage (domain : list byte) (value : Value) (limits : Limits) : P2 (list byte) :=
  throw_if negb (ends_with (str_bytes "/v1" ++ [x00]) domain) with Error "P2 domain malformed" ;;
  let? canonical := p2_encode value limits in
  Ok (domain ++ canonical).

(** ** Special checks *)

(** [match spec.name { .. }] of the B3 operations. *)
Definition OPERATION_KINDS : list (string * string) :=
  [("B3GenesisOperationV1", "genesis"); ("B3ReadOperationV1", "read"); ("B3CasOperationV1", "compare-and-advance");
   ("B3LeaseOperationV1", "validate-lease"); ("B3SubscribeOperationV1", "subscribe-invalidation")]%string.
Definition kind_of_operation (name : string) : option string :=
  find_map (fun row : string * string => if bool_decide (row.1 = name) then Some row.2 else None) OPERATION_KINDS.
Definition operation_of_kind (kind : string) : option string :=
  find_map (fun row : string * string => if bool_decide (row.2 = kind) then Some row.1 else None) OPERATION_KINDS.
Definition find_schema (name : string) (schemas : list SchemaSpec) : option SchemaSpec :=
  List.find (fun spec => bool_decide (spec_name spec = name)) schemas.

Definition operation_spec (value : Value) : P2 SchemaSpec :=
  let? kind := text_field value "operationKind" in
  let? name := ok_or (operation_of_kind kind) (Error "P2 B3 operation kind unknown") in
  ok_or (find_schema name B3_OPERATION_SCHEMAS) Panic.

(** The checks of [keep.native-b3-operation] documents. *)
Definition validate_operation (spec : SchemaSpec) (value : Value) : P2 unit :=
  let? _ := require value "schema" "keep.native-b3-operation" in
  let? _ := require_version value 1 in
  let? expected_kind := ok_or (kind_of_operation (spec_name spec)) (Error "P2 operation metadata unknown") in
  let? _ := require value "operationKind" expected_kind in
  let? _ := match field value "scopeKey" with Some scope => validate_scope scope | None => Ok tt end in
  if bool_decide (spec_name spec = "B3CasOperationV1"%string) then
    let? v := get value "callerPurpose" in validate_caller_purpose v
  else Ok tt.

(** The arms of [match spec.name]. *)
Definition special_checks (overflow : bool) : list (string * (Value -> P2 unit)) :=
  [("NativeFdFlagsV1", validate_fd_flags);
   ("NativeEnvironmentPolicyV1", validate_environment);
   ("NativeIoMaxV1", validate_io_max);
   ("NativeLandlockPolicyV1", validate_landlock);
   ("NativeLandlockPolicyV2", validate_landlock_v2);
   ("NativeSeccompPolicyV1", validate_seccomp);
   ("NativeObservationResultV1", validate_observation);
   ("NativePeerPolicyV1", validate_peer_policy);
   ("NativeControlPolicyV1", validate_control_policy);
   ("NativeJournalEntriesV1", validate_journal_entries overflow);
   ("NativeTransportIdentityV1", validate_transport);
   ("NativeInvocationV1", validate_invocation);
   ("NativeComparisonV1", validate_comparison);
   ("NativeArtifactInventoryV1", validate_inventory);
   ("NativePackagePayloadV1", validate_package);
   ("NativeToolchainClosureV1", validate_toolchain);
   ("NativeSbomV1", validate_sbom);
   ("NativeBuildIdentityV1", validate_build_identity);
   ("NativeProvenanceV1", validate_provenance);
   ("NativeReproducibilityRecordV1", validate_repro);
   ("NativeGenesisEpochV1", validate_genesis_epoch);
   ("NativeRootV1", validate_root);
   ("NativeTimestampV1", fun value => validate_interval value "issuedCounter" "expiresCounter" true);
   ("NativeRollbackAuthorizationV1", validate_rollback);
   ("NativeRevocationRecoveryV1", validate_recovery);
   ("NativeB3ProfileV1", validate_b3_profile);
   ("B3StateV1", validate_b3_state);
   ("B3ReceiptV1", validate_b3_receipt);
   ("B3InvalidationFrameV1", validate_frame);
   ("B3InvalidationAckV1", validate_b3_ack)]%string.
Definition special_check (overflow : bool) (name : string) : option (Value -> P2 unit) :=
  find_map (fun row : string * (Value -> P2 unit) => if bool_decide (row.1 = name) then Some row.2 else None)
    (special_checks overflow).
Definition validate_special (overflow : bool) (spec : SchemaSpec) (value : Value) : P2 unit :=
  let? _ :=
    if bool_decide (spec_schema spec = "keep.native-b3-operation"%string) then validate_operation spec value else Ok tt in
  match special_check overflow (spec_name spec) with
  | Some check => check value
  | None => Ok tt
  end.

(** ** Capture *)

Record P2Capture : Set := mkCapture {
  schema_name : string;
  canonical : list byte;
  captured_value : Value
}.

(** The selection of [spec]. *)
Definition select_schema (expected_name : option string) (payload_candidate : Value) : P2 SchemaSpec :=
  match (name ← expected_name; find_schema name all_schemas) with
  | Some spec => Ok spec
  | None =>
      let? discriminator := text_field payload_candidate "schema" in
      if bool_decide (discriminator = "keep.native-b3-operation"%string) then operation_spec payload_candidate
      else ok_or (List.find (fun spec => bool_decide (spec_schema spec = discriminator)) P2_SCHEMAS)
             (Error "P2 schema unknown")
  end.

Definition ENVELOPE_KEYS : list string := ["payload"; "payloadDigest"; "signatures"]%string.

(** The envelope arm of [match spec.shape]. *)
Definition open_envelope (shape : Shape.SchemaShape) (value : Value) (limits : Limits) : P2 Value :=
  let? _ := fields_exact "P2 envelope fields not exact" value ENVELOPE_KEYS in
  let? payload := get value "payload" in
  let? declared := text_field value "payloadDigest" in
  let? actual := bare_digest payload limits in
  throw_if negb (bool_decide (declared = actual)) with Error "P2 payload digest mismatch" ;;
  let role_tagged :=
    bool_decide (shape = Shape.RootEnvelope)
    && negb match field payload "rootEpoch" with Some (Unsigned 0) => true | _ => false end in
  let? signatures := get value "signatures" in
  let? _ := validate_signature_rows signatures role_tagged in
  let? _ :=
    match field payload "trustClass" with
    | Some _ => validate_signer_namespace payload signatures
    | None => Ok tt
    end in
  Ok payload.

Definition capture_limits (expected_name : option string) : Limits :=
  if bool_decide (expected_name = Some "NativeEvidenceV1"%string) then EVIDENCE else MANIFEST.

(** [spec.fields.iter().any(|field| field.name == name)] *)
Definition has_field (spec : SchemaSpec) (name : string) : bool := contains (spec_fields spec) name.

Definition capture_p2 (overflow : bool) (bytes : list byte) (expected_name : option string) : P2 P2Capture :=
  let limits := capture_limits expected_name in
  throw_if max_bytes limits <? len bytes with Error "P2 encoded size exceeds bound" ;;
  let? value := map_err Error (decode_canonical bytes limits) in
  let payload_candidate := default value (field value "payload") in
  let? spec := select_schema expected_name payload_candidate in
  throw_if is_some_and expected_name (fun name => negb (bool_decide (name = spec_name spec)))
    with Error "P2 expected schema mismatch" ;;
  let? recursive := ok_or (recursive_schema_spec (spec_name spec)) (Error "P2 recursive schema absent") in
  let? _ := validate_recursive value recursive in
  let? payload :=
    match spec_shape spec with
    | Shape.Unsigned => Ok value
    | shape => open_envelope shape value limits
    end in
  let? _ := exact payload (spec_fields spec) in
  let? _ := if has_field spec "schema" then require payload "schema" (spec_schema spec) else Ok tt in
  let? _ :=
    if has_field spec "version"
    then require_version payload (if bool_decide (spec_name spec = "NativeLandlockPolicyV2"%string) then 2 else 1)
    else Ok tt in
  let? _ := validate_special overflow spec payload in
  Ok (mkCapture (spec_name spec) bytes value).

(** ** Signed bytes *)

Definition operation_preimage (overflow : bool) (name : string) (value : Value) : P2 (list byte) :=
  let? spec := ok_or (find_schema name B3_OPERATION_SCHEMAS) (Error "P2 operation schema unknown") in
  let? _ := exact value (spec_fields spec) in
  let? _ := validate_special overflow spec value in
  let? domain := ok_or (signature_domain spec) Panic in
  domain_preimage domain value MANIFEST.
Definition operation_digest (overflow : bool) (name : string) (value : Value) : P2 string :=
  let? preimage := operation_preimage overflow name value in p2_sha256_hex preimage.

Definition root_domain (payload : Value) : list byte :=
  match field payload "rootEpoch" with
  | Some (Unsigned 0) => domain "keep.native-root-genesis/v1"
  | _ => domain "keep.native-root-update/v1"
  end.
Definition signed_bytes (name : string) (payload : Value) : P2 (list byte) :=
  let? spec := ok_or (find_schema name P2_SCHEMAS) (Error "P2 signed schema unknown") in
  let? domain :=
    if bool_decide (spec_name spec = "NativeRootV1"%string) then Ok (root_domain payload)
    else ok_or (signature_domain spec) (Error "P2 schema is unsigned") in
  let? _ := exact payload (spec_fields spec) in
  domain_preimage domain payload MANIFEST.
Definition signature_preimage (reserve : Z -> bool) (name : string) (payload : Value) : P2 (list byte) :=
  let? preimage := signed_bytes name payload in map_err Error (sha512 reserve preimage).

(** [SignaturePreimageSpec]: schema name, domain and output length. *)
Definition preimage_rows (spec : SchemaSpec) : list (string * list byte * Z) :=
  if bool_decide (spec_name spec = "NativeRootV1"%string) then
    [("NativeRootV1.initial"%string, domain "keep.native-root-genesis/v1", 64);
     ("NativeRootV1.successor"%string, domain "keep.native-root-update/v1", 64)]
  else match signature_domain spec with
       | Some d => [(spec_name spec, d, 64)]
       | None => []
       end.
Definition signature_preimage_registry : list (string * list byte * Z) :=
  sort_by (fun a b : string * list byte * Z => str_cmp a.1.1 b.1.1) (flat_map preimage_rows all_schemas).
