(* ===== verification/SchemaFacts.v ===== *)
(** * Theorems on the recursive schema language

    [conforms] says what it means for a value to have a schema;
    [validate_recursive] decides it. *)

From S2P Require Import Prelude Cbor Paths Schema.

(** ** The meaning of a schema *)
Module Meaning.

Definition identifier_text (s : string) : Prop := identifier (Text s) = Ok s.
Definition in_enum (values : option (list string)) (s : string) : Prop :=
  match values with Some set => s ∈ set | None => True end.

(** The key of a row: its fields as texts, or as numbers of 20 digits, each
    ended by a NUL. *)
Definition scalar_key (v : Value) : option (list byte) :=
  match v with
  | Text s => Some (str_bytes s ++ [x00])
  | Unsigned n => Some (decimal_padded 20 n ++ [x00])
  | _ => None
  end.
Definition row_key (keys : list string) (row : Value) (key : string) : Prop :=
  exists parts, Forall2 (fun k part => (v ← field row k; scalar_key v) = Some part) keys parts /\
    key = str_of_bytes (concat parts).

(** The order that an array asks of its items. *)
Definition sorted_texts (items : list Value) : Prop :=
  exists keys, items = map Text keys /\ StronglySorted (cmp_lt str_cmp) keys.
Definition sorted_rows (sort_by : list string) (items : list Value) : Prop :=
  exists keys, Forall2 (row_key sort_by) items keys /\ StronglySorted (cmp_lt str_cmp) keys.
Definition unique_rows (unique_by : list string) (items : list Value) : Prop :=
  exists keys, Forall2 (row_key unique_by) items keys /\ NoDup keys.
Definition ordered (sorted_scalar : bool) (sort_by unique_by : list string) (items : list Value) : Prop :=
  if sorted_scalar then sorted_texts items
  else
    (sort_by <> [] -> sorted_rows sort_by items) /\
    (sort_by <> [] \/ unique_by <> [] -> unique_rows (if bool_decide (unique_by = []) then sort_by else unique_by) items).

(** The values of a schema. *)
Fixpoint conforms (spec : RSpec) (value : Value) : Prop :=
  match spec with
  | RIdentifier values => exists s, value = Text s /\ identifier_text s /\ in_enum values s
  | RText values pattern =>
      exists s, value = Text s /\ slen s <= 4096 /\ native_text s = true /\ in_enum values s /\
        match pattern with Some p => validate_text_pattern s p = true | None => True end
  | RUint minimum maximum => exists n, value = Unsigned n /\ minimum <= n <= maximum
  | RBoolean => exists b, value = Bool b
  | RDigest _ => exists s d, value = Text s /\ parse_digest s = Ok d
  | RBytes exact maximum =>
      exists bytes, value = Bytes bytes /\ match exact with Some n => len bytes = n | None => True end /\
        len bytes <= default (1024 * 1024) maximum
  | RNullable inner => value = Null \/ conforms inner value
  | ROneOf variants => exists P, P ∈ map conforms variants /\ P value
  | RRecord fields =>
      exists rows, value = Map rows /\ len rows = len fields /\
        Forall (fun child : string * (Value -> Prop) => exists v, field value child.1 = Some v /\ child.2 v)
          (map (fun child : string * RSpec => (child.1, conforms child.2)) fields)
  | RArray item minimum maximum sorted_scalar sort_by unique_by =>
      exists items, value = Array items /\ minimum <= len items <= maximum /\ Forall (conforms item) items /\
        ordered sorted_scalar sort_by unique_by items
  | RTagged tag variants =>
      exists s, field value tag = Some (Text s) /\
        match List.find (fun variant : string * (Value -> Prop) => bool_decide (variant.1 = s))
                (map (fun variant : string * RSpec => (variant.1, conforms variant.2)) variants) with
        | Some variant => variant.2 value
        | None => False
        end
  end.
End Meaning.
Import Meaning.

(** ** The parts of the interpreter *)
Module Steps.

Lemma for_each_ok {E A} (f : A -> result E unit) l :
  for_each f l = Ok tt <-> Forall (fun a => f a = Ok tt) l.
Proof.
  induction l as [|a l IH]; cbn [for_each]; [by split; [constructor|]|].
  rewrite bind_ok, Forall_cons, <- IH. split; [by intros ([] & ? & ?)|intros [??]; by exists tt].
Qed.

Lemma contains_spec set s : contains set s = true <-> s ∈ set.
Proof.
  unfold contains. rewrite existsb_exists. setoid_rewrite bool_decide_eq_true. setoid_rewrite <- list_elem_of_In.
  split; [by intros (? & ? & ->)|by eauto].
Qed.

Lemma get_ok v name w : get v name = Ok w <-> field v name = Some w.
Proof. apply ok_or_ok. Qed.
Lemma text_ok v s : text v = Ok s <-> v = Text s.
Proof. destruct v; cbn; naive_solver. Qed.
Lemma digest_ok s d : digest s = Ok d <-> parse_digest s = Ok d.
Proof. apply map_err_ok. Qed.
Lemma entries_ok v rows : entries v = Ok rows <-> v = Map rows.
Proof. destruct v; cbn; naive_solver. Qed.

Lemma identifier_ok v s : identifier v = Ok s <-> v = Text s /\ identifier_text s.
Proof.
  split.
  - intros H. pose proof H as H0. unfold identifier in H0. apply bind_ok in H0 as (t & Ht%text_ok & H0).
    apply guard_ok in H0 as [_ [= ->]]. by subst.
  - by intros [-> ?].
Qed.

Lemma enum_ok values s : is_some_and values (fun set => negb (contains set s)) = false <-> in_enum values s.
Proof. destruct values as [set|]; cbn; [|done]. by rewrite negb_false_iff, contains_spec. Qed.

Lemma key_part_ok row out key out' :
  key_part row out key = Ok out' <->
  exists part, (v ← field row key; scalar_key v) = Some part /\ out' = out ++ part.
Proof.
  unfold key_part. rewrite bind_ok. setoid_rewrite get_ok. split.
  - intros (v & Hv & H). rewrite Hv. destruct v; try discriminate; injection H as <-; cbn; eexists; by split.
  - intros (part & H & ->). apply bind_Some in H as (v & Hv & Hp). exists v. split; [done|].
    destruct v; try discriminate; by injection Hp as <-.
Qed.

Lemma recursive_key_ok row keys key : recursive_key row keys = Ok key <-> row_key keys row key.
Proof.
  unfold recursive_key, row_key. rewrite bind_ok.
  assert (forall out out', res_fold (key_part row) keys out = Ok out' <->
    exists parts, Forall2 (fun k part => (v ← field row k; scalar_key v) = Some part) keys parts /\
      out' = out ++ concat parts) as Hf.
  { induction keys as [|k keys IH]; intros out out'; cbn [res_fold].
    - split; [intros [= <-]; exists []; cbn; by rewrite app_nil_r|].
      intros (parts & HF & ->). inv HF. cbn. by rewrite app_nil_r.
    - rewrite bind_ok. split.
      + intros (o & Hk & H). apply key_part_ok in Hk as (part & Hp & ->). apply IH in H as (parts & HF & ->).
        exists (part :: parts). cbn. rewrite app_assoc. split; [by constructor|done].
      + intros (parts & HF & ->). inv HF. eexists. split; [apply key_part_ok; eauto|]. apply IH.
        eexists. split; [done|]. cbn. by rewrite app_assoc. }
  split.
  - intros (out & H & [= <-]). apply Hf in H as (parts & HF & ->). by exists parts.
  - intros (parts & HF & ->). exists (concat parts). split; [apply Hf; by exists parts|done].
Qed.

(** Consecutive texts in order are a sorted list. *)
Definition after (previous : option string) (keys : list string) : Prop :=
  match previous with Some p => Forall (cmp_lt str_cmp p) keys | None => True end.

Lemma str_ltb_spec s t : str_ltb s t = true <-> cmp_lt str_cmp s t.
Proof. unfold str_ltb, cmp_lt. by destruct (str_cmp s t). Qed.

Lemma not_after_false (previous : option string) key :
  is_some_and previous (fun p => negb (str_ltb p key)) = false <->
  match previous with Some p => cmp_lt str_cmp p key | None => True end.
Proof. destruct previous as [p|]; cbn; [|done]. by rewrite negb_false_iff, str_ltb_spec. Qed.

Lemma after_cons previous key keys :
  after previous (key :: keys) /\ StronglySorted (cmp_lt str_cmp) (key :: keys) <->
  match previous with Some p => cmp_lt str_cmp p key | None => True end /\
  after (Some key) keys /\ StronglySorted (cmp_lt str_cmp) keys.
Proof.
  cbn [after]. rewrite StronglySorted_cons. destruct previous as [p|]; cbn [after]; [|naive_solver].
  rewrite Forall_cons. split; [naive_solver|]. intros (Hp & Hk & Hs). split_and!; try done.
  eapply Forall_impl; [exact Hk|]. intros k. by apply cmp_lt_trans.
Qed.
End Steps.
Import Steps.

(** ** Arrays *)
Module Arrays.

Lemma fold_split {S} (check : Value -> P2 unit) (step : S -> Value -> P2 S) items s s' :
  res_fold (fun s child => let? _ := check child in step s child) items s = Ok s' <->
  Forall (fun child => check child = Ok tt) items /\ res_fold step items s = Ok s'.
Proof.
  revert s. induction items as [|c items IH]; intros s; cbn [res_fold]; [naive_solver|].
  rewrite !bind_ok, Forall_cons. setoid_rewrite IH. setoid_rewrite bind_ok. split.
  - intros (s1 & ([] & Hc & Hs) & HF & H). eauto.
  - intros ((Hc & HF) & s1 & Hs & H). eauto 6.
Qed.

Lemma sorted_scalar_ok sort_by unique_by items previous seen :
  is_ok (res_fold (check_order true sort_by unique_by) items (previous, seen)) = true <->
  exists keys, items = map Text keys /\ after previous keys /\ StronglySorted (cmp_lt str_cmp) keys.
Proof.
  revert previous. induction items as [|c items IH]; intros previous; cbn [res_fold].
  - split; [|done]. intros _. exists []. split_and!; [done| |constructor]. destruct previous; cbn; [constructor|done].
  - unfold check_order at 1. destruct (text c) as [t|e] eqn:Ht; cbn [res_bind].
    + apply text_ok in Ht as ->. destruct (is_some_and _ _) eqn:Hp; cbn [res_bind].
      * split; [done|]. intros (keys & E & Hk). destruct keys as [|key keys]; [done|]. injection E as -> ->.
        apply after_cons in Hk as (Hk & _). apply not_after_false in Hk. congruence.
      * apply not_after_false in Hp. rewrite IH. split.
        -- intros (keys & -> & Hk). exists (t :: keys). split; [done|]. by apply after_cons.
        -- intros (keys & E & Hk). destruct keys as [|key keys]; [done|]. injection E as -> ->.
           apply after_cons in Hk as (_ & Hk). eauto.
    + split; [done|]. intros (keys & E & _). destruct keys as [|key keys]; [done|]. by injection E as -> ->.
Qed.

(** The rows of an array with [sort_by] or [unique_by]. *)
Definition rows_from (sort_by unique_by : list string) (previous : option string) (seen : gset string)
    (items : list Value) : Prop :=
  (sort_by <> [] -> exists keys, Forall2 (row_key sort_by) items keys /\ after previous keys /\
                      StronglySorted (cmp_lt str_cmp) keys) /\
  exists ids, Forall2 (row_key (if bool_decide (unique_by = []) then sort_by else unique_by)) items ids /\
    Forall (fun id => id ∉ seen) ids /\ NoDup ids.

Lemma rows_from_cons sort_by unique_by previous seen c items :
  rows_from sort_by unique_by previous seen (c :: items) <->
  exists order id,
    (sort_by = [] /\ order = None \/
     sort_by <> [] /\ exists key, order = Some key /\ row_key sort_by c key /\
       match previous with Some p => cmp_lt str_cmp p key | None => True end) /\
    row_key (if bool_decide (unique_by = []) then sort_by else unique_by) c id /\ (id ∉ seen) /\
    rows_from sort_by unique_by order ({[id]} ∪ seen) items.
Proof.
  unfold rows_from. split.
  - intros (Hs & ids & Hids & Hn & Hnd). destruct ids as [|id ids]; [by inv Hids|].
    apply Forall2_cons in Hids as [Hid Hids]. apply Forall_cons in Hn as [Hn Hns]. apply NoDup_cons in Hnd as [Hnot Hnd].
    assert (exists ids, Forall2 (row_key (if bool_decide (unique_by = []) then sort_by else unique_by)) items ids /\
              Forall (fun i => i ∉ {[id]} ∪ seen) ids /\ NoDup ids) as Hrest.
    { exists ids. split_and!; [done| |done]. apply Forall_forall. intros i Hi. rewrite Forall_forall in Hns.
      specialize (Hns i Hi). set_solver. }
    destruct (decide (sort_by = [])) as [E|E].
    + exists None, id. split_and!; try done. by left.
    + destruct (Hs E) as (keys & HF & Ha). destruct keys as [|key keys]; [by inv HF|].
      apply Forall2_cons in HF as [Hk HF]. apply after_cons in Ha as (Hp & Ha & Hss).
      exists (Some key), id. split_and!; try done; [right; split; [done|]; by exists key|by eauto].
  - intros (order & id & Ho & Hid & Hseen & Hs & ids & Hids & Hn & Hnd). split.
    + intros E. destruct Ho as [[? _]|[_ (key & -> & Hk & Hp)]]; [done|]. destruct (Hs E) as (keys & HF & Ha & Hss).
      exists (key :: keys). split; [by constructor|]. by apply after_cons.
    + exists (id :: ids). rewrite Forall_forall in Hn. split_and!.
      * by constructor.
      * constructor; [done|]. apply Forall_forall. intros i Hi. specialize (Hn i Hi). set_solver.
      * constructor; [|done]. intros Hin. specialize (Hn id Hin). set_solver.
Qed.

(** One step of the order check, as a relation. *)
Lemma check_order_rows sort_by unique_by previous seen c st' :
  sort_by <> [] \/ unique_by <> [] ->
  check_order false sort_by unique_by (previous, seen) c = Ok st' <->
  exists order id,
    (sort_by = [] /\ order = None \/
     sort_by <> [] /\ exists key, order = Some key /\ row_key sort_by c key /\
       match previous with Some p => cmp_lt str_cmp p key | None => True end) /\
    row_key (if bool_decide (unique_by = []) then sort_by else unique_by) c id /\ (id ∉ seen) /\
    st' = (order, {[id]} ∪ seen).
Proof.
  intros Hne. unfold check_order.
  assert (negb (bool_decide (sort_by = [])) || negb (bool_decide (unique_by = [])) = true) as ->.
  { apply orb_true_iff. rewrite !negb_true_iff, !bool_decide_eq_false. done. }
  rewrite bind_ok. setoid_rewrite bind_ok. setoid_rewrite recursive_key_ok. setoid_rewrite guard_ok.
  setoid_rewrite orb_false_iff. setoid_rewrite bool_decide_eq_false.
  case_bool_decide as E; split.
  - intros (order & [= <-] & id & Hid & [_ Hn] & [= <-]). exists None, id. by split_and!; [left|..].
  - intros (order & id & [[_ ->]|[? _]] & Hid & Hn & ->); [|done]. exists None. split; [done|]. by exists id.
  - intros (order & Hk & id & Hid & [Hp Hn] & [= <-]). apply bind_ok in Hk as (key & Hk%recursive_key_ok & [= <-]).
    apply not_after_false in Hp. exists (Some key), id. split_and!; try done. right. split; [done|]. by exists key.
  - intros (order & id & [[? _]|[_ (key & -> & Hk & Hp)]] & Hid & Hn & ->); [done|]. exists (Some key). split.
    + apply bind_ok. exists key. by rewrite recursive_key_ok.
    + exists id. split_and!; try done. by apply not_after_false.
Qed.

Lemma check_rows_ok sort_by unique_by items previous seen :
  sort_by <> [] \/ unique_by <> [] ->
  is_ok (res_fold (check_order false sort_by unique_by) items (previous, seen)) = true <->
  rows_from sort_by unique_by previous seen items.
Proof.
  intros Hne. revert previous seen. induction items as [|c items IH]; intros previous seen; cbn [res_fold].
  - split; [intros _|done]. split.
    + intros _. exists []. split_and!; [constructor| |constructor]. destruct previous; cbn; [constructor|done].
    + exists []. split_and!; constructor.
  - rewrite rows_from_cons. destruct (check_order _ _ _ _ c) as [[order seen']|e] eqn:E; cbn [res_bind].
    + apply check_order_rows in E as (order' & id & Ho & Hid & Hn & [= -> ->]); [|done]. rewrite IH. split.
      * intros Hr. exists order', id. done.
      * intros (order2 & id2 & Ho2 & Hid2 & Hn2 & Hr). 
        assert (order2 = order' /\ id2 = id) as [-> ->]; [|done].
        apply recursive_key_ok in Hid, Hid2. rewrite Hid in Hid2. injection Hid2 as <-. split; [|done].
        destruct Ho as [[? ->]|[? (k & -> & Hk & _)]], Ho2 as [[? ->]|[? (k2 & -> & Hk2 & _)]]; try done.
        apply recursive_key_ok in Hk, Hk2. rewrite Hk in Hk2. by injection Hk2 as <-.
    + split; [done|]. intros (order & id & Ho & Hid & Hn & _).
      assert (check_order false sort_by unique_by (previous, seen) c = Ok (order, {[id]} ∪ seen)) as E'; [|congruence].
      apply check_order_rows; [done|]. by exists order, id.
Qed.

Lemma check_order_ok sorted_scalar sort_by unique_by items :
  is_ok (res_fold (check_order sorted_scalar sort_by unique_by) items (None, ∅)) = true <->
  ordered sorted_scalar sort_by unique_by items.
Proof.
  unfold ordered. destruct sorted_scalar.
  - rewrite sorted_scalar_ok. unfold sorted_texts. cbn [after]. naive_solver.
  - destruct (decide (sort_by = [] /\ unique_by = [])) as [[-> ->]|Hne].
    + split; [naive_solver|]. intros _. generalize (@None string, (∅ : gset string)).
      induction items as [|c items IH]; intros [p s]; cbn [res_fold]; [done|]. apply IH.
    + assert (sort_by <> [] \/ unique_by <> []) as Hor by (destruct sort_by, unique_by; naive_solver).
      rewrite check_rows_ok by done. unfold rows_from, sorted_rows, unique_rows. cbn [after].
      split.
      * intros (Hs & ids & H1 & _ & H2). split; [|by eauto]. intros E. destruct (Hs E) as (keys & ? & _ & ?). by exists keys.
      * intros (Hs & Hu). destruct (Hu Hor) as (ids & H1 & H2). split.
        -- intros E. destruct (Hs E) as (keys & ? & ?). by exists keys.
        -- exists ids. split_and!; [done| |done]. apply Forall_forall. set_solver.
Qed.
End Arrays.
Import Arrays.

(** ** The interpreter decides the schema *)
Module Decides.

Section induction.
Variable P : RSpec -> Prop.
Hypotheses
  (Hid : forall values, P (RIdentifier values))
  (Htext : forall values pattern, P (RText values pattern))
  (Huint : forall lo hi, P (RUint lo hi))
  (Hbool : P RBoolean)
  (Hdigest : forall s, P (RDigest s))
  (Hbytes : forall e m, P (RBytes e m))
  (Hnull : forall inner, P inner -> P (RNullable inner))
  (Hone : forall variants, Forall P variants -> P (ROneOf variants))
  (Hrec : forall fields, Forall (fun f => P f.2) fields -> P (RRecord fields))
  (Harr : forall item lo hi ss sb ub, P item -> P (RArray item lo hi ss sb ub))
  (Htag : forall tag variants, Forall (fun f => P f.2) variants -> P (RTagged tag variants)).

Fixpoint spec_ind (s : RSpec) : P s :=
  match s with
  | RIdentifier values => Hid values
  | RText values pattern => Htext values pattern
  | RUint lo hi => Huint lo hi
  | RBoolean => Hbool
  | RDigest s => Hdigest s
  | RBytes e m => Hbytes e m
  | RNullable inner => Hnull inner (spec_ind inner)
  | ROneOf variants =>
      Hone variants ((fix go l : Forall P l :=
        match l with [] => Forall_nil_2 _ | s :: l => Forall_cons_2 _ _ _ (spec_ind s) (go l) end) variants)
  | RRecord fields =>
      Hrec fields ((fix go l : Forall (fun f => P f.2) l :=
        match l with
        | [] => Forall_nil_2 _
        | f :: l => Forall_cons_2 (fun f => P f.2) _ _ (spec_ind f.2) (go l)
        end) fields)
  | RArray item lo hi ss sb ub => Harr item lo hi ss sb ub (spec_ind item)
  | RTagged tag variants =>
      Htag tag variants ((fix go l : Forall (fun f => P f.2) l :=
        match l with
        | [] => Forall_nil_2 _
        | f :: l => Forall_cons_2 (fun f => P f.2) _ _ (spec_ind f.2) (go l)
        end) variants)
  end.
End induction.

Lemma is_ok_spec {E} (m : result E unit) : is_ok m = true <-> m = Ok tt.
Proof. destruct m as [[]|]; naive_solver. Qed.

Lemma identifier_case value values :
  validate_recursive value (RIdentifier values) = Ok tt <-> conforms (RIdentifier values) value.
Proof.
  cbn [validate_recursive conforms]. rewrite bind_ok. setoid_rewrite identifier_ok. setoid_rewrite guard_ok.
  setoid_rewrite enum_ok. naive_solver.
Qed.

Lemma text_case value values pattern :
  validate_recursive value (RText values pattern) = Ok tt <-> conforms (RText values pattern) value.
Proof.
  cbn [validate_recursive conforms]. destruct value as [| | | |s| |]; try naive_solver.
  rewrite guard_ok, !orb_false_iff, enum_ok, Z.ltb_ge, negb_false_iff.
  assert (is_some_and pattern (fun p => negb (validate_text_pattern s p)) = false <->
          match pattern with Some p => validate_text_pattern s p = true | None => True end) as Hp.
  { destruct pattern; cbn; [by rewrite negb_false_iff|done]. }
  rewrite Hp. naive_solver.
Qed.

Lemma bytes_case value exact maximum :
  validate_recursive value (RBytes exact maximum) = Ok tt <-> conforms (RBytes exact maximum) value.
Proof.
  cbn [validate_recursive conforms]. destruct value as [| | |b| | |]; try naive_solver.
  rewrite guard_ok, orb_false_iff, Z.ltb_ge.
  assert (is_some_and exact (fun n => negb (len b =? n)) = false <->
          match exact with Some n => len b = n | None => True end) as Hp.
  { destruct exact; cbn; [by rewrite negb_false_iff, Z.eqb_eq|done]. }
  rewrite Hp. naive_solver.
Qed.

Lemma scalar_cases value lo hi s :
  (validate_recursive value (RUint lo hi) = Ok tt <-> conforms (RUint lo hi) value) /\
  (validate_recursive value RBoolean = Ok tt <-> conforms RBoolean value) /\
  (validate_recursive value (RDigest s) = Ok tt <-> conforms (RDigest s) value).
Proof.
  split_and!; cbn [validate_recursive conforms].
  - rewrite guard_ok, negb_false_iff. destruct value; try naive_solver.
    rewrite andb_true_iff, !Z.leb_le. naive_solver.
  - rewrite guard_ok, negb_false_iff. destruct value; naive_solver.
  - rewrite bind_ok. setoid_rewrite text_ok. setoid_rewrite bind_ok. setoid_rewrite digest_ok.
    split; [intros (t & -> & d & Hd & _); by exists t, d|intros (t & d & -> & Hd); exists t; split; [done|by exists d]].
Qed.

Lemma record_case value fields :
  Forall (fun f : string * RSpec => forall v, validate_recursive v f.2 = Ok tt <-> conforms f.2 v) fields ->
  validate_recursive value (RRecord fields) = Ok tt <-> conforms (RRecord fields) value.
Proof.
  intros IH. cbn [validate_recursive conforms]. rewrite bind_ok. setoid_rewrite entries_ok. setoid_rewrite guard_ok.
  setoid_rewrite Forall_map. setoid_rewrite negb_false_iff. setoid_rewrite Z.eqb_eq. setoid_rewrite for_each_ok.
  assert (Forall (fun child : string * RSpec => (let? v := get value child.1 in validate_recursive v child.2) = Ok tt) fields <->
          Forall (fun child : string * RSpec => exists v, field value child.1 = Some v /\ conforms child.2 v) fields) as Hf.
  { induction IH as [|f fields Hf HF IHf]; [by split; constructor|]. rewrite !Forall_cons, IHf, bind_ok.
    setoid_rewrite get_ok. by setoid_rewrite Hf. }
  setoid_rewrite Hf. naive_solver.
Qed.

Lemma tagged_case value tag variants :
  Forall (fun f : string * RSpec => forall v, validate_recursive v f.2 = Ok tt <-> conforms f.2 v) variants ->
  validate_recursive value (RTagged tag variants) = Ok tt <-> conforms (RTagged tag variants) value.
Proof.
  intros IH. cbn [validate_recursive conforms]. rewrite bind_ok. setoid_rewrite get_ok. setoid_rewrite bind_ok.
  setoid_rewrite text_ok.
  assert (forall s, match find_map (fun variant : string * RSpec =>
                        if bool_decide (variant.1 = s) then Some (validate_recursive value variant.2) else None) variants with
                    | Some r => r
                    | None => Err (Error "P2 tagged variant unknown")
                    end = Ok tt <->
          match List.find (fun variant : string * (Value -> Prop) => bool_decide (variant.1 = s))
                  (map (fun variant : string * RSpec => (variant.1, conforms variant.2)) variants) with
          | Some variant => variant.2 value
          | None => False
          end) as Hf.
  { intros s. induction IH as [|f variants Hf HF IHf]; cbn [find_map map List.find fst]; [naive_solver|].
    case_bool_decide; [apply Hf|apply IHf]. }
  setoid_rewrite <- Hf. naive_solver.
Qed.

Lemma array_case value item lo hi ss sb ub :
  (forall v, validate_recursive v item = Ok tt <-> conforms item v) ->
  validate_recursive value (RArray item lo hi ss sb ub) = Ok tt <-> conforms (RArray item lo hi ss sb ub) value.
Proof.
  intros IH. cbn [validate_recursive conforms]. destruct value as [| | | | |items|]; try naive_solver.
  rewrite guard_ok, orb_false_iff, !Z.ltb_ge, bind_ok. setoid_rewrite fold_split.
  assert ((exists a, (Forall (fun c => validate_recursive c item = Ok tt) items /\
             res_fold (check_order ss sb ub) items (None, ∅) = Ok a) /\ Ok tt = (Ok tt : P2 unit)) <->
          Forall (conforms item) items /\ ordered ss sb ub items) as E.
  { rewrite <- check_order_ok.
    assert (Forall (fun c => validate_recursive c item = Ok tt) items <-> Forall (conforms item) items) as <-
      by (rewrite !Forall_forall; split; intros Hall c Hc; apply IH; by apply Hall).
    destruct (res_fold (check_order ss sb ub) items (None, ∅)) as [st|]; cbn; naive_solver. }
  rewrite E. naive_solver.
Qed.

Lemma decides spec : forall value, validate_recursive value spec = Ok tt <-> conforms spec value.
Proof.
  induction spec using spec_ind; intros value.
  - apply identifier_case.
  - apply text_case.
  - apply (scalar_cases value lo hi "").
  - apply (scalar_cases value 0 0 "").
  - apply (scalar_cases value 0 0 s).
  - apply bytes_case.
  - cbn [conforms]. destruct value; cbn [validate_recursive]; rewrite <- ?IHspec; naive_solver.
  - cbn [validate_recursive conforms]. rewrite guard_ok, negb_false_iff, existsb_exists.
    setoid_rewrite is_ok_spec. setoid_rewrite list_elem_of_fmap. setoid_rewrite <- list_elem_of_In.
    rewrite Forall_forall in H. split.
    + intros [(s & Hs & Hv) _]. exists (conforms s). split; [by exists s|]. by apply H.
    + intros (Q & (s & -> & Hs) & Hv). split; [|done]. exists s. split; [done|]. by apply H.
  - by apply record_case.
  - by apply array_case.
  - by apply tagged_case.
Qed.
End Decides.
Import Decides.

(** ** Refusals are errors, not panics *)
Module Safety.

Definition safe {A} (m : P2 A) : Prop := runs m (fun _ => True).

Lemma safe_ok {A} (a : A) : safe (Ok a). Proof. done. Qed.
Lemma safe_error {A} e : safe (Err (Error e) : P2 A). Proof. done. Qed.
Lemma safe_bind {A B} (m : P2 A) (f : A -> P2 B) : safe m -> (forall a, m = Ok a -> safe (f a)) -> safe (res_bind m f).
Proof. intros Hm Hf. eapply runs_bind; [exact Hm|]. intros a Ha _. by apply Hf. Qed.
Lemma safe_guard {A} (b : bool) e (m : P2 A) : (b = false -> safe m) -> safe (if b then Err (Error e) else m).
Proof. destruct b; cbn; auto. Qed.
Lemma safe_if {A} (b : bool) (m n : P2 A) : (b = true -> safe m) -> (b = false -> safe n) -> safe (if b then m else n).
Proof. destruct b; auto. Qed.
Lemma safe_ok_or {A} (o : option A) e : safe (ok_or o (Error e)).
Proof. by destruct o. Qed.
Lemma safe_map_err {A} (m : result ProtocolError A) : safe (map_err Error m).
Proof. by destruct m. Qed.
Lemma safe_fold {A S} (f : S -> A -> P2 S) l s : (forall s a, a ∈ l -> safe (f s a)) -> safe (res_fold f l s).
Proof. intros Hf. by apply (runs_fold f (fun _ => True)); [intros; apply Hf|]. Qed.
Lemma safe_each {A} (f : A -> P2 unit) l : (forall a, a ∈ l -> safe (f a)) -> safe (for_each f l).
Proof.
  induction l as [|a l IH]; intros Hf; cbn [for_each]; [done|].
  apply safe_bind; [apply Hf; left|]. intros [] _. apply IH. intros. apply Hf. by right.
Qed.

Lemma safe_get v name : safe (get v name). Proof. apply safe_ok_or. Qed.
Lemma safe_text v : safe (text v). Proof. by destruct v. Qed.
Lemma safe_digest s : safe (digest s). Proof. apply safe_map_err. Qed.
Lemma safe_entries v : safe (entries v). Proof. by destruct v. Qed.
Lemma safe_identifier v : safe (identifier v).
Proof. unfold identifier. apply safe_bind; [apply safe_text|]. intros s _. by apply safe_guard. Qed.
Lemma safe_key row keys : safe (recursive_key row keys).
Proof.
  apply safe_bind; [|done]. apply safe_fold. intros out k _. apply safe_bind; [apply safe_get|]. by intros [] _.
Qed.

Create HintDb p2.
#[export] Hint Resolve safe_ok safe_error safe_ok_or safe_map_err safe_get safe_text safe_digest safe_entries
  safe_identifier safe_key : p2.

(** One step towards safety: a bind, a guard, a branch, or a known operation. *)
Ltac safe_step :=
  first
  [ solve [auto with p2]
  | match goal with
    | |- safe (res_bind _ _) => apply safe_bind; [|intros ? ?]
    | |- safe (if _ then Err (Error _) else _) => apply safe_guard; intros ?
    | |- safe (if _ then _ else _) => apply safe_if; intros ?
    | |- safe (res_fold _ _ _) => apply safe_fold; intros ? ? ?
    | |- safe (for_each _ _) => apply safe_each; intros ? ?
    | |- safe (match ?x with _ => _ end) => destruct x eqn:?
    end ].
Ltac safe := repeat safe_step.

Lemma safe_order ss sb ub st c : safe (check_order ss sb ub st c).
Proof. unfold check_order. destruct st. safe. Qed.
#[export] Hint Resolve safe_order : p2.

Lemma safe_recursive spec : forall v, safe (validate_recursive v spec).
Proof.
  induction spec using spec_ind; intros v; cbn [validate_recursive]; try by safe.
  - apply safe_bind; [auto with p2|]. intros rows _. apply safe_guard. intros _. apply safe_each. intros f Hf.
    apply safe_bind; [auto with p2|]. intros w _. rewrite Forall_forall in H. by apply H.
  - apply safe_bind; [auto with p2|]. intros w _. apply safe_bind; [auto with p2|]. intros d _.
    induction H as [|f variants Hf HF IHf]; cbn [find_map]; [done|]. case_bool_decide; [apply Hf|apply IHf].
Qed.
End Safety.
Import Safety.

(** ** Properties *)

