(* ===== verification/P2Safety.v ===== *)
(** * P2 capture never panics

    The validators of [P2Validators.v] and [P2Policies.v] hold [unreachable!()]
    arms and one unchecked addition; the recursive schema that runs before them
    rules all of these out. *)

From S2P Require Import Prelude Cbor CborFacts Sha256 Paths Schema Numbers SchemaFacts P2Specs P2Validators P2Policies P2Capture.
Import Spec Encode Meaning Steps Decides Safety.

(** ** Fields of a record schema *)
Module Fields.

Definition spec_field (spec : RSpec) (name : string) : option RSpec :=
  match spec with
  | RRecord fields => find_map (fun f : string * RSpec => if bool_decide (f.1 = name) then Some f.2 else None) fields
  | _ => None
  end.

Lemma field_conforms spec name inner v :
  conforms spec v -> spec_field spec name = Some inner -> exists w, field v name = Some w /\ conforms inner w.
Proof.
  destruct spec; try done. cbn [spec_field conforms]. intros (rows & -> & _ & HF) Hs.
  induction fields as [|f fields IH]; [done|]. cbn [map find_map] in *. inv HF.
  case_bool_decide as E; [|by apply IH]. injection Hs as <-. by rewrite <- E.
Qed.

(** The kinds of field that the validators rely on. *)
Definition array_field (spec : RSpec) (name : string) : bool :=
  match spec_field spec name with Some (RArray _ _ _ _ _ _) => true | _ => false end.
Definition uint_spec (spec : RSpec) (name : string) : bool :=
  match spec_field spec name with Some (RUint _ _) => true | _ => false end.

Lemma safe_array spec name v : conforms spec v -> array_field spec name = true -> safe (array_or_unreachable v name).
Proof.
  unfold array_field. intros Hc Hs. destruct (spec_field spec name) as [[]|] eqn:E; try done.
  destruct (field_conforms _ _ _ _ Hc E) as (w & Hw & items & -> & _). unfold array_or_unreachable, get. by rewrite Hw.
Qed.

Lemma safe_uint spec name v : conforms spec v -> uint_spec spec name = true -> safe (uint_or_unreachable v name).
Proof.
  unfold uint_spec. intros Hc Hs. destruct (spec_field spec name) as [[]|] eqn:E; try done.
  destruct (field_conforms _ _ _ _ Hc E) as (w & Hw & n & -> & _). unfold uint_or_unreachable, get. by rewrite Hw.
Qed.
End Fields.
Import Fields.

(** ** Fixed-width numbers *)
Module Decimal.

Fixpoint fixed (w : nat) (n : Z) : list byte :=
  match w with
  | O => []
  | S w => fixed w (n / 10) ++ [byte_of_Z (48 + n mod 10)]
  end.

Lemma fixed_length w n : length (fixed w n) = w.
Proof. revert n. induction w as [|w IH]; intros n; cbn [fixed]; [done|]. rewrite length_app, IH. cbn. lia. Qed.

Lemma fixed_zero w : fixed w 0 = repeat x30 w.
Proof.
  induction w as [|w IH]; cbn [fixed]; [done|]. change (0 / 10) with 0. rewrite IH. change (byte_of_Z (48 + 0 mod 10)) with x30.
  by rewrite <- repeat_cons.
Qed.

Lemma padded_fixed fuel w n :
  (w <= fuel)%nat -> 0 <= n < 10 ^ Z.of_nat w -> (0 < w)%nat ->
  repeat x30 (w - length (decimal_digits fuel n [])) ++ decimal_digits fuel n [] = fixed w n.
Proof.
  revert w n. induction fuel as [|fuel IH]; intros w n Hw Hn H0; [lia|]. cbn [decimal_digits].
  destruct w as [|w]; [lia|]. cbn [fixed]. destruct (Z.ltb_spec n 10).
  - cbn [length]. replace (S w - 1)%nat with w by lia. rewrite (Z.div_small n 10) by lia. by rewrite fixed_zero.
  - rewrite decimal_digits_app, length_app. cbn [length].
    destruct w as [|w]; [change (10 ^ Z.of_nat 1) with 10 in Hn; lia|].
    rewrite (Nat2Z.inj_succ (S w)), Z.pow_succ_r in Hn by lia.
    assert (0 <= n / 10 < 10 ^ Z.of_nat (S w)) by (split; [zmod|apply Z.div_lt_upper_bound; lia]).
    rewrite <- (IH (S w) (n / 10)) by lia.
    replace (S (S w) - (length (decimal_digits fuel (n / 10) []) + 1))%nat
      with (S w - length (decimal_digits fuel (n / 10) []))%nat by lia.
    by rewrite app_assoc.
Qed.

Lemma decimal_fixed w n : (0 < w <= 20)%nat -> 0 <= n < 10 ^ Z.of_nat w -> decimal_padded w n = fixed w n.
Proof. intros Hw Hn. unfold decimal_padded, decimal. by apply padded_fixed; [|done|]; lia. Qed.

(** Texts of equal length compare at the first difference. *)
Lemma bytes_cmp_app l l' r r' :
  length l = length l' -> bytes_cmp (l ++ r) (l' ++ r') = match bytes_cmp l l' with Eq => bytes_cmp r r' | c => c end.
Proof.
  revert l'. induction l as [|a l IH]; intros [|b l'] H; try done. cbn [app bytes_cmp]. destruct (bZ a ?= bZ b); [|done..].
  apply IH. by injection H.
Qed.

Lemma fixed_cmp w a b :
  0 <= a < 10 ^ Z.of_nat w -> 0 <= b < 10 ^ Z.of_nat w -> bytes_cmp (fixed w a) (fixed w b) = (a ?= b).
Proof.
  revert a b. induction w as [|w IH]; intros a b Ha Hb.
  - change (10 ^ Z.of_nat 0) with 1 in *. assert (a = b) as -> by lia. by rewrite Z.compare_refl.
  - rewrite (Nat2Z.inj_succ w), Z.pow_succ_r in Ha, Hb by lia. cbn [fixed].
    rewrite bytes_cmp_app by (by rewrite !fixed_length).
    rewrite IH by (split; [zmod|apply Z.div_lt_upper_bound; lia]).
    pose proof (Z.mod_pos_bound a 10 eq_refl). pose proof (Z.mod_pos_bound b 10 eq_refl).
    cbn [bytes_cmp]. rewrite !bZ_byte_of, !(Z.mod_small (48 + _)) by lia.
    pose proof (Z.div_mod a 10 ltac:(lia)). pose proof (Z.div_mod b 10 ltac:(lia)).
    destruct (Z.compare_spec (a / 10) (b / 10)); destruct (Z.compare_spec (48 + a mod 10) (48 + b mod 10)) ;
      symmetry; rewrite ?Z.compare_eq_iff, ?Z.compare_lt_iff, ?Z.compare_gt_iff; lia.
Qed.

(** Keys of 20 digits are ordered as their numbers. *)
Lemma number_keys a b :
  0 <= a <= u64_max -> 0 <= b <= u64_max ->
  str_cmp (str_of_bytes (decimal_padded 20 a ++ [x00])) (str_of_bytes (decimal_padded 20 b ++ [x00])) = Lt -> a < b.
Proof.
  intros Ha Hb. assert (u64_max < 10 ^ Z.of_nat 20) by done. rewrite !decimal_fixed by lia.
  unfold str_cmp. rewrite !str_bytes_of_bytes, bytes_cmp_app by (by rewrite !fixed_length).
  rewrite fixed_cmp by lia. destruct (Z.compare_spec a b); [done|lia|done].
Qed.
End Decimal.

(** ** The validators *)
Module Validators.

Lemma safe_fields_exact m v keys : safe (fields_exact m v keys).
Proof. unfold fields_exact. safe. Qed.
Lemma safe_text_field v n : safe (text_field v n).
Proof. unfold text_field. safe. Qed.
Lemma safe_identifier_field v n : safe (identifier_field v n).
Proof. unfold identifier_field. safe. Qed.
Lemma safe_digest_field v n : safe (digest_field v n).
Proof. unfold digest_field. apply safe_bind; [apply safe_text_field|]. intros t _. safe. Qed.
Lemma safe_require v n e : safe (require v n e).
Proof. unfold require. safe. Qed.
Lemma safe_require_version v e : safe (require_version v e).
Proof. unfold require_version. safe. Qed.
Lemma safe_uint_field v n : safe (uint_field v n).
Proof. unfold uint_field. safe. Qed.
#[export] Hint Resolve safe_fields_exact safe_text_field safe_identifier_field safe_digest_field safe_require
  safe_require_version safe_uint_field : p2.

Lemma safe_exact v l : safe (exact v l). Proof. apply safe_fields_exact. Qed.
Lemma safe_exact_keys v l : safe (exact_keys v l). Proof. apply safe_fields_exact. Qed.
Lemma safe_interval v a b s : safe (validate_interval v a b s).
Proof. unfold validate_interval. safe. Qed.
Lemma safe_signature_rows v r : safe (validate_signature_rows v r).
Proof. unfold validate_signature_rows, validate_signature_row. safe. Qed.
Lemma safe_signer_namespace p s : safe (validate_signer_namespace p s).
Proof. unfold validate_signer_namespace. safe. Qed.
#[export] Hint Resolve safe_exact safe_exact_keys safe_interval safe_signature_rows safe_signer_namespace : p2.

Lemma safe_scope v : safe (validate_scope v).
Proof. unfold validate_scope. safe. Qed.
Lemma safe_key_rows v n g : safe (validate_key_rows v n g).
Proof. unfold validate_key_rows, validate_key_row. safe. Qed.
Lemma safe_sorted_step read m p v : (forall v, safe (read v)) -> safe (sorted_step read m p v).
Proof. intros Hr. unfold sorted_step. safe. Qed.
Lemma safe_read_digest v : safe (read_digest v).
Proof. unfold read_digest. safe. Qed.
#[export] Hint Resolve safe_scope safe_key_rows safe_sorted_step safe_read_digest : p2.

Lemma safe_genesis_epoch v : safe (validate_genesis_epoch v).
Proof. unfold validate_genesis_epoch. safe. Qed.
Lemma safe_root v : safe (validate_root v).
Proof. unfold validate_root, validate_role, validate_epoch. safe. Qed.
Lemma safe_rollback v : safe (validate_rollback v).
Proof. unfold validate_rollback. safe. Qed.
Lemma safe_projection v : safe (validate_state_projection v).
Proof. unfold validate_state_projection. safe. Qed.
Lemma safe_consumed v : safe (validate_consumed v).
Proof. unfold validate_consumed. safe. Qed.
#[export] Hint Resolve safe_genesis_epoch safe_root safe_rollback safe_projection safe_consumed : p2.
Lemma safe_b3_state v : safe (validate_b3_state v).
Proof. unfold validate_b3_state. safe. Qed.
#[export] Hint Resolve safe_b3_state : p2.
Lemma safe_recovery v : safe (validate_recovery v).
Proof. unfold validate_recovery. safe. Qed.
Lemma safe_b3_profile v : safe (validate_b3_profile v).
Proof. unfold validate_b3_profile. safe. Qed.
Lemma safe_b3_receipt v : safe (validate_b3_receipt v).
Proof. unfold validate_b3_receipt. safe. Qed.
Lemma safe_b3_ack v : safe (validate_b3_ack v).
Proof. unfold validate_b3_ack. safe. Qed.
Lemma safe_caller_purpose v : safe (validate_caller_purpose v).
Proof. unfold validate_caller_purpose. safe. Qed.
Lemma safe_repro v : safe (validate_repro v).
Proof. unfold validate_repro. safe. Qed.
#[export] Hint Resolve safe_recovery safe_b3_profile safe_b3_receipt safe_b3_ack safe_caller_purpose safe_repro : p2.

Lemma safe_sorted_texts v a : safe (sorted_text_array v a).
Proof. unfold sorted_text_array, sorted_text_step. safe. Qed.
Lemma safe_sorted_field v n a : safe (sorted_text_field v n a).
Proof. unfold sorted_text_field. apply safe_bind; [apply safe_get|]. intros. apply safe_sorted_texts. Qed.
#[export] Hint Resolve safe_sorted_texts safe_sorted_field : p2.
Lemma safe_control_policy v : safe (validate_control_policy v).
Proof. unfold validate_control_policy. safe. Qed.
Lemma safe_transport v : safe (validate_transport v).
Proof. unfold validate_transport. safe. Qed.
Lemma safe_comparison v : safe (validate_comparison v).
Proof. unfold validate_comparison. safe. Qed.
Lemma safe_peer_policy v : safe (validate_peer_policy v).
Proof. unfold validate_peer_policy. safe. Qed.
Lemma safe_fd_flags v : safe (validate_fd_flags v).
Proof. unfold validate_fd_flags. safe. Qed.
Lemma safe_environment v : safe (validate_environment v).
Proof. unfold validate_environment, environment_variables. safe. Qed.
#[export] Hint Resolve safe_control_policy safe_transport safe_comparison safe_peer_policy safe_fd_flags
  safe_environment : p2.

(** The arms that the recursive schema makes unreachable. *)
Section conforming.
Context (spec : RSpec) (v : Value) (Hv : conforms spec v).

Lemma safe_uint_here n : uint_spec spec n = true -> safe (uint_or_unreachable v n).
Proof. by apply safe_uint. Qed.
Lemma safe_array_here n : array_field spec n = true -> safe (array_or_unreachable v n).
Proof. by apply safe_array. Qed.
#[local] Hint Resolve safe_uint_here safe_array_here : p2.

Lemma safe_build_identity :
  uint_spec spec "validFromCounter" = true -> uint_spec spec "validUntilCounter" = true -> safe (validate_build_identity v).
Proof using Hv. intros H1 H2. unfold validate_build_identity. safe. Qed.

(** The grammar of the URI was checked just before. *)
Lemma safe_digest_type subjects uri : uri_grammar uri = true -> safe (expected_digest_type subjects uri).
Proof using.
  unfold uri_grammar, expected_digest_type. destruct subjects; [done|].
  destruct (split_once x3a uri) as [[scheme suffix]|]; [|done]. rewrite andb_true_iff, contains_spec. intros [Hs _].
  do 3 (apply elem_of_cons in Hs as [-> |Hs]; [done|]). by apply elem_of_nil in Hs.
Qed.
Lemma safe_typed_uri_rows name m s : safe (validate_typed_uri_rows v name m s).
Proof using.
  unfold validate_typed_uri_rows, validate_typed_uri_row. safe. apply safe_digest_type.
  match goal with H : negb (uri_grammar _) = false |- _ => by apply negb_false_iff in H end.
Qed.
#[local] Hint Resolve safe_typed_uri_rows : p2.
Lemma safe_provenance :
  uint_spec spec "startedCounter" = true -> uint_spec spec "finishedCounter" = true -> safe (validate_provenance v).
Proof using Hv. intros H1 H2. unfold validate_provenance. safe. Qed.
Lemma safe_inventory : array_field spec "rows" = true -> safe (validate_inventory v).
Proof using Hv. intros H. unfold validate_inventory, validate_inventory_row. safe. Qed.
Lemma safe_package : array_field spec "members" = true -> safe (validate_package v).
Proof using Hv. intros H. unfold validate_package, validate_package_row. safe. Qed.
Lemma safe_toolchain : array_field spec "entries" = true -> safe (validate_toolchain v).
Proof using Hv. intros H. unfold validate_toolchain, validate_toolchain_row. safe. Qed.
Lemma safe_sbom : array_field spec "packages" = true -> safe (validate_sbom v).
Proof using Hv. intros H. unfold validate_sbom, validate_sbom_row. safe. Qed.
Lemma safe_invocation : array_field spec "inputs" = true -> safe (validate_invocation v).
Proof using Hv. intros H. unfold validate_invocation, validate_invocation_row. safe. Qed.
Lemma safe_observation : array_field spec "facts" = true -> safe (validate_observation v).
Proof using Hv. intros H. unfold validate_observation, validate_fact. safe. Qed.
Lemma safe_io_max : array_field spec "rows" = true -> safe (validate_io_max v).
Proof using Hv. intros H. unfold validate_io_max, validate_io_row, io_limit, device_field. safe. Qed.
Lemma safe_rule_rights row a h m : safe (rule_rights row a h m).
Proof using. unfold rule_rights. safe. Qed.
#[local] Hint Resolve safe_rule_rights : p2.
Lemma safe_landlock : array_field spec "rules" = true -> safe (validate_landlock v).
Proof using Hv. intros H. unfold validate_landlock, validate_landlock_rule, port_in, rule_order. safe. Qed.
Lemma safe_landlock_v2 :
  array_field spec "rules" = true -> uint_spec spec "minimumAbi" = true -> safe (validate_landlock_v2 v).
Proof using Hv. intros H1 H2. unfold validate_landlock_v2, validate_landlock_v2_rule, port_in, rule_order. safe. Qed.
Lemma safe_seccomp : array_field spec "rules" = true -> safe (validate_seccomp v).
Proof using Hv. intros H. unfold validate_seccomp, validate_seccomp_rule, validate_argument. safe. Qed.
Lemma safe_frame :
  uint_spec spec "priorGeneration" = true -> uint_spec spec "newGeneration" = true -> safe (validate_frame v).
Proof using Hv. intros H1 H2. unfold validate_frame. safe. Qed.
End conforming.
End Validators.
Import Validators.

(** ** The journal: sequence numbers never wrap *)
Module Journal.
Import Decimal.

(** The rows of a journal that its recursive schema admits. *)
Definition row_sequence (row : Value) (n : Z) : Prop := field row "sequence" = Some (Unsigned n) /\ 0 <= n <= u64_max.

Lemma row_key_number row n key :
  row_sequence row n -> row_key ["sequence"%string] row key -> key = str_of_bytes (decimal_padded 20 n ++ [x00]).
Proof.
  intros [Hf _] (parts & HF & ->). inv HF. match goal with H : Forall2 _ [] _ |- _ => inv H end.
  match goal with H : _ = Some _ |- _ => rewrite Hf in H; injection H as <- end. cbn [concat]. by rewrite app_nil_r.
Qed.

Lemma sequences_increase items ns keys :
  Forall2 row_sequence items ns -> Forall2 (row_key ["sequence"%string]) items keys ->
  StronglySorted (cmp_lt str_cmp) keys -> StronglySorted Z.lt ns.
Proof.
  intros Hn. revert keys. induction Hn as [|row n items ns Hrow HF IH]; intros keys Hk Hs; [constructor|].
  inv Hk. apply StronglySorted_cons in Hs as [Hall Hs]. apply StronglySorted_cons. split; [|by eapply IH].
  match goal with H : row_key _ row _ |- _ => apply (row_key_number row n) in H; [subst|done] end.
  match goal with H : Forall2 _ items ?ks |- _ => clear Hs IH; revert ks H Hall end.
  induction HF as [|row' n' items ns Hrow' HF IH]; intros ks Hk Hall; [constructor|]. inv Hk. inv Hall.
  constructor; [|by eapply IH].
  match goal with H : row_key _ row' _ |- _ => apply (row_key_number row' n') in H; [subst|done] end.
  destruct Hrow, Hrow'. by apply number_keys.
Qed.

Definition below (prior : option Z) (ns : list Z) : Prop :=
  match prior with Some p => Forall (Z.lt p) ns | None => True end.

Lemma safe_entries_from overflow items ns prior :
  Forall2 row_sequence items ns -> StronglySorted Z.lt ns -> below prior ns ->
  safe (res_fold (validate_journal_entry overflow) items prior) /\
  res_fold (validate_journal_entry overflow) items prior = res_fold (validate_journal_entry false) items prior.
Proof.
  intros HF. revert prior. induction HF as [|row n items ns [Hf Hn] HF IH]; intros prior Hs Hb; [done|].
  apply StronglySorted_cons in Hs as [Hall Hs].
  assert (forall p, prior = Some p -> (p <? u64_max) = true) as Hp.
  { intros p ->. inv Hb. apply Z.ltb_lt. lia. }
  assert (forall o, validate_journal_entry o prior row = validate_journal_entry false prior row) as Heq.
  { intros o. unfold validate_journal_entry, successor. destruct prior as [p|]; [|done]. by rewrite (Hp p eq_refl). }
  assert (safe (validate_journal_entry false prior row)) as Hsafe.
  { unfold validate_journal_entry, successor. destruct prior as [p|]; [rewrite (Hp p eq_refl)|]; safe. }
  cbn [res_fold]. rewrite Heq. destruct (validate_journal_entry false prior row) as [p'|e] eqn:E; [|by destruct e].
  cbn [res_bind]. apply IH; [done|].
  assert (p' = Some n) as ->; [|done].
  unfold validate_journal_entry in E. apply bind_ok in E as ([] & _ & E). apply bind_ok in E as (v & Hv%get_ok & E).
  rewrite Hf in Hv. injection Hv as <-. cbn [res_bind] in E. apply bind_ok in E as ([] & _ & E).
  apply bind_ok in E as (? & _ & E). apply bind_ok in E as ([] & _ & E). apply bind_ok in E as (? & _ & E).
  apply guard_ok in E as [_ [= <-]]. done.
Qed.

(** The part of the journal's schema that matters. *)
Definition journal_spec (spec : RSpec) : Prop :=
  exists row lo hi, spec_field spec "entries" = Some (RArray row lo hi false ["sequence"%string] ["sequence"%string]) /\
    spec_field row "sequence" = Some (RUint 0 u64_max).

Lemma safe_journal overflow spec v :
  journal_spec spec -> conforms spec v ->
  safe (validate_journal_entries overflow v) /\ validate_journal_entries overflow v = validate_journal_entries false v.
Proof.
  intros (row & lo & hi & Hspec & Hseq) Hc. destruct (field_conforms _ _ _ _ Hc Hspec) as (w & Hw & items & -> & _ & HF & Ho).
  unfold validate_journal_entries, array_or_unreachable, get. rewrite Hw. cbn [ok_or res_bind].
  destruct Ho as [Ho _]. destruct Ho as (keys & Hk & Hss); [done|].
  assert (exists ns, Forall2 row_sequence items ns) as [ns Hns].
  { clear Hk Hw. induction HF as [|i items Hi HF [ns IH]]; [by exists []|].
    destruct (field_conforms _ _ _ _ Hi Hseq) as (x & Hx & n & -> & Hn). exists (n :: ns). by constructor. }
  destruct (safe_entries_from overflow items ns None Hns (sequences_increase _ _ _ Hns Hk Hss) I) as [Hs Heq].
  split; [|by rewrite Heq]. apply safe_bind; [exact Hs|]. done.
Qed.
End Journal.
Import Journal.

(** ** Every schema *)
Module Special.

(** The recursive spec of the payload of a schema. *)
Definition payload_spec (spec : SchemaSpec) : option RSpec :=
  recursive ← recursive_schema_spec (spec_name spec);
  match spec_shape spec with
  | Shape.Unsigned => Some recursive
  | _ => spec_field recursive "payload"
  end.

(** A check is safe on the payloads of a spec. *)
Definition check_safe (spec : RSpec) (check : Value -> P2 unit) : Prop :=
  forall v, conforms spec v -> safe (check v).

(** Read a fact of the spec of a literal schema by computation. *)
Ltac spec_fact :=
  match goal with
  | Hp : ?l = Some ?p |- ?f ?p ?n = true =>
      let H := fresh in
      assert (option_map (fun p => f p n) l = Some true) as H by (vm_compute; reflexivity);
      rewrite Hp in H; by injection H
  end.
(** The check of a conforming payload. *)
Ltac payload_safe :=
  match goal with
  | Hv : conforms ?p ?v |- safe _ =>
      first
      [ solve [auto with p2]
      | eapply (safe_build_identity p); [exact Hv|spec_fact..]
      | eapply (safe_provenance p); [exact Hv|spec_fact..]
      | eapply (safe_inventory p); [exact Hv|spec_fact..]
      | eapply (safe_package p); [exact Hv|spec_fact..]
      | eapply (safe_toolchain p); [exact Hv|spec_fact..]
      | eapply (safe_sbom p); [exact Hv|spec_fact..]
      | eapply (safe_frame p); [exact Hv|spec_fact..]
      | eapply (safe_invocation p); [exact Hv|spec_fact..]
      | eapply (safe_observation p); [exact Hv|spec_fact..]
      | eapply (safe_io_max p); [exact Hv|spec_fact..]
      | eapply (safe_landlock p); [exact Hv|spec_fact..]
      | eapply (safe_landlock_v2 p); [exact Hv|spec_fact..]
      | eapply (safe_seccomp p); [exact Hv|spec_fact..] ]
  end.

Lemma journal_payload p :
  recursive_schema_spec "NativeJournalEntriesV1" = Some p -> journal_spec p.
Proof.
  assert (recursive_schema_spec "NativeJournalEntriesV1" = Some NATIVE_JOURNAL_ENTRIES_V1_SPEC) as -> by reflexivity.
  intros [= <-]. eexists _, _, _. split; reflexivity.
Qed.

(** The special check of every schema is safe on its payloads. *)
Lemma special_safe_all overflow :
  Forall (fun s => forall p check, payload_spec s = Some p -> special_check overflow (spec_name s) = Some check ->
            check_safe p check) all_schemas.
Proof.
  unfold all_schemas, P2_SCHEMAS, B3_OPERATION_SCHEMAS. cbn [app].
  repeat (apply Forall_cons; split; [|]); [..|by apply Forall_nil];
    intros p check Hp Hc v Hv;
    (match type of Hc with ?l = _ => let t := eval hnf in l in change (t = Some check) in Hc end;
     cbn [snd] in Hc; try discriminate Hc; injection Hc as <-;
     cbv [payload_spec schema spec_name spec_shape] in Hp;
     first [payload_safe | apply (safe_journal overflow p); [by apply journal_payload|done]]).
Qed.

(** Only the journal's check mentions the overflow mode. *)
Lemma special_mode_all overflow :
  Forall (fun s => forall p v, payload_spec s = Some p -> conforms p v ->
            validate_special overflow s v = validate_special false s v) all_schemas.
Proof.
  unfold all_schemas, P2_SCHEMAS, B3_OPERATION_SCHEMAS. cbn [app].
  repeat (apply Forall_cons; split; [|]); [..|by apply Forall_nil]; intros p v Hp Hv;
    first [reflexivity | cbv [payload_spec schema spec_name spec_shape] in Hp;
                         apply (safe_journal overflow p); [by apply journal_payload|done]].
Qed.

Lemma safe_special overflow spec p v :
  spec ∈ all_schemas -> payload_spec spec = Some p -> conforms p v ->
  safe (validate_special overflow spec v) /\ validate_special overflow spec v = validate_special false spec v.
Proof.
  intros Hin Hp Hv. pose proof (special_safe_all overflow) as Hs. pose proof (special_mode_all overflow) as Hm.
  rewrite Forall_forall in Hs, Hm. split; [|by apply (Hm spec Hin p)].
  unfold validate_special. apply safe_bind.
  - destruct (bool_decide _); [|done]. unfold validate_operation. safe.
  - intros _ _. destruct (special_check _ _) as [check|] eqn:E; [|done]. by apply (Hs spec Hin p check).
Qed.

(** *** The selection of the schema *)
Lemma find_schema_in name l spec : find_schema name l = Some spec -> spec ∈ l /\ spec_name spec = name.
Proof.
  intros H. apply List.find_some in H as [H1 H2]. rewrite list_elem_of_In. by apply bool_decide_eq_true in H2.
Qed.

Lemma in_schemas spec : spec ∈ P2_SCHEMAS \/ spec ∈ B3_OPERATION_SCHEMAS -> spec ∈ all_schemas.
Proof. intros H. unfold all_schemas. by apply elem_of_app. Qed.

Lemma operation_spec_runs v : runs (operation_spec v) (fun spec => spec ∈ all_schemas).
Proof.
  unfold operation_spec. eapply runs_bind; [apply safe_text_field|]. intros kind _ _.
  eapply runs_bind; [apply safe_ok_or|]. intros name Hn%ok_or_ok _. unfold operation_of_kind in Hn.
  assert (name ∈ map fst OPERATION_KINDS) as Hin.
  { revert Hn. unfold OPERATION_KINDS. cbn [find_map map fst snd]. repeat case_bool_decide; intros [= <-] || discriminate; set_solver. }
  destruct (find_schema name B3_OPERATION_SCHEMAS) as [spec|] eqn:E.
  - apply find_schema_in in E as [E _]. apply in_schemas. by right.
  - exfalso. revert Hin E. unfold OPERATION_KINDS. cbn [map fst]. intros Hin.
    repeat (apply elem_of_cons in Hin as [-> |Hin]; [discriminate|]). by apply elem_of_nil in Hin.
Qed.

Lemma select_runs name v : runs (select_schema name v) (fun spec => spec ∈ all_schemas).
Proof.
  unfold select_schema. destruct (name ≫= _) as [spec|] eqn:E.
  - apply bind_Some in E as (n & _ & E). by apply find_schema_in in E as [E _].
  - eapply runs_bind; [apply safe_text_field|]. intros d _ _. destruct (bool_decide _); [apply operation_spec_runs|].
    destruct (List.find _ _) as [spec|] eqn:Ef; [|done]. apply List.find_some in Ef as [Ef _].
    apply in_schemas. left. by apply list_elem_of_In.
Qed.

(** *** The digests *)
Lemma safe_bare_digest v L : limits_ok L -> 8 * max_bytes L <= u64_max -> safe (bare_digest v L).
Proof.
  intros HL Hm. unfold bare_digest, p2_encode, p2_sha256_hex. apply safe_bind; [apply safe_map_err|].
  intros bytes He%map_err_ok. apply encode_bounded_spec in He as (He & _ & _ & Hs); [|done].
  apply encode_len in He. unfold OneShot.sha256_hex. pose proof (len_nonneg bytes).
  destruct (Facts.sha256_total bytes) as (d & -> & _); [lia|]. done.
Qed.

Lemma capture_limits_ok name : limits_ok (capture_limits name) /\ 8 * max_bytes (capture_limits name) <= u64_max.
Proof. unfold capture_limits. by destruct (bool_decide _). Qed.

Lemma safe_envelope shape v name : safe (open_envelope shape v (capture_limits name)).
Proof.
  unfold open_envelope. pose proof (capture_limits_ok name) as [HL Hm].
  pose proof (fun p => safe_bare_digest p _ HL Hm) as Hd. safe.
Qed.

Lemma open_envelope_payload shape v L payload : open_envelope shape v L = Ok payload -> field v "payload" = Some payload.
Proof.
  unfold open_envelope. intros H. apply bind_ok in H as (_ & _ & H). apply bind_ok in H as (p & Hp%get_ok & H).
  do 2 apply bind_ok in H as (? & _ & H). apply guard_ok in H as [_ H]. do 3 apply bind_ok in H as (? & _ & H).
  by injection H as <-.
Qed.

(** The payload that capture checks conforms to the payload spec. *)
Lemma capture_payload spec recursive v name payload :
  spec ∈ all_schemas -> recursive_schema_spec (spec_name spec) = Some recursive -> conforms recursive v ->
  match spec_shape spec with Shape.Unsigned => Ok v | shape => open_envelope shape v (capture_limits name) end = Ok payload ->
  exists p, payload_spec spec = Some p /\ conforms p payload.
Proof.
  intros Hin Hr Hv Hp. unfold payload_spec. rewrite Hr. cbn [mbind option_bind].
  assert (Forall (fun s => spec_shape s = Shape.Unsigned \/ is_Some (payload_spec s)) all_schemas) as Hall.
  { unfold all_schemas, P2_SCHEMAS, B3_OPERATION_SCHEMAS. cbn [app].
    repeat (apply Forall_cons; split; [first [by left | right; eexists; reflexivity]|]). by apply Forall_nil. }
  rewrite Forall_forall in Hall. destruct (Hall spec Hin) as [E|[p E]]; unfold payload_spec in *.
  - rewrite E in *. injection Hp as <-. by exists recursive.
  - rewrite Hr in E. cbn [mbind option_bind] in E. destruct (spec_shape spec).
    + injection Hp as <-. by exists recursive.
    + apply open_envelope_payload in Hp. destruct (field_conforms _ _ _ _ Hv E) as (w & Hw & Hc).
      rewrite Hp in Hw. injection Hw as <-. by exists p.
    + apply open_envelope_payload in Hp. destruct (field_conforms _ _ _ _ Hv E) as (w & Hw & Hc).
      rewrite Hp in Hw. injection Hw as <-. by exists p.
Qed.
End Special.
Import Special.
