(* ===== verification/P2Facts.v ===== *)
(** * Theorems on P2 documents

    [Captured] says what a captured document satisfies, [Domains] that no two
    kinds of document are signed over the same bytes. *)

From S2P Require Import Prelude Cbor CborFacts Sha256 Paths Schema SchemaFacts Sha512 P2Specs P2Validators P2Policies P2Capture P2Safety.
Import Spec Encode Meaning Steps Decides Safety Fields Validators Special.

(** ** Captured documents *)
Module Captured.

Lemma limits_ok_capture name : limits_ok (capture_limits name).
Proof. apply capture_limits_ok. Qed.

(** The steps of a capture, up to the special checks. *)
Lemma p2_capture_steps overflow bytes name c :
  capture_p2 overflow bytes name = Ok c ->
  exists spec recursive payload,
    c = mkCapture (spec_name spec) bytes (captured_value c) /\
    decode_canonical bytes (capture_limits name) = Ok (captured_value c) /\
    spec ∈ all_schemas /\ (forall n, name = Some n -> spec_name spec = n) /\
    recursive_schema_spec (spec_name spec) = Some recursive /\ conforms recursive (captured_value c) /\
    match spec_shape spec with
    | Shape.Unsigned => Ok (captured_value c)
    | shape => open_envelope shape (captured_value c) (capture_limits name)
    end = Ok payload /\
    validate_special overflow spec payload = Ok tt.
Proof.
  intros H. unfold capture_p2 in H. apply guard_ok in H as [_ H]. apply bind_ok in H as (v & Hv%map_err_ok & H).
  apply bind_ok in H as (spec & Hs & H). pose proof (runs_ok _ _ _ (select_runs _ _) Hs) as Hin.
  apply guard_ok in H as [Hn H]. apply bind_ok in H as (recursive & Hr%ok_or_ok & H).
  apply bind_ok in H as ([] & Hc%decides & H). apply bind_ok in H as (payload & Hp & H).
  do 3 apply bind_ok in H as (? & _ & H). apply bind_ok in H as ([] & Hsp & [= <-]). cbn [captured_value].
  exists spec, recursive, payload. split_and!; try done.
  intros n ->. cbn in Hn. by apply negb_false_iff, bool_decide_eq_true in Hn.
Qed.

Lemma safe_capture overflow bytes name : safe (capture_p2 overflow bytes name).
Proof.
  unfold capture_p2. apply safe_guard. intros _. apply safe_bind; [apply safe_map_err|]. intros v _.
  eapply runs_bind; [apply select_runs|]. intros spec _ Hin. apply safe_guard. intros _.
  apply safe_bind; [apply safe_ok_or|]. intros recursive Hr%ok_or_ok.
  apply safe_bind; [apply safe_recursive|]. intros [] Hc%decides.
  apply safe_bind; [destruct (spec_shape spec); [done|apply safe_envelope..]|]. intros payload Hp.
  destruct (capture_payload _ _ _ _ _ Hin Hr Hc Hp) as (p & Hps & Hpc).
  destruct (safe_special overflow spec p payload Hin Hps Hpc) as [Hsafe _]. safe.
Qed.

Lemma capture_mode overflow bytes name : capture_p2 overflow bytes name = capture_p2 false bytes name.
Proof.
  unfold capture_p2. destruct (max_bytes _ <? _); [done|].
  destruct (map_err Error _) as [v|]; cbn [res_bind]; [|done].
  destruct (select_schema _ _) as [spec|] eqn:Es; cbn [res_bind]; [|done].
  pose proof (runs_ok _ _ _ (select_runs _ _) Es) as Hin. destruct (is_some_and _ _); [done|].
  destruct (ok_or _ _) as [recursive|] eqn:Hr; cbn [res_bind]; [|done]. apply ok_or_ok in Hr.
  destruct (validate_recursive _ _) as [[]|] eqn:Hc; cbn [res_bind]; [|done]. apply decides in Hc.
  match goal with |- res_bind ?m _ = _ => destruct m as [payload|] eqn:Hp; cbn [res_bind]; [|done] end.
  destruct (capture_payload _ _ _ _ _ Hin Hr Hc Hp) as (p & Hps & Hpc).
  destruct (safe_special overflow spec p payload Hin Hps Hpc) as [_ ->]. done.
Qed.

(** *** Signatures *)

(** A row of signatures: key id, epoch and 64 bytes. *)
Definition signature_row (row : Value) (key : string) : Prop :=
  field row "keyId" = Some (Text key) /\ identifier_text key /\
  field row "algorithm" = Some (Text "ed25519") /\
  exists bytes, field row "signature" = Some (Bytes bytes) /\ len bytes = 64.

Lemma require_ok v name e : require v name e = Ok tt -> field v name = Some (Text e).
Proof.
  unfold require. intros H. apply bind_ok in H as (w & Hw%get_ok & H). apply bind_ok in H as (t & Ht%text_ok & H).
  apply check_ok in H as [E _]. bool_to_prop. by subst.
Qed.

Lemma identifier_field_ok v name s : identifier_field v name = Ok s -> field v name = Some (Text s) /\ identifier_text s.
Proof. unfold identifier_field. intros H. apply bind_ok in H as (w & Hw%get_ok & [-> Hi]%identifier_ok). done. Qed.

Lemma not_after_ok prior key :
  not_after prior key = false <-> match prior with Some p => cmp_lt str_cmp p key | None => True end.
Proof. apply not_after_false. Qed.

Lemma signature_rows_from role rows prior last :
  res_fold (validate_signature_row role) rows prior = Ok last ->
  exists keys, Forall2 signature_row rows keys /\ after prior keys /\ StronglySorted (cmp_lt str_cmp) keys.
Proof.
  revert prior. induction rows as [|row rows IH]; intros prior H; cbn [res_fold] in H.
  - exists []. split_and!; [constructor| |constructor]. destruct prior; cbn; [constructor|done].
  - apply bind_ok in H as (prior' & Hrow & H). apply IH in H as (keys & HF & Ha).
    unfold validate_signature_row in Hrow. apply bind_ok in Hrow as (_ & _ & Hrow).
    apply bind_ok in Hrow as (key & [Hk Hi]%identifier_field_ok & Hrow). apply guard_ok in Hrow as [Hp%not_after_ok Hrow].
    apply bind_ok in Hrow as ([] & Hal%require_ok & Hrow). apply bind_ok in Hrow as (? & _ & Hrow).
    apply guard_ok in Hrow as [_ Hrow]. apply bind_ok in Hrow as (? & _ & Hrow).
    apply bind_ok in Hrow as (sig & Hsig%get_ok & Hrow). apply guard_ok in Hrow as [Hb [= <-]].
    exists (key :: keys). split; [|by apply after_cons]. constructor; [|done]. split_and!; try done.
    destruct sig; try discriminate. cbn in Hb. bool_to_prop. eauto.
Qed.

Lemma signature_rows_ok v role :
  validate_signature_rows v role = Ok tt ->
  exists rows keys, v = Array rows /\ 1 <= len rows <= MAX_SIGNATURES /\ Forall2 signature_row rows keys /\
    StronglySorted (cmp_lt str_cmp) keys.
Proof.
  unfold validate_signature_rows. destruct v as [| | | | |rows|]; try discriminate. intros H.
  apply guard_ok in H as [G H]. apply orb_false_iff in G as [G1 G2]. apply bool_decide_eq_false in G1. apply Z.ltb_ge in G2.
  apply bind_ok in H as (last & H & _). apply signature_rows_from in H as (keys & HF & _ & Hs).
  exists rows, keys. split_and!; try done. destruct rows; [done|]. rewrite len_cons. pose proof (len_nonneg rows). lia.
Qed.

(** A sealed envelope: the payload, the digest of its encoding and its
    signatures, by distinct keys in order, of the namespace of its trust class. *)
Definition sealed (v : Value) (L : Limits) (payload : Value) : Prop :=
  exists encoding digest rows keys,
    field v "payload" = Some payload /\ encode_bounded payload L = Ok encoding /\
    field v "payloadDigest" = Some (Text digest) /\ OneShot.sha256_hex encoding = Some digest /\
    field v "signatures" = Some (Array rows) /\ 1 <= len rows <= MAX_SIGNATURES /\
    Forall2 signature_row rows keys /\ StronglySorted (cmp_lt str_cmp) keys /\
    forall class, field payload "trustClass" = Some (Text class) ->
      Forall (fun key => starts_with "development." key = bool_decide (class = "development"%string)) keys.

Lemma namespace_ok payload rows keys class :
  Forall2 signature_row rows keys -> field payload "trustClass" = Some (Text class) ->
  validate_signer_namespace payload (Array rows) = Ok tt ->
  Forall (fun key => starts_with "development." key = bool_decide (class = "development"%string)) keys.
Proof.
  intros HF Hc H. unfold validate_signer_namespace, text_field, get in H. rewrite Hc in H. cbn [ok_or res_bind text] in H.
  apply for_each_ok in H. induction HF as [|row key rows keys Hrow HF IH]; [constructor|]. inv H.
  constructor; [|by apply IH]. destruct Hrow as (Hk & _).
  match goal with H : (let? _ := _ in _) = _ |- _ => apply bind_ok in H as (k & [Hk' _]%identifier_field_ok & H);
    apply guard_ok in H as [E _] end.
  rewrite Hk in Hk'. injection Hk' as <-. apply negb_false_iff, eqb_prop in E. done.
Qed.

Lemma open_envelope_sealed shape v L payload : open_envelope shape v L = Ok payload -> sealed v L payload.
Proof.
  unfold open_envelope. intros H. apply bind_ok in H as (_ & _ & H). apply bind_ok in H as (p & Hp%get_ok & H).
  apply bind_ok in H as (d & Hd & H). apply bind_ok in H as (d' & Hd' & H). apply guard_ok in H as [E H].
  apply negb_false_iff, bool_decide_eq_true in E as <-.
  apply bind_ok in H as (sigs & Hs%get_ok & H). apply bind_ok in H as ([] & Hrows & H).
  apply bind_ok in H as ([] & Hns & [= <-]).
  apply bind_ok in Hd as (w & Hw%get_ok & ->%text_ok). apply bind_ok in Hd' as (encoding & He%map_err_ok & Hsha%ok_or_ok).
  apply signature_rows_ok in Hrows as (rows & keys & -> & Hl & HF & Hss). exists encoding, d, rows, keys.
  split_and!; try done; try lia. intros class Hc. rewrite Hc in Hns. by apply (namespace_ok p rows).
Qed.
End Captured.
Import Captured.

(** ** Signature domains *)
Module Domains.

(** The domains a schema is signed under. *)
Definition owners : list (string * list byte) :=
  flat_map (fun s => map (fun row : string * list byte * Z => (spec_name s, row.1.2)) (preimage_rows s)) all_schemas.

(** A domain is a text without NUL, ended by one. *)
Definition is_domain (d : list byte) : bool :=
  match rev d with
  | b :: rest => bool_decide (b = x00) && forallb (fun b => negb (bool_decide (b = x00))) rest
  | [] => false
  end.

Lemma owners_domains : Forall (fun o => is_domain o.2 = true) owners.
Proof. apply forallb_Forall'. vm_compute. reflexivity. Qed.

Lemma owners_distinct : NoDup (map snd owners).
Proof. apply (bool_decide_eq_true_1 _). vm_compute. reflexivity. Qed.

Lemma is_domain_spec d : is_domain d = true -> exists t, d = t ++ [x00] /\ x00 ∉ t.
Proof.
  unfold is_domain. intros H. destruct (rev d) as [|b rest] eqn:E; [done|]. rewrite andb_true_iff in H. destruct H as [Hb Hr].
  apply bool_decide_eq_true in Hb as ->. exists (rev rest). split.
  - rewrite <- (rev_involutive d), E. done.
  - intros Hin. apply forallb_Forall' in Hr. rewrite Forall_forall in Hr.
    specialize (Hr x00). rewrite bool_decide_eq_true_2 in Hr by done. discriminate Hr.
    apply list_elem_of_In. apply in_rev. by apply list_elem_of_In.
Qed.

(** A text without NUL is determined by the first NUL after it. *)
Lemma nul_split (t1 t2 r1 r2 : list byte) :
  x00 ∉ t1 -> x00 ∉ t2 -> t1 ++ x00 :: r1 = t2 ++ x00 :: r2 -> t1 = t2 /\ r1 = r2.
Proof.
  revert t2. induction t1 as [|a t1 IH]; intros [|b t2] H1 H2 E; cbn [app] in E.
  - by injection E.
  - injection E as <- _. set_solver.
  - injection E as -> _. set_solver.
  - injection E as -> E. destruct (IH t2) as [-> ->]; [set_solver|set_solver|done|done].
Qed.

Lemma domains_prefix_free d1 d2 e1 e2 :
  is_domain d1 = true -> is_domain d2 = true -> d1 ++ e1 = d2 ++ e2 -> d1 = d2 /\ e1 = e2.
Proof.
  intros (t1 & -> & H1)%is_domain_spec (t2 & -> & H2)%is_domain_spec. rewrite <- !app_assoc. cbn [app].
  intros E. by apply nul_split in E as [-> ->].
Qed.

(** The bytes that are hashed before a signature: for the documents of
    [P2_SCHEMAS] and for the B3 operations. *)
Definition signs (name : string) (v : Value) (bytes : list byte) : Prop :=
  signed_bytes name v = Ok bytes \/ exists overflow, operation_preimage overflow name v = Ok bytes.

Lemma owner_of spec row : spec ∈ all_schemas -> row ∈ preimage_rows spec -> (spec_name spec, row.1.2) ∈ owners.
Proof.
  intros Hs Hr. unfold owners. apply list_elem_of_In, in_flat_map. exists spec. split; [by apply list_elem_of_In|].
  apply in_map_iff. exists row. split; [done|]. by apply list_elem_of_In.
Qed.

Lemma preimage_ok d v L bytes : domain_preimage d v L = Ok bytes -> exists e, encode_bounded v L = Ok e /\ bytes = d ++ e.
Proof.
  unfold domain_preimage. intros H. apply guard_ok in H as [_ H]. apply bind_ok in H as (e & He%map_err_ok & [= <-]). eauto.
Qed.

(** The operations are not the root. *)
Lemma operation_rows spec d :
  spec ∈ B3_OPERATION_SCHEMAS -> signature_domain spec = Some d -> (spec_name spec, d, 64) ∈ preimage_rows spec.
Proof.
  intros Hin Hd. unfold preimage_rows.
  assert (Forall (fun s => spec_name s <> "NativeRootV1"%string) B3_OPERATION_SCHEMAS) as Hf
    by (unfold B3_OPERATION_SCHEMAS; repeat constructor; discriminate).
  rewrite Forall_forall in Hf. rewrite bool_decide_eq_false_2 by (by apply Hf). rewrite Hd. left.
Qed.

Lemma root_rows spec payload :
  spec_name spec = "NativeRootV1"%string -> exists row, row ∈ preimage_rows spec /\ row.1.2 = root_domain payload.
Proof.
  intros E. unfold preimage_rows. rewrite bool_decide_eq_true_2 by done. unfold root_domain.
  assert (exists row, row ∈ [("NativeRootV1.initial"%string, domain "keep.native-root-genesis/v1", 64);
       ("NativeRootV1.successor"%string, domain "keep.native-root-update/v1", 64)] /\
       row.1.2 = domain "keep.native-root-update/v1") as Hu by (eexists; split; [right; left|done]).
  destruct (field payload "rootEpoch") as [w|]; [|exact Hu]. destruct w as [| |n| | | |]; try exact Hu.
  destruct n; try exact Hu. eexists. split; [left|done].
Qed.

Lemma signs_owner name v bytes :
  signs name v bytes -> exists d e, (name, d) ∈ owners /\ encode_bounded v MANIFEST = Ok e /\ bytes = d ++ e.
Proof.
  intros [H|[o H]].
  - unfold signed_bytes in H. apply bind_ok in H as (spec & Hs%ok_or_ok & H). apply find_schema_in in Hs as [Hs <-].
    apply bind_ok in H as (d & Hd & H). apply bind_ok in H as ([] & _ & H). apply preimage_ok in H as (e & He & ->).
    exists d, e. split; [|done]. assert (spec ∈ all_schemas) as Hin by (apply in_schemas; by left).
    case_bool_decide as E.
    + injection Hd as <-. destruct (root_rows spec v E) as (row & Hrow & <-). by apply owner_of.
    + apply ok_or_ok in Hd. apply (owner_of spec (spec_name spec, d, 64)); [done|].
      unfold preimage_rows. rewrite bool_decide_eq_false_2, Hd by done. left.
  - unfold operation_preimage in H. apply bind_ok in H as (spec & Hs%ok_or_ok & H). apply find_schema_in in Hs as [Hs <-].
    do 2 apply bind_ok in H as ([] & _ & H). apply bind_ok in H as (d & Hd%ok_or_ok & H).
    apply preimage_ok in H as (e & He & ->). exists d, e. split; [|done].
    apply (owner_of spec (spec_name spec, d, 64)); [apply in_schemas; by right|]. by apply operation_rows.
Qed.

Lemma owner_unique n1 n2 d : (n1, d) ∈ owners -> (n2, d) ∈ owners -> n1 = n2.
Proof.
  intros H1 H2. pose proof owners_distinct as Hd. revert H1 H2 Hd. generalize owners as l.
  induction l as [|[n d'] l IH]; intros H1 H2 Hd; [by apply elem_of_nil in H1|].
  cbn [map snd] in Hd. apply NoDup_cons in Hd as [Hn Hd].
  apply elem_of_cons in H1 as [H1|H1]; apply elem_of_cons in H2 as [H2|H2]; simplify_eq; [done| | |by apply IH].
  - destruct Hn. by apply (list_elem_of_fmap_2 snd l (n2, d')).
  - destruct Hn. by apply (list_elem_of_fmap_2 snd l (n1, d')).
Qed.
End Domains.
Import Domains.

(** ** Properties *)

(** C37. [capture_p2] never panics: on every input the recursive schema has
    already refused whatever would reach an [unreachable!()] arm, and a journal
    that it admits has increasing sequence numbers, so that the unchecked [p + 1]
    cannot overflow; checked and wrapping builds agree on every input. *)
Theorem capture_p2_never_panics overflow bytes name :
  capture_p2 overflow bytes name <> Err Panic /\ capture_p2 overflow bytes name <> Err OutOfFuel /\
  capture_p2 overflow bytes name = capture_p2 false bytes name.
Proof.
  destruct (runs_not_stuck _ _ (safe_capture overflow bytes name)) as [H1 H2].
  split_and!; [done|done|apply capture_mode].
Qed.

(** C3. What a capture returns: the canonical decoding of exactly the bytes it
    was given, conforming to the schema whose name it reports (the expected one,
    when a name was expected); an enveloped document is sealed: its payload digest
    is the SHA-256 of the payload's encoding and its 1 to 64 signatures are by
    distinct keys in order, all inside or all outside the development namespace
    according to the trust class. *)
Theorem capture_p2_sound overflow bytes name c :
  capture_p2 overflow bytes name = Ok c ->
  P2Capture.canonical c = bytes /\ encode_bounded (captured_value c) (capture_limits name) = Ok bytes /\
  (forall n, name = Some n -> schema_name c = n) /\
  exists spec recursive,
    spec ∈ all_schemas /\ spec_name spec = schema_name c /\ recursive_schema_spec (schema_name c) = Some recursive /\
    conforms recursive (captured_value c) /\
    (spec_shape spec <> Shape.Unsigned -> exists payload, sealed (captured_value c) (capture_limits name) payload).
Proof.
  intros (spec & recursive & payload & E & Hd & Hin & Hn & Hr & Hc & Hp & _)%p2_capture_steps.
  apply decode_canonical_spec in Hd as [_ Hd]; [|apply limits_ok_capture].
  rewrite E. cbn [P2Capture.canonical schema_name]. replace (captured_value (mkCapture _ _ _)) with (captured_value c) by by rewrite E.
  split_and!; [done|done|done|]. exists spec, recursive. split_and!; try done. intros Hs. exists payload.
  destruct (spec_shape spec); [done|by apply open_envelope_sealed in Hp..].
Qed.

(** A heartbeat of the invalidation stream. *)
Definition sample_digest : string := Eval vm_compute in hex (map (fun _ => xab) (seq 0 32)).
Definition heartbeat_fields : list (string * Value) :=
  [("schema", Text "keep.native-b3-invalidation"); ("version", Unsigned 1); ("authorityId", Text "authority.1");
   ("b3ProfileEnvelopeDigest", Text sample_digest);
   ("scopeKey", Map [("authorityId", Text "authority.1"); ("namespace", Text "native"); ("scope", Text "release");
                     ("genesisRootDigest", Text sample_digest)]);
   ("sessionId", Text "s1"); ("frameKind", Text "heartbeat"); ("sequence", Unsigned 1); ("priorGeneration", Unsigned 3);
   ("newGeneration", Unsigned 3); ("newStateDigest", Text sample_digest); ("counter", Unsigned 9);
   ("requestNonce", Bytes (map (fun _ => x07) (seq 0 32))); ("priorAckDigest", Null)]%string.
Definition heartbeat : Value := Map heartbeat_fields.
Definition heartbeat_digest : string := Eval vm_compute in
  match bare_digest heartbeat MANIFEST with Ok d => d | Err _ => "" end.
Definition sealed_heartbeat : Value :=
  Map [("payload", heartbeat); ("payloadDigest", Text heartbeat_digest);
       ("signatures", Array [Map [("keyId", Text "b3.1"); ("algorithm", Text "ed25519"); ("keyEpoch", Unsigned 0);
                                  ("signature", Bytes (map (fun _ => x07) (seq 0 64)))]])]%string.
Definition heartbeat_bytes : list byte := Eval vm_compute in
  match encode_bounded sealed_heartbeat MANIFEST with Ok bytes => bytes | Err _ => [] end.
Definition heartbeat_capture : P2Capture :=
  mkCapture "B3InvalidationFrameV1" heartbeat_bytes (canon sealed_heartbeat).

Lemma capture_p2_sound_witness :
  capture_p2 true heartbeat_bytes None = Ok heartbeat_capture /\ P2Capture.canonical heartbeat_capture = heartbeat_bytes.
Proof.
  assert (capture_p2 true heartbeat_bytes None = Ok heartbeat_capture) as H by (vm_compute; reflexivity).
  split; [exact H|]. apply (capture_p2_sound true heartbeat_bytes None heartbeat_capture H).
Defined.

(** C10. No two signed documents share their signed bytes: if the bytes hashed
    for two documents (of any schema, B3 operations included) are equal, the
    documents have the same schema name and the same value up to the order of map
    keys.  Every domain is a NUL-terminated text, and all are distinct. *)
Theorem signature_domains_separate n1 v1 n2 v2 bytes :
  u64_values v1 = true -> u64_values v2 = true -> signs n1 v1 bytes -> signs n2 v2 bytes ->
  n1 = n2 /\ canon v1 = canon v2.
Proof.
  intros Hu1 Hu2 (d1 & e1 & Ho1 & He1 & ->)%signs_owner (d2 & e2 & Ho2 & He2 & E)%signs_owner.
  pose proof owners_domains as Hd. rewrite Forall_forall in Hd.
  pose proof (Hd _ Ho1) as D1. pose proof (Hd _ Ho2) as D2. cbn [snd] in D1, D2.
  apply domains_prefix_free in E as [-> ->]; [|done|done].
  split; [by eapply owner_unique|].
  assert (limits_ok MANIFEST) as HL by done.
  pose proof (encode_bounded_canon _ _ _ HL Hu1 He1) as E1. rewrite (encode_bounded_canon _ _ _ HL Hu2 He2) in E1.
  by injection E1.
Qed.

(** The same frame with its fields in another order. *)
Definition heartbeat' : Value := Map (rev heartbeat_fields).
Definition heartbeat_signed : list byte := Eval vm_compute in
  match signed_bytes "B3InvalidationFrameV1" heartbeat with Ok bytes => bytes | Err _ => [] end.

Lemma signature_domains_separate_witness :
  signs "B3InvalidationFrameV1" heartbeat heartbeat_signed /\ signs "B3InvalidationFrameV1" heartbeat' heartbeat_signed /\
  canon heartbeat = canon heartbeat'.
Proof.
  assert (signs "B3InvalidationFrameV1" heartbeat heartbeat_signed) as H1 by (left; vm_compute; reflexivity).
  assert (signs "B3InvalidationFrameV1" heartbeat' heartbeat_signed) as H2 by (left; vm_compute; reflexivity).
  split; [exact H1|]. split; [exact H2|].
  apply (signature_domains_separate "B3InvalidationFrameV1" heartbeat "B3InvalidationFrameV1" heartbeat' heartbeat_signed);
    [reflexivity|reflexivity|exact H1|exact H2].
Defined.
