(* ===== verification/P2Rules.v ===== *)
(** * Theorems on the rules of P2 documents

    What the special checks guarantee: separation of the keys of a root, the
    Landlock closure, consecutive journals, and the two text patterns on which the
    hand-written matcher differs from the pattern it is named after. *)

From S2P Require Import Prelude Cbor CborFacts Paths Schema SchemaFacts P2Specs P2Validators P2Policies P2Capture P2Safety P2Facts.
Import Meaning Steps Captured.

(** ** Keys *)
Module Keys.

(** A key row: its id is an identifier outside the development namespace, its
    key has 32 bytes and its interval is not inverted. *)
Definition key_row (row : Value) (key : string) : Prop :=
  field row "keyId" = Some (Text key) /\ starts_with "development." key = false /\
  field row "algorithm" = Some (Text "ed25519") /\
  (exists bytes, field row "publicKey" = Some (Bytes bytes) /\ len bytes = 32) /\
  exists from until, field row "validFromCounter" = Some (Unsigned from) /\
    field row "validUntilCounter" = Some (Unsigned until) /\ from <= until.

Lemma uint_field_ok v name n : uint_field v name = Ok n <-> field v name = Some (Unsigned n).
Proof.
  unfold uint_field. rewrite bind_ok. setoid_rewrite get_ok. split.
  - intros (w & Hw & H). destruct w; try discriminate. by injection H as <-.
  - intros H. by exists (Unsigned n).
Qed.

Lemma key_row_ok prior global row st :
  validate_key_row (prior, global) row = Ok st ->
  exists key, key_row row key /\ st = (Some key, {[key]} ∪ global) /\ (key ∉ global) /\
    match prior with Some p => cmp_lt str_cmp p key | None => True end.
Proof.
  unfold validate_key_row. intros H. apply bind_ok in H as (_ & _ & H).
  apply bind_ok in H as (key & [Hk _]%identifier_field_ok & H). apply guard_ok in H as [G H].
  rewrite !orb_false_iff in G. destruct G as [[G1 G2%not_after_ok] G3]. apply bool_decide_eq_false in G3.
  apply bind_ok in H as ([] & Ha%require_ok & H). apply bind_ok in H as (pk & Hpk%get_ok & H).
  apply guard_ok in H as [Hl H]. apply bind_ok in H as ([] & Hi & [= <-]).
  unfold validate_interval in Hi. apply bind_ok in Hi as (a & Hva%uint_field_ok & Hi).
  apply bind_ok in Hi as (b & Hvb%uint_field_ok & Hi). apply guard_ok in Hi as [Hab _]. cbn [andb negb orb] in Hab.
  exists key. split; [|by split_and!]. split_and!; try done.
  - destruct pk; try discriminate. cbn in Hl. bool_to_prop. eauto.
  - exists a, b. bool_to_prop. done.
Qed.

Lemma key_rows_from rows prior global st :
  res_fold validate_key_row rows (prior, global) = Ok st ->
  exists keys, Forall2 key_row rows keys /\ NoDup keys /\ Forall (fun k => k ∉ global) keys /\
    st.2 = list_to_set keys ∪ global.
Proof.
  revert prior global. induction rows as [|row rows IH]; intros prior global H; cbn [res_fold] in H.
  - injection H as <-. exists []. split_and!; [constructor|constructor|constructor|set_solver].
  - apply bind_ok in H as (st' & (key & Hrow & -> & Hn & _)%key_row_ok & H).
    apply IH in H as (keys & HF & Hnd & Hnew & E). exists (key :: keys). rewrite Forall_forall in Hnew.
    split_and!; [by constructor| | |set_solver].
    + constructor; [|done]. intros Hin. apply Hnew in Hin. set_solver.
    + constructor; [done|]. apply Forall_forall. intros k Hk. apply Hnew in Hk. set_solver.
Qed.

(** The keys of a role: 1 to 32 rows. *)
Definition role_keys (value : Value) (name : string) (keys : list string) : Prop :=
  exists rows, field value name = Some (Array rows) /\ Forall2 key_row rows keys /\ 1 <= len keys <= 32.

Lemma key_rows_ok value name global n global' :
  validate_key_rows value name global = Ok (n, global') ->
  exists keys, role_keys value name keys /\ n = len keys /\ NoDup keys /\ Forall (fun k => k ∉ global) keys /\
    global' = list_to_set keys ∪ global.
Proof.
  unfold validate_key_rows. intros H. apply bind_ok in H as (v & Hv%get_ok & H). destruct v as [| | | | |rows|]; try discriminate.
  apply guard_ok in H as [G H]. apply orb_false_iff in G as [G1 G2]. apply bool_decide_eq_false in G1. apply Z.ltb_ge in G2.
  apply bind_ok in H as (st & (keys & HF & Hnd & Hnew & E)%key_rows_from & [= <- <-]).
  assert (len rows = len keys) as El by (unfold len; by rewrite (Forall2_length _ _ _ HF)).
  exists keys. split_and!; try done. exists rows. split_and!; [done|done| |lia].
  destruct rows; [done|]. rewrite <- El, len_cons. pose proof (len_nonneg rows). lia.
Qed.

(** The state of the loop over the roles. *)
Lemma roles_from value threshold roles global global' :
  res_fold (validate_role value threshold) roles global = Ok global' ->
  exists keyss, Forall2 (fun role keys => role_keys value (role +:+ "Keys") keys /\
      exists n, field threshold role = Some (Unsigned n) /\ n <> 0 /\ n <= len keys) roles keyss /\
    NoDup (concat keyss) /\ Forall (fun k => k ∉ global) (concat keyss) /\ global' = list_to_set (concat keyss) ∪ global.
Proof.
  revert global. induction roles as [|role roles IH]; intros global H; cbn [res_fold] in H.
  - injection H as <-. exists []. split_and!; [constructor|constructor|constructor|set_solver].
  - apply bind_ok in H as (g & Hrole & H). apply IH in H as (keyss & HF & Hnd & Hnew & ->).
    unfold validate_role in Hrole. apply bind_ok in Hrole as ([n g'] & (keys & Hk & -> & Hkn & Hkg & ->)%key_rows_ok & Hrole).
    apply bind_ok in Hrole as (m & Hm%uint_field_ok & Hrole). apply guard_ok in Hrole as [G [= <-]]. bool_to_prop.
    exists (keys :: keyss). rewrite Forall_forall in Hnew. cbn [concat]. split_and!.
    + constructor; [|done]. split; [done|]. exists m. split_and!; [done|lia|lia].
    + apply NoDup_app. split_and!; [done| |done]. intros k Hk1 Hk2. apply Hnew in Hk2. set_solver.
    + apply Forall_app. split; [done|]. apply Forall_forall. intros k Hin. apply Hnew in Hin. set_solver.
    + set_solver.
Qed.
End Keys.
Import Keys.

(** ** Journals *)
Module Consecutive.
Import P2Safety.Journal.

(** [n, n + 1, ..] *)
Fixpoint count_from (n : Z) (k : nat) : list Z :=
  match k with
  | O => []
  | S k => n :: count_from (n + 1) k
  end.

Definition sequence_of (row : Value) (n : Z) : Prop := field row "sequence" = Some (Unsigned n).

Lemma entry_ok prior row next :
  validate_journal_entry true prior row = Ok next ->
  exists n, sequence_of row n /\ next = Some n /\ match prior with Some p => n = p + 1 /\ p < u64_max | None => True end.
Proof.
  unfold validate_journal_entry. intros H. apply bind_ok in H as (_ & _ & H). apply bind_ok in H as (v & Hv%get_ok & H).
  apply bind_ok in H as (n & Hn & H). destruct v; try discriminate. injection Hn as <-.
  apply bind_ok in H as ([] & Hp & H). do 3 apply bind_ok in H as (? & _ & H). apply guard_ok in H as [_ [= <-]].
  exists n0. split_and!; [done|done|]. destruct prior as [p|]; [|done]. unfold successor in Hp.
  destruct (Z.ltb_spec p u64_max) as [Hlt|]; [|discriminate]. cbn [res_bind] in Hp. apply guard_ok in Hp as [E _].
  bool_to_prop. done.
Qed.

Lemma entries_consecutive rows prior last :
  res_fold (validate_journal_entry true) rows prior = Ok last ->
  match prior with
  | Some p => Forall2 sequence_of rows (count_from (p + 1) (length rows))
  | None => exists n, Forall2 sequence_of rows (count_from n (length rows))
  end.
Proof.
  revert prior. induction rows as [|row rows IH]; intros prior H; cbn [res_fold] in H.
  - destruct prior; [constructor|exists 0; constructor].
  - apply bind_ok in H as (next & (n & Hn & -> & Hp)%entry_ok & H). apply IH in H.
    destruct prior as [p|]; cbn [length count_from].
    + destruct Hp as [-> _]. by constructor.
    + exists n. by constructor.
Qed.
End Consecutive.
Import Consecutive.

(** ** Landlock *)
Module Landlock.

Lemma sorted_texts_from allowed rows out out' :
  res_fold (sorted_text_step allowed) rows out = Ok out' ->
  exists texts, rows = map Text texts /\ out' = out ++ texts /\ Forall (fun t => t ∈ allowed) texts.
Proof.
  revert out. induction rows as [|row rows IH]; intros out H; cbn [res_fold] in H.
  - injection H as <-. exists []. rewrite app_nil_r. by split_and!; [|done|constructor].
  - apply bind_ok in H as (o & Hr & H). apply IH in H as (texts & -> & -> & HF).
    unfold sorted_text_step in Hr. apply bind_ok in Hr as (t & ->%text_ok & Hr). apply guard_ok in Hr as [G [= <-]].
    apply orb_false_iff in G as [G _]. apply negb_false_iff, contains_spec in G.
    exists (t :: texts). rewrite <- app_assoc. split_and!; [done|done|by constructor].
Qed.

(** A field that lists texts of a set. *)
Definition rights (v : Value) (name : string) (texts : list string) : Prop := field v name = Some (Array (map Text texts)).

Lemma sorted_field_ok v name allowed texts :
  sorted_text_field v name allowed = Ok texts -> rights v name texts /\ Forall (fun t => t ∈ allowed) texts.
Proof.
  unfold sorted_text_field. intros H. apply bind_ok in H as (w & Hw%get_ok & H). destruct w; try discriminate.
  apply sorted_texts_from in H as (ts & -> & -> & HF). done.
Qed.

(** Every right a rule grants is one the policy handles: file rights below a
    path, network rights on a port. *)
Definition rule_handled (fs net : list string) (rule : Value) : Prop :=
  exists kind granted, field rule "kind" = Some (Text kind) /\ rights rule "accessRights" granted /\
    if bool_decide (kind = "path-beneath"%string) then
      (exists path, field rule "path" = Some (Text path) /\ canonical_absolute path = true) /\
      Forall (fun r => r ∈ fs) granted
    else
      (kind = "tcp-port"%string \/ kind = "udp-port"%string) /\ Forall (fun r => r ∈ net) granted.

(** The Landlock ABI that introduces a right. *)
Definition since (right : string) : Z :=
  if bool_decide (right = "ioctl-dev") then 5
  else if bool_decide (right ∈ ["abstract-unix-socket"; "signal"]) then 6
  else if bool_decide (right = "resolve-unix") then 9
  else if bool_decide (right ∈ ["bind-udp"; "connect-send-udp"]) then 10
  else 4.

(** [listed] are the rights among [all] that an ABI knows. *)
Definition of_abi (all : list string) (abi : Z) (listed : list string) : Prop :=
  forall r, r ∈ listed <-> r ∈ all /\ since r <= abi.

(** Two lists over a concrete set of rights agree when each right of it decides so. *)
Lemma of_abi_filter all abi (keep : string -> bool) :
  Forall (fun r => keep r = (since r <=? abi)) all -> of_abi all abi (List.filter keep all).
Proof.
  rewrite Forall_forall. intros H r. rewrite !list_elem_of_In, filter_In. split.
  - intros [Hr Hk]. rewrite H in Hk by by apply list_elem_of_In. by apply Z.leb_le in Hk.
  - intros [Hr Hk]. rewrite H by by apply list_elem_of_In. by apply Z.leb_le in Hk.
Qed.

Lemma expected_rights abi :
  4 <= abi ->
  of_abi LANDLOCK_V2_FS abi (expected_fs abi) /\ of_abi LANDLOCK_V2_NET abi (expected_net abi) /\
  of_abi LANDLOCK_SCOPE abi (expected_scope abi).
Proof.
  intros H4. assert ((4 <=? abi) = true) as E4 by lia. split_and!.
  - apply of_abi_filter. repeat constructor; unfold since; cbn; rewrite ?E4, ?orb_false_r; done.
  - unfold expected_net. assert (of_abi LANDLOCK_V2_NET abi (List.filter (fun r => since r <=? abi) LANDLOCK_V2_NET)) as H
      by (apply of_abi_filter; by repeat constructor).
    cbn in H. change (since "bind-tcp") with 4 in H. change (since "connect-tcp") with 4 in H.
    change (since "bind-udp") with 10 in H. change (since "connect-send-udp") with 10 in H.
    rewrite E4 in H. by destruct (10 <=? abi).
  - unfold expected_scope. assert (of_abi LANDLOCK_SCOPE abi (List.filter (fun r => since r <=? abi) LANDLOCK_SCOPE)) as H
      by (apply of_abi_filter; by repeat constructor).
    cbn in H. change (since "abstract-unix-socket") with 6 in H. change (since "signal") with 6 in H.
    by destruct (6 <=? abi).
Qed.

Lemma rule_rights_ok row admitted handled m u :
  rule_rights row admitted handled m = Ok u ->
  exists granted, rights row "accessRights" granted /\ Forall (fun r => r ∈ handled) granted.
Proof.
  unfold rule_rights. intros H. apply bind_ok in H as (granted & [Hr _]%sorted_field_ok & H).
  apply guard_ok in H as [E _]. exists granted. split; [done|]. apply Forall_forall. intros r Hr'.
  apply list_elem_of_In in Hr'. apply contains_spec. destruct (contains handled r) eqn:Hc; [done|].
  assert (existsb (fun right => negb (contains handled right)) granted = true) as Hx by (apply existsb_exists; exists r; by rewrite Hc).
  congruence.
Qed.

Lemma v2_rule_ok fs net prior rule next :
  validate_landlock_v2_rule fs net prior rule = Ok next -> rule_handled fs net rule.
Proof.
  unfold validate_landlock_v2_rule, rule_handled. intros H. apply bind_ok in H as (kind & Hk & H).
  apply bind_ok in Hk as (w & Hw%get_ok & ->%text_ok). apply bind_ok in H as (_ & _ & H).
  apply bind_ok in H as (sort & H & _). exists kind. case_bool_decide as E.
  - apply bind_ok in H as (path & Hp & H). apply bind_ok in Hp as (w & Hp%get_ok & ->%text_ok).
    apply guard_ok in H as [G H]. apply negb_false_iff in G.
    apply bind_ok in H as ([] & (granted & Hg & HF)%rule_rights_ok & _). exists granted. split_and!; try done. by exists path.
  - destruct (bool_decide (kind = "tcp-port"%string) || bool_decide (kind = "udp-port"%string)) eqn:Hkind; [|discriminate].
    apply bind_ok in H as (v & _ & H). apply bind_ok in H as (port & _ & H).
    apply bind_ok in H as ([] & (granted & Hg & HF)%rule_rights_ok & _). exists granted. split_and!; try done.
    apply orb_true_iff in Hkind. by rewrite !bool_decide_eq_true in Hkind.
Qed.
End Landlock.
Import Landlock.

(** ** Properties *)

(** The keys of an accepted root are separated: each of the eight roles has
    1 to 32 keys and a threshold between 1 and their number, and no key id occurs
    twice, neither within a role nor in two roles; none is of the development
    namespace, every key has 32 bytes and a validity interval that is not
    inverted. *)
Theorem root_keys_separated value :
  validate_root value = Ok tt ->
  exists threshold keyss,
    field value "threshold" = Some threshold /\
    Forall2 (fun role keys => role_keys value (role +:+ "Keys") keys /\
      exists n, field threshold role = Some (Unsigned n) /\ n <> 0 /\ n <= len keys) ROLES keyss /\
    NoDup (concat keyss) /\ len (concat keyss) <= 256.
Proof.
  unfold validate_root. intros H. apply bind_ok in H as (_ & _ & H). apply bind_ok in H as (epoch & _ & H).
  apply bind_ok in H as (pred & _ & H). apply guard_ok in H as [_ H].
  apply bind_ok in H as (threshold & Ht%get_ok & H). apply bind_ok in H as ([] & _ & H).
  apply bind_ok in H as (global & (keyss & HF & Hnd & _ & ->)%roles_from & H). apply guard_ok in H as [G _].
  exists threshold, keyss. split_and!; try done. apply Z.ltb_ge in G.
  rewrite union_empty_r_L, size_list_to_set in G; [exact G|exact Hnd].
Qed.

(** A root with one key per role. *)
Definition key_of (role : string) : Value :=
  Map [("keyId", Text (role +:+ ".1")); ("algorithm", Text "ed25519"); ("publicKey", Bytes (map (fun _ => x07) (seq 0 32)));
       ("keyEpoch", Unsigned 0); ("validFromCounter", Unsigned 1); ("validUntilCounter", Unsigned 2)]%string.
Definition sample_root : Value :=
  Map (app [("trustClass", Text "production"); ("rootEpoch", Unsigned 0); ("predecessorRootEnvelopeDigest", Null);
        ("threshold", Map (map (fun role => (role, Unsigned 1)) ROLES));
        ("keyEpochs", Array (map (fun role => Map [("role", Text role); ("minimumEpoch", Unsigned 0)]) SORTED_ROLES))]
         (map (fun role => (role +:+ "Keys", Array [key_of role])) ROLES))%string.

Lemma root_keys_separated_witness :
  validate_root sample_root = Ok tt /\
  exists threshold keyss, field sample_root "threshold" = Some threshold /\
    Forall2 (fun role keys => role_keys sample_root (role +:+ "Keys") keys /\
      exists n, field threshold role = Some (Unsigned n) /\ n <> 0 /\ n <= len keys) ROLES keyss /\
    NoDup (concat keyss) /\ len (concat keyss) <= 256.
Proof.
  assert (validate_root sample_root = Ok tt) as H by (vm_compute; reflexivity).
  split; [exact H|]. exact (root_keys_separated sample_root H).
Defined.

(** An accepted journal is numbered consecutively: its entries carry the
    sequence numbers n, n + 1, ... in a build that traps overflow, whatever the
    first number is. *)
Theorem journal_consecutive value :
  validate_journal_entries true value = Ok tt ->
  exists rows n, field value "entries" = Some (Array rows) /\ Forall2 sequence_of rows (count_from n (length rows)).
Proof.
  unfold validate_journal_entries, array_or_unreachable. intros H. apply bind_ok in H as (rows & Hr & H).
  apply bind_ok in Hr as (v & Hv%get_ok & Hr). destruct v; try discriminate. injection Hr as ->.
  apply bind_ok in H as (last & H & _). apply entries_consecutive in H as [n H]. by exists rows, n.
Qed.

Definition journal_entry (n : Z) : Value :=
  Map [("sequence", Unsigned n); ("eventCode", Text "e"); ("subjectDigest", Text sample_digest); ("counter", Unsigned 0)]%string.

Lemma journal_consecutive_witness :
  exists rows n, field (Map [("entries"%string, Array (map journal_entry [7; 8; 9]))]) "entries" = Some (Array rows) /\
    Forall2 sequence_of rows (count_from n (length rows)).
Proof. apply (journal_consecutive (Map [("entries"%string, Array (map journal_entry [7; 8; 9]))])). vm_compute. reflexivity. Defined.

(** An accepted Landlock policy (version 2) handles exactly the rights of
    its effective ABI: file rights but [ioctl-dev] below ABI 5 and [resolve-unix]
    below 9, the UDP rights from ABI 10, scopes from ABI 6; the effective ABI is
    between the minimum and 10; and every rule grants only rights that the policy
    handles, files below a canonical absolute path, network rights on a port. *)
Theorem landlock_v2_closed value :
  validate_landlock_v2 value = Ok tt ->
  exists minimum abi rules fs net scope,
    field value "minimumAbi" = Some (Unsigned minimum) /\ field value "effectiveAbi" = Some (Unsigned abi) /\
    4 <= minimum <= abi /\ abi <= 10 /\
    rights value "handledFilesystemRights" fs /\ of_abi LANDLOCK_V2_FS abi fs /\
    rights value "handledNetworkRights" net /\ of_abi LANDLOCK_V2_NET abi net /\
    rights value "handledScopeRights" scope /\ of_abi LANDLOCK_SCOPE abi scope /\
    field value "rules" = Some (Array rules) /\ Forall (rule_handled fs net) rules.
Proof.
  unfold validate_landlock_v2. intros H. apply bind_ok in H as (m & Hm%get_ok & H). apply guard_ok in H as [Gm H].
  apply bind_ok in H as (w & _ & H). apply guard_ok in H as [_ H]. apply bind_ok in H as (e & He%get_ok & H).
  apply bind_ok in H as (abi & Habi & H). destruct e; try discriminate. apply check_ok in Habi as [Ga [= ->]].
  apply bind_ok in H as (minimum & Hmin & H). unfold uint_or_unreachable, get in Hmin. rewrite Hm in Hmin.
  destruct m; try discriminate. injection Hmin as ->. apply guard_ok in H as [Gle H].
  apply bind_ok in H as (fs & [Hfs _]%sorted_field_ok & H). apply bind_ok in H as (net & [Hnet _]%sorted_field_ok & H).
  apply bind_ok in H as (scope & [Hscope _]%sorted_field_ok & H). apply guard_ok in H as [G H].
  rewrite !orb_false_iff, !negb_false_iff in G. destruct G as [[G1 G2] G3]. bool_to_prop. subst fs net scope.
  apply bind_ok in H as (rules & Hr & H). unfold array_or_unreachable in Hr. apply bind_ok in Hr as (v & Hv%get_ok & Hr).
  destruct v; try discriminate. injection Hr as ->. apply bind_ok in H as (last & H & _).
  exists minimum, abi, rules, (expected_fs abi), (expected_net abi), (expected_scope abi).
  destruct (expected_rights abi ltac:(lia)) as (E1 & E2 & E3). split_and!; try done; try lia. clear -H. revert H. generalize ""%string as prior.
  induction rules as [|rule rules IH]; intros prior H; [constructor|]. cbn [res_fold] in H.
  apply bind_ok in H as (next & Hrule & H). constructor; [by eapply v2_rule_ok|by eapply IH].
Qed.

(** A policy of ABI 6 with one rule of each kind. *)
Definition texts (l : list string) : Value := Array (map Text l).
Definition sample_landlock : Value :=
  Map [("minimumAbi", Unsigned 5); ("reviewedMaximumAbi", Unsigned 10); ("effectiveAbi", Unsigned 6);
       ("handledFilesystemRights", texts (expected_fs 6)); ("handledNetworkRights", texts (expected_net 6));
       ("handledScopeRights", texts (expected_scope 6));
       ("rules", Array [
          Map [("kind", Text "path-beneath"); ("path", Text "/usr"); ("accessRights", texts ["execute"; "read-file"])];
          Map [("kind", Text "tcp-port"); ("port", Unsigned 443); ("accessRights", texts ["connect-tcp"])]])]%string.

Lemma landlock_v2_closed_witness :
  validate_landlock_v2 sample_landlock = Ok tt /\
  exists fs, rights sample_landlock "handledFilesystemRights" fs /\ of_abi LANDLOCK_V2_FS 6 fs.
Proof.
  assert (validate_landlock_v2 sample_landlock = Ok tt) as H by (vm_compute; reflexivity). split; [exact H|].
  destruct (landlock_v2_closed sample_landlock H) as (m & abi & rules & fs & net & scope & _ & Ha & _ & _ & Hf & Hl & _).
  injection Ha as <-. exists fs. split; [exact Hf|exact Hl].
Defined.

(** Two matchers of [validate_text_pattern] differ from the pattern whose
    name they carry.  The pattern of identifiers asks for an alphanumeric first
    character, the matcher does not: it accepts a text that begins with a
    punctuation character.  The pattern of absolute paths admits [+] and excludes
    [@], the matcher does the opposite. *)
Theorem text_pattern_divergence :
  validate_text_pattern "-x" IDENTIFIER_PATTERN = true /\ validate_text_pattern "/usr/c++" ABSOLUTE_PATTERN = false /\
  validate_text_pattern "/usr/a@b" ABSOLUTE_PATTERN = true /\
  forall b s, byte_among "._+@-" b = true -> forallb (byte_among "._+@-") (str_bytes s) = true -> slen s <= 4095 ->
    validate_text_pattern (str_of_bytes (b :: str_bytes s)) IDENTIFIER_PATTERN = true.
Proof.
  split_and!; [reflexivity..|]. intros b s Hb Hs Hl. unfold validate_text_pattern.
  rewrite bool_decide_eq_true_2 by done. unfold slen. rewrite str_bytes_of_bytes, len_cons.
  cbn [forallb]. rewrite Hb, Hs, !andb_true_r. unfold slen in Hl. rewrite (proj2 (Z.leb_le _ _)) by lia. done.
Qed.

Lemma text_pattern_divergence_witness : validate_text_pattern (str_of_bytes (x2e :: str_bytes "a")) IDENTIFIER_PATTERN = true.
Proof. apply (proj2 (proj2 (proj2 text_pattern_divergence)) x2e "a"%string); vm_compute; first [reflexivity|discriminate]. Defined.
