(* ===== verification/P2Corpus.v ===== *)
(** * The description and the smallest documents of the P2 schemas ([protocol/src/p2_schema.rs])

    [recursive_schema_metadata] writes the schema tables down as one canonical
    document; [minimal_p2_corpus] builds the smallest document of every schema and
    captures it. *)

From S2P Require Import Prelude Cbor Schema P2Specs P2Policies P2Capture.

(** ** The description *)

Definition optional_strings (values : option (list string)) : Value :=
  match values with Some values => Array (map Text values) | None => Null end.
(** [v.map_or(Value::Null, f)] *)
Definition optional {A : Type} (f : A -> Value) (o : option A) : Value := match o with Some a => f a | None => Null end.

Fixpoint describe_recursive (spec : RSpec) : Value :=
  match spec with
  | RIdentifier values => Map [("kind", Text "identifier"); ("enum", optional_strings values)]
  | RText values pattern => Map [("kind", Text "text"); ("enum", optional_strings values); ("pattern", optional Text pattern)]
  | RUint minimum maximum => Map [("kind", Text "uint"); ("min", Unsigned minimum); ("max", Unsigned maximum)]
  | RBoolean => Map [("kind", Text "bool")]
  | RDigest semantic => Map [("kind", Text "digest"); ("semantic", Text semantic)]
  | RBytes exact maximum => Map [("kind", Text "bytes"); ("exact", optional Unsigned exact); ("max", optional Unsigned maximum)]
  | RNullable inner => Map [("kind", Text "nullable"); ("inner", describe_recursive inner)]
  | ROneOf variants => Map [("kind", Text "one-of"); ("variants", Array (map describe_recursive variants))]
  | RRecord fields =>
      Map [("kind", Text "record");
           ("fields", Array (map (fun field => Map [("name", Text field.1); ("spec", describe_recursive field.2)]) fields))]
  | RArray item minimum maximum sorted_scalar sort_by unique_by =>
      Map [("kind", Text "array"); ("item", describe_recursive item); ("min", Unsigned minimum); ("max", Unsigned maximum);
           ("sortedScalar", Bool sorted_scalar); ("sortBy", optional_strings (Some sort_by));
           ("uniqueBy", optional_strings (Some unique_by))]
  | RTagged tag variants =>
      Map [("kind", Text "tagged"); ("tag", Text tag);
           ("variants", Array (map (fun variant => Map [("name", Text variant.1); ("spec", describe_recursive variant.2)]) variants))]
  end%string.

Definition METADATA : Limits := mkLimits (1024 * 1024) 64 (max_items MANIFEST) (max_collection_items MANIFEST) (max_text_bytes MANIFEST).
Definition schema_order (a b : SchemaSpec) : comparison := str_cmp (spec_name a) (spec_name b).
(** The rows of the document; [expect] panics on a name without a specification. *)
Definition schema_rows : P2 (list (string * RSpec)) :=
  res_map (fun schema => let? spec := ok_or (recursive_schema_spec (spec_name schema)) Panic in Ok (spec_name schema, spec))
    (sort_by schema_order all_schemas).
Definition describe_rows (rows : list (string * RSpec)) : Value :=
  Array (map (fun row : string * RSpec => Map [("name"%string, Text row.1); ("spec"%string, describe_recursive row.2)]) rows).
Definition recursive_schema_metadata : P2 (list byte) :=
  let? rows := schema_rows in p2_encode (describe_rows rows) METADATA.

(** ** The smallest documents *)

(** [s.repeat(32)] *)
Definition repeat32 (s : string) : string := str_of_bytes (concat (repeat (str_bytes s) 32)).
Definition D11 : string := repeat32 "11".
Definition D22 : string := repeat32 "22".

(** [values.and_then(|v| v.first()).copied().unwrap_or("x")] *)
Definition first_or_x (values : option (list string)) : string :=
  match values with Some (v :: _) => v | _ => "x"%string end.
(** [variants[0]] panics on no variant. *)
Fixpoint minimal_recursive (spec : RSpec) : P2 Value :=
  match spec with
  | RIdentifier values | RText values _ => Ok (Text (first_or_x values))
  | RUint minimum _ => Ok (Unsigned minimum)
  | RBoolean => Ok (Bool false)
  | RDigest _ => Ok (Text D11)
  | RBytes exact _ => Ok (Bytes (repeat x00 (Z.to_nat (default 0 exact))))
  | RNullable _ => Ok Null
  | ROneOf variants => match variants with v :: _ => minimal_recursive v | [] => Err Panic end
  | RRecord fields =>
      let? rows := res_map (fun field => let? value := minimal_recursive field.2 in Ok (field.1, value)) fields in Ok (Map rows)
  | RArray item minimum _ _ _ _ =>
      let? values := res_map (fun _ => minimal_recursive item) (repeat tt (Z.to_nat minimum)) in Ok (Array values)
  | RTagged _ variants => match variants with v :: _ => minimal_recursive v.2 | [] => Err Panic end
  end.

(** The first entry of that name is replaced; other values are left alone. *)
Fixpoint replace_entry (name : string) (replacement : Value) (rows : list (string * Value)) : list (string * Value) :=
  match rows with
  | [] => []
  | (key, v) :: rows =>
      if bool_decide (key = name) then (key, replacement) :: rows else (key, v) :: replace_entry name replacement rows
  end.
Definition set_value (name : string) (replacement : Value) (value : Value) : Value :=
  match value with Map rows => Map (replace_entry name replacement rows) | _ => value end.
Definition set_text (name text : string) : Value -> Value := set_value name (Text text).
Definition set_uint (name : string) (n : Z) : Value -> Value := set_value name (Unsigned n).

Definition minimal_scope : Value :=
  Map [("authorityId", Text "authority.1"); ("namespace", Text "native"); ("scope", Text "release"); ("genesisRootDigest", Text D11)]%string.
Definition minimal_key (id : string) : Value :=
  Map [("keyId", Text id); ("algorithm", Text "ed25519"); ("publicKey", Bytes (repeat x01 32)); ("keyEpoch", Unsigned 1);
       ("validFromCounter", Unsigned 1); ("validUntilCounter", Unsigned 2)]%string.
Definition minimal_signatures (role : bool) : Value :=
  Array [Map ([("keyId", Text "key.1"); ("algorithm", Text "ed25519"); ("keyEpoch", Unsigned 1); ("signature", Bytes (repeat x00 64))]
              ++ if role then [("authorizationRole", Text "root")] else [])%list]%string.
Definition minimal_state : list (string * Value) :=
  [("scopeKey", minimal_scope); ("generation", Unsigned 0); ("rootEpoch", Unsigned 0); ("rootEnvelopeDigest", Text D11);
   ("b3ProfileEnvelopeDigest", Text D11); ("headSequence", Unsigned 0); ("headEnvelopeDigest", Text D11);
   ("deploymentEpoch", Unsigned 0); ("artifactFloor", Unsigned 0); ("counter", Unsigned 1); ("quarantined", Bool false);
   ("quarantineDigest", Text D11); ("consumedAuthorization", Null)]%string.
Definition minimal_projection : Value :=
  Map (List.filter (fun row : string * Value =>
         negb (bool_decide (row.1 = "generation"%string)) && negb (bool_decide (row.1 = "consumedAuthorization"%string))) minimal_state).

Definition ROLES : list string := ["root"; "release"; "timestamp"; "revocation"; "recovery"; "b3"; "builder"; "comparer"]%string.
Definition SORTED_ROLES : list string := ["b3"; "builder"; "comparer"; "recovery"; "release"; "revocation"; "root"; "timestamp"]%string.
Definition LANDLOCK_V2_FS_ABI4 : list string :=
  ["execute"; "make-block"; "make-char"; "make-dir"; "make-fifo"; "make-reg"; "make-sock"; "make-sym"; "read-dir"; "read-file"; "refer";
   "remove-dir"; "remove-file"; "truncate"; "write-file"]%string.
(** The assignments of an arm, in its order. *)
Definition interval (from until : string) : list (Value -> Value) := [set_uint from 1; set_uint until 2].
Definition production : Value -> Value := set_text "trustClass" "production".
Definition minimal_root : list (Value -> Value) :=
  ([production; set_text "rootId" "root.1"; set_value "threshold" (Map (map (fun role => (role, Unsigned 1)) SORTED_ROLES))]
   ++ map (fun role => set_value (role +:+ "Keys") (Array [minimal_key (role +:+ ".1")])) ROLES
   ++ [set_value "keyEpochs" (Array (map (fun role => Map [("role", Text role); ("minimumEpoch", Unsigned 1)]) SORTED_ROLES))])%list%string.
Definition minimal_purpose : Value :=
  Map [("purpose", Text "rollback");
       ("authorization", Map [("kind", Text "rollback"); ("authorizationEnvelopeDigest", Text D11)])]%string.
Definition specializations : list (string * list (Value -> Value)) :=
  [("NativeGenesisEpochV1",
     [production; set_value "rootKeys" (Array [minimal_key "root.1"]); set_uint "rootThreshold" 1;
      set_value "participantIds" (Array [Text "participant.1"]); set_uint "minimumParticipants" 1]);
   ("NativeRootV1", minimal_root);
   ("NativeRootCeremonyRecordV1", [production; set_value "participantKeyIds" (Array [Text "root.1"])]);
   ("NativeTimestampV1", production :: interval "issuedCounter" "expiresCounter");
   ("NativeRollbackAuthorizationV1",
     ([production; set_uint "fromDeploymentEpoch" 1; set_uint "toDeploymentEpoch" 2; set_uint "minimumArtifactVersion" 1;
      set_uint "toArtifactVersion" 1] ++ interval "issuedCounter" "expiresCounter")%list);
   ("NativeRevocationRecoveryV1",
     ([production; set_value "expectedB3State" (Map minimal_state); set_value "proposedB3StateProjection" minimal_projection;
      set_value "quarantinedHeadEnvelopeDigests" (Array [Text D11]); set_uint "selectedSequence" 1]
      ++ interval "issuedCounter" "expiresCounter")%list);
   ("NativeB3GenesisBaseV1", [production]);
   ("B3StateV1", [fun _ => Map minimal_state]);
   ("NativeB3ProfileV1",
     ([production; set_text "algorithm" "ed25519"] ++ interval "validFromCounter" "validUntilCounter" ++ [set_uint "maxHeartbeatIntervalMs" 1])%list);
   ("B3ReceiptV1",
     [set_text "operationKind" "read"; set_value "scopeKey" minimal_scope; set_value "newStateDigest" (Text D11);
      set_value "priorStateDigest" (Text D11)]);
   ("B3InvalidationFrameV1", [set_value "scopeKey" minimal_scope; set_text "frameKind" "heartbeat"; set_uint "sequence" 1]);
   ("B3InvalidationAckV1", [set_uint "sequence" 1]);
   ("NativeBuildIdentityV1", ([production; set_text "identityKind" "builder"] ++ interval "validFromCounter" "validUntilCounter")%list);
   ("NativeObservationResultV1", [set_text "resultCode" "pass"]);
   ("NativeControlPolicyV1", [set_text "decisionClass" "permit"]);
   ("NativePeerPolicyV1", [set_uint "requiredUid" 0]);
   ("NativeFdFlagsV1", []);
   ("NativeTransportIdentityV1", [set_text "transportKind" "vsock"]);
   ("NativeEnvironmentPolicyV1", [set_text "workingDirectoryPolicy" "empty"; set_text "networkPolicy" "denied"]);
   ("NativeComparisonV1", [set_text "algorithm" "sha256-byte-for-byte/v1"; set_value "rightSubjectDigest" (Text D22)]);
   ("NativeIoMaxV1", [set_text "defaultPolicy" "deny-unlisted"]);
   ("NativeLandlockPolicyV1", [set_uint "minimumAbi" 1]);
   ("NativeLandlockPolicyV2",
     [set_uint "version" 2; set_uint "minimumAbi" 4; set_uint "effectiveAbi" 4; set_uint "reviewedMaximumAbi" 10;
      set_value "handledFilesystemRights" (Array (map Text LANDLOCK_V2_FS_ABI4));
      set_value "handledNetworkRights" (Array (map Text LANDLOCK_V2_NET_ABI4_9)); set_value "handledScopeRights" (Array [])]);
   ("NativeSeccompPolicyV1", [set_text "architecture" "x86_64"; set_text "defaultAction" "kill-process"]);
   ("NativeReproducibilityRecordV1",
     [set_text "comparisonAlgorithm" "sha256-byte-for-byte/v1"; set_value "builderProvenanceEnvelopeDigests" (Array [Text D11; Text D22])]);
   ("B3GenesisOperationV1", [set_text "operationKind" "genesis"]);
   ("B3ReadOperationV1", [set_text "operationKind" "read"; set_value "scopeKey" minimal_scope]);
   ("B3CasOperationV1",
     [set_text "operationKind" "compare-and-advance"; set_value "scopeKey" minimal_scope; set_value "callerPurpose" minimal_purpose]);
   ("B3LeaseOperationV1", [set_text "operationKind" "validate-lease"; set_value "scopeKey" minimal_scope]);
   ("B3SubscribeOperationV1", [set_text "operationKind" "subscribe-invalidation"; set_value "scopeKey" minimal_scope])]%string.
Definition specialize_minimal (name : string) (value : Value) : Value :=
  match List.find (fun row => bool_decide (row.1 = name)) specializations with
  | Some (_, assignments) => fold_left (fun value assign => assign value) assignments value
  | None => value
  end.

(** The specification of the payload of a schema; [unreachable!] and [expect] panic. *)
Definition payload_of (spec : SchemaSpec) (recursive : RSpec) : P2 RSpec :=
  if bool_decide (spec_shape spec = Shape.Unsigned) then Ok recursive else
  match recursive with
  | RRecord fields =>
      match List.find (fun field => bool_decide (field.1 = "payload"%string)) fields with
      | Some (_, payload) => Ok payload
      | None => Err Panic
      end
  | _ => Err Panic
  end.
Definition positive_epoch (payload : Value) : bool :=
  match field payload "rootEpoch" with Some (Unsigned epoch) => 0 <? epoch | _ => false end.
Definition minimal_document (overflow : bool) (spec : SchemaSpec) : P2 (string * list byte) :=
  let? recursive := ok_or (recursive_schema_spec (spec_name spec)) Panic in
  let? payload_spec := payload_of spec recursive in
  let? payload := minimal_recursive payload_spec in
  let payload := specialize_minimal (spec_name spec) payload in
  let? value :=
    if bool_decide (spec_shape spec = Shape.Unsigned) then Ok payload else
    let? digest := bare_digest payload MANIFEST in
    let role_tagged := bool_decide (spec_shape spec = Shape.RootEnvelope) && positive_epoch payload in
    Ok (Map [("payload"%string, payload); ("payloadDigest"%string, Text digest); ("signatures"%string, minimal_signatures role_tagged)]) in
  let? bytes := p2_encode value MANIFEST in
  let? _ := capture_p2 overflow bytes (Some (spec_name spec)) in
  Ok (spec_name spec, bytes).
Definition minimal_p2_corpus (overflow : bool) : P2 (list (string * list byte)) :=
  let? corpus := res_map (minimal_document overflow) all_schemas in
  Ok (sort_by (fun a b => str_cmp a.1 b.1) corpus).

(** ** The closed tables *)

#[local] Instance byte_countable : Countable byte.
Proof. refine (inj_countable Byte.to_N Byte.of_N _). apply Byte.of_to_N. Defined.
(** [set.insert(name)] refuses a second insertion. *)
Definition insert_once {A : Type} `{Countable A} (e : ProtocolError) (seen : gset A) (a : A) : P2 (gset A) :=
  throw_if bool_decide (a ∈ seen) with Error e ;; Ok ({[a]} ∪ seen).
Definition check_closed (seen : gset string * gset (list byte)) (spec : SchemaSpec) : P2 (gset string * gset (list byte)) :=
  let '(names, domains) := seen in
  let? names := insert_once "P2 schema name duplicate" names (spec_name spec) in
  let? _ := res_fold (insert_once "P2 schema field duplicate") (spec_fields spec) ∅ in
  let? domains :=
    match signature_domain spec with Some d => insert_once "P2 domain duplicate" domains d | None => Ok domains end in
  Ok (names, domains).
Definition schema_metadata_is_closed : P2 unit :=
  let? _ := res_fold check_closed all_schemas (∅, ∅) in Ok tt.
