(* ===== verification/P2CorpusFacts.v ===== *)
(** * Theorems on the description and the smallest documents of the P2 schemas

    The description determines the schemas it describes; every schema has a document
    that every check admits. *)

From S2P Require Import Prelude Cbor CborFacts Schema P2Specs P2Capture SchemaFacts P2Safety P2Facts P2Corpus.

Import Spec.

(** ** The description determines the schema *)
Module Description.

(** Every number of the specification is a [u64]. *)
Definition is_u64 (n : Z) : bool := (0 <=? n) && (n <=? u64_max).
Definition optional_u64 (o : option Z) : bool := match o with Some n => is_u64 n | None => true end.
Fixpoint numbers_in_u64 (spec : RSpec) : bool :=
  match spec with
  | RIdentifier _ | RText _ _ | RBoolean | RDigest _ => true
  | RUint minimum maximum => is_u64 minimum && is_u64 maximum
  | RBytes exact maximum => optional_u64 exact && optional_u64 maximum
  | RNullable inner => numbers_in_u64 inner
  | ROneOf variants => forallb numbers_in_u64 variants
  | RRecord fields => forallb (fun field => numbers_in_u64 field.2) fields
  | RArray item minimum maximum _ _ _ => numbers_in_u64 item && is_u64 minimum && is_u64 maximum
  | RTagged _ variants => forallb (fun variant => numbers_in_u64 variant.2) variants
  end.

Lemma texts_u64 l : forallb u64_values (map Text l) = true. Proof. by induction l. Qed.
Lemma strings_u64 o : u64_values (optional_strings o) = true. Proof. destruct o; [apply texts_u64|done]. Qed.
Lemma option_u64 o : optional_u64 o = true -> u64_values (optional Unsigned o) = true. Proof. by destruct o. Qed.
Lemma pattern_u64 o : u64_values (optional Text o) = true. Proof. by destruct o. Qed.
Lemma forallb_mapped {A B} (f : A -> bool) (g : B -> bool) (h : A -> B) l :
  Forall (fun a => f a = true -> g (h a) = true) l -> forallb f l = true -> forallb g (map h l) = true.
Proof. induction 1 as [|a l Ha _ IH]; [done|]. cbn. intros [Hf Hl]%andb_true_iff. by rewrite Ha, IH. Qed.
Lemma named_u64 (rows : list (string * RSpec)) :
  Forall (fun f => numbers_in_u64 f.2 = true -> u64_values (describe_recursive f.2) = true) rows ->
  forallb (fun f => numbers_in_u64 f.2) rows = true ->
  forallb u64_values (map (fun f => Map [("name"%string, Text f.1); ("spec"%string, describe_recursive f.2)]) rows) = true.
Proof.
  intros HF. apply forallb_mapped. eapply Forall_impl; [exact HF|]. intros f Hf E. cbn in *. by rewrite Hf.
Qed.
Lemma described_u64 spec : numbers_in_u64 spec = true -> u64_values (describe_recursive spec) = true.
Proof.
  induction spec as [values|values pattern|lo hi| |semantic|exact hi|inner IH|variants IH|fields IH|item lo hi s o u IH|tag variants IH]
    using Decides.spec_ind; cbn [numbers_in_u64 describe_recursive u64_values forallb snd]; intros H;
    repeat match goal with H : _ && _ = true |- _ => apply andb_true_iff in H as [? ?] end; try done.
  - by rewrite strings_u64.
  - by rewrite strings_u64, pattern_u64.
  - unfold is_u64 in *. by rewrite H, H0.
  - by rewrite !option_u64.
  - by rewrite IH.
  - by rewrite (forallb_mapped _ _ _ _ IH H).
  - by rewrite (named_u64 _ IH H).
  - unfold is_u64 in *. rewrite IH, H0, H1 by done. cbn [optional_strings u64_values]. by rewrite !texts_u64.
  - by rewrite (named_u64 _ IH H).
Qed.

(** The canonical form of the description. *)
Fixpoint sorted_description (spec : RSpec) : Value :=
  match spec with
  | RIdentifier values => Map [("enum", optional_strings values); ("kind", Text "identifier")]
  | RText values pattern => Map [("enum", optional_strings values); ("kind", Text "text"); ("pattern", optional Text pattern)]
  | RUint minimum maximum => Map [("max", Unsigned maximum); ("min", Unsigned minimum); ("kind", Text "uint")]
  | RBoolean => Map [("kind", Text "bool")]
  | RDigest semantic => Map [("kind", Text "digest"); ("semantic", Text semantic)]
  | RBytes exact maximum => Map [("max", optional Unsigned maximum); ("kind", Text "bytes"); ("exact", optional Unsigned exact)]
  | RNullable inner => Map [("kind", Text "nullable"); ("inner", sorted_description inner)]
  | ROneOf variants => Map [("kind", Text "one-of"); ("variants", Array (map sorted_description variants))]
  | RRecord fields =>
      Map [("kind", Text "record");
           ("fields", Array (map (fun field => Map [("name", Text field.1); ("spec", sorted_description field.2)]) fields))]
  | RArray item minimum maximum sorted_scalar sort_by unique_by =>
      Map [("max", Unsigned maximum); ("min", Unsigned minimum); ("item", sorted_description item); ("kind", Text "array");
           ("sortBy", optional_strings (Some sort_by)); ("uniqueBy", optional_strings (Some unique_by)); ("sortedScalar", Bool sorted_scalar)]
  | RTagged tag variants =>
      Map [("tag", Text tag); ("kind", Text "tagged");
           ("variants", Array (map (fun variant => Map [("name", Text variant.1); ("spec", sorted_description variant.2)]) variants))]
  end%string.
Lemma canon_texts l : map canon (map Text l) = map Text l. Proof. induction l; cbn; congruence. Qed.
Lemma canon_strings o : canon (optional_strings o) = optional_strings o. Proof. destruct o; cbn; [by rewrite canon_texts|done]. Qed.
Lemma canon_optional {A} (f : A -> Value) o : (forall a, canon (f a) = f a) -> canon (optional f o) = optional f o.
Proof. intros H. by destruct o; cbn. Qed.
Lemma canon_named (rows : list (string * RSpec)) :
  Forall (fun f => canon (describe_recursive f.2) = sorted_description f.2) rows ->
  map canon (map (fun f => Map [("name"%string, Text f.1); ("spec"%string, describe_recursive f.2)]) rows)
  = map (fun f => Map [("name"%string, Text f.1); ("spec"%string, sorted_description f.2)]) rows.
Proof. induction 1 as [|f l Hf _ IH]; [done|]. cbn [map]. f_equal; [|exact IH]. by rewrite <- Hf. Qed.
Lemma canon_described spec : canon (describe_recursive spec) = sorted_description spec.
Proof.
  induction spec as [values|values pattern|lo hi| |semantic|exact hi|inner IH|variants IH|fields IH|item lo hi s o u IH|tag variants IH]
    using Decides.spec_ind; cbn [sorted_description].
  - by rewrite <- (canon_strings values).
  - by rewrite <- (canon_strings values), <- (canon_optional Text pattern).
  - done.
  - done.
  - done.
  - by rewrite <- (canon_optional Unsigned exact), <- (canon_optional Unsigned hi).
  - by rewrite <- IH.
  - replace (map sorted_description variants) with (map canon (map describe_recursive variants)); [done|].
    induction IH as [|f l Hf _ IH']; [done|]. cbn [map]. congruence.
  - by rewrite <- canon_named.
  - by rewrite <- IH, <- (canon_strings (Some o)), <- (canon_strings (Some u)).
  - by rewrite <- canon_named.
Qed.

Lemma texts_inj : Inj (=) (=) (map Text).
Proof. intros l. induction l as [|s l IH]; intros [|t k]; try done. cbn. intros [= -> H]. by rewrite (IH _ H). Qed.
Lemma strings_inj : Inj (=) (=) optional_strings.
Proof. intros [l|] [k|]; try done. intros [= H%texts_inj]. by subst. Qed.
Lemma optional_text_inj : Inj (=) (=) (optional Text). Proof. intros [a|] [b|]; try done. by intros [= ->]. Qed.
Lemma optional_unsigned_inj : Inj (=) (=) (optional Unsigned). Proof. intros [a|] [b|]; try done. by intros [= ->]. Qed.
Lemma map_inj_under {A B} (f : A -> B) l k : Forall (fun a => forall b, f a = f b -> a = b) l -> map f l = map f k -> l = k.
Proof. intros H. revert k. induction H as [|a l Ha _ IH]; intros [|b k]; try done. cbn. intros [= Hf Hk]. by rewrite (Ha _ Hf), (IH _ Hk). Qed.
Lemma named_inj (rows rows' : list (string * RSpec)) :
  Forall (fun f => forall b, sorted_description f.2 = sorted_description b -> f.2 = b) rows ->
  map (fun f => Map [("name"%string, Text f.1); ("spec"%string, sorted_description f.2)]) rows
  = map (fun f => Map [("name"%string, Text f.1); ("spec"%string, sorted_description f.2)]) rows' -> rows = rows'.
Proof.
  intros HF. apply (map_inj_under (fun f : string * RSpec => _)). eapply Forall_impl; [exact HF|]. intros [n s] Hs [m t] [= -> H].
  cbn in Hs. by rewrite (Hs _ H).
Qed.
Lemma sorted_description_inj spec : forall spec', sorted_description spec = sorted_description spec' -> spec = spec'.
Proof.
  induction spec as [values|values pattern|lo hi| |semantic|exact hi|inner IH|variants IH|fields IH|item lo hi s o u IH|tag variants IH]
    using Decides.spec_ind; intros []; cbn [sorted_description]; try (intros [=]; congruence).
  - intros [= H%strings_inj]. by subst.
  - intros [= H%strings_inj H'%optional_text_inj]. by subst.
  - intros [= H%optional_unsigned_inj H'%optional_unsigned_inj]. by subst.
  - intros [= H]. by rewrite (IH _ H).
  - intros [= H%(map_inj_under _ _ _ IH)]. by subst.
  - intros [= H%(named_inj _ _ IH)]. by subst.
  - intros [= -> -> H H1%texts_inj H2%texts_inj ->]. rewrite (IH _ H). by subst.
  - intros [= -> H%(named_inj _ _ IH)]. by subst.
Qed.

Definition rows_in_u64 (rows : list (string * RSpec)) : bool := forallb (fun row => numbers_in_u64 row.2) rows.
Lemma rows_u64 rows : rows_in_u64 rows = true -> u64_values (describe_rows rows) = true.
Proof. apply named_u64, Forall_forall. intros f _. apply described_u64. Qed.
Lemma describe_rows_inj rows rows' : canon (describe_rows rows) = canon (describe_rows rows') -> rows = rows'.
Proof.
  unfold describe_rows. cbn [canon]. intros [= H]. rewrite !canon_named in H.
  - apply named_inj in H; [done|]. apply Forall_forall. intros f _. apply sorted_description_inj.
  - apply Forall_forall. intros f _. apply canon_described.
  - apply Forall_forall. intros f _. apply canon_described.
Qed.
End Description.
Import Description.



(** ** Every schema has a document *)
Module Smallest.

(** [None] selects the same schema. *)
Definition discriminates (c : P2Capture) : bool :=
  match select_schema None (default (captured_value c) (field (captured_value c) "payload")) with
  | Ok spec => bool_decide (spec_name spec = schema_name c)
  | Err _ => false
  end.
(** The schemas without a discriminator of their own: a state has no [schema] field, and
    both versions of the Landlock policy share theirs. *)
Definition by_name_only : list string := ["B3StateV1"; "NativeLandlockPolicyV2"]%string.
Definition admitted (row : string * list byte) : bool :=
  match capture_p2 false row.2 (Some row.1) with
  | Ok c => contains by_name_only row.1 || discriminates c
  | Err _ => false
  end.

Lemma names_nodup : NoDup (map spec_name all_schemas).
Proof. apply (bool_decide_unpack _). vm_compute. exact I. Qed.
Lemma named_once s s' : s ∈ all_schemas -> s' ∈ all_schemas -> spec_name s = spec_name s' -> s = s'.
Proof.
  intros [i Hi]%list_elem_of_lookup [j Hj]%list_elem_of_lookup E.
  assert (i = j) as ->; [|congruence].
  apply (NoDup_lookup _ i j (spec_name s) names_nodup); rewrite list_lookup_fmap.
  - by rewrite Hi.
  - by rewrite Hj, E.
Qed.

Lemma capture_selected name overflow bytes c :
  capture_p2 overflow bytes (Some name) = Ok c -> schema_name c = name /\ P2Capture.canonical c = bytes.
Proof.
  intros (spec & recursive & payload & -> & _ & _ & Hn & _)%Captured.p2_capture_steps. cbn. by rewrite (Hn name eq_refl).
Qed.
Lemma no_evidence : "NativeEvidenceV1"%string ∉ map spec_name all_schemas.
Proof. apply (bool_decide_unpack (_ ∉ _)). vm_compute. exact I. Qed.
Lemma capture_manifest name overflow bytes c : capture_p2 overflow bytes (Some name) = Ok c -> capture_limits (Some name) = MANIFEST.
Proof.
  intros (spec & _ & _ & _ & _ & Hin & Hn & _)%Captured.p2_capture_steps. specialize (Hn name eq_refl).
  unfold capture_limits. rewrite bool_decide_false; [done|]. intros [= E]. apply no_evidence. rewrite <- E, <- Hn.
  by apply list_elem_of_fmap_2.
Qed.
(** The discriminator alone selects the same schema. *)
Lemma capture_unnamed name overflow bytes c :
  capture_p2 overflow bytes (Some name) = Ok c -> discriminates c = true ->
  capture_p2 overflow bytes None = Ok c.
Proof.
  intros H Hd. pose proof (capture_manifest _ _ _ _ H) as HL. unfold capture_p2 in *. rewrite HL in H. change (capture_limits None) with MANIFEST.
  apply guard_ok in H as [-> H]. apply bind_ok in H as (v & -> & H). cbn [res_bind].
  apply bind_ok in H as (spec & Hs & H). pose proof (runs_ok _ _ _ (Special.select_runs _ _) Hs) as Hin.
  apply guard_ok in H as [Hn H]. assert (captured_value c = v /\ schema_name c = spec_name spec) as [Hv Hc].
  { do 7 apply bind_ok in H as (? & _ & H). by injection H as <-. }
  unfold discriminates in Hd. rewrite Hv in Hd. destruct (select_schema None _) as [spec'|] eqn:Hs'; [|done].
  pose proof (runs_ok _ _ _ (Special.select_runs _ _) Hs') as Hin'. apply bool_decide_eq_true in Hd.
  rewrite (named_once spec' spec) by (done || congruence). cbn [res_bind is_some_and]. exact H.
Qed.

Lemma res_map_mode {E A B} (f g : A -> result E B) l : (forall a, f a = g a) -> res_map f l = res_map g l.
Proof. intros H. induction l as [|a l IH]; [done|]. cbn [res_map]. by rewrite H, IH. Qed.
Lemma corpus_mode overflow : minimal_p2_corpus overflow = minimal_p2_corpus false.
Proof.
  unfold minimal_p2_corpus. rewrite (res_map_mode (minimal_document overflow) (minimal_document false)); [exact eq_refl|].
  intros spec. unfold minimal_document.
  do 5 (match goal with |- res_bind ?m _ = _ => destruct m; cbn [res_bind]; [|reflexivity] end). by rewrite Captured.capture_mode.
Qed.
Lemma admitted_captured overflow (row : string * list byte) :
  admitted row = true -> exists c, capture_p2 overflow row.2 (Some row.1) = Ok c /\ schema_name c = row.1 /\ P2Capture.canonical c = row.2 /\
    (row.1 ∉ by_name_only -> capture_p2 overflow row.2 None = Ok c).
Proof.
  unfold admitted. destruct row as [name bytes]; cbn [fst snd]. destruct (capture_p2 false bytes (Some name)) as [c|e] eqn:Hc; [|done].
  intros Ha. exists c. rewrite (Captured.capture_mode overflow bytes (Some name)), (Captured.capture_mode overflow bytes None). destruct (capture_selected _ _ _ _ Hc) as [Hs Hb]. split_and!; [done..|]. intros Hx.
  apply orb_true_iff in Ha as [Ha|Ha]; [|by apply (capture_unnamed name)].
  exfalso. apply Hx. unfold contains in Ha. apply existsb_exists in Ha as (s & Hs' & <-%bool_decide_eq_true). by apply list_elem_of_In.
Qed.
Lemma smallest_run :
  match minimal_p2_corpus false with
  | Ok corpus => bool_decide (map fst corpus = sort_by str_cmp (map spec_name all_schemas)) && forallb admitted corpus
  | Err _ => false
  end = true.
Proof. vm_compute. reflexivity. Qed.
End Smallest.
Import Smallest.

(** C30. Every schema has a document: the generator of the smallest documents succeeds,
    with exactly one document for each schema in the order of the names, and every
    document is captured under its schema by all the checks of the P2 boundary, to the
    same bytes.  Without a name the discriminator of the document finds the same schema,
    except for the two schemas that have no discriminator of their own. *)
Theorem corpus_complete overflow :
  exists corpus, minimal_p2_corpus overflow = Ok corpus /\
    map fst corpus = sort_by str_cmp (map spec_name all_schemas) /\
    Forall (fun row : string * list byte =>
      exists c, capture_p2 overflow row.2 (Some row.1) = Ok c /\ schema_name c = row.1 /\ P2Capture.canonical c = row.2 /\
        (row.1 ∉ by_name_only -> capture_p2 overflow row.2 None = Ok c)) corpus.
Proof.
  rewrite corpus_mode. pose proof smallest_run as H. destruct (minimal_p2_corpus false) as [corpus|e]; [|discriminate H].
  exists corpus. apply andb_true_iff in H as [Hn%bool_decide_eq_true Ha]. split; [exact eq_refl|]. split; [exact Hn|]. clear Hn.
  rewrite forallb_forall in Ha. apply Forall_forall. intros row Hin%list_elem_of_In%Ha. by apply admitted_captured.
Qed.
