(* ===== verification/Native.v ===== *)
(** * Checks of native boundary documents ([protocol/src/lib.rs])

    The helper functions of the boundary validators and the measurement values.
    They are stated in the monad of [Schema], with the messages of [lib.rs]. *)

From S2P Require Import Prelude Cbor Sha256 Paths Schema.

Inductive Schema : Set :=
| Request | Response | Deployment | NativeClosure | NativeIndex | Evidence | Revocation.
Inductive TrustClass : Set := Production | Development.
#[export] Instance TrustClass_eq_dec : EqDecision TrustClass.
Proof. solve_decision. Defined.
#[export] Instance Schema_eq_dec : EqDecision Schema.
Proof. solve_decision. Defined.

Definition PROTOCOL_NAME : string := "keep.native-boundary".
Definition PROTOCOL_VERSION : Z := 2.

(** ** Helpers *)

Definition exact_keys (value : Value) (expected : list string) : P2 unit :=
  match value with
  | Map entries =>
      throw_if negb (len entries =? len expected)
               || existsb (fun key => negb (existsb (fun e : string * Value => bool_decide (e.1 = key)) entries)) expected
        with Error "schema fields are not exact" ;;
      Ok tt
  | _ => Err (Error "schema root is not a map")
  end.

Definition projection_without (value : Value) (excluded : list string) : P2 Value :=
  match value with
  | Map entries => Ok (Map (List.filter (fun e : string * Value => negb (contains excluded e.1)) entries))
  | _ => Err (Error "projection source is not a map")
  end.
Definition projection_digest (domain : list byte) (projection : Value) : P2 string :=
  let? canonical := p2_encode projection MANIFEST in
  p2_sha256_hex (domain ++ canonical).

Definition text_of (value : Value) (key : string) : option string := v ← field value key; as_text v.
Definition require_text (value : Value) (key expected : string) : P2 unit :=
  if bool_decide (text_of value key = Some expected) then Ok tt else Err (Error "schema discriminator mismatch").
Definition require_version (value : Value) (version : Z) : P2 unit :=
  if bool_decide ((v ← field value "version"; as_u64 v) = Some version) then Ok tt
  else Err (Error "schema version mismatch").

Definition identifier (value : Value) : P2 string :=
  let? text := ok_or (as_text value) (Error "identifier is not text") in
  throw_if bool_decide (text = ""%string) || (128 <? slen text)
           || negb (forallb (fun ib : nat * byte => identifier_byte ib.1 ib.2)
                      (zip (seq 0 (length (str_bytes text))) (str_bytes text)))
    with Error "identifier is malformed" ;;
  Ok text.
Definition digest (value : Value) : P2 string :=
  let? text := ok_or (as_text value) (Error "digest is not text") in
  throw_if negb (slen text =? 64) || negb (forallb lower_hex (str_bytes text))
           || forallb (fun b => bool_decide (b = x30)) (str_bytes text)
    with Error "digest is malformed" ;;
  Ok text.
Definition signature_bytes (value : Value) : P2 unit :=
  match value with
  | Bytes bytes =>
      if (len bytes =? 64) && negb (forallb (fun b => bool_decide (b = x00)) bytes) then Ok tt
      else Err (Error "Ed25519 signature bytes malformed")
  | _ => Err (Error "Ed25519 signature bytes malformed")
  end.
Definition array (value : Value) (maximum : Z) : P2 (list Value) :=
  match value with
  | Array values =>
      if len values <=? maximum then Ok values else Err (Error "array is malformed or oversized")
  | _ => Err (Error "array is malformed or oversized")
  end.

(** [BTreeSet::insert] refusing a repetition. *)
Definition insert_new {A} `{Countable A} (seen : gset A) (a : A) (message : string) : P2 (gset A) :=
  throw_if bool_decide (a ∈ seen) with Error message ;;
  Ok ({[a]} ∪ seen).
Definition unique_text (values : list Value) : P2 unit :=
  let? _ := res_fold (fun (seen : gset string) value =>
                        let? id := identifier value in
                        insert_new seen id "identifier array contains duplicates") values ∅ in
  Ok tt.

Definition trust_name (trust : TrustClass) : string :=
  match trust with Production => "production" | Development => "development" end.
Definition require_trust (value : Value) (trust : TrustClass) : P2 unit :=
  if bool_decide (text_of value "trustClass" = Some (trust_name trust)) then Ok tt
  else Err (Error "trust class refused").

(** [fn field] *)
Definition required (value : Value) (key : string) : P2 Value :=
  ok_or (field value key) (Error "required field missing").
Definition uint_field (value : Value) (key : string) : P2 Z :=
  let? v := required value key in ok_or (as_u64 v) (Error "uint64 field malformed").
Definition id_field (value : Value) (key : string) : P2 string :=
  let? v := required value key in identifier v.
Definition digest_field (value : Value) (key : string) : P2 string :=
  let? v := required value key in digest v.
Definition bool_field (value : Value) (key : string) : P2 bool :=
  let? v := required value key in
  match v with Bool b => Ok b | _ => Err (Error "boolean field malformed") end.
Definition enum_field (value : Value) (key : string) (allowed : list string) : P2 string :=
  let? found := id_field value key in
  if contains allowed found then Ok found else Err (Error "enum field unsupported").

(** [out.windows(2).any(|pair| pair[0] >= pair[1])] *)
Definition unsorted (out : list string) : bool := windows2_any (fun a b => negb (str_ltb a b)) out.
Definition sorted_ids (value : Value) (maximum : Z) : P2 (list string) :=
  let? values := array value maximum in
  let? out := res_map identifier values in
  throw_if unsorted out with Error "identifier list is not sorted unique" ;;
  Ok out.
Definition sorted_digests (value : Value) (maximum : Z) : P2 (list string) :=
  let? values := array value maximum in
  let? out := res_map digest values in
  throw_if unsorted out with Error "digest list is not sorted unique" ;;
  Ok out.
Definition ids_field (value : Value) (key : string) (maximum : Z) : P2 (list string) :=
  let? v := required value key in sorted_ids v maximum.
Definition array_field (value : Value) (key : string) (maximum : Z) : P2 (list Value) :=
  let? v := required value key in array v maximum.

(** [for key in keys { read(value, key)?; }] *)
Definition each_key {A} (read : Value -> string -> P2 A) (value : Value) (keys : list string) : P2 unit :=
  for_each (fun key => let? _ := read value key in Ok tt) keys.
Definition exact_bool_map (value : Value) (keys : list string) : P2 unit :=
  let? _ := exact_keys value keys in each_key bool_field value keys.
Definition exact_uint_map (value : Value) (keys : list string) : P2 unit :=
  let? _ := exact_keys value keys in each_key uint_field value keys.

(** [if prior.is_some_and(|previous| previous >= id) { .. } prior = Some(id);] *)
Definition ascending (message : string) (prior : option string) (id : string) : P2 (option string) :=
  throw_if is_some_and prior (fun previous => negb (str_ltb previous id)) with Error message ;;
  Ok (Some id).

(** ** Envelopes *)

Definition require_key_namespace (key : string) (trust : TrustClass) : P2 unit :=
  match trust with
  | Production =>
      if starts_with "development." key then Err (Error "development signature key refused") else Ok tt
  | Development =>
      if negb (starts_with "development." key) then Err (Error "development signature key namespace required") else Ok tt
  end.

Definition SIGNATURE_KEYS : list string := ["keyId"; "algorithm"; "keyEpoch"; "signature"]%string.
Definition payload_signature (trust : option TrustClass) (signature : Value) : P2 unit :=
  let? _ := exact_keys signature SIGNATURE_KEYS in
  let? v := ok_or (field signature "keyId") (Error "signature key missing") in
  let? key := identifier v in
  let? _ := match trust with Some trust => require_key_namespace key trust | None => Ok tt end in
  let? _ := require_text signature "algorithm" "ed25519" in
  throw_if bool_decide ((v ← field signature "keyEpoch"; as_u64 v) = None) with Error "signature epoch malformed" ;;
  let? v := ok_or (field signature "signature") (Error "signature bytes missing") in
  signature_bytes v.

Definition payload (value : Value) (keys : list string) (schema : string) (trust : option TrustClass) : P2 Value :=
  let? _ := exact_keys value ["payload"; "payloadDigest"; "signatures"]%string in
  let? payload := ok_or (field value "payload") (Error "payload missing") in
  let? _ := exact_keys payload keys in
  let? _ := require_text payload "schema" schema in
  let? _ := require_version payload 1 in
  let? _ := match trust with Some trust => require_trust payload trust | None => Ok tt end in
  let? expected := ok_or (text_of value "payloadDigest") (Error "payload digest missing") in
  let? canonical := p2_encode payload MANIFEST in
  let? actual := p2_sha256_hex canonical in
  throw_if negb (bool_decide (expected = actual)) with Error "payload digest mismatch" ;;
  let? signatures :=
    match field value "signatures" with
    | Some (Array rows) =>
        if negb (bool_decide (rows = [])) && (len rows <=? 32) then Ok rows else Err (Error "signatures malformed")
    | _ => Err (Error "signatures malformed")
    end in
  let? _ := for_each (payload_signature trust) signatures in
  Ok payload.

Definition validate_envelope_key_namespaces (value : Value) (trust : TrustClass) : P2 unit :=
  let? signatures := array_field value "signatures" 32 in
  for_each (fun signature => let? key := id_field signature "keyId" in require_key_namespace key trust) signatures.
Definition require_envelope_epoch (value : Value) (epoch : Z) : P2 unit :=
  let? signatures := array_field value "signatures" 32 in
  for_each (fun signature =>
              let? found := uint_field signature "keyEpoch" in
              throw_if negb (found =? epoch) with Error "signature key epoch mismatch" ;;
              Ok tt) signatures.

(** ** Measurements *)

Definition MEASUREMENT_FIELDS : list string :=
  ["capture.window"; "cgroup.limits"; "credential.state"; "fd.inventory"; "identity.gid.effective"; "identity.gid.real";
   "identity.gid.saved"; "identity.groups"; "identity.uid.effective"; "identity.uid.real"; "identity.uid.saved";
   "incarnation"; "landlock.policy"; "loader.executable"; "loader.shared-libraries"; "mount.topology";
   "namespaces.inodes"; "network.topology"; "seccomp.launch"; "seccomp.steady"; "security.capabilities.ambient";
   "security.capabilities.bounding"; "security.capabilities.effective"; "security.capabilities.inheritable";
   "security.capabilities.permitted"; "security.dumpable"; "security.no-new-privileges"]%string.
Definition measurement_field (value : Value) (key : string) : P2 string :=
  let? found := id_field value key in
  if contains MEASUREMENT_FIELDS found then Ok found else Err (Error "measurement field outside registry").

(** One turn of the loop of [uint_values]. *)
Definition uint_step (prior : option Z) (value : Value) : P2 (option Z) :=
  let? current := ok_or (as_u64 value) (Error "uint64 set malformed") in
  throw_if is_some_and prior (fun previous => current <=? previous) with Error "uint64 set not sorted unique" ;;
  Ok (Some current).
Definition uint_values (value : Value) (maximum : Z) : P2 unit :=
  let? values := array value maximum in
  let? _ := res_fold uint_step values None in
  Ok tt.

(** [exact_keys] with the discriminator [type]. *)
Definition typed (value : Value) (keys : list string) (type : string) : P2 unit :=
  let? _ := exact_keys value ("type"%string :: keys) in
  require_text value "type" type.

Definition NAMESPACE_KEYS : list string := ["user"; "pid"; "mount"; "network"; "ipc"; "cgroup"]%string.
Definition MOUNT_FLAGS : list string := ["readOnly"; "nodev"; "nosuid"; "noexec"]%string.

(** The condition on a mount target, but its length limit. *)
Definition target_bad (target : string) : bool :=
  (slen target <? 2) || negb (starts_with "/" target) || contains_double_slash target
  || existsb (fun part => bool_decide (part = "."%string) || bool_decide (part = ".."%string)) (split x2f target)
  || negb (forallb (fun b => bool_decide (b = x2f) || byte_among "._@-" b) (str_bytes target)).

Definition validate_mount_entry (mount : Value) : P2 unit :=
  let? _ := exact_keys mount ["target"; "sourceDigest"; "readOnly"; "nodev"; "nosuid"; "noexec"]%string in
  let? v := required mount "target" in
  let? target := ok_or (as_text v) (Error "mount target malformed") in
  throw_if target_bad target with Error "mount target malformed" ;;
  let? _ := digest_field mount "sourceDigest" in
  each_key bool_field mount MOUNT_FLAGS.

Definition validate_descriptor (fd : Value) : P2 unit :=
  let? _ := exact_keys fd ["slot"; "purpose"; "flagsDigest"; "seals"; "credentialDomain"]%string in
  let? _ := uint_field fd "slot" in
  let? _ := id_field fd "purpose" in
  let? _ := digest_field fd "flagsDigest" in
  let? _ := ids_field fd "seals" 32 in
  let? domain := required fd "credentialDomain" in
  match domain with
  | Null => Ok tt
  | _ => let? _ := id_field fd "credentialDomain" in Ok tt
  end.

Definition is_one_of (name : string) (names : list string) : bool := contains names name.

Definition validate_measurement_value (field_name : string) (value : Value) : P2 unit :=
  if starts_with "identity.uid." field_name || starts_with "identity.gid." field_name then
    let? _ := typed value ["value"]%string "uint64" in
    let? _ := uint_field value "value" in
    Ok tt
  else if bool_decide (field_name = "identity.groups"%string) then
    let? _ := typed value ["values"]%string "uint64-set" in
    let? values := required value "values" in
    uint_values values 64
  else if starts_with "security.capabilities." field_name then
    let? _ := typed value ["values"]%string "identifier-set" in
    let? _ := ids_field value "values" 128 in
    Ok tt
  else if is_one_of field_name ["security.dumpable"; "security.no-new-privileges"]%string then
    let? _ := typed value ["value"]%string "boolean" in
    let? _ := bool_field value "value" in
    Ok tt
  else if bool_decide (field_name = "loader.executable"%string) then
    let? _ := typed value ["value"]%string "digest" in
    let? _ := digest_field value "value" in
    Ok tt
  else if bool_decide (field_name = "loader.shared-libraries"%string) then
    let? _ := typed value ["values"]%string "digest-set" in
    let? values := required value "values" in
    let? _ := sorted_digests values 256 in
    Ok tt
  else if bool_decide (field_name = "namespaces.inodes"%string) then
    let? _ := typed value NAMESPACE_KEYS "namespace-inodes" in
    each_key uint_field value NAMESPACE_KEYS
  else if bool_decide (field_name = "cgroup.limits"%string) then
    let? _ := typed value ["memoryMax"; "pidsMax"; "cpuMaxMicros"; "ioMaxDigest"]%string "cgroup-limits" in
    let? _ := each_key uint_field value ["memoryMax"; "pidsMax"; "cpuMaxMicros"]%string in
    let? _ := digest_field value "ioMaxDigest" in
    Ok tt
  else if is_one_of field_name ["seccomp.launch"; "seccomp.steady"]%string then
    let? _ := typed value ["architecture"; "defaultAction"; "allowedActions"; "filterDigest"; "noNewPrivileges"]%string
                "seccomp-policy" in
    let? _ := id_field value "architecture" in
    let? _ := id_field value "defaultAction" in
    let? _ := ids_field value "allowedActions" 256 in
    let? _ := digest_field value "filterDigest" in
    let? no_new := bool_field value "noNewPrivileges" in
    throw_if negb no_new with Error "seccomp lacks no-new-privileges" ;;
    Ok tt
  else if bool_decide (field_name = "landlock.policy"%string) then
    let? _ := typed value ["abi"; "handledRights"; "scopedRights"; "rulesetDigest"]%string "landlock-policy" in
    let? _ := uint_field value "abi" in
    let? _ := ids_field value "handledRights" 256 in
    let? _ := ids_field value "scopedRights" 256 in
    let? _ := digest_field value "rulesetDigest" in
    Ok tt
  else if bool_decide (field_name = "mount.topology"%string) then
    let? _ := typed value ["entries"]%string "mount-topology" in
    let? entries := array_field value "entries" 128 in
    for_each validate_mount_entry entries
  else if bool_decide (field_name = "network.topology"%string) then
    let? _ := typed value ["interfaces"; "routes"; "addressFamilies"]%string "network-topology" in
    let? _ := ids_field value "interfaces" 128 in
    let? _ := ids_field value "routes" 256 in
    let? _ := ids_field value "addressFamilies" 32 in
    Ok tt
  else if bool_decide (field_name = "fd.inventory"%string) then
    let? _ := typed value ["entries"]%string "descriptor-inventory" in
    let? entries := array_field value "entries" 256 in
    for_each validate_descriptor entries
  else if bool_decide (field_name = "credential.state"%string) then
    let? _ := typed value ["domains"; "deliveredAfterAttestation"; "descriptorCount"]%string "credential-state" in
    let? _ := ids_field value "domains" 32 in
    let? delivered := bool_field value "deliveredAfterAttestation" in
    throw_if negb delivered with Error "credential delivered before attestation" ;;
    let? _ := uint_field value "descriptorCount" in
    Ok tt
  else if bool_decide (field_name = "incarnation"%string) then
    let? _ := typed value ["pidfdDigest"; "startCounter"; "expiresCounter"]%string "incarnation" in
    let? _ := digest_field value "pidfdDigest" in
    let? expires := uint_field value "expiresCounter" in
    let? start := uint_field value "startCounter" in
    throw_if expires <? start with Error "incarnation counter order invalid" ;;
    Ok tt
  else if bool_decide (field_name = "capture.window"%string) then
    let? _ := typed value ["capturedCounter"; "expiresCounter"]%string "counter-window" in
    let? expires := uint_field value "expiresCounter" in
    let? captured := uint_field value "capturedCounter" in
    throw_if expires <? captured with Error "capture counter order invalid" ;;
    Ok tt
  else Err (Error "measurement field outside registry").
