(* ===== verification/Deployment.v ===== *)
(** * Deployments ([validate_deployment], [protocol/src/lib.rs])

    The native deployment manifest: its artifacts, roles, channels, prober,
    provisioners and authorities, and the cross checks between them.  The sets and
    maps the function builds are the records below, one per loop. *)

From S2P Require Import Prelude Cbor Sha256 Paths Schema Native.

Definition DEPLOYMENT_PAYLOAD_KEYS : list string :=
  ["schema"; "version"; "trustClass"; "deploymentId"; "deploymentEpoch"; "deploymentBaseDigest"; "predecessorDigest";
   "bootPolicy"; "protocol"; "artifacts"; "roles"; "channels"; "probers"; "provisioners"; "b3"; "release";
   "revocation"; "rollback"; "evidence"]%string.
Definition DEPLOYMENT_B3_KEYS : list string :=
  ["authorityId"; "genesisBaseDigest"; "b3ProfileEnvelopeDigest"; "keyEpoch"; "assurance"; "channelId"]%string.
Definition DEPLOYMENT_REVOCATION_KEYS : list string :=
  ["authorityId"; "keyEpoch"; "namespace"; "scope"; "genesisCheckpointEnvelopeDigest"; "minimumSequence";
   "maxStalenessCounters"; "compromiseSemantics"]%string.
Definition DEPLOYMENT_ROLLBACK_KEYS : list string :=
  ["deploymentEpoch"; "minimumArtifactVersion"; "predecessorDigest"; "authorizedRollbackEnvelopeDigest"]%string.

(** ** The base digest *)

(** [fields.iter_mut().find(|(key, _)| key == name)], assigning the value. *)
Fixpoint replace_first (name : string) (v : Value) (fields : list (string * Value)) : option (list (string * Value)) :=
  match fields with
  | [] => None
  | (key, old) :: fields =>
      if bool_decide (key = name) then Some ((key, v) :: fields)
      else fields ← replace_first name v fields; Some ((key, old) :: fields)
  end.

Definition DEPLOYMENT_BASE_DOMAIN : list byte := str_bytes "keep.native-deployment-base/v1" ++ [x00].
(** The projection that [deployment_base_digest] hashes. *)
Definition deployment_projection (value : Value) : P2 Value :=
  let? _ := exact_keys value DEPLOYMENT_PAYLOAD_KEYS in
  let? rollback := required value "rollback" in
  let? _ := exact_keys rollback DEPLOYMENT_ROLLBACK_KEYS in
  let? rollback_projection := projection_without rollback ["authorizedRollbackEnvelopeDigest"]%string in
  let? projection := projection_without value ["deploymentBaseDigest"]%string in
  match projection with
  | Map fields =>
      let? fields := ok_or (replace_first "rollback" rollback_projection fields)
                       (Error "rollback missing from deployment projection") in
      Ok (Map fields)
  | _ => Err Panic
  end.
Definition deployment_base_digest (value : Value) : P2 string :=
  let? projection := deployment_projection value in
  projection_digest DEPLOYMENT_BASE_DOMAIN projection.

(** ** Conditions with [?] inside: [||] evaluates its right side only if needed *)
Definition res_or (a b : P2 bool) : P2 bool := let? x := a in if x then Ok true else b.
Notation "a '||?' b" := (res_or a b) (at level 51, right associativity).
Definition id_differs (value : Value) (key expected : string) : P2 bool :=
  let? found := id_field value key in Ok (negb (bool_decide (found = expected))).
Definition uint_differs (value : Value) (key : string) (expected : Z) : P2 bool :=
  let? found := uint_field value key in Ok (negb (found =? expected)).
(** [enum_field(value, key, allowed).is_err()] *)
Definition enum_fails (value : Value) (key : string) (allowed : list string) : P2 bool :=
  Ok (negb (is_ok (enum_field value key allowed))).
(** [id_field(value, key).unwrap_or("")] *)
Definition id_or_empty (value : Value) (key : string) : string :=
  match id_field value key with Ok id => id | Err _ => "" end.

(** ** Boot policy and protocol *)

Definition KERNEL_CELL_KEYS : list string := ["cellId"; "minimumKernel"; "maximumKernel"; "requiredFeatures"]%string.
Definition kernel_cell (cell : Value) : P2 string :=
  let? _ := exact_keys cell KERNEL_CELL_KEYS in
  let? id := id_field cell "cellId" in
  let? _ := id_field cell "minimumKernel" in
  let? _ := id_field cell "maximumKernel" in
  let? _ := ids_field cell "requiredFeatures" 64 in
  Ok id.
Definition validate_boot (value : Value) : P2 unit :=
  let? boot := required value "bootPolicy" in
  let? _ := exact_keys boot ["maxLaunchMs"; "maxResponseMs"; "maxAttestationAge"; "maxCleanupMs";
                             "maxConcurrentTransactions"; "kernelCells"]%string in
  let? _ := each_key uint_field boot ["maxLaunchMs"; "maxResponseMs"; "maxAttestationAge"; "maxCleanupMs"]%string in
  let? concurrent := uint_field boot "maxConcurrentTransactions" in
  throw_if negb (concurrent =? 1) with Error "v1 concurrency must equal one" ;;
  let? cells := array_field boot "kernelCells" 32 in
  throw_if bool_decide (cells = []) with Error "kernel cells empty" ;;
  let? cell_ids := res_map kernel_cell cells in
  throw_if unsorted cell_ids with Error "kernel cells not sorted unique" ;;
  Ok tt.

Definition PROTOCOL_BOUNDS : list (string * Z) :=
  [("maxFrameBytes", 1048576); ("maxRoles", 32); ("maxChannels", 128); ("maxMeasurements", 1024); ("maxDepth", 16);
   ("maxItems", 65536); ("maxTextBytes", 4096)]%string.
Definition validate_protocol (value : Value) : P2 unit :=
  let? protocol := required value "protocol" in
  let? _ := exact_keys protocol ["name"; "version"; "maxFrameBytes"; "maxRoles"; "maxChannels"; "maxMeasurements";
                                 "maxDepth"; "maxItems"; "maxTextBytes"]%string in
  let? _ := require_text protocol "name" PROTOCOL_NAME in
  let? _ := require_version protocol 2 in
  for_each (fun bound : string * Z =>
              let? found := uint_field protocol bound.1 in
              throw_if negb (found =? bound.2) with Error "protocol limit mismatch" ;;
              Ok tt) PROTOCOL_BOUNDS.

(** ** Artifacts *)

Record Artifacts : Type := mkArtifacts {
  artifact_ids : gset string;
  artifact_digests : gmap string string;
  artifact_kinds : gmap string string;
  artifact_prior : option string
}.
Definition ARTIFACT_KINDS : list string := ["helper"; "trampoline"; "prober"; "provisioner"; "role"]%string.
Definition validate_artifact (st : Artifacts) (artifact : Value) : P2 Artifacts :=
  let? _ := exact_keys artifact ["artifactId"; "digest"; "kind"; "targetTriple"; "variant"; "executableMode";
                                 "releaseMember"]%string in
  let? id := id_field artifact "artifactId" in
  let? prior := ascending "artifacts not sorted unique" (artifact_prior st) id in
  let? ids := insert_new (artifact_ids st) id "artifacts not sorted unique" in
  let? artifact_digest := digest_field artifact "digest" in
  let? kind := enum_field artifact "kind" ARTIFACT_KINDS in
  let? _ := id_field artifact "targetTriple" in
  let? _ := id_field artifact "variant" in
  let? bad := uint_differs artifact "executableMode" 365
              ||? (let? member := bool_field artifact "releaseMember" in Ok (negb member)) in
  throw_if bad with Error "artifact is not executable release member" ;;
  Ok (mkArtifacts ids (<[id := artifact_digest]> (artifact_digests st)) (<[id := kind]> (artifact_kinds st)) prior).
Definition kind_count (kinds : gmap string string) (kind : string) : Z :=
  len (List.filter (fun row : string * string => bool_decide (row.2 = kind)) (map_to_list kinds)).
Definition validate_artifacts (value : Value) : P2 (list Value * Artifacts) :=
  let? artifacts := array_field value "artifacts" 128 in
  throw_if bool_decide (artifacts = []) with Error "artifacts empty" ;;
  let? st := res_fold validate_artifact artifacts (mkArtifacts ∅ ∅ ∅ None) in
  let? _ := for_each (fun kind =>
              throw_if negb (kind_count (artifact_kinds st) kind =? 1) with Error "native artifact cardinality invalid" ;;
              Ok tt) ["helper"; "trampoline"; "prober"]%string in
  Ok (artifacts, st).

(** ** Roles *)

Record Roles : Type := mkRoles {
  role_ids : gset string;
  role_classes : gmap string string;
  role_credentials : gmap string (list string);
  principals : gset string;
  role_prior : option string
}.
Definition ROLE_KEYS : list string :=
  ["roleId"; "roleClass"; "principalId"; "artifactId"; "artifactDigest"; "credentialDomains"; "allowedChannelIds";
   "uid"; "gid"; "supplementaryGroups"; "namespaces"; "mounts"; "cgroup"; "rlimits"; "capabilitiesEmpty"; "dumpable";
   "launchSeccompDigest"; "steadySeccompDigest"; "landlockDigest"; "environmentAllowlist"; "inheritedFdSlots";
   "requiredMeasurementFields"]%string.
Definition ROLE_CLASSES : list string := ["D1"; "D2"; "D3"; "PROBER"]%string.

Definition validate_role_mount (artifacts : Artifacts) (mount : Value) : P2 unit :=
  let? _ := exact_keys mount ["sourceArtifactId"; "target"; "readOnly"; "nodev"; "nosuid"; "noexec"]%string in
  let? source := id_field mount "sourceArtifactId" in
  throw_if negb (bool_decide (source ∈ artifact_ids artifacts)) with Error "mount artifact absent" ;;
  let? v := required mount "target" in
  let? target := ok_or (as_text v) (Error "mount path malformed") in
  throw_if target_bad target || (4096 <? slen target) with Error "mount path malformed" ;;
  each_key bool_field mount MOUNT_FLAGS.

(** [for v in values { if v.as_u64().is_none() { .. } }] *)
Definition all_u64 (message : string) (values : list Value) : P2 unit :=
  for_each (fun v => throw_if bool_decide (as_u64 v = None) with Error message ;; Ok tt) values.

(** The part of a role that does not touch the state of the loop. *)
Definition validate_role_sandbox (artifacts : Artifacts) (role : Value) : P2 unit :=
  let? _ := ids_field role "allowedChannelIds" 128 in
  let? _ := uint_field role "uid" in
  let? _ := uint_field role "gid" in
  let? groups := array_field role "supplementaryGroups" 32 in
  let? _ := all_u64 "group malformed" groups in
  let? namespaces := required role "namespaces" in
  let? _ := exact_bool_map namespaces NAMESPACE_KEYS in
  let? mounts := array_field role "mounts" 128 in
  let? _ := for_each (validate_role_mount artifacts) mounts in
  let? cgroup := required role "cgroup" in
  let? _ := exact_keys cgroup ["pathId"; "memoryMax"; "pidsMax"; "cpuMaxMicros"; "ioMaxDigest"]%string in
  let? _ := id_field cgroup "pathId" in
  let? _ := each_key uint_field cgroup ["memoryMax"; "pidsMax"; "cpuMaxMicros"]%string in
  let? _ := digest_field cgroup "ioMaxDigest" in
  let? rlimits := required role "rlimits" in
  let? _ := exact_uint_map rlimits ["nofile"; "nproc"; "core"; "fsize"; "addressSpace"]%string in
  let? bad := (let? empty := bool_field role "capabilitiesEmpty" in Ok (negb empty)) ||? bool_field role "dumpable" in
  throw_if bad with Error "role privilege booleans refuse" ;;
  let? _ := each_key digest_field role ["launchSeccompDigest"; "steadySeccompDigest"; "landlockDigest"]%string in
  let? _ := ids_field role "environmentAllowlist" 64 in
  let? slots := array_field role "inheritedFdSlots" 64 in
  let? _ := all_u64 "fd slot malformed" slots in
  let? measurements := ids_field role "requiredMeasurementFields" 128 in
  throw_if negb (bool_decide (measurements = MEASUREMENT_FIELDS)) with Error "required measurements empty" ;;
  Ok tt.

Definition validate_role (artifacts : Artifacts) (st : Roles) (role : Value) : P2 Roles :=
  let? _ := exact_keys role ROLE_KEYS in
  let? role_id := id_field role "roleId" in
  let? prior := ascending "roles not sorted unique" (role_prior st) role_id in
  let? ids := insert_new (role_ids st) role_id "roles not sorted unique" in
  let? class := enum_field role "roleClass" ROLE_CLASSES in
  let? principal := id_field role "principalId" in
  let? principals := insert_new (principals st) principal "role principals duplicate" in
  let? role_artifact := id_field role "artifactId" in
  throw_if negb (bool_decide (artifact_kinds artifacts !! role_artifact = Some "role"%string))
    with Error "role artifact absent or wrong kind" ;;
  let? artifact_digest := digest_field role "artifactDigest" in
  throw_if negb (bool_decide (artifact_digests artifacts !! role_artifact = Some artifact_digest))
    with Error "role artifact digest mismatch" ;;
  let? credentials := ids_field role "credentialDomains" 1 in
  throw_if negb (bool_decide (class = "D3"%string)) && negb (bool_decide (credentials = []))
    with Error "credentials outside D3" ;;
  let? _ := validate_role_sandbox artifacts role in
  Ok (mkRoles ids (<[role_id := class]> (role_classes st)) (<[role_id := credentials]> (role_credentials st))
        principals prior).
Definition validate_roles (value : Value) (artifacts : Artifacts) : P2 (list Value * Roles) :=
  let? roles := array_field value "roles" 32 in
  throw_if bool_decide (roles = []) with Error "deployment roles empty" ;;
  let? st := res_fold (validate_role artifacts) roles (mkRoles ∅ ∅ ∅ ∅ None) in
  Ok (roles, st).

(** ** Channels *)

Record Channels : Type := mkChannels {
  channel_ids : gset string;
  channel_endpoints : gmap string (string * string);
  channel_by_id : gmap string Value;
  channel_prior : option string
}.
Definition CHANNEL_KEYS : list string :=
  ["channelId"; "fromEndpoint"; "toEndpoint"; "socketType"; "direction"; "maxFrameBytes"; "maxDescriptors";
   "peerCredentialPolicy"; "oneShot"]%string.
Definition validate_channel (st : Channels) (channel : Value) : P2 Channels :=
  let? _ := exact_keys channel CHANNEL_KEYS in
  let? id := id_field channel "channelId" in
  let? prior := ascending "channels not sorted unique" (channel_prior st) id in
  let? ids := insert_new (channel_ids st) id "channels not sorted unique" in
  let? from := id_field channel "fromEndpoint" in
  let? to := id_field channel "toEndpoint" in
  throw_if bool_decide (from = to) with Error "channel self-loop refused" ;;
  let? _ := enum_field channel "socketType" ["seqpacket"]%string in
  let? _ := enum_field channel "direction" ["one-way"; "request-response"]%string in
  let? frame := uint_field channel "maxFrameBytes" in
  let? descriptors := uint_field channel "maxDescriptors" in
  throw_if (frame =? 0) || (1048576 <? frame) || (64 <? descriptors)
    with Error "channel operational bounds invalid" ;;
  let? _ := enum_field channel "peerCredentialPolicy" ["exact-principal"]%string in
  let? _ := bool_field channel "oneShot" in
  Ok (mkChannels ids (<[id := (from, to)]> (channel_endpoints st)) (<[id := channel]> (channel_by_id st)) prior).
Definition validate_channels (value : Value) : P2 (list Value * Channels) :=
  let? channels := array_field value "channels" 128 in
  let? st := res_fold validate_channel channels (mkChannels ∅ ∅ ∅ None) in
  Ok (channels, st).

(** [format!("role:{}", id)] and the other endpoint names. *)
Definition role_endpoint (id : string) : string := "role:" +:+ id.
Definition prober_endpoint (id : string) : string := "prober:" +:+ id.
Definition b3_endpoint (id : string) : string := "b3:" +:+ id.
Definition provisioner_endpoint (id : string) : string := "provisioner:" +:+ id.
Definition SUPERVISOR_ENDPOINT : string := "supervisor:keep".

Definition is_endpoint (endpoint : string) (ends : string * string) : bool :=
  bool_decide (ends.1 = endpoint) || bool_decide (ends.2 = endpoint).

(** The channels a role lists exist and have it as an end. *)
Definition role_channel (st : Channels) (role : Value) (channel : string) : P2 unit :=
  let? id := id_field role "roleId" in
  throw_if negb (bool_decide (channel ∈ channel_ids st))
           || negb (is_some_and (channel_endpoints st !! channel) (is_endpoint (role_endpoint id)))
    with Error "role channel absent" ;;
  Ok tt.
Definition role_channels (st : Channels) (role : Value) : P2 unit :=
  let? ids := ids_field role "allowedChannelIds" 128 in
  for_each (role_channel st role) ids.

(** ** The prober *)

Definition validate_prober (value : Value) (artifacts : Artifacts) (roles : Roles) : P2 (Value * string) :=
  let? probers := array_field value "probers" 1 in
  match probers with
  | [prober] =>
      let? _ := exact_keys prober ["proberId"; "artifactId"; "principalId"; "signingKeyId"; "keyEpoch"; "channelId";
                                   "observationGrants"; "requiredNegativeProbes"]%string in
      let? _ := id_field prober "proberId" in
      let? artifact := id_field prober "artifactId" in
      throw_if negb (bool_decide (artifact_kinds artifacts !! artifact = Some "prober"%string))
        with Error "prober artifact absent or wrong kind" ;;
      let? principal := id_field prober "principalId" in
      throw_if bool_decide (principal ∈ principals roles) with Error "prober principal aliases role" ;;
      let? _ := id_field prober "signingKeyId" in
      let? _ := uint_field prober "keyEpoch" in
      let? _ := id_field prober "channelId" in
      let? _ := ids_field prober "observationGrants" 128 in
      let? _ := ids_field prober "requiredNegativeProbes" 128 in
      Ok (prober, principal)
  | _ => Err (Error "exactly one prober required")
  end.

(** ** Provisioners *)

Record Provisioners : Type := mkProvisioners {
  domains : gset string;
  provisioner_ids : gset string;
  provisioner_principals : gset string;
  provisioner_prior : option string
}.
Definition PROVISIONER_KEYS : list string :=
  ["provisionerId"; "domain"; "principalId"; "artifactId"; "targetRoleId"; "channelId"; "descriptorType";
   "requiredSeals"; "descriptorCount"; "destructionDeadlineMs"]%string.
(** The channel of a provisioner: one way, one descriptor, one shot. *)
Definition provision_channel_bad (channel : Value) : P2 bool :=
  enum_fails channel "direction" ["one-way"]%string
  ||? uint_differs channel "maxDescriptors" 1
  ||? (let? shot := bool_field channel "oneShot" in Ok (negb shot)).
Definition validate_provisioner (artifacts : Artifacts) (roles : Roles) (channels : Channels) (prober_principal : string)
    (st : Provisioners) (provisioner : Value) : P2 Provisioners :=
  let? _ := exact_keys provisioner PROVISIONER_KEYS in
  let? provisioner_id := id_field provisioner "provisionerId" in
  let? prior := ascending "provisioners not sorted unique" (provisioner_prior st) provisioner_id in
  let? ids := insert_new (provisioner_ids st) provisioner_id "provisioners not sorted unique" in
  let? domain := id_field provisioner "domain" in
  let? domains := insert_new (domains st) domain "provisioner domain duplicate" in
  let? principal := id_field provisioner "principalId" in
  throw_if bool_decide (principal ∈ principals roles) || bool_decide (principal = prober_principal)
    with Error "provisioner principal aliases" ;;
  let? principals := insert_new (provisioner_principals st) principal "provisioner principal aliases" in
  let? target := id_field provisioner "targetRoleId" in
  let? provision_channel := id_field provisioner "channelId" in
  let? artifact := id_field provisioner "artifactId" in
  throw_if negb (bool_decide (artifact_kinds artifacts !! artifact = Some "provisioner"%string))
           || negb (bool_decide (role_classes roles !! target = Some "D3"%string))
           || negb (is_some_and (channel_endpoints channels !! provision_channel)
                      (fun ends => bool_decide (ends = (provisioner_endpoint provisioner_id, role_endpoint target))))
    with Error "provisioner reference absent" ;;
  throw_if negb (bool_decide (role_credentials roles !! target = Some [domain]))
    with Error "provisioner domain mismatch" ;;
  let? _ := id_field provisioner "descriptorType" in
  let? _ := ids_field provisioner "requiredSeals" 16 in
  let? count := uint_field provisioner "descriptorCount" in
  throw_if negb (count =? 1) with Error "descriptor count must equal one" ;;
  let? channel := ok_or (channel_by_id channels !! provision_channel) (Error "provision channel absent") in
  let? bad := provision_channel_bad channel in
  throw_if bad with Error "provision channel topology mismatch" ;;
  let? _ := uint_field provisioner "destructionDeadlineMs" in
  Ok (mkProvisioners domains ids principals prior).
Definition validate_provisioners (value : Value) (artifacts : Artifacts) (roles : Roles) (channels : Channels)
    (prober_principal : string) : P2 (list Value) :=
  let? provisioners := array_field value "provisioners" 32 in
  let? _ := res_fold (validate_provisioner artifacts roles channels prober_principal) provisioners
              (mkProvisioners ∅ ∅ ∅ None) in
  Ok provisioners.

(** ** Topology *)

Definition validate_b3 (value : Value) : P2 Value :=
  let? b3 := required value "b3" in
  let? _ := exact_keys b3 DEPLOYMENT_B3_KEYS in
  let? _ := id_field b3 "authorityId" in
  let? _ := digest_field b3 "genesisBaseDigest" in
  let? _ := digest_field b3 "b3ProfileEnvelopeDigest" in
  let? _ := uint_field b3 "keyEpoch" in
  let? _ := enum_field b3 "assurance" ["load-bearing"]%string in
  let? _ := id_field b3 "channelId" in
  Ok b3.

(** The set [endpoints]. *)
Definition endpoints_of (roles : list Value) (prober b3 : Value) (provisioners : list Value) : P2 (gset string) :=
  let? role_ids := res_map (fun role => id_field role "roleId") roles in
  let? prober_id := id_field prober "proberId" in
  let? authority := id_field b3 "authorityId" in
  let? provisioner_ids := res_map (fun row => id_field row "provisionerId") provisioners in
  Ok ({[SUPERVISOR_ENDPOINT]} ∪ list_to_set (map role_endpoint role_ids)
      ∪ {[prober_endpoint prober_id]} ∪ {[b3_endpoint authority]}
      ∪ list_to_set (map provisioner_endpoint provisioner_ids)).
Definition check_endpoints (endpoints : gset string) (channels : Channels) : P2 unit :=
  for_each (fun ends : string * string =>
              throw_if negb (bool_decide (ends.1 ∈ endpoints)) || negb (bool_decide (ends.2 ∈ endpoints))
                with Error "channel endpoint outside typed topology" ;;
              Ok tt) (map snd (map_to_list (channel_endpoints channels))).

(** A request-response channel that carries no descriptors and is not one-shot. *)
Definition authority_channel_bad (channel : Value) (from to : P2 string) : P2 bool :=
  (let? found := id_field channel "fromEndpoint" in let? from := from in Ok (negb (bool_decide (found = from))))
  ||? (let? found := id_field channel "toEndpoint" in let? to := to in Ok (negb (bool_decide (found = to))))
  ||? enum_fails channel "direction" ["request-response"]%string
  ||? uint_differs channel "maxDescriptors" 0
  ||? bool_field channel "oneShot".
Definition check_prober_channel (channels : Channels) (prober : Value) : P2 unit :=
  let? id := id_field prober "channelId" in
  let? channel := ok_or (channel_by_id channels !! id) (Error "prober channel absent") in
  let? bad := authority_channel_bad channel (let? id := id_field prober "proberId" in Ok (prober_endpoint id))
                (Ok SUPERVISOR_ENDPOINT) in
  throw_if bad with Error "prober channel topology mismatch" ;;
  Ok tt.
Definition check_b3_channel (channels : Channels) (b3 : Value) : P2 unit :=
  let? id := id_field b3 "channelId" in
  let? channel := ok_or (channel_by_id channels !! id) (Error "B3 channel absent") in
  let? bad := authority_channel_bad channel (Ok SUPERVISOR_ENDPOINT)
                (let? id := id_field b3 "authorityId" in Ok (b3_endpoint id)) in
  throw_if bad with Error "B3 channel topology mismatch" ;;
  Ok tt.

Definition authority_channels (prober b3 : Value) (provisioners : list Value) : P2 (gset string) :=
  let? prober_channel := id_field prober "channelId" in
  let? b3_channel := id_field b3 "channelId" in
  Ok ({[prober_channel]} ∪ {[b3_channel]} ∪ list_to_set (map (fun row => id_or_empty row "channelId") provisioners)).
(** One turn of the last loop over the channels. *)
Definition check_participants (authority : gset string) (roles : list Value) (channel : Value) : P2 unit :=
  let? channel_id := id_field channel "channelId" in
  let? from := id_field channel "fromEndpoint" in
  let? to := id_field channel "toEndpoint" in
  let participants := List.filter (fun role => is_endpoint (role_endpoint (id_or_empty role "roleId")) (from, to)) roles in
  throw_if negb (bool_decide (channel_id ∈ authority)) && bool_decide (participants = [])
    with Error "channel has no declared owner or authority purpose" ;;
  for_each (fun role =>
              let? allowed := ids_field role "allowedChannelIds" 128 in
              throw_if negb (contains allowed channel_id) with Error "channel grants an undeclared role participant" ;;
              Ok tt) participants.

(** ** Artifact use *)

Definition is_base_artifact (artifact : Value) : bool :=
  match id_field artifact "kind" with
  | Ok kind => is_one_of kind ["helper"; "trampoline"]%string
  | Err _ => false
  end.
Definition used_artifacts (artifacts roles provisioners : list Value) (prober : Value) : P2 (gset string) :=
  let read := res_map (fun row => id_field row "artifactId") in
  let? base := read (List.filter is_base_artifact artifacts) in
  let? prober := id_field prober "artifactId" in
  let? roles := read roles in
  let? provisioners := read provisioners in
  Ok (list_to_set base ∪ {[prober]} ∪ list_to_set roles ∪ list_to_set provisioners).
Definition check_artifact_use (artifacts roles provisioners : list Value) (prober : Value) (st : Artifacts) : P2 unit :=
  let? used := used_artifacts artifacts roles provisioners prober in
  throw_if negb (Z.of_nat (size used) =? len artifacts)
           || existsb (fun id => negb (bool_decide (id ∈ used))) (elements (artifact_ids st))
    with Error "orphan or multiply-purposed artifact refused" ;;
  Ok tt.

(** ** Release, revocation, rollback, evidence *)

Definition validate_release (value : Value) (artifacts : list Value) : P2 Z :=
  let? release := required value "release" in
  let? _ := exact_keys release ["buildId"; "artifactVersion"; "targetTriple"; "variant"; "releaseKeyEpoch";
                                "timestampKeyEpoch"]%string in
  let? _ := id_field release "buildId" in
  let? artifact_version := uint_field release "artifactVersion" in
  let? release_target := id_field release "targetTriple" in
  let? release_variant := id_field release "variant" in
  let? _ := for_each (fun artifact =>
              let? bad := id_differs artifact "targetTriple" release_target ||? id_differs artifact "variant" release_variant in
              throw_if bad with Error "release target or variant mismatch" ;;
              Ok tt) artifacts in
  let? _ := uint_field release "releaseKeyEpoch" in
  let? _ := uint_field release "timestampKeyEpoch" in
  Ok artifact_version.
Definition validate_deployment_revocation (value : Value) : P2 unit :=
  let? revocation := required value "revocation" in
  let? _ := exact_keys revocation DEPLOYMENT_REVOCATION_KEYS in
  let? _ := each_key id_field revocation ["authorityId"; "namespace"; "scope"; "compromiseSemantics"]%string in
  let? _ := uint_field revocation "keyEpoch" in
  let? _ := digest_field revocation "genesisCheckpointEnvelopeDigest" in
  let? _ := uint_field revocation "minimumSequence" in
  let? _ := uint_field revocation "maxStalenessCounters" in
  Ok tt.
Definition validate_deployment_rollback (value : Value) (artifact_version : Z) : P2 unit :=
  let? rollback := required value "rollback" in
  let? _ := exact_keys rollback DEPLOYMENT_ROLLBACK_KEYS in
  let? bad := (let? found := uint_field rollback "deploymentEpoch" in
               let? epoch := uint_field value "deploymentEpoch" in Ok (negb (found =? epoch)))
              ||? (let? minimum := uint_field rollback "minimumArtifactVersion" in Ok (artifact_version <? minimum)) in
  throw_if bad with Error "rollback epoch or version mismatch" ;;
  let? _ := digest_field rollback "predecessorDigest" in
  let? _ := digest_field rollback "authorizedRollbackEnvelopeDigest" in
  Ok tt.
Definition validate_deployment_evidence (value prober : Value) : P2 unit :=
  let? evidence := required value "evidence" in
  let? _ := exact_keys evidence ["schema"; "sinkId"; "maxBundleBytes"; "algorithm"; "keyId"; "keyEpoch";
                                 "appendPolicy"; "witnessPolicy"]%string in
  let? _ := require_text evidence "schema" "keep.native-evidence" in
  let? _ := id_field evidence "sinkId" in
  let? bytes := uint_field evidence "maxBundleBytes" in
  throw_if negb (bytes =? 8 * 1024 * 1024) with Error "evidence bundle bound mismatch" ;;
  let? _ := require_text evidence "algorithm" "ed25519" in
  let? bad := (let? key := id_field evidence "keyId" in
               let? signing := id_field prober "signingKeyId" in Ok (negb (bool_decide (key = signing))))
              ||? (let? epoch := uint_field evidence "keyEpoch" in
                   let? signing := uint_field prober "keyEpoch" in Ok (negb (epoch =? signing))) in
  throw_if bad with Error "evidence key/prober mismatch" ;;
  let? _ := require_text evidence "appendPolicy" "create-exclusive-fsync" in
  require_text evidence "witnessPolicy" "external-prober".

Definition validate_deployment (value : Value) : P2 unit :=
  let? _ := id_field value "deploymentId" in
  let? _ := uint_field value "deploymentEpoch" in
  let? declared := digest_field value "deploymentBaseDigest" in
  let? actual := deployment_base_digest value in
  throw_if negb (bool_decide (declared = actual)) with Error "deployment base digest mismatch" ;;
  let? _ := digest_field value "predecessorDigest" in
  let? _ := validate_boot value in
  let? _ := validate_protocol value in
  let? (artifacts, artifact_state) := validate_artifacts value in
  let? (roles, role_state) := validate_roles value artifact_state in
  let? (channels, channel_state) := validate_channels value in
  let? _ := for_each (role_channels channel_state) roles in
  let? (prober, prober_principal) := validate_prober value artifact_state role_state in
  let? provisioners := validate_provisioners value artifact_state role_state channel_state prober_principal in
  let? b3 := validate_b3 value in
  let? endpoints := endpoints_of roles prober b3 provisioners in
  let? _ := check_endpoints endpoints channel_state in
  let? _ := check_prober_channel channel_state prober in
  let? _ := check_b3_channel channel_state b3 in
  let? authority := authority_channels prober b3 provisioners in
  let? _ := for_each (check_participants authority roles) channels in
  let? _ := check_artifact_use artifacts roles provisioners prober artifact_state in
  let? artifact_version := validate_release value artifacts in
  let? _ := validate_deployment_revocation value in
  let? _ := validate_deployment_rollback value artifact_version in
  validate_deployment_evidence value prober.
