(* ===== verification/Evidence.v ===== *)
(** * Evidence, closures, indexes and revocations ([protocol/src/lib.rs]) *)

From S2P Require Import Prelude Cbor Sha256 Paths Schema Native.

Definition NATIVE_CLOSURE_PAYLOAD_KEYS : list string :=
  ["schema"; "version"; "trustClass"; "a4ReleaseBaseDigest"; "a4ArtifactInventoryDigest"; "nativeArtifactInventoryDigest";
   "nativeDeploymentPayloadDigest"; "nativeDeploymentEnvelopeDigest"; "nativePackagePayloadDigest";
   "nativeClosureBaseDigest"; "helperArtifactDigest"; "trampolineArtifactDigest"; "proberArtifactDigest";
   "provisionerArtifactDigests"; "protocolDigest"; "evidenceSchemaDigest"; "targetTriple"; "variant"; "artifactVersion";
   "buildId"; "releaseKeyEpoch"; "timestampKeyEpoch"; "timestampRecordEnvelopeDigest"; "sbomEnvelopeDigest";
   "provenanceEnvelopeDigests"; "reproducibilityRecordEnvelopeDigest"; "toolchainClosureEnvelopeDigest";
   "releaseTimeRevocationCheckpointEnvelopeDigest"; "releaseTimeRevocationSequence"; "deploymentEpoch";
   "minimumArtifactVersion"; "predecessorDigest"; "authorizedRollbackEnvelopeDigest"; "b0RootEnvelopeDigest";
   "b3ProfileEnvelopeDigest"]%string.
Definition NATIVE_INDEX_PAYLOAD_KEYS : list string :=
  ["schema"; "version"; "a4ReleaseBaseDigest"; "deploymentEnvelopeDigest"; "nativeClosureEnvelopeDigest";
   "b0RootEnvelopeDigest"; "releaseKeyEpoch"; "trustClass"]%string.
Definition EVIDENCE_KEYS : list string :=
  ["schema"; "version"; "deploymentId"; "deploymentEpoch"; "bootId"; "kernelBootId"; "manifestDigest";
   "nativeClosureEnvelopeDigest"; "helperArtifactDigest"; "helperBuildId"; "helperIncarnation"; "protocolDigest";
   "requestId"; "requestDigest"; "requestNonce"; "requestSequence"; "challengeNonce"; "b3ProfileEnvelopeDigest";
   "b3LeaseReceiptEnvelopeDigest"; "b3Counter"; "capturedCounter"; "expiresCounter"; "proberId"; "proberPrincipal";
   "proberArtifactDigest"; "proberIncarnation"; "proberKeyEpoch"; "revocationEnvelopeDigest"; "roles"; "measurements";
   "negativeProbes"; "inheritedFdInventory"; "cleanup"; "previousEvidenceDigest"; "signature"]%string.

(** ** Closures, indexes, revocations *)

Definition CLOSURE_BASE_DOMAIN : list byte := str_bytes "keep.native-release-closure-base/v1" ++ [x00].
Definition native_closure_base_digest (value : Value) : P2 string :=
  let? _ := exact_keys value NATIVE_CLOSURE_PAYLOAD_KEYS in
  let? projection := projection_without value ["nativeClosureBaseDigest"; "timestampRecordEnvelopeDigest"]%string in
  projection_digest CLOSURE_BASE_DOMAIN projection.

Definition CLOSURE_DIGESTS : list string :=
  ["a4ReleaseBaseDigest"; "a4ArtifactInventoryDigest"; "nativeArtifactInventoryDigest"; "nativeDeploymentPayloadDigest";
   "nativeDeploymentEnvelopeDigest"; "nativePackagePayloadDigest"; "nativeClosureBaseDigest"; "helperArtifactDigest";
   "trampolineArtifactDigest"; "proberArtifactDigest"; "protocolDigest"; "evidenceSchemaDigest";
   "timestampRecordEnvelopeDigest"; "sbomEnvelopeDigest"; "reproducibilityRecordEnvelopeDigest";
   "toolchainClosureEnvelopeDigest"; "releaseTimeRevocationCheckpointEnvelopeDigest"; "predecessorDigest";
   "authorizedRollbackEnvelopeDigest"; "b0RootEnvelopeDigest"; "b3ProfileEnvelopeDigest"]%string.
Definition digests_field (value : Value) (key : string) (maximum : Z) : P2 (list string) :=
  let? v := required value key in sorted_digests v maximum.
Definition validate_closure (value : Value) : P2 unit :=
  let? _ := each_key digest_field value CLOSURE_DIGESTS in
  let? _ := digests_field value "provisionerArtifactDigests" 32 in
  let? _ := digests_field value "provenanceEnvelopeDigests" 32 in
  let? declared := digest_field value "nativeClosureBaseDigest" in
  let? actual := native_closure_base_digest value in
  throw_if negb (bool_decide (declared = actual)) with Error "native closure base digest mismatch" ;;
  let? _ := each_key id_field value ["targetTriple"; "variant"; "buildId"]%string in
  each_key uint_field value ["artifactVersion"; "releaseKeyEpoch"; "timestampKeyEpoch"; "releaseTimeRevocationSequence";
                             "deploymentEpoch"; "minimumArtifactVersion"]%string.

Definition validate_index (value : Value) : P2 unit :=
  let? _ := each_key digest_field value ["a4ReleaseBaseDigest"; "deploymentEnvelopeDigest"; "nativeClosureEnvelopeDigest";
                                         "b0RootEnvelopeDigest"]%string in
  let? _ := uint_field value "releaseKeyEpoch" in
  Ok tt.

Definition rotation_cutoff (prior : option string) (cutoff : Value) : P2 (option string) :=
  let? _ := exact_keys cutoff ["keyId"; "minimumEpoch"]%string in
  let? key := id_field cutoff "keyId" in
  let? prior := ascending "rotation cutoffs not sorted unique" prior key in
  let? _ := uint_field cutoff "minimumEpoch" in
  Ok prior.
Definition validate_revocation (value : Value) : P2 unit :=
  let? _ := each_key id_field value ["authorityId"; "namespace"; "scope"; "compromiseSemantics"]%string in
  let? _ := each_key uint_field value ["keyEpoch"; "sequence"; "issuedCounter"; "expiresCounter"]%string in
  let? expires := uint_field value "expiresCounter" in
  let? issued := uint_field value "issuedCounter" in
  throw_if expires <=? issued with Error "revocation counter order invalid" ;;
  let? _ := digest_field value "previousEnvelopeDigest" in
  let? _ := ids_field value "revokedKeys" 256 in
  let? _ := digests_field value "revokedArtifacts" 256 in
  let? cutoffs := array_field value "rotationCutoffs" 256 in
  let? _ := res_fold rotation_cutoff cutoffs None in
  Ok tt.

(** ** Evidence *)

(** [role_ids] and [prior] of the loop over the roles. *)
Abbreviation role_state := (gset string * option string)%type.
Definition evidence_role (st : role_state) (role : Value) : P2 role_state :=
  let? _ := exact_keys role ["roleId"; "roleClass"; "principalId"; "artifactDigest"; "incarnationDigest"; "uid"; "gid";
                             "groups"; "namespaceInodes"; "cgroupId"]%string in
  let? id := id_field role "roleId" in
  let? prior := ascending "evidence roles not sorted unique" st.2 id in
  let? ids := insert_new st.1 id "evidence roles not sorted unique" in
  let? _ := enum_field role "roleClass" ["D1"; "D2"; "D3"; "PROBER"]%string in
  let? _ := id_field role "principalId" in
  let? _ := digest_field role "artifactDigest" in
  let? _ := digest_field role "incarnationDigest" in
  let? _ := uint_field role "uid" in
  let? _ := uint_field role "gid" in
  let? groups := array_field role "groups" 32 in
  let? _ := for_each (fun group => throw_if bool_decide (as_u64 group = None) with Error "group malformed" ;; Ok tt) groups in
  let? inodes := required role "namespaceInodes" in
  let? _ := exact_uint_map inodes NAMESPACE_KEYS in
  let? _ := id_field role "cgroupId" in
  Ok (ids, prior).

(** [measurement_pairs] and [prior] of the loop over the measurements. *)
Abbreviation measurement_state := (gset (string * string) * option string)%type.
Definition evidence_measurement (role_ids : gset string) (st : measurement_state) (measurement : Value)
    : P2 measurement_state :=
  let? _ := exact_keys measurement ["measurementId"; "roleId"; "field"; "value"; "mechanism"; "mechanismVersion"; "abi";
                                    "source"; "transcriptDigest"; "state"; "reasonCode"]%string in
  let? id := id_field measurement "measurementId" in
  let? prior := ascending "measurements not sorted unique" st.2 id in
  let? role := id_field measurement "roleId" in
  throw_if negb (bool_decide (role ∈ role_ids)) with Error "measurement role absent" ;;
  let? field_name := measurement_field measurement "field" in
  let? pairs := insert_new st.1 (role, field_name) "measurement subject/field duplicate" in
  let? _ := each_key id_field measurement ["mechanism"; "mechanismVersion"; "abi"; "source"; "reasonCode"]%string in
  let? value := required measurement "value" in
  let? _ := validate_measurement_value field_name value in
  let? _ := digest_field measurement "transcriptDigest" in
  let? _ := enum_field measurement "state" ["active"; "inactive"; "unsupported"; "inconclusive"]%string in
  Ok (pairs, prior).

(** [measured]: a map collected from the rows, later rows last. *)
Definition measured_row (acc : gmap (string * string) Value) (row : Value) : P2 (gmap (string * string) Value) :=
  let? role := id_field row "roleId" in
  let? name := measurement_field row "field" in
  let? value := required row "value" in
  Ok (<[(role, name) := value]> acc).
Definition covered (pairs : gset (string * string)) (role : Value) : bool :=
  forallb (fun name => bool_decide ((match id_field role "roleId" with Ok id => id | Err _ => ""%string end, name) ∈ pairs))
    MEASUREMENT_FIELDS.

(** One turn of the loop that compares the measurements with the roles. *)
Section agreement.
Context (measured : gmap (string * string) Value) (role : Value) (role_id : string).
Definition measured_value (name : string) : P2 Value := ok_or (measured !! (role_id, name)) (Error "measurement missing").
Definition same_number (message key : string) (name : string) : P2 unit :=
  let? value := measured_value name in
  let? found := uint_field value "value" in
  let? expected := uint_field role key in
  throw_if negb (found =? expected) with Error message ;;
  Ok tt.
Definition same_digest (message name key role_key : string) : P2 unit :=
  let? value := measured_value name in
  let? found := digest_field value key in
  let? expected := digest_field role role_key in
  throw_if negb (bool_decide (found = expected)) with Error message ;;
  Ok tt.
Definition role_agreement : P2 unit :=
  let? _ := for_each (same_number "UID evidence contradiction" "uid")
              ["identity.uid.real"; "identity.uid.effective"; "identity.uid.saved"]%string in
  let? _ := for_each (same_number "GID evidence contradiction" "gid")
              ["identity.gid.real"; "identity.gid.effective"; "identity.gid.saved"]%string in
  let? groups := measured_value "identity.groups" in
  let? found := required groups "values" in
  let? expected := required role "groups" in
  throw_if negb (value_eqb found expected) with Error "group evidence contradiction" ;;
  let? namespace_value := measured_value "namespaces.inodes" in
  let? namespace_role := required role "namespaceInodes" in
  let? _ := for_each (fun key =>
              let? found := required namespace_value key in
              let? expected := required namespace_role key in
              throw_if negb (value_eqb found expected) with Error "namespace evidence contradiction" ;;
              Ok tt) NAMESPACE_KEYS in
  let? _ := same_digest "incarnation evidence contradiction" "incarnation" "pidfdDigest" "incarnationDigest" in
  same_digest "executable evidence contradiction" "loader.executable" "value" "artifactDigest".
End agreement.
Definition check_agreement (measured : gmap (string * string) Value) (role : Value) : P2 unit :=
  let? role_id := id_field role "roleId" in role_agreement measured role role_id.

Definition negative_probe (role_ids : gset string) (prior : option string) (probe : Value) : P2 (option string) :=
  let? _ := exact_keys probe ["probeId"; "roleId"; "target"; "action"; "expectedField"; "observedDenial"; "errno";
                              "signal"; "controlDigest"]%string in
  let? id := id_field probe "probeId" in
  let? prior := ascending "negative probes not sorted unique" prior id in
  let? role := id_field probe "roleId" in
  throw_if negb (bool_decide (role ∈ role_ids)) with Error "probe role absent" ;;
  let? _ := each_key id_field probe ["target"; "action"; "errno"; "signal"]%string in
  let? _ := measurement_field probe "expectedField" in
  let? _ := bool_field probe "observedDenial" in
  let? _ := digest_field probe "controlDigest" in
  Ok prior.
Definition inherited_fd (role_ids : gset string) (fd_keys : gset (string * Z)) (fd : Value) : P2 (gset (string * Z)) :=
  let? _ := exact_keys fd ["roleId"; "slot"; "purpose"; "flagsDigest"; "peerPrincipalId"]%string in
  let? role := id_field fd "roleId" in
  throw_if negb (bool_decide (role ∈ role_ids)) with Error "fd inventory invalid or duplicate" ;;
  let? slot := uint_field fd "slot" in
  let? fd_keys := insert_new fd_keys (role, slot) "fd inventory invalid or duplicate" in
  let? _ := id_field fd "purpose" in
  let? _ := digest_field fd "flagsDigest" in
  let? _ := id_field fd "peerPrincipalId" in
  Ok fd_keys.
Definition validate_cleanup (value : Value) : P2 unit :=
  let? cleanup := required value "cleanup" in
  let? _ := exact_keys cleanup ["state"; "killedRoleIds"; "reapedRoleIds"; "closedFdCount"; "revokedCredentialDomains";
                                "journalDigest"; "recoveryRequired"]%string in
  let? _ := enum_field cleanup "state" ["not-required"; "complete"; "failed"]%string in
  let? _ := ids_field cleanup "killedRoleIds" 32 in
  let? _ := ids_field cleanup "reapedRoleIds" 32 in
  let? _ := uint_field cleanup "closedFdCount" in
  let? _ := ids_field cleanup "revokedCredentialDomains" 32 in
  let? _ := digest_field cleanup "journalDigest" in
  let? _ := bool_field cleanup "recoveryRequired" in
  Ok tt.
Definition validate_evidence_signature (value : Value) (trust : TrustClass) : P2 unit :=
  let? signature := required value "signature" in
  let? _ := exact_keys signature SIGNATURE_KEYS in
  let? key := id_field signature "keyId" in
  let? _ := require_key_namespace key trust in
  let? _ := require_text signature "algorithm" "ed25519" in
  let? epoch := uint_field signature "keyEpoch" in
  let? prober := uint_field value "proberKeyEpoch" in
  throw_if negb (epoch =? prober) with Error "evidence signature/prober epoch mismatch" ;;
  let? v := required signature "signature" in
  signature_bytes v.

Definition EVIDENCE_IDS : list string :=
  ["deploymentId"; "bootId"; "kernelBootId"; "helperBuildId"; "requestId"; "requestNonce"; "challengeNonce"; "proberId";
   "proberPrincipal"]%string.
Definition EVIDENCE_UINTS : list string :=
  ["deploymentEpoch"; "requestSequence"; "b3Counter"; "capturedCounter"; "expiresCounter"; "proberKeyEpoch"]%string.
Definition EVIDENCE_DIGESTS : list string :=
  ["manifestDigest"; "nativeClosureEnvelopeDigest"; "helperArtifactDigest"; "helperIncarnation"; "protocolDigest";
   "requestDigest"; "b3ProfileEnvelopeDigest"; "b3LeaseReceiptEnvelopeDigest"; "proberArtifactDigest"; "proberIncarnation";
   "revocationEnvelopeDigest"; "previousEvidenceDigest"]%string.
Definition counters_bad (value : Value) : P2 bool :=
  let? expires := uint_field value "expiresCounter" in
  let? captured := uint_field value "capturedCounter" in
  if expires <? captured then Ok true
  else
    let? captured := uint_field value "capturedCounter" in
    let? b3 := uint_field value "b3Counter" in
    Ok (captured <? b3).

Definition validate_evidence (value : Value) (trust : TrustClass) : P2 unit :=
  let? _ := each_key id_field value EVIDENCE_IDS in
  let? _ := each_key uint_field value EVIDENCE_UINTS in
  let? bad := counters_bad value in
  throw_if bad with Error "evidence counter order invalid" ;;
  let? _ := each_key digest_field value EVIDENCE_DIGESTS in
  let? roles := array_field value "roles" 32 in
  let? (role_ids, _) := res_fold evidence_role roles (∅, None) in
  let? measurements := array_field value "measurements" 1024 in
  let? (pairs, _) := res_fold (evidence_measurement role_ids) measurements (∅, None) in
  throw_if bool_decide (roles = []) || negb (forallb (covered pairs) roles)
    with Error "measurement registry coverage incomplete" ;;
  let? measured := res_fold measured_row measurements ∅ in
  let? _ := for_each (check_agreement measured) roles in
  let? probes := array_field value "negativeProbes" 256 in
  let? _ := res_fold (negative_probe role_ids) probes None in
  let? fds := array_field value "inheritedFdInventory" 256 in
  let? _ := res_fold (inherited_fd role_ids) fds ∅ in
  let? _ := validate_cleanup value in
  validate_evidence_signature value trust.
