(* ===== verification/Boundary.v ===== *)
(** * The native boundary ([classify], [validate_for], [capture_canonical],
    [protocol/src/lib.rs])

    Requests and responses of the wire, and the dispatch over the seven document
    classes.  [Registry] is the registry of digest paths. *)

From S2P Require Import Prelude Cbor Sha256 Paths Schema Native Deployment Evidence.

(** ** Classification *)

Definition classify (value : Value) : P2 Schema :=
  if bool_decide (text_of value "protocol" = Some PROTOCOL_NAME) then
    let? _ := require_version value PROTOCOL_VERSION in
    if bool_decide (is_Some (field value "kind")) then Ok Request
    else if bool_decide (is_Some (field value "status")) then Ok Response
    else Err (Error "wire kind is missing")
  else
    let discriminator :=
      match text_of value "schema" with
      | Some schema => Some schema
      | None => payload ← field value "payload"; text_of payload "schema"
      end in
    match discriminator with
    | Some schema =>
        if bool_decide (schema = "keep.native-deployment"%string) then Ok Deployment
        else if bool_decide (schema = "keep.native-release-closure"%string) then Ok NativeClosure
        else if bool_decide (schema = "keep.native-release-index"%string) then Ok NativeIndex
        else if bool_decide (schema = "keep.native-evidence"%string) then Ok Evidence
        else if bool_decide (schema = "keep.native-revocation"%string) then Ok Revocation
        else Err (Error "unknown schema")
    | None => Err (Error "unknown schema")
    end.

(** ** Requests *)

(** [value.field(key).ok_or(ProtocolError(message))?] *)
Definition field_or (value : Value) (key message : string) : P2 Value := ok_or (field value key) (Error message).
Definition COMMON_KEYS : list string :=
  ["protocol"; "version"; "kind"; "requestId"; "deploymentId"; "bootId"; "manifestDigest"; "nonce"; "sequence";
   "deadlineMs"]%string.
Definition CLASSES : list string := ["D1"; "D2"; "D3"; "PROBER"]%string.

(** [role_ids] and [principals] of the loop over the roles of a launch. *)
Definition launch_role (st : gset string * gset string) (role : Value) : P2 (gset string * gset string) :=
  let? _ := exact_keys role ["roleId"; "roleClass"; "principalId"; "artifactDigest"; "credentialDomains";
                             "allowedChannelIds"]%string in
  let? v := field_or role "roleId" "roleId missing" in
  let? role_id := identifier v in
  let? role_ids := insert_new st.1 role_id "roles duplicated" in
  let? v := field_or role "principalId" "principal missing" in
  let? principal := identifier v in
  let? principals := insert_new st.2 principal "roles duplicated" in
  let? class := ok_or (text_of role "roleClass") (Error "role class missing") in
  throw_if negb (contains CLASSES class) with Error "role class unsupported" ;;
  let? v := field_or role "artifactDigest" "artifact digest missing" in
  let? _ := digest v in
  let? v := field_or role "credentialDomains" "credentials missing" in
  let? credentials := array v 1 in
  let? _ := unique_text credentials in
  throw_if negb (bool_decide (class = "D3"%string)) && negb (bool_decide (credentials = []))
    with Error "credentials outside D3" ;;
  let? v := field_or role "allowedChannelIds" "channels missing" in
  let? channels := array v 128 in
  let? _ := unique_text channels in
  Ok (role_ids, principals).

Definition validate_kind (value : Value) : P2 unit :=
  match text_of value "kind" with
  | Some kind =>
      if bool_decide (kind = "launch"%string) then
        let? _ := exact_keys value (COMMON_KEYS ++ ["roles"%string]) in
        let? v := field_or value "roles" "roles missing" in
        let? roles := array v 32 in
        throw_if bool_decide (roles = []) with Error "roles empty" ;;
        let? _ := res_fold launch_role roles (∅, ∅) in
        Ok tt
      else if bool_decide (kind = "probe"%string) then
        let? _ := exact_keys value (COMMON_KEYS ++ ["roleHandleIds"; "challengeNonce"]%string) in
        let? v := field_or value "roleHandleIds" "handles missing" in
        let? handles := array v 32 in
        throw_if bool_decide (handles = []) with Error "probe handles empty" ;;
        let? _ := unique_text handles in
        let? v := field_or value "challengeNonce" "challenge missing" in
        let? _ := identifier v in
        Ok tt
      else if bool_decide (kind = "cancel"%string) then
        let? _ := exact_keys value (COMMON_KEYS ++ ["targetRequestId"%string]) in
        let? v := field_or value "targetRequestId" "cancel target missing" in
        let? _ := identifier v in
        Ok tt
      else Err (Error "request kind is unsupported")
  | None => Err (Error "request kind is unsupported")
  end.

(** [identifier(value.field(key).ok_or(..)?)?] for each key, and the same for digests. *)
Definition each_identity (value : Value) (message : string) (keys : list string) : P2 unit :=
  for_each (fun key => let? v := field_or value key message in let? _ := identifier v in Ok tt) keys.
Definition u64_absent (value : Value) (key : string) : bool := bool_decide ((v ← field value key; as_u64 v) = None).

Definition validate_request (value : Value) : P2 unit :=
  let? _ := validate_kind value in
  let? _ := each_identity value "request identity missing" ["requestId"; "deploymentId"; "bootId"; "nonce"]%string in
  let? v := field_or value "manifestDigest" "manifest digest missing" in
  let? _ := digest v in
  throw_if u64_absent value "sequence" || u64_absent value "deadlineMs" with Error "request integer missing" ;;
  Ok tt.

(** ** Responses *)

Definition RESPONSE_KEYS : list string :=
  ["protocol"; "version"; "requestId"; "requestDigest"; "deploymentId"; "bootId"; "nonce"; "sequence";
   "helperArtifactDigest"; "helperBuildId"; "kernelBootId"; "status"; "roleHandles"; "measurements"; "failureCode";
   "evidenceBundleDigest"]%string.
Definition text_among (value : Value) (key : string) (allowed : list string) : bool :=
  is_some_and (text_of value key) (contains allowed).

Definition response_handle (st : gset string * gset string) (handle : Value) : P2 (gset string * gset string) :=
  let? _ := exact_keys handle ["roleId"; "roleClass"; "handleId"; "incarnationDigest"; "artifactDigest";
                               "principalId"]%string in
  let? v := field_or handle "handleId" "handle id missing" in
  let? handle_id := identifier v in
  let? handle_ids := insert_new st.1 handle_id "response handles duplicated" in
  let? v := field_or handle "roleId" "role id missing" in
  let? role_id := identifier v in
  let? role_ids := insert_new st.2 role_id "response handles duplicated" in
  let? v := field_or handle "principalId" "principal missing" in
  let? _ := identifier v in
  let? v := field_or handle "incarnationDigest" "incarnation digest missing" in
  let? _ := digest v in
  let? v := field_or handle "artifactDigest" "artifact digest missing" in
  let? _ := digest v in
  throw_if negb (text_among handle "roleClass" CLASSES) with Error "role class unsupported" ;;
  Ok (handle_ids, role_ids).

Definition response_measurement (st : gset string * gset (string * string)) (measurement : Value)
    : P2 (gset string * gset (string * string)) :=
  let? _ := exact_keys measurement ["measurementId"; "roleHandleId"; "field"; "state"; "transcriptDigest"]%string in
  let? v := field_or measurement "measurementId" "measurement id missing" in
  let? id := identifier v in
  let? ids := insert_new st.1 id "measurements duplicated" in
  let? v := field_or measurement "roleHandleId" "measurement handle missing" in
  let? handle_id := identifier v in
  let? field_name := measurement_field measurement "field" in
  let? pairs := insert_new st.2 (handle_id, field_name) "response measurement subject/field duplicate" in
  let? v := field_or measurement "transcriptDigest" "transcript digest missing" in
  let? _ := digest v in
  throw_if negb (text_among measurement "state" ["active"; "inactive"; "unsupported"; "inconclusive"]%string)
    with Error "measurement state unsupported" ;;
  Ok (ids, pairs).

(** [match status { .. }] *)
Definition response_outcome (value : Value) (status : string) (handles measurements : list Value) : P2 unit :=
  if bool_decide (status = "ok"%string)
     && match field value "evidenceBundleDigest" with Some (Text _) => true | _ => false end
     && bool_decide (text_of value "failureCode" = Some ""%string)
  then Ok tt
  else if contains ["refused"; "failed"]%string status && bool_decide (handles = []) && bool_decide (measurements = []) then
    let? v := field_or value "failureCode" "failure code missing" in
    let? code := identifier v in
    let is_null := match field value "evidenceBundleDigest" with Some Null => true | _ => false end in
    let unavailable := starts_with "evidence.unavailable." code in
    throw_if xorb is_null unavailable with Error "failure evidence/code biconditional mismatch" ;;
    Ok tt
  else Err (Error "response status/evidence mismatch").

Definition validate_response (value : Value) : P2 unit :=
  let? _ := exact_keys value RESPONSE_KEYS in
  let? status := ok_or (text_of value "status") (Error "response status malformed") in
  let? v := field_or value "roleHandles" "response handles missing" in
  let? handles := array v 32 in
  let? v := field_or value "measurements" "response measurements missing" in
  let? measurements := array v 1024 in
  let? _ := res_fold response_handle handles (∅, ∅) in
  let? _ := res_fold response_measurement measurements (∅, ∅) in
  let? _ := each_identity value "response identity missing"
              ["requestId"; "deploymentId"; "bootId"; "nonce"; "helperBuildId"; "kernelBootId"]%string in
  let? _ := for_each (fun key => let? v := field_or value key "response digest missing" in let? _ := digest v in Ok tt)
              ["requestDigest"; "helperArtifactDigest"]%string in
  throw_if u64_absent value "sequence" with Error "response sequence missing" ;;
  let? _ :=
    match field value "evidenceBundleDigest" with
    | None | Some Null => Ok tt
    | Some bundle => let? _ := digest bundle in Ok tt
    end in
  response_outcome value status handles measurements.

(** ** Dispatch *)

Definition REVOCATION_KEYS : list string :=
  ["schema"; "version"; "authorityId"; "namespace"; "scope"; "keyEpoch"; "sequence"; "previousEnvelopeDigest";
   "issuedCounter"; "expiresCounter"; "revokedKeys"; "revokedArtifacts"; "rotationCutoffs"; "compromiseSemantics"]%string.

Definition validate_for (value : Value) (trust : TrustClass) : P2 Schema :=
  let? schema := classify value in
  let? _ :=
    match schema with
    | Request => validate_request value
    | Response => validate_response value
    | Deployment =>
        let? captured := payload value DEPLOYMENT_PAYLOAD_KEYS "keep.native-deployment" (Some trust) in
        let? _ := validate_deployment captured in
        let? release := required captured "release" in
        let? epoch := uint_field release "releaseKeyEpoch" in
        require_envelope_epoch value epoch
    | NativeClosure =>
        let? captured := payload value NATIVE_CLOSURE_PAYLOAD_KEYS "keep.native-release-closure" (Some trust) in
        let? _ := validate_closure captured in
        let? epoch := uint_field captured "releaseKeyEpoch" in
        require_envelope_epoch value epoch
    | NativeIndex =>
        let? captured := payload value NATIVE_INDEX_PAYLOAD_KEYS "keep.native-release-index" (Some trust) in
        let? _ := validate_index captured in
        let? epoch := uint_field captured "releaseKeyEpoch" in
        require_envelope_epoch value epoch
    | Evidence =>
        let? _ := exact_keys value EVIDENCE_KEYS in
        let? _ := require_version value 1 in
        let? _ := require_text value "schema" "keep.native-evidence" in
        validate_evidence value trust
    | Revocation =>
        let? captured := payload value REVOCATION_KEYS "keep.native-revocation" None in
        let? _ := validate_envelope_key_namespaces value trust in
        let? _ := validate_revocation captured in
        let? epoch := uint_field captured "keyEpoch" in
        require_envelope_epoch value epoch
    end in
  Ok schema.
Definition validate (value : Value) : P2 Schema := validate_for value Development.

Record CapturedDocument : Set := mkDocument {
  document_schema : Schema;
  document_trust : TrustClass;
  document_canonical : list byte
}.
Definition capture_canonical (bytes : list byte) (limits : Limits) (trust : TrustClass) : P2 CapturedDocument :=
  let? value := map_err Error (decode_canonical bytes limits) in
  let? schema := validate_for value trust in
  let? canonical := p2_encode value limits in
  Ok (mkDocument schema trust canonical).

Definition REQUEST_DOMAIN : list byte := str_bytes "keep.eir.v1.keep.native-boundary-request/v2" ++ [x00].
Definition native_boundary_request_digest (value : Value) : P2 string :=
  let? schema := validate_for value Development in
  throw_if negb (bool_decide (schema = Request)) with Error "native request digest received non-request" ;;
  let? canonical := p2_encode value WIRE in
  p2_sha256_hex (REQUEST_DOMAIN ++ canonical).
