(* ===== verification/Registry.v ===== *)
(** * The registry of digest paths ([protocol/src/lib.rs])

    Every digest field of the boundary documents with its semantic type, its rank
    and the digests it depends on. *)

From S2P Require Import Prelude Cbor Paths Schema.

(** ** The tables *)

Definition DEPLOYMENT_BASE_INPUTS : list string :=
  ["deployment.payload.predecessorDigest"; "deployment.payload.artifacts[].digest";
   "deployment.payload.roles[].artifactDigest"; "deployment.payload.roles[].cgroup.ioMaxDigest";
   "deployment.payload.roles[].launchSeccompDigest"; "deployment.payload.roles[].steadySeccompDigest";
   "deployment.payload.roles[].landlockDigest"; "deployment.payload.b3.genesisBaseDigest";
   "deployment.payload.b3.b3ProfileEnvelopeDigest"; "deployment.payload.revocation.genesisCheckpointEnvelopeDigest";
   "deployment.payload.rollback.predecessorDigest"]%string.

Definition CLOSURE_BASE_INPUTS : list string :=
  ["closure.payload.a4ReleaseBaseDigest"; "closure.payload.a4ArtifactInventoryDigest";
   "closure.payload.nativeArtifactInventoryDigest"; "closure.payload.nativeDeploymentPayloadDigest";
   "closure.payload.nativeDeploymentEnvelopeDigest"; "closure.payload.nativePackagePayloadDigest";
   "closure.payload.helperArtifactDigest"; "closure.payload.trampolineArtifactDigest";
   "closure.payload.proberArtifactDigest"; "closure.payload.provisionerArtifactDigests[]";
   "closure.payload.protocolDigest"; "closure.payload.evidenceSchemaDigest"; "closure.payload.sbomEnvelopeDigest";
   "closure.payload.provenanceEnvelopeDigests[]"; "closure.payload.reproducibilityRecordEnvelopeDigest";
   "closure.payload.toolchainClosureEnvelopeDigest"; "closure.payload.releaseTimeRevocationCheckpointEnvelopeDigest";
   "closure.payload.predecessorDigest"; "closure.payload.authorizedRollbackEnvelopeDigest";
   "closure.payload.b0RootEnvelopeDigest"; "closure.payload.b3ProfileEnvelopeDigest"]%string.

Definition DEPLOYMENT_PAYLOAD_INPUTS : list string :=
  ["deployment.payload.predecessorDigest"; "deployment.payload.artifacts[].digest";
   "deployment.payload.roles[].artifactDigest"; "deployment.payload.roles[].cgroup.ioMaxDigest";
   "deployment.payload.roles[].launchSeccompDigest"; "deployment.payload.roles[].steadySeccompDigest";
   "deployment.payload.roles[].landlockDigest"; "deployment.payload.b3.genesisBaseDigest";
   "deployment.payload.b3.b3ProfileEnvelopeDigest"; "deployment.payload.revocation.genesisCheckpointEnvelopeDigest";
   "deployment.payload.rollback.predecessorDigest"; "deployment.payload.deploymentBaseDigest";
   "deployment.payload.rollback.authorizedRollbackEnvelopeDigest"]%string.

Definition CLOSURE_PAYLOAD_INPUTS : list string :=
  ["closure.payload.a4ReleaseBaseDigest"; "closure.payload.a4ArtifactInventoryDigest";
   "closure.payload.nativeArtifactInventoryDigest"; "closure.payload.nativeDeploymentPayloadDigest";
   "closure.payload.nativeDeploymentEnvelopeDigest"; "closure.payload.nativePackagePayloadDigest";
   "closure.payload.helperArtifactDigest"; "closure.payload.trampolineArtifactDigest";
   "closure.payload.proberArtifactDigest"; "closure.payload.provisionerArtifactDigests[]";
   "closure.payload.protocolDigest"; "closure.payload.evidenceSchemaDigest"; "closure.payload.sbomEnvelopeDigest";
   "closure.payload.provenanceEnvelopeDigests[]"; "closure.payload.reproducibilityRecordEnvelopeDigest";
   "closure.payload.toolchainClosureEnvelopeDigest"; "closure.payload.releaseTimeRevocationCheckpointEnvelopeDigest";
   "closure.payload.predecessorDigest"; "closure.payload.authorizedRollbackEnvelopeDigest";
   "closure.payload.b0RootEnvelopeDigest"; "closure.payload.b3ProfileEnvelopeDigest";
   "closure.payload.nativeClosureBaseDigest"; "closure.payload.timestampRecordEnvelopeDigest"]%string.

Definition INDEX_PAYLOAD_INPUTS : list string :=
  ["index.payload.a4ReleaseBaseDigest"; "index.payload.deploymentEnvelopeDigest";
   "index.payload.nativeClosureEnvelopeDigest"; "index.payload.b0RootEnvelopeDigest"]%string.

Definition OTHER_DIGEST_PATHS : list string :=
  ["request.manifestDigest"; "request.roles[].artifactDigest"; "response.requestDigest";
   "response.helperArtifactDigest"; "response.roleHandles[].incarnationDigest";
   "response.roleHandles[].artifactDigest"; "response.measurements[].transcriptDigest";
   "response.evidenceBundleDigest"; "deployment.payloadDigest"; "closure.payloadDigest"; "index.payloadDigest";
   "index.payload.a4ReleaseBaseDigest"; "index.payload.deploymentEnvelopeDigest";
   "index.payload.nativeClosureEnvelopeDigest"; "index.payload.b0RootEnvelopeDigest"; "revocation.payloadDigest";
   "revocation.payload.previousEnvelopeDigest"; "evidence.manifestDigest"; "evidence.nativeClosureEnvelopeDigest";
   "evidence.helperArtifactDigest"; "evidence.helperIncarnation"; "evidence.protocolDigest";
   "evidence.requestDigest"; "evidence.b3ProfileEnvelopeDigest"; "evidence.b3LeaseReceiptEnvelopeDigest";
   "evidence.proberArtifactDigest"; "evidence.proberIncarnation"; "evidence.revocationEnvelopeDigest";
   "evidence.roles[].artifactDigest"; "evidence.roles[].incarnationDigest";
   "evidence.measurements[].value.ioMaxDigest"; "evidence.measurements[].value.filterDigest";
   "evidence.measurements[].value.rulesetDigest"; "evidence.measurements[].value.entries[].sourceDigest";
   "evidence.measurements[].value.entries[].flagsDigest"; "evidence.measurements[].value.pidfdDigest";
   "evidence.measurements[].value.value"; "evidence.measurements[].value.values[]";
   "evidence.measurements[].transcriptDigest"; "evidence.negativeProbes[].controlDigest";
   "evidence.inheritedFdInventory[].flagsDigest"; "evidence.cleanup.journalDigest";
   "evidence.previousEvidenceDigest"; "revocation.payload.revokedArtifacts[]"]%string.

Definition EVIDENCE_BUNDLE_INPUTS : list string :=
  ["evidence.manifestDigest"; "evidence.nativeClosureEnvelopeDigest"; "evidence.helperArtifactDigest";
   "evidence.helperIncarnation"; "evidence.protocolDigest"; "evidence.requestDigest";
   "evidence.b3ProfileEnvelopeDigest"; "evidence.b3LeaseReceiptEnvelopeDigest"; "evidence.proberArtifactDigest";
   "evidence.proberIncarnation"; "evidence.revocationEnvelopeDigest"; "evidence.roles[].artifactDigest";
   "evidence.roles[].incarnationDigest"; "evidence.measurements[].value.ioMaxDigest";
   "evidence.measurements[].value.filterDigest"; "evidence.measurements[].value.rulesetDigest";
   "evidence.measurements[].value.entries[].sourceDigest"; "evidence.measurements[].value.entries[].flagsDigest";
   "evidence.measurements[].value.pidfdDigest"; "evidence.measurements[].value.value";
   "evidence.measurements[].value.values[]"; "evidence.measurements[].transcriptDigest";
   "evidence.negativeProbes[].controlDigest"; "evidence.inheritedFdInventory[].flagsDigest";
   "evidence.cleanup.journalDigest"; "evidence.previousEvidenceDigest"]%string.

Definition REVOCATION_PAYLOAD_INPUTS : list string :=
  ["revocation.payload.previousEnvelopeDigest"; "revocation.payload.revokedArtifacts[]"]%string.

Definition REQUIRED_DAG_EDGES : list (string * list string) :=
  [("deployment.payload.deploymentBaseDigest", DEPLOYMENT_BASE_INPUTS);
   ("deployment.payload.rollback.authorizedRollbackEnvelopeDigest", ["deployment.payload.deploymentBaseDigest"]);
   ("deployment.payloadDigest", DEPLOYMENT_PAYLOAD_INPUTS);
   ("request.manifestDigest", ["deployment.payloadDigest"]);
   ("evidence.manifestDigest", ["deployment.payloadDigest"]);
   ("closure.payload.nativeDeploymentEnvelopeDigest", ["deployment.payloadDigest"]);
   ("index.payload.deploymentEnvelopeDigest", ["deployment.payloadDigest"]);
   ("closure.payload.nativeClosureBaseDigest", CLOSURE_BASE_INPUTS);
   ("closure.payload.timestampRecordEnvelopeDigest", ["closure.payload.nativeClosureBaseDigest"]);
   ("closure.payloadDigest", CLOSURE_PAYLOAD_INPUTS);
   ("index.payload.nativeClosureEnvelopeDigest", ["closure.payloadDigest"]);
   ("evidence.nativeClosureEnvelopeDigest", ["closure.payloadDigest"]);
   ("index.payloadDigest", INDEX_PAYLOAD_INPUTS);
   ("revocation.payloadDigest", REVOCATION_PAYLOAD_INPUTS);
   ("response.evidenceBundleDigest", EVIDENCE_BUNDLE_INPUTS)]%string.

Record DigestRegistryEntry : Set := mkEntry {
  entry_path : string;
  entry_field : string;
  semantic_type : string;
  rank : Z;
  depends_on : list string
}.

(** ** The registry *)

Definition ends_with (s suffix : string) : bool :=
  let n := (length (str_bytes s) - length (str_bytes suffix))%nat in
  (length (str_bytes suffix) <=? length (str_bytes s))%nat && bool_decide (skipn n (str_bytes s) = str_bytes suffix).

Definition leaf_rank (path : string) : Z * list string :=
  if bool_decide (path = "revocation.payloadDigest"%string) then (1, ["revocation.payload.previousEnvelopeDigest"%string])
  else if ends_with path "authorizedRollbackEnvelopeDigest" then (4, ["deployment.payload.deploymentBaseDigest"%string])
  else if bool_decide (path = "request.manifestDigest"%string) || bool_decide (path = "evidence.manifestDigest"%string)
          || ends_with path "deploymentEnvelopeDigest" || ends_with path "nativeDeploymentEnvelopeDigest"
  then (6, ["deployment.payloadDigest"%string])
  else if ends_with path "timestampRecordEnvelopeDigest" then (8, ["closure.payload.nativeClosureBaseDigest"%string])
  else if ends_with path "nativeClosureEnvelopeDigest" then (10, ["closure.payloadDigest"%string])
  else (0, []).
(** [path.rsplit('.').next()], without a final [[]] *)
Definition leaf_field (path : string) : string :=
  let tail := List.last (split x2e path) path in
  if ends_with tail "[]" then str_of_bytes (firstn (length (str_bytes tail) - 2) (str_bytes tail)) else tail.
Definition leaf_type (path : string) : string :=
  if bool_decide (path = "request.manifestDigest"%string) || bool_decide (path = "evidence.manifestDigest"%string)
     || ends_with path "deploymentEnvelopeDigest" || ends_with path "nativeDeploymentEnvelopeDigest"
  then "native-deployment-envelope-v1"
  else if ends_with path "nativeClosureEnvelopeDigest" then "native-release-closure-envelope-v1"
  else path.
(** [digest_registry_leaf(path, None)]: no caller gives a type. *)
Definition digest_registry_leaf (path : string) : DigestRegistryEntry :=
  let '(rank, depends_on) := leaf_rank path in mkEntry path (leaf_field path) (leaf_type path) rank depends_on.

(** The arms of [match *path] over [OTHER_DIGEST_PATHS]. *)
Definition other_entry (path : string) : DigestRegistryEntry :=
  if bool_decide (path = "deployment.payloadDigest"%string)
  then mkEntry path "payloadDigest" "native-deployment-payload-v1" 5 DEPLOYMENT_PAYLOAD_INPUTS
  else if bool_decide (path = "closure.payloadDigest"%string)
  then mkEntry path "payloadDigest" "native-release-closure-payload-v1" 9 CLOSURE_PAYLOAD_INPUTS
  else if bool_decide (path = "index.payloadDigest"%string)
  then mkEntry path "payloadDigest" "native-release-index-payload-v1" 11 INDEX_PAYLOAD_INPUTS
  else if bool_decide (path = "revocation.payloadDigest"%string)
  then mkEntry path "payloadDigest" "native-revocation-payload-v1" 1 REVOCATION_PAYLOAD_INPUTS
  else if bool_decide (path = "response.evidenceBundleDigest"%string)
  then mkEntry path "evidenceBundleDigest" "native-evidence-bundle-v1" 12 EVIDENCE_BUNDLE_INPUTS
  else digest_registry_leaf path.

Definition NATIVE_V2_DIGEST_REGISTRY : list DigestRegistryEntry :=
  map digest_registry_leaf DEPLOYMENT_BASE_INPUTS
  ++ [digest_registry_leaf "deployment.payload.rollback.authorizedRollbackEnvelopeDigest";
      mkEntry "deployment.payload.deploymentBaseDigest" "deploymentBaseDigest" "native-deployment-base-v1" 3
        DEPLOYMENT_BASE_INPUTS]
  ++ map digest_registry_leaf CLOSURE_BASE_INPUTS
  ++ [digest_registry_leaf "closure.payload.timestampRecordEnvelopeDigest";
      mkEntry "closure.payload.nativeClosureBaseDigest" "nativeClosureBaseDigest" "native-release-closure-base-v1" 7
        CLOSURE_BASE_INPUTS]
  ++ map other_entry OTHER_DIGEST_PATHS.

(** ** Validation *)

Definition register (by_path : gmap string Z) (entry : DigestRegistryEntry) : P2 (gmap string Z) :=
  throw_if bool_decide (entry_path entry = ""%string) || bool_decide (entry_field entry = ""%string)
           || bool_decide (semantic_type entry = ""%string)
    with Error "digest registry identity empty" ;;
  throw_if bool_decide (is_Some (by_path !! entry_path entry)) with Error "digest registry path duplicate" ;;
  Ok (<[entry_path entry := rank entry]> by_path).
Definition check_dependency (by_path : gmap string Z) (entry : DigestRegistryEntry) (dependency : string) : P2 unit :=
  let? dependency_rank := ok_or (by_path !! dependency) (Error "digest registry dependency absent") in
  throw_if rank entry <=? dependency_rank with Error "digest registry dependency rank invalid" ;;
  Ok tt.
Definition check_required (entry : DigestRegistryEntry) : P2 unit :=
  match List.find (fun edge : string * list string => bool_decide (edge.1 = entry_path entry)) REQUIRED_DAG_EDGES with
  | Some (_, required) =>
      throw_if negb (bool_decide (sort_by str_cmp (depends_on entry) = sort_by str_cmp required))
        with Error "digest registry required edges incomplete" ;;
      Ok tt
  | None => Ok tt
  end.
Definition validate_digest_registry (entries : list DigestRegistryEntry) : P2 unit :=
  let? by_path := res_fold register entries ∅ in
  let? _ := for_each (fun entry =>
              let? _ := for_each (check_dependency by_path entry) (depends_on entry) in
              check_required entry) entries in
  for_each (fun edge : string * list string =>
              throw_if negb (bool_decide (is_Some (by_path !! edge.1))) with Error "digest registry required node absent" ;;
              Ok tt) REQUIRED_DAG_EDGES.
