(* ===== verification/NativeFacts.v ===== *)
(** * Reading boundary documents

    What the field readers of [Native] accept, a tactic that turns a successful
    run of a validator into facts on fields, and the shared invariants of its
    loops. *)

From S2P Require Import Prelude Cbor CborFacts Paths Schema SchemaFacts Native Deployment.
Import Spec Encode Steps.

(** ** Fields *)

Definition id_at (v : Value) (key id : string) : Prop := field v key = Some (Text id).
Definition number_at (v : Value) (key : string) (n : Z) : Prop := field v key = Some (Unsigned n).
Definition flag_at (v : Value) (key : string) (b : bool) : Prop := field v key = Some (Bool b).
Definition rows_at (v : Value) (key : string) (rows : list Value) : Prop := field v key = Some (Array rows).
Definition ids_at (v : Value) (key : string) (ids : list string) : Prop := rows_at v key (map Text ids).

Lemma id_at_inj v key a b : id_at v key a -> id_at v key b -> a = b.
Proof. unfold id_at. congruence. Qed.
Lemma number_at_inj v key a b : number_at v key a -> number_at v key b -> a = b.
Proof. unfold number_at. congruence. Qed.
Lemma rows_at_inj v key a b : rows_at v key a -> rows_at v key b -> a = b.
Proof. unfold rows_at. congruence. Qed.
Lemma map_Text_inj l k : map Text l = map Text k -> l = k.
Proof. revert k. induction l as [|a l IH]; intros [|b k]; cbn; try done. intros [= -> H]. f_equal. by apply IH. Qed.
Lemma ids_at_inj v key a b : ids_at v key a -> ids_at v key b -> a = b.
Proof. intros Ha Hb. eapply map_Text_inj, rows_at_inj; [exact Ha|exact Hb]. Qed.

Lemma as_text_ok v s : as_text v = Some s <-> v = Text s.
Proof. destruct v; cbn; naive_solver. Qed.
Lemma as_u64_ok v n : as_u64 v = Some n <-> v = Unsigned n.
Proof. destruct v; cbn; naive_solver. Qed.
Lemma required_ok v key w : required v key = Ok w <-> field v key = Some w.
Proof. apply ok_or_ok. Qed.
Lemma text_of_ok v key s : text_of v key = Some s <-> id_at v key s.
Proof.
  unfold text_of, id_at. split; [intros (w & Hw & ->%as_text_ok)%bind_Some; done|].
  intros H. rewrite H. done.
Qed.
Lemma identifier_text v s : Native.identifier v = Ok s -> v = Text s.
Proof. unfold Native.identifier. intros H. ok_inv. by apply as_text_ok. Qed.
Lemma digest_text v s : Native.digest v = Ok s -> v = Text s.
Proof. unfold Native.digest. intros H. ok_inv. by apply as_text_ok. Qed.
Lemma id_field_ok v key s : id_field v key = Ok s -> id_at v key s.
Proof. unfold id_field. intros (w & Hw%required_ok & ->%identifier_text)%bind_ok. done. Qed.
Lemma digest_value_ok v key s : digest_field v key = Ok s -> id_at v key s.
Proof. unfold digest_field. intros (w & Hw%required_ok & ->%digest_text)%bind_ok. done. Qed.
Lemma number_field_ok v key n : uint_field v key = Ok n <-> number_at v key n.
Proof.
  unfold uint_field, number_at. rewrite bind_ok. setoid_rewrite required_ok. setoid_rewrite ok_or_ok.
  split; [intros (w & Hw & ->%as_u64_ok); done|intros H; by exists (Unsigned n)].
Qed.
Lemma bool_field_ok v key b : bool_field v key = Ok b <-> flag_at v key b.
Proof.
  unfold bool_field, flag_at. rewrite bind_ok. setoid_rewrite required_ok. split.
  - intros (w & Hw & H). destruct w; try discriminate. by injection H as ->.
  - intros H. by exists (Bool b).
Qed.
Lemma array_ok v m rows : array v m = Ok rows <-> v = Array rows /\ len rows <= m.
Proof.
  destruct v as [| | | | |items|]; cbn; try naive_solver. destruct (Z.leb_spec (len items) m).
  - split; [by intros [= <-]|by intros [[= <-] _]].
  - split; [done|]. intros [[= <-] ?]. lia.
Qed.
Lemma array_field_ok v key m rows : array_field v key m = Ok rows <-> rows_at v key rows /\ len rows <= m.
Proof.
  unfold array_field, rows_at. rewrite bind_ok. setoid_rewrite required_ok. setoid_rewrite array_ok. naive_solver.
Qed.
Lemma enum_field_ok v key allowed s : enum_field v key allowed = Ok s -> id_at v key s /\ s ∈ allowed.
Proof. unfold enum_field. intros H. apply bind_ok in H as (t & Ht%id_field_ok & H). apply check_ok in H as [Hc [= ->]]. by apply contains_spec in Hc. Qed.

Lemma identifiers_texts rows ids : res_map Native.identifier rows = Ok ids -> rows = map Text ids.
Proof.
  intros H%res_map_Forall2. induction H as [|v s rows ids ->%identifier_text H IH]; [done|]. cbn. by rewrite IH.
Qed.
Lemma sorted_ids_ok v m ids :
  sorted_ids v m = Ok ids -> v = Array (map Text ids) /\ len ids <= m /\ unsorted ids = false.
Proof.
  unfold sorted_ids. intros H. apply bind_ok in H as (rows & [-> Hl]%array_ok & H).
  apply bind_ok in H as (out & Hr%identifiers_texts & H). apply guard_ok in H as [Hs [= <-]]. subst rows.
  by rewrite len_map in Hl.
Qed.
Lemma ids_field_ok v key m ids : ids_field v key m = Ok ids -> ids_at v key ids /\ len ids <= m.
Proof. unfold ids_field. intros (w & Hw%required_ok & (-> & Hl & _)%sorted_ids_ok)%bind_ok. done. Qed.
Lemma require_text_ok v key s u : require_text v key s = Ok u -> id_at v key s.
Proof. unfold require_text. intros [H _]%check_ok. by apply bool_decide_eq_true, text_of_ok in H. Qed.

Lemma insert_new_ok {A} `{Countable A} (seen seen' : gset A) a message :
  insert_new seen a message = Ok seen' -> (a ∉ seen) /\ seen' = {[a]} ∪ seen.
Proof. unfold insert_new. intros [Hn [= <-]]%guard_ok. by apply bool_decide_eq_false in Hn. Qed.
Lemma ascending_ok message prior id next : ascending message prior id = Ok next -> next = Some id.
Proof. unfold ascending. by intros [_ [= <-]]%guard_ok. Qed.
Lemma res_or_false a b : res_or a b = Ok false -> a = Ok false /\ b = Ok false.
Proof. unfold res_or. intros ([] & Ha & H)%bind_ok; [discriminate|done]. Qed.
Lemma enum_fails_ok v key allowed : enum_fails v key allowed = Ok false -> exists s, id_at v key s /\ s ∈ allowed.
Proof.
  unfold enum_fails. intros [= H%negb_false_iff]. destruct (enum_field v key allowed) as [s|] eqn:E; [|done].
  apply enum_field_ok in E. by exists s.
Qed.
Lemma uint_differs_ok v key n : uint_differs v key n = Ok false -> number_at v key n.
Proof.
  unfold uint_differs. intros (m & Hm%number_field_ok & [= H%negb_false_iff])%bind_ok. by apply Z.eqb_eq in H as ->.
Qed.

(** ** Equality of values *)
Lemma value_eqb_eq a b : value_eqb a b = true -> a = b.
Proof.
  revert b. induction a as [|x|x|x|x|l IH|l IH] using Value_nested_ind; intros [|y|y|y|y|k|k]; cbn [value_eqb]; try done.
  - by intros ->%eqb_prop.
  - by intros ->%Z.eqb_eq.
  - by intros ->%bool_decide_eq_true.
  - by intros ->%bool_decide_eq_true.
  - intros H. f_equal. revert k H. induction IH as [|a l Ha _ IHl]; intros [|b k]; try done.
    intros [E%Ha H%IHl]%andb_true_iff. by subst.
  - intros H. f_equal. revert k H. induction IH as [|[n a] l Ha _ IHl]; intros [|[m b] k]; try done.
    intros [[->%bool_decide_eq_true E%Ha]%andb_true_iff H%IHl]%andb_true_iff. cbn in E. by subst.
Qed.

(** ** Loops: an invariant on the rows read so far *)

Lemma fold_inv {E S} (f : S -> Value -> result E S) (P : list Value -> S -> Prop) rows s s' :
  P [] s -> (forall seen st row st', P seen st -> f st row = Ok st' -> P (seen ++ [row]) st') ->
  res_fold f rows s = Ok s' -> P rows s'.
Proof.
  intros Hs Hf. change rows with ([] ++ rows) at 2. revert Hs. generalize (@nil Value) as seen. revert s.
  induction rows as [|row rows IH]; intros s seen Hs H; cbn [res_fold] in H.
  - injection H as <-. by rewrite app_nil_r.
  - apply bind_ok in H as (st & Hst & H). replace (seen ++ row :: rows) with ((seen ++ [row]) ++ rows) by by rewrite <- app_assoc.
    eapply IH; [by eapply Hf|exact H].
Qed.

Lemma Forall2_snoc {A B} (P : A -> B -> Prop) l k a b : Forall2 P l k -> P a b -> Forall2 P (l ++ [a]) (k ++ [b]).
Proof. intros H Hab. apply Forall2_app; [done|by repeat constructor]. Qed.
Lemma NoDup_snoc {A} (l : list A) a : NoDup l -> a ∉ l -> NoDup (l ++ [a]).
Proof. intros H Ha. apply NoDup_app. split_and!; [done|set_solver|by repeat constructor; set_solver]. Qed.

(** ** Successful runs *)

(** Turn the first reads of a successful run into facts on the fields. *)
Ltac read_step :=
  match goal with
  | H : required _ _ = Ok _ |- _ => apply required_ok in H
  | H : id_field _ _ = Ok _ |- _ => apply id_field_ok in H
  | H : digest_field _ _ = Ok _ |- _ => apply digest_value_ok in H
  | H : uint_field _ _ = Ok _ |- _ => apply number_field_ok in H
  | H : bool_field _ _ = Ok _ |- _ => apply bool_field_ok in H
  | H : array_field _ _ _ = Ok _ |- _ => apply array_field_ok in H as [H ?]
  | H : ids_field _ _ _ = Ok _ |- _ => apply ids_field_ok in H as [H ?]
  | H : enum_field _ _ _ = Ok _ |- _ => apply enum_field_ok in H as [H ?]
  | H : insert_new _ _ _ = Ok _ |- _ => apply insert_new_ok in H as [H ->]
  | H : ascending _ _ _ = Ok _ |- _ => apply ascending_ok in H as ->
  | H : for_each _ _ = Ok ?u |- _ => destruct u; apply for_each_ok in H
  | H : res_or _ _ = Ok false |- _ => let H' := fresh H in apply res_or_false in H as [H H']
  | H : enum_fails _ _ _ = Ok false |- _ => apply enum_fails_ok in H
  | H : uint_differs _ _ _ = Ok false |- _ => apply uint_differs_ok in H
  | _ => ok_inv_step
  end.
Ltac read := repeat read_step.
