(* ===== verification/BoundaryFacts.v ===== *)
(** * Theorems on boundary documents

    Validation of a document never panics, a capture is the canonical encoding of
    a document of its class under its trust, and accepted evidence agrees with
    itself. *)

From S2P Require Import Prelude Cbor CborFacts Sha256 Paths Schema SchemaFacts P2Safety Native Deployment Evidence Boundary NativeFacts.
Import Spec Encode Steps Safety.

(** ** Validation returns *)
Module Returns.

Lemma safe_hash (domain : list byte) v L bytes :
  p2_encode v L = Ok bytes -> limits_ok L -> 8 * (len domain + max_bytes L) <= u64_max ->
  safe (p2_sha256_hex (domain ++ bytes)).
Proof.
  intros He%map_err_ok HL Hm. unfold p2_sha256_hex. apply encode_bounded_spec in He as (He & _ & _ & Hs); [|done].
  apply encode_len in He. unfold OneShot.sha256_hex.
  destruct (Facts.sha256_total (domain ++ bytes)) as (d & -> & _); [rewrite len_app; lia|]. done.
Qed.
Lemma safe_res_map {A B} (f : A -> P2 B) l : (forall a, a ∈ l -> safe (f a)) -> safe (res_map f l).
Proof.
  induction l as [|a l IH]; intros Hf; cbn [res_map]; [done|].
  apply safe_bind; [apply Hf; left|]. intros b _. apply safe_bind; [|done]. apply IH. intros. apply Hf. by right.
Qed.

(** *** Readers *)
Lemma safe_native_keys v l : safe (exact_keys v l). Proof. unfold exact_keys. safe. Qed.
Lemma safe_without v l : safe (projection_without v l). Proof. by destruct v. Qed.
Lemma safe_require_text v k s : safe (require_text v k s). Proof. unfold require_text. safe. Qed.
Lemma safe_native_version v n : safe (require_version v n). Proof. unfold require_version. safe. Qed.
Lemma safe_native_identifier v : safe (Native.identifier v). Proof. unfold Native.identifier. safe. Qed.
Lemma safe_native_digest v : safe (Native.digest v). Proof. unfold Native.digest. safe. Qed.
Lemma safe_signature_bytes v : safe (signature_bytes v). Proof. unfold signature_bytes. safe. Qed.
Lemma safe_values v n : safe (array v n). Proof. unfold array. safe. Qed.
Lemma safe_insert {A} `{Countable A} (seen : gset A) a m : safe (insert_new seen a m).
Proof. unfold insert_new. safe. Qed.
Lemma safe_required v k : safe (required v k). Proof. apply safe_ok_or. Qed.
Lemma safe_field_or v k m : safe (field_or v k m). Proof. apply safe_ok_or. Qed.
Lemma safe_ascending m p i : safe (ascending m p i). Proof. unfold ascending. safe. Qed.
#[export] Hint Resolve safe_native_keys safe_without safe_require_text safe_native_version safe_native_identifier
  safe_native_digest safe_signature_bytes safe_values safe_insert safe_required safe_field_or safe_ascending : p2.
Lemma safe_unique_text l : safe (unique_text l). Proof. unfold unique_text. safe. Qed.
Lemma safe_number v k : safe (uint_field v k). Proof. unfold uint_field. safe. Qed.
Lemma safe_id v k : safe (id_field v k). Proof. unfold id_field. safe. Qed.
Lemma safe_digest_at v k : safe (digest_field v k). Proof. unfold digest_field. safe. Qed.
Lemma safe_bool v k : safe (bool_field v k). Proof. unfold bool_field. safe. Qed.
#[export] Hint Resolve safe_unique_text safe_number safe_id safe_digest_at safe_bool : p2.
Lemma safe_enum v k l : safe (enum_field v k l). Proof. unfold enum_field. safe. Qed.
Lemma safe_sorted_ids v n : safe (sorted_ids v n).
Proof. unfold sorted_ids. safe. apply safe_res_map. auto with p2. Qed.
Lemma safe_sorted_digests v n : safe (sorted_digests v n).
Proof. unfold sorted_digests. safe. apply safe_res_map. auto with p2. Qed.
#[export] Hint Resolve safe_enum safe_sorted_ids safe_sorted_digests : p2.
Lemma safe_ids v k n : safe (ids_field v k n). Proof. unfold ids_field. safe. Qed.
Lemma safe_rows v k n : safe (array_field v k n). Proof. unfold array_field. safe. Qed.
Lemma safe_digests v k n : safe (digests_field v k n). Proof. unfold digests_field. safe. Qed.
Lemma safe_each_key {A} (read : Value -> string -> P2 A) v l : (forall k, safe (read v k)) -> safe (each_key read v l).
Proof. intros H. unfold each_key. safe. Qed.
Lemma safe_or a b : safe a -> safe b -> safe (res_or a b). Proof. intros. unfold res_or. safe. Qed.
Lemma safe_id_differs v k s : safe (id_differs v k s). Proof. unfold id_differs. safe. Qed.
Lemma safe_uint_differs v k n : safe (uint_differs v k n). Proof. unfold uint_differs. safe. Qed.
Lemma safe_enum_fails v k l : safe (enum_fails v k l). Proof. done. Qed.
#[export] Hint Resolve safe_ids safe_rows safe_digests safe_each_key safe_or safe_id_differs safe_uint_differs
  safe_enum_fails : p2.
Lemma safe_bool_map v l : safe (exact_bool_map v l). Proof. unfold exact_bool_map. safe. Qed.
Lemma safe_uint_map v l : safe (exact_uint_map v l). Proof. unfold exact_uint_map. safe. Qed.
#[export] Hint Resolve safe_bool_map safe_uint_map : p2.

(** [safe] with the disjunctions and the collected loops. *)
Ltac runs_safely :=
  repeat first [ match goal with
                 | |- safe (res_or _ _) => apply safe_or
                 | |- safe (res_map _ _) => apply safe_res_map; intros ? ?
                 end | safe_step ].

(** *** Payloads and measurements *)
Lemma safe_namespace k t : safe (require_key_namespace k t). Proof. unfold require_key_namespace. runs_safely. Qed.
Lemma safe_trust v t : safe (require_trust v t). Proof. unfold require_trust. runs_safely. Qed.
#[export] Hint Resolve safe_namespace safe_trust : p2.
Lemma safe_payload v keys schema trust : safe (payload v keys schema trust).
Proof.
  unfold payload. do 7 (apply safe_bind; [runs_safely|intros ? _]). apply safe_bind; [unfold p2_encode; safe|]. intros bytes Hb.
  apply safe_bind; [by apply (safe_hash [] _ _ _ Hb)|]. intros actual _. unfold payload_signature. runs_safely.
Qed.
Lemma safe_envelope_namespaces v t : safe (validate_envelope_key_namespaces v t).
Proof. unfold validate_envelope_key_namespaces. runs_safely. Qed.
Lemma safe_envelope_epoch v n : safe (require_envelope_epoch v n).
Proof. unfold require_envelope_epoch. runs_safely. Qed.
#[export] Hint Resolve safe_payload safe_envelope_namespaces safe_envelope_epoch : p2.

Lemma safe_measurement_field v k : safe (measurement_field v k). Proof. unfold measurement_field. runs_safely. Qed.
Lemma safe_uint_values v n : safe (uint_values v n). Proof. unfold uint_values, uint_step. runs_safely. Qed.
Lemma safe_typed v l s : safe (typed v l s). Proof. unfold typed. runs_safely. Qed.
#[export] Hint Resolve safe_measurement_field safe_uint_values safe_typed : p2.
Lemma safe_mount v : safe (validate_mount_entry v). Proof. unfold validate_mount_entry. runs_safely. Qed.
Lemma safe_descriptor v : safe (validate_descriptor v). Proof. unfold validate_descriptor. runs_safely. Qed.
#[export] Hint Resolve safe_mount safe_descriptor : p2.
Lemma safe_measurement_value f v : safe (validate_measurement_value f v).
Proof. unfold validate_measurement_value. runs_safely. Qed.
#[export] Hint Resolve safe_measurement_value : p2.

(** *** Deployments *)
Lemma projection_map v l w : projection_without v l = Ok w -> exists fields, w = Map fields.
Proof. destruct v; try discriminate. intros [= <-]. eauto. Qed.
Lemma safe_deployment_projection v : safe (deployment_projection v).
Proof.
  unfold deployment_projection. do 4 (apply safe_bind; [runs_safely|intros ? _]). apply safe_bind; [runs_safely|].
  intros w (fields & ->)%projection_map. runs_safely.
Qed.
Lemma safe_projection_digest domain v : len domain <= 1000 -> safe (projection_digest domain v).
Proof.
  intros Hd. unfold projection_digest. apply safe_bind; [unfold p2_encode; safe|]. intros bytes Hb.
  apply (safe_hash _ _ _ _ Hb); [done|]. unfold u64_max. cbn. lia.
Qed.
Lemma safe_base_digest v : safe (deployment_base_digest v).
Proof.
  apply safe_bind; [apply safe_deployment_projection|]. intros w _. by apply safe_projection_digest.
Qed.
#[export] Hint Resolve safe_base_digest : p2.
Lemma safe_boot v : safe (validate_boot v).
Proof. unfold validate_boot. runs_safely. unfold kernel_cell. runs_safely. Qed.
Lemma safe_protocol v : safe (validate_protocol v). Proof. unfold validate_protocol. runs_safely. Qed.
Lemma safe_artifacts v : safe (validate_artifacts v).
Proof. unfold validate_artifacts, validate_artifact. runs_safely. Qed.
Lemma safe_role_sandbox st v : safe (validate_role_sandbox st v).
Proof. unfold validate_role_sandbox, validate_role_mount, all_u64. runs_safely. Qed.
#[export] Hint Resolve safe_boot safe_protocol safe_artifacts safe_role_sandbox : p2.
Lemma safe_roles v st : safe (validate_roles v st). Proof. unfold validate_roles, validate_role. runs_safely. Qed.
Lemma safe_channels v : safe (validate_channels v). Proof. unfold validate_channels, validate_channel. runs_safely. Qed.
Lemma safe_role_channels st v : safe (role_channels st v). Proof. unfold role_channels, role_channel. runs_safely. Qed.
Lemma safe_prober v a r : safe (validate_prober v a r). Proof. unfold validate_prober. runs_safely. Qed.
Lemma safe_provisioners v a r c p : safe (validate_provisioners v a r c p).
Proof. unfold validate_provisioners, validate_provisioner, provision_channel_bad. runs_safely. Qed.
Lemma safe_b3 v : safe (validate_b3 v). Proof. unfold validate_b3. runs_safely. Qed.
#[export] Hint Resolve safe_roles safe_channels safe_role_channels safe_prober safe_provisioners safe_b3 : p2.
Lemma safe_id_rows key l : safe (res_map (fun row => id_field row key) l).
Proof. apply safe_res_map. auto with p2. Qed.
#[export] Hint Resolve safe_id_rows : p2.
Lemma safe_endpoints r p b v : safe (endpoints_of r p b v). Proof. unfold endpoints_of. runs_safely. Qed.
Lemma safe_check_endpoints e c : safe (check_endpoints e c). Proof. unfold check_endpoints. runs_safely. Qed.
Lemma safe_authority_bad c f t : safe f -> safe t -> safe (authority_channel_bad c f t).
Proof. intros. unfold authority_channel_bad. runs_safely. Qed.
#[export] Hint Resolve safe_endpoints safe_check_endpoints safe_authority_bad : p2.
Lemma safe_prober_channel c p : safe (check_prober_channel c p).
Proof. unfold check_prober_channel. runs_safely. apply safe_authority_bad; runs_safely. Qed.
Lemma safe_b3_channel c b : safe (check_b3_channel c b).
Proof. unfold check_b3_channel. runs_safely. apply safe_authority_bad; runs_safely. Qed.
Lemma safe_authorities p b v : safe (authority_channels p b v). Proof. unfold authority_channels. runs_safely. Qed.
Lemma safe_participants a r c : safe (check_participants a r c). Proof. unfold check_participants. runs_safely. Qed.
Lemma safe_artifact_use a r v p s : safe (check_artifact_use a r v p s).
Proof. unfold check_artifact_use, used_artifacts. runs_safely. Qed.
Lemma safe_release v a : safe (validate_release v a). Proof. unfold validate_release. runs_safely. Qed.
#[export] Hint Resolve safe_prober_channel safe_b3_channel safe_authorities safe_participants safe_artifact_use
  safe_release : p2.
Lemma safe_deployment_revocation v : safe (validate_deployment_revocation v).
Proof. unfold validate_deployment_revocation. runs_safely. Qed.
Lemma safe_deployment_rollback v n : safe (validate_deployment_rollback v n).
Proof. unfold validate_deployment_rollback. runs_safely. Qed.
Lemma safe_deployment_evidence v p : safe (validate_deployment_evidence v p).
Proof. unfold validate_deployment_evidence. runs_safely. Qed.
#[export] Hint Resolve safe_deployment_revocation safe_deployment_rollback safe_deployment_evidence : p2.
Lemma safe_deployment v : safe (validate_deployment v).
Proof. unfold validate_deployment. runs_safely. Qed.
#[export] Hint Resolve safe_deployment : p2.

(** *** The other classes *)
Lemma safe_closure_base v : safe (native_closure_base_digest v).
Proof. unfold native_closure_base_digest. runs_safely. by apply safe_projection_digest. Qed.
#[export] Hint Resolve safe_closure_base : p2.
Lemma safe_closure v : safe (validate_closure v). Proof. unfold validate_closure. runs_safely. Qed.
Lemma safe_index v : safe (validate_index v). Proof. unfold validate_index. runs_safely. Qed.
Lemma safe_revocation v : safe (validate_revocation v).
Proof. unfold validate_revocation, rotation_cutoff. runs_safely. Qed.
Lemma safe_evidence_role st v : safe (evidence_role st v). Proof. unfold evidence_role. runs_safely. Qed.
Lemma safe_evidence_measurement r st v : safe (evidence_measurement r st v).
Proof. unfold evidence_measurement. runs_safely. Qed.
Lemma safe_measured acc v : safe (measured_row acc v). Proof. unfold measured_row. runs_safely. Qed.
Lemma safe_agreement m v : safe (check_agreement m v).
Proof. unfold check_agreement, role_agreement, same_number, same_digest, measured_value. runs_safely. Qed.
Lemma safe_probe r p v : safe (negative_probe r p v). Proof. unfold negative_probe. runs_safely. Qed.
Lemma safe_inherited r k v : safe (inherited_fd r k v). Proof. unfold inherited_fd. runs_safely. Qed.
Lemma safe_cleanup v : safe (validate_cleanup v). Proof. unfold validate_cleanup. runs_safely. Qed.
Lemma safe_evidence_signature v t : safe (validate_evidence_signature v t).
Proof. unfold validate_evidence_signature. runs_safely. Qed.
#[export] Hint Resolve safe_closure safe_index safe_revocation safe_evidence_role safe_evidence_measurement safe_measured
  safe_agreement safe_probe safe_inherited safe_cleanup safe_evidence_signature : p2.
Lemma safe_evidence v t : safe (validate_evidence v t).
Proof. unfold validate_evidence, counters_bad. runs_safely. Qed.
Lemma safe_request v : safe (validate_request v).
Proof. unfold validate_request, validate_kind, launch_role, each_identity. runs_safely. Qed.
Lemma safe_response v : safe (validate_response v).
Proof.
  unfold validate_response, response_handle, response_measurement, response_outcome, each_identity. runs_safely.
Qed.
Lemma safe_classify v : safe (classify v). Proof. unfold classify. runs_safely. Qed.
#[export] Hint Resolve safe_evidence safe_request safe_response safe_classify : p2.
Lemma safe_validate_for v t : safe (validate_for v t). Proof. unfold validate_for. runs_safely. Qed.
#[export] Hint Resolve safe_validate_for : p2.
Lemma safe_capture_canonical bytes L t : safe (capture_canonical bytes L t).
Proof. unfold capture_canonical, p2_encode. runs_safely. Qed.
Lemma safe_request_digest v : safe (native_boundary_request_digest v).
Proof.
  unfold native_boundary_request_digest. apply safe_bind; [auto with p2|]. intros s _. apply safe_guard. intros _.
  apply safe_bind; [unfold p2_encode; runs_safely|]. intros bytes Hb. by apply (safe_hash _ _ _ _ Hb).
Qed.
End Returns.
Import Returns.

(** ** Sealed documents *)
Module Sealed.

(** A signature by a key of the namespace of the trust class, when there is one. *)
Definition signed_row (trust : option TrustClass) (row : Value) : Prop :=
  exists key (bytes : list byte), id_at row "keyId" key /\ id_at row "algorithm" "ed25519" /\
    field row "signature" = Some (Bytes bytes) /\ len bytes = 64 /\ bytes <> repeat x00 64 /\
    match trust with
    | Some t => starts_with "development." key = bool_decide (t = Development)
    | None => True
    end.
(** The payload of an envelope, the digest of its encoding, 1 to 32 signatures. *)
Definition sealed (trust : option TrustClass) (value payload : Value) : Prop :=
  exists (encoding : list byte) (digest : string) (rows : list Value),
    field value "payload" = Some payload /\ encode_bounded payload MANIFEST = Ok encoding /\
    id_at value "payloadDigest" digest /\ OneShot.sha256_hex encoding = Some digest /\
    rows_at value "signatures" rows /\ 1 <= len rows <= 32 /\ Forall (signed_row trust) rows /\
    match trust with Some t => id_at payload "trustClass" (trust_name t) | None => True end.
Definition epoch_of (value : Value) (epoch : Z) : Prop :=
  exists rows, rows_at value "signatures" rows /\ Forall (fun row => number_at row "keyEpoch" epoch) rows.

Lemma key_namespace_ok key t u :
  require_key_namespace key t = Ok u -> starts_with "development." key = bool_decide (t = Development).
Proof. unfold require_key_namespace. destruct t, (starts_with _ key); by intros. Qed.

Lemma all_zeros bytes : len bytes = 64 -> forallb (fun b => bool_decide (b = x00)) bytes = false -> bytes <> repeat x00 64.
Proof. by intros _ H ->. Qed.
Lemma signature_bytes_ok v u : signature_bytes v = Ok u -> exists bytes, v = Bytes bytes /\ len bytes = 64 /\ bytes <> repeat x00 64.
Proof.
  destruct v as [| | |bytes| | |]; cbn; try done. intros H. exists bytes. split; [done|].
  destruct (_ && _) eqn:E in H; [|done]. apply andb_true_iff in E as [E1 E2]. apply Z.eqb_eq in E1. apply negb_true_iff in E2.
  by split; [|apply all_zeros].
Qed.

Lemma payload_signature_ok trust row : payload_signature trust row = Ok tt -> signed_row trust row.
Proof.
  unfold payload_signature. intros H. apply bind_ok in H as (_ & _ & H).
  apply bind_ok in H as (k & Hk%ok_or_ok & H). apply bind_ok in H as (key & ->%identifier_text & H).
  apply bind_ok in H as ([] & Hn & H). apply bind_ok in H as ([] & Ha%require_text_ok & H).
  apply guard_ok in H as [_ H]. apply bind_ok in H as (sig & Hsig%ok_or_ok & (bytes & -> & Hl & Hz)%signature_bytes_ok).
  exists key, bytes. split_and!; try done. destruct trust; [|done]. by apply key_namespace_ok in Hn.
Qed.

Lemma payload_sealed value keys schema trust p :
  payload value keys schema trust = Ok p -> sealed trust value p /\ id_at p "schema" schema.
Proof.
  unfold payload. intros H. apply bind_ok in H as (_ & _ & H). apply bind_ok in H as (q & Hp%ok_or_ok & H).
  apply bind_ok in H as (_ & _ & H). apply bind_ok in H as ([] & Hs%require_text_ok & H). apply bind_ok in H as (_ & _ & H).
  apply bind_ok in H as ([] & Ht & H). apply bind_ok in H as (d & Hd%ok_or_ok%text_of_ok & H).
  apply bind_ok in H as (encoding & He%map_err_ok & H). apply bind_ok in H as (actual & Ha%ok_or_ok & H).
  apply guard_ok in H as [E H]. apply negb_false_iff, bool_decide_eq_true in E as <-.
  apply bind_ok in H as (rows & Hr & H). apply bind_ok in H as ([] & Hrows%for_each_ok & [= <-]).
  split; [|done]. exists encoding, d, rows.
  destruct (field value "signatures") as [[| | | | |rows'|]|] eqn:Es; try discriminate.
  destruct (_ && _) eqn:E in Hr; [|discriminate]. injection Hr as ->. apply andb_true_iff in E as [E1 E2].
  apply negb_true_iff, bool_decide_eq_false in E1. apply Z.leb_le in E2. split_and!; try done.
  - destruct rows; [done|]. rewrite len_cons. pose proof (len_nonneg rows). lia.
  - eapply Forall_impl; [exact Hrows|]. intros. by apply payload_signature_ok.
  - destruct trust as [t|]; [|done]. unfold require_trust in Ht. case_bool_decide as E; [|done]. by apply text_of_ok.
Qed.

Lemma envelope_epoch_ok value epoch : require_envelope_epoch value epoch = Ok tt -> epoch_of value epoch.
Proof.
  unfold require_envelope_epoch. intros (rows & [Hr _]%array_field_ok & H%for_each_ok)%bind_ok. exists rows.
  split; [done|]. eapply Forall_impl; [exact H|]. cbn. intros row Hrow. read. bool_to_prop. by subst.
Qed.

Lemma envelope_namespaces_ok value trust p :
  sealed None value p -> validate_envelope_key_namespaces value trust = Ok tt ->
  exists rows, rows_at value "signatures" rows /\ Forall (signed_row (Some trust)) rows.
Proof.
  intros (e & d & rows & _ & _ & _ & _ & Hr & _ & Hrows & _). unfold validate_envelope_key_namespaces.
  intros (rows' & [Hr' _]%array_field_ok & H%for_each_ok)%bind_ok. rewrite (rows_at_inj _ _ _ _ Hr' Hr) in *.
  exists rows. split; [done|]. rewrite Forall_forall in *. intros row Hrow.
  destruct (Hrows row Hrow) as (key & bytes & Hk & Ha & Hs & Hl & Hz & _). exists key, bytes. split_and!; try done.
  specialize (H row Hrow). apply bind_ok in H as (key' & Hk'%id_field_ok & Hn%key_namespace_ok).
  by rewrite (id_at_inj _ _ _ _ Hk Hk').
Qed.
End Sealed.
Import Sealed.

(** ** Captured documents *)
Module Captured.

(** What validation of a document of each class establishes. *)
Definition attests (schema : Native.Schema) (trust : TrustClass) (value : Value) : Prop :=
  match schema with
  | Request | Response => id_at value "protocol" PROTOCOL_NAME /\ number_at value "version" 2
  | Deployment =>
      exists payload release epoch, sealed (Some trust) value payload /\ id_at payload "schema" "keep.native-deployment" /\
        field payload "release" = Some release /\ number_at release "releaseKeyEpoch" epoch /\ epoch_of value epoch /\
        validate_deployment payload = Ok tt
  | NativeClosure =>
      exists payload epoch digest, sealed (Some trust) value payload /\
        id_at payload "schema" "keep.native-release-closure" /\
        number_at payload "releaseKeyEpoch" epoch /\ epoch_of value epoch /\
        native_closure_base_digest payload = Ok digest /\ id_at payload "nativeClosureBaseDigest" digest
  | NativeIndex =>
      exists payload epoch, sealed (Some trust) value payload /\ id_at payload "schema" "keep.native-release-index" /\
        number_at payload "releaseKeyEpoch" epoch /\ epoch_of value epoch
  | Revocation =>
      exists payload epoch issued expires, sealed None value payload /\
        id_at payload "schema" "keep.native-revocation" /\
        (exists rows, rows_at value "signatures" rows /\ Forall (signed_row (Some trust)) rows) /\
        number_at payload "keyEpoch" epoch /\ epoch_of value epoch /\
        number_at payload "issuedCounter" issued /\ number_at payload "expiresCounter" expires /\ issued < expires
  | Evidence =>
      exists signature epoch, id_at value "schema" "keep.native-evidence" /\ field value "signature" = Some signature /\
        signed_row (Some trust) signature /\ number_at signature "keyEpoch" epoch /\ number_at value "proberKeyEpoch" epoch
  end.

Lemma wire_version value n u : require_version value n = Ok u -> number_at value "version" n.
Proof.
  unfold require_version. case_bool_decide as E; [|done]. intros _. apply bind_Some in E as (v & Hv & E).
  apply as_u64_ok in E as ->. done.
Qed.

Lemma classify_wire value schema :
  classify value = Ok schema ->
  match schema with Request | Response => True | _ => False end ->
  id_at value "protocol" PROTOCOL_NAME /\ number_at value "version" 2.
Proof.
  unfold classify. case_bool_decide as E; [apply text_of_ok in E|].
  - by intros ([] & Hv%wire_version & _)%bind_ok _.
  - intros H. destruct (match text_of value "schema" with Some s => Some s | None => _ end) as [d|]; [|done].
    repeat case_bool_decide; try done; by injection H as <-.
Qed.

Lemma revocation_counters payload :
  validate_revocation payload = Ok tt ->
  exists issued expires, number_at payload "issuedCounter" issued /\ number_at payload "expiresCounter" expires /\ issued < expires.
Proof.
  unfold validate_revocation. intros H. do 2 apply bind_ok in H as (? & _ & H). read. exists a0, a. bool_to_prop. by split_and!.
Qed.

Lemma closure_base payload :
  validate_closure payload = Ok tt ->
  exists digest, native_closure_base_digest payload = Ok digest /\ id_at payload "nativeClosureBaseDigest" digest.
Proof.
  unfold validate_closure. intros H. do 3 apply bind_ok in H as (? & _ & H).
  apply bind_ok in H as (d & Hd%digest_value_ok & H). apply bind_ok in H as (d' & Hd' & H). apply guard_ok in H as [E _].
  apply negb_false_iff, bool_decide_eq_true in E as <-. eauto.
Qed.

(** The parts of accepted evidence. *)
Lemma evidence_parts value trust :
  validate_evidence value trust = Ok tt ->
  exists roles role_ids prior measurements pairs prior' measured probes last fds keys captured expires b3,
    (rows_at value "roles" roles /\ roles <> [] /\ res_fold evidence_role roles (∅, None) = Ok (role_ids, prior)) /\
    (rows_at value "measurements" measurements /\
     res_fold (evidence_measurement role_ids) measurements (∅, None) = Ok (pairs, prior')) /\
    Forall (fun role => covered pairs role = true) roles /\
    res_fold measured_row measurements ∅ = Ok measured /\
    Forall (fun role => check_agreement measured role = Ok tt) roles /\
    (rows_at value "negativeProbes" probes /\ res_fold (negative_probe role_ids) probes None = Ok last) /\
    (rows_at value "inheritedFdInventory" fds /\ res_fold (inherited_fd role_ids) fds ∅ = Ok keys) /\
    (number_at value "capturedCounter" captured /\ number_at value "expiresCounter" expires /\ number_at value "b3Counter" b3 /\
     b3 <= captured <= expires) /\
    validate_evidence_signature value trust = Ok tt.
Proof.
  unfold validate_evidence. intros H. do 2 apply bind_ok in H as (? & _ & H). apply bind_ok in H as (bad & Hbad & H).
  apply guard_ok in H as [-> H]. apply bind_ok in H as (? & _ & H). apply bind_ok in H as (roles & [Hr _]%array_field_ok & H).
  apply bind_ok in H as ([role_ids prior] & Hroles & H). apply bind_ok in H as (ms & [Hm _]%array_field_ok & H).
  apply bind_ok in H as ([pairs prior'] & Hms & H). apply guard_ok in H as [Hc H]. apply orb_false_iff in Hc as [Hne Hc].
  apply bool_decide_eq_false in Hne. apply negb_false_iff in Hc.
  apply bind_ok in H as (measured & Hmd & H). apply bind_ok in H as ([] & Hag%for_each_ok & H).
  apply bind_ok in H as (probes & [Hp _]%array_field_ok & H). apply bind_ok in H as (last & Hps & H).
  apply bind_ok in H as (fds & [Hf _]%array_field_ok & H). apply bind_ok in H as (keys & Hfs & H).
  apply bind_ok in H as ([] & _ & Hsig). unfold counters_bad in Hbad.
  apply bind_ok in Hbad as (e & He%number_field_ok & Hbad). apply bind_ok in Hbad as (c & Hc1%number_field_ok & Hbad).
  destruct (Z.ltb_spec e c) as [|Hec]; [discriminate|].
  apply bind_ok in Hbad as (c' & Hc2%number_field_ok & Hbad). apply bind_ok in Hbad as (b & Hb%number_field_ok & [= Hcb%Z.ltb_ge]).
  rewrite (number_at_inj _ _ _ _ Hc2 Hc1) in Hcb.
  exists roles, role_ids, prior, ms, pairs, prior', measured, probes, last, fds, keys, c, e, b. split_and!; try done.
  apply Forall_forall. intros role Hrole. rewrite forallb_forall in Hc. by apply Hc, list_elem_of_In.
Qed.

Lemma evidence_signed value trust :
  validate_evidence_signature value trust = Ok tt ->
  exists signature epoch, field value "signature" = Some signature /\ signed_row (Some trust) signature /\
    number_at signature "keyEpoch" epoch /\ number_at value "proberKeyEpoch" epoch.
Proof.
  unfold validate_evidence_signature. intros H. apply bind_ok in H as (sig & Hs%required_ok & H).
  apply bind_ok in H as (_ & _ & H). apply bind_ok in H as (key & Hk%id_field_ok & H).
  apply bind_ok in H as (u & Hn%key_namespace_ok & H). apply bind_ok in H as (u' & Ha%require_text_ok & H).
  apply bind_ok in H as (e & He%number_field_ok & H). apply bind_ok in H as (e' & Hp%number_field_ok & H).
  apply guard_ok in H as [E H]. apply negb_false_iff, Z.eqb_eq in E as <-.
  apply bind_ok in H as (v & Hv%required_ok & (bytes & -> & Hl & Hz)%signature_bytes_ok).
  exists sig, e. split_and!; try done. exists key, bytes. by split_and!.
Qed.

Lemma validate_for_attests value trust schema :
  validate_for value trust = Ok schema -> classify value = Ok schema /\ attests schema trust value.
Proof.
  unfold validate_for. intros (s & Hs & H)%bind_ok. apply bind_ok in H as ([] & H & [= ->]). split; [done|].
  destruct schema; cbn [attests]; try by apply classify_wire in Hs.
  - apply bind_ok in H as (p & [Hp Hn]%payload_sealed & H). apply bind_ok in H as ([] & Hd & H).
    apply bind_ok in H as (r & Hr%required_ok & H). apply bind_ok in H as (e & He%number_field_ok & H%envelope_epoch_ok).
    by exists p, r, e.
  - apply bind_ok in H as (p & [Hp Hn]%payload_sealed & H). apply bind_ok in H as ([] & (d & Hd & Hf)%closure_base & H).
    apply bind_ok in H as (e & He%number_field_ok & H%envelope_epoch_ok). by exists p, e, d.
  - apply bind_ok in H as (p & [Hp Hn]%payload_sealed & H). apply bind_ok in H as ([] & _ & H).
    apply bind_ok in H as (e & He%number_field_ok & H%envelope_epoch_ok). by exists p, e.
  - apply bind_ok in H as (_ & _ & H). apply bind_ok in H as (_ & _ & H). apply bind_ok in H as ([] & Hn%require_text_ok & H).
    apply evidence_parts in H as H'.
    destruct H' as (? & ? & ? & ? & ? & ? & ? & ? & ? & ? & ? & ? & ? & ? & _ & _ & _ & _ & _ & _ & _ & _ & Hsig).
    apply evidence_signed in Hsig as (sig & e & Hsig). by exists sig, e.
  - apply bind_ok in H as (p & [Hp Hn]%payload_sealed & H). apply bind_ok in H as ([] & Hk & H).
    apply bind_ok in H as ([] & (i & x & Hr)%revocation_counters & H).
    apply bind_ok in H as (e & He%number_field_ok & H%envelope_epoch_ok).
    apply (envelope_namespaces_ok _ _ _ Hp) in Hk. exists p, e, i, x. by split_and!; try apply Hr.
Qed.
(** The steps of a capture. *)
Lemma capture_parts bytes limits trust document :
  limits_ok limits -> capture_canonical bytes limits trust = Ok document ->
  exists value, decode_canonical bytes limits = Ok value /\ document = mkDocument (document_schema document) trust bytes /\
    classify value = Ok (document_schema document) /\ attests (document_schema document) trust value.
Proof.
  unfold capture_canonical. intros HL (value & Hv%map_err_ok & H)%bind_ok. pose proof Hv as [_ He]%decode_canonical_spec; [|done].
  apply bind_ok in H as (schema & [Hs Ha]%validate_for_attests & H).
  apply bind_ok in H as (again & He'%map_err_ok & [= <-]). rewrite He in He'. injection He' as <-. by exists value.
Qed.
End Captured.
Import Captured.

(** ** Properties *)

(** C14. What a captured boundary document is.  The bytes are the canonical encoding
    of one value, and they are what the capture returns; the reported class is that
    of the value.  A deployment, closure, index or revocation is an envelope sealed
    by the SHA-256 of its payload's encoding and 1 to 32 signatures, each by a key
    of the namespace of the trust class and of the key epoch the payload states;
    evidence is signed by a key of that namespace and of the prober's epoch; wire
    documents are of this protocol and version. *)
Theorem native_capture_sound bytes limits trust document (HL : limits_ok limits) :
  capture_canonical bytes limits trust = Ok document ->
  exists value,
    canonical value = true /\ encode_bounded value limits = Ok bytes /\ document_canonical document = bytes /\
    document_trust document = trust /\ classify value = Ok (document_schema document) /\
    attests (document_schema document) trust value.
Proof.
  intros (value & Hv & -> & Hs & Ha)%capture_parts; [|done]. apply decode_canonical_spec in Hv as [Hc He]; [|done].
  exists value. by split_and!.
Qed.

Module IndexSample.
Definition digest_text : Value := Text (str_of_bytes (repeat x61 64)).
Definition index_payload : Value :=
  Map (app [("schema", Text "keep.native-release-index"); ("version", Unsigned 1); ("trustClass", Text "production");
       ("releaseKeyEpoch", Unsigned 3)]
       (map (fun k => (k, digest_text)) ["a4ReleaseBaseDigest"; "deploymentEnvelopeDigest"; "nativeClosureEnvelopeDigest";
                                       "b0RootEnvelopeDigest"]))%string.
Definition index_digest : string := Eval vm_compute in
  match encode_bounded index_payload MANIFEST with
  | Ok bytes => default ""%string (OneShot.sha256_hex bytes)
  | Err _ => ""%string
  end.
Definition index_document : Value :=
  Map [("payload", index_payload); ("payloadDigest", Text index_digest);
       ("signatures", Array [Map [("keyId", Text "release.1"); ("algorithm", Text "ed25519"); ("keyEpoch", Unsigned 3);
                                  ("signature", Bytes (repeat x07 64))]])]%string.
Definition index_bytes : list byte := Eval vm_compute in
  match encode_bounded index_document MANIFEST with Ok bytes => bytes | Err _ => [] end.
End IndexSample.

Lemma native_capture_sound_witness :
  limits_ok MANIFEST /\
  capture_canonical IndexSample.index_bytes MANIFEST Production = Ok (mkDocument NativeIndex Production IndexSample.index_bytes) /\
  exists value, encode_bounded value MANIFEST = Ok IndexSample.index_bytes /\ attests NativeIndex Production value.
Proof.
  assert (limits_ok MANIFEST) as HL by done.
  assert (capture_canonical IndexSample.index_bytes MANIFEST Production =
          Ok (mkDocument NativeIndex Production IndexSample.index_bytes)) as H by (vm_compute; reflexivity).
  split_and!; [exact HL|exact H|].
  destruct (native_capture_sound IndexSample.index_bytes MANIFEST Production _ HL H) as (v & _ & He & _ & _ & _ & Ha).
  exists v. split; [exact He|exact Ha].
Defined.

(** C38. The boundary never panics, whatever the input: capturing bytes, validating a
    value and computing the digests of a deployment, a closure or a request all
    return a result or one of the code's own errors; the [unreachable!()] arm of the
    deployment projection is not reached, and no hashed message is too long. *)
Theorem boundary_never_panics bytes limits trust value :
  safe (capture_canonical bytes limits trust) /\ safe (validate_for value trust) /\ safe (deployment_base_digest value) /\
  safe (native_closure_base_digest value) /\ safe (native_boundary_request_digest value).
Proof.
  split_and!; [apply safe_capture_canonical|apply safe_validate_for|apply safe_base_digest|apply safe_closure_base|].
  apply safe_request_digest.
Qed.
