(* ===== verification/EvidenceFacts.v ===== *)
(** * Accepted evidence agrees with itself

    Every role has one measurement of every registered field, and the measured
    identities, groups, namespaces, incarnation and executable are those the role
    row states. *)

From S2P Require Import Prelude Cbor CborFacts Paths Schema SchemaFacts Native Evidence NativeFacts BoundaryFacts.
Import Spec Encode Steps Captured.

(** ** Measurements *)
Module Measured.

(** The measurement [m] of [name] for the role [id]. *)
Definition measures (m : Value) (p : string * string) : Prop := id_at m "roleId" p.1 /\ id_at m "field" p.2.
(** Some measurement states the value [v]. *)
Definition says (measurements : list Value) (p : string * string) (v : Value) : Prop :=
  exists m, m ∈ measurements /\ measures m p /\ field m "value" = Some v.

Lemma measures_inj m p q : measures m p -> measures m q -> p = q.
Proof. intros [H1 H2] [H3 H4]. destruct p, q. cbn in *. f_equal; by eapply id_at_inj. Qed.

Lemma measurement_field_ok v key name : measurement_field v key = Ok name -> id_at v key name /\ name ∈ MEASUREMENT_FIELDS.
Proof.
  unfold measurement_field. intros (n & Hn%id_field_ok & H)%bind_ok. apply check_ok in H as [Hc [= ->]].
  by apply contains_spec in Hc.
Qed.

(** *** Roles *)
Record roles_inv (seen : list Value) (st : role_state) : Prop := {
  inv_role_ids : exists ids, Forall2 (fun role id => id_at role "roleId" id) seen ids /\ NoDup ids /\ st.1 = list_to_set ids
}.
Lemma roles_step seen st role st' : roles_inv seen st -> evidence_role st role = Ok st' -> roles_inv (seen ++ [role]) st'.
Proof.
  intros [(ids & HF & Hnd & E)] H. unfold evidence_role in H. apply bind_ok in H as (_ & _ & H).
  apply bind_ok in H as (id & Hid%id_field_ok & H). apply bind_ok in H as (? & _ & H).
  apply bind_ok in H as (ids' & [Hn ->]%insert_new_ok & H). rewrite E, elem_of_list_to_set in Hn.
  assert (st'.1 = {[id]} ∪ st.1) as E'.
  { repeat (apply bind_ok in H as (? & _ & H)). by injection H as <-. }
  split. exists (ids ++ [id]). split_and!; [by apply Forall2_snoc|by apply NoDup_snoc|]. rewrite E', E. set_solver.
Qed.

(** *** The set of pairs *)
Record pairs_inv (role_ids : gset string) (seen : list Value) (st : measurement_state) : Prop := {
  inv_pairs : exists ps, Forall2 measures seen ps /\ NoDup ps /\ st.1 = list_to_set ps;
  inv_measurements : Forall (fun m => exists p v, measures m p /\ (p.1 ∈ role_ids) /\ p.2 ∈ MEASUREMENT_FIELDS /\
      field m "value" = Some v /\ validate_measurement_value p.2 v = Ok tt) seen
}.
Lemma pairs_step role_ids seen st m st' :
  pairs_inv role_ids seen st -> evidence_measurement role_ids st m = Ok st' -> pairs_inv role_ids (seen ++ [m]) st'.
Proof.
  intros [(ps & HF & Hnd & E) Hms] H. unfold evidence_measurement in H. apply bind_ok in H as (_ & _ & H).
  apply bind_ok in H as (mid & _ & H). apply bind_ok in H as (? & _ & H).
  apply bind_ok in H as (role & Hr%id_field_ok & H). apply guard_ok in H as [Hin H].
  apply negb_false_iff, bool_decide_eq_true in Hin. apply bind_ok in H as (name & [Hf Hreg]%measurement_field_ok & H).
  apply bind_ok in H as (pairs & [Hn ->]%insert_new_ok & H). rewrite E, elem_of_list_to_set in Hn.
  apply bind_ok in H as (_ & _ & H). apply bind_ok in H as (v & Hv%required_ok & H).
  apply bind_ok in H as ([] & Hval & H). do 2 apply bind_ok in H as (? & _ & H). injection H as <-. split; cbn.
  - exists (ps ++ [(role, name)]). split_and!; [by apply Forall2_snoc|by apply NoDup_snoc|]. rewrite E. set_solver.
  - apply Forall_app. split; [done|]. repeat constructor. by exists (role, name), v.
Qed.

(** *** The map of values *)
Definition map_inv (seen : list Value) (measured : gmap (string * string) Value) : Prop :=
  forall ps, Forall2 measures seen ps -> NoDup ps -> forall p v, measured !! p = Some v <-> says seen p v.

Lemma map_step seen measured m measured' :
  map_inv seen measured -> measured_row measured m = Ok measured' -> map_inv (seen ++ [m]) measured'.
Proof.
  intros Hinv H ps HF Hnd p v. unfold measured_row in H. apply bind_ok in H as (role & Hr%id_field_ok & H).
  apply bind_ok in H as (name & [Hf _]%measurement_field_ok & H). apply bind_ok in H as (w & Hw%required_ok & [= <-]).
  apply Forall2_app_inv_l in HF as (qs & rest & HF & Hlast & ->). inv Hlast.
  match goal with H : Forall2 measures [] _ |- _ => inv H end.
  match goal with H : measures m ?q |- _ => assert ((role, name) = q) as <- by (by eapply measures_inj) end.
  apply NoDup_app in Hnd as (Hnd & Hout & _). pose proof (Hinv qs HF Hnd p v) as Hp. unfold says in *.
  destruct (decide ((role, name) = p)) as [<-|Hne].
  - rewrite lookup_insert_eq. split.
    + intros [= <-]. exists m. split_and!; [set_solver|done|done].
    + intros (m' & [Hin| ->%list_elem_of_singleton]%elem_of_app & Hm & Hv); [|congruence].
      apply list_elem_of_lookup in Hin as [i Hi]. destruct (Forall2_lookup_l _ _ _ _ _ HF Hi) as (q & Hq & Hmq).
      rewrite (measures_inj _ _ _ Hmq Hm) in Hq. destruct (Hout (role, name)); [by eapply list_elem_of_lookup_2|set_solver].
  - rewrite lookup_insert_ne by done. rewrite Hp. split.
    + intros (m' & ? & ? & ?). exists m'. set_solver.
    + intros (m' & [Hin| ->%list_elem_of_singleton]%elem_of_app & Hm & Hv); [by exists m'|].
      destruct Hne. by eapply measures_inj.
Qed.
End Measured.
Import Measured.

(** ** Agreement *)
Module Agreement.

Definition UID_FIELDS : list string := ["identity.uid.real"; "identity.uid.effective"; "identity.uid.saved"]%string.
Definition GID_FIELDS : list string := ["identity.gid.real"; "identity.gid.effective"; "identity.gid.saved"]%string.

(** The measurements of a role say what its row says. *)
Record agrees (measurements : list Value) (role : Value) (id : string) : Prop := {
  uids_agree : forall name, name ∈ UID_FIELDS ->
    exists v n, says measurements (id, name) v /\ number_at v "value" n /\ number_at role "uid" n;
  gids_agree : forall name, name ∈ GID_FIELDS ->
    exists v n, says measurements (id, name) v /\ number_at v "value" n /\ number_at role "gid" n;
  groups_agree : exists v groups, says measurements (id, "identity.groups"%string) v /\
    field v "values" = Some groups /\ field role "groups" = Some groups;
  namespaces_agree : exists v inodes, says measurements (id, "namespaces.inodes"%string) v /\
    field role "namespaceInodes" = Some inodes /\
    forall key, key ∈ NAMESPACE_KEYS -> exists inode, field v key = Some inode /\ field inodes key = Some inode;
  incarnation_agrees : exists v d, says measurements (id, "incarnation"%string) v /\
    id_at v "pidfdDigest" d /\ id_at role "incarnationDigest" d;
  executable_agrees : exists v d, says measurements (id, "loader.executable"%string) v /\
    id_at v "value" d /\ id_at role "artifactDigest" d
}.

Section role.
Context (measurements : list Value) (measured : gmap (string * string) Value) (role : Value) (id : string).
Hypothesis Hmap : forall p v, measured !! p = Some v <-> says measurements p v.

Lemma measured_ok name v : measured_value measured id name = Ok v -> says measurements (id, name) v.
Proof. unfold measured_value. intros H%ok_or_ok. by apply Hmap. Qed.
Lemma same_number_ok message key name :
  same_number measured role id message key name = Ok tt ->
  exists v n, says measurements (id, name) v /\ number_at v "value" n /\ number_at role key n.
Proof.
  unfold same_number. intros (v & Hv%measured_ok & H)%bind_ok. read. bool_to_prop. subst. by eexists _, _.
Qed.
Lemma same_digest_ok message name key role_key :
  same_digest measured role id message name key role_key = Ok tt ->
  exists v d, says measurements (id, name) v /\ id_at v key d /\ id_at role role_key d.
Proof.
  unfold same_digest. intros (v & Hv%measured_ok & H)%bind_ok. apply bind_ok in H as (d & Hd%digest_value_ok & H).
  apply bind_ok in H as (d' & Hd'%digest_value_ok & H). apply guard_ok in H as [E _].
  apply negb_false_iff, bool_decide_eq_true in E as <-. by exists v, d.
Qed.

Lemma role_agreement_ok : role_agreement measured role id = Ok tt -> agrees measurements role id.
Proof.
  unfold role_agreement. intros H. apply bind_ok in H as ([] & Hu%for_each_ok & H).
  apply bind_ok in H as ([] & Hg%for_each_ok & H). apply bind_ok in H as (groups & Hgv%measured_ok & H).
  apply bind_ok in H as (found & Hf%required_ok & H). apply bind_ok in H as (expected & He%required_ok & H).
  apply guard_ok in H as [E H]. apply negb_false_iff, value_eqb_eq in E as <-.
  apply bind_ok in H as (nv & Hnv%measured_ok & H). apply bind_ok in H as (nr & Hnr%required_ok & H).
  apply bind_ok in H as ([] & Hns%for_each_ok & H). apply bind_ok in H as ([] & Hi%same_digest_ok & Hx%same_digest_ok).
  rewrite Forall_forall in Hu. rewrite Forall_forall in Hg. rewrite Forall_forall in Hns. split; try done.
  - intros name Hn. by eapply same_number_ok, Hu.
  - intros name Hn. by eapply same_number_ok, Hg.
  - by exists groups, found.
  - exists nv, nr. split_and!; [done|done|]. intros key Hk. specialize (Hns key Hk).
    apply bind_ok in Hns as (x & Hx1%required_ok & Hns). apply bind_ok in Hns as (y & Hy%required_ok & Hns).
    apply guard_ok in Hns as [E _]. apply negb_false_iff, value_eqb_eq in E as <-. by exists x.
Qed.
End role.

Lemma covered_ok pairs role id name :
  covered pairs role = true -> id_field role "roleId" = Ok id -> name ∈ MEASUREMENT_FIELDS -> (id, name) ∈ pairs.
Proof.
  unfold covered. intros H Hid Hn. rewrite forallb_forall in H. apply list_elem_of_In, H in Hn. rewrite Hid in Hn.
  by apply bool_decide_eq_true in Hn.
Qed.

Lemma pairs_says (role_ids : gset string) measurements ps p :
  Forall2 measures measurements ps ->
  Forall (fun m => exists p v, measures m p /\ (p.1 ∈ role_ids) /\ p.2 ∈ MEASUREMENT_FIELDS /\
      field m "value" = Some v /\ validate_measurement_value p.2 v = Ok tt) measurements ->
  p ∈ ps -> exists v, says measurements p v /\ validate_measurement_value p.2 v = Ok tt.
Proof.
  intros HF Hms [i Hi]%list_elem_of_lookup. destruct (Forall2_lookup_r _ _ _ _ _ HF Hi) as (m & Hm & Hmp).
  apply list_elem_of_lookup_2 in Hm. rewrite Forall_forall in Hms. destruct (Hms m Hm) as (q & v & Hq & _ & _ & Hv & Hval).
  rewrite (measures_inj _ _ _ Hq Hmp) in Hval. exists v. split; [by exists m|done].
Qed.
End Agreement.
Import Agreement.

(** ** Properties *)

(** C13. Accepted evidence is complete and consistent.  Its roles are distinct; every
    measurement is of a declared role and a registered field and has the shape of its
    field; every role has a measurement of each of the 27 registered fields, and only
    one; and for every role the measured user and group ids (real, effective and
    saved), groups, namespace inodes, incarnation and executable digest equal those
    of the role's row.  Its counters are in order, and it is signed for the prober's
    epoch by a key of the trust class. *)
Theorem evidence_agrees value trust :
  validate_evidence value trust = Ok tt ->
  exists roles ids measurements pairs,
    rows_at value "roles" roles /\ roles <> [] /\ Forall2 (fun role id => id_at role "roleId" id) roles ids /\ NoDup ids /\
    rows_at value "measurements" measurements /\ Forall2 measures measurements pairs /\ NoDup pairs /\
    Forall (fun p : string * string => p.1 ∈ ids /\ p.2 ∈ MEASUREMENT_FIELDS) pairs /\
    (forall id name, id ∈ ids -> name ∈ MEASUREMENT_FIELDS ->
       exists v, says measurements (id, name) v /\ validate_measurement_value name v = Ok tt) /\
    Forall2 (agrees measurements) roles ids /\
    (exists b3 captured expires, number_at value "b3Counter" b3 /\ number_at value "capturedCounter" captured /\
       number_at value "expiresCounter" expires /\ b3 <= captured <= expires) /\
    (exists signature epoch, field value "signature" = Some signature /\ Sealed.signed_row (Some trust) signature /\
       number_at signature "keyEpoch" epoch /\ number_at value "proberKeyEpoch" epoch).
Proof.
  intros (roles & role_ids & prior & ms & pairs & prior' & measured & probes & last & fds & keys & c & e & b &
    (Hr & Hne & Hroles) & (Hm & Hms) & Hcov & Hmd & Hag & _ & _ & (Hc & He & Hb & Hord) & Hsig)%evidence_parts.
  apply (fold_inv _ roles_inv) in Hroles as [(ids & Hids & Hnd & Eids)];
    [|by split; exists []; repeat constructor|intros; by eapply roles_step].
  apply (fold_inv _ (pairs_inv role_ids)) in Hms as [(ps & Hps & Hndp & Eps) Hall];
    [|by split; [exists []; repeat constructor|constructor]|intros; by eapply pairs_step].
  apply (fold_inv _ map_inv) in Hmd; [| |intros; by eapply map_step].
  2: { intros qs HF _ p v. inv HF. rewrite lookup_empty. split; [done|]. intros (m & Hin & _). set_solver. }
  cbn in Eids, Eps. exists roles, ids, ms, ps. split_and!; try done.
  - clear -Hps Hall Eids. induction Hps as [|m p ms ps Hmp Hps IH]; [constructor|].
    apply Forall_cons in Hall as [(q & v & Hq & Hin & Hreg & _) Hall]. rewrite (measures_inj _ _ _ Hq Hmp) in *.
    constructor; [|by apply IH]. split; [|done]. by rewrite Eids, elem_of_list_to_set in Hin.
  - intros id name Hid Hname. apply list_elem_of_lookup in Hid as [i Hi].
    destruct (Forall2_lookup_r _ _ _ _ _ Hids Hi) as (role & Hrole & Hrid). apply list_elem_of_lookup_2 in Hrole.
    rewrite Forall_forall in Hcov. rewrite Forall_forall in Hag. pose proof (Hag role Hrole) as H.
    apply bind_ok in H as (id' & Hid' & _). pose proof (covered_ok _ _ _ _ (Hcov role Hrole) Hid' Hname) as Hp.
    apply id_field_ok in Hid'. rewrite (id_at_inj _ _ _ _ Hid' Hrid) in Hp. rewrite Eps, elem_of_list_to_set in Hp.
    exact (pairs_says _ _ _ (id, name) Hps Hall Hp).
  - clear -Hids Hag Hmd Hps Hndp. induction Hids as [|role id roles ids Hid Hids IH]; [constructor|].
    apply Forall_cons in Hag as [H Hag]. constructor; [|by apply IH]. apply bind_ok in H as (id' & Hid'%id_field_ok & H).
    rewrite (id_at_inj _ _ _ _ Hid Hid'). by eapply role_agreement_ok, H; intros; apply (Hmd ps).
  - by exists b, c, e.
  - by apply evidence_signed.
Qed.

(** Evidence on one role, with the 27 measurements. *)
Module Sample.
Local Open Scope string_scope.

Definition d : Value := Text (str_of_bytes (repeat x61 64)).
Definition numbers (keys : list string) (n : Z) : list (string * Value) := map (fun k => (k, Unsigned n)) keys.
Definition texts (keys : list string) (t : string) : list (string * Value) := map (fun k => (k, Text t)) keys.
Definition digests (keys : list string) : list (string * Value) := map (fun k => (k, d)) keys.
Definition none : Value := Array [].
Definition kind (t : string) (rest : list (string * Value)) : Value := Map (("type", Text t) :: rest).

Definition measurement_value (name : string) : Value :=
  if contains ["identity.groups"] name then kind "uint64-set" [("values", none)]
  else if starts_with "identity." name then kind "uint64" [("value", Unsigned 1000)]
  else if starts_with "security.capabilities." name then kind "identifier-set" [("values", none)]
  else if starts_with "security." name then kind "boolean" [("value", Bool true)]
  else if contains ["loader.executable"] name then kind "digest" [("value", d)]
  else if contains ["loader.shared-libraries"] name then kind "digest-set" [("values", none)]
  else if contains ["namespaces.inodes"] name then kind "namespace-inodes" (numbers NAMESPACE_KEYS 4)
  else if contains ["cgroup.limits"] name then
    kind "cgroup-limits" (app (numbers ["memoryMax"; "pidsMax"; "cpuMaxMicros"] 1) [("ioMaxDigest", d)])
  else if starts_with "seccomp." name then
    kind "seccomp-policy" [("architecture", Text "x86_64"); ("defaultAction", Text "kill"); ("allowedActions", none);
                           ("filterDigest", d); ("noNewPrivileges", Bool true)]
  else if contains ["landlock.policy"] name then
    kind "landlock-policy" [("abi", Unsigned 6); ("handledRights", none); ("scopedRights", none); ("rulesetDigest", d)]
  else if contains ["network.topology"] name then
    kind "network-topology" [("interfaces", none); ("routes", none); ("addressFamilies", none)]
  else if contains ["mount.topology"] name then kind "mount-topology" [("entries", none)]
  else if contains ["fd.inventory"] name then kind "descriptor-inventory" [("entries", none)]
  else if contains ["credential.state"] name then
    kind "credential-state" [("domains", none); ("deliveredAfterAttestation", Bool true); ("descriptorCount", Unsigned 0)]
  else if contains ["incarnation"] name then
    kind "incarnation" [("pidfdDigest", d); ("startCounter", Unsigned 1); ("expiresCounter", Unsigned 2)]
  else kind "counter-window" [("capturedCounter", Unsigned 1); ("expiresCounter", Unsigned 2)].
Definition measurement (name : string) : Value :=
  Map (app [("measurementId", Text ("m." +:+ name)); ("roleId", Text "r1"); ("field", Text name);
            ("value", measurement_value name); ("transcriptDigest", d); ("state", Text "active")]
           (texts ["mechanism"; "mechanismVersion"; "abi"; "source"; "reasonCode"] "x")).
Definition role : Value :=
  Map [("roleId", Text "r1"); ("roleClass", Text "D1"); ("principalId", Text "p1"); ("artifactDigest", d);
       ("incarnationDigest", d); ("uid", Unsigned 1000); ("gid", Unsigned 1000); ("groups", none);
       ("namespaceInodes", Map (numbers NAMESPACE_KEYS 4)); ("cgroupId", Text "c1")].
Definition evidence : Value :=
  Map ((texts EVIDENCE_IDS "id" ++ numbers EVIDENCE_UINTS 5 ++ digests EVIDENCE_DIGESTS ++
    [("schema", Text "keep.native-evidence"); ("version", Unsigned 1); ("roles", Array [role]);
     ("measurements", Array (map measurement MEASUREMENT_FIELDS)); ("negativeProbes", none); ("inheritedFdInventory", none);
     ("cleanup", Map [("state", Text "complete"); ("killedRoleIds", none); ("reapedRoleIds", none);
        ("closedFdCount", Unsigned 0); ("revokedCredentialDomains", none); ("journalDigest", d); ("recoveryRequired", Bool false)]);
     ("signature", Map [("keyId", Text "prober.1"); ("algorithm", Text "ed25519"); ("keyEpoch", Unsigned 5);
        ("signature", Bytes (repeat x07 64))])])%list).
End Sample.

Lemma evidence_agrees_witness :
  validate_evidence Sample.evidence Production = Ok tt /\
  exists roles ids measurements, rows_at Sample.evidence "roles" roles /\ rows_at Sample.evidence "measurements" measurements /\
    Forall2 (agrees measurements) roles ids.
Proof.
  assert (validate_evidence Sample.evidence Production = Ok tt) as H by (vm_compute; reflexivity). split; [exact H|].
  destruct (evidence_agrees Sample.evidence Production H) as (r & i & m & p & Hr & _ & _ & _ & Hm & _ & _ & _ & _ & Ha & _).
  exists r, i, m. split; [exact Hr|]. split; [exact Hm|exact Ha].
Defined.
