(* ===== verification/TopologyFacts.v ===== *)
(** * The topology of an accepted deployment

    [Loops] gives the meaning of each loop of [validate_deployment]; the theorem
    puts them together: channels, roles, provisioners and artifacts of an accepted
    deployment form a closed graph. *)

From S2P Require Import Prelude Cbor CborFacts Paths Schema SchemaFacts Native Deployment NativeFacts.
Import Steps.

(** ** What the loops establish *)
Module Loops.

(** *** Artifacts *)

(** The declared artifact of an id. *)
Definition artifact_of (artifacts : list Value) (id kind digest : string) : Prop :=
  exists artifact, artifact ∈ artifacts /\ id_at artifact "artifactId" id /\ id_at artifact "kind" kind /\
    id_at artifact "digest" digest.
Record artifact_inv (seen : list Value) (st : Artifacts) : Prop := {
  inv_artifacts : forall id digest, artifact_digests st !! id = Some digest ->
    exists kind, artifact_kinds st !! id = Some kind /\ artifact_of seen id kind digest
}.

Lemma artifact_inv_nil : artifact_inv [] (mkArtifacts ∅ ∅ ∅ None).
Proof. split. cbn. intros id digest H. by rewrite lookup_empty in H. Qed.

Lemma artifact_step seen st artifact st' :
  artifact_inv seen st -> validate_artifact st artifact = Ok st' -> artifact_inv (seen ++ [artifact]) st'.
Proof.
  intros [Hinv] H. unfold validate_artifact in H. read. split; cbn. intros id d. destruct (decide (a0 = id)) as [->|Hne].
  - rewrite !lookup_insert_eq. intros [= <-]. eexists. split; [done|]. exists artifact. split_and!; try done. set_solver.
  - rewrite !lookup_insert_ne by done. intros (k & Hk & r & Hr & H')%Hinv. exists k. split; [done|]. exists r. set_solver.
Qed.

(** *** Roles *)

Definition holds (role : Value) (class principal artifact : string) (credentials : list string) : Prop :=
  id_at role "roleClass" class /\ id_at role "principalId" principal /\ id_at role "artifactId" artifact /\
  ids_at role "credentialDomains" credentials /\ len credentials <= 1 /\ (class <> "D3"%string -> credentials = []).

(** The state of the loop after the rows [seen]. *)
Record role_inv (artifacts : Artifacts) (seen : list Value) (st : Roles) : Prop := {
  inv_rows : Forall (fun role => exists id class principal artifact credentials,
      id_at role "roleId" id /\ holds role class principal artifact credentials /\
      role_classes st !! id = Some class /\ role_credentials st !! id = Some credentials) seen;
  inv_runs : Forall (fun role => exists artifact digest, id_at role "artifactId" artifact /\
      id_at role "artifactDigest" digest /\ artifact_kinds artifacts !! artifact = Some "role"%string /\
      artifact_digests artifacts !! artifact = Some digest) seen;
  inv_known : forall id class, role_classes st !! id = Some class ->
      exists role, role ∈ seen /\ id_at role "roleId" id;
  inv_ids : exists ids, Forall2 (fun role id => id_at role "roleId" id) seen ids /\ NoDup ids /\ role_ids st = list_to_set ids;
  inv_principals : exists names, Forall2 (fun role name => id_at role "principalId" name) seen names /\ NoDup names /\
      principals st = list_to_set names
}.

Lemma role_inv_nil artifacts : role_inv artifacts [] (mkRoles ∅ ∅ ∅ ∅ None).
Proof.
  split; cbn; [constructor|constructor|by intros id class H; rewrite lookup_empty in H|exists []; by repeat constructor..].
Qed.

Lemma ids_elem (key : string) seen (ids : list string) row id :
  Forall2 (fun row id => id_at row key id) seen ids -> row ∈ seen -> id_at row key id -> id ∈ ids.
Proof.
  intros H Hr Hid. apply list_elem_of_lookup in Hr as [i Hi]. destruct (Forall2_lookup_l _ _ _ _ _ H Hi) as (id' & Hi' & Hid').
  rewrite (id_at_inj _ _ _ _ Hid Hid'). by eapply list_elem_of_lookup_2.
Qed.

Lemma role_step artifacts seen st role st' :
  role_inv artifacts seen st -> validate_role artifacts st role = Ok st' -> role_inv artifacts (seen ++ [role]) st'.
Proof.
  intros [Hrows Hruns Hknown (ids & Hids & Hnd & Eids) (names & Hnames & Hndn & Enames)] H. unfold validate_role in H.
  read. bool_to_prop. rewrite Eids, elem_of_list_to_set in E1. rewrite Enames, elem_of_list_to_set in E4. split; cbn.
  - apply Forall_app. split.
    + rewrite Forall_forall in *. intros r Hr. destruct (Hrows r Hr) as (id & c & p & ar & cr & Hid & Hh & Hc & Hcr).
      exists id, c, p, ar, cr. assert (a0 <> id) by (intros ->; by eapply E1, ids_elem).
      by rewrite !lookup_insert_ne.
    + constructor; [|constructor]. exists a0, a1, a2, a3, a5. rewrite !lookup_insert_eq. unfold holds. split_and!; try done.
      intros Hd. rewrite bool_decide_eq_false_2 in E10 by done. cbn in E10. bool_to_prop. done.
  - apply Forall_app. split; [done|]. constructor; [|constructor]. by exists a3, a4.
  - intros id class. setoid_rewrite elem_of_app. destruct (decide (a0 = id)) as [->|Hne].
    + intros _. exists role. split; [right; by left|done].
    + rewrite lookup_insert_ne by done. intros (r & Hr & Hid)%Hknown. exists r. by auto.
  - exists (ids ++ [a0]). split_and!; [by apply Forall2_snoc|by apply NoDup_snoc|]. rewrite Eids, list_to_set_app_L. set_solver.
  - exists (names ++ [a2]). split_and!; [by apply Forall2_snoc|by apply NoDup_snoc|]. rewrite Enames, list_to_set_app_L. set_solver.
Qed.

Lemma roles_ok value artifacts roles st :
  validate_roles value artifacts = Ok (roles, st) -> rows_at value "roles" roles /\ role_inv artifacts roles st.
Proof.
  unfold validate_roles. intros H. read. split; [done|].
  eapply fold_inv; [apply role_inv_nil|intros; by eapply role_step|done].
Qed.

(** *** Channels *)

Definition ends_of (channel : Value) (from to : string) : Prop :=
  id_at channel "fromEndpoint" from /\ id_at channel "toEndpoint" to.
Record channel_inv (seen : list Value) (st : Channels) : Prop := {
  inv_channels : Forall (fun channel => exists id from to,
      id_at channel "channelId" id /\ ends_of channel from to /\ from <> to /\
      channel_endpoints st !! id = Some (from, to) /\ channel_by_id st !! id = Some channel) seen;
  inv_by_id : forall id channel, channel_by_id st !! id = Some channel -> channel ∈ seen /\ id_at channel "channelId" id;
  inv_endpoints : forall id ends, channel_endpoints st !! id = Some ends ->
      exists channel, channel_by_id st !! id = Some channel;
  inv_channel_ids : exists ids, Forall2 (fun channel id => id_at channel "channelId" id) seen ids /\ NoDup ids /\
      channel_ids st = list_to_set ids
}.

Lemma channel_inv_nil : channel_inv [] (mkChannels ∅ ∅ ∅ None).
Proof.
  split; cbn; [constructor|by intros id c H; rewrite lookup_empty in H..|exists []; by repeat constructor].
Qed.

Lemma channel_step seen st channel st' :
  channel_inv seen st -> validate_channel st channel = Ok st' -> channel_inv (seen ++ [channel]) st'.
Proof.
  intros [Hrows Hby Hends (ids & Hids & Hnd & Eids)] H. unfold validate_channel in H. read. bool_to_prop.
  rewrite Eids, elem_of_list_to_set in E1. split; cbn.
  - apply Forall_app. split.
    + rewrite Forall_forall in *. intros r Hr. destruct (Hrows r Hr) as (id & f & t & Hid & He & Hn & Hc & Hb).
      exists id, f, t. assert (a0 <> id) by (intros ->; by eapply E1, ids_elem). by rewrite !lookup_insert_ne.
    + constructor; [|constructor]. eexists _, _, _. rewrite !lookup_insert_eq. by split_and!.
  - intros id c. destruct (decide (a0 = id)) as [->|Hne].
    + rewrite lookup_insert_eq. intros [= <-]. split; [set_solver|done].
    + rewrite lookup_insert_ne by done. intros [Hc Hid]%Hby. split; [set_solver|done].
  - intros id e. destruct (decide (a0 = id)) as [->|Hne]; [rewrite !lookup_insert_eq; eauto|].
    rewrite !lookup_insert_ne by done. apply Hends.
  - exists (ids ++ [a0]). split_and!; [by apply Forall2_snoc|by apply NoDup_snoc|]. rewrite Eids, list_to_set_app_L. set_solver.
Qed.

Lemma channels_ok value channels st :
  validate_channels value = Ok (channels, st) -> rows_at value "channels" channels /\ channel_inv channels st.
Proof.
  unfold validate_channels. intros H. read. split; [done|].
  eapply fold_inv; [apply channel_inv_nil|intros; by eapply channel_step|done].
Qed.

(** *** Provisioners *)

(** What a provisioner refers to: a D3 role with its one domain, over a one-way,
    one-shot channel for one descriptor that leads from the one to the other. *)
Definition delivers (roles : Roles) (channels : Channels) (provisioner : Value) : Prop :=
  exists id domain target channel_id channel,
    id_at provisioner "provisionerId" id /\ id_at provisioner "domain" domain /\
    id_at provisioner "targetRoleId" target /\ id_at provisioner "channelId" channel_id /\
    role_classes roles !! target = Some "D3"%string /\ role_credentials roles !! target = Some [domain] /\
    channel_endpoints channels !! channel_id = Some (provisioner_endpoint id, role_endpoint target) /\
    channel_by_id channels !! channel_id = Some channel /\
    id_at channel "direction" "one-way" /\ number_at channel "maxDescriptors" 1 /\ flag_at channel "oneShot" true.

Record provisioner_inv (roles : Roles) (channels : Channels) (prober : string) (seen : list Value) (st : Provisioners)
    : Prop := {
  inv_delivers : Forall (delivers roles channels) seen;
  inv_names : exists names, Forall2 (fun row name => id_at row "principalId" name) seen names /\ NoDup names /\
      provisioner_principals st = list_to_set names /\ Forall (fun name => (name ∉ principals roles) /\ name <> prober) names
}.

Lemma provision_channel_ok channel :
  provision_channel_bad channel = Ok false ->
  id_at channel "direction" "one-way" /\ number_at channel "maxDescriptors" 1 /\ flag_at channel "oneShot" true.
Proof.
  unfold provision_channel_bad. intros H. read. destruct H as (s & Hs & ->%list_elem_of_singleton).
  bool_to_prop. by subst.
Qed.

Lemma provisioner_step artifacts roles channels prober seen st row st' :
  provisioner_inv roles channels prober seen st -> validate_provisioner artifacts roles channels prober st row = Ok st' ->
  provisioner_inv roles channels prober (seen ++ [row]) st'.
Proof.
  intros [Hd (names & Hnames & Hnd & En & Hout)] H. unfold validate_provisioner in H.
  read. bool_to_prop.
  match goal with E : provision_channel_bad _ = Ok false |- _ => apply provision_channel_ok in E as (? & ? & ?) end.
  match goal with E : is_some_and (channel_endpoints channels !! ?c) _ = true |- _ =>
    destruct (channel_endpoints channels !! c) as [ends|] eqn:He; [|done]; cbn in E; apply bool_decide_eq_true in E as -> end.
  split; cbn.
  - apply Forall_app. split; [done|]. constructor; [|constructor]. eexists _, _, _, _, _. split_and!; eassumption.
  - rewrite En, elem_of_list_to_set in *. eexists (names ++ [_]). split_and!; [by apply Forall2_snoc| | |].
    + by apply NoDup_snoc.
    + rewrite list_to_set_app_L. set_solver.
    + apply Forall_app. split; [done|]. constructor; [|constructor]. done.
Qed.

Lemma provisioners_ok value artifacts roles channels prober rows :
  validate_provisioners value artifacts roles channels prober = Ok rows ->
  rows_at value "provisioners" rows /\ exists st, provisioner_inv roles channels prober rows st.
Proof.
  unfold validate_provisioners. intros H. read. split; [done|]. eexists.
  eapply fold_inv; [|intros; by eapply provisioner_step|done]. split; [constructor|exists []]. by repeat constructor.
Qed.
End Loops.
Import Loops.

(** ** The graph *)
Module Graph.

(** The role is an end of the channel; the role lists the channel. *)
Definition participates (role channel : Value) : Prop :=
  exists id from to, id_at role "roleId" id /\ ends_of channel from to /\
    (from = role_endpoint id \/ to = role_endpoint id).
Definition granted (role channel : Value) : Prop :=
  exists id ids, id_at channel "channelId" id /\ ids_at role "allowedChannelIds" ids /\ id ∈ ids.
(** The endpoints that the deployment declares. *)
Definition declared (roles : list Value) (prober b3 : Value) (provisioners : list Value) (endpoint : string) : Prop :=
  endpoint = SUPERVISOR_ENDPOINT \/
  (exists role id, role ∈ roles /\ id_at role "roleId" id /\ endpoint = role_endpoint id) \/
  (exists id, id_at prober "proberId" id /\ endpoint = prober_endpoint id) \/
  (exists id, id_at b3 "authorityId" id /\ endpoint = b3_endpoint id) \/
  (exists row id, row ∈ provisioners /\ id_at row "provisionerId" id /\ endpoint = provisioner_endpoint id).
(** The channel is the one the row names. *)
Definition serves (channel row : Value) : Prop :=
  exists id, id_at channel "channelId" id /\ id_at row "channelId" id.

Lemma res_map_ids (rows : list Value) key ids :
  res_map (fun row => id_field row key) rows = Ok ids -> Forall2 (fun row id => id_field row key = Ok id) rows ids.
Proof. apply res_map_Forall2. Qed.

Lemma mapped_ids (rows : list Value) key ids id :
  Forall2 (fun row id => id_field row key = Ok id) rows ids -> id ∈ ids -> exists row, row ∈ rows /\ id_at row key id.
Proof.
  intros H Hid. apply list_elem_of_lookup in Hid as [i Hi]. destruct (Forall2_lookup_r _ _ _ _ _ H Hi) as (row & Hr & E).
  exists row. split; [by eapply list_elem_of_lookup_2|by apply id_field_ok].
Qed.
Lemma has_id (rows : list Value) key ids row :
  Forall2 (fun row id => id_field row key = Ok id) rows ids -> row ∈ rows -> exists id, id_field row key = Ok id.
Proof.
  intros H Hr. apply list_elem_of_lookup in Hr as [i Hi]. destruct (Forall2_lookup_l _ _ _ _ _ H Hi) as (id & _ & E). eauto.
Qed.

Lemma endpoints_declared roles prober b3 provisioners endpoints e :
  endpoints_of roles prober b3 provisioners = Ok endpoints -> e ∈ endpoints -> declared roles prober b3 provisioners e.
Proof.
  unfold endpoints_of. intros H He. apply bind_ok in H as (ids & Hids%res_map_ids & H). apply bind_ok in H as (p & Hp%id_field_ok & H).
  apply bind_ok in H as (b & Hb%id_field_ok & H). apply bind_ok in H as (ps & Hps%res_map_ids & [= <-]).
  unfold declared. rewrite !elem_of_union, !elem_of_singleton, !elem_of_list_to_set, !list_elem_of_fmap in He.
  destruct He as [[[[->|(id & -> & Hid)]| ->]| ->]|(id & -> & Hid)]; [by left|right; left|by do 2 right; left; eauto|by do 3 right; left; eauto|do 4 right].
  - apply (mapped_ids _ _ _ _ Hids) in Hid as (r & Hr & E). by exists r, id.
  - apply (mapped_ids _ _ _ _ Hps) in Hid as (r & Hr & E). by exists r, id.
Qed.

Section graph.
Context (roles channels : list Value) (st : Channels).
Hypothesis Hst : channel_inv channels st.

Lemma channel_ends channel :
  channel ∈ channels -> exists id from to, id_at channel "channelId" id /\ ends_of channel from to /\ from <> to /\
    channel_endpoints st !! id = Some (from, to).
Proof using Hst. intros Hc. destruct Hst as [H _ _ _]. rewrite Forall_forall in H. apply H in Hc. naive_solver. Qed.

Lemma endpoints_checked roles' prober b3 provisioners endpoints :
  endpoints_of roles' prober b3 provisioners = Ok endpoints -> check_endpoints endpoints st = Ok tt ->
  forall channel, channel ∈ channels -> exists from to, ends_of channel from to /\ from <> to /\
    declared roles' prober b3 provisioners from /\ declared roles' prober b3 provisioners to.
Proof using Hst.
  intros He Hc%for_each_ok channel (id & from & to & _ & Hends & Hne & Hl)%channel_ends. exists from, to.
  rewrite Forall_forall in Hc. specialize (Hc (from, to)).
  assert ((from, to) ∈ map snd (map_to_list (channel_endpoints st))) as Hin.
  { apply (list_elem_of_fmap_2' snd _ (id, (from, to))); [|done]. by apply elem_of_map_to_list. }
  apply Hc in Hin. apply guard_ok in Hin as [G _]. bool_to_prop. split_and!; try done; by eapply endpoints_declared.
Qed.

(** A listed channel exists, and the role is one of its ends. *)
Lemma granted_participates :
  Forall (fun role => role_channels st role = Ok tt) roles ->
  forall role channel, role ∈ roles -> channel ∈ channels -> granted role channel -> participates role channel.
Proof using Hst.
  intros H role channel Hr Hc (id & ids & Hid & Hids & Hin). rewrite Forall_forall in H. specialize (H role Hr).
  unfold role_channels in H. read. rewrite (ids_at_inj _ _ _ _ Hids E) in Hin. rewrite Forall_forall in H. apply H in Hin.
  unfold role_channel in Hin. read. bool_to_prop. destruct (channel_ends channel Hc) as (id' & from & to & Hid' & He & _ & Hl).
  rewrite (id_at_inj _ _ _ _ Hid Hid') in *. rewrite Hl in *. exists a0, from, to. split_and!; try done.
  match goal with E : is_some_and _ _ = true |- _ => apply orb_true_iff in E; by rewrite !bool_decide_eq_true in E end.
Qed.

Lemma listed_exists :
  Forall (fun role => role_channels st role = Ok tt) roles ->
  forall role ids id, role ∈ roles -> ids_at role "allowedChannelIds" ids -> id ∈ ids ->
    exists channel, channel ∈ channels /\ id_at channel "channelId" id.
Proof using Hst.
  intros H role ids id Hr Hids Hin. rewrite Forall_forall in H. specialize (H role Hr). unfold role_channels in H. read.
  rewrite (ids_at_inj _ _ _ _ Hids E) in Hin. rewrite Forall_forall in H. apply H in Hin. unfold role_channel in Hin. read.
  bool_to_prop. destruct Hst as [_ _ _ (cids & Hc & _ & Ec)].
  match goal with E : id ∈ channel_ids st |- _ => rewrite Ec, elem_of_list_to_set in E; apply list_elem_of_lookup in E as [i Hi] end.
  destruct (Forall2_lookup_r _ _ _ _ _ Hc Hi) as (c & Hl & E'). exists c. split; [by eapply list_elem_of_lookup_2|done].
Qed.

Lemma participants_elem role channel from to :
  (exists id, id_field role "roleId" = Ok id) -> role ∈ roles -> ends_of channel from to -> participates role channel ->
  role ∈ List.filter (fun role => is_endpoint (role_endpoint (id_or_empty role "roleId")) (from, to)) roles.
Proof using.
  intros (id & Hid) Hr [Hf Ht] (id' & f & t & Hid' & [Hf' Ht'] & Hp). apply list_elem_of_In, filter_In.
  split; [by apply list_elem_of_In|]. unfold id_or_empty, is_endpoint. rewrite Hid. apply id_field_ok in Hid.
  rewrite (id_at_inj _ _ _ _ Hid Hid'). rewrite (id_at_inj _ _ _ _ Hf Hf'), (id_at_inj _ _ _ _ Ht Ht'). cbn.
  apply orb_true_iff. by rewrite !bool_decide_eq_true.
Qed.

Lemma participates_granted authority :
  Forall (fun role => exists id, id_field role "roleId" = Ok id) roles ->
  Forall (fun channel => check_participants authority roles channel = Ok tt) channels ->
  forall role channel, role ∈ roles -> channel ∈ channels -> participates role channel -> granted role channel.
Proof using.
  intros Hids H role channel Hr Hc Hp. rewrite Forall_forall in H, Hids. specialize (H channel Hc). unfold check_participants in H.
  read. assert (ends_of channel a0 a1) as He by done. rewrite Forall_forall in H.
  specialize (H role (participants_elem role channel a0 a1 (Hids role Hr) Hr He Hp)). read. bool_to_prop.
  match goal with E : contains _ _ = true |- _ => apply contains_spec in E end. by eexists _, _.
Qed.

Lemma id_field_nonempty v key id : id_field v key = Ok id -> id <> ""%string.
Proof using.
  unfold id_field, Native.identifier. intros H. read. bool_to_prop. done.
Qed.

(** A channel serves an authority or has a role as an end. *)
Lemma channel_owned authority prober b3 provisioners :
  Forall (fun role => exists id, id_field role "roleId" = Ok id) roles ->
  authority_channels prober b3 provisioners = Ok authority ->
  Forall (fun channel => check_participants authority roles channel = Ok tt) channels ->
  forall channel, channel ∈ channels ->
    (exists role, role ∈ roles /\ participates role channel) \/
    exists row, row ∈ prober :: b3 :: provisioners /\ serves channel row.
Proof using.
  intros Hids Ha H channel Hc. rewrite Forall_forall in H, Hids. specialize (H channel Hc). unfold check_participants in H.
  apply bind_ok in H as (id & Hid & H). pose proof (id_field_nonempty _ _ _ Hid) as Hne. apply id_field_ok in Hid.
  apply bind_ok in H as (from & Hf%id_field_ok & H). apply bind_ok in H as (to & Ht%id_field_ok & H).
  apply guard_ok in H as [G _]. apply andb_false_iff in G as [G|G].
  - right. apply negb_false_iff, bool_decide_eq_true in G. unfold authority_channels in Ha. read.
    rewrite !elem_of_union, !elem_of_singleton, elem_of_list_to_set, list_elem_of_fmap in G.
    destruct G as [[->| ->]|(row & Er & Hrow)].
    + exists prober. split; [by left|by eexists].
    + exists b3. split; [by right; left|by eexists].
    + exists row. split; [by do 2 right|]. exists id. split; [done|]. unfold id_or_empty in Er.
      destruct (id_field row "channelId") as [i|] eqn:Eid; [subst i; by apply id_field_ok|done].
  - left. apply bool_decide_eq_false in G. destruct (List.filter _ roles) as [|role l] eqn:E; [done|].
    assert (role ∈ List.filter (fun role => is_endpoint (role_endpoint (id_or_empty role "roleId")) (from, to)) roles) as Hin
      by (rewrite E; by left).
    apply list_elem_of_In, filter_In in Hin as [Hin%list_elem_of_In Hp]. exists role. split; [done|].
    destruct (Hids role Hin) as (rid & Hrid). unfold id_or_empty in Hp. rewrite Hrid in Hp. apply id_field_ok in Hrid.
    apply orb_true_iff in Hp. rewrite !bool_decide_eq_true in Hp. by exists rid, from, to.
Qed.
End graph.

(** A provisioner hands one descriptor of its domain to the one D3 role that asks for it. *)
Definition provisions (roles channels : list Value) (provisioner : Value) : Prop :=
  exists id domain role target channel,
    id_at provisioner "provisionerId" id /\ id_at provisioner "domain" domain /\
    role ∈ roles /\ id_at role "roleId" target /\ id_at provisioner "targetRoleId" target /\
    id_at role "roleClass" "D3" /\ ids_at role "credentialDomains" [domain] /\
    channel ∈ channels /\ serves channel provisioner /\
    ends_of channel (provisioner_endpoint id) (role_endpoint target) /\
    id_at channel "direction" "one-way" /\ number_at channel "maxDescriptors" 1 /\ flag_at channel "oneShot" true.

Lemma delivers_provisions artifacts roles role_state channels st provisioner :
  role_inv artifacts roles role_state -> channel_inv channels st -> delivers role_state st provisioner ->
  provisions roles channels provisioner.
Proof.
  intros [Hrows _ Hknown _ _] Hst (id & domain & target & cid & channel & Hid & Hd & Ht & Hcid & Hclass & Hcred & He & Hb & H).
  destruct (Hknown _ _ Hclass) as (role & Hr & Hrid). rewrite Forall_forall in Hrows.
  destruct (Hrows role Hr) as (rid & c & p & ar & cr & Hrid' & (Hc & _ & _ & Hcr & _) & Ec & Ecr).
  rewrite (id_at_inj _ _ _ _ Hrid Hrid') in *. rewrite Ec in Hclass. injection Hclass as ->. rewrite Ecr in Hcred. injection Hcred as ->.
  pose proof Hst as [Hchannels Hby _ _]. destruct (Hby _ _ Hb) as [Hcin Hccid].
  destruct (channel_ends channels st Hst channel Hcin) as (cid' & from & to & Hcid' & Hends & _ & Hl).
  rewrite (id_at_inj _ _ _ _ Hccid Hcid') in *. rewrite He in Hl. injection Hl as <- <-.
  exists id, domain, role, rid, channel. destruct H as (? & ? & ?). split_and!; try done. by eexists.
Qed.
End Graph.
Import Graph.

(** ** Properties *)

Lemma prober_ok value artifacts roles prober principal :
  validate_prober value artifacts roles = Ok (prober, principal) ->
  rows_at value "probers" [prober] /\ id_at prober "principalId" principal /\ (principal ∉ principals roles).
Proof.
  unfold validate_prober. intros H. apply bind_ok in H as (rows & [Hr _]%array_field_ok & H).
  destruct rows as [|p [|? ?]]; [done| |done]. read. bool_to_prop. done.
Qed.

Lemma principals_distinct artifacts roles role_state channels st prober principal provisioners :
  role_inv artifacts roles role_state -> id_at prober "principalId" principal -> (principal ∉ principals role_state) ->
  provisioner_inv role_state channels principal provisioners st ->
  exists names, Forall2 (fun row name => id_at row "principalId" name) (prober :: roles ++ provisioners) names /\ NoDup names.
Proof.
  intros [_ _ _ _ (names & Hn & Hnd & En)] Hp Hout [_ (names' & Hn' & Hnd' & _ & Hout')].
  exists (principal :: names ++ names'). split; [constructor; [done|by apply Forall2_app]|].
  rewrite En, elem_of_list_to_set in Hout. rewrite Forall_forall in Hout'. constructor.
  - rewrite elem_of_app. intros [?|Hx]; [done|]. by apply Hout' in Hx as [_ ?].
  - apply NoDup_app. split_and!; [done| |done]. intros n Hx Hy. apply Hout' in Hy as [Hy _].
    by rewrite En, elem_of_list_to_set in Hy.
Qed.

(** The steps of a successful validation. *)
Lemma deployment_parts value :
  validate_deployment value = Ok tt ->
  exists artifacts artifact_state roles role_state channels st prober principal provisioners b3 endpoints authority,
    validate_artifacts value = Ok (artifacts, artifact_state) /\
    validate_roles value artifact_state = Ok (roles, role_state) /\
    validate_channels value = Ok (channels, st) /\
    Forall (fun role => role_channels st role = Ok tt) roles /\
    validate_prober value artifact_state role_state = Ok (prober, principal) /\
    validate_provisioners value artifact_state role_state st principal = Ok provisioners /\
    field value "b3" = Some b3 /\
    endpoints_of roles prober b3 provisioners = Ok endpoints /\ check_endpoints endpoints st = Ok tt /\
    authority_channels prober b3 provisioners = Ok authority /\
    Forall (fun channel => check_participants authority roles channel = Ok tt) channels.
Proof.
  unfold validate_deployment. intros H. do 4 apply bind_ok in H as (? & _ & H). apply guard_ok in H as [_ H].
  do 3 apply bind_ok in H as (? & _ & H).
  apply bind_ok in H as ([artifacts artifact_state] & Ha & H). apply bind_ok in H as ([roles role_state] & Hr & H).
  apply bind_ok in H as ([channels st] & Hc & H). apply bind_ok in H as ([] & Hrc%for_each_ok & H).
  apply bind_ok in H as ([prober principal] & Hp & H). apply bind_ok in H as (provisioners & Hps & H).
  apply bind_ok in H as (b3 & Hb & H). apply bind_ok in H as (endpoints & He & H). apply bind_ok in H as ([] & Hce & H).
  do 2 apply bind_ok in H as (? & _ & H). apply bind_ok in H as (authority & Hau & H).
  apply bind_ok in H as ([] & Hpa%for_each_ok & _). unfold validate_b3 in Hb.
  apply bind_ok in Hb as (b & Hb%required_ok & Hb'). do 7 apply bind_ok in Hb' as (? & _ & Hb'). injection Hb' as <-.
  by exists artifacts, artifact_state, roles, role_state, channels, st, prober, principal, provisioners, b, endpoints, authority.
Qed.

Lemma artifacts_ok value artifacts st :
  validate_artifacts value = Ok (artifacts, st) -> rows_at value "artifacts" artifacts /\ artifact_inv artifacts st.
Proof.
  unfold validate_artifacts. intros H. read. split; [done|].
  eapply fold_inv; [apply artifact_inv_nil|intros; by eapply artifact_step|done].
Qed.

Lemma endpoints_roles roles prober b3 provisioners endpoints :
  endpoints_of roles prober b3 provisioners = Ok endpoints ->
  Forall (fun role => exists id, id_field role "roleId" = Ok id) roles.
Proof.
  unfold endpoints_of. intros (ids & H%res_map_ids & _)%bind_ok. apply Forall_forall. intros role Hr. by eapply has_id.
Qed.

(** C12. An accepted deployment is a closed graph.  Both ends of every channel are
    distinct and declared (the supervisor, a role, the prober, the B3 authority or a
    provisioner); a role lists exactly the channels it is an end of, and lists no
    other; every channel serves an authority or joins a role.  Each provisioner
    hands its one domain to the one D3 role that asks for it, over a one-shot,
    one-way channel between the two that carries one descriptor; other classes hold
    no credentials.  Every role runs a declared artifact of kind [role] with the
    digest it states.  Prober, roles and provisioners have distinct principals. *)
Theorem deployment_topology value :
  validate_deployment value = Ok tt ->
  exists artifacts roles channels prober b3 provisioners,
    (rows_at value "artifacts" artifacts /\ rows_at value "roles" roles /\ rows_at value "channels" channels /\
     rows_at value "probers" [prober] /\ field value "b3" = Some b3 /\ rows_at value "provisioners" provisioners) /\
    (forall channel, channel ∈ channels -> exists from to, ends_of channel from to /\ from <> to /\
       declared roles prober b3 provisioners from /\ declared roles prober b3 provisioners to) /\
    (forall role channel, role ∈ roles -> channel ∈ channels -> granted role channel <-> participates role channel) /\
    (forall role ids id, role ∈ roles -> ids_at role "allowedChannelIds" ids -> id ∈ ids ->
       exists channel, channel ∈ channels /\ id_at channel "channelId" id) /\
    (forall channel, channel ∈ channels ->
       (exists role, role ∈ roles /\ participates role channel) \/
       exists row, row ∈ prober :: b3 :: provisioners /\ serves channel row) /\
    Forall (provisions roles channels) provisioners /\
    Forall (fun role => exists class credentials, id_at role "roleClass" class /\
       ids_at role "credentialDomains" credentials /\ len credentials <= 1 /\
       (class <> "D3"%string -> credentials = [])) roles /\
    Forall (fun role => exists artifact digest, id_at role "artifactId" artifact /\ id_at role "artifactDigest" digest /\
       artifact_of artifacts artifact "role" digest) roles /\
    exists names, Forall2 (fun row name => id_at row "principalId" name) (prober :: roles ++ provisioners) names /\ NoDup names.
Proof.
  intros (artifacts & artifact_state & roles & role_state & channels & st & prober & principal & provisioners & b3 &
    endpoints & authority & Ha & Hr & Hc & Hrc & Hp & Hps & Hb & He & Hce & Hau & Hpa)%deployment_parts.
  apply artifacts_ok in Ha as [Ha Hai]. apply roles_ok in Hr as [Hr Hri]. apply channels_ok in Hc as [Hc Hci].
  apply prober_ok in Hp as (Hp & Hpp & Hpout). apply provisioners_ok in Hps as (Hps & pst & Hpi).
  pose proof (endpoints_roles _ _ _ _ _ He) as Hids.
  exists artifacts, roles, channels, prober, b3, provisioners. split_and!; try done.
  - by eapply endpoints_checked.
  - intros role channel Hrole Hchannel. split; [by eapply granted_participates|by eapply participates_granted].
  - by eapply listed_exists.
  - by eapply channel_owned.
  - destruct Hpi as [Hd _]. eapply Forall_impl; [exact Hd|]. intros. by eapply delivers_provisions.
  - destruct Hri as [Hrows _ _ _ _]. eapply Forall_impl; [exact Hrows|].
    intros role (id & c & p & ar & cr & _ & (H1 & _ & _ & H4 & H5 & H6) & _). by exists c, cr.
  - destruct Hri as [_ Hruns _ _ _]. eapply Forall_impl; [exact Hruns|]. intros role (ar & d & H1 & H2 & Hk & Hd).
    exists ar, d. split_and!; [done|done|]. destruct Hai as [Hai]. destruct (Hai _ _ Hd) as (k & Hk' & H).
    rewrite Hk in Hk'. by injection Hk' as <-.
  - by eapply principals_distinct.
Qed.

(** A deployment with a D2 role, a D3 role and the provisioner of its credential. *)
Module Sample.
Local Open Scope string_scope.

Definition d : Value := Text (str_of_bytes (repeat x61 64)).
Definition texts (l : list string) : Value := Array (map Text l).
Definition flags (keys : list string) (b : bool) : list (string * Value) := map (fun k => (k, Bool b)) keys.
Definition numbers (keys : list string) (n : Z) : list (string * Value) := map (fun k => (k, Unsigned n)) keys.

Section sample.
(** The digest of the artifact of each kind. *)
Variable digest_of : string -> Value.
Definition artifact (kind : string) : Value :=
  Map [("artifactId", Text ("a." +:+ kind)); ("digest", digest_of kind); ("kind", Text kind); ("targetTriple", Text "x86_64");
       ("variant", Text "gnu"); ("executableMode", Unsigned 365); ("releaseMember", Bool true)].
Definition role (id class : string) (credentials : list string) (channel : string) : Value :=
  Map (app [("roleId", Text id); ("roleClass", Text class); ("principalId", Text ("p." +:+ id)); ("artifactId", Text "a.role");
       ("artifactDigest", digest_of "role"); ("credentialDomains", texts credentials); ("allowedChannelIds", texts [channel]);
       ("uid", Unsigned 1000); ("gid", Unsigned 1000); ("supplementaryGroups", Array []);
       ("namespaces", Map (flags NAMESPACE_KEYS true)); ("mounts", Array []);
       ("cgroup", Map (app (numbers ["memoryMax"; "pidsMax"; "cpuMaxMicros"] 1) [("pathId", Text "g"); ("ioMaxDigest", d)]));
       ("rlimits", Map (numbers ["nofile"; "nproc"; "core"; "fsize"; "addressSpace"] 1));
       ("capabilitiesEmpty", Bool true); ("dumpable", Bool false)]
      [("launchSeccompDigest", d); ("steadySeccompDigest", d); ("landlockDigest", d); ("environmentAllowlist", Array []);
       ("inheritedFdSlots", Array []); ("requiredMeasurementFields", texts MEASUREMENT_FIELDS)]).
Definition channel (id from to direction : string) (descriptors : Z) (shot : bool) : Value :=
  Map [("channelId", Text id); ("fromEndpoint", Text from); ("toEndpoint", Text to); ("socketType", Text "seqpacket");
       ("direction", Text direction); ("maxFrameBytes", Unsigned 65536); ("maxDescriptors", Unsigned descriptors);
       ("peerCredentialPolicy", Text "exact-principal"); ("oneShot", Bool shot)].

Definition fields (base : Value) : list (string * Value) :=
  [("schema", Text "keep.native-deployment"); ("version", Unsigned 1); ("trustClass", Text "production");
   ("deploymentId", Text "dep"); ("deploymentEpoch", Unsigned 1); ("deploymentBaseDigest", base); ("predecessorDigest", d);
   ("bootPolicy", Map (app (numbers ["maxLaunchMs"; "maxResponseMs"; "maxAttestationAge"; "maxCleanupMs"; "maxConcurrentTransactions"] 1)
      [("kernelCells", Array [Map [("cellId", Text "k"); ("minimumKernel", Text "6"); ("maximumKernel", Text "7");
                                   ("requiredFeatures", Array [])]])]));
   ("protocol", Map (app [("name", Text PROTOCOL_NAME); ("version", Unsigned 2)]
      (map (fun b : string * Z => (b.1, Unsigned b.2)) PROTOCOL_BOUNDS)));
   ("artifacts", Array (map artifact ["helper"; "prober"; "provisioner"; "role"; "trampoline"]));
   ("roles", Array [role "r1" "D2" [] "c.r1"; role "r3" "D3" ["mail"] "c.v"]);
   ("channels", Array [channel "c.b3" "supervisor:keep" "b3:auth" "request-response" 0 false;
                       channel "c.p" "prober:pr" "supervisor:keep" "request-response" 0 false;
                       channel "c.r1" "role:r1" "supervisor:keep" "request-response" 0 false;
                       channel "c.v" "provisioner:pv" "role:r3" "one-way" 1 true]);
   ("probers", Array [Map [("proberId", Text "pr"); ("artifactId", Text "a.prober"); ("principalId", Text "p.prober");
      ("signingKeyId", Text "key"); ("keyEpoch", Unsigned 1); ("channelId", Text "c.p"); ("observationGrants", Array []);
      ("requiredNegativeProbes", Array [])]]);
   ("provisioners", Array [Map [("provisionerId", Text "pv"); ("domain", Text "mail"); ("principalId", Text "p.pv");
      ("artifactId", Text "a.provisioner"); ("targetRoleId", Text "r3"); ("channelId", Text "c.v");
      ("descriptorType", Text "memfd"); ("requiredSeals", Array []); ("descriptorCount", Unsigned 1);
      ("destructionDeadlineMs", Unsigned 1)]]);
   ("b3", Map [("authorityId", Text "auth"); ("genesisBaseDigest", d); ("b3ProfileEnvelopeDigest", d); ("keyEpoch", Unsigned 1);
      ("assurance", Text "load-bearing"); ("channelId", Text "c.b3")]);
   ("release", Map [("buildId", Text "b"); ("artifactVersion", Unsigned 1); ("targetTriple", Text "x86_64");
      ("variant", Text "gnu"); ("releaseKeyEpoch", Unsigned 1); ("timestampKeyEpoch", Unsigned 1)]);
   ("revocation", Map [("authorityId", Text "auth"); ("keyEpoch", Unsigned 1); ("namespace", Text "n"); ("scope", Text "s");
      ("genesisCheckpointEnvelopeDigest", d); ("minimumSequence", Unsigned 0); ("maxStalenessCounters", Unsigned 1);
      ("compromiseSemantics", Text "c")]);
   ("rollback", Map [("deploymentEpoch", Unsigned 1); ("minimumArtifactVersion", Unsigned 1); ("predecessorDigest", d);
      ("authorizedRollbackEnvelopeDigest", d)]);
   ("evidence", Map [("schema", Text "keep.native-evidence"); ("sinkId", Text "s"); ("maxBundleBytes", Unsigned (8 * 1024 * 1024));
      ("algorithm", Text "ed25519"); ("keyId", Text "key"); ("keyEpoch", Unsigned 1);
      ("appendPolicy", Text "create-exclusive-fsync"); ("witnessPolicy", Text "external-prober")])].
Definition base_digest : string := match deployment_base_digest (Map (fields d)) with Ok s => s | Err _ => "" end.
Definition deployment_of : Value := Map (fields (Text base_digest)).
End sample.
Definition deployment : Value := Eval vm_compute in deployment_of (fun _ => d).
End Sample.

Lemma deployment_topology_witness :
  validate_deployment Sample.deployment = Ok tt /\
  exists roles channels, rows_at Sample.deployment "roles" roles /\ rows_at Sample.deployment "channels" channels /\
    forall role channel, role ∈ roles -> channel ∈ channels -> granted role channel <-> participates role channel.
Proof.
  assert (validate_deployment Sample.deployment = Ok tt) as H by (vm_compute; reflexivity). split; [exact H|].
  destruct (deployment_topology Sample.deployment H) as (a & r & c & p & b & v & (_ & Hr & Hc & _) & _ & Hg & _).
  exists r, c. split; [exact Hr|]. split; [exact Hc|exact Hg].
Defined.
