(* ===== verification/RegistryFacts.v ===== *)
(** * The digest registry is acyclic *)

From Stdlib Require Import Wellfounded.
From S2P Require Import Prelude Cbor Paths Schema SchemaFacts Registry.
Import Steps.

(** ** The table of ranks *)
Module Ranks.

Lemma register_ok by_path entry by_path' :
  register by_path entry = Ok by_path' ->
  by_path !! entry_path entry = None /\ by_path' = <[entry_path entry := rank entry]> by_path.
Proof.
  unfold register. intros H. apply guard_ok in H as [_ H]. apply guard_ok in H as [G [= <-]].
  apply bool_decide_eq_false in G. by rewrite <- eq_None_not_Some in G.
Qed.

(** The table maps each path to the rank of its one entry. *)
Record ranks_of (entries : list DigestRegistryEntry) (by_path : gmap string Z) : Prop := {
  ranks_known : forall path r, by_path !! path = Some r -> exists e, e ∈ entries /\ entry_path e = path /\ rank e = r;
  ranks_all : forall e, e ∈ entries -> by_path !! entry_path e = Some (rank e);
  ranks_paths : NoDup (map entry_path entries)
}.

Lemma register_ranks seen by_path entry by_path' :
  ranks_of seen by_path -> register by_path entry = Ok by_path' -> ranks_of (seen ++ [entry]) by_path'.
Proof.
  intros [Hk Ha Hn] [Hfresh ->]%register_ok. split.
  - intros path r. destruct (decide (entry_path entry = path)) as [<-|Hne].
    + rewrite lookup_insert_eq. intros [= <-]. exists entry. rewrite elem_of_app, list_elem_of_singleton. by auto.
    + rewrite lookup_insert_ne by done. intros (e & He & E)%Hk. exists e. rewrite elem_of_app. by auto.
  - intros e [He| ->%list_elem_of_singleton]%elem_of_app; [|by rewrite lookup_insert_eq].
    rewrite lookup_insert_ne; [by apply Ha|]. intros E. rewrite E, (Ha e He) in Hfresh. done.
  - rewrite map_app. apply NoDup_app. split_and!; [done| |by repeat constructor; set_solver].
    intros p Hp ->%list_elem_of_singleton. apply list_elem_of_fmap in Hp as (e & E & He).
    pose proof (Ha e He) as H. rewrite <- E, Hfresh in H. done.
Qed.

Lemma register_all entries by_path : res_fold register entries ∅ = Ok by_path -> ranks_of entries by_path.
Proof.
  assert (forall l seen bp bp', ranks_of seen bp -> res_fold register l bp = Ok bp' -> ranks_of (seen ++ l) bp') as H.
  { induction l as [|e l IH]; intros seen bp bp' Hr H; cbn [res_fold] in H.
    - injection H as <-. by rewrite app_nil_r.
    - apply bind_ok in H as (bp1 & H1 & H). replace (seen ++ e :: l) with ((seen ++ [e]) ++ l) by by rewrite <- app_assoc.
      eapply IH; [by eapply register_ranks|done]. }
  intros E. apply (H entries [] ∅); [|done]. split; [intros p r Hp; by rewrite lookup_empty in Hp|set_solver|constructor].
Qed.

Lemma dependency_ok by_path entry path :
  check_dependency by_path entry path = Ok tt -> exists r, by_path !! path = Some r /\ r < rank entry.
Proof.
  unfold check_dependency. intros (r & Hr%ok_or_ok & [H _]%guard_ok)%bind_ok. apply Z.leb_gt in H. eauto.
Qed.
End Ranks.
Import Ranks.

(** [e] depends on [e'] directly. *)
Definition depends (entries : list DigestRegistryEntry) (e' e : DigestRegistryEntry) : Prop :=
  e' ∈ entries /\ e ∈ entries /\ entry_path e' ∈ depends_on e.

Lemma ranks_bounded {A} (rank : A -> Z) (entries : list A) : exists low, forall e, e ∈ entries -> low <= rank e.
Proof.
  induction entries as [|e entries [low IH]]; [exists 0; set_solver|].
  exists (Z.min low (rank e)). intros e' [->|H%IH]%elem_of_cons; lia.
Qed.

(** A relation between the elements of a list whose ranks grow is well-founded. *)
Lemma ranked_wf {A} (R : A -> A -> Prop) (rank : A -> Z) (entries : list A) :
  (forall e' e, R e' e -> e' ∈ entries /\ rank e' < rank e) -> well_founded R.
Proof.
  intros H. destruct (ranks_bounded rank entries) as [low Hlow].
  apply (wf_incl _ _ (fun e' e => low <= rank e' < rank e)); [|apply (wf_inverse_image _ _ _ rank (Z.lt_wf low))].
  intros e' e [Hin Hr]%H. split; [by apply Hlow|done].
Qed.

(** No path has two lists of required edges. *)
Lemma required_first path required :
  (path, required) ∈ REQUIRED_DAG_EDGES ->
  List.find (fun edge : string * list string => bool_decide (edge.1 = path)) REQUIRED_DAG_EDGES = Some (path, required).
Proof.
  assert (Forall (fun e : string * list string =>
    List.find (fun edge : string * list string => bool_decide (edge.1 = e.1)) REQUIRED_DAG_EDGES = Some e) REQUIRED_DAG_EDGES) as H
    by (repeat constructor).
  rewrite Forall_forall in H. apply H.
Qed.

(** ** Properties *)

(** An accepted registry of digests has no cycle: every dependency of an entry
    is another entry, unique by its path, of a strictly smaller rank, so that the
    digests can be computed in the order of the ranks, whatever the table; and the
    entries of the required edges are present with exactly the required
    dependencies.  The registry the crate ships is accepted. *)
Theorem registry_acyclic entries :
  validate_digest_registry entries = Ok tt ->
  NoDup (map entry_path entries) /\
  (forall e path, e ∈ entries -> path ∈ depends_on e ->
     exists e', depends entries e' e /\ entry_path e' = path /\ rank e' < rank e) /\
  well_founded (depends entries) /\
  (forall path required, (path, required) ∈ REQUIRED_DAG_EDGES ->
     exists e, e ∈ entries /\ entry_path e = path /\ depends_on e ≡ₚ required).
Proof.
  unfold validate_digest_registry. intros H. apply bind_ok in H as (by_path & [Hk Ha Hn]%register_all & H).
  apply bind_ok in H as ([] & He%for_each_ok & Hreq%for_each_ok). rewrite Forall_forall in He. rewrite Forall_forall in Hreq.
  assert (forall e path, e ∈ entries -> path ∈ depends_on e ->
     exists e', depends entries e' e /\ entry_path e' = path /\ rank e' < rank e) as Hdep.
  { intros e path Hin Hp. apply He in Hin as Hd. apply bind_ok in Hd as ([] & Hd%for_each_ok & _).
    rewrite Forall_forall in Hd. apply Hd in Hp as Hr. apply dependency_ok in Hr as (r & Hr & Hlt).
    apply Hk in Hr as (e' & He' & <- & <-). by exists e'. }
  split_and!; [done|done| |].
  - apply (ranked_wf _ rank entries). intros e' e Hd. pose proof Hd as (He1 & He2 & Hp). split; [done|]. destruct (Hdep e _ He2 Hp) as (e1 & (Hin & _) & E & Hlt).
    apply Ha in Hin as H1. apply Ha in He1 as H2. rewrite E, H2 in H1. injection H1 as H1. lia.
  - intros path required Hedge. apply Hreq in Hedge as Hb. apply guard_ok in Hb as [Hb _]. apply negb_false_iff, bool_decide_eq_true in Hb.
    destruct Hb as [r Hr]. apply Hk in Hr as (e & Hin & Ee & _). cbn [fst] in Ee. exists e. split_and!; [done|done|].
    apply He in Hin as Hc. apply bind_ok in Hc as ([] & _ & Hc). unfold check_required in Hc. rewrite Ee in Hc.
    rewrite (required_first _ _ Hedge) in Hc. apply guard_ok in Hc as [Hc _]. apply negb_false_iff, bool_decide_eq_true in Hc.
    rewrite <- (sort_by_perm str_cmp required), <- Hc. symmetry. apply sort_by_perm.
Qed.

Lemma registry_acyclic_witness :
  validate_digest_registry NATIVE_V2_DIGEST_REGISTRY = Ok tt /\ well_founded (depends NATIVE_V2_DIGEST_REGISTRY).
Proof.
  assert (validate_digest_registry NATIVE_V2_DIGEST_REGISTRY = Ok tt) as H by (vm_compute; reflexivity).
  split; [exact H|]. apply (registry_acyclic NATIVE_V2_DIGEST_REGISTRY H).
Defined.
