(* ===== verification/P2Registry.v ===== *)
(** * The digest graph of the P2 schemas ([protocol/src/p2_schema.rs])

    Every digest that the schema tables type, with its rank and the digests it depends
    on, joined with the registry of the first boundary, and the check of the whole
    graph. *)

From S2P Require Import Prelude Cbor Paths Schema P2Specs P2Corpus Registry.

Record P2Entry : Set := mkP2Entry { row_path : string; row_type : string; row_rank : Z; row_depends_on : list string }.
#[global] Instance p2_entry_eq_dec : EqDecision P2Entry.
Proof. solve_decision. Defined.

(** [path.contains(part)] and [path.ends_with(suffix)]. *)
Fixpoint contains_bytes (part bytes : list byte) : bool :=
  match strip_prefix_bytes part bytes with
  | Some _ => true
  | None => match bytes with [] => false | _ :: bytes => contains_bytes part bytes end
  end.
Definition text_contains (part path : string) : bool := contains_bytes (str_bytes part) (str_bytes path).
Definition text_ends (suffix path : string) : bool := Registry.ends_with path suffix.

(** ** Leaves *)

Definition digest_rank (semantic : string) : Z :=
  let among l := contains l semantic in
  if among ["DeploymentBaseDigest"] then 3
  else if among ["DeploymentEnvelopeDigest"] then 5
  else if among ["ReleaseClosureBaseDigest"] then 6
  else if among ["ReleaseClosureEnvelopeDigest"] then 8
  else if among ["ReleaseIndexEnvelopeDigest"] then 9
  else if among ["NativePackagePayloadDigest"] then 2
  else if among ["InvocationDigest"; "ComparisonDigest"] then 2
  else if among ["ToolchainClosureEnvelopeDigest"] then 3
  else if among ["ProvenanceEnvelopeDigest"] then 6
  else if among ["NativeArtifactInventoryDigest"] then 1
  else 0%Z.
Definition digest_path_rank (semantic path : string) : Z :=
  if text_ends "scopeKey.genesisRootDigest" path then 2
  else if bool_decide (semantic = "ConsumedAuthorizationEnvelopeDigest"%string) then 4
  else if bool_decide (semantic = "CallerAuthorizationEnvelopeDigest"%string) then 2
  else if starts_with "NativeRevocationRecoveryV1." path && (text_ends "rootEnvelopeDigest" path || text_ends "b3ProfileEnvelopeDigest" path) then 2
  else if starts_with "NativeRevocationRecoveryV1." path && (text_ends "headEnvelopeDigest" path || text_ends "quarantineDigest" path) then 1
  else if bool_decide (path = "NativeReproducibilityRecordV1.toolchainClosureEnvelopeDigest"%string) then 3
  else digest_rank semantic.
Definition leaf_semantic (semantic path : string) : string :=
  if text_ends "authorizationEnvelopeDigest" path then
    if text_contains "B3State" path || text_contains "proposedB3State" path || text_contains "expectedB3State" path
    then "ConsumedAuthorizationEnvelopeDigest" else "CallerAuthorizationEnvelopeDigest"
  else if bool_decide (path = "NativeProvenanceV1.subjects[].digest"%string) then "SubjectDigest" else semantic.
Definition is_digest (spec : RSpec) : bool := match spec with RDigest _ => true | _ => false end.
Fixpoint collect_digest_leaves (spec : RSpec) (path : string) : list P2Entry :=
  match spec with
  | RDigest semantic =>
      let semantic := leaf_semantic semantic path in [mkP2Entry path semantic (digest_path_rank semantic path) []]
  | RNullable inner => collect_digest_leaves inner path
  | ROneOf variants => concat (map (fun variant => collect_digest_leaves variant path) variants)
  | RRecord fields => concat (map (fun field => collect_digest_leaves field.2 (path +:+ "." +:+ field.1)) fields)
  | RArray item _ _ _ _ _ => collect_digest_leaves item (if is_digest item then path else path +:+ "[]")
  | RTagged _ variants => concat (map (fun variant => collect_digest_leaves variant.2 path) variants)
  | _ => []
  end.

(** ** The registry *)

Definition path_order (a b : P2Entry) : comparison := str_cmp (row_path a) (row_path b).
(** [dedup_by]: of consecutive entries with one path the first is kept. *)
Fixpoint dedup_from (kept : P2Entry) (entries : list P2Entry) : list P2Entry :=
  match entries with
  | [] => [kept]
  | e :: entries =>
      if bool_decide (row_path e = row_path kept) then dedup_from kept entries else kept :: dedup_from e entries
  end.
Definition dedup (entries : list P2Entry) : list P2Entry := match entries with [] => [] | e :: entries => dedup_from e entries end.
Definition EDGES : list (string * string) :=
  [("NativeProvenanceV1.nativePackagePayloadDigest", "NativePackagePayloadV1.nativeArtifactInventoryDigest");
   ("NativeReproducibilityRecordV1.nativePackagePayloadDigest", "NativePackagePayloadV1.nativeArtifactInventoryDigest");
   ("NativeProvenanceV1.toolchainClosureEnvelopeDigest", "NativeToolchainClosureV1.$envelopeDigest");
   ("NativeProvenanceV1.invocationDigest", "NativeInvocationV1.$contentDigest");
   ("NativeReproducibilityRecordV1.builderProvenanceEnvelopeDigests", "NativeProvenanceV1.$envelopeDigest");
   ("NativeReproducibilityRecordV1.comparisonDigest", "NativeComparisonV1.$contentDigest")]%string.
(** The producer is pushed on the first entry of the consumer. *)
Fixpoint push_edge (entries : list P2Entry) (edge : string * string) : list P2Entry :=
  match entries with
  | [] => []
  | e :: entries =>
      if bool_decide (row_path e = edge.1)
      then mkP2Entry (row_path e) (row_type e) (row_rank e) (row_depends_on e ++ [edge.2]) :: entries
      else e :: push_edge entries edge
  end.
Definition schema_leaves (schema : SchemaSpec) : P2 (list P2Entry) :=
  let? root := ok_or (recursive_schema_spec (spec_name schema)) Panic in
  let? payload := payload_of schema root in
  Ok (collect_digest_leaves payload (spec_name schema)).
(** [u8::saturating_add(1)] *)
Definition next_rank (rank : Z) : Z := Z.min (rank + 1) u8_max.
(** The derived entries of one schema: its content or payload digest, and its envelope
    digest. *)
Definition derive (out : list P2Entry) (schema : SchemaSpec) : list P2Entry :=
  let name := spec_name schema in
  let dependencies := sort_by str_cmp (map row_path (List.filter (fun e => starts_with (name +:+ ".") (row_path e)) out)) in
  let ranks := omap (fun path => row_rank <$> List.find (fun e => bool_decide (row_path e = path)) out) dependencies in
  let rank := next_rank (foldr Z.max 0 ranks) in
  if bool_decide (spec_shape schema = Shape.Unsigned)
  then out ++ [mkP2Entry (name +:+ ".$contentDigest") (name +:+ "ContentDigest") rank dependencies]
  else out ++ [mkP2Entry (name +:+ ".$payloadDigest") (name +:+ "PayloadDigest") rank dependencies;
               mkP2Entry (name +:+ ".$envelopeDigest") (name +:+ "EnvelopeDigest") (next_rank rank) [name +:+ ".$payloadDigest"]].
Definition digest_registry : P2 (list P2Entry) :=
  let? leaves := res_map schema_leaves all_schemas in
  let out := dedup (sort_by path_order (concat leaves)) in
  let out := fold_left push_edge EDGES out in
  Ok (sort_by path_order (fold_left derive all_schemas out)).
Definition of_boundary (e : DigestRegistryEntry) : P2Entry := mkP2Entry (entry_path e) (semantic_type e) (rank e) (depends_on e).
Definition combined_digest_registry : P2 (list P2Entry) :=
  let? registry := digest_registry in
  Ok (sort_by path_order (map of_boundary NATIVE_V2_DIGEST_REGISTRY ++ registry)).

(** ** Validation *)

Definition check_producer (entries : list P2Entry) (e : P2Entry) (dependency : string) : P2 unit :=
  let? producer := ok_or (List.find (fun candidate => bool_decide (row_path candidate = dependency)) entries)
                     (Error "P2 digest dependency missing") in
  throw_if row_rank e <=? row_rank producer with Error "P2 digest dependency rank not lower" ;;
  Ok tt.
Definition derived_suffixes (schema : SchemaSpec) : list string :=
  if bool_decide (spec_shape schema = Shape.Unsigned) then ["$contentDigest"]%string else ["$payloadDigest"; "$envelopeDigest"]%string.
Definition check_outputs (entries : list P2Entry) (schema : SchemaSpec) : P2 unit :=
  if existsb (fun e => starts_with (spec_name schema +:+ ".") (row_path e)) entries
  then for_each (fun suffix =>
         throw_if negb (existsb (fun e => bool_decide (row_path e = spec_name schema +:+ "." +:+ suffix)) entries)
           with Error "P2 derived digest output missing" ;; Ok tt) (derived_suffixes schema)
  else Ok tt.
(** The set of the paths is the sorted entries without repetition. *)
Definition validate_p2_registry (entries : list P2Entry) : P2 unit :=
  throw_if negb (len (dedup (sort_by path_order entries)) =? len entries)
    with Error "P2 digest registry path duplicate" ;;
  let? _ := for_each (fun e => for_each (check_producer entries e) (row_depends_on e)) entries in
  for_each (check_outputs entries) all_schemas.
