(* ===== verification/P2RegistryFacts.v ===== *)
(** * Theorems on the digest graph of the P2 schemas

    An accepted graph has no cycle, and the graph of the program is accepted. *)

From S2P Require Import Prelude Cbor Schema SchemaFacts P2Specs Registry RegistryFacts P2Registry.
Import Steps.

(** [e] depends on [e'] directly. *)
Definition depends_p2 (entries : list P2Entry) (e' e : P2Entry) : Prop :=
  e' ∈ entries /\ e ∈ entries /\ row_path e' ∈ row_depends_on e.

(** ** Distinct paths *)
Module Distinct.

Lemma dedup_from_length kept l : (length (dedup_from kept l) <= S (length l))%nat.
Proof.
  revert kept. induction l as [|e l IH]; intros kept; cbn; [lia|]. destruct (bool_decide _); cbn; [specialize (IH kept)|specialize (IH e)]; lia.
Qed.
(** Nothing was removed: neighbours differ. *)
Lemma dedup_from_full kept l :
  length (dedup_from kept l) = S (length l) -> windows2_any (fun a b => bool_decide (row_path a = row_path b)) (kept :: l) = false.
Proof.
  revert kept. induction l as [|e l IH]; intros kept; [done|]. rewrite windows2_any_cons. cbn [dedup_from length].
  destruct (bool_decide (row_path e = row_path kept)) eqn:E.
  - pose proof (dedup_from_length kept l). lia.
  - cbn [length]. intros [= H]. apply IH in H. rewrite H, orb_false_r. apply bool_decide_eq_false in E. by apply bool_decide_eq_false.
Qed.
#[export] Instance path_order_laws : CmpLaws path_order.
Proof. unfold path_order. apply _. Qed.
Lemma path_neq_nodup l : StronglySorted (cmp_lt path_order) l -> NoDup (map row_path l).
Proof.
  induction 1 as [|e l _ IH He]; cbn; constructor; [|done].
  intros (e' & Ep & Hin)%list_elem_of_fmap. rewrite Forall_forall in He. apply He in Hin. unfold cmp_lt, path_order in Hin.
  rewrite Ep in Hin. unfold str_cmp in Hin. by rewrite bytes_cmp_refl in Hin.
Qed.
Lemma distinct_paths entries : len (dedup (sort_by path_order entries)) = len entries -> NoDup (map row_path entries).
Proof.
  intros H. unfold len in H. rewrite <- (sort_by_length path_order entries) in H. apply Nat2Z.inj in H.
  assert (windows2_any (fun a b => bool_decide (row_path a = row_path b)) (sort_by path_order entries) = false) as Hw.
  { destruct (sort_by path_order entries) as [|e l]; [done|]. by apply dedup_from_full. }
  rewrite <- (sort_by_perm path_order entries). apply path_neq_nodup.
  apply (windows2_eq_sorted path_order (fun a b => bool_decide (row_path a = row_path b))); [|exact Hw].
  intros x y. rewrite bool_decide_eq_true. unfold path_order, str_cmp. rewrite bytes_cmp_eq. split; [by intros ->|apply str_bytes_inj].
Qed.
End Distinct.
Import Distinct.

Lemma find_path entries path e :
  List.find (fun candidate => bool_decide (row_path candidate = path)) entries = Some e -> e ∈ entries /\ row_path e = path.
Proof. intros [Hin%list_elem_of_In ->%bool_decide_eq_true]%List.find_some. done. Qed.
Lemma paths_unique entries e e' :
  NoDup (map row_path entries) -> e ∈ entries -> e' ∈ entries -> row_path e = row_path e' -> e = e'.
Proof.
  intros Hn [i Hi]%list_elem_of_lookup [j Hj]%list_elem_of_lookup E.
  assert (i = j) as ->; [|congruence]. apply (NoDup_lookup _ i j (row_path e) Hn); rewrite list_lookup_fmap; [by rewrite Hi|by rewrite Hj, E].
Qed.


