(* ===== verification/Resolver.v ===== *)
(** * The production resolver ([production-resolver/src/lib.rs])

    Observation of a deployment and its artifacts under two pinned, read-only
    roots.  The directory handle is the interface [PinnedDirectory] of
    [Directory]; opening a mount root, reading its filesystem and sealing bytes in
    a memfd ([linux-abi/src/lib.rs]) are the interfaces [MountRoots] and [Sealing],
    on the same explicit world. *)

From S2P Require Import Prelude Cbor Sha256 Paths Schema Numbers Native Boundary SourceRows Directory.

Definition MAXIMUM_DEPLOYMENT_BYTES : Z := 1048576.
Definition MAXIMUM_EXECUTABLE_BYTES : Z := 64 * 1024 * 1024.
Definition MAXIMUM_TOTAL_ARTIFACT_BYTES : Z := 512 * 1024 * 1024.
(** [0o040000], [0o7777], [0o100000], [0o170000], [0o222], [0o444] and [0o555]. *)
Definition DIRECTORY_TYPE : Z := 16384.
Definition PERMISSION_BITS : Z := 4095.
Definition REGULAR_TYPE : Z := 32768.
Definition libc_mode_type_mask : Z := 61440.
Definition WRITE_BITS : Z := 146.

Inductive ResolverError : Set :=
| RequestShape | RootOpen | RootPolicy | RootIdentity | ObjectOpen | ObjectMetadata | ContentAddress
| CanonicalProductionSchema | DeploymentIdentity.
Abbreviation resolve A := (result (failure ResolverError) A).

(** ** Root identities *)

Record FilesystemIdentity : Set := mkFilesystem {
  mount_id : Z;
  filesystem_type : Z;
  read_only : bool
}.
Record ConfiguredRootIdentity : Set := mkRootIdentity {
  root_device : Z;
  root_inode : Z;
  root_uid : Z;
  root_gid : Z;
  root_permissions : Z;
  root_mount_id : Z;
  root_filesystem_type : Z;
  root_read_only : bool
}.

Definition from_observed (identity : FileIdentity) (filesystem : FilesystemIdentity) : ConfiguredRootIdentity :=
  mkRootIdentity (device identity) (inode identity) (uid identity) (gid identity)
    (Z.land (identity_mode identity) PERMISSION_BITS) (mount_id filesystem) (filesystem_type filesystem)
    (read_only filesystem).

(** [format!("{}:..:{}", ..)] *)
Definition spec_numbers (i : ConfiguredRootIdentity) : list Z :=
  [root_device i; root_inode i; root_uid i; root_gid i; root_permissions i; root_mount_id i; root_filesystem_type i;
   if root_read_only i then 1 else 0].
Definition decimal_spec (i : ConfiguredRootIdentity) : string := str_of_bytes (join_bytes x3a (map decimal (spec_numbers i))).

(** [u32::try_from] *)
Definition to_u32 (n : Z) : option Z := if n <=? u32_max then Some n else None.

Definition validate_declared_root_identity (i : ConfiguredRootIdentity) : resolve unit :=
  throw_if negb (root_uid i =? 0) || negb (root_gid i =? 0) || (root_mount_id i =? 0) || (root_filesystem_type i =? 0)
           || negb (root_read_only i)
    with Error RootPolicy ;;
  throw_if negb (Z.land (root_permissions i) WRITE_BITS =? 0)
           || negb (Z.land (root_permissions i) (Z.lxor u32_max PERMISSION_BITS) =? 0)
    with Error RootPolicy ;;
  Ok tt.

Definition parse_decimal_spec (value : string) : resolve ConfiguredRootIdentity :=
  let? fields := res_map (fun part => ok_or (parse_u64 part) (Error RootPolicy)) (split x3a value) in
  match fields with
  | [f0; f1; f2; f3; f4; f5; f6; f7] =>
      throw_if 1 <? f7 with Error RootPolicy ;;
      let? uid := ok_or (to_u32 f2) (Error RootPolicy) in
      let? gid := ok_or (to_u32 f3) (Error RootPolicy) in
      let? permissions := ok_or (to_u32 f4) (Error RootPolicy) in
      let identity := mkRootIdentity f0 f1 uid gid permissions f5 f6 (f7 =? 1) in
      let? _ := validate_declared_root_identity identity in
      throw_if negb (bool_decide (decimal_spec identity = value)) with Error RootPolicy ;;
      Ok identity
  | _ => Err (Error RootPolicy)
  end.

Definition validate_root_policy (actual : FileIdentity) (filesystem : FilesystemIdentity) : resolve unit :=
  throw_if negb (Z.land (identity_mode actual) libc_mode_type_mask =? DIRECTORY_TYPE)
           || negb (uid actual =? 0) || negb (gid actual =? 0)
           || negb (Z.land (identity_mode actual) WRITE_BITS =? 0) || negb (read_only filesystem)
    with Error RootPolicy ;;
  Ok tt.
Definition validate_root_identity (actual : FileIdentity) (filesystem : FilesystemIdentity)
    (expected : ConfiguredRootIdentity) : resolve unit :=
  throw_if negb (device actual =? root_device expected) || negb (inode actual =? root_inode expected)
           || negb (uid actual =? root_uid expected) || negb (gid actual =? root_gid expected)
           || negb (Z.land (identity_mode actual) PERMISSION_BITS =? root_permissions expected)
           || negb (mount_id filesystem =? root_mount_id expected)
           || negb (filesystem_type filesystem =? root_filesystem_type expected)
           || negb (eqb (read_only filesystem) (root_read_only expected))
    with Error RootIdentity ;;
  Ok tt.

(** The common part of [validate_leaf] (0o444) and [validate_executable_leaf] (0o555). *)
Definition leaf_bad (permissions : Z) (identity : FileIdentity) : bool :=
  negb (Z.land (identity_mode identity) libc_mode_type_mask =? REGULAR_TYPE)
  || negb (uid identity =? 0) || negb (gid identity =? 0)
  || negb (Z.land (identity_mode identity) PERMISSION_BITS =? permissions)
  || negb (links identity =? 1).
Definition validate_leaf (identity : FileIdentity) : resolve unit :=
  throw_if leaf_bad 292 identity with Error ObjectMetadata ;; Ok tt.
Definition validate_executable_leaf (identity : FileIdentity) : resolve unit :=
  throw_if leaf_bad 365 identity with Error ObjectMetadata ;; Ok tt.

(** ** Request identities *)

Definition id_byte (b : byte) : bool := is_alphanumeric b || byte_among "._-" b.
Definition identifier (value : string) : bool :=
  negb (bool_decide (value = ""%string)) && (slen value <=? 128)
  && forallb (fun b => bZ b <? 128) (str_bytes value) && forallb id_byte (str_bytes value).
Definition digest (value : string) : bool := (slen value =? 64) && forallb lower_hex (str_bytes value).

(** [sha256_hex(bytes)], which panics on messages of 2^61 bytes. *)
Definition hash_hex (bytes : list byte) : resolve string := ok_or (OneShot.sha256_hex bytes) Panic.

(** ** Interfaces *)

Class MountRoots (Dir World : Type) : Type := {
  open_mount_root : string -> World -> result io_error (Dir * World);
  filesystem_identity : Dir -> World -> result io_error (FilesystemIdentity * World)
}.
(** [SealedFile]: a sealed memfd and its length. *)
Class Sealing (File World : Type) : Type := {
  seal_data_file_bytes : string -> list byte -> Z -> Z -> World -> result io_error (File * World);
  sealed_length : File -> Z
}.
(** What sealing promises, in a world that moves on: [seal_file_bytes_with_policy]
    compares an independent read of the memfd with the bytes it was given before it
    seals it, and what is sealed stays. *)
Class SealingLaws (Dir File World : Type) `{PinnedDirectory Dir World} `{Sealing File World} : Type := {
  later : World -> World -> Prop;
  later_preorder :: PreOrder later;
  sealed_as : File -> list byte -> World -> Prop;
  capture_later d path maximum w c w' : capture_regular_file d path maximum w = Ok (c, w') -> later w w';
  seal_exact name bytes maximum mode w f w' : maximum < u64_max ->
    seal_data_file_bytes name bytes maximum mode w = Ok (f, w') ->
    sealed_as f bytes w' /\ sealed_length f = len bytes /\ later w w';
  sealed_stays f bytes w w' : later w w' -> sealed_as f bytes w -> sealed_as f bytes w'
}.

(** ** Observation *)
Section observation.
Context {Dir File World : Type} `{PinnedDirectory Dir World} `{MountRoots Dir World} `{Sealing File World}.

Record ConfiguredRoot : Type := mkRoot { pinned : Dir; configured_identity : ConfiguredRootIdentity }.
Record ResolverConfiguration : Type := mkConfiguration {
  configured_authority : ConfiguredRoot;
  configured_payload : ConfiguredRoot
}.
Record ProductionResolver : Type := mkResolver {
  authority_root : Dir;
  authority_identity : ConfiguredRootIdentity;
  payload_root : Dir;
  payload_identity : ConfiguredRootIdentity
}.
Record ObservedArtifact : Type := mkArtifact {
  artifact_id : string;
  artifact_kind : string;
  artifact_digest : string;
  artifact_identity : FileIdentity;
  artifact_sealed : File
}.
Record ObservedDeployment : Type := mkObserved {
  deployment_sealed : File;
  canonical_bytes : list byte;
  deployment_id : string;
  manifest_digest : string;
  transcript : string;
  artifacts : list ObservedArtifact
}.

Definition root_open {A} (m : result io_error A) : resolve A := map_err (fun _ => Error RootOpen) m.
Definition object_open {A} (m : result io_error A) : resolve A := map_err (fun _ => Error ObjectOpen) m.

(** [ConfiguredRoot::open] *)
Definition open_root (root : string) (expected : ConfiguredRootIdentity) (w : World) : resolve (ConfiguredRoot * World) :=
  let? _ := validate_declared_root_identity expected in
  let? (dir, w) := root_open (open_mount_root root w) in
  let? (filesystem, w) := root_open (filesystem_identity dir w) in
  let? _ := validate_root_policy (identity dir) filesystem in
  let? _ := validate_root_identity (identity dir) filesystem expected in
  Ok (mkRoot dir expected, w).
Definition enroll_configured_root_for_probe (path : string) (w : World) : resolve (ConfiguredRoot * World) :=
  let? (dir, w) := root_open (open_mount_root path w) in
  let? (filesystem, w) := root_open (filesystem_identity dir w) in
  let observed := from_observed (identity dir) filesystem in
  let? _ := validate_root_policy (identity dir) filesystem in
  Ok (mkRoot dir observed, w).
(** [ResolverConfiguration::new] and [ProductionResolver::open] *)
Definition new_configuration (authority payload : ConfiguredRoot) : resolve ResolverConfiguration :=
  throw_if (root_device (configured_identity authority) =? root_device (configured_identity payload))
           && (root_inode (configured_identity authority) =? root_inode (configured_identity payload))
    with Error RootPolicy ;;
  Ok (mkConfiguration authority payload).
Definition open_resolver (c : ResolverConfiguration) : ProductionResolver :=
  mkResolver (pinned (configured_authority c)) (configured_identity (configured_authority c))
    (pinned (configured_payload c)) (configured_identity (configured_payload c)).

Definition ARTIFACT_KINDS : list string := ["helper"; "trampoline"; "prober"; "provisioner"; "role"]%string.
Definition admit_total_artifact_bytes (current additional : Z) : resolve Z :=
  ok_or (total ← checked_add current additional; if total <=? MAXIMUM_TOTAL_ARTIFACT_BYTES then Some total else None)
    (Error ObjectOpen).
Definition schema_text (row : Value) (key : string) : resolve string :=
  ok_or (text_of row key) (Error CanonicalProductionSchema).

(** One turn of the loop over the rows; the state is [artifacts], [total_bytes] and the world. *)
Definition capture_artifact (root : Dir) (st : list ObservedArtifact * Z * World) (row : Value)
    : resolve (list ObservedArtifact * Z * World) :=
  let '(artifacts, total_bytes, w) := st in
  let? required_kind := schema_text row "kind" in
  throw_if negb (contains ARTIFACT_KINDS required_kind) with Error CanonicalProductionSchema ;;
  let? artifact_id := schema_text row "artifactId" in
  let? artifact_digest := schema_text row "digest" in
  let? (capture, w) :=
    object_open (capture_regular_file root ("artifacts/sha256/" +:+ artifact_digest) MAXIMUM_EXECUTABLE_BYTES w) in
  let? _ := validate_executable_leaf (captured_identity capture) in
  let? actual := hash_hex (captured_bytes capture) in
  throw_if negb (bool_decide (actual = artifact_digest)) with Error ContentAddress ;;
  let? total_bytes := admit_total_artifact_bytes total_bytes (size (captured_identity capture)) in
  let? (sealed, w) :=
    object_open (seal_data_file_bytes ("keep-production-" +:+ required_kind) (captured_bytes capture)
                   MAXIMUM_EXECUTABLE_BYTES 256 w) in
  Ok (artifacts ++ [mkArtifact artifact_id required_kind artifact_digest (captured_identity capture) sealed],
      total_bytes, w).
Definition capture_required_artifacts (root : Dir) (payload : Value) (w : World)
    : resolve (list ObservedArtifact * World) :=
  match field payload "artifacts" with
  | Some (Array rows) =>
      let? st := res_fold (capture_artifact root) rows ([], 0, w) in
      Ok (st.1.1, st.2)
  | _ => Err (Error CanonicalProductionSchema)
  end.

(** ** The transcript *)

Definition TRANSCRIPT_DOMAIN : list byte := str_bytes "keep.native-production-resolution-observation/v2" ++ [x00].
Definition u64_list (numbers : list Z) : list byte := flat_map (be_bytes 8) numbers.
Definition root_numbers (r : ConfiguredRootIdentity) : list Z :=
  [root_device r; root_inode r; root_mount_id r; root_filesystem_type r; root_uid r; root_gid r; root_permissions r;
   if root_read_only r then 1 else 0].
Definition leaf_numbers (leaf : FileIdentity) : list Z :=
  [device leaf; inode leaf; uid leaf; gid leaf; identity_mode leaf; size leaf].
Definition artifact_numbers (i : FileIdentity) : list Z :=
  [device i; inode i; uid i; gid i; identity_mode i; links i; size i].
(** The length of a text as a [u64], and the text. *)
Definition framed (s : string) : list byte := be_bytes 8 (slen s) ++ str_bytes s.
Definition artifact_bytes (a : ObservedArtifact) : list byte :=
  flat_map framed [artifact_id a; artifact_kind a; artifact_digest a]
  ++ u64_list (artifact_numbers (artifact_identity a)) ++ be_bytes 8 (sealed_length (artifact_sealed a)).
(** The bytes that [transcript_digest] hashes. *)
Definition transcript_bytes (authority payload : ConfiguredRootIdentity) (leaf : FileIdentity)
    (deployment_id manifest_digest : string) (artifacts : list ObservedArtifact) : list byte :=
  TRANSCRIPT_DOMAIN ++ u64_list (root_numbers authority ++ root_numbers payload ++ leaf_numbers leaf)
  ++ framed deployment_id ++ str_bytes manifest_digest ++ flat_map artifact_bytes artifacts.
Definition transcript_digest (authority payload : ConfiguredRootIdentity) (leaf : FileIdentity)
    (deployment_id manifest_digest : string) (artifacts : list ObservedArtifact) : resolve string :=
  hash_hex (transcript_bytes authority payload leaf deployment_id manifest_digest artifacts).

(** [.map_err(|_| CanonicalProductionSchema)], which lets a panic through. *)
Definition schema_failure (e : failure ProtocolError) : failure ResolverError :=
  match e with
  | Error _ => Error CanonicalProductionSchema
  | Panic => Panic
  | OutOfFuel => OutOfFuel
  end.

(** What is read before the artifacts: the captured file and the payload of the document. *)
Definition observe_manifest (self : ProductionResolver) (deployment_id manifest_digest : string) (w : World)
    : resolve (CapturedRegularFile * Value * World) :=
  throw_if negb (identifier deployment_id) || negb (digest manifest_digest) with Error RequestShape ;;
  let relative := "deployments/sha256/" +:+ manifest_digest +:+ ".cbor" in
  let? (capture, w) := object_open (capture_regular_file (authority_root self) relative MAXIMUM_DEPLOYMENT_BYTES w) in
  let? _ := validate_leaf (captured_identity capture) in
  let? actual := hash_hex (captured_bytes capture) in
  throw_if negb (bool_decide (actual = manifest_digest)) with Error ContentAddress ;;
  let? document := map_err schema_failure (capture_canonical (captured_bytes capture) MANIFEST Production) in
  throw_if negb (bool_decide (document_schema document = Native.Deployment)) with Error CanonicalProductionSchema ;;
  let? value := map_err (fun _ => Error CanonicalProductionSchema) (decode_canonical (document_canonical document) MANIFEST) in
  let? payload := ok_or (field value "payload") (Error CanonicalProductionSchema) in
  throw_if negb (bool_decide (text_of payload "deploymentId" = Some deployment_id)) with Error DeploymentIdentity ;;
  Ok (capture, payload, w).
Definition observe_deployment (self : ProductionResolver) (deployment_id manifest_digest : string) (w : World)
    : resolve (ObservedDeployment * World) :=
  let? (capture, payload, w) := observe_manifest self deployment_id manifest_digest w in
  let? (artifacts, w) := capture_required_artifacts (payload_root self) payload w in
  let? transcript :=
    transcript_digest (authority_identity self) (payload_identity self) (captured_identity capture) deployment_id
      manifest_digest artifacts in
  let canonical_bytes := captured_bytes capture in
  let? (sealed, w) :=
    object_open (seal_data_file_bytes "keep-production-deployment" canonical_bytes MAXIMUM_DEPLOYMENT_BYTES 256 w) in
  Ok (mkObserved sealed canonical_bytes deployment_id manifest_digest transcript artifacts, w).
End observation.
Arguments ObservedArtifact : clear implicits.
Arguments ObservedDeployment : clear implicits.
Arguments ProductionResolver : clear implicits.
Arguments ConfiguredRoot : clear implicits.
Arguments ResolverConfiguration : clear implicits.
