(* ===== verification/ResolverFacts.v ===== *)
(** * Theorems on the production resolver

    [RootText]: the textual form of a root identity.  [Transcript]: the hashed bytes
    of an observation determine it.  [Observed]: what an observation holds. *)

From S2P Require Import Prelude Cbor CborFacts Sha256 Paths Schema Numbers SchemaFacts P2Safety Native Deployment Boundary NativeFacts BoundaryFacts TopologyFacts SourceRows Directory Resolver.

Import Spec Steps Captured.

(** ** The text of a root identity *)
Module RootText.

Lemma spec_parts i :
  Forall (fun n => 0 <= n) (spec_numbers i) ->
  split x3a (decimal_spec i) = map (fun n => str_of_bytes (decimal n)) (spec_numbers i).
Proof.
  intros H. unfold split, decimal_spec. rewrite str_bytes_of_bytes, split_join_bytes; [by rewrite map_map|done|].
  apply Forall_map. eapply Forall_impl; [exact H|]. intros n Hn. cbn.
  eapply Forall_impl; [by apply decimal_are|]. intros b Hb ->. unfold digit_range in Hb. cbn in Hb. lia.
Qed.
Lemma parse_parts numbers :
  Forall (fun n => 0 <= n <= u64_max) numbers ->
  res_map (fun part => ok_or (parse_u64 part) (Error RootPolicy)) (map (fun n => str_of_bytes (decimal n)) numbers)
  = Ok numbers.
Proof. induction 1 as [|n l Hn _ IH]; cbn [map res_map]; [done|]. by rewrite parse_decimal, IH. Qed.
End RootText.
Import RootText.

(** ** The transcript *)
Module Transcript.

Definition u64 (n : Z) : Prop := 0 <= n <= u64_max.

Lemma be8_app_inj a b (r s : list byte) : u64 a -> u64 b -> be_bytes 8 a ++ r = be_bytes 8 b ++ s -> a = b /\ r = s.
Proof.
  intros Ha Hb H. apply app_inj_1 in H as [H ->]; [|by rewrite !length_be_bytes]. split; [|done].
  apply (f_equal be_value) in H. rewrite !be_value_bytes in H. unfold u64, u64_max in *.
  change (8 * Z.of_nat 8) with 64 in H. by rewrite !Z.mod_small in H by lia.
Qed.
Lemma numbers_app_inj l k (r s : list byte) :
  length l = length k -> Forall u64 l -> Forall u64 k -> u64_list l ++ r = u64_list k ++ s -> l = k /\ r = s.
Proof.
  revert k. induction l as [|a l IH]; intros [|b k] Hlen Hl Hk H; try done.
  change (u64_list (a :: l)) with (be_bytes 8 a ++ u64_list l) in H.
  change (u64_list (b :: k)) with (be_bytes 8 b ++ u64_list k) in H.
  apply Forall_cons in Hl as [Ha Hl]. apply Forall_cons in Hk as [Hb Hk]. rewrite <- !app_assoc in H. apply be8_app_inj in H as [-> H]; [|done..].
  apply IH in H as [-> ->]; try done. by injection Hlen.
Qed.
Lemma framed_app_inj x y (r s : list byte) :
  slen x <= u64_max -> slen y <= u64_max -> framed x ++ r = framed y ++ s -> x = y /\ r = s.
Proof.
  intros Hx Hy H. unfold framed in H. rewrite <- !app_assoc in H. unfold slen in *.
  apply be8_app_inj in H as [E H]; [|split; [apply len_nonneg|done]..].
  apply app_inj_1 in H as [H ->]; [|unfold len in E; lia]. split; [|done]. by apply str_bytes_inj.
Qed.

Section artifacts.
Context {File World : Type} `{HS : Sealing File World}.

(** What the transcript states of an artifact, and that its fields have their width. *)
Definition stated (a : ObservedArtifact File) : string * string * string * list Z * Z :=
  (artifact_id a, artifact_kind a, artifact_digest a, artifact_numbers (artifact_identity a), sealed_length (artifact_sealed a)).
Definition sized (a : ObservedArtifact File) : Prop :=
  Forall (fun s => slen s <= u64_max) [artifact_id a; artifact_kind a; artifact_digest a] /\
  Forall u64 (artifact_numbers (artifact_identity a)) /\ u64 (sealed_length (artifact_sealed a)).

Lemma artifact_app_inj a b r s :
  sized a -> sized b -> artifact_bytes a ++ r = artifact_bytes b ++ s -> stated a = stated b /\ r = s.
Proof.
  intros (Ha1 & Ha2 & Ha3) (Hb1 & Hb2 & Hb3) H. unfold artifact_bytes in H. cbn [flat_map] in H.
  rewrite !app_nil_r, <- !app_assoc in H.
  rewrite !Forall_cons in Ha1, Hb1. destruct Ha1 as (? & ? & ? & _), Hb1 as (? & ? & ? & _).
  do 3 (apply framed_app_inj in H as [? H]; [|assumption..]).
  apply numbers_app_inj in H as [E H]; [|reflexivity|assumption..]. apply be8_app_inj in H as [? ->]; [|assumption..].
  split; [|reflexivity]. unfold stated. rewrite E. congruence.
Qed.
Lemma artifacts_inj l k :
  Forall sized l -> Forall sized k -> flat_map artifact_bytes l = flat_map artifact_bytes k -> map stated l = map stated k.
Proof.
  assert (forall a r, artifact_bytes a ++ r <> []) as Hne by done.
  intros Hl. revert k. induction Hl as [|a l Ha Hl IH]; intros k Hk H; destruct Hk as [|b k Hb Hk]; cbn [flat_map] in H.
  - done.
  - by destruct (Hne b (flat_map artifact_bytes k)).
  - by destruct (Hne a (flat_map artifact_bytes l)).
  - apply artifact_app_inj in H as [E H]; [|done..]. cbn [map]. by rewrite E, (IH k).
Qed.
End artifacts.

Lemma root_numbers_inj r s : root_numbers r = root_numbers s -> r = s.
Proof. destruct r as [? ? ? ? ? ? ? []], s as [? ? ? ? ? ? ? []]; cbn; intros [=]; by subst. Qed.
End Transcript.
Import Transcript.

(** ** Observations *)
Module Observed.
Section observed.
Context {Dir File World : Type} `{MountRoots Dir World} `{SealingLaws Dir File World}.

(** A regular file owned by root, with these permissions and one link. *)
Definition immutable_leaf (permissions : Z) (i : FileIdentity) : Prop :=
  Z.land (identity_mode i) libc_mode_type_mask = REGULAR_TYPE /\ uid i = 0 /\ gid i = 0 /\
  Z.land (identity_mode i) PERMISSION_BITS = permissions /\ links i = 1.
(** The observed artifact of a row: sealed bytes of the declared digest, from an executable leaf. *)
Definition observes (w : World) (row : Value) (a : ObservedArtifact File) : Prop :=
  id_at row "artifactId" (artifact_id a) /\ id_at row "kind" (artifact_kind a) /\ artifact_kind a ∈ ARTIFACT_KINDS /\
  id_at row "digest" (artifact_digest a) /\
  (exists bytes, sealed_as (artifact_sealed a) bytes w /\ OneShot.sha256_hex bytes = Some (artifact_digest a)) /\
  immutable_leaf 365 (artifact_identity a).
Definition total_size (l : list (ObservedArtifact File)) : Z := sumZ (map (fun a => Directory.size (artifact_identity a)) l).
Lemma total_size_snoc l a : total_size (l ++ [a]) = total_size l + Directory.size (artifact_identity a).
Proof. unfold total_size, sumZ. rewrite map_app. induction l as [|b l IH]; cbn [map app foldr] in *; lia. Qed.

Lemma leaf_ok permissions i : leaf_bad permissions i = false -> immutable_leaf permissions i.
Proof.
  unfold leaf_bad. rewrite !orb_false_iff, !negb_false_iff, !Z.eqb_eq. intros [[[[? ?] ?] ?] ?]. by split_and!.
Qed.
Lemma schema_text_ok row key s : schema_text row key = Ok s -> id_at row key s.
Proof. unfold schema_text. by intros H'%ok_or_ok%text_of_ok. Qed.

Lemma observes_later w w' rows l : later w w' -> Forall2 (observes w) rows l -> Forall2 (observes w') rows l.
Proof.
  intros Hw HF. eapply Forall2_impl; [exact HF|]. intros row a (? & ? & ? & ? & (bytes & Hs & Hh) & ?). split_and!; try done.
  exists bytes. split; [by eapply sealed_stays|done].
Qed.
Definition collected (w : World) (rows : list Value) (st : list (ObservedArtifact File) * Z * World) : Prop :=
  later w st.2 /\ Forall2 (observes st.2) rows st.1.1 /\ total_size st.1.1 = st.1.2 /\ st.1.2 <= MAXIMUM_TOTAL_ARTIFACT_BYTES.
Lemma artifact_turn root w0 rows st row st' :
  collected w0 rows st -> capture_artifact root st row = Ok st' -> collected w0 (rows ++ [row]) st'.
Proof.
  destruct st as [[l total] w]. unfold collected. cbn [fst snd]. intros (Hw & Hl & Ht & _) H'. unfold capture_artifact in H'.
  apply bind_ok in H' as (kind & Hk%schema_text_ok & H'). apply guard_ok in H' as [Hin H'].
  apply negb_false_iff, contains_spec in Hin. apply bind_ok in H' as (id & Hid%schema_text_ok & H').
  apply bind_ok in H' as (d & Hd%schema_text_ok & H'). apply bind_ok in H' as ([c w1] & Hc%map_err_ok%capture_later & H').
  apply bind_ok in H' as ([] & Hleaf & H'). unfold validate_executable_leaf in Hleaf. apply guard_ok in Hleaf as [Hleaf%leaf_ok _].
  apply bind_ok in H' as (actual & Hh%ok_or_ok & H'). apply guard_ok in H' as [E H'].
  apply negb_false_iff, bool_decide_eq_true in E as ->. apply bind_ok in H' as (total' & Hadd%ok_or_ok & H').
  apply bind_ok in H' as ([sealed w2] & Hs%map_err_ok & [= <-]). cbn [fst snd].
  apply seal_exact in Hs as (Hb & _ & Hw2); [|unfold MAXIMUM_EXECUTABLE_BYTES, u64_max; lia].
  apply bind_Some in Hadd as (n & Hn & Hadd). unfold checked_add in Hn. destruct (_ <=? u64_max); [|done]. injection Hn as <-.
  destruct (Z.leb_spec (total + Directory.size (captured_identity c)) MAXIMUM_TOTAL_ARTIFACT_BYTES) as [Hle|]; [|done].
  injection Hadd as <-. assert (later w w2) as Hlw by (by etrans). split; [by etrans|]. split_and!; [|rewrite total_size_snoc, Ht; done|done].
  apply Forall2_snoc; [by eapply observes_later|]. split_and!; try done. by exists (captured_bytes c).
Qed.

Lemma artifacts_observed root payload w l w' :
  capture_required_artifacts root payload w = Ok (l, w') ->
  exists rows, rows_at payload "artifacts" rows /\ Forall2 (observes w') rows l /\ total_size l <= MAXIMUM_TOTAL_ARTIFACT_BYTES.
Proof.
  unfold capture_required_artifacts. destruct (field payload "artifacts") as [[| | | | |rows|]|] eqn:Ef; try discriminate.
  intros (st & Hst & [= <- <-])%bind_ok. exists rows.
  apply (fold_inv _ (collected w)) in Hst as (_ & HF & Ht & Hle);
    [|by split_and!; [reflexivity|constructor|..]|intros; by eapply artifact_turn].
  split_and!; [done|done|lia].
Qed.

Lemma manifest_observed self id digest w c payload w' :
  observe_manifest self id digest w = Ok (c, payload, w') ->
  exists value, decode_canonical (captured_bytes c) MANIFEST = Ok value /\ field value "payload" = Some payload /\
    attests Native.Deployment Production value /\ id_at payload "deploymentId" id /\
    OneShot.sha256_hex (captured_bytes c) = Some digest /\ immutable_leaf 292 (captured_identity c).
Proof.
  unfold observe_manifest. intros [_ H']%guard_ok. apply bind_ok in H' as ([cap w1] & _ & H').
  apply bind_ok in H' as ([] & Hleaf & H'). unfold validate_leaf in Hleaf. apply guard_ok in Hleaf as [Hleaf%leaf_ok _].
  apply bind_ok in H' as (actual & Hh%ok_or_ok & H'). apply guard_ok in H' as [E H'].
  apply negb_false_iff, bool_decide_eq_true in E as ->. apply bind_ok in H' as (doc & Hdoc%map_err_ok & H').
  apply capture_parts in Hdoc as (value & Hv & Edoc & Hs & Ha); [|done]. apply guard_ok in H' as [E H'].
  apply negb_false_iff, bool_decide_eq_true in E. rewrite E in Ha. rewrite Edoc in H'. apply bind_ok in H' as (value' & Hv'%map_err_ok & H').
  cbn [document_canonical] in Hv'. rewrite Hv in Hv'. injection Hv' as <-.
  apply bind_ok in H' as (p & Hp%ok_or_ok & H'). apply guard_ok in H' as [E' H'].
  apply negb_false_iff, bool_decide_eq_true, text_of_ok in E'. injection H' as <- <- _. by exists value.
Qed.
End observed.
End Observed.
Import Observed.

(** ** Properties *)

(** What [validate_declared_root_identity] admits, with the width of every field. *)
Record declared (i : ConfiguredRootIdentity) : Prop := {
  declared_device : u64 (root_device i);
  declared_inode : u64 (root_inode i);
  declared_mount : 0 < root_mount_id i <= u64_max;
  declared_filesystem : 0 < root_filesystem_type i <= u64_max;
  declared_owner : root_uid i = 0 /\ root_gid i = 0;
  declared_permissions : 0 <= root_permissions i < 4096 /\ Z.land (root_permissions i) WRITE_BITS = 0;
  declared_read_only : root_read_only i = true
}.

Lemma high_bits p : 0 <= p <= u32_max -> Z.land p (Z.lxor u32_max PERMISSION_BITS) = 0 <-> p < 4096.
Proof.
  intros Hp. change (Z.lxor u32_max PERMISSION_BITS) with (Z.shiftl (Z.ones 20) 12). split; intros H.
  - destruct (Z.lt_ge_cases p 4096) as [|Hge]; [done|]. exfalso.
    assert (Z.land (Z.shiftr p 12) (Z.ones 20) = 0) as H'.
    { apply (f_equal (fun n => Z.shiftr n 12)) in H. by rewrite Z.shiftr_land, Z.shiftr_shiftl_l, Z.shiftl_0_r in H. }
    rewrite Z.land_ones, Z.shiftr_div_pow2 in H' by lia. unfold u32_max in Hp.
    rewrite Z.mod_small in H' by (split; [zmod|apply Z.div_lt_upper_bound; lia]).
    pose proof (Z.div_le_mono 4096 p 4096 ltac:(lia) Hge). change (2 ^ 12) with 4096 in H'. change (4096 / 4096) with 1 in *. lia.
  - apply Z.bits_inj'. intros n Hn. rewrite Z.land_spec, Z.bits_0. destruct (Z.lt_ge_cases n 12).
    + rewrite Z.shiftl_spec_low by done. apply andb_false_r.
    + rewrite (Z.bits_above_log2 p n); [done|lia|]. destruct (Z.eq_dec p 0) as [->|]; [cbn; lia|].
      apply Z.log2_lt_pow2; [lia|]. eapply Z.lt_le_trans; [exact H|]. change 4096 with (2 ^ 12). apply Z.pow_le_mono_r; lia.
Qed.

Lemma declared_ok i :
  u64 (root_device i) -> u64 (root_inode i) -> u64 (root_mount_id i) -> u64 (root_filesystem_type i) ->
  0 <= root_permissions i <= u32_max ->
  validate_declared_root_identity i = Ok tt <-> declared i.
Proof.
  intros Hd Hi Hm Hf Hp. unfold validate_declared_root_identity. rewrite !guard_ok. split.
  - intros (E1 & E2 & _). bool_to_prop. unfold u64 in *. split; try done; try lia. apply high_bits in H0; [|done]. split; [lia|done].
  - intros [_ _ ? ? [-> ->] [? E] ->]. rewrite E. destruct (high_bits _ Hp) as [_ Hh]. rewrite Hh by lia. unfold u64 in *.
    split_and!; [|done|done]. rewrite !orb_false_iff, !Z.eqb_neq. split_and!; try done; lia.
Qed.

(** The textual form of a root identity: a text parses to an identity exactly
    when it is the canonical text of that identity and the identity is admissible
    (owned by root, read-only, without write permission, all fields in their width).
    So parsing accepts one text per identity (no signs, leading zeros or extra
    fields), and writing an admissible identity and parsing it gives it back. *)
Theorem decimal_spec_roundtrip value i :
  parse_decimal_spec value = Ok i <-> declared i /\ decimal_spec i = value.
Proof.
  split.
  - unfold parse_decimal_spec. intros (fields & Hf%res_map_Forall2 & H)%bind_ok.
    assert (Forall u64 fields) as Hr.
    { clear H. induction Hf as [|part n parts ns Hn%ok_or_ok Hf IH]; constructor; [by eapply parse_range|done]. }
    do 9 (destruct fields as [|? fields]; try discriminate). rewrite !Forall_cons in Hr.
    destruct Hr as (? & ? & ? & ? & ? & ? & ? & ? & _). apply guard_ok in H as [_ H].
    apply bind_ok in H as (u & Hu%ok_or_ok & H). apply bind_ok in H as (g & Hg%ok_or_ok & H).
    apply bind_ok in H as (p & Hp%ok_or_ok & H). apply bind_ok in H as ([] & Hd & H). apply guard_ok in H as [E [= <-]].
    apply negb_false_iff, bool_decide_eq_true in E. split; [|done]. apply declared_ok in Hd; [done..|].
    cbn. unfold to_u32 in Hp. destruct (Z.leb_spec z3 u32_max); [|done]. injection Hp as <-. unfold u64 in *. lia.
  - intros [Hd <-]. pose proof Hd as [? ? ? ? [Hu Hg] [Hp _] Hro]. destruct i as [d n u g p m f ro].
    cbn [root_device root_inode root_uid root_gid root_permissions root_mount_id root_filesystem_type root_read_only] in *.
    subst u g ro. unfold parse_decimal_spec, u64 in *.
    assert (Forall (fun n => 0 <= n <= u64_max) (spec_numbers (mkRootIdentity d n 0 0 p m f true))) as Hn.
    { unfold spec_numbers, u64_max in *. repeat constructor; cbn; lia. }
    rewrite spec_parts by (eapply Forall_impl; [exact Hn|]; cbn; lia). rewrite parse_parts by done.
    cbn [res_bind spec_numbers root_device root_inode root_uid root_gid root_permissions root_mount_id
         root_filesystem_type root_read_only].
    assert (to_u32 p = Some p) as -> by (unfold to_u32, u32_max; by rewrite (proj2 (Z.leb_le _ _)) by lia).
    assert (validate_declared_root_identity (mkRootIdentity d n 0 0 p m f true) = Ok tt) as Hv.
    { apply declared_ok; cbn; unfold u64, u32_max; try lia. done. }
    change (1 =? 1) with true. change (to_u32 0) with (Some 0). cbn [ok_or res_bind]. rewrite Hv. cbn [res_bind].
    by rewrite bool_decide_true.
Qed.

(** C18. The hashed transcript of an observation binds it: if the bytes hashed for two
    observations are equal, then so are both root identities, what is stated of the
    deployment object, the deployment id, the manifest digest, and the list of
    artifacts with their ids, kinds, digests, file identities and sealed lengths.
    No field can be moved into its neighbour. *)
Theorem transcript_binds {File World : Type} `{HS : Sealing File World} authority authority' payload payload' leaf leaf' id id' digest digest'
    (artifacts artifacts' : list (ObservedArtifact File)) :
  Forall u64 (root_numbers authority ++ root_numbers payload ++ leaf_numbers leaf) ->
  Forall u64 (root_numbers authority' ++ root_numbers payload' ++ leaf_numbers leaf') ->
  slen id <= u64_max -> slen id' <= u64_max -> slen digest = slen digest' -> Forall sized artifacts -> Forall sized artifacts' ->
  transcript_bytes authority payload leaf id digest artifacts = transcript_bytes authority' payload' leaf' id' digest' artifacts' ->
  authority = authority' /\ payload = payload' /\ leaf_numbers leaf = leaf_numbers leaf' /\ id = id' /\ digest = digest' /\
  map stated artifacts = map stated artifacts'.
Proof.
  intros Hn Hn' Hid Hid' Hd Ha Ha' E. unfold transcript_bytes in E. apply app_inv_head in E.
  apply numbers_app_inj in E as [En E]; [|reflexivity|assumption..]. apply framed_app_inj in E as [-> E]; [|assumption..].
  apply app_inj_1 in E as [Ed E]; [|unfold slen, len in Hd; lia]. apply str_bytes_inj in Ed as ->.
  apply app_inj_1 in En as [Er En]; [|reflexivity]. apply app_inj_1 in En as [Ep El]; [|reflexivity].
  apply root_numbers_inj in Er as ->. apply root_numbers_inj in Ep as ->. split_and!; try reflexivity; [assumption|].
  by apply artifacts_inj.
Qed.

(** C17. What an observation holds.  Its bytes hash to the requested digest, are the
    canonical encoding of a production deployment envelope, sealed and signed for
    its release epoch, and are the bytes that were sealed, for good; the payload has the
    requested id and is an accepted deployment.  Every artifact row of the payload,
    in order, has an artifact with its id, kind and digest, sealed from an immutable
    executable whose bytes hash to that digest; the sizes add up to at most 512 MiB.
    The transcript is the hash of all of these. *)
Theorem observation_sound {Dir File World : Type} `{MountRoots Dir World} `{SealingLaws Dir File World}
    (self : ProductionResolver Dir) id digest (w : World) (observed : ObservedDeployment File) w' :
  observe_deployment self id digest w = Ok (observed, w') ->
  deployment_id observed = id /\ manifest_digest observed = digest /\
  OneShot.sha256_hex (canonical_bytes observed) = Some digest /\
  sealed_as (deployment_sealed observed) (canonical_bytes observed) w' /\
  exists value payload rows leaf,
    encode_bounded value MANIFEST = Ok (canonical_bytes observed) /\ attests Native.Deployment Production value /\
    field value "payload" = Some payload /\ validate_deployment payload = Ok tt /\ id_at payload "deploymentId" id /\
    rows_at payload "artifacts" rows /\ Forall2 (observes w') rows (artifacts observed) /\
    total_size (artifacts observed) <= MAXIMUM_TOTAL_ARTIFACT_BYTES /\ immutable_leaf 292 leaf /\
    OneShot.sha256_hex (transcript_bytes (authority_identity self) (payload_identity self) leaf id digest
                          (artifacts observed)) = Some (transcript observed).
Proof.
  unfold observe_deployment. intros ([[c payload] w1] & Hm & H')%bind_ok.
  apply manifest_observed in Hm as (value & Hv & Hp & Ha & Hid & Hh & Hleaf).
  apply bind_ok in H' as ([l w2] & (rows & Hr & HF & Ht)%artifacts_observed & H').
  apply bind_ok in H' as (t & Htr%ok_or_ok & H'). apply bind_ok in H' as ([sealed w3] & Hs%map_err_ok & [= <- <-]).
  apply seal_exact in Hs as (Hb & _ & Hw); [|unfold MAXIMUM_DEPLOYMENT_BYTES, u64_max; lia].
  cbn [deployment_id manifest_digest canonical_bytes deployment_sealed artifacts transcript]. split_and!; try done.
  apply decode_canonical_spec in Hv as [_ He]; [|done]. exists value, payload, rows, (captured_identity c).
  pose proof Ha as (p & r & e & (? & ? & ? & Hp' & _) & _ & _ & _ & _ & Hd). rewrite Hp in Hp'. injection Hp' as <-.
  split_and!; try done. by eapply observes_later.
Qed.

(** *** Samples *)
Module Sample.
Local Open Scope string_scope.

(** A world that serves fixed files, and sealing that keeps the bytes. *)
Definition hash_text (bytes : list byte) : string := default "" (OneShot.sha256_hex bytes).
Definition artifact_digest_of (kind : string) : Value := Text (hash_text (str_bytes kind)).
Definition payload : Value := Eval vm_compute in TopologyFacts.Sample.deployment_of artifact_digest_of.
Definition envelope : Value := Eval vm_compute in
  Map [("payload", payload);
       ("payloadDigest", Text match encode_bounded payload MANIFEST with Ok bytes => hash_text bytes | Err _ => "" end);
       ("signatures", Array [Map [("keyId", Text "release.1"); ("algorithm", Text "ed25519"); ("keyEpoch", Unsigned 1);
                                  ("signature", Bytes (repeat x07 64))]])].
Definition object : list byte := Eval vm_compute in match encode_bounded envelope MANIFEST with Ok bytes => bytes | Err _ => [] end.
Definition object_digest : string := Eval vm_compute in hash_text object.

Definition leaf (permissions length : Z) : FileIdentity := mkIdentity 1 7 (REGULAR_TYPE + permissions) 1 0 0 length 0 0 0 0.
Definition files : list (string * CapturedRegularFile) := Eval vm_compute in
  ("deployments/sha256/" +:+ object_digest +:+ ".cbor", mkCapturedFile object (leaf 292 (len object))) ::
  map (fun kind => ("artifacts/sha256/" +:+ hash_text (str_bytes kind),
                    mkCapturedFile (str_bytes kind) (leaf 365 (slen kind)))) ARTIFACT_KINDS.
Definition serve (path : string) : result io_error (CapturedRegularFile * ()) :=
  match List.find (fun f : string * CapturedRegularFile => bool_decide (f.1 = path)) files with
  | Some f => Ok (f.2, ())
  | None => Err None
  end.
#[global] Instance directory : PinnedDirectory () () := {
  identity _ := mkIdentity 1 2 (DIRECTORY_TYPE + 365) 2 0 0 0 0 0 0 0;
  inventory _ _ _ _ := Err None;
  open_child_directory _ _ _ := Err None;
  capture_regular_file _ path _ _ := serve path
}.
#[global] Instance roots : MountRoots () () := {
  open_mount_root _ w := Ok ((), w);
  filesystem_identity _ w := Ok (mkFilesystem 3 4 true, w)
}.
#[global] Instance sealing : Sealing (list byte) () := {
  seal_data_file_bytes _ bytes _ _ w := Ok (bytes, w);
  sealed_length := len
}.
#[global] Instance sealing_laws : SealingLaws () (list byte) ().
Proof.
  refine {| later _ _ := True; sealed_as f bytes _ := f = bytes |}; try done. intros ? ? ? ? ? ? ? _ [= -> _]. done.
Defined.

Definition root (inode : Z) : ConfiguredRootIdentity := mkRootIdentity 1 inode 0 0 365 3 4 true.
Definition resolver : ProductionResolver () := mkResolver () (root 2) () (root 3).
Definition artifacts : list (ObservedArtifact (list byte)) :=
  map (fun kind => mkArtifact ("a." +:+ kind) kind (hash_text (str_bytes kind)) (leaf 365 (slen kind)) (str_bytes kind))
    ["helper"; "prober"; "provisioner"; "role"; "trampoline"].
Definition observed : ObservedDeployment (list byte) := Eval vm_compute in
  mkObserved object object "dep" object_digest
    (hash_text (transcript_bytes (root 2) (root 3) (leaf 292 (len object)) "dep" object_digest artifacts)) artifacts.
End Sample.

Lemma observation_sound_witness :
  observe_deployment Sample.resolver "dep" Sample.object_digest () = Ok (Sample.observed, ()) /\
  OneShot.sha256_hex (canonical_bytes Sample.observed) = Some Sample.object_digest.
Proof.
  assert (observe_deployment Sample.resolver "dep" Sample.object_digest () = Ok (Sample.observed, ())) as H
    by (vm_compute; reflexivity).
  split; [exact H|]. apply (observation_sound Sample.resolver "dep" Sample.object_digest () Sample.observed () H).
Defined.

Lemma transcript_binds_witness :
  slen Sample.object_digest = 64 /\ Forall sized Sample.artifacts /\ map stated Sample.artifacts = map stated Sample.artifacts.
Proof.
  assert (Forall u64 (root_numbers (Sample.root 2) ++ root_numbers (Sample.root 3) ++ leaf_numbers (Sample.leaf 292 9))) as Hn
    by (repeat constructor; vm_compute; discriminate).
  assert (slen "dep" <= u64_max) as Hid by (vm_compute; discriminate).
  assert (Forall sized Sample.artifacts) as Ha by (repeat constructor; vm_compute; discriminate).
  split_and!; [vm_compute; reflexivity|exact Ha|].
  apply (transcript_binds (Sample.root 2) (Sample.root 2) (Sample.root 3) (Sample.root 3) (Sample.leaf 292 9) (Sample.leaf 292 9)
    "dep" "dep" Sample.object_digest Sample.object_digest Sample.artifacts Sample.artifacts Hn Hn Hid Hid eq_refl Ha Ha eq_refl).
Defined.
