(* ===== verification/AuditPlan.v ===== *)
(** * Audit plans ([p2-d2-evidence/src/audit_plan.rs])

    [capture_audit_plan_v1]: the plan of an independent review, with its registry of
    reviewers, and its domain-separated digest. *)

From S2P Require Import Prelude Cbor Sha256 Paths Schema.

Definition AuditPlanError : Set := string.
Abbreviation audit A := (result (failure AuditPlanError) A).

Definition DOMAIN : list byte := str_bytes "keep.p2-d2-audit-plan/v1" ++ [x00].
Definition ZERO : string := "0000000000000000000000000000000000000000000000000000000000000000".
Definition ROLES : list string := ["advisory"; "build-policy"; "correctness"; "license"; "unsafe-contract"]%string.
Definition PLAN_KEYS : list string :=
  ["schema"; "version"; "planId"; "claimSchema"; "reviewerRegistry"; "producerKeyDigests"; "validatorKeyDigests";
   "requiredClaims"; "separationPolicy"]%string.
Definition REGISTRY_KEYS : list string := ["schema"; "version"; "registryId"; "revocationListDigest"; "reviewers"]%string.
Definition REVIEWER_KEYS : list string :=
  ["principal"; "reviewerFamily"; "custodianFamily"; "mechanism"; "publicKeyAlgorithm"; "publicKeyOrTrustRoot"; "issuer";
   "subject"; "repository"; "workflow"; "allowedRoles"; "validFromCounter"; "validThroughCounter";
   "revocationIdentity"]%string.
Definition CLAIM_KEYS : list string :=
  ["role"; "minimumReviewers"; "minimumReviewerFamilies"; "minimumCustodianFamilies"]%string.
Definition SEPARATION_KEYS : list string :=
  ["distinctPrincipals"; "distinctReviewerFamilies"; "distinctCustodianFamilies"; "producerReviewerDisjoint";
   "validatorReviewerDisjoint"; "keysOffCollectorHost"]%string.

Record ValidatedAuditPlanV1 : Set := mkPlan {
  plan_canonical_bytes : list byte;
  audit_plan_digest : string
}.

(** ** Readers *)

Definition plan_record (value : Value) : audit (list (string * Value)) :=
  match value with
  | Map rows => Ok rows
  | _ => Err (Error "value is not a record"%string)
  end.
Definition exact (value : Value) (expected : list string) : audit unit :=
  let? rows := plan_record value in
  throw_if negb (len rows =? len expected)
           || existsb (fun key => negb (existsb (fun row : string * Value => bool_decide (row.1 = key)) rows)) expected
    with Error "record fields are not exact"%string ;;
  Ok tt.
Definition plan_field (value : Value) (name : string) : audit Value :=
  ok_or (field value name) (Error "required field is absent"%string).
Definition plan_text (value : Value) (name : string) : audit string :=
  let? v := plan_field value name in ok_or (as_text v) (Error "required text is malformed"%string).

Definition lower_or_digit (b : byte) : bool := is_lower b || is_digit b.
Definition identifier_byte (b : byte) : bool := lower_or_digit b || existsb (fun c => bool_decide (c = b)) (str_bytes "._:/@-").
Definition first_ok (bytes : list byte) : bool := match bytes with b :: _ => lower_or_digit b | [] => false end.
Definition identifier (value : Value) : audit string :=
  match value with
  | Text text =>
      let bytes := str_bytes text in
      throw_if bool_decide (text = ""%string) || (256 <? slen text) || negb (forallb identifier_byte bytes)
               || negb (first_ok bytes) || negb (first_ok (reverse bytes))
        with Error "identifier grammar refused"%string ;;
      Ok text
  | _ => Err (Error "identifier is not text"%string)
  end.
Definition digest (value : Value) : audit string :=
  match value with
  | Text text =>
      throw_if negb (slen text =? 64) || bool_decide (text = ZERO) || negb (forallb lower_hex (str_bytes text))
        with Error "digest is not nonzero lowercase SHA-256"%string ;;
      Ok text
  | _ => Err (Error "digest is not text"%string)
  end.
Definition nullable_native_text (value : Value) : audit (option string) :=
  match value with
  | Null => Ok None
  | Text text =>
      if negb (bool_decide (text = ""%string)) && (slen text <=? 512)
         && forallb (fun b => (32 <=? bZ b) && (bZ b <=? 126)) (str_bytes text)
      then Ok (Some text)
      else Err (Error "nullable identity text is malformed"%string)
  | _ => Err (Error "nullable identity text is malformed"%string)
  end.
Definition ordered_digests (value : Value) : audit (list string) :=
  match value with
  | Array rows =>
      throw_if bool_decide (rows = []) with Error "digest set is empty"%string ;;
      let? values := res_map digest rows in
      throw_if windows2_any (fun a b => negb (str_ltb a b)) values with Error "digest set is not strictly ordered"%string ;;
      Ok values
  | _ => Err (Error "digest set is not an array"%string)
  end.
Definition exact_roles (value : Value) : audit unit :=
  match value with
  | Array rows =>
      throw_if negb (len rows =? len ROLES)
               || existsb (fun pair : Value * string => negb (bool_decide (as_text pair.1 = Some pair.2))) (zip rows ROLES)
        with Error "role set differs from frozen roles"%string ;;
      Ok tt
  | _ => Err (Error "roles are not an array"%string)
  end.

(** ** Capture *)

(** [field(..)? != &Value::Unsigned(1)], negated. *)
Definition field_is (value : Value) (name : string) (expected : Value) : audit bool :=
  let? v := plan_field value name in Ok (value_eqb v expected).
Definition text_is (value : Value) (name expected : string) : audit bool :=
  let? t := plan_text value name in Ok (bool_decide (t = expected)).
(** [a || b] of two conditions with [?] inside, negated: all of them hold, in order. *)
Fixpoint all_hold (conditions : list (audit bool)) : audit bool :=
  match conditions with
  | [] => Ok true
  | condition :: conditions => let? c := condition in if c then all_hold conditions else Ok false
  end.

Record Reviewers : Type := mkReviewers {
  previous : string;
  families : gset string;
  custodians : gset string;
  reviewer_keys : gset string;
  revocations : gset string
}.
Definition check_validity (reviewer : Value) : audit unit :=
  let? from := plan_field reviewer "validFromCounter" in
  let? through := plan_field reviewer "validThroughCounter" in
  match from, through with
  | Unsigned from, Unsigned through => throw_if through <? from with Error "validity interval inverted"%string ;; Ok tt
  | _, _ => Err (Error "validity counter malformed"%string)
  end.
Definition check_mechanism (reviewer : Value) : audit unit :=
  let? mechanism := plan_text reviewer "mechanism" in
  let? algorithm := plan_text reviewer "publicKeyAlgorithm" in
  let? identities :=
    res_map (fun name => let? v := plan_field reviewer name in nullable_native_text v)
      ["issuer"; "subject"; "repository"; "workflow"]%string in
  if bool_decide (mechanism = "ed25519-service"%string) && bool_decide (algorithm = "ed25519"%string)
     && forallb (fun i : option string => bool_decide (i = None)) identities
  then Ok tt
  else if bool_decide (mechanism = "sigstore-keyless"%string) && bool_decide (algorithm = "sigstore-fulcio-ecdsa-p256"%string)
          && forallb (fun i : option string => bool_decide (is_Some i)) identities
  then Ok tt
  else Err (Error "mechanism fields disagree"%string).

(** One turn of the loop over the reviewers. *)
Definition capture_reviewer (producers validators : list string) (st : Reviewers) (reviewer : Value) : audit Reviewers :=
  let? _ := exact reviewer REVIEWER_KEYS in
  let? v := plan_field reviewer "principal" in
  let? principal := identifier v in
  throw_if negb (str_ltb (previous st) principal) with Error "reviewers are not principal-ordered"%string ;;
  let? v := plan_field reviewer "reviewerFamily" in
  let? family := identifier v in
  let? v := plan_field reviewer "custodianFamily" in
  let? custodian := identifier v in
  let? v := plan_field reviewer "publicKeyOrTrustRoot" in
  let? key := digest v in
  let? v := plan_field reviewer "revocationIdentity" in
  let? revocation := digest v in
  throw_if bool_decide (key ∈ reviewer_keys st) || bool_decide (revocation ∈ revocations st)
           || contains producers key || contains validators key
    with Error "reviewer identity duplicates or overlaps authority"%string ;;
  let? v := plan_field reviewer "allowedRoles" in
  let? _ := exact_roles v in
  let? _ := check_validity reviewer in
  let? _ := check_mechanism reviewer in
  Ok (mkReviewers principal ({[family]} ∪ families st) ({[custodian]} ∪ custodians st) ({[key]} ∪ reviewer_keys st)
        ({[revocation]} ∪ revocations st)).

Definition capture_registry (value : Value) (producers validators : list string) : audit unit :=
  let? registry := plan_field value "reviewerRegistry" in
  let? _ := exact registry REGISTRY_KEYS in
  let? ok := all_hold [text_is registry "schema" "keep.p2-d2-native-reviewer-registry";
                       field_is registry "version" (Unsigned 1)] in
  throw_if negb ok with Error "registry identity disagreed"%string ;;
  let? v := plan_field registry "registryId" in
  let? _ := identifier v in
  let? v := plan_field registry "revocationListDigest" in
  let? _ := digest v in
  let? v := plan_field registry "reviewers" in
  match v with
  | Array reviewers =>
      throw_if negb ((2 <=? len reviewers) && (len reviewers <=? 16)) with Error "reviewer count refused"%string ;;
      let? st := res_fold (capture_reviewer producers validators) reviewers (mkReviewers "" ∅ ∅ ∅ ∅) in
      throw_if (Z.of_nat (base.size (families st)) <? 2) || (Z.of_nat (base.size (custodians st)) <? 2)
        with Error "registry independence threshold failed"%string ;;
      Ok tt
  | _ => Err (Error "reviewers are not an array"%string)
  end.

Definition capture_claim (pair : Value * string) : audit unit :=
  let '(claim, role) := pair in
  let? _ := exact claim CLAIM_KEYS in
  let? ok := all_hold [text_is claim "role" role; field_is claim "minimumReviewers" (Unsigned 2);
                       field_is claim "minimumReviewerFamilies" (Unsigned 2);
                       field_is claim "minimumCustodianFamilies" (Unsigned 2)] in
  throw_if negb ok with Error "claim threshold disagreed"%string ;;
  Ok tt.
Definition capture_claims (value : Value) : audit unit :=
  let? v := plan_field value "requiredClaims" in
  match v with
  | Array claims =>
      throw_if negb (len claims =? len ROLES) with Error "claim set incomplete"%string ;;
      for_each capture_claim (zip claims ROLES)
  | _ => Err (Error "claims are not an array"%string)
  end.
(** [field(separation, name) == Ok(&Value::Bool(true))] *)
Definition enabled (separation : Value) (name : string) : bool :=
  match field separation name with Some (Bool true) => true | _ => false end.
Definition capture_separation (value : Value) : audit unit :=
  let? separation := plan_field value "separationPolicy" in
  let? _ := exact separation SEPARATION_KEYS in
  throw_if negb (forallb (enabled separation) SEPARATION_KEYS) with Error "separation invariant disabled"%string ;;
  Ok tt.

(** The checks on the decoded value. *)
Definition check_plan (value : Value) : audit unit :=
  let? _ := exact value PLAN_KEYS in
  let? ok := all_hold [text_is value "schema" "keep.p2-d2-audit-plan"; field_is value "version" (Unsigned 1);
                       text_is value "claimSchema" "keep.p2-d2-evidence/v1"] in
  throw_if negb ok with Error "plan identity disagreed"%string ;;
  let? v := plan_field value "planId" in
  let? _ := identifier v in
  let? v := plan_field value "producerKeyDigests" in
  let? producers := ordered_digests v in
  let? v := plan_field value "validatorKeyDigests" in
  let? validators := ordered_digests v in
  throw_if existsb (contains validators) producers with Error "producer/validator overlap"%string ;;
  let? _ := capture_registry value producers validators in
  let? _ := capture_claims value in
  capture_separation value.

Definition capture_audit_plan_v1 (bytes : list byte) : audit ValidatedAuditPlanV1 :=
  throw_if bool_decide (bytes = []) || (max_bytes WIRE <? len bytes) with Error "encoded bound refused"%string ;;
  let? value := map_err (fun _ => Error "canonical decode refused"%string) (decode_canonical bytes WIRE) in
  let? again := map_err (fun _ => Error "canonical re-encode refused"%string) (encode_bounded value WIRE) in
  throw_if negb (bool_decide (again = bytes)) with Error "canonical bytes disagreed"%string ;;
  let? _ := check_plan value in
  let? digest := ok_or (OneShot.sha256_hex (DOMAIN ++ bytes)) Panic in
  Ok (mkPlan bytes digest).
