(* ===== verification/AuditFacts.v ===== *)
(** * Theorems on audit plans

    An accepted plan names reviewers who are independent of each other and of the
    authorities they review. *)

From S2P Require Import Prelude Cbor CborFacts Sha256 Paths Schema SchemaFacts Native Deployment NativeFacts AuditPlan.
Import Spec Encode Steps.

(** ** Readers *)
Module Plans.

Lemma plan_field_ok v name w : plan_field v name = Ok w <-> field v name = Some w.
Proof. apply ok_or_ok. Qed.
Lemma plan_text_ok v name s : plan_text v name = Ok s -> id_at v name s.
Proof. unfold plan_text. by intros (w & Hw%plan_field_ok & ->%ok_or_ok%as_text_ok)%bind_ok. Qed.
Lemma plan_identifier_ok v s : AuditPlan.identifier v = Ok s -> v = Text s.
Proof. destruct v; try done. cbn. by intros [_ [= ->]]%guard_ok. Qed.
Lemma plan_digest_ok v s : AuditPlan.digest v = Ok s -> v = Text s.
Proof. destruct v; try done. cbn [AuditPlan.digest]. by intros [_ [= ->]]%guard_ok. Qed.

Lemma ordered_digests_ok v l :
  ordered_digests v = Ok l -> v = Array (map Text l) /\ l <> [] /\ StronglySorted (cmp_lt str_cmp) l.
Proof.
  destruct v as [| | | | |rows|]; try done. cbn [ordered_digests]. intros [Hne H]%guard_ok.
  apply bool_decide_eq_false in Hne. apply bind_ok in H as (ds & Hd%res_map_Forall2 & H). apply guard_ok in H as [Hs [= ->]].
  assert (rows = map Text l) as ->.
  { clear -Hd. induction Hd as [|row d rows l ->%plan_digest_ok Hd IH]; [done|]. cbn. by rewrite IH. }
  split_and!; [done|by intros ->|]. apply (windows2_sorted str_cmp (fun a b => negb (str_ltb a b))); [|done].
  intros x y. unfold str_ltb. destruct (str_cmp x y); cbn; split; congruence.
Qed.

Lemma all_hold_ok conditions : all_hold conditions = Ok true -> Forall (fun c => c = Ok true) conditions.
Proof.
  induction conditions as [|c l IH]; cbn [all_hold]; [constructor|]. intros ([] & Hc & H)%bind_ok; [|done].
  constructor; [done|by apply IH].
Qed.
Lemma field_is_ok v name w : field_is v name w = Ok true -> field v name = Some w.
Proof. unfold field_is. by intros (u & Hu%plan_field_ok & [= ->%value_eqb_eq])%bind_ok. Qed.
Lemma text_is_ok v name s : text_is v name s = Ok true -> id_at v name s.
Proof. unfold text_is. by intros (t & Ht%plan_text_ok & [= ->%bool_decide_eq_true])%bind_ok. Qed.

Lemma two_elements (X : gset string) : 2 <= Z.of_nat (base.size X) -> exists x y, x ∈ X /\ y ∈ X /\ x <> y.
Proof.
  intros H. destruct (set_choose_or_empty X) as [[x Hx]|E].
  2: { apply size_empty_iff in E. lia. }
  destruct (set_choose_or_empty (X ∖ {[x]})) as [[y Hy]|E].
  - apply elem_of_difference in Hy as [Hy Hn]. exists x, y. split_and!; [done|done|].
    intros ->. by apply Hn, elem_of_singleton.
  - assert (X ⊆ {[x]}) as E' by (intros y Hy; destruct (decide (y ∈ ({[x]} : gset string))); [done|]; set_solver).
    apply subseteq_size in E'. rewrite size_singleton in E'. lia.
Qed.

(** *** One reviewer *)

Record Person : Set := mkPerson { principal : string; family : string; custodian : string; key : string; revocation : string }.
(** What the row of a reviewer states of the person. *)
Record reviewer_is (producers validators : list string) (row : Value) (who : Person) : Prop := {
  says_principal : id_at row "principal" (principal who);
  says_family : id_at row "reviewerFamily" (family who);
  says_custodian : id_at row "custodianFamily" (custodian who);
  says_key : id_at row "publicKeyOrTrustRoot" (key who);
  says_revocation : id_at row "revocationIdentity" (revocation who);
  not_producer : key who ∉ producers;
  not_validator : key who ∉ validators;
  says_validity : exists from through, field row "validFromCounter" = Some (Unsigned from) /\
    field row "validThroughCounter" = Some (Unsigned through) /\ from <= through
}.

Record reviewers_inv (producers validators : list string) (seen : list Value) (st : Reviewers) (people : list Person) : Prop := {
  inv_rows : Forall2 (reviewer_is producers validators) seen people;
  inv_sorted : StronglySorted (cmp_lt str_cmp) (map principal people);
  inv_previous : Forall (fun p => p = previous st \/ str_cmp p (previous st) = Lt) (map principal people);
  inv_families : families st = list_to_set (map family people);
  inv_custodians : custodians st = list_to_set (map custodian people);
  inv_keys : reviewer_keys st = list_to_set (map key people);
  inv_revocations : revocations st = list_to_set (map revocation people);
  inv_new_keys : NoDup (map key people);
  inv_new_revocations : NoDup (map revocation people)
}.

Lemma check_validity_ok row u : check_validity row = Ok u ->
  exists from through, field row "validFromCounter" = Some (Unsigned from) /\
    field row "validThroughCounter" = Some (Unsigned through) /\ from <= through.
Proof.
  unfold check_validity. intros (f & Hf%plan_field_ok & H)%bind_ok. apply bind_ok in H as (t & Ht%plan_field_ok & H).
  destruct f as [| |n| | | |], t as [| |m| | | |]; try done. apply guard_ok in H as [H _]. apply Z.ltb_ge in H. by exists n, m.
Qed.
Lemma identifier_at row name v s : plan_field row name = Ok v -> AuditPlan.identifier v = Ok s -> id_at row name s.
Proof. by intros H%plan_field_ok ->%plan_identifier_ok. Qed.
Lemma digest_at row name v s : plan_field row name = Ok v -> AuditPlan.digest v = Ok s -> id_at row name s.
Proof. by intros H%plan_field_ok ->%plan_digest_ok. Qed.

Lemma StronglySorted_snoc {A} (R : A -> A -> Prop) l a : StronglySorted R l -> Forall (fun x => R x a) l -> StronglySorted R (l ++ [a]).
Proof.
  induction 1 as [|x l Hl IH Hx]; intros H; cbn; [repeat constructor|].
  apply Forall_cons in H as [Ha H]. constructor; [by apply IH|]. apply Forall_app. by repeat constructor.
Qed.
Lemma contains_not l s : contains l s = false -> s ∉ l.
Proof. intros H Hin%contains_spec. congruence. Qed.
Lemma set_snoc (l : list string) x : ({[x]} ∪ list_to_set l : gset string) = list_to_set (l ++ [x]).
Proof. set_solver. Qed.

Lemma reviewer_step producers validators seen st row st' people :
  reviewers_inv producers validators seen st people -> capture_reviewer producers validators st row = Ok st' ->
  exists who, reviewers_inv producers validators (seen ++ [row]) st' (people ++ [who]).
Proof.
  intros I H. unfold capture_reviewer in H. apply bind_ok in H as (_ & _ & H).
  apply bind_ok in H as (v & Hv & H). apply bind_ok in H as (p & Hp & H). pose proof (identifier_at _ _ _ _ Hv Hp) as Hprincipal.
  apply guard_ok in H as [Hlt H]. apply negb_false_iff in Hlt. unfold str_ltb in Hlt.
  assert (str_cmp (previous st) p = Lt) as Hnext by (by destruct (str_cmp (previous st) p)). clear Hlt v Hv Hp.
  apply bind_ok in H as (v & Hv & H). apply bind_ok in H as (f & Hf & H). pose proof (identifier_at _ _ _ _ Hv Hf) as Hfamily. clear v Hv Hf.
  apply bind_ok in H as (v & Hv & H). apply bind_ok in H as (c & Hc & H). pose proof (identifier_at _ _ _ _ Hv Hc) as Hcustodian. clear v Hv Hc.
  apply bind_ok in H as (v & Hv & H). apply bind_ok in H as (k & Hk & H). pose proof (digest_at _ _ _ _ Hv Hk) as Hkey. clear v Hv Hk.
  apply bind_ok in H as (v & Hv & H). apply bind_ok in H as (r & Hr & H). pose proof (digest_at _ _ _ _ Hv Hr) as Hrevocation. clear v Hv Hr.
  apply guard_ok in H as [[[[Nk Nr]%orb_false_iff Np]%orb_false_iff Nv]%orb_false_iff H].
  apply bool_decide_eq_false in Nk, Nr. apply bind_ok in H as (? & _ & H). apply bind_ok in H as (? & _ & H).
  apply bind_ok in H as (u & Hvalid%check_validity_ok & H). apply bind_ok in H as (? & _ & [= <-]).
  rewrite (inv_keys _ _ _ _ _ I), elem_of_list_to_set in Nk. rewrite (inv_revocations _ _ _ _ _ I), elem_of_list_to_set in Nr.
  exists (mkPerson p f c k r). destruct I as [Irows Isorted Iprev If Ic Ik Ir Ink Inr].
  assert (Forall (fun q => cmp_lt str_cmp q p) (map principal people)) as Hless.
  { eapply Forall_impl; [exact Iprev|]. intros q [->|Hq]; [exact Hnext|]. exact (cmp_lt_trans _ _ _ Hq Hnext). }
  split; cbn; rewrite ?map_app, ?If, ?Ic, ?Ik, ?Ir.
  - apply Forall2_snoc; [done|]. split; cbn; try done; by apply contains_not.
  - by apply StronglySorted_snoc.
  - apply Forall_app. split; [|by repeat constructor; left]. eapply Forall_impl; [exact Hless|]. intros q Hq. by right.
  - apply set_snoc.
  - apply set_snoc.
  - apply set_snoc.
  - apply set_snoc.
  - by apply NoDup_snoc.
  - by apply NoDup_snoc.
Qed.

(** *** The registry, the claims and the separation policy *)
Definition two_of (l : list string) : Prop := exists x y, x ∈ l /\ y ∈ l /\ x <> y.

Record independent (producers validators : list string) (rows : list Value) (people : list Person) : Prop := {
  people_count : 2 <= len rows <= 16;
  people_rows : Forall2 (reviewer_is producers validators) rows people;
  people_sorted : StronglySorted (cmp_lt str_cmp) (map principal people);
  people_keys : NoDup (map key people);
  people_revocations : NoDup (map revocation people);
  people_families : two_of (map family people);
  people_custodians : two_of (map custodian people)
}.

Lemma two_of_set l (X : gset string) : X = list_to_set l -> (Z.of_nat (base.size X) <? 2) = false -> two_of l.
Proof.
  intros -> H%Z.ltb_ge. apply two_elements in H as (x & y & Hx & Hy & Hne). rewrite elem_of_list_to_set in Hx.
  rewrite elem_of_list_to_set in Hy. by exists x, y.
Qed.
Lemma registry_ok value producers validators u :
  capture_registry value producers validators = Ok u ->
  exists registry rows people, field value "reviewerRegistry" = Some registry /\
    field registry "reviewers" = Some (Array rows) /\ independent producers validators rows people.
Proof.
  unfold capture_registry. intros (registry & Hr%plan_field_ok & H)%bind_ok. apply bind_ok in H as (? & _ & H).
  apply bind_ok in H as (? & _ & H). apply guard_ok in H as [_ H]. do 4 apply bind_ok in H as (? & _ & H).
  apply bind_ok in H as (v & Hv%plan_field_ok & H). destruct v as [| | | | |rows|]; try done.
  apply guard_ok in H as [Hn H]. apply bind_ok in H as (st & Hst & H). apply guard_ok in H as [[Hf Hc]%orb_false_iff _].
  apply (fold_inv _ (fun seen st => exists people, reviewers_inv producers validators seen st people)) in Hst as [people I].
  - exists registry, rows, people. split_and!; [done..|]. destruct I. split; try done.
    + apply negb_false_iff, andb_true_iff in Hn. lia.
    + by eapply two_of_set.
    + by eapply two_of_set.
  - exists []. split; cbn; try done; constructor.
  - intros seen st0 row st1 [people I] Hs. destruct (reviewer_step _ _ _ _ _ _ _ I Hs) as [who Iw]. by exists (people ++ [who]).
Qed.

Definition claim_is (row : Value) (role : string) : Prop :=
  id_at row "role" role /\
  Forall (fun name => field row name = Some (Unsigned 2))
    ["minimumReviewers"; "minimumReviewerFamilies"; "minimumCustodianFamilies"]%string.
Lemma claim_ok row role u : capture_claim (row, role) = Ok u -> claim_is row role.
Proof.
  unfold capture_claim. intros (? & _ & H)%bind_ok. apply bind_ok in H as (ok & Hok & H). apply guard_ok in H as [E _].
  apply negb_false_iff in E as ->. apply all_hold_ok in Hok. apply Forall_cons in Hok as [Hrole%text_is_ok Hok].
  split; [done|]. repeat (apply Forall_cons in Hok as [?%field_is_ok Hok]). by repeat constructor.
Qed.
Lemma claims_ok value u : capture_claims value = Ok u ->
  exists rows, field value "requiredClaims" = Some (Array rows) /\ Forall2 claim_is rows ROLES.
Proof.
  unfold capture_claims. intros (v & Hv%plan_field_ok & H)%bind_ok. destruct v as [| | | | |rows|]; try done.
  apply guard_ok in H as [Hn H]. exists rows. split; [done|]. apply negb_false_iff, Z.eqb_eq in Hn. apply Nat2Z.inj in Hn.
  apply Forall2_same_length_lookup_2; [done|]. intros i row role Hi Hj. destruct u.
  rewrite for_each_ok, Forall_forall in H. apply (claim_ok row role tt), H, (list_elem_of_lookup_2 _ i).
  rewrite lookup_zip_with, Hi; cbn. by rewrite Hj.
Qed.
Lemma separation_ok value u : capture_separation value = Ok u ->
  exists v, field value "separationPolicy" = Some v /\ Forall (fun name => field v name = Some (Bool true)) SEPARATION_KEYS.
Proof.
  unfold capture_separation. intros (v & Hv%plan_field_ok & H)%bind_ok. apply bind_ok in H as (? & _ & H).
  apply guard_ok in H as [Hs%negb_false_iff _]. exists v. split; [done|]. apply Forall_forall. intros name Hn.
  rewrite forallb_forall in Hs. specialize (Hs name). unfold enabled in Hs.
  destruct (field v name) as [[| [] | | | | |]|]; try done; by discriminate Hs; apply list_elem_of_In.
Qed.
End Plans.
Import Plans.

(** ** The plan *)
Record independent_plan (value : Value) : Prop := {
  plan_authorities : exists producers validators registry rows people,
    field value "producerKeyDigests" = Some (Array (map Text producers)) /\
    field value "validatorKeyDigests" = Some (Array (map Text validators)) /\
    StronglySorted (cmp_lt str_cmp) producers /\ StronglySorted (cmp_lt str_cmp) validators /\
    producers <> [] /\ validators <> [] /\ (forall d, d ∈ producers -> d ∉ validators) /\
    field value "reviewerRegistry" = Some registry /\ field registry "reviewers" = Some (Array rows) /\
    independent producers validators rows people;
  plan_claims : exists rows, field value "requiredClaims" = Some (Array rows) /\ Forall2 claim_is rows ROLES;
  plan_separation : exists v, field value "separationPolicy" = Some v /\
    Forall (fun name => field v name = Some (Bool true)) SEPARATION_KEYS
}.
Lemma check_plan_ok value u : check_plan value = Ok u -> independent_plan value.
Proof.
  unfold check_plan. intros (? & _ & H)%bind_ok. apply bind_ok in H as (? & _ & H). apply guard_ok in H as [_ H].
  do 2 apply bind_ok in H as (? & _ & H).
  apply bind_ok in H as (v & Hp%plan_field_ok & H). apply bind_ok in H as (producers & (-> & Np & Sp)%ordered_digests_ok & H).
  apply bind_ok in H as (v & Hv%plan_field_ok & H). apply bind_ok in H as (validators & (-> & Nv & Sv)%ordered_digests_ok & H).
  apply guard_ok in H as [Hd H]. apply bind_ok in H as (? & (registry & rows & people & Hr & Hrows & I)%registry_ok & H).
  apply bind_ok in H as (? & Hc%claims_ok & Hs%separation_ok). split; [|done|done].
  exists producers, validators, registry, rows, people. split_and!; try done.
  intros d Hin Hin'%contains_spec. assert (existsb (contains validators) producers = true); [|congruence].
  apply existsb_exists. exists d. by rewrite <- list_elem_of_In.
Qed.

(** C34. An accepted audit plan keeps its reviewers independent: the bytes are the
    canonical encoding of the plan and the digest is the SHA-256 of the domain and
    those bytes; producers and validators are disjoint, strictly ordered sets; the 2
    to 16 reviewers have strictly ordered principals, distinct keys and revocation
    identities, no key of a producer or validator, valid intervals, and between them
    two families and two custodians; the five claims ask for two of each; every
    separation flag is set. *)
Theorem audit_plan_independent bytes plan :
  capture_audit_plan_v1 bytes = Ok plan ->
  plan_canonical_bytes plan = bytes /\ OneShot.sha256_hex (DOMAIN ++ bytes) = Some (audit_plan_digest plan) /\
  exists value, canonical value = true /\ encode_bounded value WIRE = Ok bytes /\ independent_plan value.
Proof.
  unfold capture_audit_plan_v1. intros [_ H]%guard_ok. apply bind_ok in H as (value & Hv%map_err_ok & H).
  apply bind_ok in H as (again & _ & H). apply guard_ok in H as [_ H]. apply bind_ok in H as (? & Hc%check_plan_ok & H).
  apply bind_ok in H as (d & Hd%ok_or_ok & [= <-]). cbn. split_and!; [done|done|].
  apply decode_canonical_spec in Hv as [Hcan He]; [|done]. by exists value.
Qed.

(** *** A plan of two reviewers *)
Module Sample.
Definition digest_of (c : string) : Value := Text (String.concat "" (repeat c 64)).
Definition reviewer (name mechanism algorithm key revocation : string) (identity : Value) : Value :=
  Map [("principal", Text name); ("reviewerFamily", Text ("family/" +:+ name)); ("custodianFamily", Text ("host/" +:+ name));
       ("mechanism", Text mechanism); ("publicKeyAlgorithm", Text algorithm); ("publicKeyOrTrustRoot", digest_of key);
       ("issuer", identity); ("subject", identity); ("repository", identity); ("workflow", identity);
       ("allowedRoles", Array (map Text ROLES)); ("validFromCounter", Unsigned 1); ("validThroughCounter", Unsigned 9);
       ("revocationIdentity", digest_of revocation)]%string.
Definition claim (role : string) : Value :=
  Map [("role", Text role); ("minimumReviewers", Unsigned 2); ("minimumReviewerFamilies", Unsigned 2);
       ("minimumCustodianFamilies", Unsigned 2)]%string.
Definition plan : Value :=
  Map [("schema", Text "keep.p2-d2-audit-plan"); ("version", Unsigned 1); ("planId", Text "plan/1");
       ("claimSchema", Text "keep.p2-d2-evidence/v1");
       ("reviewerRegistry",
         Map [("schema", Text "keep.p2-d2-native-reviewer-registry"); ("version", Unsigned 1); ("registryId", Text "registry/1");
              ("revocationListDigest", digest_of "9");
              ("reviewers", Array [reviewer "alice" "ed25519-service" "ed25519" "a" "c" Null;
                                   reviewer "bob" "sigstore-keyless" "sigstore-fulcio-ecdsa-p256" "b" "d" (Text "bob")])]);
       ("producerKeyDigests", Array [digest_of "1"; digest_of "2"]); ("validatorKeyDigests", Array [digest_of "3"]);
       ("requiredClaims", Array (map claim ROLES));
       ("separationPolicy", Map (map (fun name => (name, Bool true)) SEPARATION_KEYS))]%string.
Definition bytes : list byte := match encode_bounded plan WIRE with Ok bytes => bytes | Err _ => [] end.
End Sample.

Lemma audit_plan_independent_witness :
  exists plan, capture_audit_plan_v1 Sample.bytes = Ok plan /\
    OneShot.sha256_hex (DOMAIN ++ Sample.bytes) = Some (audit_plan_digest plan).
Proof.
  assert (match capture_audit_plan_v1 Sample.bytes with Ok _ => true | Err _ => false end = true) as H by (vm_compute; reflexivity).
  destruct (capture_audit_plan_v1 Sample.bytes) as [plan|] eqn:E; [|discriminate H].
  exists plan. split; [reflexivity|]. destruct (audit_plan_independent _ _ E) as (_ & Hd & _). exact Hd.
Defined.
