(* ===== verification/GuestResult.v ===== *)
(** * The result of a guest ([prober-launcher/src/lib.rs])

    The frame a guest writes on its serial console: a header line with a nonce,
    lengths, digests and a MAC, the two outputs, an end marker.  A refusal is the
    code's [CandidateRefusal]; [Panic] is a failing [expect] or slice. *)

From S2P Require Import Prelude Cbor Sha256 Paths Schema Numbers.

Definition MAXIMUM_OUTPUT_BYTES : Z := 1024 * 1024.

Inductive CandidateRefusal : Set :=
| InvalidAttemptId | DeadlineOutOfRange | DeadlineExpired | CgroupValueMalformed | CgroupLimitMismatch
| CgroupStillPopulated | CgroupHasDescendants | OutputLimitExceeded | DirectProcessFailed | GuestResultMalformed
| GuestResultHeaderInvalid | GuestResultTruncated | GuestResultDigestMismatch | GuestResultAmbiguous
| GuestResultNonceInvalid | GuestResultEnvelopeTooLarge | GuestResultHeaderAbsent | GuestResultHeaderDuplicate
| GuestResultPreambleTooLarge | GuestResultDecimalInvalid | GuestResultUtf8Invalid | GuestResultAuthenticationFailed.
Abbreviation candidate A := (result (failure CandidateRefusal) A).

Record CandidateGuestResult : Set := mkGuestResult {
  attempt_nonce : string;
  exit_code : Z;
  stdout : string;
  stderr : string;
  stdout_sha256 : string;
  stderr_sha256 : string
}.

(** ** Text *)

Definition bytes_hex (bytes : list byte) : string := hex bytes.
Definition lowercase_hex (value : string) (length : Z) : bool :=
  (slen value =? length) && forallb lower_hex (str_bytes value).
Definition starts_with_zero (bs : list byte) : bool := match bs with x30 :: _ => true | _ => false end.
Definition exact_decimal (value : string) (maximum : Z) : candidate Z :=
  let bytes := str_bytes value in
  throw_if bool_decide (value = ""%string) || ((1 <? slen value) && starts_with_zero bytes) || (10 <? slen value)
           || existsb (fun b => negb (is_digit b)) bytes
    with Error GuestResultDecimalInvalid ;;
  match parse_u64 value with
  | Some number => if number <=? maximum then Ok number else Err (Error GuestResultDecimalInvalid)
  | None => Err (Error GuestResultDecimalInvalid)
  end.
Definition hex_digest (bytes : list byte) : candidate string := ok_or (OneShot.sha256_hex bytes) Panic.

Definition nibble (b : byte) : Z :=
  if is_digit b then bZ b - 48 else if (97 <=? bZ b) && (bZ b <=? 102) then bZ b - 97 + 10 else 0.
Fixpoint decode_pairs (bs : list byte) : list byte :=
  match bs with
  | a :: b :: bs => byte_of_Z (Z.lor (Z.shiftl (nibble a) 4) (nibble b)) :: decode_pairs bs
  | _ => []
  end.
Definition decode_hex_32 (value : string) : candidate (list byte) :=
  throw_if negb (lowercase_hex value 64) with Error GuestResultHeaderInvalid ;;
  Ok (decode_pairs (str_bytes value)).

(** ** Authentication *)

Definition byte_xor (a b : byte) : byte := byte_of_Z (Z.lxor (bZ a) (bZ b)).
(** [for (index, byte) in key.iter().enumerate() { pad[index] ^= byte; }] *)
Definition xor_into (pad key : list byte) : list byte := zip_with byte_xor pad key ++ drop (length key) pad.
Definition IPAD : list byte := repeat x36 64.
Definition OPAD : list byte := repeat x5c 64.
Definition hmac_sha256 (key : list byte) (messages : list (list byte)) : option (list byte) :=
  inner_digest ← OneShot.sha256 (xor_into IPAD key ++ concat messages);
  OneShot.sha256 (xor_into OPAD key ++ inner_digest).
Definition constant_time_equal (left right : list byte) : bool :=
  fold_left (fun difference (p : byte * byte) => Z.lor difference (Z.lxor (bZ p.1) (bZ p.2))) (zip left right) 0 =? 0.

(** ** Identities *)

(** [CandidateAttemptId]: the text it wraps. *)
Definition CandidateAttemptId : Set := string.
Definition from_nonce_hex (nonce : string) : candidate CandidateAttemptId :=
  throw_if negb (slen nonce =? 32) || negb (forallb lower_hex (str_bytes nonce)) with Error InvalidAttemptId ;;
  Ok ("keep-" +:+ nonce)%string.

Record CandidateFixtureSecrets : Set := mkSecrets {
  attempt_id : CandidateAttemptId;
  result_nonce : string;
  authentication_key : list byte;
  authentication_ipad : list byte;
  authentication_opad : list byte
}.
(** [random] is what [fill_random] returns: 64 bytes, or an error of the kernel. *)
Definition mint_candidate_fixture_secrets {E : Type} (malformed : E) (random : result E (list byte)) :
    result E CandidateFixtureSecrets :=
  let? random := random in
  let? attempt := map_err (fun _ => malformed) (from_nonce_hex (bytes_hex (take 16 random))) in
  let key := drop 32 random in
  Ok (mkSecrets attempt (bytes_hex (take 16 (drop 16 random))) key (xor_into IPAD key) (xor_into OPAD key)).

(** ** The frame *)

Definition HEADER : list byte := str_bytes "KEEP_RESULT_V1 ".
Definition END : list byte := str_bytes "KEEP_RESULT_END_V1".
Definition MAXIMUM_PREAMBLE : Z := 256 * 1024.
Definition MAXIMUM_POSTAMBLE : Z := 64 * 1024.
Definition MAXIMUM_ENVELOPE : Z := 2 * 1024 * 1024 + 4096.
Definition MAC_DOMAIN : list byte := str_bytes "keep.microvm-result-auth/v1" ++ [x00].

Definition starts_at (needle l : list byte) : bool :=
  match strip_prefix_bytes needle l with Some _ => true | None => false end.
(** The indices at which [windows(needle.len())] yields [needle], from [index] on. *)
Fixpoint occurrences (needle l : list byte) (index : Z) : list Z :=
  match l with
  | [] => []
  | _ :: l' => if starts_at needle l then index :: occurrences needle l' (index + 1) else occurrences needle l' (index + 1)
  end.
Definition has_window (needle l : list byte) : bool := negb (bool_decide (occurrences needle l 0 = [])).
(** [iter().position(|byte| byte == b)] *)
Fixpoint position (b : byte) (l : list byte) (index : Z) : option Z :=
  match l with
  | [] => None
  | a :: l => if bool_decide (a = b) then Some index else position b l (index + 1)
  end.
(** [&bytes[a..b]] *)
Definition slice (bytes : list byte) (a b : Z) : candidate (list byte) := ok_or (get_range bytes a b) Panic.

Definition needle_of (nonce : string) : list byte := HEADER ++ str_bytes nonce ++ [x20].
Definition end_of (nonce : string) : list byte := x0a :: END ++ x20 :: str_bytes nonce ++ [x0a].

(** The start of the only header, and the end of its line. *)
Definition find_header (serial : list byte) (nonce : string) : candidate (Z * Z) :=
  match occurrences (needle_of nonce) serial 0 with
  | [] => Err (Error GuestResultHeaderAbsent)
  | _ :: _ :: _ => Err (Error GuestResultHeaderDuplicate)
  | [start] =>
      throw_if MAXIMUM_PREAMBLE <? start with Error GuestResultPreambleTooLarge ;;
      match position x0a (drop (Z.to_nat start) serial) start with
      | Some line_end =>
          throw_if 512 <? line_end - start with Error GuestResultHeaderInvalid ;;
          Ok (start, line_end)
      | None => Err (Error GuestResultHeaderInvalid)
      end
  end.

Record Header : Set := mkHeader {
  header_exit_code : Z;
  stdout_length : Z;
  stderr_length : Z;
  header_stdout_sha256 : string;
  header_stderr_sha256 : string;
  supplied_mac : list byte
}.
Definition parse_header (line : list byte) (nonce : string) : candidate Header :=
  throw_if negb (utf8_valid line) with Error GuestResultUtf8Invalid ;;
  match split x20 (str_of_bytes line) with
  | [f0; f1; f2; f3; f4; f5; f6; f7] =>
      throw_if negb (bool_decide (f0 = "KEEP_RESULT_V1"%string)) || negb (bool_decide (f1 = nonce))
        with Error GuestResultHeaderInvalid ;;
      let? exit_code := exact_decimal f2 255 in
      let? stdout_length := exact_decimal f3 MAXIMUM_OUTPUT_BYTES in
      let? stderr_length := exact_decimal f4 MAXIMUM_OUTPUT_BYTES in
      throw_if negb (lowercase_hex f5 64) || negb (lowercase_hex f6 64) with Error GuestResultHeaderInvalid ;;
      let? mac := decode_hex_32 f7 in
      Ok (mkHeader exit_code stdout_length stderr_length f5 f6 mac)
  | _ => Err (Error GuestResultHeaderInvalid)
  end.

(** [format!("KEEP_RESULT_V1 {nonce} {exit_code} {stdout_length} {stderr_length} {} {}\n", ..)] *)
Definition header_fields (nonce : string) (h : Header) : list (list byte) :=
  [str_bytes "KEEP_RESULT_V1"; str_bytes nonce; decimal (header_exit_code h); decimal (stdout_length h);
   decimal (stderr_length h); str_bytes (header_stdout_sha256 h); str_bytes (header_stderr_sha256 h)].
Definition unsigned_header (nonce : string) (h : Header) : list byte := join_bytes x20 (header_fields nonce h) ++ [x0a].

(** The digests and the MAC of the two outputs. *)
Definition authenticate (nonce : string) (key : list byte) (h : Header) (stdout stderr : list byte) : candidate unit :=
  let? out := hex_digest stdout in
  let? err := if bool_decide (out = header_stdout_sha256 h) then hex_digest stderr else Ok ""%string in
  throw_if negb (bool_decide (out = header_stdout_sha256 h)) || negb (bool_decide (err = header_stderr_sha256 h))
    with Error GuestResultDigestMismatch ;;
  let? expected_mac :=
    ok_or (hmac_sha256 key [MAC_DOMAIN; unsigned_header nonce h; stdout; stderr; end_of nonce]) Panic in
  throw_if negb (constant_time_equal (supplied_mac h) expected_mac) with Error GuestResultAuthenticationFailed ;;
  Ok tt.

Definition parse_candidate_guest_result (serial : list byte) (nonce : string) (key : list byte) :
    candidate CandidateGuestResult :=
  throw_if negb (lowercase_hex nonce 32) with Error GuestResultNonceInvalid ;;
  throw_if MAXIMUM_PREAMBLE + MAXIMUM_ENVELOPE + MAXIMUM_POSTAMBLE <? len serial
    with Error GuestResultEnvelopeTooLarge ;;
  let? (start, line_end) := find_header serial nonce in
  let? line := slice serial start line_end in
  let? h := parse_header line nonce in
  let payload_start := line_end + 1 in
  let? middle := ok_or (checked_add payload_start (stdout_length h)) (Error GuestResultTruncated) in
  let? payload_end := ok_or (checked_add middle (stderr_length h)) (Error GuestResultTruncated) in
  let end_text := end_of nonce in
  throw_if (len serial <? payload_end + len end_text) || (MAXIMUM_ENVELOPE <? payload_end + len end_text - start)
    with Error GuestResultTruncated ;;
  let? actual_end := slice serial payload_end (payload_end + len end_text) in
  throw_if negb (bool_decide (actual_end = end_text)) with Error GuestResultTruncated ;;
  let? stdout := slice serial payload_start (payload_start + stdout_length h) in
  let? stderr := slice serial (payload_start + stdout_length h) payload_end in
  let? _ := authenticate nonce key h stdout stderr in
  let postamble := drop (Z.to_nat (payload_end + len end_text)) serial in
  throw_if (MAXIMUM_POSTAMBLE <? len postamble) || has_window HEADER postamble || has_window END postamble
    with Error GuestResultAmbiguous ;;
  throw_if negb (utf8_valid stdout) with Error GuestResultUtf8Invalid ;;
  throw_if negb (utf8_valid stderr) with Error GuestResultUtf8Invalid ;;
  Ok (mkGuestResult nonce (header_exit_code h) (str_of_bytes stdout) (str_of_bytes stderr)
        (header_stdout_sha256 h) (header_stderr_sha256 h)).
