(* ===== verification/GuestResultFacts.v ===== *)
(** * Theorems on guest results

    [Texts]: decimals, digests and the comparison of MACs.  [Search]: windows and
    slices.  The frame parser accepts exactly the authenticated envelopes, and the
    secrets handed to a guest are those the parser checks with. *)

From S2P Require Import Prelude Cbor CborFacts Sha256 Paths TextFacts Schema Numbers GuestResult.

(** ** Texts *)
Module Texts.

Lemma lowercase_hex_ok s n : lowercase_hex s n = true <-> slen s = n /\ Forall (fun b => lower_hex b = true) (str_bytes s).
Proof. unfold lowercase_hex. by rewrite andb_true_iff, Z.eqb_eq, forallb_Forall'. Qed.

Lemma exact_decimal_ok s maximum n : 0 <= maximum < 10 ^ 10 ->
  exact_decimal s maximum = Ok n <-> 0 <= n <= maximum /\ s = str_of_bytes (decimal n).
Proof.
  intros Hmax. unfold exact_decimal. rewrite guard_ok. split.
  - intros [H Hp]. apply orb_false_iff in H as [[[_ Hz]%orb_false_iff _]%orb_false_iff Hd].
    destruct (parse_u64 s) as [k|] eqn:E; [|done]. destruct (Z.leb_spec k maximum); [|done]. injection Hp as <-.
    pose proof (parse_range _ _ E). split; [lia|]. apply parse_canonical; [| |done].
    + apply Forall_forall. intros b Hb. apply digit_rangeP. apply negb_false_iff. destruct (negb _) eqn:Eb; [|done].
      exfalso. rewrite <- not_true_iff_false in Hd. apply Hd, existsb_exists. exists b. by rewrite <- list_elem_of_In.
    + intros bs Hbs. apply andb_false_iff in Hz as [Hz|Hz].
      * unfold slen in Hz. rewrite Hbs, len_cons in Hz. bool_to_prop. destruct bs; [done|]. rewrite len_cons in Hz. pose proof (len_nonneg bs). lia.
      * by rewrite Hbs in Hz.
  - intros [Hn ->]. rewrite parse_decimal by (unfold u64_max; lia). rewrite (proj2 (Z.leb_le _ _)) by lia. split; [|done].
    assert (0 <= n <= u64_max) as Hu by (unfold u64_max; lia). unfold slen. rewrite str_bytes_of_bytes.
    destruct (decimal_cons n) as (b & bs & E & Hb); [lia|]. rewrite bool_decide_false; cbn [orb].
    2: { intros Hs. apply (f_equal str_bytes) in Hs. rewrite str_bytes_of_bytes, E in Hs. done. }
    rewrite (proj2 (Z.ltb_ge 10 _)), orb_false_r.
    + apply orb_false_iff. split.
      * apply andb_false_iff. destruct (starts_with_zero (decimal n)) eqn:Ez; [left|by right].
        destruct (decimal n) as [|[] bs'] eqn:En; try done. by rewrite (decimal_no_leading_zero n Hu _ En).
      * apply not_true_iff_false. intros (c & Hc & Hx)%existsb_exists. apply list_elem_of_In in Hc.
        pose proof (decimal_are n ltac:(lia)) as Ha. rewrite Forall_forall in Ha. apply Ha, digit_rangeP in Hc. by rewrite Hc in Hx.
    + pose proof (decimal_length 10 n). unfold len. lia.
Qed.

(** *** Hexadecimal digests *)
Lemma nibble_digit n : 0 <= n < 16 -> nibble (hex_digit n) = n.
Proof.
  intros H. assert (Forall (fun k => nibble (hex_digit (Z.of_nat k)) = Z.of_nat k) (seq 0 16)) as Ha by (by repeat constructor).
  rewrite Forall_forall in Ha. specialize (Ha (Z.to_nat n)). rewrite Z2Nat.id in Ha by lia. apply Ha, elem_of_seq. lia.
Qed.
Lemma digit_nibble b : lower_hex b = true -> hex_digit (nibble b) = b /\ 0 <= nibble b < 16.
Proof. destruct b; (discriminate || (intros _; split; [reflexivity|by vm_compute])). Qed.
Lemma nibbles a b : 0 <= a < 16 -> 0 <= b < 16 -> Z.lor (Z.shiftl a 4) b = 16 * a + b.
Proof.
  intros Ha Hb. assert (Forall (fun i => Forall (fun j => Z.lor (Z.shiftl (Z.of_nat i) 4) (Z.of_nat j) = 16 * Z.of_nat i + Z.of_nat j)
    (seq 0 16)) (seq 0 16)) as H by (by repeat constructor).
  rewrite Forall_forall in H. specialize (H (Z.to_nat a)). rewrite Forall_forall in H.
  setoid_rewrite elem_of_seq in H. specialize (H ltac:(lia) (Z.to_nat b)). rewrite !Z2Nat.id in H by lia. apply H. lia.
Qed.
Lemma decode_hex bs : decode_pairs (hex_bytes bs) = bs.
Proof.
  induction bs as [|b bs IH]; [done|]. cbn [hex_bytes flat_map app decode_pairs]. fold (hex_bytes bs). pose proof (bZ_range b).
  rewrite !nibble_digit, nibbles, IH by zmod. replace (16 * (bZ b / 16) + bZ b mod 16) with (bZ b) by zmod. by rewrite byte_of_bZ.
Qed.
Lemma hex_decode n bs : length bs = (2 * n)%nat -> Forall (fun b => lower_hex b = true) bs -> hex_bytes (decode_pairs bs) = bs.
Proof.
  revert bs. induction n as [|n IH]; intros bs Hl H; [by destruct bs|]. destruct bs as [|a [|b bs]]; [done|cbn in Hl; lia|].
  apply Forall_cons in H as [[Ea Ha]%digit_nibble H]. apply Forall_cons in H as [[Eb Hb]%digit_nibble H].
  cbn [decode_pairs hex_bytes flat_map app]. fold (hex_bytes (decode_pairs bs)). rewrite IH; [|cbn in Hl; lia|done].
  rewrite nibbles, bZ_byte_of, (Z.mod_small (16 * nibble a + nibble b)) by lia.
  replace ((16 * nibble a + nibble b) / 16) with (nibble a) by zmod.
  replace ((16 * nibble a + nibble b) mod 16) with (nibble b) by zmod. by rewrite Ea, Eb.
Qed.
Lemma decode_hex_32_ok s mac : decode_hex_32 s = Ok mac <-> len mac = 32 /\ s = hex mac.
Proof.
  unfold decode_hex_32. rewrite guard_ok, negb_false_iff, lowercase_hex_ok. split.
  - intros [[Hl Hh] [= <-]]. assert (hex_bytes (decode_pairs (str_bytes s)) = str_bytes s) as E.
    { apply (hex_decode 32); [|done]. unfold slen, len in Hl. lia. }
    assert (s = hex (decode_pairs (str_bytes s))) as Es by (unfold hex; by rewrite E, str_of_str_bytes).
    split; [|exact Es]. rewrite Es, hex_length in Hl. lia.
  - intros [Hl ->]. rewrite hex_length. unfold hex. rewrite str_bytes_of_bytes, decode_hex. split_and!; [lia|apply hex_lower|done].
Qed.

(** *** Comparison in constant time *)
Lemma lor_zero a b : Z.lor a b = 0 <-> a = 0 /\ b = 0.
Proof. apply Z.lor_eq_0_iff. Qed.
Lemma differences l d : fold_left (fun d (p : byte * byte) => Z.lor d (Z.lxor (bZ p.1) (bZ p.2))) l d = 0 <->
  d = 0 /\ Forall (fun p : byte * byte => p.1 = p.2) l.
Proof.
  revert d. induction l as [|[a b] l IH]; intros d; cbn [fold_left]; [by split; [intros ->; split; [|constructor]|intros [-> _]]|].
  rewrite IH, lor_zero, Forall_cons. cbn. rewrite Z.lxor_eq_0_iff. split.
  - intros [[-> E%bZ_inj] H]. by split_and!.
  - intros (-> & -> & H). by split_and!.
Qed.
Lemma constant_time_equal_ok l r : length l = length r -> constant_time_equal l r = true <-> l = r.
Proof.
  intros Hl. unfold constant_time_equal. rewrite Z.eqb_eq, differences. split; [|intros ->; split; [done|]].
  - intros [_ H]. revert r Hl H. induction l as [|a l IH]; intros [|b r] Hl H; try done. cbn in H.
    apply Forall_cons in H as [E H]. cbn in E. subst b. f_equal. apply IH; [by injection Hl|done].
  - induction r as [|b r IH]; cbn; [constructor|]. constructor; [done|]. by apply IH.
Qed.
End Texts.
Import Texts.

(** ** Windows and slices *)
Module Search.

Lemma starts_at_spec needle l : starts_at needle l = true <-> exists q, l = needle ++ q.
Proof.
  unfold starts_at. pose proof (strip_prefix_bytes_spec needle l) as H. destruct (strip_prefix_bytes needle l) as [q|].
  - split; [|done]. intros _. exists q. by apply H.
  - split; [done|]. intros [q Hq]. by apply H in Hq.
Qed.
Lemma occurrences_spec needle l index i : needle <> [] ->
  i ∈ occurrences needle l index <-> exists p q, l = p ++ needle ++ q /\ i = index + len p.
Proof.
  intros Hne. revert index. induction l as [|a l IH]; intros index.
  - cbn. split; [by intros ?%not_elem_of_nil|]. intros (p & q & E & _). by destruct p, needle.
  - cbn [occurrences]. assert (i ∈ occurrences needle l (index + 1) <->
      exists p q, a :: l = (a :: p) ++ needle ++ q /\ i = index + len (a :: p)) as IH'.
    { rewrite IH. split; intros (p & q & E & ->); exists p, q; rewrite len_cons; (split; [|lia]); [by rewrite E|by injection E]. }
    destruct (starts_at needle (a :: l)) eqn:Es.
    + rewrite elem_of_cons, IH'. apply starts_at_spec in Es as [q0 Eq]. split.
      * intros [->|(p & q & E & ->)]; [exists [], q0; split; [done|change (len []) with 0; lia]|by exists (a :: p), q].
      * intros ([|b p] & q & E & ->); [left; change (len []) with 0; lia|right]. exists p, q. by injection E as -> ->.
    + rewrite IH'. split; [intros (p & q & E & ->); by exists (a :: p), q|].
      intros ([|b p] & q & E & ->); [|exists p, q; by injection E as -> ->].
      rewrite <- not_true_iff_false, starts_at_spec in Es. destruct Es. by exists q.
Qed.
Lemma occurrences_lower needle l index i : i ∈ occurrences needle l index -> index <= i.
Proof.
  revert index. induction l as [|a l IH]; intros index; cbn [occurrences]; [by intros ?%not_elem_of_nil|].
  destruct (starts_at needle (a :: l)); [intros [->|H]%elem_of_cons; [lia|]|intros H]; apply IH in H; lia.
Qed.
Lemma occurrences_nodup needle l index : NoDup (occurrences needle l index).
Proof.
  revert index. induction l as [|a l IH]; intros index; cbn [occurrences]; [constructor|].
  destruct (starts_at needle (a :: l)); [|done]. constructor; [|done]. intros H%occurrences_lower. lia.
Qed.
(** [needle] occurs in [l], and only after [pre]. *)
Definition sole (needle pre l : list byte) : Prop :=
  (exists q, l = pre ++ needle ++ q) /\ forall p q, l = p ++ needle ++ q -> p = pre.
Definition absent (needle l : list byte) : Prop := forall p q, l <> p ++ needle ++ q.

Lemma has_window_ok needle l : needle <> [] -> has_window needle l = false <-> absent needle l.
Proof.
  intros Hne. unfold has_window, absent. rewrite negb_false_iff, bool_decide_eq_true. split.
  - intros E p q Hl. assert (len p ∈ occurrences needle l 0) as H by (apply occurrences_spec; [done|]; by exists p, q).
    rewrite E in H. by apply not_elem_of_nil in H.
  - intros H. destruct (occurrences needle l 0) as [|i rest] eqn:E; [done|].
    assert (i ∈ occurrences needle l 0) as Hi by (rewrite E; by left). apply occurrences_spec in Hi as (p & q & Hl & _); [|done].
    by apply H in Hl.
Qed.
Lemma prefix_of_length {A} (p q p' q' : list A) : p ++ q = p' ++ q' -> len p = len p' -> p = p' /\ q = q'.
Proof. intros H Hl. apply app_inj_1 in H; [done|]. unfold len in Hl. lia. Qed.
Lemma occurrences_sole needle l i : needle <> [] ->
  occurrences needle l 0 = [i] <-> exists pre, len pre = i /\ sole needle pre l.
Proof.
  intros Hne. split.
  - intros E. assert (i ∈ occurrences needle l 0) as Hi by (rewrite E; by left).
    apply occurrences_spec in Hi as (pre & q & Hl & Hi); [|done]. exists pre. split; [lia|]. split; [by exists q|].
    intros p q' Hl'. assert (len p ∈ occurrences needle l 0) as Hp by (apply occurrences_spec; [done|]; by exists p, q').
    rewrite E in Hp. apply list_elem_of_singleton in Hp. rewrite Hl in Hl'. apply prefix_of_length in Hl' as [Hpp _]; [done|lia].
  - intros (pre & Hpre & [q Hq] & Hu). assert (i ∈ occurrences needle l 0) as Hi by (apply occurrences_spec; [done|]; by exists pre, q).
    pose proof (occurrences_nodup needle l 0) as Hnd.
    assert (forall j, j ∈ occurrences needle l 0 -> j = i) as Hall.
    { intros j Hj. apply occurrences_spec in Hj as (p & q' & Hl & ->); [|done]. apply Hu in Hl as ->. lia. }
    destruct (occurrences needle l 0) as [|j [|k rest]]; [by apply not_elem_of_nil in Hi| |].
    + f_equal. apply Hall. by left.
    + exfalso. assert (j = i) by (apply Hall; by left). assert (k = i) by (apply Hall; right; by left). subst.
      apply NoDup_cons in Hnd as [Hn _]. apply Hn. by left.
Qed.

Lemma position_ok b l index i :
  position b l index = Some i <-> exists p q, l = p ++ b :: q /\ Forall (fun a => a <> b) p /\ i = index + len p.
Proof.
  revert index. induction l as [|a l IH]; intros index; cbn [position].
  - split; [done|]. intros (p & q & E & _). by destruct p.
  - case_bool_decide as Hab.
    + subst a. split.
      * intros [= <-]. exists [], l. split_and!; [done|constructor|change (len []) with 0; lia].
      * intros ([|c p] & q & E & Hp & ->); [change (len []) with 0; f_equal; lia|]. injection E as <- _. by apply Forall_cons in Hp as [? _].
    + rewrite IH. split.
      * intros (p & q & -> & Hp & ->). exists (a :: p), q. rewrite len_cons. split_and!; [done|by constructor|lia].
      * intros ([|c p] & q & E & Hp & ->); [by injection E|]. injection E as <- ->. apply Forall_cons in Hp as [_ Hp].
        exists p, q. rewrite len_cons. split_and!; [done|done|lia].
Qed.

(** A slice that starts where the bytes before it end. *)
Lemma slice_ok p q b s : slice (p ++ q) (len p) b = Ok s -> len s = b - len p /\ exists r, q = s ++ r.
Proof.
  unfold slice. intros H%ok_or_ok. pose proof (get_range_length _ _ _ _ H). split; [done|]. apply get_range_Some in H as (_ & _ & ->).
  exists (drop (Z.to_nat (b - len p)) q).
  replace (Z.to_nat (len p)) with (length p) by (unfold len; lia). by rewrite drop_app_length, take_drop.
Qed.
Lemma slice_here p s q : slice (p ++ s ++ q) (len p) (len p + len s) = Ok s.
Proof.
  unfold slice. rewrite (get_range_prefix _ (len p) s q); [done|apply len_nonneg| |rewrite !len_app; pose proof (len_nonneg s); pose proof (len_nonneg q); lia].
  replace (Z.to_nat (len p)) with (length p) by (unfold len; lia). by rewrite drop_app_length.
Qed.
Lemma drop_len {A} (p q : list A) n : n = len p -> drop (Z.to_nat n) (p ++ q) = q.
Proof. intros ->. replace (Z.to_nat (len p)) with (length p) by (unfold len; lia). apply drop_app_length. Qed.
End Search.
Import Search.

(** ** The header line *)
Module Line.

Record header_ok (h : Header) : Prop := {
  ok_exit_code : 0 <= header_exit_code h <= 255;
  ok_stdout_length : 0 <= stdout_length h <= MAXIMUM_OUTPUT_BYTES;
  ok_stderr_length : 0 <= stderr_length h <= MAXIMUM_OUTPUT_BYTES;
  ok_stdout_sha256 : lowercase_hex (header_stdout_sha256 h) 64 = true;
  ok_stderr_sha256 : lowercase_hex (header_stderr_sha256 h) 64 = true;
  ok_mac : len (supplied_mac h) = 32
}.
Definition line_of (nonce : string) (h : Header) : list byte :=
  join_bytes x20 (header_fields nonce h ++ [hex_bytes (supplied_mac h)]).

Definition plain (b : byte) : Prop := 33 <= bZ b <= 126.
Lemma lower_hex_plain b : lower_hex b = true -> plain b.
Proof. destruct b; (discriminate || (intros _; by vm_compute)). Qed.
Lemma digit_plain b : digit_range b -> plain b.
Proof. unfold digit_range, plain. lia. Qed.
Lemma hex_text_plain s n : lowercase_hex s n = true -> Forall plain (str_bytes s).
Proof. rewrite lowercase_hex_ok. intros [_ H]. eapply Forall_impl; [exact H|]. apply lower_hex_plain. Qed.

Lemma fields_plain nonce h : lowercase_hex nonce 32 = true -> header_ok h ->
  Forall (Forall plain) (header_fields nonce h ++ [hex_bytes (supplied_mac h)]).
Proof.
  intros Hn []. assert (forall n, 0 <= n -> Forall plain (decimal n)) as Hd.
  { intros n H0. eapply Forall_impl; [by apply decimal_are|]. apply digit_plain. }
  assert (Forall plain (str_bytes "KEEP_RESULT_V1")) by (repeat constructor; unfold plain; cbn; lia).
  assert (Forall plain (hex_bytes (supplied_mac h))) by (eapply Forall_impl; [apply hex_lower|]; apply lower_hex_plain).
  cbn [header_fields app].
  do 8 (apply (Forall_cons_2 (Forall plain)); [first [assumption|by eapply hex_text_plain|apply Hd; lia]|]). constructor.
Qed.
Lemma join_plain parts : Forall (Forall plain) parts -> Forall (fun b => plain b \/ b = x20) (join_bytes x20 parts).
Proof.
  induction 1 as [|p parts Hp H IH]; cbn [join_bytes]; [constructor|].
  assert (Forall (fun b => plain b \/ b = x20) p) by (eapply Forall_impl; [exact Hp|]; auto).
  destruct parts; [done|]. apply Forall_app. split; [done|]. constructor; [by right|done].
Qed.
Lemma line_plain nonce h : lowercase_hex nonce 32 = true -> header_ok h -> Forall (fun b => plain b \/ b = x20) (line_of nonce h).
Proof. intros Hn Hh. by apply join_plain, fields_plain. Qed.
Lemma line_length nonce h : lowercase_hex nonce 32 = true -> header_ok h -> len (line_of nonce h) <= 512.
Proof.
  rewrite lowercase_hex_ok. intros [Hn _] [H1 H2 H3 [H4 _]%lowercase_hex_ok [H5 _]%lowercase_hex_ok H6]. unfold line_of, header_fields. cbn [app join_bytes].
  repeat (rewrite len_app || rewrite len_cons).
  unfold slen in *. pose proof (hex_length (supplied_mac h)) as Hm. unfold slen, hex in Hm. rewrite str_bytes_of_bytes in Hm.
  assert (forall n, 0 <= n <= MAXIMUM_OUTPUT_BYTES -> len (decimal n) <= 10) as Hd.
  { intros n H. pose proof (decimal_length 10 n). unfold len, MAXIMUM_OUTPUT_BYTES in *. lia. }
  pose proof (Hd (header_exit_code h)). pose proof (Hd (stdout_length h)). pose proof (Hd (stderr_length h)).
  change (len (str_bytes "KEEP_RESULT_V1")) with 14. unfold MAXIMUM_OUTPUT_BYTES in *. lia.
Qed.

Lemma parse_header_ok line nonce h : lowercase_hex nonce 32 = true ->
  parse_header line nonce = Ok h <-> header_ok h /\ line = line_of nonce h.
Proof.
  intros Hn. unfold parse_header. rewrite guard_ok, negb_false_iff. split.
  - intros [_ H]. unfold split in H. rewrite str_bytes_of_bytes in H.
    pose proof (join_split_bytes x20 line) as Hj. destruct (split_bytes x20 line) as [|g0 [|g1 [|g2 [|g3 [|g4 [|g5 [|g6 [|g7 [|]]]]]]]]]; try done.
    cbn [map] in H. apply guard_ok in H as [[E0 E1]%orb_false_iff H]. apply negb_false_iff, bool_decide_eq_true in E0, E1.
    apply bind_ok in H as (code & Hc & H). apply exact_decimal_ok in Hc as [Hc E2]; [|done].
    apply bind_ok in H as (out & Ho & H). apply exact_decimal_ok in Ho as [Ho E3]; [|done].
    apply bind_ok in H as (err & He & H). apply exact_decimal_ok in He as [He E4]; [|done].
    apply guard_ok in H as [[E5 E6]%orb_false_iff H]. apply negb_false_iff in E5, E6.
    apply bind_ok in H as (mac & [Hm E7]%decode_hex_32_ok & [= <-]). split; [by split|].
    rewrite <- Hj. unfold line_of, header_fields. cbn [header_exit_code stdout_length stderr_length header_stdout_sha256 header_stderr_sha256 supplied_mac app].
    rewrite !str_bytes_of_bytes. apply (f_equal str_bytes) in E0, E1, E2, E3, E4, E7. unfold hex in E7.
    rewrite !str_bytes_of_bytes in E0. rewrite !str_bytes_of_bytes in E1. rewrite !str_bytes_of_bytes in E2.
    rewrite !str_bytes_of_bytes in E3. rewrite !str_bytes_of_bytes in E4. rewrite !str_bytes_of_bytes in E7. by subst.
  - intros [Hh ->]. split.
    { apply Parse.utf8_native, forallb_Forall'. eapply Forall_impl; [by apply line_plain|]. intros b [Hb|Hb].
      - unfold native_ascii, plain in *. apply orb_true_iff. right. rewrite (proj2 (Z.leb_le _ _)), (proj2 (Z.leb_le _ _)) by lia. done.
      - by subst b. }
    unfold split, line_of. rewrite str_bytes_of_bytes, split_join_bytes; [|done|].
    2: { eapply Forall_impl; [by apply fields_plain|]. intros p Hp. eapply Forall_impl; [exact Hp|]. intros b Hb ->.
         unfold plain in Hb. cbn in Hb. lia. }
    cbn [header_fields app map]. rewrite !str_of_str_bytes. rewrite !bool_decide_true by done. cbn [negb orb].
    destruct Hh as [H1 H2 H3 H4 H5 H6].
    rewrite (proj2 (exact_decimal_ok _ 255 (header_exit_code h) ltac:(lia))) by done. cbn [res_bind].
    rewrite (proj2 (exact_decimal_ok _ MAXIMUM_OUTPUT_BYTES (stdout_length h) ltac:(done))) by done. cbn [res_bind].
    rewrite (proj2 (exact_decimal_ok _ MAXIMUM_OUTPUT_BYTES (stderr_length h) ltac:(done))) by done. cbn [res_bind].
    rewrite H4, H5. cbn [negb orb]. fold (hex (supplied_mac h)). rewrite (proj2 (decode_hex_32_ok _ _)) by done. by destruct h.
Qed.
End Line.
Import Line.

(** ** The frame *)
Module Frame.

Lemma sha256_length m d : OneShot.sha256 m = Some d -> len d = 32.
Proof.
  intros H. assert (8 * len m <= u64_max) as Hl by (by apply (sha256_hex_length m (hex d)); unfold OneShot.sha256_hex; rewrite H).
  destruct (Facts.sha256_total m Hl) as (d' & E & Hd). rewrite H in E. injection E as <-. unfold len. by rewrite Hd.
Qed.
Lemma hmac_length key ms d : hmac_sha256 key ms = Some d -> len d = 32.
Proof. unfold hmac_sha256. intros (inner & _ & H)%bind_Some. by apply sha256_length in H. Qed.
Lemma sha256_hex_lower m d : OneShot.sha256_hex m = Some d -> lowercase_hex d 64 = true.
Proof.
  intros H. destruct (sha256_hex_total m) as (d' & E & Hd); [by eapply sha256_hex_length|]. rewrite H in E. injection E as <-.
  apply lowercase_hex_ok. split; [done|]. unfold OneShot.sha256_hex in H. destruct (OneShot.sha256 m); [|done]. injection H as <-.
  unfold hex. rewrite str_bytes_of_bytes. apply hex_lower.
Qed.

(** What the MAC covers. *)
Definition covered (nonce : string) (h : Header) (out err : list byte) : list (list byte) :=
  [MAC_DOMAIN; unsigned_header nonce h; out; err; end_of nonce].
Lemma authenticate_ok nonce key h out err u : len (supplied_mac h) = 32 ->
  authenticate nonce key h out err = Ok u <->
  OneShot.sha256_hex out = Some (header_stdout_sha256 h) /\ OneShot.sha256_hex err = Some (header_stderr_sha256 h) /\
  hmac_sha256 key (covered nonce h out err) = Some (supplied_mac h).
Proof.
  intros Hm. destruct u. unfold authenticate, hex_digest. fold (covered nonce h out err). split.
  - intros (o & Ho%ok_or_ok & H)%bind_ok. destruct (bool_decide_reflect (o = header_stdout_sha256 h)) as [E|E].
    + apply bind_ok in H as (e & He%ok_or_ok & H). apply guard_ok in H as [H1 H]. cbn [negb orb] in H1.
      apply negb_false_iff, bool_decide_eq_true in H1. apply bind_ok in H as (mac & Hmac%ok_or_ok & H). apply guard_ok in H as [H2 _].
      apply negb_false_iff, constant_time_equal_ok in H2.
      * subst. by split_and!.
      * pose proof (hmac_length _ _ _ Hmac). unfold len in *. lia.
    + apply bind_ok in H as (e & _ & H). cbn [negb orb] in H. discriminate H.
  - intros (-> & -> & ->). cbn [ok_or res_bind]. rewrite !bool_decide_true by done. cbn [ok_or res_bind]. rewrite !bool_decide_true by done.
    cbn [negb orb]. by rewrite (proj2 (constant_time_equal_ok _ _ eq_refl)).
Qed.

Definition header_of (r : CandidateGuestResult) (mac : list byte) : Header :=
  mkHeader (exit_code r) (slen (stdout r)) (slen (stderr r)) (stdout_sha256 r) (stderr_sha256 r) mac.
Definition envelope (r : CandidateGuestResult) (mac : list byte) : list byte :=
  line_of (attempt_nonce r) (header_of r mac) ++ [x0a] ++ str_bytes (stdout r) ++ str_bytes (stderr r) ++ end_of (attempt_nonce r).
Record authentic (key : list byte) (r : CandidateGuestResult) (mac : list byte) : Prop := {
  fine_nonce : lowercase_hex (attempt_nonce r) 32 = true;
  fine_exit_code : 0 <= exit_code r <= 255;
  fine_stdout : slen (stdout r) <= MAXIMUM_OUTPUT_BYTES /\ utf8_valid (str_bytes (stdout r)) = true /\
    OneShot.sha256_hex (str_bytes (stdout r)) = Some (stdout_sha256 r);
  fine_stderr : slen (stderr r) <= MAXIMUM_OUTPUT_BYTES /\ utf8_valid (str_bytes (stderr r)) = true /\
    OneShot.sha256_hex (str_bytes (stderr r)) = Some (stderr_sha256 r);
  fine_mac : hmac_sha256 key (covered (attempt_nonce r) (header_of r mac) (str_bytes (stdout r)) (str_bytes (stderr r))) = Some mac
}.
(** The console holds the envelope once, after a bounded preamble and before a
    bounded postamble without any marker. *)
Record framed (serial : list byte) (r : CandidateGuestResult) (mac : list byte) (pre post : list byte) : Prop := {
  frame_parts : serial = pre ++ envelope r mac ++ post;
  frame_preamble : len pre <= MAXIMUM_PREAMBLE;
  frame_envelope : len (envelope r mac) <= MAXIMUM_ENVELOPE;
  frame_postamble : len post <= MAXIMUM_POSTAMBLE;
  frame_once : sole (needle_of (attempt_nonce r)) pre serial;
  frame_header_absent : absent HEADER post;
  frame_end_absent : absent END post
}.
Lemma header_of_ok key r mac : authentic key r mac -> header_ok (header_of r mac).
Proof.
  intros [? ? (? & _ & ?%sha256_hex_lower) (? & _ & ?%sha256_hex_lower) ?%hmac_length].
  split; cbn; try done; split; try done; apply len_nonneg.
Qed.

Lemma find_header_ok serial nonce start line_end :
  find_header serial nonce = Ok (start, line_end) <->
  exists pre line rest, serial = pre ++ line ++ x0a :: rest /\ start = len pre /\ line_end = len pre + len line /\
    len pre <= MAXIMUM_PREAMBLE /\ len line <= 512 /\ Forall (fun b => b <> x0a) line /\ sole (needle_of nonce) pre serial.
Proof.
  unfold find_header. assert (needle_of nonce <> []) as Hne by done. split.
  - destruct (occurrences _ serial 0) as [|i [|]] eqn:E; try done. apply occurrences_sole in E as (pre & <- & Hs); [|done].
    intros [Hp H]%guard_ok. destruct (position _ _ _) as [e|] eqn:Ep; [|done]. apply guard_ok in H as [Hl [= <- <-]].
    pose proof Hs as [[q Hq] _]. rewrite Hq, drop_len in Ep by done. apply position_ok in Ep as (line & rest & El & Hline & ->).
    bool_to_prop. exists pre, line, rest. rewrite Hq, El. split_and!; try done; try lia. rewrite <- El. by rewrite <- Hq.
  - intros (pre & line & rest & Hserial & -> & -> & Hp & Hl & Hline & Hs).
    rewrite (proj2 (occurrences_sole _ _ (len pre) Hne)) by (by exists pre). rewrite (proj2 (Z.ltb_ge _ _)) by done.
    rewrite (proj2 (position_ok x0a _ (len pre) (len pre + len line))).
    + by rewrite (proj2 (Z.ltb_ge _ _)) by lia.
    + exists line, rest. rewrite Hserial, drop_len by done. by split_and!.
Qed.
End Frame.
Import Frame.

(** ** The parser *)
Module Parsed.

Lemma slice_after serial p q a b s : serial = p ++ q -> a = len p -> slice serial a b = Ok s ->
  len s = b - a /\ exists r, q = s ++ r.
Proof. intros -> ->. apply slice_ok. Qed.
Lemma slice_of serial p s q a b : serial = p ++ s ++ q -> a = len p -> b = len p + len s -> slice serial a b = Ok s.
Proof. intros -> -> ->. apply slice_here. Qed.

Lemma checked_add_ok {E : Type} (e : E) a b c : ok_or (checked_add a b) e = Ok c <-> c = a + b /\ a + b <= u64_max.
Proof. unfold checked_add. destruct (Z.leb_spec (a + b) u64_max); cbn; split; [intros [= <-]|intros [-> _]|done|]; try done; lia. Qed.

Lemma parse_sound serial nonce key r : parse_candidate_guest_result serial nonce key = Ok r ->
  attempt_nonce r = nonce /\ exists mac pre post, authentic key r mac /\ framed serial r mac pre post.
Proof.
  unfold parse_candidate_guest_result. intros [Hn H]%guard_ok. apply negb_false_iff in Hn. apply guard_ok in H as [_ H].
  apply bind_ok in H as ([start line_end] & (pre & line & rest & Hserial & -> & -> & Hp & _ & _ & Hs)%find_header_ok & H).
  apply bind_ok in H as (line' & Hline & H). apply (slice_after _ pre (line ++ x0a :: rest)) in Hline as [Hl [r0 E0]]; [|done|done].
  apply prefix_of_length in E0 as [<- _]; [|lia].
  apply bind_ok in H as (h & [Hh ->]%parse_header_ok & H); [|done]. set (line := line_of nonce h) in *.
  apply bind_ok in H as (middle & [-> _]%checked_add_ok & H). apply bind_ok in H as (stop & [-> _]%checked_add_ok & H).
  apply guard_ok in H as [[_ Henv]%orb_false_iff H]. apply bind_ok in H as (actual & Hend & H).
  apply guard_ok in H as [He H]. apply negb_false_iff, bool_decide_eq_true in He as ->.
  apply bind_ok in H as (out & Hout & H). apply bind_ok in H as (err & Herr & H).
  assert (serial = (pre ++ line ++ [x0a]) ++ rest) as S1 by (by rewrite Hserial, <- !app_assoc).
  assert (len (pre ++ line ++ [x0a]) = len pre + len line + 1) as L1 by (rewrite !len_app; change (len [x0a]) with 1; lia).
  apply (slice_after _ _ _ _ _ _ S1) in Hout as [Lo [r1 ->]]; [|by rewrite L1].
  assert (serial = (pre ++ line ++ [x0a] ++ out) ++ r1) as S2 by (by rewrite S1, <- !app_assoc).
  assert (len (pre ++ line ++ [x0a] ++ out) = len pre + len line + 1 + stdout_length h) as L2
    by (rewrite !len_app; change (len [x0a]) with 1; lia).
  apply (slice_after _ _ _ _ _ _ S2) in Herr as [Le [r2 ->]]; [|by rewrite L2].
  assert (serial = (pre ++ line ++ [x0a] ++ out ++ err) ++ r2) as S3 by (by rewrite S2, <- !app_assoc).
  assert (len (pre ++ line ++ [x0a] ++ out ++ err) = len pre + len line + 1 + stdout_length h + stderr_length h) as L3
    by (rewrite !len_app; change (len [x0a]) with 1; lia).
  apply (slice_after _ _ _ _ _ _ S3) in Hend as [_ [post ->]]; [|by rewrite L3].
  assert (serial = (pre ++ line ++ [x0a] ++ out ++ err ++ end_of nonce) ++ post) as S4 by (by rewrite S3, <- !app_assoc).
  assert (len (pre ++ line ++ [x0a] ++ out ++ err ++ end_of nonce) =
          len pre + len line + 1 + stdout_length h + stderr_length h + len (end_of nonce)) as L4
    by (rewrite !len_app; change (len [x0a]) with 1; lia).
  apply bind_ok in H as (u & (Do & De & Hmac)%authenticate_ok & H); [|apply Hh].
  rewrite S4, (drop_len _ _ _ (eq_sym L4)) in H.
  apply guard_ok in H as [[[Hpost Hw1]%orb_false_iff Hw2]%orb_false_iff H]. apply guard_ok in H as [Uo%negb_false_iff H].
  apply guard_ok in H as [Ue%negb_false_iff [= <-]].
  assert (slen (str_of_bytes out) = stdout_length h /\ slen (str_of_bytes err) = stderr_length h) as [Eo Ee].
  { unfold slen. rewrite !str_bytes_of_bytes. lia. }
  assert (header_of (mkGuestResult nonce (header_exit_code h) (str_of_bytes out) (str_of_bytes err) (header_stdout_sha256 h)
            (header_stderr_sha256 h)) (supplied_mac h) = h) as Eh.
  { unfold header_of. cbn. rewrite Eo, Ee. by destruct h. }
  pose proof Hh as [? ? ? ? ? ?]. split; [done|]. exists (supplied_mac h), pre, post. split.
  - split; cbn [attempt_nonce exit_code stdout stderr stdout_sha256 stderr_sha256]; rewrite ?str_bytes_of_bytes, ?Eo, ?Ee.
    + exact Hn.
    + assumption.
    + split_and!; [lia|exact Uo|exact Do].
    + split_and!; [lia|exact Ue|exact De].
    + rewrite Eh. exact Hmac.
  - assert (envelope (mkGuestResult nonce (header_exit_code h) (str_of_bytes out) (str_of_bytes err) (header_stdout_sha256 h)
      (header_stderr_sha256 h)) (supplied_mac h) = line ++ [x0a] ++ out ++ err ++ end_of nonce) as Ev.
    { unfold envelope. rewrite Eh. cbn [attempt_nonce stdout stderr]. by rewrite !str_bytes_of_bytes. }
    split; cbn [attempt_nonce]; rewrite ?Ev.
    + by rewrite S4, <- !app_assoc.
    + exact Hp.
    + bool_to_prop. rewrite !len_app in *. change (len [x0a]) with 1 in *. lia.
    + apply Z.ltb_ge. exact Hpost.
    + exact Hs.
    + by apply has_window_ok in Hw1.
    + by apply has_window_ok in Hw2.
Qed.

Lemma needle_line nonce h : exists q, line_of nonce h = needle_of nonce ++ q.
Proof.
  unfold line_of, needle_of, HEADER. cbn [header_fields app join_bytes]. eexists.
  change (str_bytes "KEEP_RESULT_V1 ") with (str_bytes "KEEP_RESULT_V1" ++ [x20]). rewrite <- !app_assoc. reflexivity.
Qed.
Lemma line_no_newline nonce h : lowercase_hex nonce 32 = true -> header_ok h -> Forall (fun b => b <> x0a) (line_of nonce h).
Proof.
  intros Hn Hh. eapply Forall_impl; [by apply line_plain|]. intros b Hb ->. unfold plain in Hb.
  change (bZ x0a) with 10 in Hb. destruct Hb as [Hb|Hb]; [lia|discriminate Hb].
Qed.

Lemma parse_complete serial nonce key r mac pre post :
  attempt_nonce r = nonce -> authentic key r mac -> framed serial r mac pre post -> parse_candidate_guest_result serial nonce key = Ok r.
Proof.
  intros <- Ha [Hserial Hpre Henv Hpost Honce Hw1 Hw2]. pose proof (header_of_ok _ _ _ Ha) as Hh.
  destruct Ha as [Hn _ (Ho & Uo & Do) (He & Ue & De) Hmac].
  set (out := str_bytes (stdout r)) in *. set (err := str_bytes (stderr r)) in *. set (h := header_of r mac) in *.
  set (line := line_of (attempt_nonce r) h) in *. set (nonce := attempt_nonce r) in *.
  assert (serial = pre ++ line ++ [x0a] ++ out ++ err ++ end_of nonce ++ post) as S.
  { rewrite Hserial. unfold envelope. fold nonce h line out err. by rewrite <- !app_assoc. }
  assert (len (envelope r mac) = len line + 1 + len out + len err + len (end_of nonce)) as L.
  { unfold envelope. fold nonce h line out err. rewrite !len_app. change (len [x0a]) with 1. lia. }
  assert (len serial = len pre + len (envelope r mac) + len post) as Ls by (rewrite Hserial, !len_app; lia).
  assert (stdout_length h = len out /\ stderr_length h = len err) as [Eo Ee] by done.
  pose proof (line_length nonce h Hn Hh) as Hline. fold line in Hline.
  change (slen (stdout r)) with (len out) in Ho. change (slen (stderr r)) with (len err) in He.
  unfold parse_candidate_guest_result. rewrite Hn, (proj2 (Z.ltb_ge _ _)) by lia. cbn [negb].
  rewrite (proj2 (find_header_ok serial nonce (len pre) (len pre + len line))).
  2: { exists pre, line, (out ++ err ++ end_of nonce ++ post). split_and!; try reflexivity; try assumption.
       by apply line_no_newline. }
  cbn [res_bind]. rewrite (slice_of serial pre line ([x0a] ++ out ++ err ++ end_of nonce ++ post)) by done. cbn [res_bind].
  rewrite (proj2 (parse_header_ok line nonce h Hn)) by done. cbn [res_bind]. rewrite Eo, Ee.
  pose proof (len_nonneg pre). pose proof (len_nonneg line). pose proof (len_nonneg out). pose proof (len_nonneg err). pose proof (len_nonneg post).
  unfold MAXIMUM_PREAMBLE, MAXIMUM_ENVELOPE, MAXIMUM_POSTAMBLE, MAXIMUM_OUTPUT_BYTES in *.
  rewrite (proj2 (checked_add_ok _ _ _ (len pre + len line + 1 + len out))) by (unfold u64_max; lia). cbn [res_bind].
  rewrite (proj2 (checked_add_ok _ _ _ (len pre + len line + 1 + len out + len err))) by (unfold u64_max; lia). cbn [res_bind].
  rewrite (proj2 (Z.ltb_ge (len serial) _)), (proj2 (Z.ltb_ge _ (len pre + len line + 1 + len out + len err + len (end_of nonce) - len pre))) by lia.
  cbn [orb].
  rewrite (slice_of serial (pre ++ line ++ [x0a] ++ out ++ err) (end_of nonce) post).
  2: by rewrite S, <- !app_assoc.
  2,3: rewrite !len_app; change (len [x0a]) with 1; lia.
  cbn [res_bind]. rewrite bool_decide_true by done. cbn [negb].
  rewrite (slice_of serial (pre ++ line ++ [x0a]) out (err ++ end_of nonce ++ post)).
  2: by rewrite S, <- !app_assoc.
  2,3: rewrite !len_app; change (len [x0a]) with 1; lia.
  cbn [res_bind]. rewrite (slice_of serial (pre ++ line ++ [x0a] ++ out) err (end_of nonce ++ post)).
  2: by rewrite S, <- !app_assoc.
  2,3: rewrite !len_app; change (len [x0a]) with 1; lia.
  cbn [res_bind]. rewrite (proj2 (authenticate_ok nonce key h out err tt (ok_mac _ Hh))) by (split_and!; [exact Do|exact De|exact Hmac]).
  cbn [res_bind]. replace serial with ((pre ++ line ++ [x0a] ++ out ++ err ++ end_of nonce) ++ post) by (by rewrite S, <- !app_assoc).
  rewrite drop_len by (rewrite !len_app; change (len [x0a]) with 1; lia).
  rewrite (proj2 (Z.ltb_ge _ _)) by lia. rewrite (proj2 (has_window_ok HEADER post ltac:(done))), (proj2 (has_window_ok END post ltac:(done))) by assumption.
  cbn [orb]. rewrite Uo, Ue. cbn [negb]. unfold nonce, h, out, err. cbn [header_of header_exit_code header_stdout_sha256 header_stderr_sha256].
  rewrite !str_of_str_bytes. by destruct r.
Qed.
End Parsed.
Import Parsed.

(** C19. The parser accepts exactly the authenticated frames.  A console yields a
    result when and only when it is a preamble, the envelope of that result and a
    postamble, where the envelope is the header line with the nonce, the exit code,
    both lengths, both digests and the MAC, the two outputs and the end marker; the
    MAC is HMAC-SHA-256 under the key of everything the header states and both
    outputs; the header with this nonce occurs once; the outputs are UTF-8 of at most
    1 MiB; the postamble holds no marker. *)
Theorem guest_result_exact serial nonce key r :
  parse_candidate_guest_result serial nonce key = Ok r <->
  attempt_nonce r = nonce /\ exists mac pre post, authentic key r mac /\ framed serial r mac pre post.
Proof.
  split; [apply parse_sound|]. intros (Hn & mac & pre & post & Ha & Hf). by apply (parse_complete _ _ _ _ mac pre post).
Qed.

(** The frame of the crate's own test, which an independent implementation wrote. *)
Definition golden : list byte := decode_pairs (str_bytes (String.concat ""
  ["4b4545505f524553554c545f56312030313233343536373839616263646566303132333435363738396162636465662037203132203420";
   "62323438656165326466313639396438653461653938386338333337316666393338343162303765333239373038653864613264613865";
   "39623634666337646620616136333932356564663232356532366437396563613963656263373633396465366466653537366432643965";
   "34313833653136326639396533386265376565206533323165323166333539366636613565386537666263333037653036656561646133";
   "65353631333634393635623564333661343035393230343666303930640a6f6b2031202d207265616c0a7761726e0a4b4545505f524553";
   "554c545f454e445f56312030313233343536373839616263646566303132333435363738396162636465660a"]%string)).
Example golden_frame :
  parse_candidate_guest_result (str_bytes "boot" ++ [x0a] ++ golden ++ str_bytes "Power down" ++ [x0a])
    "0123456789abcdef0123456789abcdef" (repeat x5a 32) =
  Ok (mkGuestResult "0123456789abcdef0123456789abcdef" 7 ("ok 1 - real" +:+ str_of_bytes [x0a]) "warn"
        "b248eae2df1699d8e4ae988c83371ff93841b07e329708e8da2da8e9b64fc7df"
        "aa63925edf225e26d79eca9cebc7639de6dfe576d2d9e4183e162f99e38be7ee").
Proof. vm_compute. reflexivity. Qed.

(** ** Panics *)
Module Runs.

Lemma runs_any {E A} (m : result (failure E) A) Q : runs m Q -> runs m (fun _ => True).
Proof. intros H. by eapply runs_mono. Qed.
Lemma sha256_runs m : 8 * len m <= u64_max -> exists d, OneShot.sha256 m = Some d /\ len d = 32.
Proof. intros (d & E & Hd)%Facts.sha256_total. exists d. unfold len. by rewrite Hd. Qed.
Lemma hex_digest_runs m : 8 * len m <= u64_max -> runs (hex_digest m) (fun _ => True).
Proof. intros (d & E & _)%sha256_hex_total. unfold hex_digest. by rewrite E. Qed.
Lemma len_xor_into pad key : len key <= len pad -> len (xor_into pad key) = len pad.
Proof.
  intros H. unfold xor_into, len in *. rewrite length_app, length_zip_with, length_drop. lia.
Qed.
Lemma hmac_runs key ms : len key = 32 -> 8 * (64 + len (concat ms)) <= u64_max -> exists mac, hmac_sha256 key ms = Some mac.
Proof.
  intros Hk Hm. unfold hmac_sha256. assert (len IPAD = 64 /\ len OPAD = 64) as [Hi Ho] by done.
  destruct (sha256_runs (xor_into IPAD key ++ concat ms)) as (d & -> & Hd); [rewrite len_app, len_xor_into by lia; lia|].
  cbn [mbind option_bind]. destruct (sha256_runs (xor_into OPAD key ++ d)) as (mac & -> & _); [|eauto].
  rewrite len_app, len_xor_into by lia. unfold u64_max. lia.
Qed.
Lemma slice_runs bytes a b : 0 <= a <= b -> b <= len bytes -> runs (slice bytes a b) (fun s => len s = b - a).
Proof.
  intros H Hb. unfold slice. destruct (get_range bytes a b) as [s|] eqn:E; [by apply get_range_length in E|].
  unfold get_range in E. by rewrite !(proj2 (Z.leb_le _ _)) in E by lia.
Qed.
Lemma exact_decimal_runs s maximum : runs (exact_decimal s maximum) (fun _ => True).
Proof. unfold exact_decimal. apply runs_guard. intros _. destruct (parse_u64 s) as [n|]; [|done]. by destruct (n <=? maximum). Qed.
Lemma parse_header_runs line nonce : runs (parse_header line nonce) (fun _ => True).
Proof.
  unfold parse_header. apply runs_guard. intros _. destruct (split x20 _) as [|g0 [|g1 [|g2 [|g3 [|g4 [|g5 [|g6 [|g7 [|]]]]]]]]]; try done.
  apply runs_guard. intros _. do 3 (eapply runs_bind; [apply exact_decimal_runs|]; intros ? _ _). apply runs_guard. intros _.
  apply (runs_bind _ _ (fun _ => True)); [unfold decode_hex_32; by apply runs_guard|done].
Qed.
Lemma authenticate_runs nonce key h out err :
  len key = 32 -> lowercase_hex nonce 32 = true -> header_ok h -> len out <= MAXIMUM_OUTPUT_BYTES -> len err <= MAXIMUM_OUTPUT_BYTES ->
  runs (authenticate nonce key h out err) (fun _ => True).
Proof.
  intros Hk Hn Hh Ho He. unfold MAXIMUM_OUTPUT_BYTES in *. unfold authenticate.
  eapply runs_bind; [apply hex_digest_runs; unfold u64_max; lia|]. intros o _ _.
  apply (runs_bind _ _ (fun _ => True)). { destruct (bool_decide _); [apply hex_digest_runs; unfold u64_max; lia|done]. }
  intros e _ _. apply runs_guard. intros _. fold (covered nonce h out err).
  destruct (hmac_runs key (covered nonce h out err) Hk) as [mac ->]; [|by apply runs_guard].
  pose proof (line_length nonce h Hn Hh) as Hl. apply lowercase_hex_ok in Hn as [Hn _].
  assert (len (unsigned_header nonce h) <= 520) as Hu.
  { unfold unsigned_header, line_of, header_fields in *. cbn [app join_bytes] in *. repeat (rewrite len_app in * || rewrite len_cons in *).
    change (len (@nil byte)) with 0. pose proof (len_nonneg (hex_bytes (supplied_mac h))). lia. }
  unfold covered. cbn [concat]. rewrite !len_app. change (len MAC_DOMAIN) with 28. change (len (concat [])) with 0.
  unfold end_of. repeat (rewrite len_app || rewrite len_cons). unfold slen in Hn. change (len END) with 18. change (len (@nil byte)) with 0.
  unfold u64_max. lia.
Qed.
End Runs.
Import Runs.

(** The parser returns a result or a refusal on every console of any length. *)
Theorem guest_parser_never_panics serial nonce key : len key = 32 ->
  parse_candidate_guest_result serial nonce key <> Err Panic /\ parse_candidate_guest_result serial nonce key <> Err OutOfFuel.
Proof.
  intros Hk. apply (runs_not_stuck _ (fun _ => True)). unfold parse_candidate_guest_result.
  apply runs_guard. intros Hn%negb_false_iff. apply runs_guard. intros Hs.
  apply (runs_bind _ _ (fun p => exists pre line rest, serial = pre ++ line ++ x0a :: rest /\ p = (len pre, len pre + len line))).
  { destruct (find_header serial nonce) as [[start line_end]|e] eqn:E.
    - apply find_header_ok in E as (pre & line & rest & ? & -> & -> & _). cbn. by exists pre, line, rest.
    - unfold find_header in E. repeat case_match; try discriminate E; by injection E as <-. }
  intros [start line_end] _ (pre & line & rest & Hserial & [= -> ->]).
  assert (len serial = len pre + len line + 1 + len rest) as Ls by (rewrite Hserial, !len_app, len_cons; lia).
  pose proof (len_nonneg pre). pose proof (len_nonneg line). pose proof (len_nonneg rest).
  eapply runs_bind; [apply slice_runs; lia|]. intros line' _ _.
  eapply runs_bind; [apply parse_header_runs|]. intros h [Hh _]%parse_header_ok _; [|done]. pose proof Hh as [_ H2 H3 _ _ _].
  apply (runs_bind _ _ (fun m => m = len pre + len line + 1 + stdout_length h)).
  { unfold checked_add. by destruct (_ <=? _). }
  intros ? _ ->. apply (runs_bind _ _ (fun m => m = len pre + len line + 1 + stdout_length h + stderr_length h)).
  { unfold checked_add. by destruct (_ <=? _). }
  intros ? _ ->. pose proof (len_nonneg (end_of nonce)). apply runs_guard. intros [Hfit%Z.ltb_ge _]%orb_false_iff.
  eapply runs_bind; [apply slice_runs; lia|]. intros actual _ _. apply runs_guard. intros _.
  eapply runs_bind; [apply slice_runs; lia|]. intros out _ Hout. eapply runs_bind; [apply slice_runs; lia|]. intros err _ Herr.
  cbv beta in Hout, Herr. eapply runs_bind; [apply authenticate_runs; try done; lia|]. intros _ _ _. by repeat (apply runs_guard; intros _).
Qed.

(** ** Secrets *)

(** The secrets handed to a guest are the ones its result is checked with: 64
    random bytes always give them, the key has 32 bytes, the nonce is one the parser
    and the attempt identity accept, and hashing with the two precomputed pads is the
    HMAC under the key, for every message. *)
Theorem minted_secrets_agree {E} (malformed : E) random : len random = 64 ->
  exists s, mint_candidate_fixture_secrets malformed (Ok random) = Ok s /\
    random = take 32 random ++ authentication_key s /\ len (authentication_key s) = 32 /\
    lowercase_hex (result_nonce s) 32 = true /\ attempt_id s = ("keep-" +:+ hex (take 16 random))%string /\
    forall messages, hmac_sha256 (authentication_key s) messages =
      (inner ← OneShot.sha256 (authentication_ipad s ++ concat messages); OneShot.sha256 (authentication_opad s ++ inner)).
Proof.
  intros Hl. assert (forall bs, len bs = 16 -> slen (hex bs) = 32 /\ Forall (fun b => lower_hex b = true) (str_bytes (hex bs))) as Hx.
  { intros bs Hb. rewrite hex_length. split; [lia|]. unfold hex. rewrite str_bytes_of_bytes. apply hex_lower. }
  assert (len (take 16 random) = 16 /\ len (take 16 (drop 16 random)) = 16 /\ len (drop 32 random) = 32) as (H1 & H2 & H3).
  { unfold len in *. rewrite !length_take, !length_drop. lia. }
  unfold mint_candidate_fixture_secrets, from_nonce_hex. cbn [res_bind].
  destruct (Hx _ H1) as [Ha Hb]. fold (hex (take 16 random)). unfold bytes_hex. rewrite Ha. apply forallb_Forall' in Hb as ->. cbn.
  eexists. split; [reflexivity|]. cbn [authentication_key result_nonce attempt_id authentication_ipad authentication_opad].
  split_and!; [by rewrite take_drop|done| |done|done]. by apply lowercase_hex_ok, Hx.
Qed.

Lemma minted_secrets_agree_witness :
  exists s, mint_candidate_fixture_secrets tt (Ok (repeat x07 64)) = Ok s /\ lowercase_hex (result_nonce s) 32 = true.
Proof.
  destruct (minted_secrets_agree tt (repeat x07 64) eq_refl) as (s & H1 & _ & _ & H2 & _). exists s. split; [exact H1|exact H2].
Defined.
