(* ===== verification/Launch.v ===== *)
(** * Launching a candidate ([prober-launcher/src/lib.rs])

    The deadline, the cgroup limits, the arguments of the jailer, the lifecycle and
    the supervision of a direct process.  Instants and durations are nanoseconds.  The
    clock and a process are the interfaces [Clock] and [DirectProcess] on an explicit
    world. *)

From S2P Require Import Prelude Cbor Sha256 Paths Schema Numbers GuestResult.

Definition GUEST_VCPU_COUNT : Z := 1.
Definition GUEST_MEMORY_BYTES : Z := 256 * 1024 * 1024.
Definition HOST_MEMORY_BYTES : Z := GUEST_MEMORY_BYTES + 256 * 1024 * 1024.
Definition MAXIMUM_PIDS : Z := 128.
Definition MAXIMUM_LAUNCH_MILLISECONDS : Z := 120000.
Definition MAXIMUM_FILE_BYTES : Z := 16 * 1024 * 1024.
Definition MAXIMUM_OPEN_FILES : Z := 1024.
Definition CGROUP_CPU_MAX : string := "100000 100000".
Definition CGROUP_IO_WEIGHT : string := "default 100".
Definition CGROUP_IO_WEIGHT_WRITE : string := "100".

Definition number (n : Z) : string := str_of_bytes (decimal n).

(** ** The deadline *)

Definition MILLISECOND : Z := 1000000.
Record CandidateDeadline : Set := mkDeadline { started : Z; limit : Z }.
Definition start (now milliseconds : Z) : candidate CandidateDeadline :=
  throw_if (milliseconds =? 0) || (MAXIMUM_LAUNCH_MILLISECONDS <? milliseconds) with Error DeadlineOutOfRange ;;
  Ok (mkDeadline now (milliseconds * MILLISECOND)).
(** [Instant::elapsed] saturates at zero, [Duration::checked_sub] refuses a
    negative difference. *)
Definition remaining (deadline : CandidateDeadline) (now : Z) : candidate Z :=
  let elapsed := Z.max 0 (now - started deadline) in
  if elapsed <=? limit deadline
  then if limit deadline - elapsed =? 0 then Err (Error DeadlineExpired) else Ok (limit deadline - elapsed)
  else Err (Error DeadlineExpired).

(** ** Control groups *)

Record CandidateCgroupLimits : Set := mkLimits {
  limit_memory_max : Z;
  limit_memory_swap_max : Z;
  limit_pids_max : Z;
  limit_cpu_max : string;
  limit_io_weight : string
}.
Record CandidateCgroupObservation : Set := mkCgroup {
  memory_max : Z;
  memory_swap_max : Z;
  pids_max : Z;
  cpu_max : string;
  io_weight : string;
  populated : bool;
  descendant_directories : Z
}.
Definition fixed_limits : CandidateCgroupLimits :=
  mkLimits HOST_MEMORY_BYTES 0 MAXIMUM_PIDS CGROUP_CPU_MAX CGROUP_IO_WEIGHT.
Definition verify_limits (limits : CandidateCgroupLimits) (observed : CandidateCgroupObservation) : candidate unit :=
  throw_if negb (memory_max observed =? limit_memory_max limits)
           || negb (memory_swap_max observed =? limit_memory_swap_max limits)
           || negb (pids_max observed =? limit_pids_max limits)
           || negb (bool_decide (cpu_max observed = limit_cpu_max limits))
           || negb (bool_decide (io_weight observed = limit_io_weight limits))
    with Error CgroupLimitMismatch ;;
  Ok tt.

(** [str::lines]: the line ending is [\n] or [\r\n]; a last empty line is dropped. *)
Definition strip_cr (line : list byte) : list byte :=
  match reverse line with x0d :: rest => reverse rest | _ => line end.
Fixpoint lines_of (parts : list (list byte)) : list (list byte) :=
  match parts with
  | [] => []
  | [last] => if bool_decide (last = []) then [] else [last]
  | part :: parts => strip_cr part :: lines_of parts
  end.
Definition lines (text : string) : list string := map str_of_bytes (lines_of (split_bytes x0a (str_bytes text))).

Definition bounded_number (value : string) : candidate Z :=
  let bytes := str_bytes value in
  throw_if bool_decide (value = ""%string) || starts_with "+" value || ((1 <? slen value) && starts_with_zero bytes)
           || existsb (fun b => negb (is_digit b)) bytes
    with Error CgroupValueMalformed ;;
  ok_or (parse_u64 value) (Error CgroupValueMalformed).
(** One turn of the loop over the lines of [cgroup.events]. *)
Definition event_line (populated : option bool) (line : string) : candidate (option bool) :=
  match split x20 line with
  | [name; value] =>
      if bool_decide (name = "populated"%string) && bool_decide (value = "0"%string) then Ok (Some false)
      else if bool_decide (name = "populated"%string) && bool_decide (value = "1"%string) then Ok (Some true)
      else Ok populated
  | _ => Err (Error CgroupValueMalformed)
  end.
Definition parse_cgroup (memory_max memory_swap_max pids_max cpu_max io_weight cgroup_events : string)
    (descendant_directories : Z) : candidate CandidateCgroupObservation :=
  let? populated := res_fold event_line (lines cgroup_events) None in
  let? memory_max := bounded_number memory_max in
  let? memory_swap_max := bounded_number memory_swap_max in
  let? pids_max := bounded_number pids_max in
  let? populated := ok_or populated (Error CgroupValueMalformed) in
  Ok (mkCgroup memory_max memory_swap_max pids_max cpu_max io_weight populated descendant_directories).
Definition verify_empty (observed : CandidateCgroupObservation) : candidate unit :=
  throw_if populated observed with Error CgroupStillPopulated ;;
  throw_if negb (descendant_directories observed =? 0) with Error CgroupHasDescendants ;;
  Ok tt.

(** ** The jailer *)

Definition fixed_jailer_arguments (attempt : CandidateAttemptId) (uid : Z) : list string :=
  ["--id"; attempt; "--uid"; number uid; "--gid"; number uid; "--new-pid-ns"; "--cgroup-version"; "2";
   "--parent-cgroup"; "keep";
   "--cgroup"; "memory.max=" +:+ number HOST_MEMORY_BYTES; "--cgroup"; "memory.swap.max=0";
   "--cgroup"; "pids.max=" +:+ number MAXIMUM_PIDS; "--cgroup"; "cpu.max=" +:+ CGROUP_CPU_MAX;
   "--cgroup"; "io.weight=" +:+ CGROUP_IO_WEIGHT_WRITE;
   "--resource-limit"; "fsize=" +:+ number MAXIMUM_FILE_BYTES; "--resource-limit"; "no-file=" +:+ number MAXIMUM_OPEN_FILES;
   "--"; "--no-api"; "--config-file"; "/config.json"; "--seccomp-filter"; "/seccomp.bpf"]%string.

(** ** The lifecycle *)

Inductive CandidatePhase : Set :=
| Prepared | Spawned | GuestResultCaptured | DirectProcessReaped | DescendantsEmpty | ResidueRemoved | Complete | Aborted.
Inductive CandidateEvent : Set :=
| EventSpawned | EventGuestResultCaptured | EventDirectProcessReaped | EventDescendantsEmpty | EventResidueRemoved
| EventComplete | EventAbort.
Record CandidateLifecycleError : Set := mkLifecycleError { phase : CandidatePhase; event : CandidateEvent }.

Definition terminal (phase : CandidatePhase) : bool := match phase with Complete | Aborted => true | _ => false end.
Definition advance (phase : CandidatePhase) (event : CandidateEvent) : result CandidateLifecycleError CandidatePhase :=
  match phase, event with
  | _, EventAbort => if negb (terminal phase) then Ok Aborted else Err (mkLifecycleError phase event)
  | Prepared, EventSpawned => Ok Spawned
  | Spawned, EventGuestResultCaptured => Ok GuestResultCaptured
  | GuestResultCaptured, EventDirectProcessReaped => Ok DirectProcessReaped
  | DirectProcessReaped, EventDescendantsEmpty => Ok DescendantsEmpty
  | DescendantsEmpty, EventResidueRemoved => Ok ResidueRemoved
  | ResidueRemoved, EventComplete => Ok Complete
  | _, _ => Err (mkLifecycleError phase event)
  end.

(** ** A direct process *)

(** The monotonic clock and [thread::sleep]. *)
Class Clock (W : Type) := {
  now : W -> Z * W;
  sleep : Z -> W -> W
}.
(** The child process and the two files it writes; the results of [kill] and
    [wait] are ignored by the code. *)
Class DirectProcess (S W : Type) := {
  stdout_size : W -> option Z * W;
  stderr_size : W -> option Z * W;
  kill : W -> W;
  wait : W -> W;
  try_wait : W -> option (option S) * W
}.
Record ReapedCandidateProcess (S : Type) : Type := mkReaped { status : S; stdout_bytes : Z; stderr_bytes : Z }.
Arguments mkReaped {S}.
Arguments status {S}.
Arguments stdout_bytes {S}.
Arguments stderr_bytes {S}.

Definition over_limit (stdout_bytes stderr_bytes maximum_output_bytes : Z) : bool :=
  match checked_add stdout_bytes stderr_bytes with
  | Some total => negb (total <=? maximum_output_bytes)
  | None => true
  end.

Section wait_bounded.
Context {S W : Type} `{HC : Clock W} `{HP : DirectProcess S W}.

(** [Drop for CandidateDirectProcess], with a child. *)
Definition drop_child (w : W) : W := wait (kill w).
Definition sizes (w : W) : candidate (Z * Z) * W :=
  let '(out, w) := stdout_size w in
  match out with
  | None => (Err (Error DirectProcessFailed), w)
  | Some out =>
      let '(err, w) := stderr_size w in
      match err with
      | None => (Err (Error DirectProcessFailed), w)
      | Some err => (Ok (out, err), w)
      end
  end.
(** The process has exited. *)
Definition finish_reaped (status : S) (maximum_output_bytes : Z) (w : W) : candidate (ReapedCandidateProcess S) * W :=
  let '(found, w) := sizes w in
  match found with
  | Err e => (Err e, drop_child w)
  | Ok (out, err) =>
      if over_limit out err maximum_output_bytes then (Err (Error OutputLimitExceeded), wait w)
      else (Ok (mkReaped status out err), w)
  end.
Fixpoint wait_loop (fuel : nat) (deadline : CandidateDeadline) (maximum_output_bytes : Z) (w : W) :
    candidate (ReapedCandidateProcess S) * W :=
  match fuel with
  | O => (Err OutOfFuel, w)
  | Datatypes.S fuel =>
      let '(found, w) := sizes w in
      match found with
      | Err e => (Err e, drop_child w)
      | Ok (out, err) =>
          if over_limit out err maximum_output_bytes then (Err (Error OutputLimitExceeded), wait (kill w))
          else
            let '(exited, w) := try_wait w in
            match exited with
            | None => (Err (Error DirectProcessFailed), drop_child w)
            | Some (Some status) => finish_reaped status maximum_output_bytes w
            | Some None =>
                let '(t, w) := now w in
                match remaining deadline t with
                | Err e => (Err e, wait (kill w))
                | Ok rest => wait_loop fuel deadline maximum_output_bytes (sleep (Z.min rest (5 * MILLISECOND)) w)
                end
            end
      end
  end.
(** A turn sleeps 5 ms or to the end: 120 seconds are at most 24,000 turns. *)
Definition WAIT_FUEL : nat := Z.to_nat 24002.
Definition wait_bounded (deadline : CandidateDeadline) (maximum_output_bytes : Z) (w : W) :
    candidate (ReapedCandidateProcess S) * W :=
  wait_loop WAIT_FUEL deadline maximum_output_bytes w.
End wait_bounded.

(** ** The handoff of the jailer ([prober-vmm-shim/src/lib.rs]) *)

Definition CONFIG_PATH : string := "/config.json".
Definition SECCOMP_FILTER_PATH : string := "/seccomp.bpf".
Definition SECCOMP_CANARY_ARGUMENT : string := "--keep-seccomp-canary".
Inductive HandoffMode : Set := Exec | SeccompCanary.

Definition all_digits (value : string) : bool := negb (bool_decide (value = ""%string)) && forallb is_digit (str_bytes value).
Definition is_attempt_id (value : string) : bool :=
  (slen value =? 37) && starts_with "keep-" value && forallb lower_hex (drop 5 (str_bytes value)).
Definition HANDOFF_REFUSED : string := "post-jailer VMM argument contract refused".
Definition validate_jailer_handoff (arguments : list string) : result string HandoffMode :=
  let at_ i := nth i arguments ""%string in
  let same i s := bool_decide (at_ i = s) in
  let? mode :=
    match length arguments with
    | 13%nat => Ok Exec
    | 14%nat => if same 13%nat SECCOMP_CANARY_ARGUMENT then Ok SeccompCanary else Err HANDOFF_REFUSED
    | _ => Err HANDOFF_REFUSED
    end in
  throw_if (length arguments <? 13)%nat
           || negb (same 0%nat "--id"%string) || negb (is_attempt_id (at_ 1%nat))
           || negb (same 2%nat "--start-time-us"%string) || negb (all_digits (at_ 3%nat))
           || negb (same 4%nat "--start-time-cpu-us"%string) || negb (all_digits (at_ 5%nat))
           || negb (same 6%nat "--parent-cpu-time-us"%string) || negb (all_digits (at_ 7%nat))
           || negb (same 8%nat "--no-api"%string) || negb (same 9%nat "--config-file"%string) || negb (same 10%nat CONFIG_PATH)
           || negb (same 11%nat "--seccomp-filter"%string) || negb (same 12%nat SECCOMP_FILTER_PATH)
    with HANDOFF_REFUSED ;;
  Ok mode.
