(* ===== verification/LaunchFacts.v ===== *)
(** * Theorems on launching a candidate

    [Lifecycle]: the runs of the state machine.  [Process]: supervision of a direct
    process.  [Handoff]: the arguments the shim accepts are those the jailer is told
    to pass on. *)

From S2P Require Import Prelude Cbor CborFacts Sha256 Paths TextFacts Schema Numbers GuestResult GuestResultFacts Launch.

(** ** The lifecycle *)
Module Lifecycle.

Definition SUCCESS : list CandidateEvent :=
  [EventSpawned; EventGuestResultCaptured; EventDirectProcessReaped; EventDescendantsEmpty; EventResidueRemoved; EventComplete].
Definition PHASES : list CandidatePhase :=
  [Prepared; Spawned; GuestResultCaptured; DirectProcessReaped; DescendantsEmpty; ResidueRemoved; Complete].
(** The run of the first [n] events of a success. *)
Definition succeeded (n : nat) (events : list CandidateEvent) (phase : CandidatePhase) : Prop :=
  events = take n SUCCESS /\ PHASES !! n = Some phase.
Definition aborted (n : nat) (events : list CandidateEvent) (phase : CandidatePhase) : Prop :=
  (n < 6)%nat /\ events = take n SUCCESS ++ [EventAbort] /\ phase = Aborted.

Inductive reach : list CandidateEvent -> CandidatePhase -> Prop :=
| reach_prepared : reach [] Prepared
| reach_step events phase event phase' :
    reach events phase -> advance phase event = Ok phase' -> reach (events ++ [event]) phase'.

Lemma reach_run events phase : reach events phase <-> res_fold advance events Prepared = Ok phase.
Proof.
  split.
  - induction 1 as [|events phase event phase' _ IH H]; [done|]. rewrite res_fold_app, IH. cbn. by rewrite H.
  - revert phase. induction events as [|event events IH] using rev_ind; intros phase; [intros [= <-]; constructor|].
    rewrite res_fold_app. intros (p & Hp & (q & Hq & [= <-])%bind_ok)%bind_ok. by eapply reach_step, Hq; apply IH.
Qed.
Lemma reach_shape events phase : reach events phase -> exists n, succeeded n events phase \/ aborted n events phase.
Proof.
  induction 1 as [|events phase event phase' _ [n [[-> Hp]|(Hn & -> & ->)]] H].
  - exists 0%nat. by left.
  - let step k := (injection Hp as <-; destruct event; try discriminate H; injection H as <-;
      [exists (S k); left; split; reflexivity|exists k; right; split_and!; [lia|reflexivity|reflexivity]]) in
    destruct n as [|[|[|[|[|[|[|n]]]]]]]; [step 0%nat|step 1%nat|step 2%nat|step 3%nat|step 4%nat|step 5%nat| |done].
    injection Hp as <-. by destruct event.
  - by destruct event.
Qed.
Lemma shape_run n events phase : succeeded n events phase \/ aborted n events phase -> res_fold advance events Prepared = Ok phase.
Proof.
  intros [[-> Hp]|(Hn & -> & ->)].
  - do 7 (destruct n as [|n]; [by injection Hp as <-|]). done.
  - do 6 (destruct n as [|n]; [done|]). lia.
Qed.
End Lifecycle.
Import Lifecycle.

(** The only runs of the lifecycle are the prefixes of the one successful
    sequence, and such a proper prefix followed by an abort: [Complete] is reached by
    the six events in order and by nothing else, an abort is possible before it and
    final. *)
Theorem lifecycle_runs events phase :
  res_fold advance events Prepared = Ok phase <-> exists n, succeeded n events phase \/ aborted n events phase.
Proof. split; [by intros ?%reach_run%reach_shape|]. intros [n H]. by apply (shape_run n). Qed.

(** ** Supervision of a process *)

(** What the supervision relies on: the clock is monotone and a sleep lasts at least
    as long as asked; [reaped] is stable under looking at the files, [wait] and a
    successful [try_wait] establish it. *)
Class ClockLaws (W : Type) `{Clock W} := {
  clock : W -> Z;
  now_clock w t w' : now w = (t, w') -> t = clock w' /\ clock w <= t;
  sleep_clock d w : clock w + d <= clock (sleep d w)
}.
Class DirectProcessLaws (S W : Type) `{ClockLaws W} `{DirectProcess S W} := {
  reaped : W -> Prop;
  wait_reaps w : reaped (wait w);
  try_wait_reaps w s w' : try_wait w = (Some (Some s), w') -> reaped w';
  stdout_keeps w : reaped w -> reaped (stdout_size w).2;
  stderr_keeps w : reaped w -> reaped (stderr_size w).2;
  stdout_clock w : clock w <= clock (stdout_size w).2;
  stderr_clock w : clock w <= clock (stderr_size w).2;
  try_wait_clock w : clock w <= clock (try_wait w).2
}.

Section supervision.
Context {S W : Type} {HC : Clock W} {HCL : ClockLaws W} {HP : DirectProcess S W} {HL : DirectProcessLaws S W}.
Implicit Types w : W.

(** How a run may end. *)
Record ended (maximum : Z) (r : candidate (ReapedCandidateProcess S)) (w : W) : Prop := {
  ended_reaped : reaped w;
  ended_answer : r <> Err OutOfFuel /\ r <> Err Panic;
  ended_bounded p : r = Ok p -> stdout_bytes p + stderr_bytes p <= maximum
}.
Lemma ended_error maximum e w : reaped w -> ended maximum (Err (Error e)) w.
Proof. intros H. by split. Qed.

Lemma over_limit_ok out err maximum : over_limit out err maximum = false -> out + err <= maximum.
Proof.
  unfold over_limit, checked_add. destruct (out + err <=? u64_max); [|done]. intros H%negb_false_iff%Z.leb_le. done.
Qed.
Lemma sizes_result w r w' : sizes w = (r, w') -> (r = Err (Error DirectProcessFailed) \/ exists p, r = Ok p) /\
  clock w <= clock w' /\ (reaped w -> reaped w').
Proof.
  unfold sizes. pose proof (stdout_clock w) as C1. pose proof (stdout_keeps w) as R1.
  destruct (stdout_size w) as [[out|] w1]; cbn in *; [|intros [= <- <-]; by split_and!; [left| |]].
  pose proof (stderr_clock w1) as C2. pose proof (stderr_keeps w1) as R2.
  destruct (stderr_size w1) as [[err|] w2]; cbn in *; intros [= <- <-]; (split_and!; [|lia|auto]); [right; by eexists|by left].
Qed.
Lemma finish_reaped_ends (s : S) maximum w r w' : reaped w -> finish_reaped s maximum w = (r, w') -> ended maximum r w'.
Proof.
  unfold finish_reaped. intros Hw. destruct (sizes w) as [found w1] eqn:E. apply sizes_result in E as (Hf & _ & Hk).
  destruct Hf as [->|[[out err] ->]].
  - intros [= <- <-]. apply ended_error, wait_reaps.
  - destruct (over_limit out err maximum) eqn:Eo; intros [= <- <-]; [apply ended_error, wait_reaps|].
    split; [by apply Hk|done|]. intros p [= <-]. by apply over_limit_ok.
Qed.

Lemma remaining_ok d t rest : remaining d t = Ok rest -> rest = limit d - Z.max 0 (t - started d) /\ 0 < rest.
Proof.
  unfold remaining. set (elapsed := Z.max 0 (t - started d)). destruct (Z.leb_spec elapsed (limit d)); [|done].
  destruct (Z.eqb_spec (limit d - elapsed) 0); [done|]. intros [= <-]. lia.
Qed.
Lemma remaining_err d t e : remaining d t = Err e -> e = Error DeadlineExpired.
Proof. unfold remaining. destruct (_ <=? _); [destruct (_ =? _)|]; by intros [= <-]. Qed.

(** The turns needed before the deadline. *)
Lemma wait_loop_ends fuel d maximum w r w' :
  (0 < fuel)%nat -> started d <= clock w -> started d + limit d - clock w <= (Z.of_nat fuel - 1) * (5 * MILLISECOND) ->
  wait_loop fuel d maximum w = (r, w') -> ended maximum r w'.
Proof.
  revert w. induction fuel as [|fuel IH]; intros w Hf Hs Hm; [lia|]. cbn [wait_loop].
  destruct (sizes w) as [found w1] eqn:E1. apply sizes_result in E1 as (Hfound & C1 & _).
  destruct Hfound as [->|[[out err] ->]]; [intros [= <- <-]; apply ended_error, wait_reaps|].
  destruct (over_limit out err maximum); [intros [= <- <-]; apply ended_error, wait_reaps|].
  pose proof (try_wait_clock w1) as C2. destruct (try_wait w1) as [[[s|]|] w2] eqn:E2; cbn in C2.
  - apply finish_reaped_ends. by eapply try_wait_reaps.
  - destruct (now w2) as [t w3] eqn:E3. apply now_clock in E3 as [Ht C3].
    destruct (remaining d t) as [rest|e] eqn:Er.
    + apply remaining_ok in Er as [-> Hrest]. pose proof (sleep_clock (Z.min (limit d - Z.max 0 (t - started d)) (5 * MILLISECOND)) w3) as C4.
      rewrite Z.max_r in * by lia. unfold MILLISECOND in *. intros H. eapply (IH _ _ _ _ H); lia.
    + apply remaining_err in Er as ->. intros [= <- <-]. apply ended_error, wait_reaps.
  - intros [= <- <-]. apply ended_error, wait_reaps.
Unshelve. all: lia.
Qed.
End supervision.


(** *** A process that exits after a while *)
Module Sleeper.
(** Milliseconds left to run, and the clock; [-1]: reaped. *)
Definition World : Set := (Z * Z)%type.
#[global] Instance ticks : Clock World := {
  now w := (w.2, w);
  sleep d w := (w.1 - d, w.2 + d)
}.
#[global] Instance ticks_laws : ClockLaws World.
Proof. refine {| clock w := w.2 |}; cbn; [intros w t w' [= <- <-]|intros d w]; lia. Defined.
#[global] Instance process : DirectProcess bool World := {
  stdout_size w := (Some 5, w);
  stderr_size w := (Some 6, w);
  kill w := (0, w.2);
  wait w := (-1, w.2);
  try_wait w := if w.1 <=? 0 then (Some (Some true), (-1, w.2)) else (Some None, w)
}.
#[global] Instance process_laws : DirectProcessLaws bool World.
Proof.
  refine {| reaped w := w.1 = -1 |}; cbn; try done; try lia.
  - intros w s w'. destruct (w.1 <=? 0); by intros [= _ <-].
  - intros w. destruct (w.1 <=? 0); cbn; lia.
Defined.
End Sleeper.


(** ** The handoff *)
Module Handoff.

(** The arguments behind the first [--], which the jailer passes on after its own. *)
Fixpoint after_dashes (arguments : list string) : list string :=
  match arguments with
  | [] => []
  | argument :: arguments => if bool_decide (argument = "--"%string) then arguments else after_dashes arguments
  end.
Definition passed_on (attempt a b c : string) (arguments : list string) : list string :=
  ["--id"; attempt; "--start-time-us"; a; "--start-time-cpu-us"; b; "--parent-cpu-time-us"; c]%string ++ arguments.
Definition VMM_ARGUMENTS : list string := ["--no-api"; "--config-file"; "/config.json"; "--seccomp-filter"; "/seccomp.bpf"]%string.

Lemma attempt_id_ok s : is_attempt_id s = true <-> exists nonce, from_nonce_hex nonce = Ok s.
Proof.
  unfold is_attempt_id, from_nonce_hex. rewrite !andb_true_iff, Z.eqb_eq, starts_with_spec. split.
  - intros [[Hl [r Hr]] Hh]. exists (str_of_bytes r). unfold slen in *. rewrite str_bytes_of_bytes. rewrite Hr in Hl, Hh.
    rewrite len_app in Hl. change (len (str_bytes "keep-")) with 5 in Hl. replace (len r) with 32 by lia.
    change (drop 5 (str_bytes "keep-" ++ r)) with r in Hh. rewrite Hh. cbn [Z.eqb negb orb]. f_equal. apply str_bytes_inj. rewrite Hr.
    change (str_bytes ("keep-" +:+ str_of_bytes r)) with (str_bytes "keep-" ++ str_bytes (str_of_bytes r)). by rewrite str_bytes_of_bytes.
  - intros [nonce H]. apply guard_ok in H as [[Hl Hh]%orb_false_iff [= <-]]. apply negb_false_iff in Hl, Hh. apply Z.eqb_eq in Hl.
    assert (str_bytes ("keep-" +:+ nonce) = str_bytes "keep-" ++ str_bytes nonce) as E by done. unfold slen in *. rewrite E, len_app.
    change (len (str_bytes "keep-")) with 5. split_and!; [lia|by eexists|exact Hh].
Qed.
Lemma number_not_dashes n : 0 <= n -> number n <> "--"%string.
Proof.
  intros Hn E. apply (f_equal str_bytes) in E. unfold number in E. rewrite str_bytes_of_bytes in E.
  pose proof (decimal_are n Hn) as H. rewrite E in H. apply Forall_cons in H as [H _]. unfold digit_range in H. cbn in H. lia.
Qed.
Lemma jailer_passes attempt uid : 0 <= uid -> is_attempt_id attempt = true -> after_dashes (fixed_jailer_arguments attempt uid) = VMM_ARGUMENTS.
Proof.
  intros Hu Ha. assert (attempt <> "--"%string) as Hn by (intros ->; discriminate Ha). pose proof (number_not_dashes uid Hu) as Hd.
  unfold fixed_jailer_arguments. cbn [after_dashes]. by rewrite (bool_decide_false (attempt = _)), !(bool_decide_false (number uid = _)).
Qed.
End Handoff.
Import Handoff.

(** The shim accepts exactly what the jailer passes on: the identity of an
    attempt, three times, and the arguments [fixed_jailer_arguments] puts behind
    [--], with the canary flag alone as the only addition, which selects its mode. *)
Theorem handoff_exact uid arguments mode : 0 <= uid ->
  validate_jailer_handoff arguments = Ok mode <->
  exists nonce attempt a b c extra,
    from_nonce_hex nonce = Ok attempt /\ all_digits a && all_digits b && all_digits c = true /\
    arguments = passed_on attempt a b c (after_dashes (fixed_jailer_arguments attempt uid) ++ extra) /\
    (mode = Exec /\ extra = [] \/ mode = SeccompCanary /\ extra = [SECCOMP_CANARY_ARGUMENT]).
Proof.
  intros Hu. split.
  - unfold validate_jailer_handoff. intros (m & Hm & H)%bind_ok. apply guard_ok in H as [H [= <-]].
    repeat (apply orb_false_iff in H as [H ?]). repeat match goal with E : negb _ = false |- _ => apply negb_false_iff in E end.
    repeat match goal with E : bool_decide _ = true |- _ => apply bool_decide_eq_true in E end.
    destruct arguments as [|x0 [|x1 [|x2 [|x3 [|x4 [|x5 [|x6 [|x7 [|x8 [|x9 [|x10 [|x11 [|x12 extra]]]]]]]]]]]]]; try done.
    cbn [nth] in *. subst. assert (is_attempt_id x1 = true) as Ha by done.
    pose proof Ha as [nonce Hn]%attempt_id_ok. exists nonce, x1, x3, x5, x7, extra. rewrite jailer_passes by done.
    split_and!; [done|by rewrite !andb_true_iff|done|]. destruct extra as [|y [|]]; cbn in Hm.
    + injection Hm as <-. by left.
    + apply check_ok in Hm as [E%bool_decide_eq_true [= <-]]. subst. by right.
    + discriminate Hm.
  - intros (nonce & attempt & a & b & c & extra & Hn & Hd & -> & Hmode).
    assert (is_attempt_id attempt = true) as Ha by (apply attempt_id_ok; by exists nonce). rewrite jailer_passes by done.
    apply andb_true_iff in Hd as [[H1 H2]%andb_true_iff H3]. unfold validate_jailer_handoff, passed_on, VMM_ARGUMENTS.
    destruct Hmode as [[-> ->]|[-> ->]]; cbn [app length nth]; rewrite Ha, H1, H2, H3; reflexivity.
Qed.

Lemma handoff_exact_witness :
  0 <= 300000 /\
  validate_jailer_handoff
    (passed_on "keep-0123456789abcdef0123456789abcdef" "1" "2" "3"
       (after_dashes (fixed_jailer_arguments "keep-0123456789abcdef0123456789abcdef" 300000) ++ [])) = Ok Exec.
Proof.
  split; [lia|]. apply (handoff_exact 300000); [lia|].
  exists "0123456789abcdef0123456789abcdef"%string, "keep-0123456789abcdef0123456789abcdef"%string, "1"%string, "2"%string, "3"%string, [].
  split; [vm_compute; reflexivity|]. split; [reflexivity|]. split; [reflexivity|]. left. split; reflexivity.
Defined.
