(* ===== verification/Landlock.v ===== *)
(** * Landlock policies ([linux-abi/src/lib.rs], [prober-launcher/src/lib.rs])

    The reviewed masks of each ABI, the rights of a rule, and the marker by which the
    shim reports the policy it activated.  The system calls are in [Shim] and [Cell]. *)

From S2P Require Import Prelude Cbor Sha256 Paths Schema Numbers GuestResult Launch.

(** ** Rights *)

Definition LANDLOCK_ACCESS_FS_EXECUTE : Z := Z.shiftl 1 0.
Definition LANDLOCK_ACCESS_FS_WRITE_FILE : Z := Z.shiftl 1 1.
Definition LANDLOCK_ACCESS_FS_READ_FILE : Z := Z.shiftl 1 2.
Definition LANDLOCK_ACCESS_FS_READ_DIR : Z := Z.shiftl 1 3.
Definition LANDLOCK_ACCESS_FS_REMOVE_DIR : Z := Z.shiftl 1 4.
Definition LANDLOCK_ACCESS_FS_REMOVE_FILE : Z := Z.shiftl 1 5.
Definition LANDLOCK_ACCESS_FS_MAKE_CHAR : Z := Z.shiftl 1 6.
Definition LANDLOCK_ACCESS_FS_MAKE_DIR : Z := Z.shiftl 1 7.
Definition LANDLOCK_ACCESS_FS_MAKE_REG : Z := Z.shiftl 1 8.
Definition LANDLOCK_ACCESS_FS_MAKE_SOCK : Z := Z.shiftl 1 9.
Definition LANDLOCK_ACCESS_FS_MAKE_FIFO : Z := Z.shiftl 1 10.
Definition LANDLOCK_ACCESS_FS_MAKE_BLOCK : Z := Z.shiftl 1 11.
Definition LANDLOCK_ACCESS_FS_MAKE_SYM : Z := Z.shiftl 1 12.
Definition LANDLOCK_ACCESS_FS_REFER : Z := Z.shiftl 1 13.
Definition LANDLOCK_ACCESS_FS_TRUNCATE : Z := Z.shiftl 1 14.
Definition LANDLOCK_ACCESS_FS_IOCTL_DEV : Z := Z.shiftl 1 15.
Definition LANDLOCK_ACCESS_FS_RESOLVE_UNIX : Z := Z.shiftl 1 16.
Definition LANDLOCK_ACCESS_NET_BIND_TCP : Z := Z.shiftl 1 0.
Definition LANDLOCK_ACCESS_NET_CONNECT_TCP : Z := Z.shiftl 1 1.
Definition LANDLOCK_ACCESS_NET_BIND_UDP : Z := Z.shiftl 1 2.
Definition LANDLOCK_ACCESS_NET_CONNECT_SEND_UDP : Z := Z.shiftl 1 3.
Definition LANDLOCK_SCOPE_ABSTRACT_UNIX_SOCKET : Z := Z.shiftl 1 0.
Definition LANDLOCK_SCOPE_SIGNAL : Z := Z.shiftl 1 1.
Definition MAXIMUM_SUPPORTED_LANDLOCK_ABI : Z := 10.

Record LandlockPolicyObservation : Set := mkPolicy {
  abi : Z;
  handled_filesystem : Z;
  handled_network : Z;
  scoped : Z
}.
Definition bits (l : list Z) : Z := fold_left Z.lor l 0.

(** [None] is the error for an ABI outside the reviewed range. *)
Definition reviewed_landlock_policy (abi : Z) : option LandlockPolicyObservation :=
  if negb ((3 <=? abi) && (abi <=? MAXIMUM_SUPPORTED_LANDLOCK_ABI)) then None
  else
    let handled_filesystem :=
      bits [LANDLOCK_ACCESS_FS_EXECUTE; LANDLOCK_ACCESS_FS_WRITE_FILE; LANDLOCK_ACCESS_FS_READ_FILE;
            LANDLOCK_ACCESS_FS_READ_DIR; LANDLOCK_ACCESS_FS_REMOVE_DIR; LANDLOCK_ACCESS_FS_REMOVE_FILE;
            LANDLOCK_ACCESS_FS_MAKE_CHAR; LANDLOCK_ACCESS_FS_MAKE_DIR; LANDLOCK_ACCESS_FS_MAKE_REG;
            LANDLOCK_ACCESS_FS_MAKE_SOCK; LANDLOCK_ACCESS_FS_MAKE_FIFO; LANDLOCK_ACCESS_FS_MAKE_BLOCK;
            LANDLOCK_ACCESS_FS_MAKE_SYM; LANDLOCK_ACCESS_FS_REFER; LANDLOCK_ACCESS_FS_TRUNCATE] in
    let handled_filesystem :=
      if 5 <=? abi then Z.lor handled_filesystem LANDLOCK_ACCESS_FS_IOCTL_DEV else handled_filesystem in
    let handled_filesystem :=
      if 9 <=? abi then Z.lor handled_filesystem LANDLOCK_ACCESS_FS_RESOLVE_UNIX else handled_filesystem in
    let handled_network :=
      if 4 <=? abi then Z.lor 0 (Z.lor LANDLOCK_ACCESS_NET_BIND_TCP LANDLOCK_ACCESS_NET_CONNECT_TCP) else 0 in
    let handled_network :=
      if 10 <=? abi
      then Z.lor handled_network (Z.lor LANDLOCK_ACCESS_NET_BIND_UDP LANDLOCK_ACCESS_NET_CONNECT_SEND_UDP)
      else handled_network in
    let scoped := if 6 <=? abi then Z.lor LANDLOCK_SCOPE_ABSTRACT_UNIX_SOCKET LANDLOCK_SCOPE_SIGNAL else 0 in
    Some (mkPolicy abi handled_filesystem handled_network scoped).

(** The rights of the four kinds of rule; [a & !b] on [u64]. *)
Definition without (a b : Z) : Z := Z.land a (Z.lxor u64_max b).
Definition read_only_rights : Z :=
  bits [LANDLOCK_ACCESS_FS_EXECUTE; LANDLOCK_ACCESS_FS_READ_FILE; LANDLOCK_ACCESS_FS_READ_DIR].
Definition read_write_rights (p : LandlockPolicyObservation) : Z := without (handled_filesystem p) LANDLOCK_ACCESS_FS_IOCTL_DEV.
Definition read_write_file_rights : Z :=
  bits [LANDLOCK_ACCESS_FS_READ_FILE; LANDLOCK_ACCESS_FS_WRITE_FILE; LANDLOCK_ACCESS_FS_TRUNCATE].
Definition device_rights (p : LandlockPolicyObservation) : Z :=
  Z.lor (Z.lor LANDLOCK_ACCESS_FS_READ_FILE LANDLOCK_ACCESS_FS_WRITE_FILE)
    (Z.land (handled_filesystem p) LANDLOCK_ACCESS_FS_IOCTL_DEV).
(** The guard of [add_path]. *)
Definition grants_unhandled (p : LandlockPolicyObservation) (allowed_access : Z) : bool :=
  negb (without allowed_access (handled_filesystem p) =? 0).

(** ** The marker *)

Record CandidateLandlockObservation : Set := mkLandlock {
  landlock_abi : Z;
  landlock_filesystem : Z;
  landlock_network : Z;
  landlock_scoped : Z;
  denied_write_errno : Z;
  denied_create_errno : Z
}.
Definition verify_landlock (o : CandidateLandlockObservation) : candidate unit :=
  match reviewed_landlock_policy (landlock_abi o) with
  | None => Err (Error DirectProcessFailed)
  | Some expected =>
      throw_if (landlock_abi o <? 4)
               || negb (landlock_filesystem o =? handled_filesystem expected)
               || negb (landlock_network o =? handled_network expected)
               || negb (landlock_scoped o =? scoped expected)
               || negb (denied_write_errno o =? 13) || negb (denied_create_errno o =? 13)
        with Error DirectProcessFailed ;;
      Ok tt
  end.

(** [format!("{n:x}")] of a [u64]: at most 16 digits. *)
Fixpoint hex_digits (fuel : nat) (n : Z) (digits : list byte) : list byte :=
  match fuel with
  | O => digits
  | S fuel =>
      let digits := hex_digit (n mod 16) :: digits in
      if n <? 16 then digits else hex_digits fuel (n / 16) digits
  end.
Definition lower_hex_text (n : Z) : string := str_of_bytes (hex_digits 16 n []).
(** [u64::from_str_radix(value, 16)]: an optional plus sign, at least one digit. *)
Definition hex_step (acc : option Z) (b : byte) : option Z :=
  n ← acc; d ← hex_value b; if n * 16 + d <=? u64_max then Some (n * 16 + d) else None.
Definition from_str_radix_16 (s : string) : option Z :=
  let digits := match str_bytes s with x2b :: rest => rest | bytes => bytes end in
  if bool_decide (digits = []) then None else fold_left hex_step digits (Some 0).
Definition is_some {A : Type} (o : option A) : bool := match o with Some _ => true | None => false end.

(** The errors of the parser are boxed messages: [None]. *)
Definition parse_canonical_hex_u64 (value : string) : option Z :=
  parsed ← from_str_radix_16 value;
  if bool_decide (value = ""%string)
     || existsb (fun b => negb (is_some (hex_value b)) || is_upper b) (str_bytes value)
     || negb (bool_decide (lower_hex_text parsed = value))
  then None else Some parsed.
(** [str::parse::<u8>] and [parse::<u32>] *)
Definition parse_uint (maximum : Z) (s : string) : option Z :=
  n ← parse_u64 s; if n <=? maximum then Some n else None.
Definition ascii_whitespace (b : byte) : bool := existsb (fun w => bool_decide (b = w)) [x20; x09; x0a; x0c; x0d].
(** [str::split_ascii_whitespace] *)
Fixpoint words_of (bs word : list byte) : list (list byte) :=
  match bs with
  | [] => if bool_decide (word = []) then [] else [reverse word]
  | b :: bs =>
      if ascii_whitespace b
      then if bool_decide (word = []) then words_of bs [] else reverse word :: words_of bs []
      else words_of bs (b :: word)
  end.
Definition split_ascii_whitespace (s : string) : list string := map str_of_bytes (words_of (str_bytes s) []).

Definition MARKER_PREFIX : string := "[keep-prober-landlock] ".
Definition parse_landlock_observation (stderr : list byte) : option CandidateLandlockObservation :=
  if negb (utf8_valid stderr) then None
  else
    match omap (strip_prefix MARKER_PREFIX) (lines (str_of_bytes stderr)) with
    | [marker] =>
        match split_ascii_whitespace marker with
        | [f0; f1; f2; f3; f4; f5] =>
            abi ← strip_prefix "abi=" f0 ≫= parse_uint u32_max;
            fs ← strip_prefix "fs=" f1 ≫= parse_canonical_hex_u64;
            net ← strip_prefix "net=" f2 ≫= parse_canonical_hex_u64;
            scope ← strip_prefix "scoped=" f3 ≫= parse_canonical_hex_u64;
            write ← strip_prefix "deniedWrite=" f4 ≫= parse_uint u8_max;
            create ← strip_prefix "deniedCreate=" f5 ≫= parse_uint u8_max;
            let observation := mkLandlock abi fs net scope write create in
            match verify_landlock observation with
            | Ok _ => Some observation
            | Err _ => None
            end
        | _ => None
        end
    | _ => None
    end.

(** The line the shim writes ([prober-vmm-shim/src/main.rs]). *)
Definition shim_marker (restricted_abi : Z) (p : LandlockPolicyObservation) : list byte :=
  str_bytes (MARKER_PREFIX +:+ "abi=" +:+ number restricted_abi +:+ " fs=" +:+ lower_hex_text (handled_filesystem p)
    +:+ " net=" +:+ lower_hex_text (handled_network p) +:+ " scoped=" +:+ lower_hex_text (scoped p)
    +:+ " deniedWrite=13 deniedCreate=13")%string.
