(* ===== verification/LandlockFacts.v ===== *)
(** * Theorems on Landlock policies

    The bit masks of the launcher and the right names of the P2 documents are the same
    policy, its rules are admitted, and its marker is read back. *)

From S2P Require Import Prelude Cbor CborFacts Sha256 Paths TextFacts Schema Numbers P2Policies GuestResult Launch Landlock.

(** ** Names and bits *)
Definition fs_bit (right : string) : Z :=
  match List.find (fun p : string * Z => bool_decide (p.1 = right))
    [("execute", 0); ("write-file", 1); ("read-file", 2); ("read-dir", 3); ("remove-dir", 4); ("remove-file", 5); ("make-char", 6);
     ("make-dir", 7); ("make-reg", 8); ("make-sock", 9); ("make-fifo", 10); ("make-block", 11); ("make-sym", 12); ("refer", 13);
     ("truncate", 14); ("ioctl-dev", 15); ("resolve-unix", 16)]%string with
  | Some p => Z.shiftl 1 p.2
  | None => 0
  end.
Definition net_bit (right : string) : Z :=
  match List.find (fun p : string * Z => bool_decide (p.1 = right))
    [("bind-tcp", 0); ("connect-tcp", 1); ("bind-udp", 2); ("connect-send-udp", 3)]%string with
  | Some p => Z.shiftl 1 p.2
  | None => 0
  end.
Definition scope_bit (right : string) : Z :=
  match List.find (fun p : string * Z => bool_decide (p.1 = right)) [("abstract-unix-socket", 0); ("signal", 1)]%string with
  | Some p => Z.shiftl 1 p.2
  | None => 0
  end.
(** The policy as the P2 document of the same ABI names it. *)
Definition named_policy (abi : Z) : LandlockPolicyObservation :=
  mkPolicy abi (bits (map fs_bit (expected_fs abi))) (bits (map net_bit (expected_net abi)))
    (bits (map scope_bit (expected_scope abi))).

Definition ABIS : list Z := [4; 5; 6; 7; 8; 9; 10].
Lemma abi_in abi : 4 <= abi <= 10 <-> abi ∈ ABIS.
Proof. unfold ABIS. rewrite !elem_of_cons. setoid_rewrite elem_of_nil. lia. Qed.
Lemma for_abis (P : Z -> Prop) abi : Forall P ABIS -> 4 <= abi <= 10 -> P abi.
Proof. rewrite Forall_forall. intros H Ha%abi_in. by apply H. Qed.
Lemma policy_named abi : 4 <= abi <= 10 -> reviewed_landlock_policy abi = Some (named_policy abi).
Proof. apply (for_abis (fun abi => reviewed_landlock_policy abi = Some (named_policy abi))). by repeat constructor. Qed.

(** ** Lines of a text *)
Module TextLines.

Lemma utf8_app a b : utf8_valid a = true -> utf8_valid b = true -> utf8_valid (a ++ b) = true.
Proof.
  intros Ha Hb. remember (length a) as n eqn:Hn. revert a Hn Ha. induction n as [n IH] using lt_wf_ind; intros a -> Ha.
  destruct a as [|x a]; [done|]. cbn [utf8_valid app] in *.
  destruct (bZ x <? 128); [apply (IH (length a)); [cbn; lia|done|done]|].
  destruct (byte_in 194 223 x); [|destruct (byte_in 224 239 x); [|destruct (byte_in 240 244 x); [|done]]].
  - destruct a as [|y a]; [done|]. cbn [app]. apply andb_true_iff in Ha as [-> Ha]. apply (IH (length a)); [cbn; lia|done|done].
  - destruct a as [|y [|z a]]; try done. cbn [app]. apply andb_true_iff in Ha as [-> Ha]. apply (IH (length a)); [cbn; lia|done|done].
  - destruct a as [|y [|z [|t a]]]; try done. cbn [app]. apply andb_true_iff in Ha as [-> Ha]. apply (IH (length a)); [cbn; lia|done|done].
Qed.

(** A text of terminated lines. *)
Definition text_of (ls : list (list byte)) : list byte := concat (map (fun l => l ++ [x0a]) ls).
Lemma text_of_lines ls : Forall (Forall (fun b => b <> x0a)) ls -> lines_of (split_bytes x0a (text_of ls)) = map strip_cr ls.
Proof.
  induction 1 as [|l ls Hl _ IH]; [done|]. unfold text_of. cbn [map concat]. fold (text_of ls). rewrite <- app_assoc. cbn [app].
  rewrite split_bytes_app by done. cbn [lines_of]. destruct (split_bytes_cons x0a (text_of ls)) as (p & ps & E).
  rewrite E in *. by rewrite IH.
Qed.
Lemma text_of_utf8 ls : Forall (fun l => utf8_valid l = true) ls -> utf8_valid (text_of ls) = true.
Proof.
  induction 1 as [|l ls Hl _ IH]; [done|]. unfold text_of. cbn [map concat]. fold (text_of ls).
  by apply utf8_app; [apply utf8_app|].
Qed.
Lemma strip_cr_prefix l : exists r, l = strip_cr l ++ r.
Proof.
  unfold strip_cr. destruct (reverse l) as [|b r] eqn:E; [exists []; by rewrite app_nil_r|].
  assert (l = reverse r ++ [b]) as -> by (by rewrite <- (reverse_involutive l), E, reverse_cons).
  destruct b; try (exists []; by rewrite app_nil_r). by eexists.
Qed.
Lemma strip_prefix_none p l : strip_prefix_bytes p l = None -> strip_prefix_bytes p (strip_cr l) = None.
Proof.
  intros H. destruct (strip_prefix_bytes p (strip_cr l)) as [r|] eqn:E; [|done]. apply strip_prefix_bytes_spec in E.
  destruct (strip_cr_prefix l) as [t Ht]. rewrite E, <- app_assoc in Ht. apply strip_prefix_bytes_spec in Ht. congruence.
Qed.
End TextLines.
Import TextLines.

(** ** The marker *)
Module Marker.

Definition marker_of (abi : Z) : list byte := shim_marker abi (named_policy abi).
Definition other_line (l : list byte) : Prop :=
  utf8_valid l = true /\ Forall (fun b => b <> x0a) l /\ strip_prefix_bytes (str_bytes MARKER_PREFIX) l = None.
Definition observed (abi : Z) : CandidateLandlockObservation :=
  let p := named_policy abi in mkLandlock abi (handled_filesystem p) (handled_network p) (scoped p) 13 13.

(** The marker of each ABI, alone on a console. *)
Lemma markers_read : Forall (fun abi => parse_landlock_observation (marker_of abi ++ [x0a]) = Some (observed abi)) ABIS.
Proof. by repeat (apply Forall_cons_2; [vm_compute; reflexivity|]). Qed.
Lemma markers_plain : Forall (fun abi => utf8_valid (marker_of abi) = true /\ Forall (fun b => b <> x0a) (marker_of abi) /\
  strip_cr (marker_of abi) = marker_of abi /\ (exists r, strip_prefix MARKER_PREFIX (str_of_bytes (marker_of abi)) = Some r)) ABIS.
Proof.
  assert (forall l, forallb (fun b => negb (bool_decide (b = x0a))) l = true -> Forall (fun b : byte => b <> x0a) l) as Hl.
  { intros l H%forallb_Forall'. eapply Forall_impl; [exact H|]. intros b Hb%negb_true_iff%bool_decide_eq_false. exact Hb. }
  repeat (apply Forall_cons_2; [split_and!; [vm_compute; reflexivity|apply Hl; vm_compute; reflexivity|vm_compute; reflexivity|
    eexists; vm_compute; reflexivity]|]). constructor.
Qed.

Lemma omap_none ls : Forall other_line ls -> omap (strip_prefix MARKER_PREFIX) (map str_of_bytes (map strip_cr ls)) = [].
Proof.
  induction 1 as [|l ls (_ & _ & Hl) _ IH]; [done|]. cbn [map omap list_omap]. assert (strip_prefix MARKER_PREFIX (str_of_bytes (strip_cr l)) = None) as ->; [|exact IH].
  unfold strip_prefix. rewrite str_bytes_of_bytes. apply strip_prefix_none in Hl as ->. done.
Qed.
Lemma marker_lines before m after r :
  Forall other_line before -> Forall other_line after -> strip_cr m = m -> strip_prefix MARKER_PREFIX (str_of_bytes m) = Some r ->
  omap (strip_prefix MARKER_PREFIX) (map str_of_bytes (map strip_cr (before ++ m :: after))) = [r].
Proof.
  intros Hb Ha Hm Hr. rewrite !map_app, omap_app, omap_none by done. cbn [map app]. rewrite Hm. cbn [omap list_omap]. rewrite Hr.
  by f_equal; apply omap_none.
Qed.
End Marker.
Import Marker.

(** C40. One Landlock policy throughout.  For every ABI a P2 document may ask for, the
    masks the launcher activates are the bits of the rights the document must list;
    no rule of the shim grants a right outside them; a read-only rule cannot write;
    and the marker the shim prints, as a line of its own among any other lines, is
    read back as exactly that policy with both denials. *)
Theorem landlock_policy_agrees abi before after :
  4 <= abi <= 10 -> Forall other_line before -> Forall other_line after ->
  reviewed_landlock_policy abi = Some (named_policy abi) /\
  Forall (fun rights => grants_unhandled (named_policy abi) rights = false)
    [read_only_rights; read_write_rights (named_policy abi); read_write_file_rights; device_rights (named_policy abi)] /\
  Z.land read_only_rights (Z.lor LANDLOCK_ACCESS_FS_WRITE_FILE LANDLOCK_ACCESS_FS_TRUNCATE) = 0 /\
  parse_landlock_observation (text_of (before ++ marker_of abi :: after)) = Some (observed abi).
Proof.
  intros Habi Hb Ha. split_and!; [by apply policy_named| |done|].
  - revert Habi. apply (for_abis (fun abi => Forall (fun rights => grants_unhandled (named_policy abi) rights = false)
      [read_only_rights; read_write_rights (named_policy abi); read_write_file_rights; device_rights (named_policy abi)])).
    by repeat constructor.
  - pose proof (for_abis _ _ markers_plain Habi) as (Hu & Hn & Hc & r & Hr). pose proof (for_abis _ _ markers_read Habi) as Hp.
    assert (forall before after, Forall other_line before -> Forall other_line after ->
      utf8_valid (text_of (before ++ marker_of abi :: after)) = true /\
      omap (strip_prefix MARKER_PREFIX) (lines (str_of_bytes (text_of (before ++ marker_of abi :: after)))) = [r]) as Hall.
    { clear before after Hb Ha. intros before after Hb Ha. split.
      - apply text_of_utf8, Forall_app. split; [eapply Forall_impl; [exact Hb|]; by intros l (? & _)|].
        constructor; [done|]. eapply Forall_impl; [exact Ha|]. by intros l (? & _).
      - unfold lines. rewrite str_bytes_of_bytes, text_of_lines; [by apply marker_lines|].
        apply Forall_app. split; [eapply Forall_impl; [exact Hb|]; by intros l (_ & ? & _)|].
        constructor; [done|]. eapply Forall_impl; [exact Ha|]. by intros l (_ & ? & _). }
    destruct (Hall before after Hb Ha) as [U1 L1]. destruct (Hall [] [] (Forall_nil_2 _) (Forall_nil_2 _)) as [U2 L2].
    rewrite <- Hp. change (marker_of abi ++ [x0a]) with (marker_of abi ++ [x0a] ++ []). unfold parse_landlock_observation.
    change (text_of ([] ++ marker_of abi :: [])) with ((marker_of abi ++ [x0a]) ++ []) in U2, L2. rewrite <- app_assoc in U2, L2.
    by rewrite U1, U2, L1, L2.
Qed.

Lemma landlock_policy_agrees_witness :
  4 <= 7 <= 10 /\ parse_landlock_observation (text_of ([str_bytes "noise"] ++ marker_of 7 :: [])) = Some (observed 7).
Proof.
  assert (4 <= 7 <= 10) as Habi by lia. split; [exact Habi|].
  assert (Forall other_line [str_bytes "noise"]) as Hb.
  { constructor; [|constructor]. split; [vm_compute; reflexivity|]. split; [|vm_compute; reflexivity].
    repeat (constructor; [discriminate|]). constructor. }
  assert (Forall other_line []) as Ha by constructor.
  pose proof (landlock_policy_agrees 7 [str_bytes "noise"] [] Habi Hb Ha) as H.
  exact (proj2 (proj2 (proj2 H))).
Defined.
