(* ===== verification/World.v ===== *)
(** * Fallible computations on an explicit world

    [io E W A]: a computation that changes the world [W] and returns a result or an
    error of type [E].  [let! x := m in k] is [let x = m?; k]. *)

From S2P Require Import Prelude.

Definition io (E W A : Type) : Type := W -> result (failure E) A * W.
Definition io_bind {E W A B : Type} (m : io E W A) (k : A -> io E W B) : io E W B :=
  fun w => match m w with (Ok a, w) => k a w | (Err e, w) => (Err e, w) end.
Definition io_ret {E W A : Type} (a : A) : io E W A := fun w => (Ok a, w).
Definition io_fail {E W A : Type} (e : E) : io E W A := fun w => (Err (Error e), w).
Definition pure {E W A : Type} (m : result (failure E) A) : io E W A := fun w => (m, w).
(** An operation of the system: [None] is its error, turned into [e]. *)
Definition ask {E W A : Type} (e : E) (m : W -> option A * W) : io E W A :=
  fun w => match m w with (Some a, w) => (Ok a, w) | (None, w) => (Err (Error e), w) end.
(** An operation that cannot fail, or whose failure is looked at. *)
Definition total {E W A : Type} (m : W -> A * W) : io E W A := fun w => let '(a, w) := m w in (Ok a, w).
(** [map_err] on a computation. *)
Definition relabel {E E' W A : Type} (f : E -> E') (m : io E W A) : io E' W A :=
  fun w =>
    match m w with
    | (Ok a, w) => (Ok a, w)
    | (Err (Error e), w) => (Err (Error (f e)), w)
    | (Err Panic, w) => (Err Panic, w)
    | (Err OutOfFuel, w) => (Err OutOfFuel, w)
    end.

Notation "'let!' x ':=' e 'in' k" := (io_bind e (fun x => k))
  (at level 10, x pattern, e at level 100, k at level 200, format "'[v' 'let!'  x  ':='  e  'in' '/' k ']'") : result_scope.
Notation "'refuse_if' b 'with' e ';;' k" := (if b then io_fail e else k)
  (at level 10, b at level 99, e at level 99, k at level 200, format "'[v' 'refuse_if'  b  'with'  e  ';;' '/' k ']'") : result_scope.

(** ** Successful runs *)

Lemma io_bind_ok {E W A B} (m : io E W A) (k : A -> io E W B) w b w' :
  io_bind m k w = (Ok b, w') <-> exists a w1, m w = (Ok a, w1) /\ k a w1 = (Ok b, w').
Proof.
  unfold io_bind. destruct (m w) as [[a|e] w1] eqn:Em; split.
  - intros H. by exists a, w1.
  - by intros (a' & w2 & [= <- <-] & H).
  - done.
  - by intros (a' & w2 & H & _).
Qed.
Lemma ask_ok {E W A} (e : E) (m : W -> option A * W) w a w' : ask e m w = (Ok a, w') <-> m w = (Some a, w').
Proof. unfold ask. destruct (m w) as [[b|] w1]; split; by intros [= -> ->]. Qed.
Lemma total_ok {E W A} (m : W -> A * W) w a w' : total (E:=E) m w = (Ok a, w') -> m w = (a, w').
Proof. unfold total. destruct (m w) as [b w1]. by intros [= -> ->]. Qed.
Lemma pure_ok {E W A} (m : result (failure E) A) (w : W) a w' : pure m w = (Ok a, w') <-> m = Ok a /\ w' = w.
Proof. unfold pure. split; [by intros [= -> ->]|by intros [-> ->]]. Qed.
Lemma relabel_ok {E E' W A} (f : E -> E') (m : io E W A) w a w' : relabel f m w = (Ok a, w') <-> m w = (Ok a, w').
Proof. unfold relabel. destruct (m w) as [[b|[]] w1]; split; by intros [= -> ->]. Qed.
Lemma io_guard_ok {E W A} (b : bool) (e : E) (m : io E W A) w r w' :
  (if b then io_fail e else m) w = (Ok r, w') <-> b = false /\ m w = (Ok r, w').
Proof. destruct b; cbn; split; [done|by intros []|done|by intros []]. Qed.

(** ** Runs that answer *)

Definition stuck {E A} (r : result (failure E) A) : Prop := r = Err OutOfFuel \/ r = Err Panic.
Definition answers {E W A} (m : io E W A) : Prop := forall w r w', m w = (r, w') -> ~ stuck r.

Lemma answers_bind {E W A B} (m : io E W A) (k : A -> io E W B) : answers m -> (forall a, answers (k a)) -> answers (io_bind m k).
Proof.
  intros Hm Hk w r w'. unfold io_bind. destruct (m w) as [[a|e] w1] eqn:Em; [apply Hk|]. intros [= <- <-].
  pose proof (Hm _ _ _ Em) as Hs. intros [[= ->]|[= ->]]; apply Hs; [by left|by right].
Qed.
Lemma answers_ok {E A} (a : A) : ~ stuck (Ok a : result (failure E) A). Proof. by intros []. Qed.
Lemma answers_error {E A} (e : E) : ~ stuck (Err (Error e) : result (failure E) A). Proof. by intros []. Qed.
Lemma answers_ret {E W A} (a : A) : answers (io_ret (E:=E) (W:=W) a). Proof. intros w r w' [= <- <-]. apply answers_ok. Qed.
Lemma answers_fail {E W A} (e : E) : answers (io_fail (W:=W) (A:=A) e). Proof. intros w r w' [= <- <-]. apply answers_error. Qed.
Lemma answers_pure {E W A} (m : result (failure E) A) : ~ stuck m -> answers (pure (W:=W) m). Proof. by intros Hm w r w' [= <- <-]. Qed.
Lemma answers_ask {E W A} (e : E) (m : W -> option A * W) : answers (ask e m).
Proof. intros w r w'. unfold ask. destruct (m w) as [[a|] w1]; intros [= <- <-]; [apply answers_ok|apply answers_error]. Qed.
Lemma answers_total {E W A} (m : W -> A * W) : answers (total (E:=E) m).
Proof. intros w r w'. unfold total. destruct (m w). intros [= <- <-]. apply answers_ok. Qed.

(** ** Traces

    [events] is what a world has recorded so far.  [adds m R]: whatever happens, [m]
    only appends to it, and [R] holds of its result and of what it appended. *)
Definition silent {W Ev A} (events : W -> list Ev) (m : W -> A * W) : Prop := forall w, events (m w).2 = events w.

Section traces.
Context {E W Ev : Type} (events : W -> list Ev).

Definition adds {A} (m : io E W A) (R : result (failure E) A -> list Ev -> Prop) : Prop :=
  forall w r w', m w = (r, w') -> exists l, events w' = events w ++ l /\ R r l.
(** [m] adds nothing, and what it returns satisfies [K]. *)
Definition quietly {A} (m : io E W A) (K : A -> Prop) : Prop :=
  adds m (fun r l => l = [] /\ match r with Ok a => K a | Err _ => True end).

Lemma adds_weaken {A} (m : io E W A) (R R' : _ -> _ -> Prop) : adds m R -> (forall r l, R r l -> R' r l) -> adds m R'.
Proof. intros H Hw w r w' Hm. destruct (H _ _ _ Hm) as (l & He & HR). exists l. auto. Qed.
Lemma adds_bind {A B} (m : io E W A) (k : A -> io E W B) (R S : _ -> _ -> Prop) :
  adds m R -> (forall e l, R (Err e) l -> S (Err e) l) ->
  (forall a l, R (Ok a) l -> adds (k a) (fun r l' => S r (l ++ l'))) -> adds (io_bind m k) S.
Proof.
  intros Hm HE Hk w r w'. unfold io_bind. destruct (m w) as [[a|e] w1] eqn:Em.
  - intros Hr. destruct (Hm _ _ _ Em) as (l & He & HR). destruct (Hk _ _ HR _ _ _ Hr) as (l' & He' & HS').
    exists (l ++ l'). by rewrite He', He, app_assoc.
  - intros [= <- <-]. destruct (Hm _ _ _ Em) as (l & He & HR). exists l. auto.
Qed.
Lemma quietly_then {A B} (m : io E W A) (k : A -> io E W B) K (S : _ -> _ -> Prop) :
  quietly m K -> (forall e, S (Err e) []) -> (forall a, K a -> adds (k a) S) -> adds (io_bind m k) S.
Proof. intros Hm HE Hk. eapply adds_bind; [exact Hm| |]; cbv beta. - by intros e l [-> _]. - intros a l [-> Ha]. by apply Hk. Qed.
Lemma adds_guard {A} (b : bool) e (m : io E W A) (S : _ -> _ -> Prop) :
  S (Err (Error e)) [] -> (b = false -> adds m S) -> adds (refuse_if b with e ;; m) S.
Proof. intros HE Hm. destruct b; [|by apply Hm]. intros w r w' [= <- <-]. exists []. by rewrite app_nil_r. Qed.
Lemma adds_ret {A} (a : A) (S : _ -> _ -> Prop) : S (Ok a) [] -> adds (io_ret (W:=W) a) S.
Proof. intros H w r w' [= <- <-]. exists []. by rewrite app_nil_r. Qed.
Lemma adds_ask {A} (e : E) (m : W -> option A * W) (entry : A -> list Ev) :
  (forall w, let '(r, w') := m w in events w' = events w ++ match r with Some a => entry a | None => [] end) ->
  adds (ask e m) (fun r l => match r with Ok a => l = entry a | Err _ => l = [] end).
Proof.
  intros H w r w'. specialize (H w). unfold ask. destruct (m w) as [[a|] w1]; intros [= <- <-]; eexists; eauto.
Qed.
Lemma quietly_pure {A} (m : result (failure E) A) : quietly (pure m) (fun a => m = Ok a).
Proof. intros w r w' [= <- <-]. exists []. rewrite app_nil_r. split_and!; [done..|]. by destruct m. Qed.
Lemma quietly_ask {A} (e : E) (m : W -> option A * W) (K : A -> Prop) :
  silent events m -> (forall w a w', m w = (Some a, w') -> K a) -> quietly (ask e m) K.
Proof.
  intros Hs HK w r w'. pose proof (Hs w) as He. unfold ask. destruct (m w) as [[a|] w1] eqn:Em; intros [= <- <-];
    exists []; rewrite app_nil_r; split_and!; try done. by eapply HK.
Qed.
Lemma quietly_total {A} (m : W -> A * W) (K : A -> Prop) :
  silent events m -> (forall w a w', m w = (a, w') -> K a) -> quietly (total m) K.
Proof.
  intros Hs HK w r w'. pose proof (Hs w) as He. unfold total. destruct (m w) as [a w1] eqn:Em. intros [= <- <-].
  exists []. rewrite app_nil_r. split_and!; try done. by eapply HK.
Qed.
End traces.
