(* ===== verification/Probe.v ===== *)
(** * The candidate probe ([prober-launcher/src/lib.rs], module [candidate_probe])

    The lease of a user id, the appraisal of the live process, and the launch from
    the first look at the console to the removal of every residue.  Files, processes
    and control groups are interfaces on an explicit world. *)

From S2P Require Import Prelude Cbor Sha256 Paths Schema Numbers GuestResult Launch Landlock World.

(** ** Errors

    The code boxes its errors: a refusal, an error of the system, a message, a refusal
    with the tails of both outputs, or a failed tool with the bytes that its message
    shows. *)
Inductive LaunchError : Set :=
| Refused (refusal : CandidateRefusal)
| SystemError
| Message (text : string)
| Diagnosed (refusal : CandidateRefusal) (serial_tail stderr_tail : string)
| ToolFailed (stderr : list byte).
Abbreviation launch A := (result (failure LaunchError) A).
(** [?] on a refusal, into a boxed error. *)
Definition boxed {A : Type} (m : candidate A) : launch A :=
  match m with
  | Ok a => Ok a
  | Err (Error e) => Err (Error (Refused e))
  | Err Panic => Err Panic
  | Err OutOfFuel => Err OutOfFuel
  end.

Abbreviation io W A := (World.io LaunchError W A).
(** An operation of the system that fails with an error. *)
Definition sys {W A : Type} (m : W -> option A * W) : io W A := ask SystemError m.

(** ** Leases of user ids *)

(** An entry of [/proc]: its name and, when its metadata can be read, its owner. *)
Definition process_entry : Type := (string * option Z)%type.
Inductive creation : Set := Created | AlreadyExists | NotCreated.
Record LeaseRoot : Set := mkLeaseRoot { root_is_dir : bool; root_is_symlink : bool; root_uid : Z; root_gid : Z; root_mode : Z }.
(** [lease_root] creates the directory, sets its mode and reads its metadata;
    [create_lease] opens [root.join(uid)] with [create_new]; [write_lease] writes and
    syncs it; [remove_lease] ignores its result. *)
Class LeaseHost (W : Type) := {
  read_registry : string -> W -> option string * W;
  list_processes : W -> option (list process_entry) * W;
  lease_root : W -> option LeaseRoot * W;
  create_lease : Z -> W -> creation * W;
  write_lease : Z -> string -> W -> option unit * W;
  remove_lease : Z -> W -> unit * W
}.

Section leases.
Context {W : Type} `{HH : LeaseHost W}.

Definition uid_has_live_process (uid : Z) : io W bool :=
  fun w =>
    let '(processes, w) := list_processes w in
    match processes with
    | None => (Ok true, w)
    | Some processes =>
        (Ok (existsb (fun p : process_entry => forallb is_digit (str_bytes p.1) && bool_decide (p.2 = Some uid)) processes), w)
    end.

Definition parse_u32 (s : string) : launch Z := ok_or (parse_uint u32_max s) (Error SystemError).
(** The loops over the lines return at the first match. *)
Fixpoint named_in (path : string) (id : Z) (lines : list string) : launch bool :=
  match lines with
  | [] => Ok false
  | line :: lines =>
      match split x3a line with
      | _ :: _ :: field :: _ =>
          let? n := parse_u32 field in if n =? id then Ok true else named_in path id lines
      | _ => Err (Error (Message ("malformed identity registry: " +:+ path)))
      end
  end.
Fixpoint delegated_in (path : string) (id : Z) (lines : list string) : launch bool :=
  match lines with
  | [] => Ok false
  | line :: lines =>
      match split x3a line with
      | [_; start; count] =>
          let? start := parse_u32 start in
          let? count := parse_u32 count in
          throw_if u32_max <? start + count with Error (Message "subordinate identity range overflow") ;;
          if (start <=? id) && (id <? start + count) then Ok true else delegated_in path id lines
      | _ => Err (Error (Message ("malformed subordinate identity registry: " +:+ path)))
      end
  end.
Definition id_is_named (path : string) (id : Z) : io W bool :=
  let! text := sys (read_registry path) in pure (named_in path id (lines text)).
Definition id_is_delegated (path : string) (id : Z) : io W bool :=
  let! text := sys (read_registry path) in pure (delegated_in path id (lines text)).
Definition uid_is_reserved (uid : Z) : io W bool :=
  let! named := id_is_named "/etc/passwd" uid in
  if named then io_ret true else
  let! group := id_is_named "/etc/group" uid in
  if group then io_ret true else
  let! sub := id_is_delegated "/etc/subuid" uid in
  if sub then io_ret true else id_is_delegated "/etc/subgid" uid.

(** [0o777] and [0o700]. *)
Definition root_private (root : LeaseRoot) : bool :=
  root_is_dir root && negb (root_is_symlink root) && (root_uid root =? 0) && (root_gid root =? 0)
  && (Z.land (root_mode root) 511 =? 448).
Definition UID_BASE : Z := 300000.
Definition UID_COUNT : Z := 40000.
(** One turn of the loop over the offsets: a lease, or [continue]. *)
Definition try_uid (attempt : string) (uid : Z) : io W (option Z) :=
  let! reserved := uid_is_reserved uid in
  if reserved then io_ret None else
  let! live := uid_has_live_process uid in
  if live then io_ret None else
  let! created := total (create_lease uid) in
  match created with
  | AlreadyExists => io_ret None
  | NotCreated => io_fail SystemError
  | Created =>
      let! _ := sys (write_lease uid (attempt +:+ str_of_bytes [x0a])) in
      let! live := uid_has_live_process uid in
      if live then let! _ := total (remove_lease uid) in io_ret None else io_ret (Some uid)
  end.
Fixpoint lease_loop (attempt : string) (uids : list Z) : io W Z :=
  match uids with
  | [] => io_fail (Message "candidate UID lease space is exhausted")
  | uid :: uids =>
      let! leased := try_uid attempt uid in
      match leased with Some uid => io_ret uid | None => lease_loop attempt uids end
  end.
(** [u32::from_str_radix(&nonce[..8], 16)? % 40_000]; the slice panics on a short
    nonce. *)
Definition lease_start (attempt : string) : launch Z :=
  match strip_prefix "keep-" attempt with
  | None => Err (Error (Message "attempt prefix"))
  | Some nonce =>
      let? digits := ok_or (get_range (str_bytes nonce) 0 8) Panic in
      let? n := ok_or (from_str_radix_16 (str_of_bytes digits)) (Error SystemError) in
      throw_if u32_max <? n with Error SystemError ;;
      Ok (n mod UID_COUNT)
  end.
(** [first..first + count] *)
Fixpoint range_from (count : nat) (first : Z) : list Z :=
  match count with O => [] | S count => first :: range_from count (first + 1) end.
Definition uid_order (start : Z) : list Z :=
  map (fun offset => UID_BASE + (start + offset) mod UID_COUNT) (range_from (Z.to_nat UID_COUNT) 0).
Definition acquire_uid_lease (attempt : string) : io W Z :=
  let! root := sys lease_root in
  refuse_if negb (root_private root) with Message "candidate UID lease root is not private root-owned storage" ;;
  let! start := pure (lease_start attempt) in
  lease_loop attempt (uid_order start).
End leases.

(** ** Text of the system *)

(** The one line [name: value] of a process status. *)
Definition status_field (status name : string) : launch string :=
  match omap (strip_prefix (name +:+ ":")) (lines status) with
  | [] => Err (Error (Message "process status field absent"))
  | [value] => Ok (trim value)
  | _ => Err (Error (Message "process status field duplicated"))
  end.

(** ** Appraisal of the live process *)

Record CandidateSeccompObservation : Set := mkSeccomp {
  policy_source_sha256 : string;
  compiler_sha256 : string;
  compiled_policy_sha256 : string;
  target_architecture : string;
  live_thread_count : Z;
  filters_per_thread : Z
}.
Definition POLICY_SOURCE : string := "1b683d5c9fc51174ab1926b84aaf10dc2164678f6c2fe7c38a910556d7b5dc39".
Definition COMPILER : string := "0a6d20e734f0e6c1d9cf8372fdc478675f301219c141064e4cea9c0582e37cc8".
Definition COMPILED_POLICY : string := "6a6dfed43d1417a244a999f5bd63679173bf03254dd50f19a9ac4db160c6b0fc".
Definition verify_seccomp (o : CandidateSeccompObservation) : candidate unit :=
  throw_if negb (bool_decide (policy_source_sha256 o = POLICY_SOURCE)) || negb (bool_decide (compiler_sha256 o = COMPILER))
           || negb (bool_decide (compiled_policy_sha256 o = COMPILED_POLICY))
           || negb (bool_decide (target_architecture o = "x86_64"%string))
           || (live_thread_count o <? 2) || negb (filters_per_thread o =? 1)
    with Error DirectProcessFailed ;;
  Ok tt.

Record CandidateLiveContainmentObservation : Set := mkContainment {
  host_pid : Z;
  uid : Z;
  seccomp_mode : Z;
  seccomp_thread_count : Z;
  seccomp_filters_per_thread : Z;
  pid_namespace_isolated : bool;
  mount_namespace_isolated : bool;
  chroot_matches_jail : bool;
  capabilities_empty : bool;
  socket_descriptors_absent : bool;
  environment_empty : bool;
  inherited_descriptor_absent : bool
}.
Definition verify_containment (o : CandidateLiveContainmentObservation) : candidate unit :=
  throw_if (host_pid o =? 0) || negb ((300000 <=? uid o) && (uid o <? 340000))
           || negb (seccomp_mode o =? 2) || (seccomp_thread_count o <? 2) || negb (seccomp_filters_per_thread o =? 1)
           || negb (pid_namespace_isolated o) || negb (mount_namespace_isolated o) || negb (chroot_matches_jail o)
           || negb (capabilities_empty o) || negb (socket_descriptors_absent o) || negb (environment_empty o)
           || negb (inherited_descriptor_absent o)
    with Error DirectProcessFailed ;;
  Ok tt.

(** ** From the console to the end *)

(** The two files of the process, its control group, its jail.  [kill_cgroup] writes
    [cgroup.kill]; [open_leaf] opens the group under its pinned parent;
    [remove_leaf] removes it; [remove_group] and [kill_owned] are the last resort of
    [CgroupCleanup], their results ignored. *)
Class Jail (H W : Type) := {
  console_size : W -> option Z * W;
  errors_size : W -> option Z * W;
  read_console : W -> option (list byte) * W;
  read_errors : W -> option (list byte) * W;
  kill_cgroup : W -> option unit * W;
  read_events : W -> option string * W;
  open_leaf : W -> option H * W;
  count_children : W -> option Z * W;
  read_control : H -> string -> Z -> W -> option string * W;
  remove_leaf : H -> W -> option unit * W;
  group_exists : W -> bool * W;
  remove_group : W -> unit * W;
  kill_owned : Z -> W -> unit * W;
  drop_jail : W -> unit * W;
  jail_exists : W -> bool * W
}.

Definition CONSOLE_LIMIT : Z := MAXIMUM_OUTPUT_BYTES + 512 * 1024.
(** [events.lines().any(|line| line == "populated 0")] *)
Definition has_line (line events : string) : bool := existsb (fun l => bool_decide (l = line)) (lines events).

Section launch.
Context {H W : Type} `{HC : Clock W} `{HH : LeaseHost W} `{HJ : Jail H W}.

(** [CgroupCleanup::drop] *)
Fixpoint await_empty (turns : nat) : io W unit :=
  match turns with
  | O => io_ret tt
  | S turns =>
      let! events := total read_events in
      if match events with Some events => has_line "populated 0" events | None => false end then io_ret tt
      else fun w => await_empty turns (sleep (5 * MILLISECOND) w)
  end.
Definition cgroup_cleanup (leased : Z) (active : bool) : io W unit :=
  if negb active then io_ret tt else
  let! present := total group_exists in
  let! _ :=
    if present
    then let! _ := total kill_cgroup in let! _ := await_empty 100 in total remove_group
    else io_ret tt in
  total (kill_owned leased).

(** [match deadline.remaining() { .. }] when the deadline has passed. *)
Definition expired {A : Type} (last : option CandidateRefusal) (e : failure CandidateRefusal) : io W A :=
  let! _ := total kill_cgroup in
  match last with
  | Some refusal => io_fail (Refused refusal)
  | None => pure (boxed (Err e))
  end.
(** One look at the console: whether an authenticated result has been seen, and the
    last refusal. *)
Definition look (nonce : string) (key : list byte) (seen : bool) (last : option CandidateRefusal) :
    io W (bool * option CandidateRefusal) :=
  let! out := sys console_size in
  let! err := sys errors_size in
  if over_limit out err CONSOLE_LIMIT then let! _ := total kill_cgroup in io_fail (Refused OutputLimitExceeded) else
  let! serial := sys read_console in
  if seen then io_ret (true, last) else
  match parse_candidate_guest_result serial nonce key with
  | Ok _ => let! _ := sys kill_cgroup in io_ret (true, last)
  | Err (Error refusal) => io_ret (false, Some refusal)
  | Err Panic => pure (Err Panic)
  | Err OutOfFuel => pure (Err OutOfFuel)
  end.
Fixpoint await_guest (fuel : nat) (deadline : CandidateDeadline) (nonce : string) (key : list byte) (seen : bool)
    (last : option CandidateRefusal) : io W unit :=
  match fuel with
  | O => pure (Err OutOfFuel)
  | S fuel =>
      let! (seen, last) := look nonce key seen last in
      let! events := total read_events in
      if match events with Some events => has_line "populated 0" events | None => false end
      then if seen then io_ret tt else io_fail (Refused GuestResultHeaderAbsent)
      else
        let! t := total now in
        match remaining deadline t with
        | Err e => expired last e
        | Ok rest => fun w => await_guest fuel deadline nonce key seen last (sleep (Z.min rest (5 * MILLISECOND)) w)
        end
  end.

(** [&bytes[bytes.len().saturating_sub(2048)..]] *)
Definition tail_of (bytes : list byte) : list byte := drop (length bytes - 2048) bytes.
Definition final_result (nonce : string) (key : list byte) : io W CandidateGuestResult :=
  let! serial := sys read_console in
  match parse_candidate_guest_result serial nonce key with
  | Ok guest => io_ret guest
  | Err (Error refusal) =>
      let! stderr := total read_errors in
      let stderr := match stderr with Some stderr => stderr | None => [] end in
      io_fail (Diagnosed refusal (bytes_hex (tail_of serial)) (bytes_hex (tail_of stderr)))
  | Err Panic => pure (Err Panic)
  | Err OutOfFuel => pure (Err OutOfFuel)
  end.
Definition step (phase : CandidatePhase) (event : CandidateEvent) : io W CandidatePhase :=
  pure (map_err (fun _ => Error (Message "candidate launch transition is invalid")) (advance phase event)).

Definition observe_group (leaf : H) : io W CandidateCgroupObservation :=
  let! children := sys count_children in
  let! memory := sys (read_control leaf "memory.max" 64) in
  let! swap := sys (read_control leaf "memory.swap.max" 64) in
  let! pids := sys (read_control leaf "pids.max" 64) in
  let! cpu := sys (read_control leaf "cpu.max" 64) in
  let! io := sys (read_control leaf "io.weight" 64) in
  let! events := sys (read_control leaf "cgroup.events" 4096) in
  pure (boxed (parse_cgroup (trim memory) (trim swap) (trim pids) (trim cpu) (trim io) events children)).

(** Up to the removal of the group: while it is there, the cleanup is active. *)
Definition capture_and_remove (deadline : CandidateDeadline) (nonce : string) (key : list byte) (phase : CandidatePhase) :
    io W (CandidateGuestResult * CandidateCgroupObservation * CandidatePhase) :=
  let! _ := await_guest WAIT_FUEL deadline nonce key false None in
  let! guest := final_result nonce key in
  let! phase := step phase EventGuestResultCaptured in
  let! phase := step phase EventDirectProcessReaped in
  let! leaf := sys open_leaf in
  let! observation := observe_group leaf in
  let! _ := pure (boxed (verify_limits fixed_limits observation)) in
  let! _ := pure (boxed (verify_empty observation)) in
  let! phase := step phase EventDescendantsEmpty in
  let! _ := sys (remove_leaf leaf) in
  io_ret (guest, observation, phase).
(** An error drops [cgroup_cleanup], still active, and the jail. *)
Definition guarded {A : Type} (leased : Z) (m : io W A) : io W A :=
  fun w => match m w with
           | (Ok a, w) => (Ok a, w)
           | (Err e, w) => (Err e, (drop_jail (cgroup_cleanup leased true w).2).2)
           end.
(** From the first look at the console; the process has been spawned and reaped.
    The lease is dropped at the end, on every path. *)
Definition finish_launch (leased : Z) (deadline : CandidateDeadline) (nonce : string) (key : list byte) :
    io W (CandidateGuestResult * CandidateCgroupObservation) :=
  fun w =>
    let '(result, w) :=
      (let! (guest, observation, phase) := guarded leased (capture_and_remove deadline nonce key Spawned) in
       let! _ := total drop_jail in
       let! jailed := total jail_exists in
       let! residue := if jailed then io_ret true else uid_has_live_process leased in
       refuse_if residue with Message "candidate launch residue or leased UID process remains" ;;
       let! phase := step phase EventResidueRemoved in
       let! phase := step phase EventComplete in
       refuse_if match phase with Complete => false | _ => true end with Message "candidate lifecycle did not reach complete" ;;
       io_ret (guest, observation)) w in
    (result, (remove_lease leased w).2).
End launch.
