(* ===== verification/ProbeFacts.v ===== *)
(** * Theorems on the candidate probe

    [Leases]: what holds of a leased user id.  [Finish]: a launch that succeeds leaves
    nothing behind, and every launch ends. *)

From S2P Require Import Prelude Cbor CborFacts Sha256 Paths TextFacts Schema Numbers GuestResult GuestResultFacts Launch LaunchFacts Landlock World Probe.

Import Frame Parsed Runs.

(** ** Computations on the world *)
Lemma sys_ok {W A} (m : W -> option A * W) w a w' : sys m w = (Ok a, w') <-> m w = (Some a, w').
Proof. apply ask_ok. Qed.
Lemma boxed_ok {A} (m : candidate A) a : boxed m = Ok a <-> m = Ok a.
Proof. destruct m as [b|[]]; cbn; split; by intros [= ->]. Qed.

(** ** Leases *)
Module Leases.

(** What the two registries say of an id. *)
Definition not_named (id : Z) (text : string) : Prop :=
  Forall (fun line => exists a b field rest n, split x3a line = a :: b :: field :: rest /\ parse_uint u32_max field = Some n /\ n <> id)
    (lines text).
Definition not_delegated (id : Z) (text : string) : Prop :=
  Forall (fun line => exists owner a b start count, split x3a line = [owner; a; b] /\ parse_uint u32_max a = Some start /\
    parse_uint u32_max b = Some count /\ start + count <= u32_max /\ ~ start <= id < start + count) (lines text).

Lemma parse_u32_ok s n : parse_u32 s = Ok n <-> parse_uint u32_max s = Some n.
Proof. apply ok_or_ok. Qed.
Lemma named_in_false path id l : named_in path id l = Ok false ->
  Forall (fun line => exists a b field rest n, split x3a line = a :: b :: field :: rest /\ parse_uint u32_max field = Some n /\ n <> id) l.
Proof.
  induction l as [|line l IH]; cbn [named_in]; [constructor|]. destruct (split x3a line) as [|a [|b [|field rest]]] eqn:E; try done.
  intros (n & Hn%parse_u32_ok & H)%bind_ok. destruct (Z.eqb_spec n id); [done|]. constructor; [|by apply IH]. by exists a, b, field, rest, n.
Qed.
Lemma delegated_in_false path id l : delegated_in path id l = Ok false ->
  Forall (fun line => exists owner a b start count, split x3a line = [owner; a; b] /\ parse_uint u32_max a = Some start /\
    parse_uint u32_max b = Some count /\ start + count <= u32_max /\ ~ start <= id < start + count) l.
Proof.
  induction l as [|line l IH]; cbn [delegated_in]; [constructor|]. destruct (split x3a line) as [|o [|a [|b [|]]]] eqn:E; try done.
  intros (s & Hs%parse_u32_ok & (c & Hc%parse_u32_ok & [Hb%Z.ltb_ge H]%guard_ok)%bind_ok)%bind_ok.
  destruct (_ && _) eqn:Ei; [done|]. constructor; [|by apply IH]. exists o, a, b, s, c. split_and!; try done.
  intros [H1 H2]. by rewrite (proj2 (Z.leb_le _ _)), (proj2 (Z.ltb_lt _ _)) in Ei by lia.
Qed.

Section leases.
Context {W : Type} {HH : LeaseHost W}.
Implicit Types w : W.

(** The four registries, read in order from [w] to [w']. *)
Definition unregistered (id : Z) w w' : Prop :=
  exists passwd group subuid subgid w1 w2 w3,
    read_registry "/etc/passwd" w = (Some passwd, w1) /\ not_named id passwd /\
    read_registry "/etc/group" w1 = (Some group, w2) /\ not_named id group /\
    read_registry "/etc/subuid" w2 = (Some subuid, w3) /\ not_delegated id subuid /\
    read_registry "/etc/subgid" w3 = (Some subgid, w') /\ not_delegated id subgid.
(** No process of the id among those listed. *)
Definition no_process (id : Z) w w' : Prop :=
  exists processes, list_processes w = (Some processes, w') /\
    Forall (fun p : process_entry => Forall (fun b => Prelude.is_digit b = true) (str_bytes p.1) -> p.2 <> Some id) processes.

Lemma id_is_named_false path id w w' : id_is_named path id w = (Ok false, w') ->
  exists text, read_registry path w = (Some text, w') /\ not_named id text.
Proof.
  unfold id_is_named. intros (text & w1 & Ht%sys_ok & [H ->]%pure_ok)%io_bind_ok. exists text. split; [done|]. by apply named_in_false in H.
Qed.
Lemma id_is_delegated_false path id w w' : id_is_delegated path id w = (Ok false, w') ->
  exists text, read_registry path w = (Some text, w') /\ not_delegated id text.
Proof.
  unfold id_is_delegated. intros (text & w1 & Ht%sys_ok & [H ->]%pure_ok)%io_bind_ok. exists text. split; [done|]. by apply delegated_in_false in H.
Qed.
Lemma unreserved id w w' : uid_is_reserved id w = (Ok false, w') -> unregistered id w w'.
Proof.
  unfold uid_is_reserved. intros ([] & w1 & H1 & H)%io_bind_ok; [done|]. apply io_bind_ok in H as ([] & w2 & H2 & H); [done|].
  apply io_bind_ok in H as ([] & w3 & H3 & H); [done|]. apply id_is_named_false in H1 as (passwd & H1 & N1).
  apply id_is_named_false in H2 as (group & H2 & N2). apply id_is_delegated_false in H3 as (subuid & H3 & N3).
  apply id_is_delegated_false in H as (subgid & H & N4). by exists passwd, group, subuid, subgid, w1, w2, w3.
Qed.
Lemma no_live_process id w w' : uid_has_live_process id w = (Ok false, w') -> no_process id w w'.
Proof.
  unfold uid_has_live_process. destruct (list_processes w) as [[ps|] w1] eqn:E; [|done]. intros [= H <-]. exists ps. split; [done|].
  apply Forall_forall. intros p Hp Hd He. rewrite <- not_true_iff_false, existsb_exists in H. destruct H.
  exists p. split; [by apply list_elem_of_In|]. rewrite He, bool_decide_true by done. apply forallb_Forall' in Hd as ->. done.
Qed.

Record leased (attempt : string) (id : Z) w w' : Prop := {
  leased_range : 300000 <= id < 340000;
  leased_history : exists w0 w1 w2 w3 w4, unregistered id w0 w1 /\ no_process id w1 w2 /\ create_lease id w2 = (Created, w3) /\
    write_lease id (attempt +:+ str_of_bytes [x0a]) w3 = (Some tt, w4) /\ no_process id w4 w'
}.

Lemma try_uid_leases attempt id id' w w' : 300000 <= id < 340000 -> try_uid attempt id w = (Ok (Some id'), w') ->
  id' = id /\ leased attempt id w w'.
Proof.
  intros Hr. unfold try_uid. intros ([] & w1 & H1 & H)%io_bind_ok; [done|]. apply io_bind_ok in H as ([] & w2 & H2 & H); [done|].
  apply io_bind_ok in H as (c & w3 & H3%total_ok & H). destruct c; [|done|done]. apply io_bind_ok in H as ([] & w4 & H4%sys_ok & H).
  apply io_bind_ok in H as ([] & w5 & H5 & H).
  - apply io_bind_ok in H as (? & ? & _ & H). done.
  - injection H as <- <-. split; [done|]. split; [done|]. exists w, w1, w2, w3, w4.
    split_and!; [by apply unreserved|by apply no_live_process|done|done|by apply no_live_process].
Qed.
Lemma lease_loop_leases attempt ids id w w' : Forall (fun id => 300000 <= id < 340000) ids -> lease_loop attempt ids w = (Ok id, w') ->
  id ∈ ids /\ exists w0, leased attempt id w0 w'.
Proof.
  revert w. induction ids as [|i ids IH]; intros w Hr; cbn [lease_loop]; [done|]. apply Forall_cons in Hr as [Hi Hr].
  intros ([i'|] & w1 & H1 & H)%io_bind_ok.
  - injection H as <- <-. apply try_uid_leases in H1 as [-> H1]; [|done]. split; [left|by eexists].
  - destruct (IH _ Hr H) as [Hin Hl]. split; [by right|done].
Qed.
End leases.

Lemma uid_order_range start : Forall (fun id => 300000 <= id < 340000) (uid_order start).
Proof.
  unfold uid_order, UID_BASE, UID_COUNT. apply Forall_map, Forall_forall. intros offset _. pose proof (Z.mod_pos_bound (start + offset) 40000). lia.
Qed.
Lemma range_from_seqZ n first : range_from n first = seqZ first (Z.of_nat n).
Proof.
  revert first. induction n as [|n IH]; intros first; [done|]. cbn [range_from]. rewrite IH, Nat2Z.inj_succ, (seqZ_cons first) by lia.
  by rewrite Z.pred_succ, Z.add_1_r.
Qed.
(** Every id of the range is tried, once. *)
Lemma uid_order_all start : uid_order start ≡ₚ seqZ UID_BASE UID_COUNT.
Proof.
  unfold uid_order. rewrite range_from_seqZ, Z2Nat.id by done. apply NoDup_Permutation; [| |].
  - apply NoDup_fmap_2_strong; [|apply NoDup_seqZ]. intros a b Ha%elem_of_seqZ Hb%elem_of_seqZ. unfold UID_COUNT in *. intros H.
    assert ((start + a) mod 40000 = (start + b) mod 40000) as E by lia. zmod.
  - apply NoDup_seqZ.
  - intros id. rewrite elem_of_seqZ. split.
    + intros (o & -> & _)%list_elem_of_fmap. unfold UID_BASE, UID_COUNT in *. pose proof (Z.mod_pos_bound (start + o) 40000). lia.
    + intros H. apply list_elem_of_fmap. exists ((id - UID_BASE - start) mod UID_COUNT). unfold UID_BASE, UID_COUNT in *. split.
      * rewrite Zplus_mod_idemp_r. replace (start + (id - 300000 - start)) with (id - 300000) by lia. rewrite Z.mod_small by lia. lia.
      * apply elem_of_seqZ. pose proof (Z.mod_pos_bound (id - 300000 - start) 40000). lia.
Qed.
End Leases.
Import Leases.


(** *** A host with two ids taken *)
Module LeaseSample.
#[global] Instance host : LeaseHost (list Z) := {
  read_registry path w :=
    (Some (if bool_decide (path = "/etc/passwd"%string) then "root:x:0:0:root" +:+ str_of_bytes [x0a] +:+ "guest:x:300001:300001:"
           else if bool_decide (path = "/etc/subuid"%string) then "keep:300002:2"
           else "")%string, w);
  list_processes w := (Some [("self", Some 300004); ("17", Some 0)]%string, w);
  lease_root w := (Some (mkLeaseRoot true false 0 0 16832), w);
  create_lease uid w := if existsb (Z.eqb uid) w then (AlreadyExists, w) else (Created, uid :: w);
  write_lease _ _ w := (Some tt, w);
  remove_lease uid w := (tt, List.filter (fun i => negb (i =? uid)) w)
}.
Definition attempt : string := "keep-00000001ffffffffffffffffffffffff".
End LeaseSample.


(** ** From the console to the end *)
Module Finish.

Section finish.
Context {H W : Type} {HC : Clock W} {HH : LeaseHost W} {HJ : Jail H W}.
Implicit Types w : W.

Lemma guarded_ok {A} id (m : io W A) w a w' : guarded id m w = (Ok a, w') -> m w = (Ok a, w').
Proof. unfold guarded. destruct (m w) as [[b|e] w1]; by intros [= <- <-]. Qed.
Lemma final_result_ok nonce key w guest w' : final_result nonce key w = (Ok guest, w') ->
  exists serial, read_console w = (Some serial, w') /\ parse_candidate_guest_result serial nonce key = Ok guest.
Proof.
  unfold final_result. intros (serial & w1 & Hs%sys_ok & Hf)%io_bind_ok. exists serial.
  destruct (parse_candidate_guest_result serial nonce key) as [g|[]]; try done.
  - by injection Hf as <- <-.
  - apply io_bind_ok in Hf as (? & ? & _ & Hf). done.
Qed.
Lemma verify_limits_ok o u : verify_limits fixed_limits o = Ok u ->
  memory_max o = HOST_MEMORY_BYTES /\ memory_swap_max o = 0 /\ pids_max o = MAXIMUM_PIDS /\ cpu_max o = CGROUP_CPU_MAX /\
  io_weight o = CGROUP_IO_WEIGHT.
Proof.
  unfold verify_limits. intros [[[[[H1 H2]%orb_false_iff H3]%orb_false_iff H4]%orb_false_iff H5]%orb_false_iff _]%guard_ok.
  apply negb_false_iff in H1, H2, H3, H4, H5. apply Z.eqb_eq in H1, H2, H3. apply bool_decide_eq_true in H4, H5. by split_and!.
Qed.
Lemma verify_empty_ok o u : verify_empty o = Ok u -> populated o = false /\ descendant_directories o = 0.
Proof. unfold verify_empty. intros [Hp [Hd _]%guard_ok]%guard_ok. apply negb_false_iff, Z.eqb_eq in Hd. done. Qed.

(** What a successful launch has established. *)
Record clean (id : Z) (nonce : string) (key : list byte) (guest : CandidateGuestResult) (o : CandidateCgroupObservation) : Prop := {
  clean_result : exists serial w0 w1, read_console w0 = (Some serial, w1) /\ attempt_nonce guest = nonce /\
    exists mac pre post, authentic key guest mac /\ framed serial guest mac pre post;
  clean_group : o = mkCgroup HOST_MEMORY_BYTES 0 MAXIMUM_PIDS CGROUP_CPU_MAX CGROUP_IO_WEIGHT false 0;
  clean_removed : exists leaf w0 w1, remove_leaf leaf w0 = (Some tt, w1);
  clean_jail : exists w0 w1 w2, jail_exists w0 = (false, w1) /\ no_process id w1 w2
}.

Lemma capture_and_remove_ok deadline nonce key w guest o phase w' :
  capture_and_remove deadline nonce key Spawned w = (Ok (guest, o, phase), w') ->
  (exists serial w0 w1, read_console w0 = (Some serial, w1) /\ parse_candidate_guest_result serial nonce key = Ok guest) /\
  o = mkCgroup HOST_MEMORY_BYTES 0 MAXIMUM_PIDS CGROUP_CPU_MAX CGROUP_IO_WEIGHT false 0 /\
  (exists leaf w0 w1, remove_leaf leaf w0 = (Some tt, w1)) /\ phase = DescendantsEmpty.
Proof.
  unfold capture_and_remove. intros (? & w1 & _ & Hk)%io_bind_ok. apply io_bind_ok in Hk as (g & w2 & Hg%final_result_ok & Hk).
  destruct Hg as (serial & Hr & Hp). do 2 (apply io_bind_ok in Hk as (? & ? & [[= <-] ->]%pure_ok & Hk)).
  apply io_bind_ok in Hk as (leaf & w3 & _ & Hk). apply io_bind_ok in Hk as (ob & w4 & _ & Hk).
  apply io_bind_ok in Hk as (? & ? & [(E1 & E2 & E3 & E4 & E5)%boxed_ok%verify_limits_ok ->]%pure_ok & Hk).
  apply io_bind_ok in Hk as (? & ? & [[E6 E7]%boxed_ok%verify_empty_ok ->]%pure_ok & Hk).
  apply io_bind_ok in Hk as (? & ? & [[= <-] ->]%pure_ok & Hk). apply io_bind_ok in Hk as ([] & w5 & Hrem%sys_ok & Hk).
  injection Hk as <- <- <- <-. split_and!; [by exists serial, w1, w2| |by exists leaf, w4, w5|done].
  destruct ob. cbn in *. by subst.
Qed.
Lemma finish_launch_ok id deadline nonce key w guest o w' :
  finish_launch id deadline nonce key w = (Ok (guest, o), w') -> clean id nonce key guest o.
Proof.
  unfold finish_launch. destruct (io_bind _ _ w) as [r w1] eqn:E. intros [= -> <-].
  apply io_bind_ok in E as ([[g ob] phase] & w2 & Hc%guarded_ok%capture_and_remove_ok & E).
  destruct Hc as ((serial & v0 & v1 & Hr & Hp) & Ho & Hrem & ->). apply io_bind_ok in E as (? & w3 & _ & E).
  apply io_bind_ok in E as (jailed & w4 & Hj%total_ok & E). apply io_bind_ok in E as (residue & w5 & Hres & E).
  destruct residue; [done|]. destruct jailed; [done|].
  do 2 (apply io_bind_ok in E as (? & ? & [[= <-] ->]%pure_ok & E)). injection E as <- <- <-.
  apply parse_sound in Hp as [Hn Hf]. split; [by exists serial, v0, v1|done|done|].
  exists w3, w4, w5. split; [done|by apply no_live_process].
Qed.
End finish.

(** *** Termination *)

(** Looking at the console, killing the group and reading its events take time, and
    never give any back. *)
Class JailLaws (H W : Type) `{ClockLaws W} `{Jail H W} := {
  console_size_clock w : clock w <= clock (console_size w).2;
  errors_size_clock w : clock w <= clock (errors_size w).2;
  read_console_clock w : clock w <= clock (read_console w).2;
  kill_cgroup_clock w : clock w <= clock (kill_cgroup w).2;
  read_events_clock w : clock w <= clock (read_events w).2
}.

Lemma answers_sys {W A} (m : W -> option A * W) : answers (sys m).
Proof. apply answers_ask. Qed.
Lemma answers_step {W} p e : answers (step (W:=W) p e).
Proof. apply answers_pure. destruct (advance p e); cbn; by intros []. Qed.
Lemma answers_boxed {W A} (m : candidate A) : m <> Err Panic -> m <> Err OutOfFuel -> answers (pure (W:=W) (boxed m)).
Proof. intros H1 H2. apply answers_pure. destruct m as [a|[]]; cbn; try done; by intros []. Qed.
Lemma runs_boxed {W A} (m : candidate A) Q : runs m Q -> answers (pure (W:=W) (boxed m)).
Proof. intros [H1 H2]%runs_not_stuck. by apply answers_boxed. Qed.

Lemma parse_cgroup_runs a b c d e f n : runs (parse_cgroup a b c d e f n) (fun _ => True).
Proof.
  unfold parse_cgroup. apply (runs_bind _ _ (fun _ => True)).
  - apply runs_fold; [|done]. intros p l _ _. unfold event_line. repeat case_match; done.
  - intros p _ _. assert (forall s, runs (bounded_number s) (fun _ => True)) as Hb.
    { intros s. unfold bounded_number. apply runs_guard. intros _. by destruct (parse_u64 s). }
    do 3 (eapply runs_bind; [apply Hb|]; intros ? _ _). apply (runs_bind _ _ (fun _ => True)); [by destruct p|done].
Qed.

Section ends.
Context {H W : Type} {HC : Clock W} {HCL : ClockLaws W} {HH : LeaseHost W} {HJ : Jail H W} {HJL : JailLaws H W}.
Context (key : list byte) (Hkey : len key = 32).
Implicit Types w : W.

Lemma answers_result nonce : answers (final_result nonce key).
Proof.
  apply answers_bind; [apply answers_sys|]. intros serial.
  destruct (guest_parser_never_panics serial nonce key Hkey) as [H1 H2].
  destruct (parse_candidate_guest_result serial nonce key) as [g|[e| |]]; [apply answers_ret| |done|done].
  apply answers_bind; [apply answers_total|]. intros ?. apply answers_fail.
Qed.
Lemma answers_expired {A} last e : e <> Panic -> e <> OutOfFuel -> answers (expired (A:=A) last e).
Proof.
  intros H1 H2. apply answers_bind; [apply answers_total|]. intros _. destruct last; [apply answers_fail|].
  apply answers_boxed; congruence.
Qed.

(** A look answers, and takes time. *)
Lemma look_ends nonce seen last w r w' : look nonce key seen last w = (r, w') -> ~ stuck r /\ clock w <= clock w'.
Proof.
  unfold look, io_bind, sys, ask, total, io_fail, io_ret. pose proof (console_size_clock w) as C1. destruct (console_size w) as [[out|] w1]; cbn in C1.
  2: { intros [= <- <-]. split; [apply answers_error|done]. }
  pose proof (errors_size_clock w1) as C2. destruct (errors_size w1) as [[err|] w2]; cbn in C2.
  2: { intros [= <- <-]. split; [apply answers_error|lia]. }
  destruct (over_limit out err CONSOLE_LIMIT).
  { pose proof (kill_cgroup_clock w2) as C3. destruct (kill_cgroup w2) as [k w3]; cbn in C3. intros [= <- <-]. split; [apply answers_error|lia]. }
  pose proof (read_console_clock w2) as C3. destruct (read_console w2) as [[serial|] w3]; cbn in C3.
  2: { intros [= <- <-]. split; [apply answers_error|lia]. }
  destruct seen; [intros [= <- <-]; split; [apply answers_ok|lia]|].
  destruct (guest_parser_never_panics serial nonce key Hkey) as [H1 H2].
  destruct (parse_candidate_guest_result serial nonce key) as [g|[e| |]]; [| |done|done].
  - pose proof (kill_cgroup_clock w3) as C4. destruct (kill_cgroup w3) as [[k|] w4]; cbn in C4; intros [= <- <-]; (split; [|lia]).
    + apply answers_ok.
    + apply answers_error.
  - intros [= <- <-]. split; [apply answers_ok|lia].
Qed.

Lemma await_guest_ends fuel d nonce seen last w r w' :
  (0 < fuel)%nat -> started d <= clock w -> started d + limit d - clock w <= (Z.of_nat fuel - 1) * (5 * MILLISECOND) ->
  await_guest fuel d nonce key seen last w = (r, w') -> ~ stuck r.
Proof.
  revert w seen last. induction fuel as [|fuel IH]; intros w seen last Hf Hs Hm; [lia|]. cbn [await_guest].
  unfold io_bind at 1. destruct (look nonce key seen last w) as [[[seen' last']|e] w1] eqn:El; apply look_ends in El as [Hl C1].
  2: { intros [= <- <-]. intros [[= ->]|[= ->]]; apply Hl; [by left|by right]. }
  unfold io_bind at 1, total at 1. pose proof (read_events_clock w1) as C2. destruct (read_events w1) as [events w2]; cbn in C2.
  destruct (match events with Some events => has_line "populated 0" events | None => false end).
  { destruct seen'; intros [= <- <-]; [apply answers_ok|apply answers_error]. }
  unfold io_bind at 1, total at 1. destruct (now w2) as [t w3] eqn:Et. apply now_clock in Et as [-> C3].
  destruct (remaining d (clock w3)) as [rest|e] eqn:Er.
  - apply remaining_ok in Er as [-> Hrest]. rewrite Z.max_r in * by lia.
    pose proof (sleep_clock (Z.min (limit d - (clock w3 - started d)) (5 * MILLISECOND)) w3) as C4.
    unfold MILLISECOND in *. intros Hr. eapply (IH _ _ _ _ _ _ Hr); lia.
  - apply remaining_err in Er as ->. by apply answers_expired.
Unshelve. all: lia.
Qed.

Lemma answers_group leaf : answers (observe_group leaf).
Proof.
  unfold observe_group. do 7 (apply answers_bind; [apply answers_sys|]; intros ?). eapply runs_boxed, parse_cgroup_runs.
Qed.
Lemma finish_ends t milliseconds d id nonce w r w' :
  start t milliseconds = Ok d -> t <= clock w -> finish_launch id d nonce key w = (r, w') -> ~ stuck r.
Proof.
  unfold start. intros [[_ Hms]%orb_false_iff [= <-]]%guard_ok Ht. apply Z.ltb_ge in Hms.
  set (d := mkDeadline t (milliseconds * MILLISECOND)). unfold finish_launch. destruct (io_bind _ _ w) as [q w1] eqn:E. intros [= -> <-].
  unfold io_bind at 1 in E. destruct (guarded id _ w) as [[[[g o] p]|e] w2] eqn:Eg.
  - revert E. apply answers_bind; [apply answers_total|]. intros _. apply answers_bind; [apply answers_total|]. intros jailed.
    apply answers_bind.
    { destruct jailed; [apply answers_ret|]. intros v s v'. unfold uid_has_live_process.
      destruct (list_processes v) as [[ps|] v1]; intros [= <- <-]; apply answers_ok. }
    intros residue. destruct residue; [apply answers_fail|]. apply answers_bind; [apply answers_step|]. intros p1.
    apply answers_bind; [apply answers_step|]. intros p2. destruct p2; try apply answers_fail. apply answers_ret.
  - injection E as <- <-. assert (~ stuck (A:=CandidateGuestResult * CandidateCgroupObservation * CandidatePhase) (Err e)) as Hs.
    2: { intros [[= ->]|[= ->]]; apply Hs; [by left|by right]. }
    unfold guarded in Eg. destruct (capture_and_remove d nonce key Spawned w) as [[a|e'] w3] eqn:Ec; [done|]. injection Eg as -> _.
    unfold capture_and_remove, io_bind at 1 in Ec. destruct (await_guest WAIT_FUEL d nonce key false None w) as [[u|e'] w4] eqn:Ea.
    + revert Ec. apply answers_bind; [apply answers_result|]. intros guest. do 2 (apply answers_bind; [apply answers_step|]; intros ?).
      apply answers_bind; [apply answers_sys|]. intros leaf. apply answers_bind; [apply answers_group|]. intros ob.
      apply answers_bind. { apply (runs_boxed _ (fun _ => True)). unfold verify_limits. by apply runs_guard. } intros ?.
      apply answers_bind. { apply (runs_boxed _ (fun _ => True)). unfold verify_empty. apply runs_guard. intros _. by apply runs_guard. } intros ?.
      apply answers_bind; [apply answers_step|]. intros ?. apply answers_bind; [apply answers_sys|]. intros ?. apply answers_ret.
    + apply await_guest_ends in Ea; [|unfold WAIT_FUEL; lia|done|].
      * injection Ec as -> _. intros [[= ->]|[= ->]]; apply Ea; [by left|by right].
      * unfold d, WAIT_FUEL, MILLISECOND, MAXIMUM_LAUNCH_MILLISECONDS in *. cbn [started limit]. lia.
Qed.
End ends.
End Finish.
Import Finish.


(** *** A launch that succeeds *)
Module JailSample.
Record World : Set := mkWorld { time : Z; killed : bool }.
Definition nonce : string := "0123456789abcdef0123456789abcdef".
Definition key : list byte := repeat x5a 32.
Definition console : list byte := Eval vm_compute in str_bytes "boot" ++ [x0a] ++ golden.
Definition events (w : World) : string := if killed w then "populated 0" else "populated 1".
#[global] Instance ticks : Clock World := {
  now w := (time w, w);
  sleep d w := mkWorld (time w + d) (killed w)
}.
#[global] Instance ticks_laws : ClockLaws World.
Proof. refine {| clock := time |}; cbn; [intros w t w' [= <- <-]|intros d w]; lia. Defined.
#[global] Instance host : LeaseHost World := {
  read_registry _ w := (Some "", w)%string;
  list_processes w := (Some [("1", Some 0)]%string, w);
  lease_root w := (None, w);
  create_lease _ w := (NotCreated, w);
  write_lease _ _ w := (None, w);
  remove_lease _ w := (tt, w)
}.
#[global] Instance jail : Jail () World := {
  console_size w := (Some (len console), w);
  errors_size w := (Some 0, w);
  read_console w := (Some console, w);
  read_errors w := (Some [], w);
  kill_cgroup w := (Some tt, mkWorld (time w) true);
  read_events w := (Some (events w), w);
  open_leaf w := (Some tt, w);
  count_children w := (Some 0, w);
  read_control _ name _ w :=
    (Some (if bool_decide (name = "memory.max"%string) then "536870912 "
           else if bool_decide (name = "memory.swap.max"%string) then "0"
           else if bool_decide (name = "pids.max"%string) then "128"
           else if bool_decide (name = "cpu.max"%string) then CGROUP_CPU_MAX
           else if bool_decide (name = "io.weight"%string) then " default 100"
           else events w)%string, w);
  remove_leaf _ w := (Some tt, w);
  group_exists w := (true, w);
  remove_group w := (tt, w);
  kill_owned _ w := (tt, w);
  drop_jail w := (tt, w);
  jail_exists w := (false, w)
}.
#[global] Instance jail_laws : JailLaws () World.
Proof. split; intros w; cbn; lia. Defined.
Definition deadline : CandidateDeadline := mkDeadline 0 (120000 * MILLISECOND).
Definition run : launch (CandidateGuestResult * CandidateCgroupObservation) * World :=
  finish_launch (H:=()) 300000 deadline nonce key (mkWorld 0 false).
End JailSample.

