(* ===== verification/Transport.v ===== *)
(** * The development transport ([transport/src/lib.rs])

    Frames, the constructed refusal, and one exchange over a sequenced-packet socket.
    Sockets, the file system and the clock are the interface [Sockets] on an explicit
    world. *)

From S2P Require Import Prelude Cbor Sha256 Paths Schema Numbers Native Boundary SourceRows Supervisor World.

Definition MAX_FRAME_BYTES : Z := 65536.
Definition MAX_PEER_EXECUTABLE_BYTES : Z := 32 * 1024 * 1024.

(** The code's errors are texts; those of the system carry its message. *)
Inductive TransportError : Set :=
| Refusal (message : string)
| System (context : string).
Abbreviation transport A := (result (failure TransportError) A).
(** [map_err(|error| error.to_string())] *)
Definition lift {A : Type} (m : P2 A) : transport A :=
  match m with
  | Ok a => Ok a
  | Err (Error e) => Err (Error (Refusal e))
  | Err Panic => Err Panic
  | Err OutOfFuel => Err OutOfFuel
  end.

(** ** Frames *)

(** [input] is what the stream yields until its end; [None] is a read error. *)
Definition read_framed (input : option (list byte)) : transport (list byte) :=
  match input with
  | None => Err (Error (System "read frame"))
  | Some content =>
      let framed := take (Z.to_nat (MAX_FRAME_BYTES + 5)) content in
      throw_if len framed <? 4 with Error (Refusal "frame header is truncated") ;;
      let length := be_value (take 4 framed) in
      throw_if (length =? 0) || (MAX_FRAME_BYTES <? length) || negb (len framed =? length + 4)
        with Error (Refusal "frame length is invalid") ;;
      Ok (drop 4 framed)
  end.
Definition write_framed {O : Type} `{Write O} (output : O) (bytes : list byte) : transport O :=
  throw_if bool_decide (bytes = []) || (MAX_FRAME_BYTES <? len bytes) with Error (Refusal "frame length is invalid") ;;
  let? output := ok_or (write_all output (be_bytes 4 (len bytes mod 2 ^ 32))) (Error (System "write frame")) in
  let? output := ok_or (write_all output bytes) (Error (System "write frame")) in
  ok_or (flush output) (Error (System "flush frame")).

(** ** The refusal *)

(** What the helper looks up: milliseconds since the epoch, its own executable and
    the boot id of the kernel, each [None] when the system fails. *)
Record Host : Type := mkHost { now_ms : option Z; executable : option (list byte); boot_id : option string }.

Definition required (value : Value) (key : string) : transport Value :=
  ok_or (field value key) (Error (Refusal ("request field missing: " +:+ key))).
Definition FAILURE_CODE : string := "evidence.unavailable.transport_only".
Definition BUILD_ID : string := "development.transport.v1".
Definition refusal_for (host : Host) (request_bytes : list byte) : transport (list byte) :=
  let? request := map_err (fun e => Error (Refusal e)) (decode_canonical request_bytes WIRE) in
  let? schema := lift (validate_for request Development) in
  throw_if negb (bool_decide (schema = Request)) || negb (bool_decide (text_of request "kind" = Some "cancel"%string))
    with Error (Refusal "development transport accepts only cancel requests") ;;
  let? now := ok_or (now_ms host) (Error (Refusal "system clock precedes Unix epoch")) in
  let? deadline := required request "deadlineMs" in
  let? deadline := ok_or (as_u64 deadline) (Error (Refusal "deadline is not an integer")) in
  throw_if deadline <=? now with Error (Refusal "request deadline expired") ;;
  let? artifact := ok_or (executable host) (Error (System "read current executable")) in
  let? boot := ok_or (boot_id host) (Error (System "kernel boot id")) in
  let? request_id := required request "requestId" in
  let? request_digest := lift (native_boundary_request_digest request) in
  let? deployment_id := required request "deploymentId" in
  let? boot_of := required request "bootId" in
  let? nonce := required request "nonce" in
  let? sequence := required request "sequence" in
  let? artifact_digest := ok_or (OneShot.sha256_hex artifact) Panic in
  let response :=
    Map [("protocol", Text PROTOCOL_NAME); ("version", Unsigned PROTOCOL_VERSION); ("requestId", request_id);
         ("requestDigest", Text request_digest); ("deploymentId", deployment_id); ("bootId", boot_of); ("nonce", nonce);
         ("sequence", sequence); ("helperArtifactDigest", Text artifact_digest); ("helperBuildId", Text BUILD_ID);
         ("kernelBootId", Text (trim boot)); ("status", Text "refused"); ("roleHandles", Array []); ("measurements", Array []);
         ("failureCode", Text FAILURE_CODE); ("evidenceBundleDigest", Null)]%string in
  let? schema := lift (validate_for response Development) in
  throw_if negb (bool_decide (schema = Response)) with Error (Refusal "constructed refusal is not a response") ;;
  lift (p2_encode response WIRE).

(** ** Sockets *)

Record Metadata : Set := mkMetadata {
  is_dir : bool; is_socket : bool; is_symlink : bool; owner : Z; group : Z; mode : Z; device : Z; inode : Z
}.
Record Credentials : Set := mkCredentials { peer_pid : Z; peer_uid : Z; peer_gid : Z }.
(** What [recvmsg] delivers: the bytes, whether rights or anything else came along,
    and whether the kernel flagged a truncation. *)
Record Packet : Type := mkPacket { packet_bytes : list byte; rights : bool; other_ancillary : bool; truncated : bool }.
(** The answer of a non-blocking look at the queue. *)
Inductive peeked : Set := NothingQueued | Queued | PeekFailed.

Class Sockets (F P W : Type) := {
  parent : string -> option string;
  effective_ids : W -> (Z * Z) * W;
  symlink_metadata : string -> W -> option Metadata * W;
  bind_socket : string -> W -> option F * W;
  connect_socket : string -> W -> option F * W;
  restrict_permissions : string -> W -> option unit * W;
  listen_one : F -> W -> option unit * W;
  accept_peer : F -> W -> option F * W;
  remove_file : string -> W -> unit * W;
  peer_credentials : F -> W -> option Credentials * W;
  peer_security_label : F -> W -> option (list byte) * W;
  peer_pidfd : F -> W -> option P * W;
  close_on_exec : P -> W -> option bool * W;
  poll_exited : P -> W -> option bool * W;
  proc_is_procfs : W -> option bool * W;
  peer_executable : Z -> W -> option (list byte * Metadata) * W;
  poll_request : F -> W -> option bool * W;
  receive : F -> W -> option Packet * W;
  peek : F -> W -> peeked * W;
  send : F -> list byte -> W -> option Z * W;
  host : W -> Host * W
}.
Abbreviation net W A := (io TransportError W A).

Section sockets.
Context {F P W : Type} `{HS : Sockets F P W}.

Definition system {A : Type} (context : string) (m : W -> option A * W) : net W A := ask (System context) m.
(** [metadata.mode() & 0o077 != 0] *)
Definition grants_others (m : Metadata) : bool := negb (Z.land (mode m) 63 =? 0).
Definition check_parent (path : string) (expected_uid expected_gid : Z) : net W unit :=
  let! up := pure (ok_or (parent path) (Error (Refusal "socket path has no parent"))) in
  let! m := system "socket parent" (symlink_metadata up) in
  refuse_if negb (is_dir m) || is_symlink m with Refusal "socket parent is not a real directory" ;;
  refuse_if negb (owner m =? expected_uid) || negb (group m =? expected_gid) with Refusal "socket parent ownership mismatch" ;;
  refuse_if grants_others m with Refusal "socket parent must not grant group/other access" ;;
  io_ret tt.
Definition check_socket (path : string) (expected_uid expected_gid : Z) : net W unit :=
  let! m := system "socket metadata" (symlink_metadata path) in
  refuse_if negb (is_socket m) || is_symlink m with Refusal "transport endpoint is not a real socket" ;;
  refuse_if negb (owner m =? expected_uid) || negb (group m =? expected_gid) with Refusal "socket ownership mismatch" ;;
  refuse_if grants_others m with Refusal "socket must not grant group/other access" ;;
  io_ret tt.

Definition require_live_pidfd (pidfd : P) : net W unit :=
  let! exited := system "peer pidfd poll" (poll_exited pidfd) in
  refuse_if exited with Refusal "peer pidfd is not live" ;;
  io_ret tt.
Definition sha256_file_bounded_with_metadata (pid : Z) : net W (string * Metadata) :=
  let! (content, metadata) := system "open measured file" (peer_executable pid) in
  let bytes := take (Z.to_nat (MAX_PEER_EXECUTABLE_BYTES + 1)) content in
  refuse_if bool_decide (bytes = []) || (MAX_PEER_EXECUTABLE_BYTES <? len bytes)
    with Refusal "measured file length is invalid" ;;
  let! digest := pure (ok_or (OneShot.sha256_hex bytes) Panic) in
  io_ret (digest, metadata).
(** [mode & 0o022] *)
Definition package_mismatch (m : Metadata) (expected_device : Z) : bool :=
  negb (device m =? expected_device) || negb (owner m =? 0) || negb (group m =? 0) || negb (Z.land (mode m) 18 =? 0).
Definition verify_executable (pid : Z) (pidfd : P) (expected : string) (expected_device : option Z) : net W unit :=
  refuse_if negb (slen expected =? 64) || negb (forallb lower_hex (str_bytes expected))
    with Refusal "expected peer executable digest is malformed" ;;
  let! procfs := system "procfs identity" proc_is_procfs in
  refuse_if negb procfs with Refusal "procfs identity mismatch" ;;
  let! (digest, metadata) := sha256_file_bounded_with_metadata pid in
  refuse_if match expected_device with Some d => package_mismatch metadata d | None => false end
    with Refusal "peer executable package identity mismatch" ;;
  refuse_if negb (bool_decide (digest = expected)) with Refusal "peer executable measurement mismatch" ;;
  require_live_pidfd pidfd.
Definition verify_peer (fd : F) (expected_uid expected_gid : Z) (expected_label : list byte)
    (expected_executable_sha256 : option string) (expected_executable_device : option Z) : net W unit :=
  let! credentials := system "SO_PEERCRED" (peer_credentials fd) in
  refuse_if negb (peer_uid credentials =? expected_uid) || negb (peer_gid credentials =? expected_gid)
    with Refusal "peer credentials mismatch" ;;
  refuse_if bool_decide (expected_label = []) with Refusal "expected peer security label is empty" ;;
  let! label := system "SO_PEERSEC" (peer_security_label fd) in
  refuse_if negb (bool_decide (label = expected_label)) with Refusal "peer security label mismatch" ;;
  let! pidfd := system "SO_PEERPIDFD" (peer_pidfd fd) in
  let! cloexec := system "peer pidfd F_GETFD" (close_on_exec pidfd) in
  refuse_if negb cloexec with Refusal "peer pidfd is not CLOEXEC" ;;
  let! _ := require_live_pidfd pidfd in
  match expected_executable_sha256 with
  | None => io_ret tt
  | Some expected => verify_executable (peer_pid credentials) pidfd expected expected_executable_device
  end.

Definition receive_packet (fd : F) : net W (list byte) :=
  let! packet := system "recvmsg" (receive fd) in
  refuse_if other_ancillary packet with Refusal "unexpected ancillary message" ;;
  refuse_if rights packet with Refusal "SCM_RIGHTS is forbidden" ;;
  refuse_if truncated packet || (MAX_FRAME_BYTES <? len (packet_bytes packet)) with Refusal "transport packet was truncated" ;;
  refuse_if bool_decide (packet_bytes packet = []) with Refusal "transport packet is empty" ;;
  io_ret (packet_bytes packet).
Definition reject_queued_packet (fd : F) : net W unit :=
  let! queued := total (peek fd) in
  match queued with
  | NothingQueued => io_ret tt
  | PeekFailed => io_fail (System "peek next packet")
  | Queued => io_fail (Refusal "multiple transport packets are forbidden")
  end.
Definition send_packet (fd : F) (bytes : list byte) : net W unit :=
  refuse_if bool_decide (bytes = []) || (MAX_FRAME_BYTES <? len bytes) with Refusal "transport packet length is invalid" ;;
  let! sent := system "send" (send fd bytes) in
  refuse_if negb (sent =? len bytes) with Refusal "seqpacket send was partial" ;;
  io_ret tt.
Definition wait_for_supervisor_request (fd : F) : net W unit :=
  let! ready := system "request readiness poll" (poll_request fd) in
  refuse_if negb ready with Refusal "connected peer request timed out" ;;
  io_ret tt.

(** [SocketPathGuard]: the bound endpoint is removed on every path, unless another
    file has taken its place. *)
Definition capture_guard (path : string) : net W Metadata :=
  let! m := system "capture bound socket" (symlink_metadata path) in
  refuse_if negb (is_socket m) || is_symlink m with Refusal "bound endpoint is not a real socket" ;;
  io_ret m.
Definition drop_guard (path : string) (bound : Metadata) (w : W) : W :=
  let '(m, w) := symlink_metadata path w in
  match m with
  | Some m => if (device m =? device bound) && (inode m =? inode bound) then (remove_file path w).2 else w
  | None => w
  end.
Definition serve_peer (listener : F) (path : string) (uid gid : Z) (label : list byte) : net W unit :=
  let! _ := system "socket permissions" (restrict_permissions path) in
  let! _ := system "listen" (listen_one listener) in
  let! peer := system "accept" (accept_peer listener) in
  let! _ := verify_peer peer uid gid label None None in
  let! _ := wait_for_supervisor_request peer in
  let! request := receive_packet peer in
  let! _ := reject_queued_packet peer in
  let! host := total host in
  let! refusal := pure (refusal_for host request) in
  send_packet peer refusal.
Definition serve_one_refusal (path : string) (uid gid : Z) (label : list byte) : net W unit :=
  let! (euid, egid) := total effective_ids in
  let! _ := check_parent path euid egid in
  let! present := total (symlink_metadata path) in
  refuse_if match present with Some _ => true | None => false end with Refusal "socket path already exists" ;;
  let! listener := system "bind" (bind_socket path) in
  let! bound := capture_guard path in
  fun w => let '(result, w) := serve_peer listener path uid gid label w in (result, drop_guard path bound w).
Definition exchange_refusal (path : string) (uid gid : Z) (label : list byte) (executable_sha256 : string)
    (executable_device : option Z) (request : list byte) : net W (list byte) :=
  let! _ := check_parent path uid gid in
  let! _ := check_socket path uid gid in
  let! peer := system "connect" (connect_socket path) in
  let! _ := verify_peer peer uid gid label (Some executable_sha256) executable_device in
  let! _ := send_packet peer request in
  receive_packet peer.
End sockets.
