(* ===== verification/TransportFacts.v ===== *)
(** * Theorems on the development transport

    [Framing]: frames are read back exactly.  [Refused]: which requests are answered,
    with what.  [Peers]: what one exchange has checked. *)

From S2P Require Import Prelude Cbor CborFacts Sha256 Paths TextFacts Schema Numbers Native Boundary NativeFacts SchemaFacts BoundaryFacts SourceRows Supervisor SupervisorFacts CaptureFacts World Transport.
Import Spec Encode Steps SupervisorFacts.Wire CaptureFacts.Budget CaptureFacts.Exchange.

(** ** Frames *)
Module Framing.

Definition frame_of (bytes : list byte) : list byte := be_bytes 4 (len bytes) ++ bytes.
Definition fits (bytes : list byte) : Prop := 1 <= len bytes <= MAX_FRAME_BYTES.

Lemma header_value bytes rest : fits bytes -> be_value (take 4 (be_bytes 4 (len bytes) ++ rest)) = len bytes.
Proof.
  intros H. rewrite take_app_length' by (by rewrite length_be_bytes). rewrite be_value_bytes. unfold fits, MAX_FRAME_BYTES in H. apply Z.mod_small. lia.
Qed.
Lemma read_framed_ok content bytes : read_framed (Some content) = Ok bytes <-> fits bytes /\ content = frame_of bytes.
Proof.
  unfold read_framed, frame_of. set (framed := take (Z.to_nat (MAX_FRAME_BYTES + 5)) content). split.
  - intros [Hh%Z.ltb_ge H]%guard_ok. apply guard_ok in H as [[[H0 H1]%orb_false_iff H2]%orb_false_iff [= <-]].
    apply Z.eqb_neq in H0. apply Z.ltb_ge in H1. apply negb_false_iff, Z.eqb_eq in H2.
    assert (len framed <= MAX_FRAME_BYTES + 4) as Hl by lia.
    assert (framed = content) as E.
    { unfold framed in *. unfold MAX_FRAME_BYTES in *. apply take_ge. unfold len in Hl. rewrite length_take in Hl. lia. }
    rewrite E in *. clear E framed. pose proof (be_value_range (take 4 content)). pose proof (len_drop content 4).
    change (drop (Z.to_nat 4) content) with (drop 4 content) in *.
    split; [unfold fits; lia|]. replace (len (drop 4 content)) with (be_value (take 4 content)) by lia.
    rewrite be_bytes_value_len; [by rewrite take_drop|]. rewrite length_take. unfold len in *. lia.
  - intros [Hf ->]. assert (framed = be_bytes 4 (len bytes) ++ bytes) as ->.
    { unfold framed. apply take_ge. unfold fits, MAX_FRAME_BYTES in *. rewrite length_app, length_be_bytes. unfold len in *. lia. }
    rewrite header_value by done. rewrite !len_app, len_be_bytes. unfold fits, MAX_FRAME_BYTES in *.
    rewrite (proj2 (Z.ltb_ge _ _)), (proj2 (Z.eqb_neq _ _)), (proj2 (Z.ltb_ge _ _)) by lia.
    rewrite (proj2 (Z.eqb_eq _ _)) by lia. cbn [orb negb]. by rewrite drop_app_length' by (by rewrite length_be_bytes).
Qed.

Section writing.
Context {O : Type} {HW : Write O} (view : O -> list byte) {HL : WriteLaws O view}.
Lemma write_framed_ok o bytes o' : write_framed o bytes = Ok o' -> fits bytes /\ view o' = view o ++ frame_of bytes.
Proof.
  unfold write_framed. intros [[Hne Hl]%orb_false_iff H]%guard_ok. apply bool_decide_eq_false in Hne. apply Z.ltb_ge in Hl.
  apply bind_ok in H as (o1 & H1%ok_or_ok%write_appends & H). apply bind_ok in H as (o2 & H2%ok_or_ok%write_appends & H3%ok_or_ok%flush_keeps).
  assert (fits bytes) as Hf.
  { unfold fits. destruct bytes; [done|]. rewrite len_cons in *. pose proof (len_nonneg bytes). lia. }
  split; [done|]. rewrite H3, H2, H1. unfold frame_of. unfold fits, MAX_FRAME_BYTES in Hf. rewrite Z.mod_small by lia.
  by rewrite app_assoc.
Qed.
End writing.
End Framing.
Import Framing.

(** A frame is its length in four bytes and 1 to 65,536 bytes of payload, and
    nothing else is read as one; whatever a writer has written as a frame onto an
    empty sink, a reader of that stream returns. *)
Theorem framed_roundtrip {O : Type} `{HW : Write O} (view : O -> list byte) `{HL : !WriteLaws O view} content bytes (o o' : O) :
  (read_framed (Some content) = Ok bytes <-> fits bytes /\ content = frame_of bytes) /\
  (view o = [] -> write_framed o bytes = Ok o' -> read_framed (Some (view o')) = Ok bytes).
Proof.
  split; [apply read_framed_ok|]. intros Ho H. apply (write_framed_ok view) in H as [Hf Hv]. apply read_framed_ok.
  split; [done|]. by rewrite Hv, Ho.
Qed.

Lemma framed_roundtrip_witness :
  write_framed ([] : list byte) [x01; x02] = Ok [x00; x00; x00; x02; x01; x02] /\
  read_framed (Some [x00; x00; x00; x02; x01; x02]) = Ok [x01; x02].
Proof.
  assert (write_framed ([] : list byte) [x01; x02] = Ok [x00; x00; x00; x02; x01; x02]) as H by (vm_compute; reflexivity).
  split; [exact H|]. exact (proj2 (framed_roundtrip (fun o : list byte => o) [] [x01; x02] [] _) eq_refl H).
Defined.

(** ** The refusal *)
Module Refused.

(** The request and what the answer takes from it. *)
Record Cancel : Type := mkCancel {
  cancel_request : Value;
  cancel_id : string; cancel_deployment : string; cancel_boot : string; cancel_nonce : string;
  cancel_sequence : Z; cancel_deadline : Z
}.
Record cancel_of (request_bytes : list byte) (c : Cancel) : Prop := {
  cancel_decoded : decode_canonical request_bytes WIRE = Ok (cancel_request c);
  cancel_valid : validate_for (cancel_request c) Development = Ok Request;
  cancel_kind : id_at (cancel_request c) "kind" "cancel";
  cancel_ids : id_at (cancel_request c) "requestId" (cancel_id c) /\ id_at (cancel_request c) "deploymentId" (cancel_deployment c) /\
    id_at (cancel_request c) "bootId" (cancel_boot c) /\ id_at (cancel_request c) "nonce" (cancel_nonce c);
  cancel_numbers : number_at (cancel_request c) "sequence" (cancel_sequence c) /\ number_at (cancel_request c) "deadlineMs" (cancel_deadline c)
}.
Definition named (s : string) : Prop := Native.identifier (Text s) = Ok s.
Definition hashed (s : string) : Prop := Native.digest (Text s) = Ok s.

Definition response_of (c : Cancel) (request_digest artifact_digest kernel_boot : string) : Value :=
  Map [("protocol", Text PROTOCOL_NAME); ("version", Unsigned PROTOCOL_VERSION); ("requestId", Text (cancel_id c));
       ("requestDigest", Text request_digest); ("deploymentId", Text (cancel_deployment c)); ("bootId", Text (cancel_boot c));
       ("nonce", Text (cancel_nonce c)); ("sequence", Unsigned (cancel_sequence c)); ("helperArtifactDigest", Text artifact_digest);
       ("helperBuildId", Text BUILD_ID); ("kernelBootId", Text kernel_boot); ("status", Text "refused"); ("roleHandles", Array []);
       ("measurements", Array []); ("failureCode", Text FAILURE_CODE); ("evidenceBundleDigest", Null)]%string.

Lemma validate_request_of v : validate_for v Development = Ok Request -> validate_request v = Ok tt.
Proof.
  unfold validate_for. intros (schema & _ & H)%bind_ok. apply bind_ok in H as ([] & Hs & [= ->]). exact Hs.
Qed.
Lemma u64_present v key : u64_absent v key = false -> exists n, number_at v key n.
Proof.
  unfold u64_absent. intros H%bool_decide_eq_false. destruct (field v key) as [[]|] eqn:E; try done. by eexists.
Qed.
Lemma each_identity_ok v message keys u : each_identity v message keys = Ok u ->
  Forall (fun key => exists s, id_at v key s /\ named s) keys.
Proof.
  destruct u. unfold each_identity. rewrite for_each_ok. intros H. eapply Forall_impl; [exact H|]. intros key Hk. cbv beta in Hk.
  apply bind_ok in Hk as (w & Hw%ok_or_ok & Hk). apply bind_ok in Hk as (s & Hs & _). pose proof Hs as ->%identifier_text. by exists s.
Qed.
Lemma request_fields v : validate_request v = Ok tt ->
  exists r d b n s t, id_at v "requestId" r /\ id_at v "deploymentId" d /\ id_at v "bootId" b /\ id_at v "nonce" n /\
    (named r /\ named d /\ named b /\ named n) /\ number_at v "sequence" s /\ number_at v "deadlineMs" t.
Proof.
  unfold validate_request. intros (? & _ & H)%bind_ok. apply bind_ok in H as (? & Hids%each_identity_ok & H).
  apply bind_ok in H as (? & _ & H). apply bind_ok in H as (? & _ & H). apply guard_ok in H as [[Hs Ht]%orb_false_iff _].
  apply u64_present in Hs as [s Hs], Ht as [t Ht]. apply Forall_cons in Hids as [(r & Hr & Nr) Hids].
  apply Forall_cons in Hids as [(d & Hd & Nd) Hids]. apply Forall_cons in Hids as [(b & Hb & Nb) Hids].
  apply Forall_cons in Hids as [(n & Hn & Nn) _]. by exists r, d, b, n, s, t.
Qed.

Lemma response_valid c rd ad kb :
  named (cancel_id c) -> named (cancel_deployment c) -> named (cancel_boot c) -> named (cancel_nonce c) -> named kb ->
  hashed rd -> hashed ad -> validate_for (response_of c rd ad kb) Development = Ok Response.
Proof.
  intros N1 N2 N3 N4 N5 H1 H2. unfold validate_for.
  assert (classify (response_of c rd ad kb) = Ok Response) as -> by reflexivity. cbn [res_bind]. unfold validate_response.
  assert (Native.exact_keys (response_of c rd ad kb) RESPONSE_KEYS = Ok tt) as -> by reflexivity. cbn [res_bind].
  change (text_of (response_of c rd ad kb) "status") with (Some "refused"%string). cbn [ok_or res_bind]. unfold field_or at 1 2.
  change (field (response_of c rd ad kb) "roleHandles") with (Some (Array [])).
  change (field (response_of c rd ad kb) "measurements") with (Some (Array [])). cbn [ok_or res_bind Native.array len length res_fold].
  assert (each_identity (response_of c rd ad kb) "response identity missing"
    ["requestId"; "deploymentId"; "bootId"; "nonce"; "helperBuildId"; "kernelBootId"]%string = Ok tt) as ->.
  { unfold each_identity. cbn [for_each]. unfold field_or.
    change (field (response_of c rd ad kb) "requestId") with (Some (Text (cancel_id c))).
    change (field (response_of c rd ad kb) "deploymentId") with (Some (Text (cancel_deployment c))).
    change (field (response_of c rd ad kb) "bootId") with (Some (Text (cancel_boot c))).
    change (field (response_of c rd ad kb) "nonce") with (Some (Text (cancel_nonce c))).
    change (field (response_of c rd ad kb) "helperBuildId") with (Some (Text BUILD_ID)).
    change (field (response_of c rd ad kb) "kernelBootId") with (Some (Text kb)).
    cbn [ok_or res_bind]. rewrite N1, N2, N3, N4, N5. reflexivity. }
  cbn [res_bind for_each]. unfold field_or.
  change (field (response_of c rd ad kb) "requestDigest") with (Some (Text rd)).
  change (field (response_of c rd ad kb) "helperArtifactDigest") with (Some (Text ad)). cbn [ok_or res_bind]. rewrite H1, H2. reflexivity.
Qed.

Lemma response_identities c rd ad kb : validate_for (response_of c rd ad kb) Development = Ok Response ->
  named kb /\ hashed rd /\ hashed ad.
Proof.
  unfold validate_for. intros (schema & _ & H)%bind_ok. apply bind_ok in H as ([] & Hs & [= ->]). revert Hs. unfold validate_response.
  intros (? & _ & H)%bind_ok. do 7 (apply bind_ok in H as (? & _ & H)).
  apply bind_ok in H as (? & Hids%each_identity_ok & H). apply bind_ok in H as ([] & Hd%for_each_ok & _).
  split_and!.
  - do 5 apply Forall_cons, proj2 in Hids. apply Forall_cons, proj1 in Hids as (s & [= <-] & Hs). exact Hs.
  - apply Forall_cons, proj1 in Hd. apply bind_ok in Hd as (v & [= <-]%ok_or_ok & Hd). apply bind_ok in Hd as (s & Hs & _).
    pose proof (digest_text _ _ Hs) as [= <-]. exact Hs.
  - apply Forall_cons, proj2, Forall_cons, proj1 in Hd. apply bind_ok in Hd as (v & [= <-]%ok_or_ok & Hd).
    apply bind_ok in Hd as (s & Hs & _). pose proof (digest_text _ _ Hs) as [= <-]. exact Hs.
Qed.

(** The answer: from the request, the clock, the executable and the boot id. *)
Definition answered (h : Host) (request_bytes : list byte) (c : Cancel) (answer : list byte) : Prop :=
  exists now exe boot rd ad,
    now_ms h = Some now /\ now < cancel_deadline c /\ executable h = Some exe /\ boot_id h = Some boot /\
    native_boundary_request_digest (cancel_request c) = Ok rd /\ OneShot.sha256_hex exe = Some ad /\
    hashed rd /\ hashed ad /\ named (trim boot) /\ encode_bounded (response_of c rd ad (trim boot)) WIRE = Ok answer.

Lemma lift_ok {A} (m : P2 A) a : lift m = Ok a <-> m = Ok a.
Proof. destruct m as [x|[]]; split; cbn; congruence. Qed.
Lemma required_field_ok v key w : required v key = Ok w <-> field v key = Some w.
Proof. apply ok_or_ok. Qed.
Lemma refused_only h rb answer : refusal_for h rb = Ok answer -> exists c, cancel_of rb c /\ answered h rb c answer.
Proof.
  unfold refusal_for. intros (request & Hd%map_err_ok & H)%bind_ok. apply bind_ok in H as (schema & Hv%lift_ok & H).
  apply guard_ok in H as [[Hs%negb_false_iff%bool_decide_eq_true Hk%negb_false_iff%bool_decide_eq_true]%orb_false_iff H]. subst schema.
  destruct (request_fields _ (validate_request_of _ Hv)) as (r & d & b & n & s & t & Hr & Hdp & Hb & Hn & Hnamed & Hsq & Ht).
  apply bind_ok in H as (now & Hnow%ok_or_ok & H). apply bind_ok in H as (dv & Hdv%required_field_ok & H).
  rewrite Ht in Hdv. injection Hdv as <-. apply bind_ok in H as (deadline & Hdl & H). injection Hdl as <-.
  apply guard_ok in H as [Hlt%Z.leb_gt H]. apply bind_ok in H as (exe & Hexe%ok_or_ok & H).
  apply bind_ok in H as (boot & Hboot%ok_or_ok & H).
  apply bind_ok in H as (x & Hx%required_field_ok & H). rewrite Hr in Hx. injection Hx as <-.
  apply bind_ok in H as (rd & Hrd%lift_ok & H).
  apply bind_ok in H as (x & Hx%required_field_ok & H). rewrite Hdp in Hx. injection Hx as <-.
  apply bind_ok in H as (x & Hx%required_field_ok & H). rewrite Hb in Hx. injection Hx as <-.
  apply bind_ok in H as (x & Hx%required_field_ok & H). rewrite Hn in Hx. injection Hx as <-.
  apply bind_ok in H as (x & Hx%required_field_ok & H). rewrite Hsq in Hx. injection Hx as <-.
  apply bind_ok in H as (ad & Had%ok_or_ok & H). set (c := mkCancel request r d b n s t).
  apply bind_ok in H as (schema & Hresp%lift_ok & H). apply guard_ok in H as [->%negb_false_iff%bool_decide_eq_true He%lift_ok].
  change (validate_for (response_of c rd ad (trim boot)) Development = Ok Response) in Hresp.
  destruct (response_identities _ _ _ _ Hresp) as (Hkb & Hh1 & Hh2). apply map_err_ok in He.
  exists c. split; [|by exists now, exe, boot, rd, ad]. constructor; [done|done|by apply text_of_ok|done|done].
Qed.
Lemma refused_all h rb c answer : cancel_of rb c -> answered h rb c answer -> refusal_for h rb = Ok answer.
Proof.
  intros [Hd Hv Hk%text_of_ok (Hr & Hdp & Hb & Hn) [Hsq Ht]] (now & exe & boot & rd & ad & Hnow & Hlt & Hexe & Hboot & Hrd & Had & Hh1 & Hh2 & Hkb & He).
  unfold refusal_for, required. rewrite Hd. cbn [map_err res_bind]. rewrite Hv. cbn [lift res_bind]. rewrite Hk.
  rewrite (bool_decide_eq_true_2 (Request = Request)), (bool_decide_eq_true_2 (Some _ = Some _)) by done. cbn [negb orb].
  rewrite Hnow. cbn [ok_or res_bind]. rewrite Ht. cbn [ok_or res_bind as_u64]. rewrite (proj2 (Z.leb_gt _ _)) by done.
  rewrite Hexe, Hboot. cbn [ok_or res_bind]. rewrite Hr. cbn [ok_or res_bind]. rewrite Hrd. cbn [lift res_bind].
  rewrite Hdp, Hb, Hn, Hsq. cbn [ok_or res_bind]. rewrite Had. cbn [ok_or res_bind].
  destruct (request_fields _ (validate_request_of _ Hv)) as (r & d & b & n & s & t & Hr' & Hdp' & Hb' & Hn' & (N1 & N2 & N3 & N4) & _ & _).
  rewrite (id_at_inj _ _ _ _ Hr' Hr) in *. rewrite (id_at_inj _ _ _ _ Hdp' Hdp) in *. rewrite (id_at_inj _ _ _ _ Hb' Hb) in *.
  rewrite (id_at_inj _ _ _ _ Hn' Hn) in *.
  pose proof (response_valid c rd ad (trim boot) N1 N2 N3 N4 Hkb Hh1 Hh2) as Hresp. unfold response_of in Hresp, He.
  rewrite Hresp. cbn [lift res_bind]. rewrite (bool_decide_eq_true_2 (Response = Response)) by done. cbn [negb].
  unfold p2_encode. rewrite He. reflexivity.
Qed.
End Refused.
Import Refused.

(** Only a valid [cancel] request whose deadline is ahead is answered, and the
    answer is the one canonical refusal that repeats the request's identities and
    sequence, names the digests of the request and of the helper's own executable and
    the trimmed boot id, and holds no handle, no measurement and no evidence; and
    every such request on a host that can name itself gets it. *)
Theorem refusal_exact h request_bytes answer :
  refusal_for h request_bytes = Ok answer <-> exists c, cancel_of request_bytes c /\ answered h request_bytes c answer.
Proof. split; [apply refused_only|]. intros (c & Hc & Ha). by eapply refused_all. Qed.

(** ** Exchanges *)

(** What passes between the helper and its peers, in order. *)
Inductive event {F : Type} : Type :=
| Measured (pid : Z) (content : list byte) (metadata : Metadata)
| Received (peer : F) (packet : Packet)
| Sent (peer : F) (bytes : list byte).
Arguments event : clear implicits.

(** Only reading an executable, receiving and sending are events, and they add their
    own; credentials and label of a connected peer are those fixed when it connected. *)
Class SocketLaws (F P W : Type) {HS : Sockets F P W} (events : W -> list (event F)) (credentials_of : F -> Credentials)
    (label_of : F -> list byte) : Prop := {
  paths_silent : silent events effective_ids /\ forall path, silent events (symlink_metadata path) /\ silent events (bind_socket path) /\
    silent events (connect_socket path) /\ silent events (restrict_permissions path) /\ silent events (remove_file path);
  files_silent : forall fd, silent events (listen_one fd) /\ silent events (accept_peer fd) /\ silent events (peer_credentials fd) /\
    silent events (peer_security_label fd) /\ silent events (peer_pidfd fd) /\ silent events (poll_request fd) /\ silent events (peek fd);
  pidfds_silent : forall p, silent events (close_on_exec p) /\ silent events (poll_exited p);
  host_silent : silent events proc_is_procfs /\ silent events host;
  measured_event pid w : let '(r, w') := peer_executable pid w in
    events w' = events w ++ match r with Some (content, metadata) => [Measured pid content metadata] | None => [] end;
  received_event fd w : let '(r, w') := receive fd w in
    events w' = events w ++ match r with Some packet => [Received fd packet] | None => [] end;
  sent_event fd bytes w : let '(r, w') := send fd bytes w in
    events w' = events w ++ match r with Some _ => [Sent fd bytes] | None => [] end;
  credentials_fixed fd w c w' : peer_credentials fd w = (Some c, w') -> c = credentials_of fd;
  label_fixed fd w l w' : peer_security_label fd w = (Some l, w') -> l = label_of fd
}.

Module Peers.
Section peers.
Context {F P W : Type} {HS : Sockets F P W} (events : W -> list (event F)) (credentials_of : F -> Credentials) (label_of : F -> list byte).
Context {HL : SocketLaws F P W events credentials_of label_of}.

Abbreviation adds := (World.adds (E:=TransportError) events).
Abbreviation quietly := (World.quietly (E:=TransportError) events).

Ltac silent_op := first [apply paths_silent|apply files_silent|apply pidfds_silent|apply host_silent].
Ltac quiet_step := eapply quietly_then;
  [first [apply quietly_pure|apply (quietly_ask _ _ _ (fun _ => True)); [silent_op|done]|apply (quietly_total _ _ (fun _ => True)); [silent_op|done]]|try done|intros ? ?].

Lemma check_parent_quiet path uid gid : quietly (check_parent path uid gid) (fun _ => True).
Proof. unfold check_parent. do 2 quiet_step. do 3 (apply adds_guard; [done|intros _]). by apply adds_ret. Qed.
Lemma check_socket_quiet path uid gid : quietly (check_socket path uid gid) (fun _ => True).
Proof. unfold check_socket. quiet_step. do 3 (apply adds_guard; [done|intros _]). by apply adds_ret. Qed.
Lemma require_live_quiet (pidfd : P) : quietly (require_live_pidfd pidfd) (fun _ => True).
Proof. unfold require_live_pidfd. quiet_step. apply adds_guard; [done|intros _]. by apply adds_ret. Qed.

(** Who may be on the other end, and what counts as one packet. *)
Definition admitted (fd : F) (uid gid : Z) (label : list byte) : Prop :=
  peer_uid (credentials_of fd) = uid /\ peer_gid (credentials_of fd) = gid /\ label <> [] /\ label_of fd = label.
Definition plain (packet : Packet) : Prop :=
  rights packet = false /\ other_ancillary packet = false /\ truncated packet = false /\ fits (packet_bytes packet).
(** The executable a client insists on. *)
Definition measured_as (expected : string) (device_of : option Z) (content : list byte) (m : Metadata) : Prop :=
  len content <= MAX_PEER_EXECUTABLE_BYTES /\ OneShot.sha256_hex content = Some expected /\
  forall d, device_of = Some d -> device m = d /\ owner m = 0 /\ group m = 0 /\ Z.land (mode m) 18 = 0.

Lemma verify_executable_adds pid (pidfd : P) expected dev :
  adds (verify_executable pid pidfd expected dev) (fun r l =>
    match r with
    | Ok _ => exists content m, l = [Measured pid content m] /\ measured_as expected dev content m
    | Err _ => l = [] \/ exists content m, l = [Measured pid content m]
    end).
Proof.
  unfold verify_executable. apply adds_guard; [by left|intros _]. quiet_step; [by left|]. apply adds_guard; [by left|intros _].
  eapply (adds_bind _ _ _ (fun r l => match r with
    | Ok (d, m) => exists content, l = [Measured pid content m] /\ len content <= MAX_PEER_EXECUTABLE_BYTES /\ OneShot.sha256_hex content = Some d
    | Err _ => l = [] \/ exists content m, l = [Measured pid content m] end)).
  - unfold sha256_file_bounded_with_metadata.
    eapply (adds_bind _ _ _ (fun r l => match r with Ok (c, m) => l = [Measured pid c m] | Err _ => l = [] end)).
    + intros w r w'. pose proof (measured_event (HS:=HS) pid w) as He. unfold system, ask.
      destruct (peer_executable pid w) as [[[c m]|] w1]; intros [= <- <-]; eexists; eauto.
    + intros e l ->. by left.
    + intros [c m] l ->. apply adds_guard; [right; by eexists _, _|]. intros [_ Hl%Z.ltb_ge]%orb_false_iff.
      eapply quietly_then; [apply quietly_pure|right; by eexists _, _|]. intros d Hd%ok_or_ok. apply adds_ret.
      assert (take (Z.to_nat (MAX_PEER_EXECUTABLE_BYTES + 1)) c = c) as E.
      { apply take_ge. unfold len in Hl. rewrite length_take in Hl. unfold MAX_PEER_EXECUTABLE_BYTES in *. lia. }
      rewrite E in Hl, Hd. by exists c.
  - by intros e l.
  - intros [d m] l (c & -> & Hl & Hd). apply adds_guard; [right; by eexists _, _|]. intros Hpk.
    apply adds_guard; [right; by eexists _, _|]. intros Hne%negb_false_iff%bool_decide_eq_true. subst d.
    eapply adds_weaken; [apply require_live_quiet|]. intros [] l' [-> _]; [|right; by eexists _, _].
    exists c, m. split; [done|]. split_and!; [done..|]. intros d ->. unfold package_mismatch in Hpk.
    apply orb_false_iff in Hpk as [[[H1 H2]%orb_false_iff H3]%orb_false_iff H4].
    by apply negb_false_iff, Z.eqb_eq in H1, H2, H3, H4.
Qed.

Lemma verify_peer_adds fd uid gid label sha dev :
  adds (verify_peer fd uid gid label sha dev) (fun r l =>
    match r, sha with
    | Ok _, None => l = [] /\ admitted fd uid gid label
    | Ok _, Some expected => exists content m, l = [Measured (peer_pid (credentials_of fd)) content m] /\
        admitted fd uid gid label /\ measured_as expected dev content m
    | Err _, None => l = []
    | Err _, Some _ => l = [] \/ exists pid content m, l = [Measured pid content m]
    end).
Proof.
  set (R := fun r l => _). assert (forall e, R (Err e) []) as HE by (intros e; unfold R; destruct sha; by left + done).
  unfold verify_peer. eapply quietly_then; [apply quietly_ask; [silent_op|exact (credentials_fixed fd)]|done|]. intros c ->.
  apply adds_guard; [done|]. intros [Hu%negb_false_iff%Z.eqb_eq Hg%negb_false_iff%Z.eqb_eq]%orb_false_iff.
  apply adds_guard; [done|]. intros Hne%bool_decide_eq_false.
  eapply quietly_then; [apply quietly_ask; [silent_op|exact (label_fixed fd)]|done|]. intros lb ->.
  apply adds_guard; [done|]. intros Hlb%negb_false_iff%bool_decide_eq_true.
  quiet_step. quiet_step. apply adds_guard; [done|intros _].
  eapply quietly_then; [apply require_live_quiet|done|intros _ _]. destruct sha as [expected|]; [|by apply adds_ret].
  eapply adds_weaken; [apply verify_executable_adds|]. intros [u|e] l.
  - intros (ct & m & -> & Hm). by exists ct, m.
  - intros [-> | (ct & m & ->)]; [by left|right]. by eexists _, _, _.
Qed.
Lemma receive_packet_adds fd :
  adds (receive_packet fd) (fun r l =>
    match r with
    | Ok bytes => exists p, l = [Received fd p] /\ plain p /\ packet_bytes p = bytes
    | Err _ => l = [] \/ exists p, l = [Received fd p]
    end).
Proof.
  unfold receive_packet. eapply (adds_bind _ _ _ (fun r l => match r with Ok p => l = [Received fd p] | Err _ => l = [] end)).
  - intros w r w'. pose proof (received_event (HS:=HS) fd w) as He. unfold system, ask.
    destruct (receive fd w) as [[p|] w1]; intros [= <- <-]; eexists; eauto.
  - intros e l ->. by left.
  - intros p l ->. do 2 (apply adds_guard; [right; by eexists|intros ?]). apply adds_guard; [right; by eexists|].
    intros [Ht Hl%Z.ltb_ge]%orb_false_iff. apply adds_guard; [right; by eexists|]. intros Hne%bool_decide_eq_false.
    apply adds_ret. exists p. unfold plain, fits. split_and!; try done; revert Hne Hl. destruct (packet_bytes p) as [|b bs]; try done.
    intros _ Hl. rewrite len_cons. pose proof (len_nonneg bs). lia.
Qed.
Lemma send_packet_adds fd bytes :
  adds (send_packet fd bytes) (fun r l => match r with Ok _ => l = [Sent fd bytes] | Err _ => l = [] \/ l = [Sent fd bytes] end).
Proof.
  unfold send_packet. apply adds_guard; [by left|intros _].
  eapply (adds_bind _ _ _ (fun r l => match r with Ok _ => l = [Sent fd bytes] | Err _ => l = [] end)).
  - intros w r w'. pose proof (sent_event (HS:=HS) fd bytes w) as He. unfold system, ask.
    destruct (send fd bytes w) as [[p|] w1]; intros [= <- <-]; eexists; eauto.
  - intros e l ->. by left.
  - intros n l ->. apply adds_guard; [by right|intros _]. by apply adds_ret.
Qed.

(** The host as some look at it found it. *)
Definition seen (h : Host) : Prop := exists w w', host w = (h, w').
Definition replied (uid gid : Z) (label : list byte) (l : list (event F)) : Prop :=
  exists peer p h answer, l = [Received peer p; Sent peer answer] /\ admitted peer uid gid label /\ plain p /\
    seen h /\ refusal_for h (packet_bytes p) = Ok answer.
Definition served (uid gid : Z) (label : list byte) (r : result (failure TransportError) unit) (l : list (event F)) : Prop :=
  match r with
  | Ok _ => replied uid gid label l
  | Err _ => l = [] \/ (exists peer p, l = [Received peer p] /\ admitted peer uid gid label) \/ replied uid gid label l
  end.

Lemma quietly_host : quietly (total host) seen.
Proof.
  apply quietly_total; [silent_op|]. intros w h w' H. by exists w, w'.
Qed.
Lemma reject_queued_quiet (fd : F) : quietly (reject_queued_packet fd) (fun _ => True).
Proof.
  unfold reject_queued_packet. quiet_step. destruct a; [by apply adds_ret| |]; intros w r w' [= <- <-]; exists []; by rewrite app_nil_r.
Qed.
Lemma wait_quiet (fd : F) : quietly (wait_for_supervisor_request fd) (fun _ => True).
Proof. unfold wait_for_supervisor_request. quiet_step. apply adds_guard; [done|intros _]. by apply adds_ret. Qed.

Lemma reply_adds peer p uid gid label : admitted peer uid gid label -> plain p ->
  adds (let! _ := reject_queued_packet peer in
        let! h := total host in
        let! refusal := pure (refusal_for h (packet_bytes p)) in
        send_packet peer refusal) (fun r l => served uid gid label r ([Received peer p] ++ l)).
Proof.
  intros Ha Hp. assert (forall e, served uid gid label (Err e) [Received peer p]) as HE by (intros e; right; left; by exists peer, p).
  eapply quietly_then; [apply reject_queued_quiet|done|intros _ _].
  eapply quietly_then; [apply quietly_host|done|intros h Hh]. eapply quietly_then; [apply quietly_pure|done|intros answer Hr].
  eapply adds_weaken; [apply send_packet_adds|]. intros [u|e] l; [intros ->; by exists peer, p, h, answer|].
  intros [-> | ->]; [done|right; right]. by exists peer, p, h, answer.
Qed.
Lemma serve_peer_adds listener path uid gid label : adds (serve_peer listener path uid gid label) (served uid gid label).
Proof.
  unfold serve_peer. do 3 (quiet_step; [by left|]). rename a1 into peer.
  eapply adds_bind; [apply verify_peer_adds|intros e l ->; by left|]. intros _ l [-> Ha].
  eapply quietly_then; [apply wait_quiet|by left|intros _ _].
  eapply adds_bind; [apply receive_packet_adds| |].
  - intros e l [-> | (p & ->)]; [by left|right; left; by exists peer, p].
  - intros bytes l (p & -> & Hp & <-). by apply reply_adds.
Qed.
Lemma serve_adds path uid gid label : adds (serve_one_refusal path uid gid label) (served uid gid label).
Proof.
  unfold serve_one_refusal. quiet_step; [by left|]. destruct a as [euid egid].
  eapply quietly_then; [apply check_parent_quiet|by left|intros _ _]. quiet_step; [by left|]. apply adds_guard; [by left|intros _].
  quiet_step; [by left|]. rename a0 into listener.
  eapply (quietly_then _ _ _ (fun _ => True)); [|by left|].
  { unfold capture_guard. quiet_step. apply adds_guard; [done|intros _]. by apply adds_ret. }
  intros bound _ w r w'. destruct (serve_peer listener path uid gid label w) as [r1 w1] eqn:Es. intros [= <- <-].
  destruct (serve_peer_adds _ _ _ _ _ _ _ _ Es) as (l & He & Hl). exists l. split; [|done]. rewrite <- He. unfold drop_guard.
  pose proof (proj1 (proj2 (paths_silent (HS:=HS)) path) w1) as Hs. destruct (symlink_metadata path w1) as [[m|] w2]; [|done].
  destruct (_ && _); [|done]. pose proof (proj2 (proj2 (proj2 (proj2 (proj2 (paths_silent (HS:=HS)) path)))) w2) as Hr.
  cbn [snd] in *. congruence.
Qed.

(** What a client has done before, and when, it returns an answer. *)
Definition asked (uid gid : Z) (label : list byte) (expected : string) (dev : option Z) (request : list byte) (peer : F)
    (l : list (event F)) : Prop :=
  exists content m, l = [Measured (peer_pid (credentials_of peer)) content m; Sent peer request] /\
    admitted peer uid gid label /\ measured_as expected dev content m.
Definition exchanged (uid gid : Z) (label : list byte) (expected : string) (dev : option Z) (request : list byte)
    (r : result (failure TransportError) (list byte)) (l : list (event F)) : Prop :=
  match r with
  | Ok answer => exists peer p l1, asked uid gid label expected dev request peer l1 /\ l = l1 ++ [Received peer p] /\
      plain p /\ packet_bytes p = answer
  | Err _ => l = [] \/ (exists pid content m, l = [Measured pid content m]) \/
      exists peer l1 l2, asked uid gid label expected dev request peer l1 /\ l = l1 ++ l2 /\ (l2 = [] \/ exists p, l2 = [Received peer p])
  end.
Lemma exchange_adds path uid gid label expected dev request :
  adds (exchange_refusal path uid gid label expected dev request) (exchanged uid gid label expected dev request).
Proof.
  unfold exchange_refusal. eapply quietly_then; [apply check_parent_quiet|by left|intros _ _].
  eapply quietly_then; [apply check_socket_quiet|by left|intros _ _]. quiet_step; [by left|]. rename a into peer.
  eapply adds_bind; [apply verify_peer_adds| |].
  { intros e l [-> | Hm]; [by left|by right; left]. }
  intros _ l (content & m & -> & Ha & Hm). assert (forall l2, l2 = [] \/ (exists p, l2 = [Received peer p]) -> forall e,
    exchanged uid gid label expected dev request (Err e) ([Measured (peer_pid (credentials_of peer)) content m] ++ [Sent peer request] ++ l2)) as HS'.
  { intros l2 H2 e. right; right. exists peer, [Measured (peer_pid (credentials_of peer)) content m; Sent peer request], l2.
    split; [by exists content, m|done]. }
  eapply adds_bind; [apply send_packet_adds| |].
  { intros e l [-> | ->]; [right; left; by eexists _, _, _|]. apply (HS' []). by left. }
  intros _ l ->. eapply adds_weaken; [apply receive_packet_adds|]. intros [bytes|e] l.
  - intros (p & -> & Hp & Hb). exists peer, p, [Measured (peer_pid (credentials_of peer)) content m; Sent peer request].
    split; [by exists content, m|done].
  - intros H2. by apply HS'.
Qed.
End peers.
End Peers.
Import Peers.

(** Whatever the system does, the helper answers at most once and only a peer that
    connected with the expected user, group and security label, after one whole packet
    without descriptors or other ancillary data, and with nothing but the refusal of
    that packet; and a client sends its request only to such a peer, whose executable
    it has measured to be the expected one (of the expected package), and returns what
    that peer sent as one whole packet. *)
Theorem exchange_sound {F P W : Type} `{HS : Sockets F P W} (events : W -> list (event F)) (credentials_of : F -> Credentials)
    (label_of : F -> list byte) (HL : SocketLaws F P W events credentials_of label_of) path uid gid label expected dev request w :
  (forall r w', serve_one_refusal path uid gid label w = (r, w') ->
    exists l, events w' = events w ++ l /\ served credentials_of label_of uid gid label r l) /\
  (forall r w', exchange_refusal path uid gid label expected dev request w = (r, w') ->
    exists l, events w' = events w ++ l /\ exchanged credentials_of label_of uid gid label expected dev request r l).
Proof.
  split; intros r w' H.
  - exact (serve_adds events credentials_of label_of path uid gid label w r w' H).
  - exact (exchange_adds events credentials_of label_of path uid gid label expected dev request w r w' H).
Qed.

Module Local.

(** One peer that behaves: it has sent a cancel request and runs a known executable. *)
Definition id_text : Value := Text "one".
Definition cancel_value : Value :=
  Map [("protocol", Text PROTOCOL_NAME); ("version", Unsigned PROTOCOL_VERSION); ("kind", Text "cancel"); ("requestId", id_text);
       ("deploymentId", id_text); ("bootId", id_text); ("manifestDigest", Text (str_of_bytes (repeat x61 64))); ("nonce", id_text);
       ("sequence", Unsigned 1); ("deadlineMs", Unsigned 2000); ("targetRequestId", id_text)]%string.
Definition cancel_bytes : list byte := match encode_bounded cancel_value WIRE with Ok bytes => bytes | Err _ => [] end.
Definition helper : Host := mkHost (Some 1000) (Some [x7f]) (Some " boot1 "%string).
Definition entry (socket : bool) : Metadata := mkMetadata (negb socket) socket false 0 0 448 1 1.
Definition keep {A W : Type} (a : A) (w : W) : A * W := (a, w).
#[local] Instance local_sockets : Sockets unit unit (list (event unit)) := {|
  parent path := Some "/run"%string;
  effective_ids := keep (0, 0);
  symlink_metadata path := keep (if bool_decide (path = "/run"%string) || bool_decide (path = "/"%string) then Some (entry false) else
                                 if bool_decide (path = "/run/absent"%string) then None else Some (entry true));
  bind_socket path := keep (Some tt);
  connect_socket path := keep (Some tt);
  restrict_permissions path := keep (Some tt);
  listen_one fd := keep (Some tt);
  accept_peer fd := keep (Some tt);
  remove_file path := keep tt;
  peer_credentials fd := keep (Some (mkCredentials 7 0 0));
  peer_security_label fd := keep (Some [x61]);
  peer_pidfd fd := keep (Some tt);
  close_on_exec p := keep (Some true);
  poll_exited p := keep (Some false);
  proc_is_procfs := keep (Some true);
  peer_executable pid w := (Some ([x7f], entry true), w ++ [Measured pid [x7f] (entry true)]);
  poll_request fd := keep (Some true);
  receive fd w := (Some (mkPacket cancel_bytes false false false), w ++ [Received fd (mkPacket cancel_bytes false false false)]);
  peek fd := keep NothingQueued;
  send fd bytes w := (Some (len bytes), w ++ [Sent fd bytes]);
  host := keep helper
|}.
Lemma local_laws : SocketLaws unit unit (list (event unit)) (fun w => w) (fun _ => mkCredentials 7 0 0) (fun _ => [x61]).
Proof. constructor; repeat split; try (by intros; cbn); by intros [] ? ? ? [= <- <-]. Qed.

Definition expected_executable : string := match OneShot.sha256_hex [x7f] with Some d => d | None => "" end.
Definition asks (path : string) := exchange_refusal (F:=unit) (P:=unit) path 0 0 [x61] expected_executable (Some 1) cancel_bytes [].

(** The sample request is answered. *)
Example sample_answered : match refusal_for helper cancel_bytes with Ok answer => negb (len answer =? 0) | Err _ => false end = true.
Proof. vm_compute. reflexivity. Qed.
End Local.
Import Local.

Lemma exchange_sound_witness :
  match asks "/run/keep" with (Ok answer, _) => bool_decide (answer = cancel_bytes) | _ => false end = true /\
  exists l, (asks "/run/keep").2 = [] ++ l /\
    exchanged (fun _ => mkCredentials 7 0 0) (fun _ => [x61]) 0 0 [x61] expected_executable (Some 1) cancel_bytes (asks "/run/keep").1 l.
Proof.
  split; [vm_compute; reflexivity|].
  exact (proj2 (exchange_sound (fun w => w) (fun _ => mkCredentials 7 0 0) (fun _ => [x61]) local_laws "/run/keep"%string 0 0 [x61]
    expected_executable (Some 1) cancel_bytes []) _ _ (surjective_pairing (asks "/run/keep"%string))).
Defined.
