(* ===== verification/Libc.v ===== *)
(** * The numbers of the Linux interface

    The constants of [libc] for x86-64 that the first-party code names, as its vendored
    sources define them ([native/vendor-p2/libc/src/unix/linux_like/]). *)

From S2P Require Import Prelude.

(** ** Errors *)
Definition EPERM : Z := 1.
Definition EINTR : Z := 4.
Definition EAGAIN : Z := 11.
Definition ENOMEM : Z := 12.
Definition EXDEV : Z := 18.
Definition ENOTDIR : Z := 20.
Definition EISDIR : Z := 21.
Definition EINVAL : Z := 22.
Definition ENFILE : Z := 23.
Definition EMFILE : Z := 24.
Definition EFBIG : Z := 27.
Definition ENAMETOOLONG : Z := 36.
Definition ENOSYS : Z := 38.
Definition ELOOP : Z := 40.
Definition EOPNOTSUPP : Z := 95.
Definition ESTALE : Z := 116.

(** ** Files *)
Definition O_RDONLY : Z := 0.
Definition O_WRONLY : Z := 1.
Definition O_RDWR : Z := 2.
Definition O_CREAT : Z := 64.
Definition O_EXCL : Z := 128.
Definition O_NOCTTY : Z := 256.
Definition O_NONBLOCK : Z := 2048.
Definition O_DIRECTORY : Z := 0x10000.
Definition O_NOFOLLOW : Z := 0x20000.
Definition O_CLOEXEC : Z := 0x80000.
Definition O_PATH : Z := 2097152.
Definition RESOLVE_NO_XDEV : Z := 0x01.
Definition RESOLVE_NO_MAGICLINKS : Z := 0x02.
Definition RESOLVE_NO_SYMLINKS : Z := 0x04.
Definition RESOLVE_BENEATH : Z := 0x08.
Definition FD_CLOEXEC : Z := 0x1.
Definition ST_RDONLY : Z := 1.
Definition PROC_SUPER_MAGIC : Z := 0x00009fa0.

(** ** Sealed memory *)
Definition MFD_CLOEXEC : Z := 0x0001.
Definition MFD_ALLOW_SEALING : Z := 0x0002.
Definition F_SEAL_SEAL : Z := 0x0001.
Definition F_SEAL_SHRINK : Z := 0x0002.
Definition F_SEAL_GROW : Z := 0x0004.
Definition F_SEAL_WRITE : Z := 0x0008.

(** ** Processes *)
Definition POLLIN : Z := 0x1.
Definition POLLHUP : Z := 0x10.
Definition POLLNVAL : Z := 0x20.
Definition SIGKILL : Z := 9.
Definition SIGTERM : Z := 15.
Definition CLONE_NEWTIME : Z := 0x80.
Definition CLONE_NEWNS : Z := 0x20000.
Definition CLONE_NEWCGROUP : Z := 0x02000000.
Definition CLONE_NEWUTS : Z := 0x04000000.
Definition CLONE_NEWIPC : Z := 0x08000000.
Definition CLONE_NEWUSER : Z := 0x10000000.
Definition CLONE_NEWPID : Z := 0x20000000.
Definition CLONE_NEWNET : Z := 0x40000000.
Definition SECCOMP_RET_KILL_PROCESS : Z := 0x80000000.
Definition SECCOMP_RET_ERRNO : Z := 0x00050000.
Definition SECCOMP_RET_ALLOW : Z := 0x7fff0000.

(** ** System calls *)
Definition SYS_clone : Z := 56.
Definition SYS_clone3 : Z := 435.
Definition SYS_mount : Z := 165.
Definition SYS_umount2 : Z := 166.
Definition SYS_pivot_root : Z := 155.
Definition SYS_move_mount : Z := 429.
Definition SYS_fsopen : Z := 430.
Definition SYS_fsconfig : Z := 431.
Definition SYS_fsmount : Z := 432.
Definition SYS_open_tree : Z := 428.
Definition SYS_mount_setattr : Z := 442.
Definition SYS_unshare : Z := 272.
Definition SYS_setns : Z := 308.
Definition SYS_ptrace : Z := 101.
Definition SYS_process_vm_writev : Z := 311.
Definition SYS_bpf : Z := 321.
Definition SYS_perf_event_open : Z := 298.
Definition SYS_keyctl : Z := 250.
Definition SYS_add_key : Z := 248.
Definition SYS_request_key : Z := 249.
Definition SYS_kexec_load : Z := 246.
Definition SYS_kexec_file_load : Z := 320.
Definition SYS_reboot : Z := 169.
Definition SYS_swapon : Z := 167.
Definition SYS_swapoff : Z := 168.
Definition SYS_init_module : Z := 175.
Definition SYS_finit_module : Z := 313.
Definition SYS_delete_module : Z := 176.
Definition SYS_open_by_handle_at : Z := 304.
Definition SYS_userfaultfd : Z := 323.
Definition SYS_io_uring_setup : Z := 425.
Definition SYS_io_uring_enter : Z := 426.
Definition SYS_io_uring_register : Z := 427.
Definition SYS_acct : Z := 163.
Definition SYS_quotactl : Z := 179.
Definition SYS_settimeofday : Z := 164.
Definition SYS_clock_settime : Z := 227.
Definition SYS_adjtimex : Z := 159.
Definition SYS_iopl : Z := 172.
Definition SYS_ioperm : Z := 173.
Definition SYS_vhangup : Z := 153.
Definition SYS_fanotify_init : Z := 300.
