(* ===== verification/LinuxFiles.v ===== *)
(** * Descriptor-relative files ([linux-abi/src/lib.rs])

    Pinned directories and files, captures, inventories, private staging, sealed memory
    and kernel randomness.  Each system call is an operation of the interface [Kernel];
    the guards, flags, comparisons and loops around them are the code's. *)

From S2P Require Import Prelude Libc Cbor Paths Schema SourceRows Directory Resolver World.

(** ** Errors *)

(** [std::io::Error]: of the system, of [Read::read_exact], of [invalid], or carrying a
    [CaptureIoFailure]. *)
Inductive IoError : Set :=
| OsError (errno : Z)
| UnexpectedEof
| InvalidData (message : string)
| CaptureError (failure : CaptureIoFailure).
Definition from_io (error : IoError) : io_error :=
  match error with
  | CaptureError failure => Some failure
  | OsError errno =>
      if existsb (Z.eqb errno) [ENOSYS; EOPNOTSUPP; EINVAL] then Some IoUnsupported
      else if existsb (Z.eqb errno) [ELOOP; EXDEV; ENAMETOOLONG; ENOTDIR] then Some IoPath
      else if errno =? EISDIR then Some IoType
      else if existsb (Z.eqb errno) [EFBIG; ENOMEM; EMFILE; ENFILE] then Some IoLimit
      else if existsb (Z.eqb errno) [ESTALE; EAGAIN] then Some IoRace
      else None
  | UnexpectedEof | InvalidData _ => None
  end.

(** ** Flags *)

Definition flags (l : list Z) : Z := fold_left Z.lor l 0.
Definition RESOLUTION_FLAGS : Z := flags [RESOLVE_BENEATH; RESOLVE_NO_SYMLINKS; RESOLVE_NO_MAGICLINKS; RESOLVE_NO_XDEV].
Definition ROOT_RESOLUTION_FLAGS : Z := flags [RESOLVE_BENEATH; RESOLVE_NO_SYMLINKS; RESOLVE_NO_MAGICLINKS].
Definition REQUIRED_MEMFD_SEALS : Z := flags [F_SEAL_WRITE; F_SEAL_SHRINK; F_SEAL_GROW; F_SEAL_SEAL].
Definition REQUIRED_DATA_MEMFD_SEALS : Z := Z.lor REQUIRED_MEMFD_SEALS 0x0020.
Definition MFD_EXEC : Z := 0x0010.
Definition MFD_NOEXEC_SEAL : Z := 0x0008.
Definition STATX_MNT_ID_UNIQUE : Z := 0x00004000.
Record OpenHow : Set := mkHow { how_flags : Z; how_mode : Z; how_resolve : Z }.

(** ** The system *)

Abbreviation sysret W A := (W -> result IoError A * W).
Class Kernel (F W : Type) := {
  filesystem_root : sysret W F;
  openat2 : F -> string -> OpenHow -> sysret W F;
  metadata : F -> sysret W FileIdentity;
  filesystem_magic : F -> sysret W Z;
  volume_flags : F -> sysret W Z;
  statx_mount : F -> sysret W (Z * Z);
  try_clone : F -> sysret W F;
  seek_start : F -> sysret W unit;
  read : F -> Z -> sysret W (list byte);
  read_exact : F -> Z -> sysret W (list byte);
  read_to_end : F -> Z -> sysret W (list byte);
  copy : F -> F -> Z -> sysret W Z;
  write_all : F -> list byte -> sysret W unit;
  flush : F -> sysret W unit;
  sync_all : F -> sysret W unit;
  set_permissions : F -> Z -> sysret W unit;
  mkdirat : F -> string -> Z -> sysret W unit;
  unlink_directory : F -> string -> sysret W unit;
  open_stream : F -> sysret W F;
  rewind : F -> W -> W;
  read_entry : F -> sysret W (option (list byte));
  raw_fd : F -> Z;
  process_id : W -> Z * W;
  effective_uid : W -> Z * W;
  reserves : Z -> W -> bool * W;
  get_fd_flags : F -> sysret W Z;
  set_fd_flags : F -> Z -> sysret W unit;
  memfd_create : string -> Z -> sysret W F;
  add_seals : F -> Z -> sysret W unit;
  get_seals : F -> sysret W Z;
  getrandom : Z -> sysret W (list byte)
}.

(** ** Paths *)

Definition ends_with_slash (bs : list byte) : bool := match rev bs with b :: _ => bool_decide (b = x2f) | [] => false end.
Definition printable (b : byte) : bool := (32 <=? bZ b) && (bZ b <=? 126).
Definition canonical_relative (path : string) : bool :=
  negb (bool_decide (path = ""%string))
  && (slen path <=? 4096)
  && forallb (fun b => bZ b <? 128) (str_bytes path)
  && forallb printable (str_bytes path)
  && negb (starts_with "/" path)
  && negb (ends_with_slash (str_bytes path))
  && negb (contains_double_slash path)
  && forallb (fun component => negb (bool_decide (component = ""%string)) && negb (bool_decide (component = "."%string))
                && negb (bool_decide (component = ".."%string)))
       (split x2f path).
(** [name.contains('/') || !canonical_relative(name)] *)
Definition not_one_component (name : string) : bool :=
  existsb (fun b => bool_decide (b = x2f)) (str_bytes name) || negb (canonical_relative name).
(** [str::rsplit_once] *)
Fixpoint rsplit_once_bytes (sep : byte) (bs : list byte) : option (list byte * list byte) :=
  match bs with
  | [] => None
  | b :: bs =>
      match rsplit_once_bytes sep bs with
      | Some (l, r) => Some (b :: l, r)
      | None => if bool_decide (b = sep) then Some ([], bs) else None
      end
  end.
Definition is_dir (i : FileIdentity) : bool := Z.land (identity_mode i) S_IFMT =? S_IFDIR.
Definition is_file (i : FileIdentity) : bool := Z.land (identity_mode i) S_IFMT =? S_IFREG.
(** [mode & 0o777] *)
Definition permissions (i : FileIdentity) : Z := Z.land (identity_mode i) 511.

Section kernel.
Context {F W : Type} {HK : Kernel F W}.

(** A computation of this file, its lift from a system call, and a pure check. *)
Abbreviation sys A := (io IoError W A).
Definition os {A : Type} (m : sysret W A) : sys A := fun w => let '(r, w) := m w in (map_err Error r, w).
Definition fails {A : Type} (f : CaptureIoFailure) : sys A := io_fail (CaptureError f).
(** [map_err(|_| e)] *)
Definition or_else {A : Type} (e : IoError) (m : sys A) : sys A :=
  fun w => match m w with (Err (Error _), w) => (Err (Error e), w) | r => r end.
(** [CString::new] *)
Definition c_string (name : string) (e : IoError) : sys string :=
  refuse_if existsb (fun b => bool_decide (b = x00)) (str_bytes name) with e ;; io_ret name.

Record PinnedDir : Type := mkPinnedDir { directory : F; dir_identity : FileIdentity }.
Record PinnedRegularFile : Type := mkPinnedFile { pinned_file : F; file_identity : FileIdentity }.
(** [CapturedRegularFile]: its descriptor and what the interface of [Directory] shows. *)
Record HeldFile : Type := mkHeld { held_file : F; held_capture : CapturedRegularFile }.
Record SealedFile : Type := mkSealed { sealed_file : F; byte_length : Z }.

(** ** Opening *)

Definition open_directory_at (root : F) (relative : string) (resolution : Z) : sys F :=
  refuse_if negb (canonical_relative relative) with InvalidData "directory path is not canonical" ;;
  let! path := c_string relative (InvalidData "directory path contains NUL") in
  os (openat2 root path (mkHow (flags [O_RDONLY; O_DIRECTORY; O_CLOEXEC]) 0 resolution)).
Definition pin_entry_at (root : F) (relative : string) : sys F :=
  refuse_if negb (canonical_relative relative) with CaptureError IoPath ;;
  let! path := c_string relative (CaptureError IoPath) in
  os (openat2 root path (mkHow (flags [O_PATH; O_CLOEXEC]) 0 RESOLUTION_FLAGS)).

Definition open_with_policy (root : string) (admit_final_mount allow_fixed_mount_crossings : bool) : sys PinnedDir :=
  refuse_if negb (utf8_valid (str_bytes root)) with InvalidData "pinned root is not UTF-8" ;;
  refuse_if negb (starts_with "/" root) || ends_with_slash (str_bytes root) || contains_double_slash root
    with InvalidData "pinned root is not a canonical absolute path" ;;
  let relative := str_of_bytes (drop 1 (str_bytes root)) in
  refuse_if negb (canonical_relative relative) with InvalidData "pinned root components are not canonical" ;;
  let! filesystem_root := os filesystem_root in
  let '(parent, leaf) :=
    match rsplit_once_bytes x2f (str_bytes relative) with
    | Some (l, r) => (str_of_bytes l, str_of_bytes r)
    | None => (""%string, relative)
    end in
  let! (directory, path, resolution) :=
    if allow_fixed_mount_crossings then io_ret (filesystem_root, relative, ROOT_RESOLUTION_FLAGS)
    else if admit_final_mount then
      let! parent_directory :=
        if bool_decide (parent = ""%string) then io_ret filesystem_root
        else open_directory_at filesystem_root parent RESOLUTION_FLAGS in
      io_ret (parent_directory, leaf, ROOT_RESOLUTION_FLAGS)
    else io_ret (filesystem_root, relative, RESOLUTION_FLAGS) in
  let! path := c_string path (InvalidData "pinned root contains NUL") in
  let! directory := os (openat2 directory path (mkHow (flags [O_RDONLY; O_DIRECTORY; O_CLOEXEC]) 0 resolution)) in
  let! m := os (metadata directory) in
  refuse_if negb (is_dir m) with InvalidData "pinned root is not a directory" ;;
  io_ret (mkPinnedDir directory m).
Definition open (root : string) : sys PinnedDir := open_with_policy root false false.
Definition open_mount_root (root : string) : sys PinnedDir := open_with_policy root true false.
Definition open_fixed_kernel_mount (root : string) : sys PinnedDir := open_with_policy root false true.

(** The mount id, the type of the filesystem and whether it is mounted read-only. *)
Definition filesystem_identity (d : PinnedDir) : sys (Z * Z * bool) :=
  let! magic := os (filesystem_magic (directory d)) in
  let! volume := os (volume_flags (directory d)) in
  let! (mask, mount_id) := os (statx_mount (directory d)) in
  refuse_if (Z.land mask STATX_MNT_ID_UNIQUE =? 0) || (mount_id =? 0)
    with InvalidData "kernel did not report a unique mount identity" ;;
  io_ret (mount_id, magic mod 2 ^ 64, negb (Z.land volume ST_RDONLY =? 0)).

Definition create_private_directory (d : PinnedDir) (name : string) : sys PinnedDir :=
  refuse_if not_one_component name with InvalidData "private directory name is not one closed component" ;;
  let! name := c_string name (InvalidData "private directory name contains NUL") in
  let! _ := os (mkdirat (directory d) name 448) in
  let! child := open_directory_at (directory d) name RESOLUTION_FLAGS in
  let! m := os (metadata child) in
  refuse_if negb (is_dir m) || negb (uid m =? 0) || negb (gid m =? 0) || negb (permissions m =? 448)
    with InvalidData "private directory identity or mode changed" ;;
  io_ret (mkPinnedDir child m).
Definition open_child_directory (d : PinnedDir) (name : string) : sys PinnedDir :=
  refuse_if not_one_component name with InvalidData "child directory name is not one closed component" ;;
  let! child := open_directory_at (directory d) name RESOLUTION_FLAGS in
  let! m := os (metadata child) in
  refuse_if negb (is_dir m) with InvalidData "child directory is not a directory" ;;
  io_ret (mkPinnedDir child m).
Definition remove_private_directory (d : PinnedDir) (name : string) (expected : FileIdentity) : sys unit :=
  refuse_if not_one_component name with InvalidData "private directory removal name is not one component" ;;
  let! observed := open_directory_at (directory d) name RESOLUTION_FLAGS in
  let! m := os (metadata observed) in
  refuse_if negb (bool_decide (m = expected)) with InvalidData "private directory removal identity changed" ;;
  let! name := c_string name (InvalidData "private directory removal name contains NUL") in
  os (unlink_directory (directory d) name).
Definition clear_close_on_exec (descriptor : F) : sys Z :=
  let! found := os (get_fd_flags descriptor) in
  let! _ := os (set_fd_flags descriptor (Z.land found (Z.lnot FD_CLOEXEC))) in
  io_ret (raw_fd descriptor).

(** ** Regular files *)

(** The path of the source is not used again: the held inode is opened through the
    descriptor directory of this process, on a verified procfs. *)
Definition upgrade_regular_inode (pinned : F) (expected : FileIdentity) : sys PinnedRegularFile :=
  let! proc := or_else (CaptureError IoUnsupported) (open_fixed_kernel_mount "/proc") in
  let! (_, magic, _) := or_else (CaptureError IoUnsupported) (filesystem_identity proc) in
  refuse_if negb (magic =? PROC_SUPER_MAGIC) with CaptureError IoUnsupported ;;
  let! pid := total process_id in
  let! fd_directory :=
    or_else (CaptureError IoUnsupported)
      (open_directory_at (directory proc) (str_of_bytes (decimal pid) +:+ "/fd") RESOLUTION_FLAGS) in
  let! m := os (metadata fd_directory) in
  let! euid := total effective_uid in
  refuse_if negb (device m =? device (dir_identity proc)) || negb (uid m =? euid) || negb (is_dir m)
    with CaptureError IoUnsupported ;;
  let! file :=
    or_else (CaptureError IoUnsupported)
      (os (openat2 fd_directory (str_of_bytes (decimal (raw_fd pinned)))
             (mkHow (flags [O_RDONLY; O_CLOEXEC; O_NONBLOCK; O_NOCTTY]) 0 0))) in
  let! opened := os (metadata file) in
  refuse_if negb (bool_decide (opened = expected)) with CaptureError IoRace ;;
  let! held := os (metadata pinned) in
  refuse_if negb (bool_decide (held = expected)) with CaptureError IoRace ;;
  io_ret (mkPinnedFile file expected).
Definition open_regular_file (d : PinnedDir) (relative : string) (maximum_bytes : Z) : sys PinnedRegularFile :=
  let! file := pin_entry_at (directory d) relative in
  let! m := os (metadata file) in
  refuse_if negb (is_file m) || negb (links m =? 1) with CaptureError IoType ;;
  refuse_if maximum_bytes <? size m with CaptureError IoLimit ;;
  upgrade_regular_inode file m.
(** [read_exact], its end-of-file error reported as a race. *)
Definition read_extent (file : F) (n : Z) : sys (list byte) :=
  fun w => match os (read_exact file n) w with (Err (Error UnexpectedEof), w) => (Err (Error (CaptureError IoRace)), w) | r => r end.
Definition capture_regular_file (d : PinnedDir) (relative : string) (maximum_bytes : Z) : sys HeldFile :=
  let! p := open_regular_file d relative maximum_bytes in
  let! reserved := total (reserves (size (file_identity p))) in
  refuse_if negb reserved with CaptureError IoLimit ;;
  let! bytes := read_extent (pinned_file p) (size (file_identity p)) in
  let! more := os (read (pinned_file p) 1) in
  refuse_if negb (bool_decide (more = [])) with CaptureError IoRace ;;
  let! m := os (metadata (pinned_file p)) in
  refuse_if negb (bool_decide (m = file_identity p)) with CaptureError IoRace ;;
  io_ret (mkHeld (pinned_file p) (mkCapturedFile bytes (file_identity p))).

(** ** Inventories *)

(** [name.iter().position(|byte| *byte == 0)] *)
Definition name_length (name : list byte) : option nat := fst <$> list_find (fun b => b = x00) name.
Definition dot (name : list byte) : bool := bool_decide (name = [x2e]) || bool_decide (name = [x2e; x2e]).
Definition checked_within (a b maximum : Z) : option Z := total ← checked_add a b; if total <=? maximum then Some total else None.

(** The loop over the stream; [entries] and [name_bytes] are its state.  A stream that
    repeats its two dot entries for ever is the only one that outlasts the fuel. *)
Fixpoint inventory_loop (fuel : nat) (d stream : F) (maximum_entries maximum_name_bytes : Z)
    (entries : list DirectoryEntryIdentity) (name_bytes : Z) : sys (list DirectoryEntryIdentity) :=
  match fuel with
  | O => pure (Err OutOfFuel)
  | S fuel =>
      let! entry := os (read_entry stream) in
      match entry with
      | None => io_ret entries
      | Some name =>
          let! length := pure (ok_or (name_length name) (Error (CaptureError IoPath))) in
          let bytes := take length name in
          if dot bytes then inventory_loop fuel d stream maximum_entries maximum_name_bytes entries name_bytes
          else
            refuse_if maximum_entries <=? len entries with CaptureError IoLimit ;;
            let! name_bytes := pure (ok_or (checked_within name_bytes (len bytes) maximum_name_bytes) (Error (CaptureError IoLimit))) in
            refuse_if negb (utf8_valid bytes) with CaptureError IoPath ;;
            let name := str_of_bytes bytes in
            refuse_if not_one_component name with CaptureError IoPath ;;
            let! held := pin_entry_at d name in
            let! m := os (metadata held) in
            let! reserved := total (reserves 1) in
            refuse_if negb reserved with CaptureError IoLimit ;;
            inventory_loop fuel d stream maximum_entries maximum_name_bytes (entries ++ [mkDirEntry name m]) name_bytes
      end
  end.
Definition entry_order (a b : DirectoryEntryIdentity) : comparison := str_cmp (name a) (name b).
Definition inventory (d : PinnedDir) (maximum_entries maximum_name_bytes : Z) : sys (list DirectoryEntryIdentity) :=
  let! before := os (metadata (directory d)) in
  refuse_if negb (bool_decide (before = dir_identity d)) with CaptureError IoRace ;;
  let! duplicate := os (try_clone (directory d)) in
  let! stream := os (open_stream duplicate) in
  let! _ := fun w => (Ok tt, rewind stream w) in
  let! entries := inventory_loop (Z.to_nat maximum_entries + 4) (directory d) stream maximum_entries maximum_name_bytes [] 0 in
  let entries := sort_by entry_order entries in
  refuse_if windows2_any (fun a b => bool_decide (name a = name b)) entries with CaptureError IoRace ;;
  let! after := os (metadata (directory d)) in
  refuse_if negb (bool_decide (after = before)) with CaptureError IoRace ;;
  io_ret entries.

(** ** Streams *)

Definition CHUNK : Z := 64 * 1024.
Fixpoint read_chunks (fuel : nat) (file : F) (maximum_bytes : Z) (consume : list byte -> sys unit) (total_read : Z) : sys Z :=
  match fuel with
  | O => pure (Err OutOfFuel)
  | S fuel =>
      let! chunk := os (read file CHUNK) in
      if bool_decide (chunk = []) then io_ret total_read
      else
        let! total_read := pure (ok_or (checked_within total_read (len chunk) maximum_bytes)
                                   (Error (InvalidData "pinned streaming read exceeds bound"))) in
        let! _ := consume chunk in
        read_chunks fuel file maximum_bytes consume total_read
  end.
(** Each turn reads at least one byte of at most [maximum_bytes]. *)
Definition read_bounded_chunks (p : PinnedRegularFile) (maximum_bytes : Z) (consume : list byte -> sys unit) : sys Z :=
  refuse_if (maximum_bytes =? 0) || (maximum_bytes <? size (file_identity p))
    with InvalidData "pinned file exceeds streaming read bound" ;;
  let! file := os (try_clone (pinned_file p)) in
  let! _ := os (seek_start file) in
  let! before := os (metadata file) in
  refuse_if negb (bool_decide (before = file_identity p)) with InvalidData "pinned file identity changed before streaming read" ;;
  let! total_read := read_chunks (Z.to_nat maximum_bytes + 2) file maximum_bytes consume 0 in
  refuse_if negb (total_read =? size (file_identity p))
    with InvalidData "pinned file identity or length changed during streaming read" ;;
  let! after := os (metadata file) in
  refuse_if negb (bool_decide (after = before)) with InvalidData "pinned file identity or length changed during streaming read" ;;
  io_ret total_read.

(** ** Private staging *)

(** [0o400], [0o500] and [0o600]. *)
Definition staged_mode (mode : Z) : bool := existsb (Z.eqb mode) [256; 320; 384].
Definition saturating_succ (n : Z) : Z := Z.min (n + 1) u64_max.
Definition create_private_file (d : PinnedDir) (name : string) : sys F :=
  os (openat2 (directory d) name (mkHow (flags [O_CREAT; O_EXCL; O_RDWR; O_CLOEXEC; O_NOFOLLOW]) 384 RESOLUTION_FLAGS)).
Definition stage_private_file (d : PinnedDir) (name : string) (bytes : list byte) (maximum_bytes final_mode : Z) : sys HeldFile :=
  refuse_if not_one_component name || (maximum_bytes <? len bytes) || negb (staged_mode final_mode)
    with InvalidData "private staged file parameters are not admitted" ;;
  let! name := c_string name (InvalidData "private staged file name contains NUL") in
  let! file := create_private_file d name in
  let! _ := os (write_all file bytes) in
  let! _ := os (flush file) in
  let! _ := os (sync_all file) in
  let! _ := os (set_permissions file final_mode) in
  let! _ := os (seek_start file) in
  let! recaptured := os (read_to_end file (saturating_succ maximum_bytes)) in
  let! m := os (metadata file) in
  refuse_if negb (bool_decide (recaptured = bytes)) || negb (is_file m) || negb (links m =? 1) || negb (uid m =? 0)
            || negb (gid m =? 0) || negb (permissions m =? final_mode) || negb (size m =? len bytes)
    with InvalidData "private staged file recapture or identity differs" ;;
  io_ret (mkHeld file (mkCapturedFile recaptured m)).

Fixpoint compare_chunks (fuel : nat) (source destination : F) : sys unit :=
  match fuel with
  | O => pure (Err OutOfFuel)
  | S fuel =>
      let! source_chunk := os (read source CHUNK) in
      let! destination_chunk := os (read destination CHUNK) in
      refuse_if negb (bool_decide (source_chunk = destination_chunk)) with InvalidData "private streamed copy byte comparison differs" ;;
      if bool_decide (source_chunk = []) then io_ret tt else compare_chunks fuel source destination
  end.
(** [fuel] bounds the turns of the comparison. *)
Definition stage_private_copy (fuel : nat) (d : PinnedDir) (name : string) (source : PinnedRegularFile) (maximum_bytes final_mode : Z)
    : sys PinnedRegularFile :=
  refuse_if not_one_component name || (maximum_bytes <? size (file_identity source)) || negb (staged_mode final_mode)
    with InvalidData "private streamed-copy parameters are not admitted" ;;
  let! name := c_string name (InvalidData "private streamed-copy name contains NUL") in
  let! destination := create_private_file d name in
  let! source_reader := os (try_clone (pinned_file source)) in
  let! _ := os (seek_start source_reader) in
  let! copied := os (copy source_reader destination (saturating_succ maximum_bytes)) in
  refuse_if negb (copied =? size (file_identity source)) || (maximum_bytes <? copied)
    with InvalidData "private streamed copy length differs" ;;
  let! _ := os (flush destination) in
  let! _ := os (sync_all destination) in
  let! _ := os (set_permissions destination final_mode) in
  let! source_compare := os (try_clone (pinned_file source)) in
  let! destination_compare := os (try_clone destination) in
  let! _ := os (seek_start source_compare) in
  let! _ := os (seek_start destination_compare) in
  let! _ := compare_chunks fuel source_compare destination_compare in
  let! source_after := os (metadata (pinned_file source)) in
  let! m := os (metadata destination) in
  refuse_if negb (bool_decide (source_after = file_identity source)) || negb (size m =? size (file_identity source))
            || negb (links m =? 1) || negb (uid m =? 0) || negb (gid m =? 0) || negb (permissions m =? final_mode)
    with InvalidData "streamed source or destination identity changed" ;;
  io_ret (mkPinnedFile destination m).

Definition write_control (d : PinnedDir) (name : string) (value : list byte) : sys unit :=
  refuse_if not_one_component name || bool_decide (value = []) || (4096 <? len value)
    with InvalidData "control write parameters are not admitted" ;;
  let! name := c_string name (InvalidData "control file name contains NUL") in
  let! file := os (openat2 (directory d) name (mkHow (flags [O_WRONLY; O_CLOEXEC; O_NOFOLLOW]) 0 RESOLUTION_FLAGS)) in
  let! _ := os (write_all file value) in
  os (flush file).
Definition read_control (d : PinnedDir) (name : string) (maximum_bytes : Z) : sys string :=
  refuse_if not_one_component name || (maximum_bytes =? 0) with InvalidData "control read parameters are not admitted" ;;
  let! name := c_string name (InvalidData "control file name contains NUL") in
  let! file := os (openat2 (directory d) name (mkHow (flags [O_RDONLY; O_CLOEXEC; O_NOFOLLOW]) 0 RESOLUTION_FLAGS)) in
  let! m := os (metadata file) in
  refuse_if negb (is_file m) || negb (uid m =? 0) || negb (gid m =? 0)
    with InvalidData "control file identity is not root-owned regular data" ;;
  let! bytes := os (read_to_end file (saturating_succ maximum_bytes)) in
  refuse_if maximum_bytes <? len bytes with InvalidData "control file exceeds its read bound" ;;
  refuse_if negb (utf8_valid bytes) with InvalidData "control file is not UTF-8" ;;
  io_ret (str_of_bytes bytes).

(** ** Sealed memory *)

Definition memfd_name_byte (b : byte) : bool := is_alphanumeric b || existsb (fun c => bool_decide (b = c)) [x2e; x5f; x2d].
Definition bad_memfd_name (name : string) : bool :=
  bool_decide (name = ""%string) || (249 <? slen name) || negb (forallb (fun b => bZ b <? 128) (str_bytes name))
  || negb (forallb memfd_name_byte (str_bytes name)).
(** Written, read back, sealed, and the seals read back. *)
Definition seal_written (file : F) (bytes : list byte) (maximum_bytes required : Z) (recapture seals : string) : sys SealedFile :=
  let! _ := os (write_all file bytes) in
  let! _ := os (flush file) in
  let! _ := os (seek_start file) in
  let! recaptured := os (read_to_end file (saturating_succ maximum_bytes)) in
  refuse_if negb (bool_decide (recaptured = bytes)) with InvalidData recapture ;;
  let! _ := os (seek_start file) in
  let! _ := os (add_seals file REQUIRED_MEMFD_SEALS) in
  let! found := os (get_seals file) in
  refuse_if negb (found =? required) with InvalidData seals ;;
  io_ret (mkSealed file (len bytes)).
Definition seal_executable_bytes (name : string) (bytes : list byte) (maximum_bytes : Z) : sys SealedFile :=
  refuse_if bad_memfd_name name || (maximum_bytes <? len bytes) with InvalidData "memfd name or byte length is not admitted" ;;
  let! name := c_string name (InvalidData "memfd name contains NUL") in
  let! file := os (memfd_create name (flags [MFD_CLOEXEC; MFD_ALLOW_SEALING; MFD_EXEC])) in
  seal_written file bytes maximum_bytes REQUIRED_MEMFD_SEALS "memfd independent byte recapture disagreed"
    "memfd required seals did not read back exactly".
Definition seal_file_bytes_with_policy (name : string) (bytes : list byte) (maximum_bytes mode : Z) (no_execute : bool) : sys SealedFile :=
  refuse_if bad_memfd_name name || (maximum_bytes <? len bytes) || negb (existsb (Z.eqb mode) [256; 320])
    with InvalidData "sealed-file name, length, or mode is not admitted" ;;
  let! name := c_string name (InvalidData "memfd name contains NUL") in
  let! file := os (memfd_create name (flags [MFD_CLOEXEC; MFD_ALLOW_SEALING; if no_execute then MFD_NOEXEC_SEAL else 0])) in
  let! _ := os (set_permissions file mode) in
  seal_written file bytes maximum_bytes (if no_execute then REQUIRED_DATA_MEMFD_SEALS else REQUIRED_MEMFD_SEALS)
    "sealed-file independent byte recapture disagreed" "sealed-file required seals did not read back exactly".
Definition seal_file_bytes (name : string) (bytes : list byte) (maximum_bytes mode : Z) : sys SealedFile :=
  seal_file_bytes_with_policy name bytes maximum_bytes mode false.
Definition seal_data_file_bytes (name : string) (bytes : list byte) (maximum_bytes mode : Z) : sys SealedFile :=
  refuse_if negb (mode =? 256) with InvalidData "sealed data file must be non-executable" ;;
  seal_file_bytes_with_policy name bytes maximum_bytes mode true.

(** ** Randomness *)

(** Turns interrupted by a signal are repeated; [fuel] bounds the turns. *)
Fixpoint fill_loop (fuel : nat) (wanted : Z) (filled : list byte) : sys (list byte) :=
  if wanted <=? len filled then io_ret filled
  else match fuel with
  | O => pure (Err OutOfFuel)
  | S fuel => fun w =>
      match getrandom (wanted - len filled) w with
      | (Err (OsError errno), w) => if errno =? EINTR then fill_loop fuel wanted filled w else (Err (Error (OsError errno)), w)
      | (Err e, w) => (Err (Error e), w)
      | (Ok chunk, w) =>
          if bool_decide (chunk = []) then (Err (Error (InvalidData "kernel random source returned zero bytes")), w)
          else fill_loop fuel wanted (filled ++ chunk) w
      end
  end.
Definition fill_random (fuel : nat) (wanted : Z) : sys (list byte) :=
  refuse_if (wanted =? 0) || (4096 <? wanted) with InvalidData "kernel random request is outside 1..4096 bytes" ;;
  fill_loop fuel wanted [].
End kernel.
Arguments PinnedDir : clear implicits.
Arguments PinnedRegularFile : clear implicits.
Arguments HeldFile : clear implicits.
Arguments SealedFile : clear implicits.

(** ** The interfaces of the walk and of the resolver *)

(** What the callers see of an error is the failure that [from_io] names. *)
Definition observe {A W : Type} (m : io IoError W A) (w : W) : result io_error (A * W) :=
  match m w with
  | (Ok a, w) => Ok (a, w)
  | (Err (Error e), _) => Err (from_io e)
  | (Err _, _) => Err None
  end.
#[export] Instance linux_directory {F W : Type} `{Kernel F W} : PinnedDirectory (PinnedDir F) W := {
  identity := dir_identity;
  Directory.inventory d entries bytes := observe (inventory d entries bytes);
  Directory.open_child_directory d name := observe (open_child_directory d name);
  Directory.capture_regular_file d path maximum := observe (let! h := capture_regular_file d path maximum in io_ret (held_capture h))
}.
#[export] Instance linux_roots {F W : Type} `{Kernel F W} : MountRoots (PinnedDir F) W := {
  Resolver.open_mount_root root := observe (open_mount_root root);
  Resolver.filesystem_identity d :=
    observe (let! (mount, magic, read_only) := filesystem_identity d in io_ret (mkFilesystem mount magic read_only))
}.
#[export] Instance linux_sealing {F W : Type} `{Kernel F W} : Sealing (SealedFile F) W := {
  Resolver.seal_data_file_bytes name bytes maximum mode := observe (seal_data_file_bytes name bytes maximum mode);
  sealed_length := byte_length
}.
