(* ===== verification/LinuxFacts.v ===== *)
(** * Theorems on descriptor-relative files

    [Sealed]: what sealing in memory promises the resolver.  [Tree]: on a file system
    that does not change, the directory operations present its tree to the walk.
    [Loops]: the loops end and deliver what they count. *)

From S2P Require Import Prelude Libc Cbor Paths OverlayFacts Schema SourceRows Directory DirectoryFacts Resolver World LinuxFiles.

Import Trees.

(** ** Runs *)
Lemma os_ok {W A} (m : sysret W A) w a w' : os m w = (Ok a, w') <-> m w = (Ok a, w').
Proof. unfold os. destruct (m w) as [[b|e] w1]; cbn; split; by intros [= -> ->]. Qed.
Lemma or_else_ok {W A} e (m : io IoError W A) w a w' : or_else e m w = (Ok a, w') -> m w = (Ok a, w').
Proof. unfold or_else. by destruct (m w) as [[b|[]] w1]. Qed.
Lemma c_string_ok {W} name e (w : W) s w' : c_string name e w = (Ok s, w') -> s = name /\ w' = w.
Proof. unfold c_string. by intros [_ [= -> ->]]%io_guard_ok. Qed.
Lemma observe_ok {W A} (m : io IoError W A) w a w' : observe m w = Ok (a, w') <-> m w = (Ok a, w').
Proof. unfold observe. destruct (m w) as [[b|[e| |]] w1]; split; by intros [= -> ->]. Qed.
Ltac step_ok H := first
  [ apply io_bind_ok in H as (? & ? & ?Hstep & H)
  | apply io_guard_ok in H as [?Hguard H] ].

(** ** Time *)

Definition evolves {W A} (later : W -> W -> Prop) (m : W -> A * W) : Prop := forall w, later w (m w).2.
(** Every operation leads to a later world. *)
Class Evolution {F W : Type} (HK : Kernel F W) (later : W -> W -> Prop) : Prop := {
  evolution_preorder :: PreOrder later;
  open_evolves : evolves later filesystem_root /\ forall f name how, evolves later (openat2 f name how);
  identify_evolves f : evolves later (metadata f) /\ evolves later (filesystem_magic f) /\ evolves later (volume_flags f) /\
    evolves later (statx_mount f) /\ evolves later (try_clone f) /\ evolves later (seek_start f);
  read_evolves f n : evolves later (read f n) /\ evolves later (read_exact f n) /\ evolves later (read_to_end f n);
  write_evolves f : (forall bytes, evolves later (write_all f bytes)) /\ evolves later (flush f) /\
    (forall mode, evolves later (set_permissions f mode));
  memory_evolves : (forall name flags, evolves later (memfd_create name flags)) /\
    forall f, (forall mask, evolves later (add_seals f mask)) /\ evolves later (get_seals f);
  look_evolves : evolves later process_id /\ evolves later effective_uid /\ forall n, evolves later (reserves n);
  flags_evolve f : evolves later (get_fd_flags f) /\ forall mask, evolves later (set_fd_flags f mask)
}.

Module Time.
Section time.
Context {F W : Type} {HK : Kernel F W} (later : W -> W -> Prop) {HE : Evolution HK later}.

Lemma evolves_bind {E A B} (m : io E W A) (k : A -> io E W B) :
  evolves later m -> (forall a, evolves later (k a)) -> evolves later (io_bind m k).
Proof.
  intros Hm Hk w. unfold io_bind. pose proof (Hm w). destruct (m w) as [[a|e] w1]; cbn [snd] in *; [|done].
  etrans; [done|apply Hk].
Qed.
Lemma evolves_ret {E A} (r : result (failure E) A) : evolves later (fun w => (r, w)). Proof. intros w. reflexivity. Qed.
Lemma evolves_guard {E A} (b : bool) (e : E) (m : io E W A) : evolves later m -> evolves later (refuse_if b with e ;; m).
Proof. intros H. destruct b; [apply evolves_ret|done]. Qed.
Lemma evolves_os {A} (m : sysret W A) : evolves later m -> evolves later (os m).
Proof. intros H w. specialize (H w). unfold os. by destruct (m w) as [r w1]. Qed.
Lemma evolves_total {E A} (m : W -> A * W) : evolves later m -> evolves later (total (E:=E) m).
Proof. intros H w. specialize (H w). unfold total. by destruct (m w) as [r w1]. Qed.
Lemma evolves_or_else {A} e (m : io IoError W A) : evolves later m -> evolves later (or_else e m).
Proof. intros H w. specialize (H w). unfold or_else. by destruct (m w) as [[a|[]] w1]. Qed.

Ltac evolve := repeat first
  [ apply evolves_bind; [|intros ?] | apply evolves_guard | apply evolves_or_else | apply evolves_os | apply evolves_total
  | apply open_evolves | apply identify_evolves | apply read_evolves | apply write_evolves | apply look_evolves | apply memory_evolves | apply flags_evolve
  | progress unfold c_string, fails, io_ret, io_fail | apply evolves_ret
  | match goal with |- evolves _ (if ?b then _ else _) => destruct b | |- evolves _ (let '(_, _) := ?p in _) => destruct p end ].

Lemma open_directory_at_evolves root relative resolution : evolves later (open_directory_at root relative resolution).
Proof. unfold open_directory_at. evolve. Qed.
Lemma open_with_policy_evolves root a b : evolves later (open_with_policy root a b).
Proof. unfold open_with_policy. evolve; try apply open_directory_at_evolves; evolve. Qed.
Lemma filesystem_identity_evolves d : evolves later (filesystem_identity d).
Proof. unfold filesystem_identity. evolve. Qed.
Lemma upgrade_evolves f i : evolves later (upgrade_regular_inode f i).
Proof.
  unfold upgrade_regular_inode, open_fixed_kernel_mount.
  evolve; try apply open_with_policy_evolves; try apply filesystem_identity_evolves; try apply open_directory_at_evolves; evolve.
Qed.
Lemma capture_evolves d path maximum : evolves later (capture_regular_file d path maximum).
Proof.
  unfold capture_regular_file, open_regular_file, pin_entry_at. evolve; try apply upgrade_evolves; evolve.
  intros w. unfold read_extent, os. pose proof (proj1 (proj2 (read_evolves (pinned_file a) (size (file_identity a)))) w) as H.
  destruct (read_exact _ _ w) as [[b|[]] w1]; exact H.
Qed.
Lemma seal_written_evolves f bytes maximum required e1 e2 : evolves later (seal_written f bytes maximum required e1 e2).
Proof. unfold seal_written. evolve. Qed.
Lemma seal_file_evolves name bytes maximum mode : evolves later (seal_file_bytes name bytes maximum mode).
Proof. unfold seal_file_bytes, seal_file_bytes_with_policy. evolve; try apply seal_written_evolves; evolve. Qed.
Lemma seal_data_evolves name bytes maximum mode : evolves later (seal_data_file_bytes name bytes maximum mode).
Proof. unfold seal_data_file_bytes, seal_file_bytes_with_policy. evolve; try apply seal_written_evolves; evolve. Qed.
Lemma seal_executable_evolves name bytes maximum : evolves later (seal_executable_bytes name bytes maximum).
Proof. unfold seal_executable_bytes. evolve; try apply seal_written_evolves; evolve. Qed.
Lemma clear_close_on_exec_evolves f : evolves later (clear_close_on_exec f).
Proof. unfold clear_close_on_exec. evolve. Qed.
Lemma evolves_run {E A} (m : io E W A) w r w' : evolves later m -> m w = (r, w') -> later w w'.
Proof. intros H Hr. specialize (H w). by rewrite Hr in H. Qed.
End time.
End Time.
Import Time.

(** ** Sealed memory *)

(** Reading yields what the file holds from the offset on.  A memory file is private to
    its owner, and once it may neither be written, shrunk, grown nor unsealed it stays
    so and keeps its bytes. *)
Class MemoryFiles {F W : Type} (HK : Kernel F W) (later : W -> W -> Prop) (content : F -> W -> list byte) (offset : F -> W -> Z)
    (private immutable : F -> W -> Prop) : Prop := {
  memfd_private name flags w f w' : memfd_create name flags w = (Ok f, w') -> private f w';
  set_permissions_private f mode w w' : private f w -> set_permissions f mode w = (Ok tt, w') -> private f w';
  write_private f bytes w w' : private f w -> write_all f bytes w = (Ok tt, w') -> private f w';
  flush_private f w w' : private f w -> flush f w = (Ok tt, w') -> private f w';
  seek_private f w w' : private f w -> seek_start f w = (Ok tt, w') -> private f w' /\ content f w' = content f w /\ offset f w' = 0;
  read_private f n w bytes w' : private f w -> read_to_end f n w = (Ok bytes, w') ->
    private f w' /\ content f w' = content f w /\ bytes = take (Z.to_nat n) (drop (Z.to_nat (offset f w)) (content f w));
  seals_private f mask w w' : private f w -> add_seals f mask w = (Ok tt, w') -> private f w' /\ content f w' = content f w;
  seals_immutable f w seals w' : private f w -> get_seals f w = (Ok seals, w') ->
    Z.land seals REQUIRED_MEMFD_SEALS = REQUIRED_MEMFD_SEALS -> immutable f w' /\ content f w' = content f w;
  immutable_stays f w w' : later w w' -> immutable f w -> immutable f w' /\ content f w' = content f w
}.

Module Sealed.
Section sealed.
Context {F W : Type} {HK : Kernel F W} (later : W -> W -> Prop) (content : F -> W -> list byte) (offset : F -> W -> Z).
Context (private immutable : F -> W -> Prop) {HM : MemoryFiles HK later content offset private immutable}.

(** [f] holds [bytes], and no operation changes that. *)
Definition held_for_good (f : SealedFile F) (bytes : list byte) (w : W) : Prop :=
  immutable (sealed_file f) w /\ content (sealed_file f) w = bytes.
Lemma seal_written_ok f bytes maximum required e1 e2 (w w' : W) s :
  private f w -> Z.land required REQUIRED_MEMFD_SEALS = REQUIRED_MEMFD_SEALS -> 0 <= len bytes <= maximum -> maximum < u64_max ->
  seal_written f bytes maximum required e1 e2 w = (Ok s, w') ->
  sealed_file s = f /\ held_for_good s bytes w' /\ byte_length s = len bytes /\ exists w1, get_seals f w1 = (Ok required, w').
Proof.
  intros Hp Hr Hl Hm H. unfold seal_written in H.
  apply io_bind_ok in H as ([] & w1 & H1%os_ok & H). pose proof (write_private _ _ _ _ Hp H1) as Hp1.
  apply io_bind_ok in H as ([] & w2 & H2%os_ok & H). pose proof (flush_private _ _ _ Hp1 H2) as Hp2.
  apply io_bind_ok in H as ([] & w3 & H3%os_ok & H). destruct (seek_private _ _ _ Hp2 H3) as (Hp3 & _ & Ho).
  apply io_bind_ok in H as (got & w4 & H4%os_ok & H). destruct (read_private _ _ _ _ _ Hp3 H4) as (Hp4 & Hc4 & Hg).
  apply io_guard_ok in H as [Heq%negb_false_iff%bool_decide_eq_true H].
  apply io_bind_ok in H as ([] & w5 & H5%os_ok & H). destruct (seek_private _ _ _ Hp4 H5) as (Hp5 & Hc5 & _).
  apply io_bind_ok in H as ([] & w6 & H6%os_ok & H). destruct (seals_private _ _ _ _ Hp5 H6) as (Hp6 & Hc6).
  apply io_bind_ok in H as (found & w7 & H7%os_ok & H). apply io_guard_ok in H as [->%negb_false_iff%Z.eqb_eq [= <- <-]].
  assert (content f w3 = bytes) as Hb.
  { rewrite Ho, drop_0 in Hg. rewrite Heq in Hg. unfold saturating_succ in Hg. rewrite Z.min_l in Hg by lia.
    rewrite Hg. symmetry. apply take_ge. apply (f_equal length) in Hg. rewrite length_take in Hg. unfold len in Hl. lia. }
  destruct (seals_immutable _ _ _ _ Hp6 H7 Hr) as [Hi Hc7]. split_and!; [done| |done|by exists w6]. split; [done|]. cbn [sealed_file]. congruence.
Qed.

Lemma seal_policy_ok name bytes maximum mode no_execute (w w' : W) s :
  maximum < u64_max -> seal_file_bytes_with_policy name bytes maximum mode no_execute w = (Ok s, w') ->
  held_for_good s bytes w' /\ byte_length s = len bytes /\ len bytes <= maximum /\ bad_memfd_name name = false /\
  exists w1, get_seals (sealed_file s) w1 = (Ok (if no_execute then REQUIRED_DATA_MEMFD_SEALS else REQUIRED_MEMFD_SEALS), w').
Proof.
  intros Hm H. unfold seal_file_bytes_with_policy in H. apply io_guard_ok in H as [[[Hn Hl%Z.ltb_ge]%orb_false_iff _]%orb_false_iff H].
  apply io_bind_ok in H as (name' & w1 & [-> ->]%c_string_ok & H). apply io_bind_ok in H as (f & w2 & H2%os_ok & H).
  apply io_bind_ok in H as ([] & w3 & H3%os_ok & H). pose proof (len_nonneg bytes).
  apply seal_written_ok in H as (Hf & Hc & Hb & Hs); [rewrite Hf; split_and!; done| |by destruct no_execute|lia|done].
  eapply set_permissions_private; [|exact H3]. by eapply memfd_private.
Qed.
Lemma seal_data_ok name bytes maximum mode (w w' : W) s :
  maximum < u64_max -> seal_data_file_bytes name bytes maximum mode w = (Ok s, w') ->
  held_for_good s bytes w' /\ byte_length s = len bytes /\ len bytes <= maximum /\ mode = 256 /\
  bad_memfd_name name = false /\ exists w1, get_seals (sealed_file s) w1 = (Ok REQUIRED_DATA_MEMFD_SEALS, w').
Proof.
  intros Hm H. unfold seal_data_file_bytes in H. apply io_guard_ok in H as [->%negb_false_iff%Z.eqb_eq H].
  by apply seal_policy_ok in H as (? & ? & ? & ? & ?).
Qed.
Lemma seal_executable_ok name bytes maximum (w w' : W) s :
  maximum < u64_max -> seal_executable_bytes name bytes maximum w = (Ok s, w') ->
  held_for_good s bytes w' /\ byte_length s = len bytes /\ len bytes <= maximum /\
  bad_memfd_name name = false /\ exists w1, get_seals (sealed_file s) w1 = (Ok REQUIRED_MEMFD_SEALS, w').
Proof.
  intros Hm H. unfold seal_executable_bytes in H. apply io_guard_ok in H as [[Hn Hl%Z.ltb_ge]%orb_false_iff H].
  apply io_bind_ok in H as (name' & w1 & [-> ->]%c_string_ok & H). apply io_bind_ok in H as (f & w2 & H2%os_ok & H).
  pose proof (len_nonneg bytes). apply seal_written_ok in H as (Hf & Hc & Hb & Hs); [rewrite Hf; split_and!; done| |reflexivity|lia|done].
  by eapply memfd_private.
Qed.
End sealed.
End Sealed.
Import Sealed.
#[export] Instance linux_sealing_laws {F W : Type} {HK : Kernel F W} later content offset private immutable
    (HE : Evolution HK later) (HM : MemoryFiles HK later content offset private immutable) : SealingLaws (PinnedDir F) (SealedFile F) W.
Proof.
  refine {| later := later; sealed_as := held_for_good content immutable; later_preorder := evolution_preorder |}.
  - intros d path maximum w c w' H%observe_ok. apply io_bind_ok in H as (h & w1 & H & [= <- <-]).
    eapply evolves_run; [|exact H]. by apply capture_evolves.
  - intros name bytes maximum mode w f w' Hm H%observe_ok. split_and!.
    + by apply (seal_data_ok later content offset private immutable) in H as (? & _).
    + by apply (seal_data_ok later content offset private immutable) in H as (_ & ? & _).
    + eapply evolves_run; [|exact H]. by apply seal_data_evolves.
  - intros f bytes w w' Hl [Hi Hc]. pose proof (immutable_stays _ _ _ Hl Hi) as [Hi' Hc']. split; congruence.
Defined.

(** ** Trees *)

(** The name in an entry of the stream, up to its end mark. *)
Definition entry_name (entry : list byte) : list byte := match name_length entry with Some n => take n entry | None => entry end.
Definition listed_names (stream : list (list byte)) : list (list byte) := List.filter (fun name => negb (dot name)) (map entry_name stream).

(** A file system that does not change: [holds f i n] says that [f] is open on the
    node [n] with identity [i].  An identity names one node, names resolve to entries,
    a stream that is rewound lists all of them, in any order and with or without the
    two dot entries, and reading yields consecutive bytes. *)
Class StaticFiles {F W : Type} (HK : Kernel F W) (holds : F -> FileIdentity -> Node -> Prop) (streams : F -> Listing -> Prop)
    (pending : F -> W -> list (list byte)) : Prop := {
  holds_identity f i n w m w' : holds f i n -> metadata f w = (Ok m, w') -> m = i;
  holds_same f i n f' w w' : holds f i n -> metadata f' w = (Ok i, w') -> holds f' i n;
  holds_entry f i c name how w f' w' : holds f i (Folder c) -> not_one_component name = false ->
    openat2 f name how w = (Ok f', w') -> exists e sub, (e, sub) ∈ c /\ Directory.name e = name /\ holds f' (entry_identity e) sub;
  holds_names f i c : holds f i (Folder c) -> StronglySorted (cmp_lt entry_order) (map fst c) /\
    Forall (fun e : DirectoryEntryIdentity * Node => existsb (fun b => bool_decide (b = x2f)) (str_bytes (name e.1)) = false) c;
  holds_type f i n : holds f i n -> match n with Folder _ => is_dir i = true | RegularFile bytes => is_dir i = false /\ size i = len bytes end;
  holds_bytes f i bytes n w got w' : holds f i (RegularFile bytes) -> read_exact f n w = (Ok got, w') ->
    len got = n /\ exists o, got = take (Z.to_nat n) (drop o bytes);
  clone_holds f i n w f' w' : holds f i n -> try_clone f w = (Ok f', w') -> holds f' i n;
  stream_opened f i c w s w' : holds f i (Folder c) -> open_stream f w = (Ok s, w') -> streams s c;
  stream_rewound s c w : streams s c -> listed_names (pending s (rewind s w)) ≡ₚ map (fun e : DirectoryEntryIdentity * Node => str_bytes (name e.1)) c;
  stream_read s c w r w' : streams s c -> read_entry s w = (Ok r, w') ->
    match r with Some entry => pending s w = entry :: pending s w' | None => pending s w = [] end;
  stream_kept s f name how w r w' : openat2 f name how w = (r, w') -> pending s w' = pending s w;
  stream_kept_metadata s f w r w' : metadata f w = (r, w') -> pending s w' = pending s w;
  stream_kept_reserves s n w r w' : reserves n w = (r, w') -> pending s w' = pending s w
}.

#[export] Instance entry_order_laws : CmpLaws entry_order.
Proof. unfold entry_order. apply _. Qed.
Lemma sorted_names l : StronglySorted (cmp_lt entry_order) l -> NoDup (map (fun e => str_bytes (name e)) l).
Proof.
  induction 1 as [|e l Hl IH He]; [constructor|]. cbn [map]. constructor; [|done].
  intros (e' & E%str_bytes_inj & Hin)%list_elem_of_fmap. rewrite Forall_forall in He. specialize (He e' Hin).
  unfold cmp_lt, entry_order in He. rewrite E in He. assert (str_cmp (name e') (name e') = Eq) as Heq by by apply str_cmp_eq. congruence.
Qed.

Module Tree.
Section tree.
Context {F W : Type} {HK : Kernel F W} (holds : F -> FileIdentity -> Node -> Prop) (streams : F -> Listing -> Prop).
Context (pending : F -> W -> list (list byte)) {HS : StaticFiles HK holds streams pending}.

(** The directory handles of the tree. *)
Definition presents (d : PinnedDir F) (c : Listing) : Prop := holds (directory d) (dir_identity d) (Folder c).

Lemma pinned_entry f i c name w f' w' : holds f i (Folder c) -> not_one_component name = false -> pin_entry_at f name w = (Ok f', w') ->
  (exists e sub, (e, sub) ∈ c /\ Directory.name e = name /\ holds f' (entry_identity e) sub) /\ forall s, pending s w' = pending s w.
Proof.
  intros Hf Hn H. unfold pin_entry_at in H. apply io_guard_ok in H as [_ H].
  apply io_bind_ok in H as (x & w1 & [-> ->]%c_string_ok & H%os_ok). split; [by eapply holds_entry|]. intros s. by eapply stream_kept.
Qed.
Lemma collected_entries fuel f i c s maximum bytes es n w es' w' :
  holds f i (Folder c) -> streams s c -> Forall (fun e => e ∈ map fst c) es ->
  inventory_loop fuel f s maximum bytes es n w = (Ok es', w') ->
  Forall (fun e => e ∈ map fst c) es' /\
  map (fun e => str_bytes (name e)) es' = map (fun e => str_bytes (name e)) es ++ listed_names (pending s w).
Proof.
  intros Hf Hs. revert es n w. induction fuel as [|fuel IH]; intros es n w Hes H; [done|]. cbn [inventory_loop] in H.
  apply io_bind_ok in H as (r & w1 & Hr%os_ok & H). pose proof (stream_read _ _ _ _ _ Hs Hr) as Hp. destruct r as [entry|].
  2: { injection H as <- <-. rewrite Hp. cbn. by rewrite app_nil_r. }
  rewrite Hp. unfold listed_names. cbn [map].
  apply io_bind_ok in H as (l & w2 & [Hl%ok_or_ok ->]%pure_ok & H).
  assert (entry_name entry = take l entry) as -> by (unfold entry_name; by rewrite Hl).
  cbn [List.filter]. destruct (dot (take l entry)); cbn [negb]; [by apply IH in H|].
  apply io_guard_ok in H as [_ H]. apply io_bind_ok in H as (n' & w2 & [_ ->]%pure_ok & H). apply io_guard_ok in H as [_ H].
  apply io_guard_ok in H as [Hc H]. apply io_bind_ok in H as (held & w3 & Hh & H).
  destruct (pinned_entry _ _ _ _ _ _ _ Hf Hc Hh) as [(e & sub & Hin & He & Hheld) Hk3].
  apply io_bind_ok in H as (m & w4 & Hm%os_ok & H). pose proof (holds_identity _ _ _ _ _ _ Hheld Hm) as ->.
  apply io_bind_ok in H as (ok & w5 & Hok%total_ok & H). apply io_guard_ok in H as [_ H].
  assert (mkDirEntry (str_of_bytes (take l entry)) (entry_identity e) = e) as Ee by (rewrite <- He; by destruct e).
  rewrite Ee in H. apply IH in H as [HF Hnames].
  - split; [done|]. rewrite Hnames, map_app. cbn [map]. rewrite He, str_bytes_of_bytes, <- app_assoc.
    pose proof (stream_kept_reserves (pending:=pending) s _ _ _ _ Hok) as ->.
    pose proof (stream_kept_metadata (pending:=pending) s _ _ _ _ Hm) as ->. by rewrite Hk3.
  - apply Forall_app. split; [done|]. constructor; [|constructor]. by apply (list_elem_of_fmap_2 fst c (e, sub)).
Qed.

Lemma inventory_lists d c maximum bytes w l w' :
  presents d c -> LinuxFiles.inventory d maximum bytes w = (Ok l, w') -> l = map fst c.
Proof.
  intros Hd H. unfold LinuxFiles.inventory in H. apply io_bind_ok in H as (before & w1 & _ & H). apply io_guard_ok in H as [_ H].
  apply io_bind_ok in H as (duplicate & w2 & Hc%os_ok & H). apply io_bind_ok in H as (s & w3 & Ho%os_ok & H).
  pose proof (stream_opened _ _ _ _ _ _ (clone_holds _ _ _ _ _ _ Hd Hc) Ho) as Hs.
  apply io_bind_ok in H as (u & w4 & [= <- <-] & H). apply io_bind_ok in H as (es & w5 & Hes & H).
  apply io_guard_ok in H as [Hu H]. apply io_bind_ok in H as (after & w6 & _ & H). apply io_guard_ok in H as [_ [= <- <-]].
  apply (collected_entries _ _ _ _ _ _ _ _ _ _ _ _ Hd Hs) in Hes as [HF Hn]; [|constructor]. cbn [map app] in Hn.
  pose proof (proj1 (holds_names _ _ _ Hd)) as Hsorted. unfold entry_order in Hu.
  apply (windows2_eq_sorted entry_order) in Hu; [|intros x y; rewrite bool_decide_eq_true; symmetry; apply str_cmp_eq].
  pose proof (stream_rewound s c w3 Hs) as Hperm. rewrite <- Hn in Hperm.
  apply (sorted_perm_unique entry_order); [done|done|]. rewrite sort_by_perm. apply submseteq_length_Permutation.
  - apply NoDup_submseteq; [|by intros e He; rewrite Forall_forall in HF; apply HF].
    apply (NoDup_fmap_1 (fun e => str_bytes (name e))). change (NoDup (map (fun e => str_bytes (name e)) es)).
    rewrite Hperm. rewrite <- (map_map fst (fun e => str_bytes (name e))). by apply sorted_names.
  - apply Permutation_length in Hperm. rewrite !length_map in *. lia.
Qed.

(** A name stands for one entry. *)
Lemma one_entry c (x y : DirectoryEntryIdentity * Node) :
  StronglySorted (cmp_lt entry_order) (map fst c) -> x ∈ c -> y ∈ c -> name x.1 = name y.1 -> x = y.
Proof.
  intros Hs%sorted_names. rewrite map_map in Hs. induction c as [|z c IH]; [by intros ?%elem_of_nil|]. inv Hs.
  rewrite !elem_of_cons. intros [->|Hx] [->|Hy] E; [done| | |by apply IH].
  - exfalso. apply H1. rewrite E. by apply (list_elem_of_fmap_2 (fun e : DirectoryEntryIdentity * Node => str_bytes (name e.1)) c y).
  - exfalso. apply H1. rewrite <- E. by apply (list_elem_of_fmap_2 (fun e : DirectoryEntryIdentity * Node => str_bytes (name e.1)) c x).
Qed.

Lemma child_presented d c e sub w child w' :
  presents d c -> (e, sub) ∈ c -> LinuxFiles.open_child_directory d (name e) w = (Ok child, w') ->
  exists children, sub = Folder children /\ presents child children.
Proof.
  intros Hd Hin H. unfold LinuxFiles.open_child_directory in H. apply io_guard_ok in H as [Hn H].
  apply io_bind_ok in H as (f & w1 & Ho & H). unfold open_directory_at in Ho. apply io_guard_ok in Ho as [_ Ho].
  apply io_bind_ok in Ho as (x & w2 & [-> ->]%c_string_ok & Ho%os_ok).
  destruct (holds_entry _ _ _ _ _ _ _ _ Hd Hn Ho) as (e' & sub' & Hin' & He & Hf).
  assert ((e', sub') = (e, sub)) as [= -> ->] by (eapply one_entry; [apply (holds_names _ _ _ Hd)|done..]).
  apply io_bind_ok in H as (m & w3 & Hm%os_ok & H). pose proof (holds_identity _ _ _ _ _ _ Hf Hm) as ->.
  apply io_guard_ok in H as [Ht%negb_false_iff [= <- <-]]. pose proof (holds_type _ _ _ Hf) as Htype.
  destruct sub as [bytes|children]; [destruct Htype; congruence|]. by exists children.
Qed.

Lemma upgrade_same f i n w p w' : holds f i n -> upgrade_regular_inode f i w = (Ok p, w') -> holds (pinned_file p) i n /\ file_identity p = i.
Proof.
  intros Hf H. unfold upgrade_regular_inode in H. apply io_bind_ok in H as (proc & w1 & _ & H).
  apply io_bind_ok in H as ([[mount magic] ro] & w2 & _ & H). apply io_guard_ok in H as [_ H].
  do 4 (apply io_bind_ok in H as (? & ? & _ & H)). apply io_guard_ok in H as [_ H]. apply io_bind_ok in H as (file & w3 & _ & H).
  apply io_bind_ok in H as (m & w4 & Hm%os_ok & H). apply io_guard_ok in H as [->%negb_false_iff%bool_decide_eq_true H].
  apply io_bind_ok in H as (m' & w5 & _ & H). apply io_guard_ok in H as [_ [= <- <-]]. split; [by eapply holds_same|done].
Qed.
Lemma file_presented d c e sub maximum w h w' :
  presents d c -> (e, sub) ∈ c -> LinuxFiles.capture_regular_file d (name e) maximum w = (Ok h, w') ->
  exists bytes, sub = RegularFile bytes /\ captured_bytes (held_capture h) = bytes.
Proof.
  intros Hd Hin H. unfold LinuxFiles.capture_regular_file in H. apply io_bind_ok in H as (p & w1 & Hp & H).
  unfold open_regular_file in Hp. apply io_bind_ok in Hp as (f & w2 & Ho & Hp). pose proof (holds_names _ _ _ Hd) as [Hsorted Hslash].
  rewrite Forall_forall in Hslash. specialize (Hslash _ Hin). cbn [fst] in Hslash.
  assert (not_one_component (name e) = false) as Hn.
  { unfold not_one_component. rewrite Hslash. unfold pin_entry_at in Ho. by apply io_guard_ok in Ho as [-> _]. }
  destruct (pinned_entry _ _ _ _ _ _ _ Hd Hn Ho) as [(e' & sub' & Hin' & He & Hf) _].
  assert ((e', sub') = (e, sub)) as [= -> ->] by by eapply one_entry.
  apply io_bind_ok in Hp as (m & w3 & Hm%os_ok & Hp). pose proof (holds_identity _ _ _ _ _ _ Hf Hm) as ->.
  apply io_guard_ok in Hp as [[Hfile%negb_false_iff _]%orb_false_iff Hp]. apply io_guard_ok in Hp as [_ Hp].
  apply (upgrade_same _ _ _ _ _ _ Hf) in Hp as [Hp Ei]. apply io_bind_ok in H as (r & w4 & _ & H). apply io_guard_ok in H as [_ H].
  apply io_bind_ok in H as (got & w5 & Hread & H). apply io_bind_ok in H as (more & w6 & _ & H). apply io_guard_ok in H as [_ H].
  apply io_bind_ok in H as (m & w7 & _ & H). apply io_guard_ok in H as [_ [= <- <-]]. cbn [held_capture captured_bytes].
  pose proof (holds_type _ _ _ Hf) as Ht. destruct sub as [bytes|children].
  2: { exfalso. unfold is_file in Hfile. unfold is_dir in Ht. apply Z.eqb_eq in Hfile, Ht. rewrite Hfile in Ht. discriminate Ht. }
  destruct Ht as [_ Hsize]. exists bytes. split; [done|]. unfold read_extent in Hread.
  assert (os (read_exact (pinned_file p) (size (file_identity p))) w4 = (Ok got, w5)) as Hr%os_ok
    by (destruct (os _ w4) as [[b|[[]| |]] w8]; try done).
  apply (holds_bytes _ _ _ _ _ _ _ Hp) in Hr as (Hl & o & Hg). rewrite Ei, Hsize in *. subst got.
  assert (o = 0%nat \/ bytes = []) as [->| ->].
  { destruct bytes as [|b bs]; [by right|left]. unfold len in Hl. rewrite length_take, length_drop in Hl. cbn [length] in Hl. lia. }
  - rewrite drop_0. apply take_ge. unfold len. lia.
  - by rewrite drop_nil, take_nil.
Qed.
End tree.
End Tree.
Import Tree.

(** C24. On a file system that does not change, the operations of this file present its
    tree: an inventory lists exactly the entries of the directory in the order of
    their names, whatever the order of the stream, opening a child yields that child,
    and a capture holds all bytes of the file that the name stands for, although it
    is read through another descriptor than the one it was found by.  So the walk over
    a source directory captures the files of the tree. *)
Theorem linux_presents_tree {F W : Type} (HK : Kernel F W) holds streams pending (HS : StaticFiles HK holds streams pending) :
  StaticTree (Dir:=PinnedDir F) (World:=W) (presents holds) /\
  forall reserve d c expected w rows w', presents holds d c -> capture_source_directory reserve d expected w = Ok (rows, w') ->
    exists b, res_fold (push_row reserve) (listing_files "" c) SourceRows.new = Ok b /\ finish b = Ok rows /\ row_digest rows = expected.
Proof.
  assert (StaticTree (Dir:=PinnedDir F) (World:=W) (presents holds)) as HT.
  { constructor.
    - intros d c n m w l w' Hd H%observe_ok. by eapply inventory_lists.
    - intros d c e sub w child w' Hd Hin H%observe_ok. by eapply child_presented.
    - intros d c e sub n w f w' Hd Hin H%observe_ok. apply io_bind_ok in H as (h & w1 & H & [= <- <-]). by eapply file_presented. }
  split; [exact HT|]. intros reserve d c expected w rows w' Hd Hc. unfold capture_source_directory in Hc. apply guard_ok in Hc as [_ Hc].
  apply bind_ok in Hc as (s & Hs & Hc). apply bind_ok in Hc as (r & Hr & Hc). apply guard_ok in Hc as [E [= <- <-]]. bool_to_prop.
  destruct (capture_directory_tree (presents holds) reserve _ _ _ _ _ _ _ Hd Hs) as [_ Hf]. by exists (walk_rows s).
Qed.

(** ** Loops *)

(** A stream has at most two dot entries to report, and no other operation adds one. *)
Class DotEntries {F W : Type} (HK : Kernel F W) (dots : F -> W -> nat) : Prop := {
  dots_rewound s w : (dots s (rewind s w) <= 2)%nat;
  dots_read s w entry w' : read_entry s w = (Ok (Some entry), w') ->
    (dots s w' <= dots s w)%nat /\ (dot (entry_name entry) = true -> (dots s w' < dots s w)%nat);
  dots_openat s f name how w r w' : openat2 f name how w = (r, w') -> dots s w' = dots s w;
  dots_metadata s f w r w' : metadata f w = (r, w') -> dots s w' = dots s w;
  dots_reserves s n w r w' : reserves n w = (r, w') -> dots s w' = dots s w
}.

Module Loops.

Definition ends {E W A} (m : io E W A) (w : W) : Prop := ~ stuck (m w).1.
Lemma ends_bind {E W A B} (m : io E W A) (k : A -> io E W B) w :
  ends m w -> (forall a w1, m w = (Ok a, w1) -> ends (k a) w1) -> ends (io_bind m k) w.
Proof.
  unfold ends, io_bind. intros Hm Hk. destruct (m w) as [[a|e] w1] eqn:Em; [by apply Hk|]. cbn [fst] in *.
  intros [[= ->]|[= ->]]; apply Hm; [by left|by right].
Qed.
Lemma ends_answers {E W A} (m : io E W A) w : answers m -> ends m w.
Proof. intros H. unfold ends. destruct (m w) eqn:Em. by eapply H. Qed.
Lemma ends_guard {E W A} (b : bool) (e : E) (m : io E W A) w : (b = false -> ends m w) -> ends (refuse_if b with e ;; m) w.
Proof. destruct b; intros H; [by intros []|by apply H]. Qed.

Section loops.
Context {F W : Type} {HK : Kernel F W}.

Lemma answers_os {A} (m : sysret W A) : answers (os m).
Proof. intros w r w'. unfold os. destruct (m w) as [[a|e] w1]; intros [= <- <-]; by intros []. Qed.
Lemma answers_guard {A} (b : bool) e (m : io IoError W A) : answers m -> answers (refuse_if b with e ;; m).
Proof. intros H. destruct b; [apply answers_fail|done]. Qed.
Lemma answers_pin f name : answers (pin_entry_at f name).
Proof. unfold pin_entry_at, c_string. apply answers_guard, answers_bind; [apply answers_guard, answers_ret|intros; apply answers_os]. Qed.
Lemma ok_or_ends {A} (o : option A) (e : IoError) (w : W) : ends (pure (ok_or o (Error e))) w.
Proof. destruct o; by intros []. Qed.

Lemma pin_dots (dots : F -> W -> nat) {HD : DotEntries HK dots} s f name w f' w' : pin_entry_at f name w = (Ok f', w') -> dots s w' = dots s w.
Proof.
  intros H. unfold pin_entry_at in H. apply io_guard_ok in H as [_ H]. apply io_bind_ok in H as (x & w1 & [-> ->]%c_string_ok & H%os_ok).
  by eapply dots_openat.
Qed.
Lemma inventory_loop_ends (dots : F -> W -> nat) {HD : DotEntries HK dots} fuel f s maximum bytes es n w :
  (Z.to_nat (maximum - len es) + dots s w + 1 <= fuel)%nat -> ends (inventory_loop fuel f s maximum bytes es n) w.
Proof.
  revert es n w. induction fuel as [|fuel IH]; intros es n w Hfuel; [lia|]. cbn [inventory_loop].
  apply ends_bind; [apply ends_answers, answers_os|]. intros [entry|] w1 Hr%os_ok; [|by intros []].
  destruct (dots_read _ _ _ _ Hr) as [Hd Hdot].
  apply ends_bind; [apply ok_or_ends|]. intros l w2 [Hl%ok_or_ok ->]%pure_ok.
  assert (entry_name entry = take l entry) as E by (unfold entry_name; by rewrite Hl). rewrite E in Hdot.
  destruct (dot (take l entry)); [apply IH; specialize (Hdot eq_refl); lia|].
  apply ends_guard. intros Hm%Z.leb_gt. apply ends_bind; [apply ok_or_ends|]. intros n' w2 [_ ->]%pure_ok.
  do 2 (apply ends_guard; intros _). apply ends_bind; [apply ends_answers, answers_pin|]. intros held w2 Hh.
  apply ends_bind; [apply ends_answers, answers_os|]. intros m w3 Hmd%os_ok.
  apply ends_bind; [apply ends_answers, answers_total|]. intros ok w4 Hok%total_ok. apply ends_guard. intros _. apply IH.
  rewrite len_app, len_cons. change (len (@nil DirectoryEntryIdentity)) with 0. pose proof (len_nonneg es).
  rewrite (dots_reserves _ _ _ _ _ Hok), (dots_metadata _ _ _ _ _ Hmd), (pin_dots dots _ _ _ _ _ _ Hh). lia.
Qed.
Lemma inventory_ends (dots : F -> W -> nat) {HD : DotEntries HK dots} d maximum bytes w : ends (LinuxFiles.inventory d maximum bytes) w.
Proof.
  unfold LinuxFiles.inventory. apply ends_bind; [apply ends_answers, answers_os|intros before w1 _]. apply ends_guard. intros _.
  do 2 (apply ends_bind; [apply ends_answers, answers_os|intros ? ? _]). apply ends_bind; [by intros []|]. intros u w4 [= <- <-].
  apply ends_bind; [|intros es w5 _; apply ends_guard; intros _; apply ends_bind; [apply ends_answers, answers_os|intros ? ? _];
    apply ends_guard; intros _; by intros []].
  apply (inventory_loop_ends dots). change (len (@nil DirectoryEntryIdentity)) with 0. pose proof (dots_rewound a0 w2). rewrite Z.sub_0_r. lia.
Qed.

(** [consume] passes each chunk on to [seen]. *)
Definition passes_on (seen : W -> list byte) (consume : list byte -> io IoError W unit) : Prop :=
  forall chunk, answers (consume chunk) /\ forall w w', consume chunk w = (Ok tt, w') -> seen w' = seen w ++ chunk.
Definition unseen {A} (seen : W -> list byte) (m : W -> A * W) : Prop := forall w, seen (m w).2 = seen w.

Lemma checked_within_ok a b maximum n : checked_within a b maximum = Some n <-> n = a + b /\ n <= maximum /\ n <= u64_max.
Proof.
  unfold checked_within, checked_add. destruct (Z.leb_spec (a + b) u64_max); cbn; [|split; [done|lia]].
  destruct (Z.leb_spec (a + b) maximum); split; try done; [intros [= <-]; lia|intros (-> & _); done|lia].
Qed.
Lemma read_chunks_ends fuel f maximum consume seen n w :
  passes_on seen consume -> (Z.to_nat (maximum - n) + 2 <= fuel)%nat -> 0 <= n <= maximum -> ends (read_chunks fuel f maximum consume n) w.
Proof.
  intros Hc. revert n w. induction fuel as [|fuel IH]; intros n w Hfuel Hn; [lia|]. cbn [read_chunks].
  apply ends_bind; [apply ends_answers, answers_os|]. intros chunk w1 _. case_bool_decide as Hne; [by intros []|].
  apply ends_bind; [apply ok_or_ends|]. intros n' w2 [Hn'%ok_or_ok%checked_within_ok ->]%pure_ok.
  apply ends_bind; [apply ends_answers, Hc|]. intros [] w3 _. apply IH; destruct chunk; try done; rewrite len_cons in Hn';
    pose proof (len_nonneg chunk); lia.
Qed.
Lemma read_chunks_ok fuel f maximum consume seen n w t w' :
  passes_on seen consume -> unseen seen (read f CHUNK) -> 0 <= n -> read_chunks fuel f maximum consume n w = (Ok t, w') ->
  exists bytes, seen w' = seen w ++ bytes /\ t = n + len bytes.
Proof.
  intros Hc Hu. revert n w. induction fuel as [|fuel IH]; intros n w Hn H; [done|]. cbn [read_chunks] in H.
  apply io_bind_ok in H as (chunk & w1 & Hr%os_ok & H). pose proof (Hu w) as Hs. rewrite Hr in Hs. cbn [snd] in Hs.
  case_bool_decide as Hne; [injection H as <- <-; exists []; rewrite app_nil_r; split; [done|]; change (len (@nil byte)) with 0; lia|].
  apply io_bind_ok in H as (n' & w2 & [(-> & _)%ok_or_ok%checked_within_ok ->]%pure_ok & H).
  apply io_bind_ok in H as ([] & w3 & Hw & H). apply (proj2 (Hc chunk)) in Hw. pose proof (len_nonneg chunk).
  apply IH in H as (bytes & Hseen & ->); [|lia]. exists (chunk ++ bytes). rewrite Hseen, Hw, Hs, app_assoc, len_app. split; [done|lia].
Qed.
Lemma read_bounded_ends p maximum consume seen w : passes_on seen consume -> 0 <= maximum -> ends (read_bounded_chunks p maximum consume) w.
Proof.
  intros Hc Hm. unfold read_bounded_chunks. apply ends_guard. intros _.
  do 3 (apply ends_bind; [apply ends_answers, answers_os|intros ? ? _]). apply ends_guard. intros _.
  apply ends_bind; [eapply read_chunks_ends; [exact Hc|lia..]|]. intros t w3 _. apply ends_guard. intros _.
  apply ends_bind; [apply ends_answers, answers_os|intros ? ? _]. apply ends_guard. intros _. by intros [].
Qed.
Lemma read_bounded_ok p maximum consume seen w t w' :
  passes_on seen consume -> (forall f, unseen seen (try_clone f) /\ unseen seen (seek_start f) /\ unseen seen (metadata f) /\ unseen seen (read f CHUNK)) ->
  read_bounded_chunks p maximum consume w = (Ok t, w') ->
  exists bytes, seen w' = seen w ++ bytes /\ t = len bytes /\ t = size (file_identity p) /\ t <= maximum.
Proof.
  intros Hc Hu H. unfold read_bounded_chunks in H. apply io_guard_ok in H as [[_ Hm%Z.ltb_ge]%orb_false_iff H].
  apply io_bind_ok in H as (f & w1 & H1%os_ok & H). pose proof (proj1 (Hu (pinned_file p)) w) as E1. rewrite H1 in E1.
  apply io_bind_ok in H as ([] & w2 & H2%os_ok & H). pose proof (proj1 (proj2 (Hu f)) w1) as E2. rewrite H2 in E2.
  apply io_bind_ok in H as (m & w3 & H3%os_ok & H). pose proof (proj1 (proj2 (proj2 (Hu f))) w2) as E3. rewrite H3 in E3.
  apply io_guard_ok in H as [_ H]. apply io_bind_ok in H as (t' & w4 & H4 & H).
  apply (read_chunks_ok _ _ _ _ seen) in H4 as (bytes & E4 & Et); [|done|apply Hu|lia].
  apply io_guard_ok in H as [->%negb_false_iff%Z.eqb_eq H]. apply io_bind_ok in H as (m' & w5 & H5%os_ok & H).
  pose proof (proj1 (proj2 (proj2 (Hu f))) w4) as E5. rewrite H5 in E5. apply io_guard_ok in H as [_ [= <- <-]]. cbn [snd] in *.
  exists bytes. split_and!; [congruence|lia|done|done].
Qed.

Lemma fill_loop_ok fuel wanted filled w bytes w' : len filled <= wanted -> (forall n w chunk w', getrandom n w = (Ok chunk, w') -> len chunk <= n) ->
  fill_loop fuel wanted filled w = (Ok bytes, w') -> len bytes = wanted /\ exists rest, bytes = filled ++ rest.
Proof.
  intros Hf Hg. revert filled w Hf. induction fuel as [|fuel IH]; intros filled w Hf; cbn [fill_loop].
  - destruct (Z.leb_spec wanted (len filled)); [|done]. intros [= <- <-]. split; [lia|]. exists []. by rewrite app_nil_r.
  - destruct (Z.leb_spec wanted (len filled)). { intros [= <- <-]. split; [lia|]. exists []. by rewrite app_nil_r. }
    destruct (getrandom (wanted - len filled) w) as [[chunk|[]] w1] eqn:E; try done.
    + case_bool_decide as Hne; [done|]. specialize (Hg _ _ _ _ E). intros Hr. apply IH in Hr as [Hl [rest ->]]; [|rewrite len_app; lia].
      split; [done|]. exists (chunk ++ rest). by rewrite app_assoc.
    + destruct (errno =? EINTR); [|done]. by apply IH.
Qed.
End loops.
End Loops.
Import Loops.

Module Random.
Section random.
Context {F W : Type} {HK : Kernel F W}.

(** Each turn of the kernel that is interrupted leaves fewer interruptions to come. *)
Definition interrupted_finitely (interruptions : W -> nat) : Prop :=
  forall n w r w', getrandom n w = (r, w') ->
    (interruptions w' <= interruptions w)%nat /\ (r = Err (OsError EINTR) -> (interruptions w' < interruptions w)%nat).
Lemma fill_loop_ends interruptions fuel wanted filled w :
  interrupted_finitely interruptions -> (Z.to_nat (wanted - len filled) + interruptions w <= fuel)%nat ->
  ends (fill_loop fuel wanted filled) w.
Proof.
  intros Hi. revert filled w. induction fuel as [|fuel IH]; intros filled w Hfuel; unfold ends; cbn [fill_loop].
  - destruct (Z.leb_spec wanted (len filled)); [by intros []|lia].
  - destruct (Z.leb_spec wanted (len filled)); [by intros []|].
    destruct (getrandom (wanted - len filled) w) as [[chunk|[]] w1] eqn:E; try by intros [].
    + case_bool_decide as Hne; [by intros []|]. apply IH. pose proof (Hi _ _ _ _ E) as [Hle _]. rewrite len_app. destruct chunk; [done|].
      rewrite len_cons. pose proof (len_nonneg chunk). lia.
    + destruct (Z.eqb_spec errno EINTR) as [->|]; [|by intros []]. apply IH. pose proof (Hi _ _ _ _ E) as [_ Hlt]. specialize (Hlt eq_refl). lia.
Qed.
End random.
End Random.
Import Random.

(** C33. The loops around the system calls end and deliver what they claim.  An
    inventory ends for every answer of the kernel, as long as a stream reports its two
    dot entries once; streaming a file ends for every file, even one that grows without
    bound, and, if it succeeds, has passed on, in order and in full, a total of exactly
    the size by which the file was pinned, within the bound of the caller; and filling
    with randomness ends after finitely many interruptions, with exactly the bytes
    that were asked for. *)
Theorem linux_loops_end {F W : Type} (HK : Kernel F W) :
  (forall dots (HD : DotEntries HK dots) d maximum bytes w r w', LinuxFiles.inventory d maximum bytes w = (r, w') -> ~ stuck r) /\
  (forall p maximum consume seen w r w', passes_on seen consume -> 0 <= maximum ->
    read_bounded_chunks p maximum consume w = (r, w') -> ~ stuck r /\
    ((forall f, unseen seen (try_clone f) /\ unseen seen (seek_start f) /\ unseen seen (metadata f) /\ unseen seen (read f CHUNK)) ->
     forall total, r = Ok total -> exists bytes, seen w' = seen w ++ bytes /\ total = len bytes /\ total = size (file_identity p) /\ total <= maximum)) /\
  (forall interruptions fuel wanted w r w', 0 <= wanted -> interrupted_finitely interruptions ->
    (Z.to_nat wanted + interruptions w <= fuel)%nat -> fill_random fuel wanted w = (r, w') -> ~ stuck r /\
    ((forall n w chunk w', getrandom n w = (Ok chunk, w') -> len chunk <= n) ->
     forall bytes, r = Ok bytes -> 1 <= wanted <= 4096 /\ len bytes = wanted)).
Proof.
  split_and!.
  - intros dots HD d maximum bytes w r w' H. pose proof (inventory_ends dots d maximum bytes w) as He. unfold ends in He. by rewrite H in He.
  - intros p maximum consume seen w r w' Hc Hm H. split.
    + pose proof (read_bounded_ends p maximum consume seen w Hc Hm) as He. unfold ends in He. by rewrite H in He.
    + intros Hu total ->. by eapply read_bounded_ok.
  - intros interruptions fuel wanted w r w' Hw Hi Hfuel H. unfold fill_random in H. split.
    + destruct ((wanted =? 0) || (4096 <? wanted)); [injection H as <- <-; by intros []|].
      assert (ends (fill_loop fuel wanted []) w) as He.
      { apply (fill_loop_ends interruptions); [done|]. change (len (@nil byte)) with 0. rewrite Z.sub_0_r. lia. }
      unfold ends in He. by rewrite H in He.
    + intros Hg bytes ->. apply io_guard_ok in H as [[H0%Z.eqb_neq H1%Z.ltb_ge]%orb_false_iff H].
      apply fill_loop_ok in H as [Hl _]; [lia|change (len (@nil byte)) with 0; lia|done].
Qed.

(** C25. What is sealed is what was given: if sealing data (or an executable) in memory
    succeeds, the file holds exactly those bytes, at most as many as the bound, under
    an admitted name, with exactly the required seals read back, and whatever happens
    later it still holds them.  This discharges what the resolver assumes of sealing. *)
Theorem sealing_keeps {F W : Type} (HK : Kernel F W) later content offset private immutable
    (HM : MemoryFiles HK later content offset private immutable) name bytes maximum mode (w w' w'' : W) s :
  maximum < u64_max -> later w' w'' ->
  (seal_data_file_bytes name bytes maximum mode w = (Ok s, w') ->
    content (sealed_file s) w'' = bytes /\ byte_length s = len bytes /\ len bytes <= maximum /\ mode = 256 /\ bad_memfd_name name = false /\
    exists w1, get_seals (sealed_file s) w1 = (Ok REQUIRED_DATA_MEMFD_SEALS, w')) /\
  (seal_executable_bytes name bytes maximum w = (Ok s, w') ->
    content (sealed_file s) w'' = bytes /\ byte_length s = len bytes /\ len bytes <= maximum /\ bad_memfd_name name = false /\
    exists w1, get_seals (sealed_file s) w1 = (Ok REQUIRED_MEMFD_SEALS, w')).
Proof.
  intros Hm Hl. split; intros H.
  - apply (seal_data_ok later content offset private immutable) in H as ([Hi <-] & Hrest); [|done]. split; [|done].
    by apply (immutable_stays _ _ _ Hl Hi).
  - apply (seal_executable_ok later content offset private immutable) in H as ([Hi <-] & Hrest); [|done]. split; [|done].
    by apply (immutable_stays _ _ _ Hl Hi).
Qed.

(** ** A small system *)
Module Toy.
Import Sample.

(** The nodes of a tree by number, the directory of /proc and of its descriptors, one
    memory file, and the streams of the directories. *)
Inductive handle : Set := Root | Proc | Descriptors | Disk (k : nat) | Stream (k : nat) | Memory.
Record world : Set := mkWorld { cell : option (list byte * Z * Z); queue : list (list byte); position : Z; seen : list byte }.
Definition with_cell (w : world) c : world := mkWorld c (queue w) (position w) (seen w).
Definition with_queue (w : world) q : world := mkWorld (cell w) q (position w) (seen w).
Definition with_position (w : world) p : world := mkWorld (cell w) (queue w) p (seen w).

Definition root_identity : FileIdentity := entry_identity (entry_of "" 1 (S_IFDIR + 493) 0).
Definition proc_identity (inode : Z) : FileIdentity := mkIdentity 9 inode (S_IFDIR + 365) 1 0 0 0 0 0 0 0.
Definition entries : list (DirectoryEntryIdentity * Node) :=
  (mkDirEntry "" root_identity, Folder listing) :: listing ++ match listing with [_; (_, Folder l)] => l | _ => [] end.
Definition node (k : nat) : option (DirectoryEntryIdentity * Node) := entries !! k.
Definition children (k : nat) : Listing := match node k with Some (_, Folder l) => l | _ => [] end.
Definition number_of (e : DirectoryEntryIdentity) : option nat := fst <$> list_find (fun x : DirectoryEntryIdentity * Node => x.1 = e) entries.
Definition child (k : nat) (name : string) : option nat :=
  match List.find (fun x : DirectoryEntryIdentity * Node => bool_decide (Directory.name x.1 = name)) (children k) with
  | Some x => number_of x.1
  | None => None
  end.
Definition refused {A} : result IoError A := Err (OsError 2).
Definition found {A} (o : option A) : result IoError A := match o with Some a => Ok a | None => refused end.
Definition fd_number (f : handle) : Z := match f with Disk k => 4 + Z.of_nat k | _ => 3 end.
Definition openat (f : handle) (name : string) : option handle :=
  match f with
  | Root => if bool_decide (name = "proc"%string) then Some Proc else None
  | Proc => if bool_decide (name = "1/fd"%string) then Some Descriptors else None
  | Descriptors => fmap Disk (List.find (fun k => bool_decide (str_of_bytes (decimal (fd_number (Disk k))) = name)) (seq 0 4))
  | Disk k => fmap Disk (child k name)
  | _ => None
  end.
Definition identity_of (f : handle) : option FileIdentity :=
  match f with
  | Proc => Some (proc_identity 100)
  | Descriptors => Some (proc_identity 101)
  | Disk k => fmap (fun x : DirectoryEntryIdentity * Node => entry_identity x.1) (node k)
  | _ => None
  end.
Definition bytes_of (k : nat) : list byte := match node k with Some (_, RegularFile bytes) => bytes | _ => [] end.
Definition stream_entry (name : list byte) : list byte := name ++ [x00; x00].
Definition stream_entries (k : nat) : list (list byte) :=
  map stream_entry (rev (map (fun x : DirectoryEntryIdentity * Node => str_bytes (name x.1)) (children k)) ++ [[x2e]; [x2e; x2e]]).
Definition unsealed (seals : Z) : bool := existsb (Z.eqb seals) [0; 32].
Definition on_memory {A} (f : handle) (w : world) (step : list byte * Z * Z -> result IoError A * (list byte * Z * Z)) : result IoError A * world :=
  match f, cell w with
  | Memory, Some c => let '(r, c) := step c in (r, with_cell w (Some c))
  | _, _ => (refused, w)
  end.
#[export] Instance kernel : Kernel handle world := {
  filesystem_root w := (Ok Root, w);
  openat2 f name _ w := (found (openat f name), with_position w 0);
  metadata f w := (found (identity_of f), w);
  filesystem_magic _ w := (Ok PROC_SUPER_MAGIC, w);
  volume_flags _ w := (Ok ST_RDONLY, w);
  statx_mount _ w := (Ok (STATX_MNT_ID_UNIQUE, 7), w);
  try_clone f w := (Ok f, w);
  seek_start f w :=
    match f with
    | Memory => on_memory f w (fun '(c, _, s) => (Ok tt, (c, 0, s)))
    | _ => (Ok tt, with_position w 0)
    end;
  read f n w :=
    match f with
    | Disk k => let chunk := take (Z.to_nat n) (drop (Z.to_nat (position w)) (bytes_of k)) in (Ok chunk, with_position w (position w + len chunk))
    | _ => (refused, w)
    end;
  read_exact f n w :=
    match f with
    | Disk k => let chunk := take (Z.to_nat n) (drop (Z.to_nat (position w)) (bytes_of k)) in
        if len chunk =? n then (Ok chunk, with_position w (position w + len chunk)) else (Err UnexpectedEof, w)
    | _ => (refused, w)
    end;
  read_to_end f n w := on_memory f w (fun '(c, o, s) => (Ok (take (Z.to_nat n) (drop (Z.to_nat o) c)), (c, o, s)));
  copy _ _ _ w := (refused, w);
  write_all f bytes w := on_memory f w (fun '(c, o, s) => if unsealed s then (Ok tt, (c ++ bytes, o, s)) else (refused, (c, o, s)));
  flush f w := (Ok tt, w);
  sync_all f w := (Ok tt, w);
  set_permissions f _ w := (Ok tt, w);
  mkdirat _ _ _ w := (refused, w);
  unlink_directory _ _ w := (refused, w);
  open_stream f w := (match f with Disk k => Ok (Stream k) | _ => refused end, w);
  rewind f w := match f with Stream k => with_queue w (stream_entries k) | _ => with_queue w [] end;
  read_entry f w := (Ok (hd_error (queue w)), with_queue w (tl (queue w)));
  raw_fd := fd_number;
  process_id w := (1, w);
  effective_uid w := (0, w);
  reserves _ w := (true, w);
  get_fd_flags _ w := (Ok FD_CLOEXEC, w);
  set_fd_flags _ _ w := (Ok tt, w);
  memfd_create _ flags w := match cell w with None => (Ok Memory, with_cell w (Some ([], 0, if Z.land flags MFD_NOEXEC_SEAL =? 0 then 0 else 32))) | Some _ => (refused, w) end;
  add_seals f mask w := on_memory f w (fun '(c, o, s) => if unsealed s then (Ok tt, (c, o, Z.lor s mask)) else (refused, (c, o, s)));
  get_seals f w := on_memory f w (fun '(c, o, s) => (Ok s, (c, o, s)));
  getrandom n w := (Ok (repeat x07 (Z.to_nat (Z.min n 3))), w)
}.
Definition start : world := mkWorld None [] 0 [].
Definition top : PinnedDir handle := mkPinnedDir (Disk 0) root_identity.

Example toy_inventory : match LinuxFiles.inventory top 10 100 start with (Ok l, _) => bool_decide (l = map fst listing) | _ => false end = true.
Proof. vm_compute. reflexivity. Qed.
Example toy_capture : match LinuxFiles.capture_regular_file top "a" 10 start with
  (Ok h, _) => bool_decide (captured_bytes (held_capture h) = str_bytes "hi") | _ => false end = true.
Proof. vm_compute. reflexivity. Qed.
Example toy_seal : match LinuxFiles.seal_data_file_bytes "keep" [x01; x02] 10 256 start with (Ok s, _) => byte_length s =? 2 | _ => false end = true.
Proof. vm_compute. reflexivity. Qed.

Definition holds (f : handle) (i : FileIdentity) (n : Node) : Prop := exists k e, f = Disk k /\ node k = Some (e, n) /\ i = entry_identity e.
Definition streams (s : handle) (c : Listing) : Prop := exists k, s = Stream k /\ children k = c /\ (k < 4)%nat.
Definition pending (_ : handle) (w : world) : list (list byte) := queue w.

Lemma node_cases k x : node k = Some x -> k = 0%nat \/ k = 1%nat \/ k = 2%nat \/ k = 3%nat.
Proof. intros H%lookup_lt_Some. change (length entries) with 4%nat in H. lia. Qed.
Lemma child_found k name k' : (k < 4)%nat -> child k name = Some k' ->
  exists x, x ∈ children k /\ Directory.name x.1 = name /\ node k' = Some x.
Proof.
  intros Hk H. unfold child in H. destruct (List.find _ (children k)) as [x|] eqn:E; [|done]. apply List.find_some in E as [Hin Hn].
  apply bool_decide_eq_true in Hn. exists x. split; [by apply list_elem_of_In|]. split; [done|].
  destruct k as [|[|[|[|k]]]]; [| | | |lia]; cbn in Hin.
  - destruct Hin as [<- | [<- | []]]; vm_compute in H; injection H as <-; reflexivity.
  - destruct Hin.
  - destruct Hin as [<- | []]; vm_compute in H; injection H as <-; reflexivity.
  - destruct Hin.
Qed.
Lemma identity_unique f k e n : node k = Some (e, n) -> identity_of f = Some (entry_identity e) -> f = Disk k.
Proof.
  intros Hk Hf. pose proof (node_cases _ _ Hk) as Hc. destruct f as [| | |k'| |]; try done.
  - cbn in Hf. destruct Hc as [-> | [-> | [-> | ->]]]; injection Hk as <- <-; discriminate Hf.
  - cbn in Hf. destruct Hc as [-> | [-> | [-> | ->]]]; injection Hk as <- <-; discriminate Hf.
  - cbn in Hf. destruct (node k') as [[e' n']|] eqn:Hk'; [|done]. pose proof (node_cases _ _ Hk') as Hc'.
    destruct Hc as [-> | [-> | [-> | ->]]], Hc' as [-> | [-> | [-> | ->]]]; injection Hk as <- <-; injection Hk' as <- <-; (reflexivity || discriminate Hf).
Qed.
Lemma found_ok {A} (o : option A) a : found o = Ok a <-> o = Some a.
Proof. destruct o; split; by intros [= ->]. Qed.

Lemma kernel_static : StaticFiles kernel holds streams pending.
Proof.
  constructor.
  - intros f i n w m w' (k & e & -> & Hk & ->) [= H%found_ok _]. cbn in H. rewrite Hk in H. by injection H as <-.
  - intros f i n f' w w' (k & e & -> & Hk & ->) [= H%found_ok _]. apply (identity_unique f' k e n) in H as ->; [|done]. by exists k, e.
  - intros f i c name how w f' w' (k & e & -> & Hk & ->) _ [= H%found_ok _]. cbn in H. destruct (child k name) as [k'|] eqn:Hc; [|done].
    injection H as <-. assert (k < 4)%nat as Hlt by (pose proof (node_cases _ _ Hk); lia).
    destruct (child_found _ _ _ Hlt Hc) as ([e' sub] & Hin & Hn & Hk'). exists e', sub. unfold children in Hin. rewrite Hk in Hin.
    split_and!; [done|done|]. by exists k', e'.
  - intros f i c (k & e & -> & Hk & ->).
    destruct (node_cases _ _ Hk) as [-> | [-> | [-> | ->]]]; vm_compute in Hk; inv Hk; split; repeat constructor.
  - intros f i n (k & e & -> & Hk & ->).
    destruct (node_cases _ _ Hk) as [-> | [-> | [-> | ->]]]; vm_compute in Hk; inv Hk; vm_compute; try split; reflexivity.
  - intros f i bytes n w got w' (k & e & -> & Hk & ->) H. cbn in H. unfold bytes_of in H. rewrite Hk in H.
    destruct (Z.eqb_spec (len (take (Z.to_nat n) (drop (Z.to_nat (position w)) bytes))) n) as [E|]; [|done]. injection H as <- _.
    split; [done|]. by eexists.
  - intros f i n w f' w' Hf [= -> _]. done.
  - intros f i c w s w' (k & e & -> & Hk & ->) [= <- _]. exists k. unfold children. rewrite Hk. split_and!; [done..|].
    pose proof (node_cases _ _ Hk). lia.
  - intros s c w (k & -> & <- & Hk). cbn. destruct k as [|[|[|[|k]]]]; [| | | |lia]; vm_compute; try reflexivity.
    apply perm_swap.
  - intros s c w r w' _ [= <- <-]. unfold pending. cbn. by destruct (queue w).
  - by intros s f name how w r w' [= _ <-].
  - by intros s f w r w' [= _ <-].
  - by intros s n w r w' [= _ <-].
Qed.
Lemma kernel_dots : DotEntries kernel (fun _ w => length (List.filter dot (map entry_name (queue w)))).
Proof.
  constructor.
  - intros s w. cbn. destruct s as [| | | |k|]; cbn [queue with_queue]; try (cbn; lia). destruct (decide (k < 4)%nat) as [Hk|Hk].
    + destruct k as [|[|[|[|k]]]]; [| | | |lia]; vm_compute; lia.
    + unfold stream_entries, children. assert (node k = None) as -> by (apply lookup_ge_None; change (length entries) with 4%nat; lia).
      vm_compute. lia.
  - intros s w entry w' [= He <-]. cbn. destruct (queue w) as [|x q]; [done|]. injection He as ->. cbn. destruct (dot (entry_name entry)); cbn; split; [lia..|lia|done].
  - by intros s f name how w r w' [= _ <-].
  - by intros s f w r w' [= _ <-].
  - by intros s n w r w' [= _ <-].
Qed.

Definition later (w w' : world) : Prop := forall c o s, cell w = Some (c, o, s) -> unsealed s = false -> exists o', cell w' = Some (c, o', s).
Definition content (f : handle) (w : world) : list byte := match f, cell w with Memory, Some (c, _, _) => c | _, _ => [] end.
Definition offset (f : handle) (w : world) : Z := match cell w with Some (_, o, _) => o | None => 0 end.
Definition private (f : handle) (w : world) : Prop := f = Memory /\ cell w <> None.
Definition immutable (f : handle) (w : world) : Prop := f = Memory /\ exists c o s, cell w = Some (c, o, s) /\ unsealed s = false.

Lemma later_refl w : later w w. Proof. intros c o s E _. by exists o. Qed.
Lemma later_trans w1 w2 w3 : later w1 w2 -> later w2 w3 -> later w1 w3.
Proof. intros H1 H2 c o s E Hs. destruct (H1 _ _ _ E Hs) as [o' E']. exact (H2 _ _ _ E' Hs). Qed.
Lemma later_same w w' : cell w' = cell w -> later w w'.
Proof. intros E c o s Hc _. exists o. by rewrite E. Qed.
Lemma later_memory {A} f w (step : list byte * Z * Z -> result IoError A * (list byte * Z * Z)) :
  (forall c o s, unsealed s = false -> exists o', (step (c, o, s)).2 = (c, o', s)) -> later w (on_memory f w step).2.
Proof.
  intros H c o s E Hs. unfold on_memory. destruct f; try by exists o. rewrite E. destruct (H c o s Hs) as [o' Ho].
  destruct (step (c, o, s)) as [r c']. cbn in *. exists o'. by rewrite Ho.
Qed.
Lemma kernel_evolution : Evolution kernel later.
Proof.
  constructor; repeat split; try (intros w; by apply later_same); try (intros ?; intros w; by apply later_same).
  - exact later_trans.
  - intros f name how w. by apply later_same.
  - intros w. destruct f; try by apply later_same. apply later_memory. intros c o s _. by exists 0.
  - intros w. destruct f; by apply later_same.
  - intros w. destruct f; try by apply later_same. cbn. by destruct (_ =? n); apply later_same.
  - intros w. apply later_memory. intros c o s _. by exists o.
  - intros bytes w. apply later_memory. intros c o s Hs. rewrite Hs. by exists o.
  - intros name mask w. cbn. destruct (cell w) as [[[c o] s]|] eqn:E; [apply later_same; cbn; by rewrite E|]. intros c o s E'. congruence.
  - intros mask w. apply later_memory. intros c o s Hs. rewrite Hs. by exists o.
  - intros w. apply later_memory. intros c o s _. by exists o.
Qed.
Lemma required_sealed s : Z.land s REQUIRED_MEMFD_SEALS = REQUIRED_MEMFD_SEALS -> unsealed s = false.
Proof.
  intros H. apply not_true_iff_false. intros (x & Hx & ->%Z.eqb_eq)%existsb_exists. destruct Hx as [<- | [<- | []]]; discriminate H.
Qed.
Lemma on_memory_ok {A} w (step : list byte * Z * Z -> result IoError A * (list byte * Z * Z)) a w' :
  on_memory Memory w step = (Ok a, w') ->
  exists c o s c' o' s', cell w = Some (c, o, s) /\ step (c, o, s) = (Ok a, (c', o', s')) /\ w' = with_cell w (Some (c', o', s')).
Proof.
  unfold on_memory. destruct (cell w) as [[[c o] s]|]; [|by intros [=]]. destruct (step (c, o, s)) as [r [[c' o'] s']] eqn:E.
  intros [= -> <-]. by exists c, o, s, c', o', s'.
Qed.
Lemma kernel_memory : MemoryFiles kernel later content offset private immutable.
Proof.
  constructor.
  - intros name fl w f w'. cbn. destruct (cell w) as [c|]; [by intros [=]|]. intros [= <- <-]. split; [done|]. by cbn.
  - by intros f mode w w' Hp [= <-].
  - intros f bytes w w' [-> _] (c & o & s & c' & o' & s' & _ & _ & ->)%on_memory_ok. by split.
  - by intros f w w' Hp [= <-].
  - intros f w w' [-> _] (c & o & s & c' & o' & s' & E & [= -> -> ->] & ->)%on_memory_ok. unfold content, offset. rewrite E. by split_and!.
  - intros f n w bytes w' [-> _] (c & o & s & c' & o' & s' & E & [= <- -> -> ->] & ->)%on_memory_ok. unfold content, offset. rewrite E.
    by split_and!.
  - intros f mask w w' [-> _] (c & o & s & c' & o' & s' & E & Hs & ->)%on_memory_ok. unfold content. rewrite E. cbn.
    destruct (unsealed s); [injection Hs as -> -> _|discriminate Hs]. by split.
  - intros f w seals w' [-> _] (c & o & s & c' & o' & s' & E & [= -> -> -> ->] & ->)%on_memory_ok Hs%required_sealed.
    split; [split; [done|by exists c', o', s']|]. unfold content. by rewrite E.
  - intros f w w' Hl [-> (c & o & s & E & Hs)]. destruct (Hl _ _ _ E Hs) as [o' E']. split; [split; [done|by exists c, o', s]|].
    unfold content. by rewrite E, E'.
Qed.
End Toy.
Import Toy.

Lemma linux_presents_tree_witness :
  presents holds top Sample.listing /\
  match LinuxFiles.inventory top 10 100 start with (Ok l, w') => l = map fst Sample.listing | _ => False end.
Proof.
  assert (presents holds top Sample.listing) as Hd by (exists 0%nat, (mkDirEntry "" root_identity); split_and!; reflexivity).
  split; [exact Hd|]. pose proof (proj1 (linux_presents_tree kernel holds streams pending kernel_static)) as HT.
  destruct (LinuxFiles.inventory top 10 100 start) as [[l|e] w'] eqn:E.
  - apply (presents_inventory top Sample.listing 10 100 start l w' Hd). by apply observe_ok.
  - exfalso. assert (match LinuxFiles.inventory top 10 100 start with (Ok _, _) => true | _ => false end = true) as H by (vm_compute; reflexivity).
    rewrite E in H. discriminate H.
Defined.

Lemma linux_loops_end_witness :
  ~ stuck (LinuxFiles.inventory top 10 100 start).1 /\ ~ stuck (fill_random 32 32 start).1 /\
  match fill_random 32 32 start with (Ok bytes, _) => len bytes = 32 | _ => False end.
Proof.
  pose proof (linux_loops_end kernel) as (H1 & _ & H3). split; [|split].
  - exact (H1 _ kernel_dots top 10 100 start _ _ (surjective_pairing _)).
  - assert (interrupted_finitely (fun _ : world => 0%nat)) as Hi by by intros n w r w' [= <- <-].
    exact (proj1 (H3 (fun _ => 0%nat) 32%nat 32 start _ _ ltac:(lia) Hi ltac:(cbn; lia) (surjective_pairing _))).
  - vm_compute. reflexivity.
Defined.

Lemma sealing_keeps_witness :
  match seal_data_file_bytes "keep" [x01; x02] 10 256 start with
  | (Ok s, w') => content (sealed_file s) w' = [x01; x02] | _ => False
  end.
Proof.
  destruct (seal_data_file_bytes "keep" [x01; x02] 10 256 start) as [[s|e] w'] eqn:E.
  - exact (proj1 (proj1 (sealing_keeps kernel later content offset private immutable kernel_memory "keep"%string [x01; x02] 10 256 start w' w' s
      ltac:(unfold u64_max; lia) (later_refl w')) E)).
  - exfalso. assert (match seal_data_file_bytes "keep" [x01; x02] 10 256 start with (Ok _, _) => true | _ => false end = true) as H by (vm_compute; reflexivity).
    rewrite E in H. discriminate H.
Defined.
