(* ===== verification/Seccomp.v ===== *)
(** * The system call filter ([linux-abi/src/lib.rs], [install_objective3_seccomp_filter])

    The classic BPF program that is handed to the kernel, instruction by instruction, and
    the order of the two calls that install it. *)

From S2P Require Import Prelude Libc World.

(** ** Numbers *)

Definition AUDIT_ARCH_X86_64 : Z := 0xc000003e.
Definition SECCOMP_DATA_NR_OFFSET : Z := 0.
Definition SECCOMP_DATA_ARCH_OFFSET : Z := 4.
Definition SECCOMP_DATA_ARGUMENT_ZERO_OFFSET : Z := 16.
Definition BPF_LD_W_ABS : Z := 0x20.
Definition BPF_JMP_JEQ_K : Z := 0x15.
Definition BPF_JMP_JSET_K : Z := 0x45.
Definition BPF_RET_K : Z := 0x06.

(** ** The program *)

(** [libc::sock_filter]: a 16-bit code, two 8-bit jumps, a 32-bit constant. *)
Record sock_filter : Set := mkFilter { code : Z; jt : Z; jf : Z; k : Z }.
Definition statement (c value : Z) : sock_filter := mkFilter c 0 0 value.
Definition jump_equal (value jump_true jump_false : Z) : sock_filter := mkFilter BPF_JMP_JEQ_K jump_true jump_false value.
Definition jump_bits_set (value jump_true jump_false : Z) : sock_filter := mkFilter BPF_JMP_JSET_K jump_true jump_false value.

Definition denied : list Z :=
  [SYS_mount; SYS_umount2; SYS_pivot_root; SYS_move_mount; SYS_fsopen; SYS_fsconfig; SYS_fsmount; SYS_open_tree;
   SYS_mount_setattr; SYS_unshare; SYS_setns; SYS_ptrace; SYS_process_vm_writev; SYS_bpf; SYS_perf_event_open;
   SYS_keyctl; SYS_add_key; SYS_request_key; SYS_kexec_load; SYS_kexec_file_load; SYS_reboot; SYS_swapon;
   SYS_swapoff; SYS_init_module; SYS_finit_module; SYS_delete_module; SYS_open_by_handle_at; SYS_userfaultfd;
   SYS_io_uring_setup; SYS_io_uring_enter; SYS_io_uring_register; SYS_acct; SYS_quotactl; SYS_settimeofday;
   SYS_clock_settime; SYS_adjtimex; SYS_iopl; SYS_ioperm; SYS_vhangup; SYS_fanotify_init].
Definition namespace_clone_flags : Z :=
  fold_left Z.lor [CLONE_NEWCGROUP; CLONE_NEWUTS; CLONE_NEWIPC; CLONE_NEWUSER; CLONE_NEWPID; CLONE_NEWNET; CLONE_NEWTIME] CLONE_NEWNS.
(** [libc::SECCOMP_RET_ERRNO | errno as u32] *)
Definition refuse (errno : Z) : sock_filter := statement BPF_RET_K (Z.lor SECCOMP_RET_ERRNO errno).
Definition deny (syscall : Z) : list sock_filter := [jump_equal syscall 0 1; refuse EPERM].
Definition objective3_program : list sock_filter :=
  [statement BPF_LD_W_ABS SECCOMP_DATA_ARCH_OFFSET;
   jump_equal AUDIT_ARCH_X86_64 1 0;
   statement BPF_RET_K SECCOMP_RET_KILL_PROCESS;
   statement BPF_LD_W_ABS SECCOMP_DATA_NR_OFFSET;
   jump_equal SYS_clone 0 4;
   statement BPF_LD_W_ABS SECCOMP_DATA_ARGUMENT_ZERO_OFFSET;
   jump_bits_set namespace_clone_flags 0 1;
   refuse EPERM;
   statement BPF_LD_W_ABS SECCOMP_DATA_NR_OFFSET;
   jump_equal SYS_clone3 0 1;
   refuse ENOSYS]
  ++ flat_map deny denied
  ++ [statement BPF_RET_K SECCOMP_RET_ALLOW].

(** ** Installation *)

(** What the kernel is asked; [None] is its error. *)
Class SeccompHost (W : Type) := {
  set_no_new_privileges : W -> option unit * W;
  set_seccomp_filter : list sock_filter -> W -> option unit * W
}.
Inductive seccomp_error : Set := UnsupportedArchitecture | InvalidProgram (message : string) | LastOsError.
Definition install_objective3_seccomp_filter {W : Type} `{SeccompHost W} (x86_64 : bool) : io seccomp_error W unit :=
  refuse_if negb x86_64 with UnsupportedArchitecture ;;
  refuse_if 65535 <? len objective3_program with InvalidProgram "seccomp program exceeds u16" ;;
  let! _ := ask LastOsError set_no_new_privileges in
  ask LastOsError (set_seccomp_filter objective3_program).
