(* ===== verification/SeccompFacts.v ===== *)
(** * Theorems on the system call filter

    The verdict of the program on every call, for every machine that executes the four
    classic BPF instructions it uses as documented. *)

From S2P Require Import Prelude Libc World Seccomp.

(** ** Calls and machines *)

(** [struct seccomp_data]: the number and the architecture are 32-bit, the arguments
    64-bit words. *)
Record call : Type := mkCall { nr : Z; arch : Z; arguments : list Z }.
Definition argument_zero (c : call) : Z := nth 0 (arguments c) 0.
(** The little-endian words at the offsets that the program loads from. *)
Definition word (c : call) (offset : Z) : option Z :=
  if offset =? SECCOMP_DATA_NR_OFFSET then Some (nr c)
  else if offset =? SECCOMP_DATA_ARCH_OFFSET then Some (arch c)
  else if offset =? SECCOMP_DATA_ARGUMENT_ZERO_OFFSET then Some (argument_zero c mod 2 ^ 32)
  else None.

(** [run p pc a c]: the verdict of [p] on [c] from instruction [pc] with accumulator [a]. *)
Class ClassicBpf (run : list sock_filter -> nat -> Z -> call -> option Z) : Prop := {
  run_load p pc a c offset w : p !! pc = Some (statement BPF_LD_W_ABS offset) -> word c offset = Some w ->
    run p pc a c = run p (S pc) w c;
  run_jump_equal p pc a c value t f : p !! pc = Some (jump_equal value t f) ->
    run p pc a c = run p (S pc + Z.to_nat (if (a =? value)%Z then t else f))%nat a c;
  run_jump_bits p pc a c value t f : p !! pc = Some (jump_bits_set value t f) ->
    run p pc a c = run p (S pc + Z.to_nat (if negb (Z.land a value =? 0)%Z then t else f))%nat a c;
  run_return p pc a c verdict : p !! pc = Some (statement BPF_RET_K verdict) -> run p pc a c = Some verdict
}.

(** ** The policy *)

Definition ERRNO (e : Z) : Z := Z.lor SECCOMP_RET_ERRNO e.
Definition objective3_policy (c : call) : Z :=
  if negb (arch c =? AUDIT_ARCH_X86_64) then SECCOMP_RET_KILL_PROCESS
  else if (nr c =? SYS_clone) && negb (Z.land (argument_zero c) namespace_clone_flags =? 0) then ERRNO EPERM
  else if nr c =? SYS_clone3 then ERRNO ENOSYS
  else if existsb (Z.eqb (nr c)) denied then ERRNO EPERM
  else SECCOMP_RET_ALLOW.
(** What the kernel asks of a program: forward jumps inside it, a return at its end, and
    at most 4,096 instructions. *)
Definition well_formed (p : list sock_filter) : bool :=
  forallb (fun pi : nat * sock_filter =>
             let next := Z.of_nat pi.1 + 1 in
             if (code pi.2 =? BPF_JMP_JEQ_K) || (code pi.2 =? BPF_JMP_JSET_K)
             then (next + jt pi.2 <? len p) && (next + jf pi.2 <? len p)
             else (code pi.2 =? BPF_RET_K) || (next <? len p))
          (zip (seq 0 (length p)) p) && (len p <=? 4096).

Module Filter.
Section machine.
Context (run : list sock_filter -> nat -> Z -> call -> option Z) {HB : ClassicBpf run}.

(** The instruction at [pc] is the first of what follows. *)
Lemma drop_at {A} (p : list A) pc x rest : drop pc p = x :: rest -> p !! pc = Some x /\ drop (S pc) p = rest.
Proof.
  intros H. split; [(rewrite <- (Nat.add_0_r pc), <- lookup_drop, H; done)|].
  replace (S pc) with (pc + 1)%nat by lia. by rewrite <- drop_drop, H.
Qed.
Lemma denied_verdict p l pc c : drop pc p = flat_map deny l ++ [statement BPF_RET_K SECCOMP_RET_ALLOW] ->
  run p pc (nr c) c = Some (if existsb (Z.eqb (nr c)) l then ERRNO EPERM else SECCOMP_RET_ALLOW).
Proof.
  revert pc. induction l as [|n l IH]; intros pc H.
  - apply drop_at in H as [H _]. by apply run_return.
  - apply drop_at in H as [Hj H]. rewrite (run_jump_equal _ _ _ _ _ _ _ Hj). cbn [existsb].
    apply drop_at in H as [Hr H]. destruct (Z.eqb_spec (nr c) n) as [->|]; cbn [orb].
    + change (S pc + Z.to_nat 0)%nat with (S pc + 0)%nat. rewrite Nat.add_0_r. by apply run_return.
    + replace (S pc + Z.to_nat 1)%nat with (S (S pc)) by lia. by apply IH.
Qed.
Lemma low_word a : Z.land (a mod 2 ^ 32) namespace_clone_flags = Z.land a namespace_clone_flags.
Proof.
  rewrite <- Z.land_ones by lia. rewrite <- Z.land_assoc. by change (Z.land (Z.ones 32) namespace_clone_flags) with namespace_clone_flags.
Qed.
Lemma existsb_denied c n : nr c = n -> n ∉ denied -> existsb (Z.eqb (nr c)) denied = false.
Proof.
  intros -> Hn. apply not_true_iff_false. intros (m & Hm & ->%Z.eqb_eq)%existsb_exists. by apply Hn, list_elem_of_In.
Qed.

Lemma program_verdict c : run objective3_program 0 0 c = Some (objective3_policy c).
Proof.
  unfold objective3_policy.
  rewrite (run_load _ 0 _ c SECCOMP_DATA_ARCH_OFFSET (arch c)) by reflexivity.
  rewrite (run_jump_equal _ 1 _ c AUDIT_ARCH_X86_64 1 0) by reflexivity. destruct (arch c =? AUDIT_ARCH_X86_64); cbn [negb];
    [|by apply (run_return _ 2)].
  change (2 + Z.to_nat 1)%nat with 3%nat. rewrite (run_load _ 3 _ c SECCOMP_DATA_NR_OFFSET (nr c)) by reflexivity.
  rewrite (run_jump_equal _ 4 _ c SYS_clone 0 4) by reflexivity.
  assert (run objective3_program 9 (nr c) c =
    Some (if nr c =? SYS_clone3 then ERRNO ENOSYS else if existsb (Z.eqb (nr c)) denied then ERRNO EPERM else SECCOMP_RET_ALLOW)) as Hrest.
  { rewrite (run_jump_equal _ 9 _ c SYS_clone3 0 1) by reflexivity. destruct (nr c =? SYS_clone3); [by apply (run_return _ 10)|].
    by apply denied_verdict. }
  destruct (nr c =? SYS_clone); cbn [andb]; [|exact Hrest].
  change (5 + Z.to_nat 0)%nat with 5%nat.
  rewrite (run_load _ 5 _ c SECCOMP_DATA_ARGUMENT_ZERO_OFFSET (argument_zero c mod 2 ^ 32)) by reflexivity.
  rewrite (run_jump_bits _ 6 _ c namespace_clone_flags 0 1) by reflexivity. rewrite low_word.
  destruct (Z.land (argument_zero c) namespace_clone_flags =? 0); cbn [negb]; [|by apply (run_return _ 7)].
  change (7 + Z.to_nat 1)%nat with 8%nat. rewrite (run_load _ 8 _ c SECCOMP_DATA_NR_OFFSET (nr c)) by reflexivity. exact Hrest.
Qed.
End machine.
End Filter.
Import Filter.

(** C28. On every call the installed program answers the policy: another architecture
    kills the process, [clone] with a namespace flag and the forty listed system calls
    fail with [EPERM], [clone3] fails with [ENOSYS], and all else is allowed.  In
    particular a listed call made through its x32 number is allowed.  The program is
    one the kernel takes, and it is set only after the privileges are given up. *)
Theorem objective3_filter_exact (run : list sock_filter -> nat -> Z -> call -> option Z) (HB : ClassicBpf run) c :
  run objective3_program 0%nat 0 c = Some (objective3_policy c) /\
  (forall n, n ∈ denied -> arch c = AUDIT_ARCH_X86_64 -> nr c = n + 2 ^ 30 -> run objective3_program 0%nat 0 c = Some SECCOMP_RET_ALLOW) /\
  well_formed objective3_program = true /\
  forall (W : Type) (HW : SeccompHost W) (w w' : W) x86_64, install_objective3_seccomp_filter x86_64 w = (Ok tt, w') <->
    x86_64 = true /\ exists w1, set_no_new_privileges w = (Some tt, w1) /\ set_seccomp_filter objective3_program w1 = (Some tt, w').
Proof.
  split; [by apply program_verdict|]. split; [|split; [vm_compute; reflexivity|]].
  - intros n Hn Ha Hnr. rewrite program_verdict by done. unfold objective3_policy. rewrite Ha, Hnr. change (AUDIT_ARCH_X86_64 =? AUDIT_ARCH_X86_64) with true.
    cbn [negb]. assert (forallb (fun n => negb (n + 2 ^ 30 =? SYS_clone) && negb (n + 2 ^ 30 =? SYS_clone3) &&
      negb (existsb (Z.eqb (n + 2 ^ 30)) denied)) denied = true) as H by (vm_compute; reflexivity).
    rewrite forallb_forall in H. specialize (H n (proj1 (list_elem_of_In _ _) Hn)).
    apply andb_true_iff in H as [[->%negb_true_iff ->%negb_true_iff]%andb_true_iff ->%negb_true_iff]. reflexivity.
  - intros W HW w w' [|]; split; [|intros (_ & w1 & H1 & H2)|done|by intros [? _]].
    + change (install_objective3_seccomp_filter true) with
        (io_bind (ask LastOsError (set_no_new_privileges (W:=W))) (fun _ => ask LastOsError (set_seccomp_filter objective3_program))).
      intros ([] & w1 & H1%ask_ok & H2%ask_ok)%io_bind_ok. split; [done|]. by exists w1.
    + change (install_objective3_seccomp_filter true) with
        (io_bind (ask LastOsError (set_no_new_privileges (W:=W))) (fun _ => ask LastOsError (set_seccomp_filter objective3_program))).
      apply io_bind_ok. exists tt, w1. split; by apply ask_ok.
Qed.

(** A machine with these instructions. *)
Module Machine.

Fixpoint steps (fuel : nat) (p : list sock_filter) (pc : nat) (a : Z) (c : call) : option Z :=
  match fuel, p !! pc with
  | S fuel, Some i =>
      let jump (taken : bool) := steps fuel p (S pc + Z.to_nat (if taken then jt i else jf i))%nat a c in
      if code i =? BPF_LD_W_ABS then match word c (k i) with Some w => steps fuel p (S pc) w c | None => None end
      else if code i =? BPF_JMP_JEQ_K then jump (a =? k i)
      else if code i =? BPF_JMP_JSET_K then jump (negb (Z.land a (k i) =? 0))
      else if code i =? BPF_RET_K then Some (k i)
      else None
  | _, _ => None
  end.
Definition machine (p : list sock_filter) (pc : nat) (a : Z) (c : call) : option Z := steps (length p - pc) p pc a c.

Lemma steps_past fuel p pc a c : (length p <= pc)%nat -> steps fuel p pc a c = None.
Proof. intros H. destruct fuel; [done|]. cbn [steps]. by rewrite lookup_ge_None_2. Qed.
Lemma steps_enough f1 f2 p pc a c : (length p - pc <= f1)%nat -> (length p - pc <= f2)%nat -> steps f1 p pc a c = steps f2 p pc a c.
Proof.
  revert f2 pc a. induction f1 as [|f1 IH]; intros f2 pc a H1 H2; [rewrite !steps_past by lia; done|].
  destruct f2 as [|f2]; [rewrite !steps_past by lia; done|]. cbn [steps]. destruct (p !! pc) as [i|] eqn:E; [|done].
  apply lookup_lt_Some in E. repeat case_match; try done; apply IH; lia.
Qed.
Lemma machine_step p pc a c i : p !! pc = Some i ->
  machine p pc a c = steps (S (length p)) p pc a c /\ forall pc' a', (pc < pc')%nat -> steps (length p) p pc' a' c = machine p pc' a' c.
Proof. intros H%lookup_lt_Some. split; [apply steps_enough; lia|]. intros pc' a' Hp. apply steps_enough; lia. Qed.
#[export] Instance machine_bpf : ClassicBpf machine.
Proof.
  constructor.
  - intros p pc a c off w H Hw. destruct (machine_step _ _ a c _ H) as [-> Hn]. cbn [steps]. rewrite H.
    change (code (statement BPF_LD_W_ABS off) =? BPF_LD_W_ABS) with true. cbn [k statement]. rewrite Hw. apply Hn. lia.
  - intros p pc a c v t f H. destruct (machine_step _ _ a c _ H) as [-> Hn]. cbn [steps]. rewrite H. cbn [jump_equal code k jt jf].
    change (BPF_JMP_JEQ_K =? BPF_LD_W_ABS) with false. change (BPF_JMP_JEQ_K =? BPF_JMP_JEQ_K) with true. apply Hn. lia.
  - intros p pc a c v t f H. destruct (machine_step _ _ a c _ H) as [-> Hn]. cbn [steps]. rewrite H. cbn [jump_bits_set code k jt jf].
    change (BPF_JMP_JSET_K =? BPF_LD_W_ABS) with false. change (BPF_JMP_JSET_K =? BPF_JMP_JEQ_K) with false.
    change (BPF_JMP_JSET_K =? BPF_JMP_JSET_K) with true. apply Hn. lia.
  - intros p pc a c v H. destruct (machine_step _ _ a c _ H) as [-> _]. cbn [steps]. by rewrite H.
Qed.
End Machine.
Import Machine.

Definition mount_call (number : Z) : call := mkCall number AUDIT_ARCH_X86_64 [0; 0; 0; 0; 0; 0].
Lemma objective3_filter_exact_witness :
  machine objective3_program 0 0 (mount_call SYS_mount) = Some (ERRNO EPERM) /\
  machine objective3_program 0 0 (mount_call (SYS_mount + 2 ^ 30)) = Some SECCOMP_RET_ALLOW.
Proof.
  split.
  - exact (proj1 (objective3_filter_exact machine machine_bpf (mount_call SYS_mount))).
  - apply (proj1 (proj2 (objective3_filter_exact machine machine_bpf (mount_call (SYS_mount + 2 ^ 30)))) SYS_mount); [by left| |]; reflexivity.
Defined.
