(* ===== verification/Shim.v ===== *)
(** * The confinement shim ([prober-vmm-shim/src/main.rs], [linux-abi/src/lib.rs])

    The process that the jailer starts: it checks the handoff, opens what the machine
    monitor needs, restricts itself with Landlock, tries two forbidden operations, and
    becomes the monitor.  Its system calls are the interface [ShimHost]. *)

From S2P Require Import Prelude GuestResult Launch Landlock World.

Definition ACTUAL_VMM_PATH : string := "/firecracker-vmm".
Definition PROJECT_PATH : string := "/project.ext4".
Definition KVM_PATH : string := "/dev/kvm".
Definition DENIED_CANARY_PATH : string := "/landlock-denied-canary".
Definition CREATED_CANARY_PATH : string := "/landlock-created-canary".
Definition SECCOMP_MARKER_PREFIX : string := "[keep-prober-seccomp]".

(** How a path is opened. *)
Inductive OpenMode : Set := ReadOnly | ReadWrite | WriteOnly | CreateNew.
Class ShimHost (F W : Type) := {
  environment_is_empty : W -> bool * W;
  open_path : string -> OpenMode -> W -> result (option Z) F * W;
  landlock_abi_version : W -> option Z * W;
  landlock_create_ruleset : LandlockPolicyObservation -> W -> option F * W;
  landlock_add_rule : F -> Z -> F -> W -> option unit * W;
  set_no_new_privileges : W -> option unit * W;
  landlock_restrict_self : F -> W -> option unit * W;
  eprintln : list byte -> W -> W;
  spawn_and_wait : string -> list string -> W -> option (option Z) * W;
  exec : string -> list string -> W -> bool * W
}.

Section shim.
Context {F W : Type} {HH : ShimHost F W}.
Abbreviation shim A := (io string W A).

(** ** Rulesets ([LandlockRuleset]) *)

Record LandlockRuleset : Type := mkRuleset { ruleset : F; observation : LandlockPolicyObservation }.
(** [u32::try_from] *)
Definition abi_in_u32 (abi : Z) : bool := (0 <=? abi) && (abi <=? u32_max).
(** The errors of these operations are all mapped to the caller's message [e]. *)
Definition new_ruleset (minimum_abi : Z) (e : string) : shim LandlockRuleset :=
  let! abi := ask e landlock_abi_version in
  refuse_if negb (abi_in_u32 abi) with e ;;
  refuse_if abi <? minimum_abi with e ;;
  let! policy := pure (ok_or (reviewed_landlock_policy abi) (Error e)) in
  let! file := ask e (landlock_create_ruleset policy) in
  io_ret (mkRuleset file policy).
Definition add_path (r : LandlockRuleset) (path : F) (allowed_access : Z) (e : string) : shim unit :=
  refuse_if grants_unhandled (observation r) allowed_access with e ;;
  ask e (landlock_add_rule (ruleset r) allowed_access path).
Definition allow_read_only (r : LandlockRuleset) (path : F) (e : string) : shim unit := add_path r path read_only_rights e.
Definition allow_read_write (r : LandlockRuleset) (path : F) (e : string) : shim unit := add_path r path (read_write_rights (observation r)) e.
Definition allow_read_write_file (r : LandlockRuleset) (path : F) (e : string) : shim unit := add_path r path read_write_file_rights e.
Definition allow_device (r : LandlockRuleset) (path : F) (e : string) : shim unit := add_path r path (device_rights (observation r)) e.
Definition restrict_self (r : LandlockRuleset) (e : string) : shim Z :=
  let! _ := ask e set_no_new_privileges in
  let! _ := ask e (landlock_restrict_self (ruleset r)) in
  io_ret (abi (observation r)).

(** ** The program *)

(** [unwrap_or_else(|_| fail(message))] of an open. *)
Definition opened (path : string) (mode : OpenMode) (message : string) : shim F :=
  fun w => match open_path path mode w with (Ok f, w) => (Ok f, w) | (Err _, w) => (Err (Error message), w) end.
Definition exact_denial (path : string) (mode : OpenMode) (message : string) : shim unit :=
  fun w =>
    match open_path path mode w with
    | (Err (Some errno), w) =>
        if errno =? 13 then (Ok tt, w) else (Err (Error "Landlock canary returned the wrong error class"%string), w)
    | (Ok _, w) => (Err (Error message), w)
    | (Err None, w) => (Err (Error "Landlock canary returned the wrong error class"%string), w)
    end.
Definition say (line : list byte) : shim unit := fun w => (Ok tt, eprintln line w).

(** The rules and the restriction; the result is the ABI and what was observed. *)
Definition confine (root project kvm : F) : shim (Z * LandlockPolicyObservation) :=
  let! r := new_ruleset 4 "reviewed Landlock ABI was not available" in
  let! _ := allow_read_only r root "read-only jail rule was refused" in
  let! _ := allow_read_write_file r project "project-image write rule was refused" in
  let! _ := allow_device r kvm "KVM-device rule was refused" in
  let! restricted_abi := restrict_self r "Landlock activation was refused" in
  let! _ := exact_denial DENIED_CANARY_PATH WriteOnly "Landlock admitted a forbidden existing-file write" in
  let! _ := exact_denial CREATED_CANARY_PATH CreateNew "Landlock admitted a forbidden file creation" in
  io_ret (restricted_abi, observation r).

(** How the process ends without an error: as the monitor, or after the canary. *)
Inductive outcome : Set := BecameVmm | CanaryTerminated.
Definition main (arguments : list string) : shim outcome :=
  let! empty := total environment_is_empty in
  refuse_if negb empty with "jailer environment was not empty"%string ;;
  let! mode := pure (map_err Error (validate_jailer_handoff arguments)) in
  let! root := opened "/" ReadOnly "private jail root was not readable" in
  let! project := opened PROJECT_PATH ReadWrite "writable project image was not available" in
  let! kvm := opened KVM_PATH ReadWrite "private KVM device was not available" in
  let! _ := opened DENIED_CANARY_PATH ReadWrite "pre-Landlock writable canary was not writable" in
  let! (restricted_abi, observed) := confine root project kvm in
  let! _ := say (shim_marker restricted_abi observed) in
  match mode with
  | SeccompCanary =>
      let! signal := ask "measured seccomp-canary VMM spawn failed"%string (spawn_and_wait ACTUAL_VMM_PATH (take 13 arguments)) in
      refuse_if negb (bool_decide (signal = Some 31)) with "measured seccomp-canary VMM did not terminate with SIGSYS"%string ;;
      let! _ := say (str_bytes (SECCOMP_MARKER_PREFIX +:+ " signal=31")) in
      io_ret CanaryTerminated
  | Exec =>
      let! replaced := total (exec ACTUAL_VMM_PATH arguments) in
      refuse_if negb replaced with "measured VMM exec failed"%string ;;
      io_ret BecameVmm
  end.
End shim.
Arguments LandlockRuleset : clear implicits.
