(* ===== verification/Cell.v ===== *)
(** * The build cell ([p2-d2-supervisor/src/main.rs])

    The process inside the sandbox: it opens the roots of the build, restricts itself
    with Landlock and with the system call filter, measures the result, and becomes
    Cargo or probes the network.  Its further system calls are the interface [CellHost]. *)

From S2P Require Import Prelude Launch Landlock World Seccomp Shim.

(** [None] is an error of the call, except where only success is asked for. *)
Class CellHost (W : Type) := {
  read_status : W -> option string * W;
  no_new_privileges_active : W -> option bool * W;
  tcp_bind : string -> W -> bool * W;
  tcp_connect : string -> W -> bool * W;
  udp_bind : string -> W -> option unit * W;
  udp_connect : string -> W -> bool * W;
  udp_send : list byte -> W -> bool * W;
  exec_command : string -> list string -> string -> list (string * string) -> W -> bool * W
}.

Definition cargo_arguments (mode : string) : option (list string) :=
  if bool_decide (mode = "metadata-unlocked"%string) then Some ["metadata"; "--offline"; "--format-version"; "1"]%string
  else if bool_decide (mode = "metadata-locked"%string) then Some ["metadata"; "--locked"; "--offline"; "--format-version"; "1"]%string
  else if bool_decide (mode = "check"%string)
  then Some ["check"; "--locked"; "--offline"; "--frozen"; "--all-targets"; "--message-format=json"]%string
  else None.
Definition READ_ONLY_PATHS : list string :=
  ["/usr"; "/bin"; "/lib"; "/lib64"; "/proc"; "/keep/toolchain"; "/keep/vendor"; "/keep/result"]%string.
Definition READ_WRITE_PATHS : list string := ["/work"; "/tmp"; "/dev"]%string.
Definition CARGO : string := "/keep/toolchain/bin/cargo".
(** A double quote. *)
Definition quote : string := str_of_bytes [x22].
Definition CARGO_ENVIRONMENT : list (string * string) :=
  [("PATH", "/keep/toolchain/bin:/usr/bin:/bin"); ("HOME", "/work/.home"); ("LANG", "C"); ("LC_ALL", "C"); ("TZ", "UTC");
   ("SOURCE_DATE_EPOCH", "0"); ("RUSTUP_TOOLCHAIN", "1.97.1-x86_64-unknown-linux-gnu"); ("CARGO_HOME", "/work/.cargo-home");
   ("CARGO_NET_OFFLINE", "true"); ("CARGO_INCREMENTAL", "0"); ("CARGO_TARGET_DIR", "/work/target");
   ("RUSTC", "/keep/toolchain/bin/rustc"); ("RUSTDOC", "/keep/toolchain/bin/rustdoc");
   ("RUSTFLAGS", "--cfg=curve25519_dalek_backend=" +:+ quote +:+ "fiat" +:+ quote +:+ " --cfg=curve25519_dalek_bits=" +:+ quote +:+ "64" +:+ quote)]%string.
Definition CAPABILITY_PREFIXES : list string :=
  map (fun name => name +:+ ":" +:+ str_of_bytes [x09]) ["CapInh"; "CapPrm"; "CapEff"; "CapBnd"; "CapAmb"]%string.

(** [status.lines().find_map(|line| line.strip_prefix(prefix))], and whether a line has
    that value. *)
Definition first_value (prefix status : string) : option string := head (omap (strip_prefix prefix) (lines status)).
Definition some_value (prefix value status : string) : bool :=
  existsb (fun line => bool_decide (strip_prefix prefix line = Some value)) (lines status).
Definition capabilities_are_zero (status : string) : bool :=
  forallb (fun prefix => some_value prefix "0000000000000000" status) CAPABILITY_PREFIXES.

Inductive cell_outcome : Set := BecameCargo | NetworkRefused.

Section cell.
Context {F W : Type} {HH : ShimHost F W} {HS : SeccompHost W} {HC : CellHost W}.
Abbreviation cell A := (io string W A).

(** [paths.map(f)], in the order of the paths. *)
Fixpoint open_all (message : string) (paths : list string) : cell (list F) :=
  match paths with
  | [] => io_ret []
  | path :: paths => let! f := opened path ReadOnly message in let! fs := open_all message paths in io_ret (f :: fs)
  end.
Fixpoint allow_all (allow : F -> cell unit) (files : list F) : cell unit :=
  match files with [] => io_ret tt | f :: files => let! _ := allow f in allow_all allow files end.
(** The errors of the filter are all mapped to the caller's message [e]. *)
Definition install_filter (e : string) (x86_64 : bool) : cell unit :=
  fun w =>
    match install_objective3_seccomp_filter x86_64 w with
    | (Err (Error _), w) => (Err (Error e), w)
    | (Ok u, w) => (Ok u, w)
    | (Err Panic, w) => (Err Panic, w)
    | (Err OutOfFuel, w) => (Err OutOfFuel, w)
    end.
(** The restriction; the result is the ABI. *)
Definition confine_cell (x86_64 : bool) : cell Z :=
  let! read_only := open_all "required read-only root is absent" READ_ONLY_PATHS in
  let! read_write := open_all "required writable root is absent" READ_WRITE_PATHS in
  let! r := new_ruleset 4 "Landlock ABI or ruleset construction refused" in
  let! _ := allow_all (fun path => allow_read_only r path "read-only Landlock rule refused") read_only in
  let! _ := allow_all (fun path => allow_read_write r path "read-write Landlock rule refused") read_write in
  let! landlock_abi := restrict_self r "Landlock activation refused" in
  let! _ := install_filter "seccomp activation refused" x86_64 in
  io_ret landlock_abi.
(** What the process measures of itself afterwards. *)
Definition measured (status : string) (privileges : option bool) (seccomp_mode : string) : bool :=
  default false privileges && bool_decide (seccomp_mode = "2"%string) && capabilities_are_zero status.
Definition measure : cell unit :=
  let! status := ask "post-confinement process status is unreadable"%string read_status in
  let! seccomp_mode := pure (ok_or (first_value ("Seccomp:" +:+ str_of_bytes [x09]) status)
                               (Error "post-confinement seccomp measurement is absent"%string)) in
  let! privileges := total no_new_privileges_active in
  refuse_if negb (measured status privileges seccomp_mode)
    with "post-confinement privilege/seccomp/capability measurement disagreed"%string ;;
  io_ret tt.
(** A disjunction or conjunction of calls stops at the first that decides. *)
Definition probe_network : cell cell_outcome :=
  let! bound := total (tcp_bind "0.0.0.0:0") in
  let! reached := if bound then io_ret true else total (tcp_connect "198.51.100.1:443") in
  refuse_if reached with "Landlock admitted a forbidden TCP operation"%string ;;
  let! _ := ask "local UDP probe socket construction failed"%string (udp_bind "0.0.0.0:0") in
  let! connected := total (udp_connect "198.51.100.1:53") in
  let! sent := if connected then total (udp_send (str_bytes "keep-network-refusal")) else io_ret false in
  refuse_if sent with "isolated network namespace admitted an external UDP datagram"%string ;;
  io_ret NetworkRefused.
Definition cell_marker (mode : string) (landlock_abi : Z) : list byte :=
  str_bytes ("[keep-p2-d2-cell] mode=" +:+ mode +:+ " landlockAbi=" +:+ number landlock_abi +:+ " noNewPrivs=1 seccomp=2 capabilities=zero").
(** [arguments] are those after the name of the program. *)
Definition cell_main (x86_64 : bool) (arguments : list string) : cell cell_outcome :=
  let! mode := pure (match arguments with
                     | [] => Err (Error "one command mode is required"%string)
                     | [mode] => Ok mode
                     | _ => Err (Error "extra arguments are forbidden"%string)
                     end) in
  let! landlock_abi := confine_cell x86_64 in
  let! _ := measure in
  let! _ := say (cell_marker mode landlock_abi) in
  if bool_decide (mode = "probe-network"%string) then probe_network else
  let! arguments := pure (ok_or (cargo_arguments mode) (Error "unknown closed command mode"%string)) in
  let! replaced := total (exec_command CARGO arguments "/work" CARGO_ENVIRONMENT) in
  refuse_if negb replaced with "Cargo exec failed"%string ;;
  io_ret BecameCargo.
End cell.
