(* ===== verification/ShimFacts.v ===== *)
(** * Theorems on the confinement shim

    The machine monitor is started only by a process that has restricted itself. *)

From S2P Require Import Prelude GuestResult Launch Landlock World Seccomp Shim.

(** What the shim and the build cell ask of the kernel, in order. *)
Inductive action {F : Type} : Type :=
| Opened (path : string) (mode : OpenMode) (result : Prelude.result (option Z) F)
| Created (policy : LandlockPolicyObservation) (ruleset : F)
| Ruled (ruleset : F) (rights : Z) (path : F)
| GaveUpPrivileges
| Restricted (ruleset : F)
| Said (line : list byte)
| Spawned (path : string) (arguments : list string) (signal : option Z)
| Executed (path : string) (arguments : list string) (replaced : bool)
| Filtered (program : list sock_filter)
| Ran (program : string) (arguments : list string) (directory : string) (environment : list (string * string)) (replaced : bool).
Arguments action : clear implicits.
Definition starts {F} (a : action F) : Prop := match a with Spawned _ _ _ | Executed _ _ _ | Ran _ _ _ _ _ => True | _ => False end.

(** Each operation that succeeds is one entry of the record; looking at the environment
    and at the version of the interface is none. *)
Class ShimRecord {F W : Type} (HH : ShimHost F W) (record : W -> list (action F)) : Prop := {
  looks_silent : silent record environment_is_empty /\ silent record landlock_abi_version;
  open_recorded path mode w : let '(r, w') := open_path path mode w in record w' = record w ++ [Opened path mode r];
  create_recorded p w : let '(r, w') := landlock_create_ruleset p w in
    record w' = record w ++ match r with Some f => [Created p f] | None => [] end;
  rule_recorded f rights path w : let '(r, w') := landlock_add_rule f rights path w in
    record w' = record w ++ match r with Some _ => [Ruled f rights path] | None => [] end;
  privileges_recorded w : let '(r, w') := set_no_new_privileges w in
    record w' = record w ++ match r with Some _ => [GaveUpPrivileges] | None => [] end;
  restrict_recorded f w : let '(r, w') := landlock_restrict_self f w in
    record w' = record w ++ match r with Some _ => [Restricted f] | None => [] end;
  said_recorded line w : record (eprintln line w) = record w ++ [Said line];
  spawn_recorded path arguments w : let '(r, w') := spawn_and_wait path arguments w in
    record w' = record w ++ match r with Some signal => [Spawned path arguments signal] | None => [] end;
  exec_recorded path arguments w : let '(r, w') := exec path arguments w in record w' = record w ++ [Executed path arguments r]
}.

(** The record of a confined process, for the files it holds open. *)
Definition preparation {F} (root project kvm canary : F) : list (action F) :=
  [Opened "/" ReadOnly (Ok root); Opened PROJECT_PATH ReadWrite (Ok project); Opened KVM_PATH ReadWrite (Ok kvm);
   Opened DENIED_CANARY_PATH ReadWrite (Ok canary)].
Definition confinement {F} (p : LandlockPolicyObservation) (f root project kvm : F) : list (action F) :=
  [Created p f; Ruled f read_only_rights root; Ruled f read_write_file_rights project; Ruled f (device_rights p) kvm;
   GaveUpPrivileges; Restricted f;
   Opened DENIED_CANARY_PATH WriteOnly (Err (Some 13)); Opened CREATED_CANARY_PATH CreateNew (Err (Some 13))].
(** A reviewed policy, none of whose rules grants more than it handles. *)
Definition sound_policy (p : LandlockPolicyObservation) : Prop :=
  reviewed_landlock_policy (abi p) = Some p /\ 4 <= abi p /\
  grants_unhandled p read_only_rights = false /\ grants_unhandled p read_write_file_rights = false /\ grants_unhandled p (device_rights p) = false.
Definition confined {F} (l : list (action F)) (p : LandlockPolicyObservation) : Prop :=
  exists root project kvm canary f, l = preparation root project kvm canary ++ confinement p f root project kvm ++ [Said (shim_marker (abi p) p)] /\ sound_policy p.
(** Nothing is started, or only at the end of the record of a confined process. *)
Definition start_of {F} (arguments : list string) (r : result (failure string) outcome) (a : action F) : Prop :=
  (a = Executed ACTUAL_VMM_PATH arguments true /\ validate_jailer_handoff arguments = Ok Exec /\ r = Ok BecameVmm) \/
  (a = Executed ACTUAL_VMM_PATH arguments false /\ validate_jailer_handoff arguments = Ok Exec /\ exists e, r = Err e) \/
  (exists signal, a = Spawned ACTUAL_VMM_PATH (take 13 arguments) signal /\ validate_jailer_handoff arguments = Ok SeccompCanary /\
    (signal = Some 31 -> r = Ok CanaryTerminated) /\ (signal <> Some 31 -> exists e, r = Err e)).
Definition ends_confined {F} (arguments : list string) (r : result (failure string) outcome) (l : list (action F)) : Prop :=
  (Forall (fun a => ~ starts a) l /\ exists e, r = Err e) \/
  exists before p a after, l = before ++ a :: after /\ confined before p /\ start_of arguments r a /\ Forall (fun a => ~ starts a) after.

Module Confined.
Section confined.
Context {F W : Type} {HH : ShimHost F W} (record : W -> list (action F)) {HR : ShimRecord HH record}.
Abbreviation adds := (World.adds (E:=string) record).

Ltac no_start := cbn [app]; repeat (apply Forall_cons; split; [by intros []|]); first [assumption|constructor].
Lemma opened_adds path mode message : adds (opened path mode message) (fun r l =>
  match r with Ok f => l = [Opened path mode (Ok f)] | Err _ => Forall (fun a => ~ starts a) l end).
Proof.
  intros w r w'. pose proof (open_recorded path mode w) as H. unfold opened. destruct (open_path path mode w) as [[f|e] w1];
    intros [= <- <-]; eexists; (split; [exact H|]); [done|]. no_start.
Qed.
Lemma exact_denial_adds path mode message : adds (exact_denial path mode message) (fun r l =>
  match r with Ok _ => l = [Opened path mode (Err (Some 13))] | Err _ => Forall (fun a => ~ starts a) l end).
Proof.
  intros w r w'. pose proof (open_recorded path mode w) as H. unfold exact_denial. destruct (open_path path mode w) as [[f|[e|]] w1].
  2: destruct (Z.eqb_spec e 13) as [->|].
  all: intros [= <- <-]; eexists; (split; [exact H|]); try done; no_start.
Qed.
Lemma add_path_adds r path rights e : adds (add_path r path rights e) (fun res l =>
  match res with Ok _ => l = [Ruled (ruleset r) rights path] /\ grants_unhandled (observation r) rights = false | Err _ => l = [] end).
Proof.
  unfold add_path. apply adds_guard; [done|intros Hg]. eapply adds_weaken; [apply adds_ask, rule_recorded|]. by intros [u|x] l.
Qed.
Lemma policy_abi a p : reviewed_landlock_policy a = Some p -> abi p = a.
Proof. unfold reviewed_landlock_policy. destruct (negb _); [done|]. by intros [= <-]. Qed.
Lemma new_ruleset_adds e : adds (new_ruleset 4 e) (fun res l =>
  match res with
  | Ok r => l = [Created (observation r) (ruleset r)] /\ reviewed_landlock_policy (abi (observation r)) = Some (observation r) /\ 4 <= abi (observation r)
  | Err _ => l = []
  end).
Proof.
  unfold new_ruleset. eapply quietly_then; [apply (quietly_ask _ _ _ (fun _ => True)); [apply looks_silent|done]|done|intros a _].
  apply adds_guard; [done|intros _]. apply adds_guard; [done|intros Ha%Z.ltb_ge].
  eapply quietly_then; [apply quietly_pure|done|intros p Hp%ok_or_ok].
  eapply adds_bind; [apply adds_ask, create_recorded|by intros x l ->|]. intros f l ->. apply adds_ret. cbn [observation ruleset].
  by rewrite (policy_abi _ _ Hp).
Qed.
Lemma restrict_adds r e : adds (restrict_self r e) (fun res l =>
  match res with Ok a => l = [GaveUpPrivileges; Restricted (ruleset r)] /\ a = abi (observation r) | Err _ => Forall (fun a => ~ starts a) l end).
Proof.
  unfold restrict_self. eapply adds_bind; [apply adds_ask, (fun w => privileges_recorded w)|intros x l ->; no_start|]. intros u l ->.
  eapply adds_bind; [apply adds_ask, restrict_recorded|intros x l ->; no_start|]. intros u' l ->. by apply adds_ret.
Qed.

(** A step that fails leaves no start; a step that succeeds adds [entry]. *)
Lemma adds_step {A B} (m : io string W A) (k : A -> io string W B) (done_with : A -> list (action F) -> Prop) (S : _ -> _ -> Prop) :
  adds m (fun r l => match r with Ok a => done_with a l | Err _ => Forall (fun a => ~ starts a) l end) ->
  (forall e l, Forall (fun a => ~ starts a) l -> S (Err e) l) ->
  (forall a l, done_with a l -> adds (k a) (fun r l' => S r (l ++ l'))) -> adds (io_bind m k) S.
Proof. intros Hm HE Hk. eapply adds_bind; [exact Hm|exact HE|exact Hk]. Qed.
Lemma empty_no_start {A} (m : io string W A) (Q : A -> list (action F) -> Prop) :
  adds m (fun r l => match r with Ok a => Q a l | Err _ => l = [] end) ->
  adds m (fun r l => match r with Ok a => Q a l | Err _ => Forall (fun a => ~ starts a) l end).
Proof. intros H. eapply adds_weaken; [exact H|]. intros [a|e] l; [done|]. intros ->. constructor. Qed.

Lemma confine_adds root project kvm : adds (confine root project kvm) (fun r l =>
  match r with
  | Ok (a, p) => exists f, l = confinement p f root project kvm /\ sound_policy p /\ a = abi p
  | Err _ => Forall (fun a => ~ starts a) l
  end).
Proof.
  unfold confine. eapply adds_step; [apply empty_no_start, new_ruleset_adds|done|]. intros r l (-> & Hr & Ha).
  eapply adds_step; [apply empty_no_start, add_path_adds|intros e l Hl; no_start|]. intros _ l (-> & H1).
  eapply adds_step; [apply empty_no_start, add_path_adds|intros e l Hl; no_start|]. intros _ l (-> & H2).
  eapply adds_step; [apply empty_no_start, add_path_adds|intros e l Hl; no_start|]. intros _ l (-> & H3).
  eapply adds_step; [apply restrict_adds|intros e l Hl; no_start|]. intros a l (-> & ->).
  eapply adds_step; [apply exact_denial_adds|intros e l Hl; no_start|]. intros _ l ->.
  eapply adds_step; [apply exact_denial_adds|intros e l Hl; no_start|]. intros _ l ->.
  apply adds_ret. exists (ruleset r). by split_and!.
Qed.

Lemma say_adds line : adds (say line) (fun r l => r = Ok tt /\ l = [Said line]).
Proof. intros w r w' [= <- <-]. exists [Said line]. by rewrite said_recorded. Qed.
Lemma unstarted arguments e l : Forall (fun a : action F => ~ starts a) l -> ends_confined arguments (Err e) l.
Proof. intros H. left. split; [done|by eexists]. Qed.
Lemma spawn_adds arguments before p : confined before p -> validate_jailer_handoff arguments = Ok SeccompCanary ->
  adds (let! signal := ask "measured seccomp-canary VMM spawn failed"%string (spawn_and_wait ACTUAL_VMM_PATH (take 13 arguments)) in
        refuse_if negb (bool_decide (signal = Some 31)) with "measured seccomp-canary VMM did not terminate with SIGSYS"%string ;;
        let! _ := say (str_bytes (SECCOMP_MARKER_PREFIX +:+ " signal=31")) in
        io_ret CanaryTerminated) (fun r l => Forall (fun a => ~ starts a) before -> ends_confined arguments r (before ++ l)).
Proof.
  intros Hb Hm. eapply adds_bind; [apply adds_ask, spawn_recorded| |].
  { intros e l -> Hs. rewrite app_nil_r. by apply unstarted. }
  intros signal l ->. assert (forall r l, (signal = Some 31 -> r = Ok CanaryTerminated) -> (signal <> Some 31 -> exists e, r = Err e) ->
    Forall (fun a : action F => ~ starts a) l -> ends_confined arguments r (before ++ [Spawned ACTUAL_VMM_PATH (take 13 arguments) signal] ++ l)) as Hend.
  { intros r l H1 H2 Hl. right. exists before, p, (Spawned ACTUAL_VMM_PATH (take 13 arguments) signal), l. split_and!; try done.
    right; right. by exists signal. }
  destruct (decide (signal = Some 31)) as [E|Hne].
  - rewrite bool_decide_eq_true_2 by done. cbn [negb]. eapply adds_bind; [apply say_adds|by intros e l []|].
    intros u l [_ ->]. apply adds_ret. intros _. apply Hend; [done|done|]. no_start.
  - rewrite bool_decide_eq_false_2 by done. cbn [negb]. intros w r w' [= <- <-]. exists []. rewrite app_nil_r. split; [done|]. intros _.
    apply (Hend _ []); [done| |constructor]. intros _. by eexists.
Qed.
Lemma exec_adds arguments before p : confined before p -> validate_jailer_handoff arguments = Ok Exec ->
  adds (let! replaced := total (exec ACTUAL_VMM_PATH arguments) in
        refuse_if negb replaced with "measured VMM exec failed"%string ;;
        io_ret BecameVmm) (fun r l => ends_confined arguments r (before ++ l)).
Proof.
  intros Hb Hm. eapply (adds_bind _ _ _ (fun r l => exists replaced, r = Ok replaced /\ l = [Executed ACTUAL_VMM_PATH arguments replaced])).
  - intros w r w'. pose proof (exec_recorded ACTUAL_VMM_PATH arguments w) as H. unfold total.
    destruct (exec _ _ w) as [b w1]. intros [= <- <-]. eexists. split; [exact H|]. by exists b.
  - by intros e l (? & ? & _).
  - intros b l (? & [= <-] & ->). assert (forall r, start_of arguments r (Executed ACTUAL_VMM_PATH arguments b : action F) ->
      ends_confined arguments r (before ++ [Executed ACTUAL_VMM_PATH arguments b] ++ [])) as Hend.
    { intros r Hs. right. by exists before, p, (Executed ACTUAL_VMM_PATH arguments b), []. }
    destruct b; cbn [negb].
    + apply adds_ret. apply Hend. by left.
    + intros w r w' [= <- <-]. exists []. rewrite app_nil_r. split; [done|]. apply Hend. right; left. split_and!; [done..|by eexists].
Qed.
Lemma main_adds arguments : adds (main arguments) (ends_confined arguments).
Proof.
  unfold main. eapply quietly_then; [apply (quietly_total _ _ (fun _ => True)); [apply looks_silent|done]|by intros e; apply unstarted|intros empty _].
  apply adds_guard; [by apply unstarted|intros _].
  eapply quietly_then; [apply quietly_pure|by intros e; apply unstarted|intros mode Hmode%map_err_ok].
  eapply adds_step; [apply opened_adds|intros; by apply unstarted|]. intros root l ->.
  eapply adds_step; [apply opened_adds|intros e l Hl; apply unstarted; no_start|]. intros project l ->.
  eapply adds_step; [apply opened_adds|intros e l Hl; apply unstarted; no_start|]. intros kvm l ->.
  eapply adds_step; [apply opened_adds|intros e l Hl; apply unstarted; no_start|]. intros canary l ->.
  eapply (adds_step _ _ (fun (ap : Z * LandlockPolicyObservation) l => exists f, l = confinement ap.2 f root project kvm /\ sound_policy ap.2 /\ ap.1 = abi ap.2)).
  { eapply adds_weaken; [apply confine_adds|]. by intros [[a p]|e] l. }
  { intros e l Hl. apply unstarted. no_start. }
  intros [a p] l (f & -> & Hp & Ha). cbn [fst snd] in *. subst a.
  eapply adds_bind; [apply say_adds|by intros e l []|]. intros u l [_ ->].
  set (before := preparation root project kvm canary ++ confinement p f root project kvm ++ [Said (shim_marker (abi p) p)]).
  assert (confined before p) as Hb by by exists root, project, kvm, canary, f.
  destruct mode.
  - eapply adds_weaken; [by apply (exec_adds arguments before p)|]. intros r l Hr. exact Hr.
  - eapply adds_weaken; [by apply (spawn_adds arguments before p)|]. intros r l Hr. apply Hr. unfold before, preparation, confinement. no_start.
Qed.
End confined.
End Confined.
Import Confined.

(** C27. However the system answers, the shim starts a program only as a confined
    process: at most one, the machine monitor, with the arguments of an accepted handoff
    (without the flag of the canary), after it has opened its files, created a ruleset
    of a reviewed policy of interface 4 or later, added the three rules, none of which
    grants a right that the policy does not handle, given up new privileges, restricted
    itself and seen both forbidden operations denied.  It ends without an error only as
    the monitor or after the canary was killed for a forbidden system call. *)
Theorem shim_starts_confined {F W : Type} (HH : ShimHost F W) (record : W -> list (action F)) (HR : ShimRecord HH record) arguments w r w' :
  main arguments w = (r, w') -> exists l, record w' = record w ++ l /\ ends_confined arguments r l.
Proof. apply main_adds. exact HR. Qed.

(** A kernel that confines: once restricted, it denies both forbidden operations. *)
Module Kernel.

Definition restricted (w : list (action ())) : bool := existsb (fun a => match a with Restricted _ => true | _ => false end) w.
Definition answer (path : string) (mode : OpenMode) (w : list (action ())) : result (option Z) () :=
  match mode with WriteOnly | CreateNew => if restricted w then Err (Some 13) else Ok () | _ => Ok () end.
Definition act {A} (a : A) (entry : action ()) (w : list (action ())) : A * list (action ()) := (a, w ++ [entry]).
#[export] Instance kernel : ShimHost () (list (action ())) := {|
  environment_is_empty w := (true, w);
  open_path path mode w := act (answer path mode w) (Opened path mode (answer path mode w)) w;
  landlock_abi_version w := (Some 6, w);
  landlock_create_ruleset p := act (Some ()) (Created p ());
  landlock_add_rule f rights path := act (Some ()) (Ruled f rights path);
  set_no_new_privileges := act (Some ()) GaveUpPrivileges;
  landlock_restrict_self f := act (Some ()) (Restricted f);
  eprintln line w := w ++ [Said line];
  spawn_and_wait path arguments := act (Some (Some 31)) (Spawned path arguments (Some 31));
  exec path arguments := act true (Executed path arguments true)
|}.
Lemma kernel_records : ShimRecord kernel (fun w => w).
Proof. by constructor. Qed.
Definition handed_over : list string :=
  ["--id"; "keep-00112233445566778899aabbccddeeff"; "--start-time-us"; "1"; "--start-time-cpu-us"; "2"; "--parent-cpu-time-us"; "3";
   "--no-api"; "--config-file"; CONFIG_PATH; "--seccomp-filter"; SECCOMP_FILTER_PATH]%string.
End Kernel.
Import Kernel.

Lemma shim_starts_confined_witness :
  (main handed_over []).1 = Ok BecameVmm /\ exists l, (main handed_over []).2 = [] ++ l /\ ends_confined handed_over (main handed_over []).1 l.
Proof.
  split; [vm_compute; reflexivity|].
  exact (shim_starts_confined kernel (fun w => w) kernel_records handed_over [] _ _ (surjective_pairing (main handed_over []))).
Defined.
