(* ===== verification/CellFacts.v ===== *)
(** * Theorems on the build cell

    Cargo is started only by a process that has restricted and measured itself. *)

From S2P Require Import Prelude Launch Landlock World Seccomp Shim ShimFacts Cell.

Import Confined.

(** Cargo's start, the filter and the privileges are entries of the record; looking at
    the status of the process and the probes of the network are none. *)
Class CellRecord {F W : Type} (HS : SeccompHost W) (HC : CellHost W) (record : W -> list (action F)) : Prop := {
  status_silent : silent record read_status /\ silent record no_new_privileges_active;
  network_silent : (forall a, silent record (tcp_bind a)) /\ (forall a, silent record (tcp_connect a)) /\ (forall a, silent record (udp_bind a)) /\
    (forall a, silent record (udp_connect a)) /\ (forall b, silent record (udp_send b));
  given_up_recorded w : let '(r, w') := Seccomp.set_no_new_privileges w in
    record w' = record w ++ match r with Some _ => [GaveUpPrivileges] | None => [] end;
  filter_recorded program w : let '(r, w') := set_seccomp_filter program w in
    record w' = record w ++ match r with Some _ => [Filtered program] | None => [] end;
  run_recorded program arguments directory environment w :
    let '(r, w') := exec_command program arguments directory environment w in
    record w' = record w ++ [Ran program arguments directory environment r]
}.

Definition opened_files {F} (paths : list string) (files : list F) : list (action F) :=
  zip_with (fun path f => Opened path ReadOnly (Ok f)) paths files.
(** The record of a restricted cell: the roots are open, every root has its rule, and the
    filter is the reviewed program. *)
Definition cell_confinement {F} (p : LandlockPolicyObservation) (f : F) (read_only read_write : list F) : list (action F) :=
  opened_files READ_ONLY_PATHS read_only ++ opened_files READ_WRITE_PATHS read_write ++ [Created p f]
  ++ map (Ruled f read_only_rights) read_only ++ map (Ruled f (read_write_rights p)) read_write
  ++ [GaveUpPrivileges; Restricted f; GaveUpPrivileges; Filtered objective3_program].
Definition cell_policy (p : LandlockPolicyObservation) : Prop :=
  reviewed_landlock_policy (abi p) = Some p /\ 4 <= abi p /\
  grants_unhandled p read_only_rights = false /\ grants_unhandled p (read_write_rights p) = false.
(** What the process has read of itself. *)
Definition self_measured {W} (HC : CellHost W) : Prop :=
  exists status, (exists w w' : W, read_status w = (Some status, w')) /\ (exists w w' : W, no_new_privileges_active w = (Some true, w')) /\
    first_value ("Seccomp:" +:+ str_of_bytes [x09]) status = Some "2"%string /\ capabilities_are_zero status = true.
Definition cell_prepared {F W} (HC : CellHost W) (mode : string) (l : list (action F)) : Prop :=
  exists p f read_only read_write,
    l = cell_confinement p f read_only read_write ++ [Said (cell_marker mode (abi p))] /\
    length read_only = length READ_ONLY_PATHS /\ length read_write = length READ_WRITE_PATHS /\ cell_policy p /\ self_measured HC.
Definition ends_in_cell {F W} (HC : CellHost W) (arguments : list string) (r : result (failure string) cell_outcome) (l : list (action F)) : Prop :=
  (Forall (fun a => ~ starts a) l /\ exists e, r = Err e) \/
  (arguments = ["probe-network"%string] /\ cell_prepared HC "probe-network" l /\ r = Ok NetworkRefused) \/
  (exists mode cargo before replaced, arguments = [mode] /\ cargo_arguments mode = Some cargo /\ cell_prepared HC mode before /\
     l = before ++ [Ran CARGO cargo "/work" CARGO_ENVIRONMENT replaced] /\ (r = Ok BecameCargo <-> replaced = true)).

Module InCell.
Section cell.
Context {F W : Type} {HH : ShimHost F W} {HS : SeccompHost W} {HC : CellHost W} (record : W -> list (action F)).
Context {HR : ShimRecord HH record} {HK : CellRecord HS HC record}.
Abbreviation adds := (World.adds (E:=string) record).
Abbreviation unstarted l := (Forall (fun a : action F => ~ starts a) l).

Lemma unstarted_opened paths (files : list F) : unstarted (opened_files paths files).
Proof. revert files. induction paths as [|path paths IH]; intros [|f files]; constructor; [by intros []|apply IH]. Qed.
Lemma unstarted_ruled f rights (files : list F) : unstarted (map (Ruled f rights) files).
Proof. induction files; constructor; [by intros []|done]. Qed.
(** Nothing in these entries starts a program. *)
Ltac quiet := rewrite ?Forall_app; split_and?; first
  [ assumption | apply unstarted_opened | apply unstarted_ruled | repeat (apply Forall_cons; split; [by intros []|]); first [assumption|apply Forall_nil; exact I|constructor] ].
Lemma unstarted_confinement p f read_only read_write : unstarted (cell_confinement p f read_only read_write).
Proof. unfold cell_confinement. quiet. Qed.

Lemma open_all_adds message paths : adds (open_all message paths) (fun r l =>
  match r with Ok files => l = opened_files paths files /\ length files = length paths | Err _ => unstarted l end).
Proof.
  induction paths as [|path paths IH]; cbn [open_all]; [by apply adds_ret|].
  eapply adds_step; [by apply opened_adds|done|]. intros f l ->. eapply adds_step; [exact IH|intros e l Hl; quiet|].
  intros files l [-> Hl]. apply adds_ret. rewrite app_nil_r. cbn. by rewrite Hl.
Qed.
Lemma allow_all_adds r rights e files : adds (allow_all (fun path => add_path r path rights e) files) (fun res l =>
  match res with
  | Ok _ => l = map (Ruled (ruleset r) rights) files /\ (files <> [] -> grants_unhandled (observation r) rights = false)
  | Err _ => unstarted l
  end).
Proof.
  induction files as [|f files IH]; cbn [allow_all]; [by apply adds_ret|].
  eapply adds_step; [by apply empty_no_start, add_path_adds|done|]. intros _ l [-> Hg]. eapply adds_weaken; [exact IH|].
  intros [u|x] l; [intros [-> _]; by split|]. intros Hl. quiet.
Qed.
Lemma filter_adds e x86_64 : adds (install_filter e x86_64) (fun r l =>
  match r with Ok _ => l = [GaveUpPrivileges; Filtered objective3_program] | Err _ => unstarted l end).
Proof.
  intros w r w'. unfold install_filter, install_objective3_seccomp_filter.
  destruct x86_64; cbn [negb]; [|intros [= <- <-]; exists []; by rewrite app_nil_r].
  change (65535 <? len objective3_program) with false. cbv iota. unfold io_bind, ask.
  pose proof (given_up_recorded w) as H1. destruct (Seccomp.set_no_new_privileges w) as [[u|] w1].
  2:{ intros [= <- <-]. eexists. split; [exact H1|constructor]. }
  pose proof (filter_recorded objective3_program w1) as H2. destruct (set_seccomp_filter _ w1) as [[u'|] w2]; intros [= <- <-];
    rewrite H2, H1, <- app_assoc; eexists; (split; [reflexivity|]); [done|]. quiet.
Qed.
Lemma confine_cell_adds x86_64 : adds (confine_cell x86_64) (fun r l =>
  match r with
  | Ok a => exists p f read_only read_write, l = cell_confinement p f read_only read_write /\
      length read_only = length READ_ONLY_PATHS /\ length read_write = length READ_WRITE_PATHS /\ cell_policy p /\ a = abi p
  | Err _ => unstarted l
  end).
Proof.
  unfold confine_cell. eapply adds_step; [apply open_all_adds|done|]. intros read_only l [-> H1].
  eapply adds_step; [apply open_all_adds|intros e l Hl; quiet|]. intros read_write l [-> H2].
  eapply adds_step; [by apply empty_no_start, new_ruleset_adds|intros e l Hl; quiet|]. intros r l (-> & Hr & Ha).
  eapply adds_step; [apply allow_all_adds|intros e l Hl; quiet|]. intros _ l [-> H3].
  eapply adds_step; [apply allow_all_adds|intros e l Hl; quiet|]. intros _ l [-> H4].
  eapply adds_step; [by apply restrict_adds|intros e l Hl; quiet|]. intros a l (-> & ->).
  eapply adds_step; [apply filter_adds|intros e l Hl; quiet|]. intros _ l ->.
  apply adds_ret. exists (observation r), (ruleset r), read_only, read_write. split_and!; try done.
  split_and!; [done|done|apply H3; by intros ->|apply H4; by intros ->].
Qed.

Lemma measure_adds : adds measure (fun r l => l = [] /\ match r with Ok _ => self_measured HC | Err _ => True end).
Proof.
  unfold measure. eapply quietly_then; [apply (quietly_ask _ _ _ (fun s => exists w w' : W, read_status w = (Some s, w')))|done|].
  { apply status_silent. }
  { intros w a w' E. by exists w, w'. }
  intros status Hs. eapply quietly_then; [apply quietly_pure|done|intros mode Hm%ok_or_ok].
  eapply quietly_then; [apply (quietly_total _ _ (fun p => exists w w' : W, no_new_privileges_active w = (p, w')))|done|].
  { apply status_silent. }
  { intros w a w' E. by exists w, w'. }
  intros privileges Hp. apply adds_guard; [done|]. intros [[Hd ->%bool_decide_eq_true]%andb_true_iff Hc]%negb_false_iff%andb_true_iff.
  apply adds_ret. split; [done|]. exists status. split_and!; try done. by destruct privileges as [[]|].
Qed.
(** A call, or an answer without the call, that leaves no entry. *)
Lemma quiet_call {A} (m : W -> A * W) : silent record m -> quietly record (total (E:=string) m) (fun _ => True).
Proof. intros Hm. by apply quietly_total. Qed.
Lemma quiet_choice {A} (b : bool) (a : A) (m : io string W A) :
  quietly record m (fun _ => True) -> quietly record (if b then m else io_ret a) (fun _ => True) /\ quietly record (if b then io_ret a else m) (fun _ => True).
Proof.
  intros Hm. assert (quietly record (io_ret (E:=string) (W:=W) a) (fun _ => True)) as Hr by (unfold quietly; by apply adds_ret).
  by destruct b.
Qed.
Lemma probe_adds : adds (@probe_network W HC) (fun r l => l = [] /\ (r = Ok NetworkRefused \/ exists e, r = Err e)).
Proof.
  destruct network_silent as (Ht & Hc & Hu & Huc & Hus). unfold probe_network.
  assert (forall e, @nil (action F) = [] /\ (@Err _ cell_outcome e = Ok NetworkRefused \/ exists e', @Err (failure string) cell_outcome e = Err e')) as HE
    by (intros e; split; [done|right; by eexists]).
  eapply quietly_then; [by apply quiet_call|done|intros bound _].
  eapply quietly_then; [by apply quiet_choice, quiet_call|done|intros reached _]. apply adds_guard; [done|intros _].
  eapply quietly_then; [by apply (quietly_ask _ _ _ (fun _ => True))|done|intros _ _].
  eapply quietly_then; [by apply quiet_call|done|intros connected _].
  eapply quietly_then; [by apply quiet_choice, quiet_call|done|intros sent _]. apply adds_guard; [done|intros _].
  apply adds_ret. split; [done|by left].
Qed.

Lemma unstarted_prepared mode l : cell_prepared HC mode l -> unstarted l.
Proof. intros (p & f & ro & rw & -> & _). apply Forall_app. split; [apply unstarted_confinement|quiet]. Qed.
Lemma cell_main_adds x86_64 arguments : adds (cell_main x86_64 arguments) (ends_in_cell HC arguments).
Proof.
  assert (forall e l, unstarted l -> ends_in_cell HC arguments (Err e) l) as Hu by (intros e l Hl; left; split; [done|by eexists]).
  unfold cell_main. eapply quietly_then; [apply quietly_pure|intros; by apply Hu|intros mode Hm].
  assert (arguments = [mode]) as -> by (destruct arguments as [|m [|]]; by inv Hm).
  eapply adds_step; [apply confine_cell_adds|done|]. intros a l (p & f & ro & rw & -> & H1 & H2 & Hp & ->).
  eapply adds_bind; [apply measure_adds|intros e l [-> _]; apply Hu; rewrite app_nil_r; apply unstarted_confinement|].
  intros _ l [-> Hs]. eapply adds_bind; [by apply say_adds|by intros e l []|]. intros _ l [_ ->].
  set (before := cell_confinement p f ro rw ++ [Said (cell_marker mode (abi p))]).
  assert (cell_prepared HC mode before) as Hb by (by exists p, f, ro, rw).
  eapply (adds_weaken _ _ (fun r l => ends_in_cell HC [mode] r (before ++ l))); [|intros r l; unfold before; by rewrite <- app_assoc].
  clearbody before. destruct (bool_decide_reflect (mode = "probe-network"%string)) as [->|_].
  - eapply adds_weaken; [apply probe_adds|]. intros r l [-> [->|[e ->]]]; rewrite app_nil_r; [by right; left|].
    by apply Hu, (unstarted_prepared "probe-network").
  - eapply quietly_then; [apply quietly_pure|intros; rewrite app_nil_r; by apply Hu, (unstarted_prepared mode)|intros cargo Hc%ok_or_ok].
    intros w r w'. pose proof (run_recorded CARGO cargo "/work" CARGO_ENVIRONMENT w) as H. unfold io_bind, total.
    destruct (exec_command _ _ _ _ w) as [replaced w1]. intros E. exists [Ran CARGO cargo "/work" CARGO_ENVIRONMENT replaced].
    assert (w' = w1 /\ (r = Ok BecameCargo <-> replaced = true)) as [-> Hr] by (destruct replaced; by injection E as <- <-).
    split; [exact H|]. right; right. by exists mode, cargo, before, replaced.
Qed.
End cell.
End InCell.
Import InCell.


(** A kernel that confines: the status shows what was done. *)
Module CellKernel.

Import ShimFacts.Kernel.
Definition status_text : string :=
  let line name value := name +:+ ":" +:+ str_of_bytes [x09] +:+ value +:+ str_of_bytes [x0a] in
  line "CapInh" "0000000000000000" +:+ line "CapPrm" "0000000000000000" +:+ line "CapEff" "0000000000000000" +:+
  line "CapBnd" "0000000000000000" +:+ line "CapAmb" "0000000000000000" +:+ line "Seccomp" "2".
Definition filtered (w : list (action ())) : bool := existsb (fun a => match a with Filtered _ => true | _ => false end) w.
#[export] Instance cell_seccomp : SeccompHost (list (action ())) := {|
  Seccomp.set_no_new_privileges := act (Some ()) GaveUpPrivileges;
  set_seccomp_filter program := act (Some ()) (Filtered program)
|}.
#[export] Instance cell_host : CellHost (list (action ())) := {|
  read_status w := (if filtered w then Some status_text else None, w);
  no_new_privileges_active w := (Some (filtered w), w);
  tcp_bind a w := (negb (restricted w), w);
  tcp_connect a w := (negb (restricted w), w);
  udp_bind a w := (Some (), w);
  udp_connect a w := (false, w);
  udp_send b w := (false, w);
  exec_command program arguments directory environment := act true (Ran program arguments directory environment true)
|}.
Lemma cell_records : CellRecord cell_seccomp cell_host (fun w => w).
Proof. by constructor. Qed.
End CellKernel.
Import CellKernel.

