(* ===== verification/Sandbox.v ===== *)
(** * The sandbox supervisor ([p2-d2-supervisor/src/supervisor.rs])

    It checks the control group, seals three authenticated snapshots and the build cell
    in memory, binds them by descriptor, and becomes the reviewed bubblewrap.  Files are
    those of [LinuxFiles]; the rest of the system is the interface [SandboxHost]. *)

From S2P Require Import Prelude Libc Cbor Sha256 Paths Schema SourceRows Numbers Directory Resolver World Launch Cell LinuxFiles.

(** [None]: the text or the metadata cannot be read.  [execveat] returns its error, or
    [None] when the process has become the program. *)
Class SandboxHost (F W : Type) := {
  read_to_string : string -> W -> option string * W;
  device_of : string -> W -> option Z * W;
  create_new : string -> W -> option unit * W;
  path_is_file : string -> W -> bool * W;
  pause : Z -> W -> W;
  execveat : F -> list string -> list string -> W -> option IoError * W
}.

(** The message of [fail]; two of them show an error, and one of these the member. *)
Inductive SandboxError : Set :=
| Failed (message : string)
| MemberFailed (message relative : string) (error : IoError)
| ExecFailed (error : IoError).

Definition BWRAP_DIRECTORY : string := "/opt/keep/bubblewrap/0.13.0".
Definition BWRAP_DIGEST : string := "e96e817b17de74e75f9680755a700f16c9f59917a264c499175da704651bd41f".
Definition MEMORY_MAX : string := "2147483648".
Definition MEMORY_SWAP_MAX : string := "0".
Definition PIDS_MAX : string := "256".
Definition CPU_MAX : string := "400000 100000".
Definition IO_BYTES_PER_SECOND : string := "268435456".
Definition IO_OPERATIONS_PER_SECOND : string := "4096".
Definition MANIFEST_MAX_BYTES : Z := 1024 * 1024.

(** ** Paths and text *)

(** [std::path]: the components are the parts between separators, without the empty
    parts and the [.] parts, except a [.] that begins the path.  [trim_end_rev] drops from
    the end of the path what is no component; the bytes are in reverse. *)
Fixpoint trim_end_rev (r : list byte) : list byte :=
  match r with
  | x2f :: ((_ :: _) as r') => trim_end_rev r'
  | x2e :: ((x2f :: _) as r') => trim_end_rev r'
  | _ => r
  end.
Fixpoint leaf_rev (r : list byte) : list byte :=
  match r with [] => [] | x2f :: _ => [] | b :: r => b :: leaf_rev r end.
Definition path_leaf (path : string) : list byte := reverse (leaf_rev (trim_end_rev (reverse (str_bytes path)))).
(** [Path::parent]: none of the root and of the empty path. *)
Definition parent_of (path : string) : option string :=
  let r := trim_end_rev (reverse (str_bytes path)) in
  let leaf := leaf_rev r in
  if bool_decide (leaf = []) then None else Some (str_of_bytes (reverse (trim_end_rev (drop (length leaf) r)))).
(** [Path::file_name] *)
Definition file_name (path : string) : option string :=
  let leaf := path_leaf path in
  if bool_decide (leaf = []) || bool_decide (leaf = [x2e]) || bool_decide (leaf = [x2e; x2e]) then None else Some (str_of_bytes leaf).

(** [str::trim_end] *)
Definition trim_end (s : string) : string :=
  let bs := str_bytes s in str_of_bytes (reverse (strip_spaces (length bs) (map reverse WHITESPACE) (reverse bs))).
(** [str::split_whitespace]; every turn removes a byte. *)
Fixpoint white_words (fuel : nat) (bs word : list byte) : list (list byte) :=
  let emitted := if bool_decide (word = []) then [] else [reverse word] in
  match fuel with
  | O => emitted
  | S fuel =>
      match strip_one WHITESPACE bs with
      | Some rest => emitted ++ white_words fuel rest []
      | None => match bs with [] => emitted | b :: bs => white_words fuel bs (b :: word) end
      end
  end.
Definition split_whitespace (s : string) : list string := map str_of_bytes (white_words (S (length (str_bytes s))) (str_bytes s) []).
(** [s.ends_with(suffix)] *)
Definition text_ends_with (suffix s : string) : bool :=
  match strip_prefix_bytes (reverse (str_bytes suffix)) (reverse (str_bytes s)) with Some _ => true | None => false end.
(** [splitn(3, ' ')], an absent field read as empty. *)
Fixpoint split_once_bytes (sep : byte) (bs : list byte) : option (list byte * list byte) :=
  match bs with
  | [] => None
  | b :: bs =>
      if bool_decide (b = sep) then Some ([], bs)
      else match split_once_bytes sep bs with Some (l, r) => Some (b :: l, r) | None => None end
  end.
Definition three_fields (line : string) : string * string * string :=
  match split_once_bytes x20 (str_bytes line) with
  | None => (line, "", "")%string
  | Some (first, rest) =>
      match split_once_bytes x20 rest with
      | None => (str_of_bytes first, str_of_bytes rest, ""%string)
      | Some (second, third) => (str_of_bytes first, str_of_bytes second, str_of_bytes third)
      end
  end.
(** [Path::join] of a relative leaf. *)
Definition path_join (base leaf : string) : string :=
  if bool_decide (base = ""%string) || ends_with_slash (str_bytes base) then base +:+ leaf else base +:+ "/" +:+ leaf.
(** [BTreeSet::insert] *)
Fixpoint set_insert (s : string) (set : list string) : list string :=
  match set with
  | [] => [s]
  | t :: set => match str_cmp s t with Lt => s :: t :: set | Eq => t :: set | Gt => t :: set_insert s set end
  end.

(** ** Control groups *)

Definition linux_device_numbers (device : Z) : Z * Z :=
  (Z.lor (Z.land (Z.shiftr device 8) 0xfff) (Z.land (Z.shiftr device 32) (Z.lnot 0xfff)),
   Z.lor (Z.land device 0xff) (Z.land (Z.shiftr device 12) (Z.lnot 0xff))).
Definition bad_unit (unit : string) : bool :=
  negb (starts_with "keep-objective3-" unit) || negb (text_ends_with ".service" unit) || (96 <? slen unit)
  || negb (forallb memfd_name_byte (str_bytes unit)).
Definition io_max_line (device : Z) : string :=
  let '(major, minor) := linux_device_numbers device in
  number major +:+ ":" +:+ number minor +:+ " rbps=" +:+ IO_BYTES_PER_SECOND +:+ " wbps=" +:+ IO_BYTES_PER_SECOND +:+
  " riops=" +:+ IO_OPERATIONS_PER_SECOND +:+ " wiops=" +:+ IO_OPERATIONS_PER_SECOND.
Definition newline : string := str_of_bytes [x0a].

(** ** Manifests *)

Definition is_hex_digit (b : byte) : bool := is_digit b || existsb (fun c => bool_decide (b = c)) (str_bytes "abcdef").
(** The guard on one row, after the previous path. *)
Definition noncanonical (digest size_text relative previous : string) : bool :=
  negb (slen digest =? 64) || negb (forallb is_hex_digit (str_bytes digest)) || bool_decide (size_text = ""%string)
  || (starts_with "0" size_text && negb (bool_decide (size_text = "0"%string))) || bool_decide (relative = ""%string)
  || existsb (fun b => bool_decide (b = x20)) (str_bytes relative) || is_le (str_cmp relative previous).
Definition is_executable (executable : bool) (relative : string) : bool :=
  executable && contains ["bin/cargo"; "bin/rustc"; "bin/rustdoc"]%string relative || executable && text_ends_with "/bin/rust-lld" relative.
(** The parents of a destination, from the nearest, while they are not shorter than the
    root; each is shorter than the one before. *)
Fixpoint insert_parents (fuel : nat) (destination_root : string) (parent : option string) (directories : list string) : option (list string) :=
  match parent with
  | None => Some directories
  | Some value =>
      if slen value <? slen destination_root then Some directories else
      match fuel with
      | O => None
      | S fuel => insert_parents fuel destination_root (parent_of value) (set_insert value directories)
      end
  end.
Definition binding (executable : bool) (descriptor : Z) (destination : string) : list string :=
  ["--perms"; if executable then "0500" else "0400"; "--ro-bind-data"; number descriptor; destination]%string.

(** ** The command of the sandbox *)

Definition template : list string :=
  ["bwrap"; "--unshare-all"; "--unshare-user"; "--disable-userns"; "--die-with-parent"; "--new-session"; "--proc"; "/proc"; "--dev"; "/dev";
   "--tmpfs"; "/tmp"; "--ro-bind"; "/usr"; "/usr"; "--symlink"; "usr/bin"; "/bin"; "--symlink"; "usr/lib"; "/lib"; "--symlink"; "usr/lib64"; "/lib64";
   "--dir"; "/keep"; "--ro-bind"; "/keep/build-cell-placeholder"; "/keep/build-cell"; "--bind"; "/keep/work-placeholder"; "/work"]%string.
(** [--setenv] for every variable of [Cell.CARGO_ENVIRONMENT], in its order. *)
Definition environment_arguments (program : string) : list string :=
  ["--clearenv"%string] ++ flat_map (fun kv : string * string => ["--setenv"%string; kv.1; kv.2]) CARGO_ENVIRONMENT
  ++ ["--cap-drop"; "ALL"; "--chdir"; "/work"; program]%string.
Definition NAMESPACE_PROBE : string :=
  "test ! -e /root; test ! -e /outside; ! touch /outside 2>/dev/null; test " +:+ quote +:+ "$(wc -l < /proc/net/route)" +:+ quote +:+
  " -eq 1; readlink /proc/self/ns/net".
Definition operation_command (operation : string) : option (string * list string) :=
  if bool_decide (operation = "probe-namespace"%string) then Some ("/bin/sh", ["-c"; NAMESPACE_PROBE])%string
  else if contains ["metadata-unlocked"; "metadata-locked"; "check"; "probe-network"]%string operation then Some ("/keep/build-cell"%string, [operation])
  else if bool_decide (operation = "probe-snapshot-race"%string) then Some ("/keep/build-cell", ["check"])%string
  else None.
(** [v[v.iter().position(..)?] = replacement]: the first element equal to [placeholder]. *)
Fixpoint replace_first (placeholder replacement : string) (l : list string) : option (list string) :=
  match l with
  | [] => None
  | s :: l => if bool_decide (s = placeholder) then Some (replacement :: l) else (fun l => s :: l) <$> replace_first placeholder replacement l
  end.
Definition is_binding (s : string) : bool := bool_decide (s = "--ro-bind"%string) || bool_decide (s = "--bind"%string).
Definition expected_mode (destination : string) : option string :=
  if bool_decide (destination = "/work"%string) then Some "--bind"%string
  else if contains ["/usr"; "/keep/toolchain"; "/keep/vendor"; "/keep/result"]%string destination then Some "--ro-bind"%string
  else if bool_decide (destination = "/keep/build-cell"%string) then Some "--ro-bind"%string
  else None.
Definition BWRAP_ENVIRONMENT : list (string * string) := [("PATH", "/usr/bin:/bin"); ("LANG", "C"); ("LC_ALL", "C"); ("TZ", "UTC")]%string.
Definition has_nul (s : string) : bool := existsb (fun b => bool_decide (b = x00)) (str_bytes s).

Section sandbox.
Context {F W : Type} {HK : Kernel F W} {HS : SandboxHost F W}.
Abbreviation sandbox A := (io SandboxError W A).

(** [unwrap_or_else(|_| fail(message))] of an operation on files. *)
Definition or_fail {A : Type} (message : string) : io IoError W A -> sandbox A := relabel (fun _ => Failed message).
Definition hash (bytes : list byte) : sandbox string := pure (ok_or (OneShot.sha256_hex bytes) Panic).
Definition some_or_fail {A : Type} (message : string) (o : option A) : sandbox A := pure (ok_or o (Error (Failed message))).

(** *** Control groups *)

Definition exact_file (path expected : string) : sandbox unit :=
  let! observed := ask (Failed "cgroup control file is unreadable") (read_to_string path) in
  refuse_if negb (bool_decide (trim_end observed = expected)) with Failed "cgroup control value differs from the frozen Objective 3 ceiling" ;;
  io_ret tt.
Definition verify_cgroup (unit work : string) : sandbox () :=
  refuse_if bad_unit unit with Failed "transient cgroup unit identity is malformed" ;;
  let! group := total (read_to_string "/proc/self/cgroup") in
  refuse_if negb (bool_decide (default ""%string group = "0::/system.slice/" +:+ unit +:+ newline))
    with Failed "process is not in the expected systemd cgroup" ;;
  let root := "/sys/fs/cgroup/system.slice/" +:+ unit in
  let! _ := exact_file (root +:+ "/memory.max") MEMORY_MAX in
  let! _ := exact_file (root +:+ "/memory.swap.max") MEMORY_SWAP_MAX in
  let! _ := exact_file (root +:+ "/pids.max") PIDS_MAX in
  let! _ := exact_file (root +:+ "/cpu.max") CPU_MAX in
  let! device := ask (Failed "work root device identity is unreadable") (device_of work) in
  let! _ := exact_file (root +:+ "/io.max") (io_max_line device) in
  let! limits := ask (Failed "process resource limits are unreadable") (read_to_string "/proc/self/limits") in
  let! open_files := some_or_fail "open-file limit is absent" (List.find (starts_with "Max open files") (lines limits)) in
  refuse_if negb (bool_decide (get_range (split_whitespace open_files) 3 5 = Some ["4096"; "4096"]%string))
    with Failed "open-file limit differs from the frozen snapshot ceiling" ;;
  io_ret tt.

(** *** Snapshots *)

Definition capture_absolute_file (path : string) (maximum_bytes : Z) : sandbox (HeldFile F) :=
  let! parent := some_or_fail "captured file parent is absent" (parent_of path) in
  let! directory := or_fail "captured file parent pinning refused" (open parent) in
  let! leaf := some_or_fail "captured file leaf is malformed" (file_name path) in
  or_fail "regular-file capture refused" (capture_regular_file directory leaf maximum_bytes).

(** The state of the loop over the rows of a manifest. *)
Record Snapshot : Type := mkSnapshot {
  previous : string;
  aggregate : Z;
  sequence : Z;
  directories : list string;
  bindings : list string;
  sealed : list (SealedFile F)
}.
Definition seal_member (file_is_executable : bool) (sequence : Z) (bytes : list byte) (size : Z) : io IoError W (SealedFile F) :=
  let name := "keep-snapshot-" +:+ number sequence in
  if file_is_executable then seal_file_bytes name bytes size 320 else seal_data_file_bytes name bytes size 256.
(** One row. *)
Definition snapshot_row (source : PinnedDir F) (destination_root : string) (executable : bool) (total_maximum : Z) (s : Snapshot)
    (line : string) : sandbox Snapshot :=
  let '(digest, size_text, relative) := three_fields line in
  refuse_if noncanonical digest size_text relative (previous s) with Failed "snapshot manifest row is noncanonical" ;;
  let! size := some_or_fail "snapshot manifest size is malformed" (parse_u64 size_text) in
  let! total := some_or_fail "snapshot manifest aggregate exceeds its ceiling" (checked_within (aggregate s) size total_maximum) in
  let! capture := relabel (MemberFailed "snapshot member capture refused for" relative) (capture_regular_file source relative size) in
  let bytes := captured_bytes (held_capture capture) in
  let! observed := hash bytes in
  refuse_if negb (len bytes =? size) || negb (bool_decide (observed = digest))
    with Failed "snapshot member bytes disagree with the authenticated manifest" ;;
  let sequence := sequence s + 1 in
  let file_is_executable := is_executable executable relative in
  let! file := relabel (MemberFailed "snapshot member sealing refused for" relative) (seal_member file_is_executable sequence bytes size) in
  let! descriptor := or_fail "snapshot descriptor inheritance refused" (clear_close_on_exec (sealed_file file)) in
  let destination := destination_root +:+ "/" +:+ relative in
  let! directories := pure (ok_or (insert_parents (length (str_bytes destination)) destination_root (parent_of destination) (directories s)) OutOfFuel) in
  io_ret (mkSnapshot relative total sequence directories (bindings s ++ binding file_is_executable descriptor destination) (sealed s ++ [file])).
Fixpoint snapshot_rows (source : PinnedDir F) (destination_root : string) (executable : bool) (total_maximum : Z) (lines : list string)
    (s : Snapshot) : sandbox Snapshot :=
  match lines with
  | [] => io_ret s
  | line :: lines =>
      let! s := snapshot_row source destination_root executable total_maximum s line in
      snapshot_rows source destination_root executable total_maximum lines s
  end.
(** The arguments, the next sequence number and the sealed files. *)
Definition sealed_snapshot_arguments (source_root manifest_path manifest_digest destination_root : string) (executable : bool)
    (total_maximum sequence0 : Z) : sandbox (list string * Z * list (SealedFile F)) :=
  let! manifest := capture_absolute_file manifest_path MANIFEST_MAX_BYTES in
  let bytes := captured_bytes (held_capture manifest) in
  let! observed := hash bytes in
  refuse_if negb (bool_decide (observed = manifest_digest)) with Failed "snapshot manifest digest disagreed" ;;
  refuse_if negb (utf8_valid bytes) with Failed "snapshot manifest is not UTF-8" ;;
  let text := str_of_bytes bytes in
  refuse_if bool_decide (text = ""%string) || negb (text_ends_with newline text) with Failed "snapshot manifest is empty or unterminated" ;;
  let! source := or_fail "snapshot source root pinning refused" (open source_root) in
  let! s := snapshot_rows source destination_root executable total_maximum (lines text)
              (mkSnapshot "" 0 sequence0 [destination_root] [] []) in
  io_ret (flat_map (fun directory => ["--dir"%string; directory]) (directories s) ++ bindings s, sequence s, sealed s).

(** *** Bindings *)

(** The state of the loop over the arguments. *)
Record Rebinding : Type := mkRebinding { arguments : list string; observed : list string; cell_index : option nat }.
Definition pin_cell (source : string) : sandbox Z :=
  let! parent := some_or_fail "build-cell parent is absent" (parent_of source) in
  let! directory := or_fail "build-cell parent pinning refused" (open parent) in
  let! leaf := some_or_fail "build-cell leaf is malformed" (file_name source) in
  let! capture := or_fail "build-cell capture refused" (capture_regular_file directory leaf (4 * 1024 * 1024)) in
  let! file := or_fail "build-cell sealing refused"
                 (seal_executable_bytes "keep-objective3-cell" (captured_bytes (held_capture capture)) (4 * 1024 * 1024)) in
  or_fail "build-cell descriptor inheritance refused" (clear_close_on_exec (sealed_file file)).
Definition pin_bind_source (source : string) : sandbox Z :=
  let! pinned := or_fail "bind-source pinning refused" (open source) in
  or_fail "bind-source descriptor inheritance refused" (clear_close_on_exec (directory pinned)).
(** Each turn moves on; the fuel is the number of arguments. *)
Fixpoint rebind (fuel index : nat) (s : Rebinding) : sandbox Rebinding :=
  if (length (arguments s) <=? index)%nat then io_ret s else
  match fuel with
  | O => pure (Err OutOfFuel)
  | S fuel =>
      let at_index i := default ""%string (arguments s !! i) in
      let token := at_index index in
      if negb (is_binding token) then rebind fuel (S index) s else
      refuse_if (length (arguments s) <=? index + 2)%nat with Failed "bubblewrap binding is truncated" ;;
      let source := at_index (index + 1)%nat in
      let destination := at_index (index + 2)%nat in
      let! mode := some_or_fail "bubblewrap binding destination is outside the closed set" (expected_mode destination) in
      refuse_if negb (bool_decide (token = mode)) || contains (observed s) destination
        with Failed "bubblewrap binding mode or destination uniqueness disagreed" ;;
      let is_cell := bool_decide (destination = "/keep/build-cell"%string) in
      let! descriptor := if is_cell then pin_cell source else pin_bind_source source in
      let replacement :=
        if bool_decide (token = "--bind"%string) then "--bind-fd"%string else if is_cell then "--ro-bind-data"%string else "--ro-bind-fd"%string in
      let cell := if negb (bool_decide (token = "--bind"%string)) && is_cell then Some index else cell_index s in
      rebind fuel (index + 3)%nat
        (mkRebinding (<[(index + 1)%nat := number descriptor]> (<[index := replacement]> (arguments s))) (observed s ++ [destination]) cell)
  end.

(** *** The program *)

(** [SealedExecutable::exec]: the error, or [None] when the process is replaced. *)
Definition exec_sealed (f : F) (arguments : list string) (environment : list (string * string)) (w : W) : option IoError * W :=
  if existsb has_nul arguments || bool_decide (arguments = []) then (Some (InvalidData "sealed executable arguments are empty or contain NUL"), w)
  else
    let environment := map (fun kv : string * string => kv.1 +:+ "=" +:+ kv.2) environment in
    if existsb has_nul environment then (Some (InvalidData "sealed executable environment contains NUL"), w)
    else execveat f arguments environment w.
Fixpoint await_mutation (turns : nat) (mutated : string) : sandbox unit :=
  match turns with
  | O => io_ret tt
  | S turns =>
      let! found := total (path_is_file mutated) in
      if found then io_ret tt else fun w => await_mutation turns mutated (pause 10 w)
  end.
Definition snapshot_race (work : string) : sandbox unit :=
  let! _ := ask (Failed "snapshot-race readiness creation refused") (create_new (path_join work ".keep-snapshot-ready")) in
  let mutated := path_join work ".keep-snapshot-mutated" in
  let! _ := await_mutation 500 mutated in
  let! found := total (path_is_file mutated) in
  refuse_if negb found with Failed "snapshot-race mutation acknowledgement timed out" ;;
  io_ret tt.
Record Options : Set := mkOptions {
  unit_name : string; work : string;
  toolchain : string; toolchain_manifest : string; toolchain_manifest_digest : string;
  build_cell : string;
  vendor : string; vendor_manifest : string; vendor_manifest_digest : string;
  result_root : string; result_manifest : string; result_manifest_digest : string;
  operation : string
}.
(** Every message of [std::env::args()] is one refusal: the first argument that is
    missing, or one too many. *)
Definition parse_options (l : list string) : option Options :=
  match l with
  | [unit; work; toolchain; toolchain_manifest; toolchain_digest; build_cell; vendor; vendor_manifest; vendor_digest; result; result_manifest;
     result_digest; operation] =>
      Some (mkOptions unit work toolchain toolchain_manifest toolchain_digest build_cell vendor vendor_manifest vendor_digest result
              result_manifest result_digest operation)
  | _ => None
  end.
Definition MISSING : list string :=
  ["cgroup unit argument is missing"; "work root is missing"; "toolchain root is missing"; "toolchain manifest is missing";
   "toolchain manifest digest is missing"; "build-cell path is missing"; "vendor root is missing"; "vendor manifest is missing";
   "vendor manifest digest is missing"; "result root is missing"; "result manifest is missing"; "result manifest digest is missing";
   "closed operation is missing"]%string.
Definition options_error (l : list string) : string := default "extra supervisor arguments are forbidden"%string (MISSING !! length l).
Definition snapshots (o : Options) : sandbox (list string) :=
  let! (tools, sequence, _) := sealed_snapshot_arguments (toolchain o) (toolchain_manifest o) (toolchain_manifest_digest o) "/keep/toolchain"
                                 true (1024 * 1024 * 1024) 0 in
  let! (vendored, sequence, _) := sealed_snapshot_arguments (vendor o) (vendor_manifest o) (vendor_manifest_digest o) "/keep/vendor"
                                    false (64 * 1024 * 1024) sequence in
  let! (results, _, _) := sealed_snapshot_arguments (result_root o) (result_manifest o) (result_manifest_digest o) "/keep/result"
                            false (64 * 1024 * 1024) sequence in
  io_ret (tools ++ vendored ++ results).
(** The arguments before the sources of the bindings are pinned. *)
Definition sandbox_arguments (o : Options) (program : string) (program_arguments : list string) : sandbox (list string) :=
  let! l := some_or_fail "sandbox build placeholder is absent" (replace_first "/keep/build-cell-placeholder" (build_cell o) template) in
  let! l := some_or_fail "sandbox work placeholder is absent" (replace_first "/keep/work-placeholder" (work o) l) in
  let! sealed := snapshots o in
  let! _ := if bool_decide (operation o = "probe-snapshot-race"%string) then snapshot_race (work o) else io_ret tt in
  io_ret (l ++ sealed ++ environment_arguments program ++ program_arguments).
(** The sources pinned, and the mode of the build cell. *)
Definition pin_sources (l : list string) : sandbox (list string) :=
  let! s := rebind (length l) 1 (mkRebinding l [] None) in
  refuse_if negb (length (observed s) =? 3)%nat with Failed "bubblewrap binding set is incomplete" ;;
  let! index := some_or_fail "build-cell binding is absent" (cell_index s) in
  io_ret (take index (arguments s) ++ ["--perms"; "0500"]%string ++ drop index (arguments s)).
Definition sealed_bwrap : sandbox (SealedFile F) :=
  let! binaries := or_fail "dedicated Bubblewrap directory pinning refused" (open BWRAP_DIRECTORY) in
  let! capture := or_fail "bubblewrap capture refused" (capture_regular_file binaries "bwrap" (4 * 1024 * 1024)) in
  let bytes := captured_bytes (held_capture capture) in
  let! observed := hash bytes in
  refuse_if negb (bool_decide (observed = BWRAP_DIGEST)) with Failed "bubblewrap bytes differ from the frozen identity" ;;
  or_fail "bubblewrap sealing refused" (seal_executable_bytes "keep-objective3-bwrap" bytes (4 * 1024 * 1024)).
(** The arguments of the sandbox, checked against the control group and pinned. *)
Definition prepare_command (o : Options) (program : string) (program_arguments : list string) : sandbox (list string) :=
  let! l := sandbox_arguments o program program_arguments in
  let! _ := verify_cgroup (unit_name o) (work o) in
  pin_sources l.
(** The end without an error is the process replaced by bubblewrap. *)
Definition supervise (l : list string) : sandbox unit :=
  let! o := some_or_fail (options_error l) (parse_options l) in
  let! (program, program_arguments) := some_or_fail "operation is outside the closed supervisor set" (operation_command (operation o)) in
  let! argv := prepare_command o program program_arguments in
  let! bwrap := sealed_bwrap in
  fun w =>
    match exec_sealed (sealed_file bwrap) argv BWRAP_ENVIRONMENT w with
    | (None, w) => (Ok tt, w)
    | (Some e, w) => (Err (Error (ExecFailed e)), w)
    end.
End sandbox.
Arguments Snapshot : clear implicits.
