(* ===== verification/SandboxFacts.v ===== *)
(** * Theorems on the sandbox supervisor

    [Ancestors]: the directories made for the snapshots.  [Snapshots]: what is bound is
    what the authenticated manifests list, sealed for good.  [Command]: the arguments
    that bubblewrap receives. *)

From S2P Require Import Prelude Libc Cbor Sha256 Paths Schema SchemaFacts SourceRows SourceRowsFacts Numbers TextFacts Directory Resolver World Launch Cell LinuxFiles LinuxFacts Sandbox.

Import Time Sealed.

(** ** Directories *)
Module Ancestors.

(** [d] is a directory above [s]. *)
Inductive ancestor (s : string) : string -> Prop :=
| ancestor_parent p : parent_of s = Some p -> ancestor s p
| ancestor_above p d : parent_of s = Some p -> ancestor p d -> ancestor s d.

Lemma trim_end_drop r : exists k, trim_end_rev r = drop k r.
Proof.
  assert (forall n r, (length r <= n)%nat -> exists k, trim_end_rev r = drop k r) as H; [|by apply (H (length r))].
  induction n as [|n IH]; intros l Hl; [destruct l; [by exists 0%nat|cbn in Hl; lia]|].
  destruct l as [|b l]; [by exists 0%nat|]. cbn in Hl.
  destruct (IH l ltac:(lia)) as [k Hk].
  cbn [trim_end_rev]. destruct b; try by exists 0%nat.
  - destruct l as [|[] l]; try by exists 0%nat. exists (S k). exact Hk.
  - destruct l as [|c l]; [by exists 0%nat|]. exists (S k). exact Hk.
Qed.
Lemma leaf_take r : leaf_rev r = take (length (leaf_rev r)) r.
Proof. induction r as [|b r IH]; [done|]. cbn [leaf_rev]. destruct b; try done; cbn [length take]; by rewrite <- IH. Qed.
Lemma reverse_drop {A} m (l : list A) : reverse (drop m l) = take (length l - m) (reverse l).
Proof.
  rewrite <- (take_drop m l) at 3. rewrite reverse_app, take_app_length'; [done|]. rewrite length_reverse, length_drop. lia.
Qed.
(** A parent is a shorter beginning of the path. *)
Lemma parent_prefix s p : parent_of s = Some p -> exists n, str_bytes p = take n (str_bytes s) /\ (n < length (str_bytes s))%nat.
Proof.
  unfold parent_of. destruct (trim_end_drop (reverse (str_bytes s))) as [k Hk]. rewrite Hk.
  set (r := drop k (reverse (str_bytes s))). case_bool_decide as Hleaf; [done|]. intros [= <-].
  destruct (trim_end_drop (drop (length (leaf_rev r)) r)) as [j Hj]. rewrite Hj. unfold r. rewrite !drop_drop, str_bytes_of_bytes.
  assert (0 < length (leaf_rev r))%nat as H0 by (destruct (leaf_rev r); [done|cbn; lia]).
  assert (k < length (str_bytes s))%nat as Hlt.
  { destruct (decide (k < length (str_bytes s))%nat) as [|Hge]; [done|]. exfalso. apply Hleaf. unfold r. rewrite drop_ge; [done|].
    rewrite length_reverse. lia. }
  exists (length (str_bytes s) - (k + (length (leaf_rev r) + j)))%nat. split; [|lia].
  fold r. replace (k + length (leaf_rev r) + j)%nat with (k + (length (leaf_rev r) + j))%nat by lia.
  by rewrite reverse_drop, reverse_involutive, length_reverse.
Qed.
Lemma ancestor_prefix s d : ancestor s d -> exists n, str_bytes d = take n (str_bytes s) /\ (n < length (str_bytes s))%nat.
Proof.
  induction 1 as [s p Hp|s p d Hp _ IH]; [by apply parent_prefix|]. apply parent_prefix in Hp as (n & Hn & Hl).
  destruct IH as (m & Hm & Hlm). exists m. rewrite Hm, Hn, take_take. rewrite Hn, length_take in Hlm. split; [f_equal; lia|lia].
Qed.
Lemma prefix_before n l : (n < length l)%nat -> bytes_cmp (take n l) l = Lt.
Proof.
  revert n. induction l as [|b l IH]; intros [|n] H; cbn in H |- *; try lia; [done|]. rewrite Z.compare_refl. apply IH. lia.
Qed.
(** In the order of the texts a directory comes before what is below it. *)
Lemma ancestor_before s d : ancestor s d -> str_cmp d s = Lt.
Proof. intros (n & Hn & Hl)%ancestor_prefix. unfold str_cmp. rewrite Hn. by apply prefix_before. Qed.
Lemma ancestor_shorter s d : ancestor s d -> slen d < slen s.
Proof. intros (n & Hn & Hl)%ancestor_prefix. unfold slen, len. rewrite Hn, length_take. lia. Qed.
Lemma ancestor_trans s d e : ancestor s d -> ancestor d e -> ancestor s e.
Proof. induction 1 as [s p Hp|s p d Hp _ IH]; intros He; (eapply ancestor_above; [exact Hp|]); [exact He|auto]. Qed.

Abbreviation sorted := (StronglySorted (cmp_lt str_cmp)).
Lemma set_insert_in d s set : d ∈ set_insert s set <-> d = s \/ d ∈ set.
Proof.
  induction set as [|t set IH]; cbn [set_insert]; [set_solver|]. destruct (str_cmp s t) eqn:E; rewrite ?elem_of_cons, ?IH; [|set_solver..].
  unfold str_cmp in E. apply bytes_cmp_eq, str_bytes_inj in E as ->. set_solver.
Qed.
Lemma set_insert_sorted s set : sorted set -> sorted (set_insert s set).
Proof.
  induction 1 as [|t set Hset IH Ht]; cbn [set_insert]; [repeat constructor|]. destruct (str_cmp s t) eqn:E.
  - by constructor.
  - constructor; [by constructor|]. constructor; [exact E|]. eapply Forall_impl; [exact Ht|]. intros u Hu. by transitivity t.
  - constructor; [exact IH|]. apply Forall_forall. intros u [->|Hu]%set_insert_in; [|by apply (proj1 (Forall_forall _ _) Ht)].
    unfold cmp_lt, str_cmp in *. by rewrite bytes_cmp_antisym, E.
Qed.

(** [d] is [p] or above it, and not shorter than the root. *)
Definition reaches (root : string) (p d : string) : Prop := (d = p \/ ancestor p d) /\ slen root <= slen d.
Lemma insert_parents_ok fuel root parent set set' :
  sorted set -> insert_parents fuel root parent set = Some set' ->
  sorted set' /\ forall d, d ∈ set' <-> d ∈ set \/ exists p, parent = Some p /\ reaches root p d.
Proof.
  revert parent set. induction fuel as [|fuel IH]; intros [p|] set Hs; cbn [insert_parents].
  2,4: intros [= <-]; split; [done|]; set_solver.
  1: destruct (Z.ltb_spec (slen p) (slen root)) as [Hp|_]; [|done].
  2: destruct (Z.ltb_spec (slen p) (slen root)) as [Hp|Hp].
  1,2: intros [= <-]; split; [done|]; intros d; split; [by left|]; intros [Hd|(q & [= <-] & [-> | Ha%ancestor_shorter] & Hd)]; [done|lia..].
  intros [Hs' Hin]%IH; [|by apply set_insert_sorted]. split; [done|]. intros d. rewrite Hin, set_insert_in. split.
  - intros [[-> | Hd]|(q & Hq & Hd & Hr)]; [right; exists p; split; [done|]; split; [by left|done]|by left|].
    right. exists p. split; [done|]. split; [|done]. right. destruct Hd as [-> | Ha]; [by apply ancestor_parent|by eapply ancestor_above].
  - intros [Hd|(q & [= <-] & [-> | Ha] & Hr)]; [by left; right|by left; left|]. right.
    inversion Ha as [e Hq|e d' Hq Ha']; subst; eexists; (split; [exact Hq|]; split; [|done]); [by left|by right].
Qed.
Lemma insert_parents_total fuel root parent set :
  (forall p, parent = Some p -> (length (str_bytes p) < fuel)%nat) -> is_Some (insert_parents fuel root parent set).
Proof.
  revert parent set. induction fuel as [|fuel IH]; intros [p|] set H; cbn [insert_parents]; try by eexists.
  - specialize (H p eq_refl). lia.
  - destruct (_ <? _); [by eexists|]. apply IH. intros q (n & Hn & Hl)%parent_prefix. specialize (H p eq_refl). rewrite Hn, length_take. lia.
Qed.
(** The fuel of the loop is enough. *)
Lemma parents_inserted root destination set : is_Some (insert_parents (length (str_bytes destination)) root (parent_of destination) set).
Proof. apply insert_parents_total. intros p (n & Hn & Hl)%parent_prefix. rewrite Hn, length_take. lia. Qed.
End Ancestors.
Import Ancestors.

(** ** Time *)

Class HostEvolution {F W : Type} (HS : SandboxHost F W) (later : W -> W -> Prop) : Prop := {
  texts_evolve path : evolves later (read_to_string path) /\ evolves later (device_of path) /\ evolves later (create_new path) /\
    evolves later (path_is_file path);
  pause_evolves n w : later w (pause n w)
}.

Module Snapshots.
Section snapshots.
Context {F W : Type} {HK : Kernel F W} {HS : SandboxHost F W} (later : W -> W -> Prop) {HE : Evolution HK later} {HO : HostEvolution HS later}.
Context (content : F -> W -> list byte) (offset : F -> W -> Z) (private immutable : F -> W -> Prop).
Context {HM : MemoryFiles HK later content offset private immutable}.
Abbreviation held := (held_for_good content immutable).

Lemma some_ok {A} message (o : option A) (w : W) a w' : some_or_fail message o w = (Ok a, w') <-> o = Some a /\ w' = w.
Proof. unfold some_or_fail. rewrite pure_ok, ok_or_ok. done. Qed.
Lemma hash_ok bytes (w : W) d w' : hash bytes w = (Ok d, w') <-> OneShot.sha256_hex bytes = Some d /\ w' = w.
Proof. unfold hash. rewrite pure_ok, ok_or_ok. done. Qed.
Lemma relabel_evolves {E A} (f : IoError -> E) (m : io IoError W A) : evolves later m -> evolves later (relabel f m).
Proof. intros H w. specialize (H w). unfold relabel. by destruct (m w) as [[b|[]] w1]. Qed.
Lemma ask_evolves {E A} (e : E) (m : W -> option A * W) : evolves later m -> evolves later (ask e m).
Proof. intros H w. specialize (H w). unfold ask. by destruct (m w) as [[a|] w1]. Qed.
Ltac progresses := repeat first
  [ apply (open_with_policy_evolves (HE := HE) later) | apply (capture_evolves (HE := HE) later) | apply (seal_executable_evolves (HE := HE) later)
  | apply (clear_close_on_exec_evolves (HE := HE) later) | apply (evolves_bind (HE := HE) later); [|intros ?] | apply (evolves_guard (HE := HE) later) | apply relabel_evolves | apply ask_evolves
  | apply evolves_total | apply texts_evolve
  | progress unfold hash, some_or_fail, or_fail, pure, io_ret, io_fail | apply (evolves_ret (HE := HE) later) ].
Lemma held_later f bytes w w' : later w w' -> held f bytes w -> held f bytes w'.
Proof. intros Hl [Hi Hc]. destruct (immutable_stays _ _ _ Hl Hi) as [Hi' Hc']. split; [done|congruence]. Qed.
(** The descriptor of a file is its number. *)
Lemma clear_ok f (w w' : W) n : clear_close_on_exec f w = (Ok n, w') -> n = raw_fd f /\ later w w'.
Proof.
  intros H. split; [|by eapply evolves_run; [apply clear_close_on_exec_evolves|exact H]]. unfold clear_close_on_exec in H.
  apply io_bind_ok in H as (? & ? & _ & H). apply io_bind_ok in H as (? & ? & _ & H). by injection H as <- _.
Qed.
Lemma seal_member_ok file_is_executable n bytes size (w w' : W) f :
  size < u64_max -> seal_member file_is_executable n bytes size w = (Ok f, w') -> held f bytes w' /\ later w w'.
Proof.
  intros Hs H. unfold seal_member in H. destruct file_is_executable; (split; [|eapply evolves_run; [|exact H]]).
  - by apply (seal_policy_ok later content offset private immutable) in H as (? & _).
  - apply seal_file_evolves. exact HE.
  - by apply (seal_data_ok later content offset private immutable) in H as (? & _).
  - apply seal_data_evolves. exact HE.
Qed.

(** A row of the manifest and the file sealed for it. *)
Record Member : Type := mkMember { member_path : string; member_digest : string; member_bytes : list byte; member_file : SealedFile F }.
Definition listed (line : string) (m : Member) : Prop :=
  exists size_text, three_fields line = (member_digest m, size_text, member_path m) /\ parse_u64 size_text = Some (len (member_bytes m)) /\
    OneShot.sha256_hex (member_bytes m) = Some (member_digest m).
Definition destination (root : string) (m : Member) : string := root +:+ "/" +:+ member_path m.
Definition member_binding (root : string) (executable : bool) (m : Member) : list string :=
  binding (is_executable executable (member_path m)) (raw_fd (sealed_file (member_file m))) (destination root m).
Definition made_for (root : string) (m : Member) (d : string) : Prop := ancestor (destination root m) d /\ slen root <= slen d.

Lemma snapshot_row_ok source root executable maximum s line (w w' : W) s' :
  maximum < u64_max -> 0 <= aggregate s -> sorted (directories s) ->
  snapshot_row source root executable maximum s line w = (Ok s', w') ->
  later w w' /\ exists m, listed line m /\ str_cmp (previous s) (member_path m) = Lt /\ previous s' = member_path m /\
    aggregate s' = aggregate s + len (member_bytes m) /\ aggregate s' <= maximum /\ held (member_file m) (member_bytes m) w' /\
    bindings s' = bindings s ++ member_binding root executable m /\
    sorted (directories s') /\ (forall d, d ∈ directories s' <-> d ∈ directories s \/ made_for root m d).
Proof.
  intros Hm Ha Hd H. unfold snapshot_row in H. destruct (three_fields line) as [[digest size_text] relative] eqn:El.
  apply io_guard_ok in H as [Hn H]. apply io_bind_ok in H as (size & w1 & [Hsize ->]%some_ok & H).
  apply io_bind_ok in H as (total & w2 & [Ht ->]%some_ok & H). apply io_bind_ok in H as (capture & w3 & Hc%relabel_ok & H).
  apply io_bind_ok in H as (found & w4 & [Hh ->]%hash_ok & H).
  apply io_guard_ok in H as [[Hl%negb_false_iff%Z.eqb_eq ->%negb_false_iff%bool_decide_eq_true]%orb_false_iff H].
  apply io_bind_ok in H as (file & w5 & Hs%relabel_ok & H). apply io_bind_ok in H as (fd & w6 & Hf%relabel_ok & H).
  apply io_bind_ok in H as (dirs & w7 & [Hi%ok_or_ok ->]%pure_ok & H). injection H as <- <-.
  assert (later w w3) as H3 by (eapply evolves_run; [apply capture_evolves; exact HE|exact Hc]).
  unfold checked_within in Ht. apply bind_Some in Ht as (t & Ht & Hle). destruct (Z.leb_spec t maximum) as [Hle'|]; [|done]. injection Hle as ->.
  unfold checked_add in Ht. destruct (_ <=? u64_max); [|done]. injection Ht as Ht.
  set (bytes := captured_bytes (held_capture capture)) in *. pose proof (len_nonneg bytes).
  apply seal_member_ok in Hs as [Hheld H5]; [|lia]. apply clear_ok in Hf as [-> H6]. apply insert_parents_ok in Hi as [Hds Hin]; [|done].
  split; [by transitivity w3; [|transitivity w5]|]. exists (mkMember relative digest bytes file). cbn.
  split_and!; try done; try lia.
  - exists size_text. split_and!; [done|by rewrite Hsize, <- Hl|done].
  - unfold noncanonical in Hn. apply orb_false_iff in Hn as [_ Hn]. unfold str_cmp in *. rewrite bytes_cmp_antisym.
    by destruct (bytes_cmp _ _).
  - by eapply held_later.
  - intros d. rewrite Hin. unfold made_for, destination. cbn. split.
    + intros [Hd'|(p & Hp & [-> | Hr] & Hlen)]; [by left|right; split; [by apply ancestor_parent|done]|].
      right. split; [by eapply ancestor_above|done].
    + intros [Hd'|[Hr Hlen]]; [by left|right]. inversion Hr as [p Hp|p e Hp Hr']; subst; eexists; (split; [exact Hp|]; split; [|done]);
        [by left|by right].
Qed.

Definition total_bytes (members : list Member) : Z := foldr Z.add 0 (map (fun m => len (member_bytes m)) members).
Lemma total_nonneg members : 0 <= total_bytes members.
Proof. induction members as [|m l IH]; [done|]. unfold total_bytes in *. cbn. pose proof (len_nonneg (member_bytes m)). lia. Qed.
Lemma snapshot_rows_ok source root executable maximum lines s (w w' : W) s' :
  maximum < u64_max -> 0 <= aggregate s <= maximum -> sorted (directories s) ->
  snapshot_rows source root executable maximum lines s w = (Ok s', w') ->
  later w w' /\ exists members, Forall2 listed lines members /\ sorted (previous s :: map member_path members) /\
    aggregate s + total_bytes members <= maximum /\ Forall (fun m => held (member_file m) (member_bytes m) w') members /\
    bindings s' = bindings s ++ flat_map (member_binding root executable) members /\
    sorted (directories s') /\ (forall d, d ∈ directories s' <-> d ∈ directories s \/ exists m, m ∈ members /\ made_for root m d).
Proof.
  intros Hm. revert s w. induction lines as [|line lines IH]; intros s w Ha Hd H; cbn [snapshot_rows] in H.
  - injection H as <- <-. split; [reflexivity|]. exists []. cbn. rewrite app_nil_r. split_and!; [constructor|repeat constructor|lia|constructor|done|done|].
    set_solver.
  - apply io_bind_ok in H as (s1 & w1 & H1 & H). destruct Ha as [Ha0 Ha1].
    apply snapshot_row_ok in H1 as (Hl1 & m & Hr & Hp & Ep & Et & Hle & Hh & Eb & Hd1 & Hin1); [|done..].
    apply IH in H as (Hl & members & Hf & Hsort & Htot & Hheld & Eb' & Hd' & Hin); [|pose proof (len_nonneg (member_bytes m)); lia|done].
    split; [by transitivity w1|]. exists (m :: members). rewrite Ep in Hsort. split_and!.
    + by constructor.
    + cbn. constructor; [done|]. inversion Hsort as [|x l Hs Hx]; subst. constructor; [done|].
      eapply Forall_impl; [exact Hx|]. intros q Hq. by transitivity (member_path m).
    + unfold total_bytes in *. cbn. lia.
    + constructor; [by eapply held_later|done].
    + cbn [flat_map]. by rewrite Eb', Eb, app_assoc.
    + done.
    + intros d. rewrite Hin, Hin1. setoid_rewrite elem_of_cons. naive_solver.
Qed.

(** What the arguments [args] of a snapshot are, in the world [w]: the rows of the
    manifest with that digest, in the strict order of their paths, and every row bound by
    the descriptor of a file that holds for good the bytes whose digest and size the row
    names; before them the root and all directories above the destinations, each before
    what is below it. *)
Definition snapshot_of (manifest_digest root : string) (executable : bool) (maximum : Z) (args : list string) (w : W) : Prop :=
  exists manifest members dirs,
    OneShot.sha256_hex manifest = Some manifest_digest /\ Forall2 listed (lines (str_of_bytes manifest)) members /\
    sorted (map member_path members) /\ total_bytes members <= maximum /\
    Forall (fun m => held (member_file m) (member_bytes m) w) members /\
    args = flat_map (fun d => ["--dir"%string; d]) dirs ++ flat_map (member_binding root executable) members /\
    sorted dirs /\ (forall d, d ∈ dirs <-> d = root \/ exists m, m ∈ members /\ made_for root m d).
Lemma snapshot_later digest root executable maximum args w w' :
  later w w' -> snapshot_of digest root executable maximum args w -> snapshot_of digest root executable maximum args w'.
Proof.
  intros Hl (manifest & members & dirs & H1 & H2 & H3 & H4 & H5 & H6). exists manifest, members, dirs.
  do 4 (split; [done|]). split; [|exact H6]. eapply Forall_impl; [exact H5|]. intros m. by apply held_later.
Qed.
Lemma capture_absolute_evolves path maximum : evolves later (capture_absolute_file path maximum).
Proof.
  unfold capture_absolute_file, some_or_fail. progresses.
Qed.
Lemma snapshot_arguments_ok source_root manifest_path manifest_digest root executable maximum n (w w' : W) args n' files :
  0 <= maximum < u64_max ->
  sealed_snapshot_arguments source_root manifest_path manifest_digest root executable maximum n w = (Ok (args, n', files), w') ->
  later w w' /\ snapshot_of manifest_digest root executable maximum args w'.
Proof.
  intros [Hm0 Hm] H. unfold sealed_snapshot_arguments in H. apply io_bind_ok in H as (manifest & w1 & H1 & H).
  apply io_bind_ok in H as (found & w2 & [Hh ->]%hash_ok & H).
  apply io_guard_ok in H as [->%negb_false_iff%bool_decide_eq_true H]. apply io_guard_ok in H as [_ H]. apply io_guard_ok in H as [_ H].
  apply io_bind_ok in H as (source & w3 & H3%relabel_ok & H). apply io_bind_ok in H as (s & w4 & H4 & H). injection H as <- _ _ <-.
  assert (later w w1) by (eapply evolves_run; [apply capture_absolute_evolves|exact H1]).
  assert (later w1 w3) by (eapply evolves_run; [apply open_with_policy_evolves; exact HE|exact H3]).
  apply snapshot_rows_ok in H4 as (Hl & members & Hf & Hsort & Htot & Hheld & Eb & Hd & Hin); [|done|done|repeat constructor].
  split; [transitivity w1; [done|by transitivity w3]|].
  exists (captured_bytes (held_capture manifest)), members, (directories s). cbn in Hsort, Htot, Eb, Hin. split_and!; try done.
  - by inversion Hsort.
  - by rewrite Eb.
  - intros d. by rewrite Hin, list_elem_of_singleton.
Qed.

(** *** The steps around the snapshots *)

Lemma pin_cell_ok source (w w' : W) n : pin_cell source w = (Ok n, w') ->
  exists file bytes, n = raw_fd (sealed_file file) /\ held file bytes w'.
Proof.
  intros H. unfold pin_cell in H. do 4 apply io_bind_ok in H as (? & ? & _ & H). apply io_bind_ok in H as (file & w5 & H5%relabel_ok & H).
  apply relabel_ok, clear_ok in H as [-> Hl]. exists file. eexists. split; [done|]. eapply held_later; [exact Hl|].
  by apply (seal_executable_ok later content offset private immutable) in H5 as (? & _).
Qed.
Lemma pin_cell_evolves source : evolves later (pin_cell source). Proof. unfold pin_cell. progresses. Qed.
Lemma pin_source_evolves source : evolves later (pin_bind_source source). Proof. unfold pin_bind_source. progresses. Qed.
Lemma exact_file_evolves path expected : evolves later (exact_file path expected). Proof. unfold exact_file. progresses. Qed.
Lemma verify_cgroup_evolves unit work : evolves later (verify_cgroup unit work).
Proof. unfold verify_cgroup. progresses; apply exact_file_evolves. Qed.
Lemma await_mutation_evolves turns path : evolves later (await_mutation turns path).
Proof.
  induction turns as [|turns IH]; cbn [await_mutation]; [apply (evolves_ret (HE := HE) later)|]. apply (evolves_bind (HE := HE) later); [progresses|].
  intros [|]; [apply (evolves_ret (HE := HE) later)|]. intros w. etransitivity; [apply pause_evolves|apply IH].
Qed.
Lemma snapshot_race_evolves work : evolves later (snapshot_race work).
Proof.
  unfold snapshot_race. apply (evolves_bind (HE := HE) later); [progresses|intros _].
  apply (evolves_bind (HE := HE) later); [apply await_mutation_evolves|intros _]. progresses.
Qed.
Definition GIB : Z := 1024 * 1024 * 1024.
Definition MIB64 : Z := 64 * 1024 * 1024.
(** The three snapshots of the command. *)
Definition all_snapshots (o : Options) (l : list string) (w : W) : Prop :=
  exists tools vendored results, l = tools ++ vendored ++ results /\
    snapshot_of (toolchain_manifest_digest o) "/keep/toolchain" true GIB tools w /\
    snapshot_of (vendor_manifest_digest o) "/keep/vendor" false MIB64 vendored w /\
    snapshot_of (result_manifest_digest o) "/keep/result" false MIB64 results w.
Lemma all_later o l w w' : later w w' -> all_snapshots o l w -> all_snapshots o l w'.
Proof.
  intros Hl (t & v & r & -> & Ht & Hv & Hr). exists t, v, r. split; [done|]. split; [|split]; by eapply snapshot_later.
Qed.
Lemma snapshots_ok o (w w' : W) l : snapshots o w = (Ok l, w') -> later w w' /\ all_snapshots o l w'.
Proof.
  intros H. unfold snapshots in H. apply io_bind_ok in H as ([[t n1] f1] & w1 & H1 & H). apply io_bind_ok in H as ([[v n2] f2] & w2 & H2 & H).
  apply io_bind_ok in H as ([[r n3] f3] & w3 & H3 & H). injection H as <- <-.
  apply snapshot_arguments_ok in H1 as [L1 H1]; [|done]. apply snapshot_arguments_ok in H2 as [L2 H2]; [|done].
  apply snapshot_arguments_ok in H3 as [L3 H3]; [|done]. assert (later w1 w3) by (by transitivity w2).
  split; [by transitivity w1|]. exists t, v, r. split; [done|].
  split; [by apply (snapshot_later _ _ _ _ _ w1)|]. split; [by apply (snapshot_later _ _ _ _ _ w2)|done].
Qed.
End snapshots.
End Snapshots.

(** ** The command *)
Module Command.
Import Snapshots.

(** *** Arguments that are no bindings *)

Abbreviation plain := (Forall (fun s : string => is_binding s = false)).
Lemma binding_dash s : is_binding s = true -> exists r, str_bytes s = x2d :: r.
Proof. intros [->%bool_decide_eq_true | ->%bool_decide_eq_true]%orb_true_iff; by eexists. Qed.
Lemma slash_plain s r : str_bytes s = x2f :: r -> is_binding s = false.
Proof. intros H. apply not_true_iff_false. intros [q Hq]%binding_dash. congruence. Qed.
Lemma number_plain n : is_binding (number n) = false.
Proof.
  apply not_true_iff_false. intros [q Hq]%binding_dash. unfold number in Hq. rewrite str_bytes_of_bytes in Hq.
  pose proof (decimal_digits_are 20 n) as H. unfold decimal in Hq. rewrite Hq in H. apply Forall_cons in H as [H _]. vm_compute in H. by destruct H.
Qed.
Section plain_arguments.
Context {F W : Type} {HK : Kernel F W} (content : F -> W -> list byte) (immutable : F -> W -> Prop).

Lemma binding_plain executable fd destination r : str_bytes destination = x2f :: r -> plain (binding executable fd destination).
Proof.
  intros H. unfold binding. repeat apply Forall_cons_2; [done|by destruct executable|done|apply number_plain|by eapply slash_plain|constructor].
Qed.
(** Every argument of a snapshot is plain: a directory begins as its root does. *)
Lemma snapshot_plain digest root r executable maximum args (w : W) :
  str_bytes root = x2f :: r -> snapshot_of content immutable digest root executable maximum args w -> plain args.
Proof.
  intros Hroot (manifest & members & dirs & _ & _ & _ & _ & _ & -> & _ & Hin). apply Forall_app. split; apply Forall_flat_map, Forall_forall.
  - intros d Hd%Hin. repeat apply Forall_cons_2; [done| |constructor]. destruct Hd as [-> | (m & _ & Ha & Hl)]; [by eapply slash_plain|].
    apply ancestor_prefix in Ha as (n & Hn & _). unfold destination in Hn. rewrite !Namespace.str_bytes_app, Hroot in Hn.
    destruct n as [|n]; [|exact (slash_plain _ _ Hn)]. assert (slen d = 0) as H0 by (unfold slen; by rewrite Hn).
    unfold slen in *. rewrite H0, Hroot, len_cons in Hl. pose proof (len_nonneg r). lia.
  - intros m _. unfold member_binding. eapply binding_plain. unfold destination. by rewrite !Namespace.str_bytes_app, Hroot.
Qed.
Lemma all_plain o l (w : W) : all_snapshots content immutable o l w -> plain l.
Proof.
  intros (t & v & r & -> & Ht & Hv & Hr). rewrite !Forall_app.
  split; [|split]; (eapply snapshot_plain; [|eassumption]); reflexivity.
Qed.
End plain_arguments.
Lemma command_plain operation program args : operation_command operation = Some (program, args) -> plain (environment_arguments program ++ args).
Proof.
  unfold operation_command. case_bool_decide; [intros [= <- <-]; repeat (constructor; [reflexivity|]); constructor|].
  destruct (contains _ operation) eqn:Hc.
  - intros [= <- <-]. apply Steps.contains_spec in Hc. repeat (apply elem_of_cons in Hc as [-> | Hc]; [repeat (constructor; [reflexivity|]); constructor|]).
    by apply not_elem_of_nil in Hc.
  - case_bool_decide; [|done]. intros [= <- <-]. repeat (constructor; [reflexivity|]). constructor.
Qed.

(** *** The turns over the arguments *)

Section turns.
Context {F W : Type} {HK : Kernel F W} {HS : SandboxHost F W}.

Lemma replace_first_app c r l l' tail : replace_first c r l = Some l' -> replace_first c r (l ++ tail) = Some (l' ++ tail).
Proof.
  revert l'. induction l as [|s l IH]; intros l'; cbn [replace_first app]; [done|]. case_bool_decide; [by intros [= <-]|].
  destruct (replace_first c r l) as [k|]; [|done]. cbn. intros [= <-]. by rewrite (IH k eq_refl).
Qed.
Lemma rebind_skips fuel pre mid rest s (w w' : W) s' :
  arguments s = pre ++ mid ++ rest -> plain mid -> rebind fuel (length pre) s w = (Ok s', w') ->
  exists fuel', rebind fuel' (length (pre ++ mid)) s w = (Ok s', w').
Proof.
  revert fuel pre. induction mid as [|token mid IH]; intros fuel pre E Hp H; [exists fuel; by rewrite app_nil_r|].
  apply Forall_cons in Hp as [Ht Hp]. destruct (Nat.leb_spec (length (arguments s)) (length pre)) as [Hlen|Hlen].
  { rewrite E, !length_app in Hlen. cbn in Hlen. lia. }
  destruct fuel as [|fuel]; cbn [rebind] in H; destruct (Nat.leb_spec (length (arguments s)) (length pre)); try lia; [done|].
  rewrite E in H. cbn [app] in H. rewrite list_lookup_middle in H by done. cbn [default from_option id] in H. rewrite Ht in H. cbn [negb] in H.
  rewrite <- (Nat.add_1_r (length pre)) in H. change 1%nat with (length [token]) in H. rewrite <- length_app in H.
  apply IH in H; [|by rewrite E, <- app_assoc|done]. by rewrite <- app_assoc in H.
Qed.
Lemma rebind_done fuel pre mid s (w w' : W) s' :
  arguments s = pre ++ mid -> plain mid -> rebind fuel (length pre) s w = (Ok s', w') -> s' = s /\ w' = w.
Proof.
  intros E Hp H. apply (rebind_skips _ _ mid []) in H as (fuel' & H); [|by rewrite app_nil_r|done]. rewrite <- E in H.
  destruct fuel'; cbn [rebind] in H; rewrite Nat.leb_refl in H; by injection H as <- <-.
Qed.
(** What the turn writes for a binding. *)
Definition bound (token destination : string) (n : Z) : list string :=
  [if bool_decide (token = "--bind") then "--bind-fd" else if bool_decide (destination = "/keep/build-cell") then "--ro-bind-data" else "--ro-bind-fd";
   number n; destination]%string.
Lemma rebind_takes fuel pre token source dest rest s (w w' : W) s' :
  arguments s = pre ++ token :: source :: dest :: rest -> is_binding token = true -> rebind fuel (length pre) s w = (Ok s', w') ->
  exists fuel' n w1, (if bool_decide (dest = "/keep/build-cell"%string) then pin_cell source else pin_bind_source source) w = (Ok n, w1) /\
    expected_mode dest = Some token /\
    rebind fuel' (length (pre ++ bound token dest n))
      (mkRebinding (pre ++ bound token dest n ++ rest) (observed s ++ [dest])
         (if negb (bool_decide (token = "--bind"%string)) && bool_decide (dest = "/keep/build-cell"%string) then Some (length pre) else cell_index s)) w1
      = (Ok s', w').
Proof.
  intros E Ht H. assert (length (arguments s) = length pre + S (S (S (length rest))))%nat as Hlen by (by rewrite E, length_app).
  destruct fuel as [|fuel]; cbn [rebind] in H; destruct (Nat.leb_spec (length (arguments s)) (length pre)); try lia; [done|].
  destruct (Nat.leb_spec (length (arguments s)) (length pre + 2)); [lia|]. rewrite E in H.
  rewrite !lookup_app_r, !Nat.add_sub', Nat.sub_diag in H by lia. cbn [lookup list_lookup default from_option id] in H. rewrite Ht in H. cbn [negb] in H.
  apply io_bind_ok in H as (mode & w0 & [Hmode ->]%Snapshots.some_ok & H).
  apply io_guard_ok in H as [[<-%negb_false_iff%bool_decide_eq_true _]%orb_false_iff H]. apply io_bind_ok in H as (n & w1 & Hn & H).
  exists fuel, n, w1. split; [exact Hn|]. split; [exact Hmode|]. rewrite length_app. unfold bound at 1. cbn [length].
  rewrite (insert_app_r_alt _ _ (length pre)), Nat.sub_diag, insert_app_r in H by lia. exact H.
Qed.
End turns.

(** *** The control group *)

Section control.
Context {F W : Type} {HK : Kernel F W} {HS : SandboxHost F W}.

(** A text that the system gave when it was read. *)
Definition reads (path : string) (p : string -> Prop) : Prop := exists text w w', read_to_string path w = (Some text, w') /\ p text.
Definition control_group (unit : string) : string := "/sys/fs/cgroup/system.slice/" +:+ unit.
Definition CEILINGS : list (string * string) :=
  [("/memory.max", MEMORY_MAX); ("/memory.swap.max", MEMORY_SWAP_MAX); ("/pids.max", PIDS_MAX); ("/cpu.max", CPU_MAX)]%string.
(** The process is in the named group, which has the frozen ceilings, those of the device
    of the work directory included, and the frozen limit of open files. *)
Record frozen_group (unit work : string) : Prop := {
  unit_named : bad_unit unit = false;
  in_group : reads "/proc/self/cgroup" (eq ("0::/system.slice/" +:+ unit +:+ newline));
  at_ceilings : Forall (fun row => reads (control_group unit +:+ row.1) (fun text => trim_end text = row.2)) CEILINGS;
  device_limited : exists device w w', device_of work w = (Some device, w') /\
    reads (control_group unit +:+ "/io.max") (fun text => trim_end text = io_max_line device);
  files_limited : reads "/proc/self/limits" (fun text => exists line, In line (lines text) /\
    starts_with "Max open files" line = true /\ get_range (split_whitespace line) 3 5 = Some ["4096"; "4096"]%string)
}.
Lemma exact_file_ok path expected (w w' : W) : exact_file path expected w = (Ok tt, w') -> reads path (fun text => trim_end text = expected).
Proof.
  unfold exact_file. intros (text & w1 & H & G)%io_bind_ok. unfold ask in H. destruct (read_to_string path w) as [[t|] w0] eqn:E; [|done].
  injection H as <- <-. apply io_guard_ok in G as [Hn%negb_false_iff%bool_decide_eq_true _]. by exists t, w, w0.
Qed.
Lemma verify_cgroup_ok unit work (w w' : W) : verify_cgroup unit work w = (Ok tt, w') -> frozen_group unit work.
Proof.
  unfold verify_cgroup. intros [Hb H]%io_guard_ok. apply io_bind_ok in H as (group & w1 & Hg & H).
  apply io_guard_ok in H as [Hn%negb_false_iff%bool_decide_eq_true H].
  apply io_bind_ok in H as ([] & w2 & H1%exact_file_ok & H). apply io_bind_ok in H as ([] & w3 & H2%exact_file_ok & H).
  apply io_bind_ok in H as ([] & w4 & H3%exact_file_ok & H). apply io_bind_ok in H as ([] & w5 & H4%exact_file_ok & H).
  apply io_bind_ok in H as (device & w6 & Hd & H). apply io_bind_ok in H as ([] & w7 & H5%exact_file_ok & H).
  apply io_bind_ok in H as (limits & w8 & Hl & H). apply io_bind_ok in H as (line & w9 & [Hf ->]%Snapshots.some_ok & H).
  apply io_guard_ok in H as [Hr%negb_false_iff%bool_decide_eq_true _]. unfold ask in Hd, Hl. unfold total in Hg. split.
  - done.
  - destruct (read_to_string "/proc/self/cgroup" w) as [[g|] w0] eqn:E; injection Hg as <- <-; [|discriminate Hn]. cbn in Hn. by exists g, w, w0.
  - repeat (constructor; [done|]). constructor.
  - destruct (device_of work w5) as [[d|] w0] eqn:E; [|done]. injection Hd as <- <-. by exists d, w5, w0.
  - destruct (read_to_string "/proc/self/limits" w7) as [[t|] w0] eqn:E; [|done]. injection Hl as <- <-. exists t, w7, w0. split; [done|].
    apply find_some in Hf as [Hin Hs]. by exists line.
Qed.
End control.

(** *** The pinned command *)

(** The arguments that confine, with the descriptors of the system directory, of the
    build cell and of the work directory. *)
Definition confinement (usr cell work_fd : Z) : list string :=
  take 12 template ++ ["--ro-bind-fd"; number usr; "/usr"]%string ++ take 11 (drop 15 template)
  ++ ["--perms"; "0500"; "--ro-bind-data"; number cell; "/keep/build-cell"; "--bind-fd"; number work_fd; "/work"]%string.
Definition before_usr : list string := take 11 (drop 1 template).
Definition before_cell : list string := take 11 (drop 15 template).
Definition bound_template (cell work : string) (tail : list string) : list string :=
  ["bwrap"%string] ++ before_usr ++ "--ro-bind"%string :: "/usr"%string :: "/usr"%string ::
  before_cell ++ "--ro-bind"%string :: cell :: "/keep/build-cell"%string :: "--bind"%string :: work :: "/work"%string :: tail.
Lemma befores_plain : plain before_usr /\ plain before_cell.
Proof. split; repeat (constructor; [reflexivity|]); constructor. Qed.
Lemma placeholders cell work l l' tail :
  cell <> "/keep/work-placeholder"%string -> replace_first "/keep/build-cell-placeholder" cell template = Some l ->
  replace_first "/keep/work-placeholder" work l = Some l' -> l' ++ tail = bound_template cell work tail.
Proof.
  intros Hc [= <-] H. cbn in H. rewrite (bool_decide_eq_false_2 (cell = _)) in H by done. by injection H as <-.
Qed.

Section pinned.
Context {F W : Type} {HK : Kernel F W} {HS : SandboxHost F W} (later : W -> W -> Prop) {HE : Evolution HK later} {HO : HostEvolution HS later}.
Context (content : F -> W -> list byte) (offset : F -> W -> Z) (private immutable : F -> W -> Prop).
Context {HM : MemoryFiles HK later content offset private immutable}.
Abbreviation held := (held_for_good content immutable).

Lemma pin_sources_ok cell work tail (w w' : W) argv :
  plain tail -> pin_sources (bound_template cell work tail) w = (Ok argv, w') ->
  later w w' /\ exists usr work_fd file bytes, argv = confinement usr (raw_fd (sealed_file file)) work_fd ++ tail /\ held file bytes w'.
Proof.
  intros Hp H. destruct befores_plain as [Hu Hc]. unfold pin_sources in H. apply io_bind_ok in H as (s & w4 & H & Hend).
  eapply (rebind_skips _ ["bwrap"%string] before_usr) in H as (fuel1 & H); [|reflexivity|done].
  eapply rebind_takes in H as (fuel2 & usr & w1 & H1 & _ & H); [|reflexivity|done].
  eapply (rebind_skips _ _ before_cell) in H as (fuel3 & H); [|reflexivity|exact Hc].
  eapply rebind_takes in H as (fuel4 & cell_fd & w2 & H2 & _ & H); [|reflexivity|done].
  eapply rebind_takes in H as (fuel5 & work_fd & w3 & H3 & _ & H); [|reflexivity|done].
  eapply (rebind_done _ _ tail) in H as [-> ->]; [|reflexivity|done].
  apply io_guard_ok in Hend as [_ Hend]. apply io_bind_ok in Hend as (index & w4 & [[= <-] ->]%Snapshots.some_ok & [= <- <-]).
  change (pin_bind_source "/usr" w = (Ok usr, w1)) in H1. change (pin_cell cell w1 = (Ok cell_fd, w2)) in H2.
  change (pin_bind_source work w2 = (Ok work_fd, w3)) in H3.
  assert (later w w1) by (eapply evolves_run; [by eapply pin_source_evolves|exact H1]).
  assert (later w1 w2) by (eapply evolves_run; [by eapply pin_cell_evolves|exact H2]).
  assert (later w2 w3) by (eapply evolves_run; [by eapply pin_source_evolves|exact H3]).
  split; [by transitivity w1; [|transitivity w2]|].
  apply (pin_cell_ok later content offset private immutable) in H2 as (file & bytes & -> & Hh).
  exists usr, work_fd, file, bytes. split; [exact eq_refl|]. by apply (held_later later content offset private immutable _ _ w2).
Qed.

End pinned.
End Command.

(** ** A small host *)
Module Cabin.

(** Directories by path, stored files, the descriptor directory of /proc, and memory
    files; a memory file is its bytes, its offset and its seals. *)
Inductive handle : Set := Root | Proc | Descriptors | Place (path : string) | Stored (k : nat) | Memory (k : nat).
Record world : Set := mkWorld { memory : list (list byte * Z * Z); position : Z }.
Definition with_position (w : world) p : world := mkWorld (memory w) p.
Definition tool : list byte := str_bytes "hi".
Definition tool_digest : string := default ""%string (OneShot.sha256_hex tool).
Definition manifest : list byte := str_bytes (tool_digest +:+ " 2 bin/cargo" +:+ newline).
Definition manifest_digest : string := default ""%string (OneShot.sha256_hex manifest).
Definition stored : list (string * list byte) := [("m/source/bin/cargo", tool); ("m/list", manifest); ("m/cell", [x07])]%string.
Definition places : list string := ["m"; "m/source"; "usr"]%string.
Definition refused {A} : result IoError A := Err (OsError 2).
Definition found {A} (o : option A) : result IoError A := match o with Some a => Ok a | None => refused end.
Definition fd_number (f : handle) : Z := match f with Stored k => 10 + Z.of_nat k | Memory k => 20 + Z.of_nat k | _ => 3 end.
Definition at_path (path : string) : option handle :=
  if contains places path then Some (Place path) else (fun x => Stored x.1) <$> list_find (fun x : string * list byte => x.1 = path) stored.
Definition openat (f : handle) (name : string) : option handle :=
  match f with
  | Root => if bool_decide (name = "proc"%string) then Some Proc else at_path name
  | Proc => if bool_decide (name = "1/fd"%string) then Some Descriptors else None
  | Descriptors => Stored <$> List.find (fun k => bool_decide (number (fd_number (Stored k)) = name)) (seq 0 3)
  | Place p => at_path (p +:+ "/" +:+ name)
  | _ => None
  end.
Definition directory_identity (inode : Z) : FileIdentity := mkIdentity 9 inode (S_IFDIR + 365) 1 0 0 0 0 0 0 0.
Definition bytes_of (k : nat) : list byte := match stored !! k with Some x => x.2 | None => [] end.
Definition identity_of (f : handle) : option FileIdentity :=
  match f with
  | Proc => Some (directory_identity 100)
  | Descriptors => Some (directory_identity 101)
  | Place _ => Some (directory_identity 102)
  | Stored k => Some (mkIdentity 9 (Z.of_nat k) (S_IFREG + 292) 1 0 0 (len (bytes_of k)) 0 0 0 0)
  | _ => None
  end.
Definition unsealed (seals : Z) : bool := existsb (Z.eqb seals) [0; 32].
Definition on_memory {A} (f : handle) (w : world) (step : list byte * Z * Z -> result IoError A * (list byte * Z * Z)) : result IoError A * world :=
  match f with
  | Memory k =>
      match memory w !! k with
      | Some c => let '(r, c) := step c in (r, mkWorld (<[k := c]> (memory w)) (position w))
      | None => (refused, w)
      end
  | _ => (refused, w)
  end.
#[export] Instance kernel : Kernel handle world := {
  filesystem_root w := (Ok Root, w);
  openat2 f name _ w := (found (openat f name), with_position w 0);
  metadata f w := (found (identity_of f), w);
  filesystem_magic _ w := (Ok PROC_SUPER_MAGIC, w);
  volume_flags _ w := (Ok ST_RDONLY, w);
  statx_mount _ w := (Ok (STATX_MNT_ID_UNIQUE, 7), w);
  try_clone f w := (Ok f, w);
  seek_start f w := match f with Memory _ => on_memory f w (fun '(c, _, s) => (Ok tt, (c, 0, s))) | _ => (Ok tt, with_position w 0) end;
  read f n w :=
    match f with
    | Stored k => let chunk := take (Z.to_nat n) (drop (Z.to_nat (position w)) (bytes_of k)) in (Ok chunk, with_position w (position w + len chunk))
    | _ => (refused, w)
    end;
  read_exact f n w :=
    match f with
    | Stored k => let chunk := take (Z.to_nat n) (drop (Z.to_nat (position w)) (bytes_of k)) in
        if len chunk =? n then (Ok chunk, with_position w (position w + len chunk)) else (Err UnexpectedEof, w)
    | _ => (refused, w)
    end;
  read_to_end f n w := on_memory f w (fun '(c, o, s) => (Ok (take (Z.to_nat (Z.min n (len c))) (drop (Z.to_nat o) c)), (c, o, s)));
  copy _ _ _ w := (refused, w);
  write_all f bytes w := on_memory f w (fun '(c, o, s) => if unsealed s then (Ok tt, (c ++ bytes, o, s)) else (refused, (c, o, s)));
  flush f w := (Ok tt, w);
  sync_all f w := (Ok tt, w);
  set_permissions f _ w := (Ok tt, w);
  mkdirat _ _ _ w := (refused, w);
  unlink_directory _ _ w := (refused, w);
  open_stream _ w := (refused, w);
  rewind _ w := w;
  read_entry _ w := (refused, w);
  raw_fd := fd_number;
  process_id w := (1, w);
  effective_uid w := (0, w);
  reserves _ w := (true, w);
  get_fd_flags _ w := (Ok FD_CLOEXEC, w);
  set_fd_flags _ _ w := (Ok tt, w);
  memfd_create _ flags w :=
    (Ok (Memory (length (memory w))), mkWorld (memory w ++ [([], 0, if Z.land flags MFD_NOEXEC_SEAL =? 0 then 0 else 32)]) (position w));
  add_seals f mask w := on_memory f w (fun '(c, o, s) => if unsealed s then (Ok tt, (c, o, Z.lor s mask)) else (refused, (c, o, s)));
  get_seals f w := on_memory f w (fun '(c, o, s) => (Ok s, (c, o, s)));
  getrandom _ w := (refused, w)
}.
Definition unit : string := "keep-objective3-1.service".
Definition group (leaf : string) : string := "/sys/fs/cgroup/system.slice/" +:+ unit +:+ "/" +:+ leaf.
Definition texts : list (string * string) :=
  [("/proc/self/cgroup", "0::/system.slice/" +:+ unit +:+ newline); (group "memory.max", MEMORY_MAX +:+ newline);
   (group "memory.swap.max", MEMORY_SWAP_MAX +:+ newline); (group "pids.max", PIDS_MAX +:+ newline); (group "cpu.max", CPU_MAX +:+ newline);
   (group "io.max", io_max_line 2049 +:+ newline); ("/proc/self/limits", "Max open files 4096 4096 files" +:+ newline)]%string.
#[export] Instance host : SandboxHost handle world := {
  read_to_string path w := (snd <$> List.find (fun x : string * string => bool_decide (x.1 = path)) texts, w);
  device_of _ w := (Some 2049, w);
  create_new _ w := (Some tt, w);
  path_is_file _ w := (true, w);
  pause _ w := w;
  execveat _ _ _ w := (None, w)
}.
Definition options : Options :=
  mkOptions unit "/m" "/m/source" "/m/list" manifest_digest "/m/cell" "/m/source" "/m/list" manifest_digest "/m/source" "/m/list" manifest_digest
    "check".
Definition start : world := mkWorld [] 0.
Definition prepared := prepare_command options "/keep/build-cell" ["check"%string] start.

Definition later (w w' : world) : Prop :=
  forall k c o s, memory w !! k = Some (c, o, s) -> unsealed s = false -> exists o', memory w' !! k = Some (c, o', s).
Definition content (f : handle) (w : world) : list byte :=
  match f with Memory k => match memory w !! k with Some (c, _, _) => c | None => [] end | _ => [] end.
Definition offset (f : handle) (w : world) : Z :=
  match f with Memory k => match memory w !! k with Some (_, o, _) => o | None => 0 end | _ => 0 end.
Definition private (f : handle) (w : world) : Prop := exists k, f = Memory k /\ is_Some (memory w !! k).
Definition immutable (f : handle) (w : world) : Prop := exists k c o s, f = Memory k /\ memory w !! k = Some (c, o, s) /\ unsealed s = false.

Lemma cabin_same w w' : memory w' = memory w -> later w w'.
Proof. intros E k c o s Hc _. exists o. by rewrite E. Qed.
Lemma cabin_trans w1 w2 w3 : later w1 w2 -> later w2 w3 -> later w1 w3.
Proof. intros H1 H2 k c o s E Hs. destruct (H1 _ _ _ _ E Hs) as [o' E']. exact (H2 _ _ _ _ E' Hs). Qed.
Lemma cabin_memory {A} f w (step : list byte * Z * Z -> result IoError A * (list byte * Z * Z)) :
  (forall c o s, unsealed s = false -> exists o', (step (c, o, s)).2 = (c, o', s)) -> later w (on_memory f w step).2.
Proof.
  intros H k c o s E Hs. unfold on_memory. destruct f as [| | | | |j]; try by exists o.
  destruct (memory w !! j) as [x|] eqn:Ej; [|by exists o]. destruct (step x) as [r x'] eqn:Ex. cbn [snd memory]. destruct (decide (j = k)) as [->|Hne].
  - rewrite Ej in E. injection E as ->. destruct (H c o s Hs) as [o' Ho]. rewrite Ex in Ho. cbn in Ho. exists o'.
    rewrite list_lookup_insert_eq by (by eapply lookup_lt_Some). by rewrite Ho.
  - exists o. by rewrite list_lookup_insert_ne.
Qed.
#[export] Instance kernel_evolution : Evolution kernel later.
Proof.
  constructor; repeat split; try (intros w; by apply cabin_same); try (intros ?; intros w; by apply cabin_same).
  - exact cabin_trans.
  - intros f name how w. by apply cabin_same.
  - intros w. destruct f; try by apply cabin_same. apply cabin_memory. intros c o s _. by exists 0.
  - intros w. destruct f; by apply cabin_same.
  - intros w. destruct f; try by apply cabin_same. cbn. by destruct (_ =? n); apply cabin_same.
  - intros w. apply cabin_memory. intros c o s _. by exists o.
  - intros bytes w. apply cabin_memory. intros c o s Hs. rewrite Hs. by exists o.
  - intros name mask w k c o s E _. exists o. cbn. by apply lookup_app_l_Some.
  - intros mask w. apply cabin_memory. intros c o s Hs. rewrite Hs. by exists o.
  - intros w. apply cabin_memory. intros c o s _. by exists o.
Qed.
#[export] Instance host_evolution : HostEvolution host later.
Proof. split; [intros path; split_and!; intros w; by apply cabin_same|intros n w; by apply cabin_same]. Qed.
Lemma cabin_step {A} k w (step : list byte * Z * Z -> result IoError A * (list byte * Z * Z)) a w' :
  on_memory (Memory k) w step = (Ok a, w') ->
  exists c o s c' o' s', memory w !! k = Some (c, o, s) /\ step (c, o, s) = (Ok a, (c', o', s')) /\ memory w' !! k = Some (c', o', s').
Proof.
  unfold on_memory. destruct (memory w !! k) as [[[c o] s]|] eqn:Ek; [|by intros [=]].
  destruct (step (c, o, s)) as [r [[c' o'] s']] eqn:E. intros [= -> <-]. exists c, o, s, c', o', s'. split_and!; [done..|].
  cbn. by rewrite list_lookup_insert_eq by (by eapply lookup_lt_Some).
Qed.
#[export] Instance kernel_memory : MemoryFiles kernel later content offset private immutable.
Proof.
  constructor.
  - intros name fl w f w' [= <- <-]. exists (length (memory w)). split; [done|]. cbn. by rewrite list_lookup_middle.
  - by intros f mode w w' Hp [= <-].
  - intros f bytes w w' (k & -> & _) (c & o & s & c' & o' & s' & _ & _ & E)%cabin_step. exists k. by rewrite E.
  - by intros f w w' Hp [= <-].
  - intros f w w' (k & -> & _) (c & o & s & c' & o' & s' & E & [= -> -> ->] & E')%cabin_step. unfold content, offset. rewrite E, E'.
    split_and!; [|done..]. exists k. by rewrite E'.
  - intros f n w bytes w' (k & -> & _) (c & o & s & c' & o' & s' & E & [= <- -> -> ->] & E')%cabin_step. unfold content, offset. rewrite E, E'.
    split; [exists k; by rewrite E'|]. split; [done|]. rewrite <- (take_ge (drop (Z.to_nat o') c') (length c')) at 2 by (rewrite length_drop; lia).
    rewrite take_take. f_equal. unfold len. lia.
  - intros f mask w w' (k & -> & _) (c & o & s & c' & o' & s' & E & Hs & E')%cabin_step. unfold content. rewrite E, E'.
    destruct (unsealed s); [injection Hs as -> -> _|discriminate Hs]. split; [exists k; by rewrite E'|done].
  - intros f w seals w' (k & -> & _) (c & o & s & c' & o' & s' & E & [= -> -> -> ->] & E')%cabin_step Hs. unfold content. rewrite E, E'.
    split; [|done]. exists k, c', o', s'. split_and!; [done..|]. apply not_true_iff_false.
    intros (x & Hx & ->%Z.eqb_eq)%existsb_exists. destruct Hx as [<- | [<- | []]]; discriminate Hs.
  - intros f w w' Hl (k & c & o & s & -> & E & Hs). destruct (Hl _ _ _ _ E Hs) as [o' E']. unfold content. rewrite E, E'.
    split; [|done]. by exists k, c, o', s.
Qed.
End Cabin.
Import Cabin Command.

