(* ===== verification/Programs.v ===== *)
(** * The programs of the capture and of the transport

    [p2-d2-supervisor/src/bin/keep-native-patch-capture.rs]: one request on the standard
    input, one response on the standard output.
    [transport/src/bin/keep-native-supervisor.rs] and [keep-native-client.rs]: the two
    ends of the exchange of [Transport]; the client takes the digest of the other end
    from its own package. *)

From S2P Require Import Prelude Cbor Sha256 Paths PatchOverlay SourceRows Directory Supervisor Landlock World Transport Sandbox.

(** ** The capture *)
Module Capture.

(** The standard input: what it yields, and whether it ends with an error. *)
Record Stdin : Set := mkStdin { content : list byte; broken : bool }.
(** [read_exact] of [n] bytes. *)
Definition read_exact (n : Z) (s : Stdin) : option (list byte * Stdin) :=
  if len (content s) <? n then None else Some (take (Z.to_nat n) (content s), mkStdin (drop (Z.to_nat n) (content s)) (broken s)).
(** [reserves n] is the answer of the allocator. *)
Definition read_request (reserves : Z -> bool) (s : Stdin) : capture (list byte) :=
  let? (length, s) := ok_or (read_exact 4 s) (Error Malformed) in
  let n := be_value length in
  throw_if n =? 0 with Error Malformed ;;
  throw_if MAX_CAPTURE_FRAME_BYTES <? n with Error Limit ;;
  throw_if negb (reserves n) with Error Limit ;;
  let? (bytes, s) := ok_or (read_exact n s) (Error Malformed) in
  throw_if bool_decide (content s = []) && broken s with Error Io ;;
  throw_if negb (bool_decide (content s = [])) with Error Malformed ;;
  Ok bytes.

(** [std::io::BufWriter] with a capacity. *)
Record BufWriter (O : Type) : Type := mkBuffered { inner : O; pending : list byte }.
Arguments mkBuffered {O}.
Arguments inner {O}.
Arguments pending {O}.

Section buffered.
Context {O : Type} {HW : Write O}.
Definition flush_buf (b : BufWriter O) : option (BufWriter O) :=
  if bool_decide (pending b = []) then Some b
  else match write_all (inner b) (pending b) with Some o => Some (mkBuffered o []) | None => None end.
Definition buffered_write (capacity : Z) (b : BufWriter O) (bytes : list byte) : option (BufWriter O) :=
  if len bytes <? capacity - len (pending b) then Some (mkBuffered (inner b) (pending b ++ bytes))
  else
    match (if capacity - len (pending b) <? len bytes then flush_buf b else Some b) with
    | None => None
    | Some b =>
        if capacity <=? len bytes
        then match write_all (inner b) bytes with Some o => Some (mkBuffered o (pending b)) | None => None end
        else Some (mkBuffered (inner b) (pending b ++ bytes))
    end.
Definition buffered_flush (b : BufWriter O) : option (BufWriter O) :=
  match flush_buf b with
  | Some b => match flush (inner b) with Some o => Some (mkBuffered o (pending b)) | None => None end
  | None => None
  end.
#[export] Instance buffered : Write (BufWriter O) := { write_all := buffered_write MAX_CAPTURE_FRAME_BYTES; flush := buffered_flush }.
End buffered.

Section run.
Context {Dir World O : Type} {HP : PinnedDirectory Dir World} {HW : Write O}.
Variable open_root : string -> World -> result io_error (Dir * World).
Variable reserve : SourceRowsBuilder -> bool.
Variable reserve_body : SourceRowsBuilder -> Z -> bool.
Variable reserves : Z -> bool.

(** [arguments] is the number of arguments, the name of the program included.  What is
    pending in the buffer is lost with [inner]; it is nothing after a flush. *)
Definition run (arguments : Z) (input : Stdin) (w : World) (o : O) : capture (BufWriter O * World) :=
  throw_if negb (arguments =? 1) with Error Malformed ;;
  let? bytes := read_request reserves input in
  let? request := capture_input_request bytes in
  let? (captured, w) := capture_patch_inputs open_root reserve reserve_body request w in
  let? output := write_response captured (mkBuffered o []) in
  Ok (output, w).
End run.
(** The exit code and what is written on the standard error; [None] is a panic. *)
Definition exit {A : Type} (r : capture A) : option (Z * string) :=
  match r with
  | Ok _ => Some (0, ""%string)
  | Err (Error e) => Some (2, code e +:+ newline)
  | Err _ => None
  end.
End Capture.

(** ** The ends of the exchange *)
Module Endpoints.

(** What [fs::Metadata] says of a file of the package. *)
Record PackageFile : Set := mkPackageFile { entry : Metadata; is_regular : bool; size : Z }.
(** [open_package] opens a directory without following a link, [open_in] a name in it
    for reading, without following a link; [read_at_most f n] reads to the end, at most
    [n] bytes. *)
Class PackageHost (D W : Type) := {
  current_executable : W -> option string * W;
  canonicalize : string -> W -> option string * W;
  open_package : string -> W -> option D * W;
  open_in : D -> string -> W -> option D * W;
  file_metadata : D -> W -> option PackageFile * W;
  read_at_most : D -> Z -> W -> option (list byte) * W
}.

(** The value after the first argument that is [name]. *)
Fixpoint argument (name : string) (arguments : list string) : transport string :=
  match arguments with
  | [] => Err (Error (Refusal ("missing argument " +:+ name)))
  | a :: rest =>
      if bool_decide (a = name)
      then match rest with value :: _ => Ok value | [] => Err (Error (Refusal ("missing value for " +:+ name))) end
      else argument name rest
  end.
Definition number_argument (name invalid : string) (arguments : list string) : transport Z :=
  let? text := argument name arguments in ok_or (parse_uint u32_max text) (Error (Refusal invalid)).

(** [Path] compares components: the parts between separators, without empty parts and
    [.] parts, except a [.] that begins a relative path. *)
Definition normal (part : string) : bool := negb (bool_decide (part = ""%string)) && negb (bool_decide (part = "."%string)).
Definition components (path : string) : bool * list string :=
  match split x2f path with
  | ""%string :: parts => (starts_with "/" path, List.filter normal parts)
  | part :: parts => (false, part :: List.filter normal parts)
  | [] => (false, [])
  end.
Definition same_path (a b : string) : bool := bool_decide (components a = components b).
(** [path.ancestors().skip(1)] *)
Fixpoint ancestors (fuel : nat) (path : string) : option (list string) :=
  match parent_of path with
  | None => Some []
  | Some p => match fuel with O => None | S fuel => (fun l => p :: l) <$> ancestors fuel p end
  end.
Definition DIGEST_FILE : string := "keep-native-supervisor.sha256".

Section endpoints.
Context {F P D W O : Type} {HS : Sockets F P W} {HD : PackageHost D W} {HW : Write O}.

Definition root_owned (m : Metadata) : bool := (owner m =? 0) && (group m =? 0).
Fixpoint check_ancestors (l : list string) : net W unit :=
  match l with
  | [] => io_ret tt
  | ancestor :: l =>
      let! m := system "client package ancestor metadata" (symlink_metadata ancestor) in
      refuse_if negb (is_dir m) || is_symlink m || negb (root_owned m) || negb (Z.land (mode m) 18 =? 0)
        with Refusal "client package ancestor ownership or mode is invalid" ;;
      check_ancestors l
  end.
(** 0777 is 511, 0555 is 365 and 0444 is 292. *)
Definition packaged_supervisor_digest (package : string) : net W (string * Z) :=
  let! real := system "canonicalize package" (canonicalize package) in
  refuse_if negb (same_path real package) with Refusal "client package directory is not canonical" ;;
  let! directory := system "open client package directory" (open_package package) in
  let! m := system "client package directory metadata" (file_metadata directory) in
  refuse_if negb (is_dir (entry m)) || negb (root_owned (entry m)) || negb (Z.land (mode (entry m)) 511 =? 365)
    with Refusal "client package directory ownership or mode is invalid" ;;
  let! above := pure (ok_or (ancestors (length (str_bytes package)) package) OutOfFuel) in
  let! _ := check_ancestors above in
  let! file := system "open packaged supervisor digest" (open_in directory DIGEST_FILE) in
  let! before := system "packaged supervisor digest metadata" (file_metadata file) in
  refuse_if negb (is_regular before) || negb (root_owned (entry before)) || negb (Z.land (mode (entry before)) 511 =? 292)
            || negb (size before =? 65)
    with Refusal "packaged supervisor digest ownership, mode, or size is invalid" ;;
  let! bytes := system "read packaged supervisor digest" (read_at_most file 66) in
  let! after := system "recapture packaged supervisor digest metadata" (file_metadata file) in
  refuse_if negb (device (entry before) =? device (entry after)) || negb (inode (entry before) =? inode (entry after))
            || negb (size before =? size after) || negb (len bytes =? 65) || negb (bool_decide (bytes !! 64%nat = Some x0a))
    with Refusal "packaged supervisor digest changed during capture" ;;
  let digest := take 64 bytes in
  refuse_if negb (utf8_valid digest) with Refusal "packaged supervisor digest is not UTF-8" ;;
  refuse_if negb (forallb is_hex_digit digest) with Refusal "packaged supervisor digest is malformed" ;;
  io_ret (str_of_bytes digest, device (entry m)).

(** [arguments] are those after the name of the program. *)
Definition supervisor_main (arguments : list string) : net W unit :=
  let! socket := pure (argument "--socket" arguments) in
  let! uid := pure (number_argument "--expected-client-uid" "invalid expected client uid" arguments) in
  let! gid := pure (number_argument "--expected-client-gid" "invalid expected client gid" arguments) in
  let! label := pure (argument "--expected-client-security-label" arguments) in
  serve_one_refusal socket uid gid (str_bytes label).
(** The client of a release build; [input] is the standard input, [o] the output. *)
Definition client_main (arguments : list string) (input : option (list byte)) (o : O) : net W O :=
  let! socket := pure (argument "--socket" arguments) in
  let! uid := pure (number_argument "--expected-server-uid" "invalid expected server uid" arguments) in
  let! gid := pure (number_argument "--expected-server-gid" "invalid expected server gid" arguments) in
  let! label := pure (argument "--expected-server-security-label" arguments) in
  let! executable := system "current executable" current_executable in
  let! package := pure (ok_or (parent_of executable) (Error (Refusal "client executable has no package directory"))) in
  let! (digest, device) := packaged_supervisor_digest package in
  let! request := pure (read_framed input) in
  let! response := exchange_refusal socket uid gid (str_bytes label) digest (Some device) request in
  pure (write_framed o response).
End endpoints.
End Endpoints.
