(* ===== verification/ProgramsFacts.v ===== *)
(** * What the programs of the capture and of the transport promise *)

From S2P Require Import Prelude Cbor Sha256 Paths PatchOverlay SourceRows SourceRowsFacts Directory DirectoryFacts Supervisor SupervisorFacts Landlock World Transport Sandbox CaptureFacts TransportFacts Programs.
Import Builder Wire Budget Captured Framing Peers.

(** ** The buffered output *)
Module BufferedFacts.
Import Programs.Capture.
Section buffered.
Context {O : Type} {HW : Write O} (view : O -> list byte) {HL : WriteLaws O view}.

(** What the buffer will have written. *)
Definition written (b : BufWriter O) : list byte := view (inner b) ++ pending b.
Lemma flush_buf_ok b b' : flush_buf b = Some b' -> written b' = written b /\ pending b' = [].
Proof.
  unfold flush_buf, written. case_bool_decide as E; [by intros [= <-]|]. destruct (write_all _ _) as [o|] eqn:Ho; [|done]. intros [= <-].
  cbn [inner pending]. by rewrite (write_appends _ _ _ Ho), app_nil_r.
Qed.
Lemma buffered_write_ok capacity b bytes b' : buffered_write capacity b bytes = Some b' -> written b' = written b ++ bytes.
Proof.
  unfold buffered_write. destruct (Z.ltb_spec (len bytes) (capacity - len (pending b))) as [_|Hs].
  { intros [= <-]. unfold written. cbn. by rewrite app_assoc. }
  set (flushed := if _ <? _ then _ else _). destruct flushed as [b1|] eqn:Hf; [|done].
  assert (written b1 = written b /\ (capacity <= len bytes -> pending b1 = [])) as [E Hp].
  { subst flushed. destruct (Z.ltb_spec (capacity - len (pending b)) (len bytes)) as [_|Hge].
    - apply flush_buf_ok in Hf as [-> ->]. done.
    - injection Hf as ->. split; [done|]. intros Hc. destruct (pending b1) as [|c l]; [done|]. unfold len in *. cbn [length] in *. lia. }
  destruct (Z.leb_spec capacity (len bytes)) as [Hc|_].
  - destruct (write_all _ _) as [o|] eqn:Ho; [|done]. intros [= <-]. rewrite <- E. unfold written. cbn. rewrite (write_appends _ _ _ Ho), (Hp Hc).
    by rewrite !app_nil_r.
  - intros [= <-]. rewrite <- E. unfold written. cbn. by rewrite app_assoc.
Qed.
Lemma buffered_flush_ok b b' : buffered_flush b = Some b' -> written b' = written b /\ pending b' = [].
Proof.
  unfold buffered_flush. destruct (flush_buf b) as [b1|] eqn:Hf; [|done]. apply flush_buf_ok in Hf as [<- Hp].
  destruct (flush (inner b1)) as [o|] eqn:Ho; [|done]. intros [= <-]. unfold written. cbn. by rewrite (flush_keeps _ _ Ho).
Qed.
#[export] Instance buffered_laws : WriteLaws (BufWriter O) written.
Proof. split; [by intros b bytes b' H%buffered_write_ok|by intros b b' [H _]%buffered_flush_ok]. Qed.
#[export] Instance buffered_accepting {HA : Accepting O} : Accepting (BufWriter O).
Proof.
  assert (forall b : BufWriter O, exists b', flush_buf b = Some b') as Hf.
  { intros b. unfold flush_buf. case_bool_decide; [by exists b|]. destruct (write_accepted (inner b) (pending b)) as [o ->]. by eexists. }
  split.
  - intros b bytes. cbn [write_all buffered]. unfold buffered_write. destruct (_ <? _); [by eexists|].
    assert (exists b1, (if MAX_CAPTURE_FRAME_BYTES - len (pending b) <? len bytes then flush_buf b else Some b) = Some b1) as [b1 ->].
    { destruct (_ <? _); [apply Hf|by exists b]. }
    destruct (_ <=? _); [|by eexists]. destruct (write_accepted (inner b1) bytes) as [o ->]. by eexists.
  - intros b. cbn [flush buffered]. unfold buffered_flush. destruct (Hf b) as [b1 ->]. destruct (flush_accepted (inner b1)) as [o ->]. by eexists.
Qed.
(** A response that ends well leaves nothing in the buffer. *)
Lemma response_flushed i (b b' : BufWriter O) : write_response i b = Ok b' -> pending b' = [].
Proof.
  unfold write_response. intros (s0 & _ & H)%bind_ok. apply bind_ok in H as (s1 & _ & H). apply bind_ok in H as (s2 & _ & H).
  apply bind_ok in H as (s3 & _ & H). unfold finish_response in H. apply bind_ok in H as (d & _ & H). apply bind_ok in H as (s4 & _ & H).
  apply ok_or_ok in H. by apply buffered_flush_ok in H as [_ H].
Qed.
End buffered.
End BufferedFacts.
Import BufferedFacts.

(** ** The capture *)
Module CaptureRun.
Import Programs.Capture.

(** The input that is exactly one frame. *)
Definition one_frame (bytes : list byte) : Stdin := mkStdin (be_bytes 4 (len bytes) ++ bytes) false.
Lemma read_exact_ok n s bytes s' : 0 <= n -> read_exact n s = Some (bytes, s') <->
  len bytes = n /\ content s = bytes ++ content s' /\ broken s' = broken s.
Proof.
  intros Hn. unfold read_exact. destruct (Z.ltb_spec (len (content s)) n) as [Hl|Hl].
  - split; [done|]. intros (<- & E & _). rewrite E, len_app in Hl. pose proof (len_nonneg (content s')). lia.
  - split.
    + intros [= <- <-]. cbn. rewrite take_drop. split_and!; [|done..]. unfold len in *. rewrite length_take. lia.
    + intros (El & E & Eb). destruct s as [c b], s' as [c' b']. cbn [content broken] in *. subst c b'.
      assert (Z.to_nat n = length bytes) as -> by (unfold len in El; lia). by rewrite take_app_length, drop_app_length.
Qed.
Lemma read_request_ok reserves s bytes :
  read_request reserves s = Ok bytes <-> s = one_frame bytes /\ 0 < len bytes <= MAX_CAPTURE_FRAME_BYTES /\ reserves (len bytes) = true.
Proof.
  unfold read_request. split.
  - intros ([head s1] & H%ok_or_ok & G)%bind_ok. apply read_exact_ok in H as (Hh & E & B); [|done].
    apply guard_ok in G as [H0 G]. apply guard_ok in G as [Hm G]. apply guard_ok in G as [Hr G]. apply bind_ok in G as ([body s2] & H%ok_or_ok & G).
    pose proof (be_value_range head) as Hb.
    apply read_exact_ok in H as (Hl & E1 & B1); [|lia]. apply guard_ok in G as [Hbr G]. apply guard_ok in G as [He [= <-]]. bool_to_prop.
    split; [|split; [lia|by rewrite Hl]]. destruct s as [c b], s1 as [c1 b1], s2 as [c2 b2]. cbn [content broken] in *. subst. unfold one_frame. f_equal.
    + rewrite app_nil_r. f_equal. rewrite Hl. rewrite be_bytes_value_len; [done|]. unfold len in Hh. lia.
    + rewrite bool_decide_eq_true_2 in Hbr by done. by destruct b.
  - intros (-> & [H0 Hm] & Hr). unfold one_frame.
    rewrite (proj2 (read_exact_ok 4 _ (be_bytes 4 (len bytes)) (mkStdin bytes false) ltac:(lia))); [|cbn [content broken]; split_and!; [apply len_be_bytes|done..]].
    cbn [ok_or res_bind]. rewrite be_value_bytes, Z.mod_small by (unfold MAX_CAPTURE_FRAME_BYTES in Hm; lia).
    rewrite (proj2 (Z.eqb_neq _ _)), (proj2 (Z.ltb_ge _ _)), Hr by lia. cbn [negb].
    rewrite (proj2 (read_exact_ok (len bytes) _ bytes (mkStdin [] false) ltac:(lia))); [done|cbn [content broken]; by rewrite app_nil_r].
Qed.
Lemma one_frame_inj a b : one_frame a = one_frame b -> a = b.
Proof. intros E%(f_equal content). unfold one_frame in E. cbn [content] in E. apply app_inj_1 in E as [_ E]; [done|]. by rewrite !length_be_bytes. Qed.
End CaptureRun.
Import CaptureRun.

(** C4. The capture program answers its request and nothing else.  When it ends well, it
    had no argument, its input was exactly one frame, the frame was an accepted request
    whose inputs were captured, and the output holds, whatever the buffer did, the
    complete response to them: the header, a row and the 32 KiB chunks of every source
    file, the two inputs with their chunks, each as a canonical encoding behind its
    length, and last a frame with the SHA-256 of everything before it.  And it does end
    well on every such input, when memory and the output do not fail. *)
Theorem capture_program_exact {Dir World O : Type} {HP : PinnedDirectory Dir World} {HW : Write O} (view : O -> list byte)
    {HL : WriteLaws O view} {HA : Accepting O} open_root reserve reserve_body reserves arguments input (w : World) (o : O) w' :
  (forall b', Programs.Capture.run (Dir:=Dir) open_root reserve reserve_body reserves arguments input w o = Ok (b', w') ->
     exists bytes r i encs digest last,
       arguments = 1 /\ input = one_frame bytes /\ 0 < len bytes <= MAX_CAPTURE_FRAME_BYTES /\ capture_input_request bytes = Ok r /\
       capture_patch_inputs (Dir:=Dir) open_root reserve reserve_body r w = Ok (i, w') /\ request i = r /\ wire_of i encs digest last /\
       Programs.Capture.pending b' = [] /\
       view (Programs.Capture.inner b') = view o ++ concat (map framed encs) ++ framed last) /\
  (forall bytes r i, bytes <> [] -> reserves (len bytes) = true -> capture_input_request bytes = Ok r ->
     capture_patch_inputs (Dir:=Dir) open_root reserve reserve_body r w = Ok (i, w') ->
     exists b', Programs.Capture.run (Dir:=Dir) open_root reserve reserve_body reserves 1 (one_frame bytes) w o = Ok (b', w')).
Proof.
  unfold Programs.Capture.run. split.
  - intros b' [Ha H]%guard_ok. apply bind_ok in H as (bytes & [-> [Hl _]]%read_request_ok & H). apply bind_ok in H as (r & Hr & H).
    apply bind_ok in H as ([i w1] & Hc & H). apply bind_ok in H as (b & Hw & [= <- <-]). bool_to_prop.
    pose proof (response_flushed view i _ _ Hw) as Hp. destruct (write_response_spec (written view) i _ _ Hw) as (encs & digest & last & Hwire & Hv).
    unfold written in Hv. rewrite Hp in Hv. cbn [Programs.Capture.inner Programs.Capture.pending] in Hv. rewrite !app_nil_r in Hv.
    exists bytes, r, i, encs, digest, last. split_and!; try done; try lia. by apply capture_steps in Hc as [E _].
  - intros bytes r i Hn Hres Hr Hc. destruct (captured_ok _ _ _ _ _ _ _ _ Hr Hc) as [Hok Hbudget].
    destruct (budgeted_completes (HW := Programs.Capture.buffered) (written view) i (Programs.Capture.mkBuffered o []) Hok Hbudget) as [b' Hb].
    exists b'. cbn [negb Z.eqb]. rewrite (proj2 (read_request_ok reserves (one_frame bytes) bytes)).
    + cbn [res_bind]. rewrite Hr. cbn [res_bind]. rewrite Hc. cbn [res_bind]. by rewrite Hb.
    + split; [done|]. split; [|done]. split; [destruct bytes; [done|]; rewrite len_cons; pose proof (len_nonneg bytes); lia|].
      unfold capture_input_request in Hr. apply guard_ok in Hr as [Hr _]. by apply Z.ltb_ge in Hr.
Qed.

Import Trees Sample Exchange.
Definition program_run := Programs.Capture.run open_memory grant (fun _ _ => true) (fun _ => true) 1 (one_frame request_bytes) tt (@nil byte).
Lemma capture_program_exact_witness :
  capture_input_request request_bytes = Ok request_of /\
  exists b' encs digest last, program_run = Ok (b', tt) /\ wire_of inputs encs digest last /\
    Programs.Capture.inner b' = concat (map framed encs) ++ framed last.
Proof.
  split; [exact request_captured|]. pose proof (capture_program_exact (fun o => o) open_memory grant (fun _ _ => true) (fun _ => true) 1
    (one_frame request_bytes) tt [] tt) as [Hs Hc].
  destruct (Hc request_bytes request_of inputs ltac:(discriminate) eq_refl request_captured inputs_captured) as [b' Hb].
  destruct (Hs b' Hb) as (bytes & r & i & encs & digest & last & _ & E%one_frame_inj & _ & Hr & Hi & _ & Hw & _ & Hv).
  subst bytes. rewrite request_captured in Hr. injection Hr as <-. pose proof inputs_captured as H. unfold capture_of in H. rewrite H in Hi.
  injection Hi as <-. exists b', encs, digest, last. split; [exact Hb|]. split; [exact Hw|exact Hv].
Defined.

(** ** The ends of the exchange *)
Import Programs.Endpoints.

(** What is asked of the package is no event of the exchange. *)
Class PackageLaws {D W Ev : Type} (HD : PackageHost D W) (events : W -> list Ev) : Prop := {
  package_silent : silent events current_executable /\ forall path, silent events (canonicalize path) /\ silent events (open_package path);
  package_file_silent : forall f : D, silent events (file_metadata f) /\ (forall name, silent events (open_in f name)) /\
    forall n, silent events (read_at_most f n)
}.

Module Packaged.
Section packaged.
Context {F P D W O : Type} {HS : Sockets F P W} {HD : PackageHost D W} {HW : Write O} (view : O -> list byte) {HV : WriteLaws O view}.
Context (events : W -> list (event F)) (credentials_of : F -> Credentials) (label_of : F -> list byte).
Context {HL : SocketLaws F P W events credentials_of label_of} {HP : PackageLaws HD events}.

(** What the system has answered. *)
Definition gave {A : Type} (m : W -> option A * W) (a : A) : Prop := exists w w', m w = (Some a, w').
(** A directory that only root may change. *)
Definition root_directory (path : string) : Prop :=
  exists m, gave (symlink_metadata path) m /\ is_dir m = true /\ is_symlink m = false /\ root_owned m = true /\ Z.land (mode m) 18 = 0.
(** [digest] is what the package of [device] says of the other end. *)
Record packaged (package digest : string) (device_of : Z) : Prop := {
  package_canonical : exists real, gave (canonicalize package) real /\ components real = components package;
  package_opened : exists d m, gave (open_package package) d /\ gave (file_metadata d) m /\ device (entry m) = device_of /\
    is_dir (entry m) = true /\ root_owned (entry m) = true /\ Z.land (mode (entry m)) 511 = 365 /\
    exists f before bytes, gave (open_in d DIGEST_FILE) f /\ gave (file_metadata f) before /\ is_regular before = true /\
      root_owned (entry before) = true /\ Z.land (mode (entry before)) 511 = 292 /\ gave (read_at_most f 66) bytes /\
      bytes = str_bytes digest ++ [x0a];
  package_above : exists above, ancestors (length (str_bytes package)) package = Some above /\ Forall root_directory above;
  digest_wellformed : slen digest = 64 /\ forallb is_hex_digit (str_bytes digest) = true
}.

Abbreviation quietly := (World.quietly (E:=TransportError) events).
Lemma quietly_system {A} context (m : W -> option A * W) : silent events m -> quietly (system context m) (gave m).
Proof. intros Hs. apply quietly_ask; [exact Hs|]. intros w a w' H. by exists w, w'. Qed.
Lemma check_ancestors_quiet l : quietly (check_ancestors l) (fun _ => Forall root_directory l).
Proof.
  induction l as [|a l IH]; cbn [check_ancestors]; [by apply adds_ret|].
  eapply quietly_then; [apply quietly_system, paths_silent|done|]. intros m Hm. apply adds_guard; [done|].
  intros [[[H1%negb_false_iff H2]%orb_false_iff H3%negb_false_iff]%orb_false_iff H4%negb_false_iff%Z.eqb_eq]%orb_false_iff.
  eapply adds_weaken; [exact IH|]. intros [u|e] k [-> H]; [|done]. split; [done|]. constructor; [by exists m|exact H].
Qed.
Lemma packaged_quiet package : quietly (packaged_supervisor_digest package) (fun r => packaged package r.1 r.2).
Proof.
  unfold packaged_supervisor_digest.
  eapply quietly_then; [apply quietly_system, package_silent|done|]. intros real Hreal. apply adds_guard; [done|].
  intros Hsame%negb_false_iff%bool_decide_eq_true.
  eapply quietly_then; [apply quietly_system, package_silent|done|]. intros d Hd.
  eapply quietly_then; [apply quietly_system, package_file_silent|done|]. intros m Hm. apply adds_guard; [done|].
  intros [[H1%negb_false_iff H2%negb_false_iff]%orb_false_iff H3%negb_false_iff%Z.eqb_eq]%orb_false_iff.
  eapply quietly_then; [apply quietly_pure|done|]. intros above Ha%ok_or_ok.
  eapply quietly_then; [apply check_ancestors_quiet|done|]. intros [] Habove.
  eapply quietly_then; [apply quietly_system, package_file_silent|done|]. intros f Hf.
  eapply quietly_then; [apply quietly_system, package_file_silent|done|]. intros before Hb. apply adds_guard; [done|].
  intros [[[B1%negb_false_iff B2%negb_false_iff]%orb_false_iff B3%negb_false_iff%Z.eqb_eq]%orb_false_iff _]%orb_false_iff.
  eapply quietly_then; [apply quietly_system, package_file_silent|done|]. intros bytes Hbytes.
  eapply quietly_then; [apply quietly_system, package_file_silent|done|]. intros after _. apply adds_guard; [done|].
  intros [[_ C1%negb_false_iff%Z.eqb_eq]%orb_false_iff C2%negb_false_iff%bool_decide_eq_true]%orb_false_iff.
  apply adds_guard; [done|]. intros _. apply adds_guard; [done|]. intros C3%negb_false_iff. apply adds_ret. split; [done|].
  assert (len (take 64 bytes) = 64) as Hlen by (unfold len in *; rewrite length_take; lia).
  split; cbn [fst snd].
  - by exists real.
  - exists d, m. split_and!; try done. exists f, before, bytes. split_and!; try done. rewrite str_bytes_of_bytes.
    rewrite <- (take_drop 64 bytes) at 1. f_equal. apply drop_S in C2. rewrite C2. f_equal. apply nil_length_inv. rewrite length_drop. unfold len in C1. lia.
  - by exists above.
  - unfold slen. by rewrite str_bytes_of_bytes.
Qed.

(** What the arguments of an end say. *)
Definition addressed (role : string) (arguments : list string) (socket : string) (uid gid : Z) (label : list byte) : Prop :=
  argument "--socket" arguments = Ok socket /\
  (exists text, argument ("--expected-" +:+ role +:+ "-uid") arguments = Ok text /\ parse_uint u32_max text = Some uid) /\
  (exists text, argument ("--expected-" +:+ role +:+ "-gid") arguments = Ok text /\ parse_uint u32_max text = Some gid) /\
  exists text, argument ("--expected-" +:+ role +:+ "-security-label") arguments = Ok text /\ label = str_bytes text.
Lemma number_argument_ok name invalid arguments n :
  number_argument name invalid arguments = Ok n -> exists text, argument name arguments = Ok text /\ parse_uint u32_max text = Some n.
Proof. unfold number_argument. intros (text & Ht & Hn%ok_or_ok)%bind_ok. by exists text. Qed.

(** What a program has done when it ends: nothing, or one exchange as addressed. *)
Definition server_ran (arguments : list string) (r : result (failure TransportError) unit) (l : list (event F)) : Prop :=
  (l = [] /\ exists e, r = Err e) \/
  exists socket uid gid label, addressed "client" arguments socket uid gid label /\ served credentials_of label_of uid gid label r l.
Definition client_ran (arguments : list string) (input : option (list byte)) (o : O) (r : result (failure TransportError) O)
    (l : list (event F)) : Prop :=
  (l = [] /\ exists e, r = Err e) \/
  exists socket uid gid label executable package digest dev request answer,
    addressed "server" arguments socket uid gid label /\ gave current_executable executable /\ parent_of executable = Some package /\
    packaged package digest dev /\ input = Some (frame_of request) /\
    exchanged credentials_of label_of uid gid label digest (Some dev) request answer l /\
    match r with Ok o' => exists response, answer = Ok response /\ view o' = view o ++ frame_of response | Err _ => True end.

Abbreviation adds := (World.adds (E:=TransportError) events).
Tactic Notation "next" simple_intropattern(x) simple_intropattern(H) :=
  eapply quietly_then; [apply quietly_pure|intros e; left; split; [done|by exists e]|intros x H].
Lemma supervisor_adds arguments : adds (supervisor_main arguments) (server_ran arguments).
Proof.
  unfold supervisor_main. next socket H1. next uid H2. next gid H3. next label H4.
  eapply adds_weaken; [exact (serve_adds events credentials_of label_of socket uid gid (str_bytes label))|]. intros r l H. right.
  exists socket, uid, gid, (str_bytes label). split; [|exact H]. split; [done|]. split; [exact (number_argument_ok _ _ _ _ H2)|].
  split; [exact (number_argument_ok _ _ _ _ H3)|by exists label].
Qed.
Lemma client_adds arguments input o : adds (client_main arguments input o) (client_ran arguments input o).
Proof.
  unfold client_main. next socket H1. next uid H2. next gid H3. next label H4.
  eapply quietly_then; [apply quietly_system, package_silent|intros e; left; split; [done|by exists e]|]. intros executable He.
  next package Hp%ok_or_ok. eapply quietly_then; [apply packaged_quiet|intros e; left; split; [done|by exists e]|]. intros [digest dev] Hd.
  next request Hr. assert (input = Some (frame_of request)) as -> by (destruct input; [|done]; by apply read_framed_ok in Hr as [_ ->]). clear Hr.
  assert (forall r l, exchanged credentials_of label_of uid gid (str_bytes label) digest (Some dev) request r l ->
    client_ran arguments (Some (frame_of request)) o (match r with Ok response => write_framed o response | Err e => Err e end) l) as Hran.
  { intros r l H. right. exists socket, uid, gid, (str_bytes label), executable, package, digest, dev, request, r. split_and!; try done.
    - split; [done|]. split; [exact (number_argument_ok _ _ _ _ H2)|]. split; [exact (number_argument_ok _ _ _ _ H3)|by exists label].
    - destruct r as [response|e]; [|done]. destruct (write_framed o response) as [o'|e] eqn:Ew; [|done].
      exists response. split; [done|]. by apply (write_framed_ok view) in Ew as [_ E]. }
  eapply adds_bind; [exact (exchange_adds events credentials_of label_of socket uid gid (str_bytes label) digest (Some dev) request)| |].
  - intros e l H. exact (Hran (Err e) l H).
  - intros response l H w r w' [= <- <-]. exists []. split; [by rewrite app_nil_r|]. rewrite app_nil_r. exact (Hran (Ok response) l H).
Qed.
End packaged.
End Packaged.
Import Packaged.

(** C22. Both ends of the transport, from their arguments.  Whatever the system does, the
    helper answers at most once and only a peer that connected with the user, group and
    security label of its arguments, after one whole packet without descriptors or other
    ancillary data, and with nothing but the refusal of that packet.  The client sends at
    most the one frame of its input, only to a peer with the user, group and label of its
    arguments whose executable it has measured to have the digest that its own package
    names and to lie on the device of the package; the package was a canonical directory
    of root with mode 0555 below directories that only root may change; and what it
    writes is the answer of that peer, one whole packet, as one frame. *)
Theorem endpoints_sound {F P D W O : Type} {HS : Sockets F P W} {HD : PackageHost D W} {HW : Write O} (view : O -> list byte) {HV : WriteLaws O view}
    (events : W -> list (event F)) (credentials_of : F -> Credentials) (label_of : F -> list byte)
    (HL : SocketLaws F P W events credentials_of label_of) (HP : PackageLaws HD events) arguments input (o : O) w :
  (forall r w', supervisor_main arguments w = (r, w') ->
    exists l, events w' = events w ++ l /\ server_ran credentials_of label_of arguments r l) /\
  (forall r w', client_main arguments input o w = (r, w') ->
    exists l, events w' = events w ++ l /\ client_ran (D := D) view credentials_of label_of arguments input o r l).
Proof.
  split; intros r w' H.
  - exact (supervisor_adds events credentials_of label_of arguments w r w' H).
  - exact (client_adds view events credentials_of label_of arguments input o w r w' H).
Qed.

(** ** A package *)
Module Packed.
Import Local.
#[local] Existing Instance local_sockets.
Definition root_metadata (m : Z) (directory : bool) : Metadata := mkMetadata directory false false 0 0 m 1 1.
(** The directory of the program, and the file of the digest in it. *)
#[export] Instance package_host : PackageHost bool (list (event unit)) := {|
  current_executable := keep (Some "/run/keep-native-client"%string);
  canonicalize path := keep (Some path);
  open_package path := keep (Some true);
  open_in d name := keep (Some false);
  file_metadata d := keep (Some (if d then mkPackageFile (root_metadata 365 true) false 0 else mkPackageFile (root_metadata 292 false) true 65));
  read_at_most f n := keep (Some (str_bytes expected_executable ++ [x0a]))
|}.
Lemma package_laws : PackageLaws package_host (fun w : list (event unit) => w).
Proof. constructor; repeat split. Qed.
Definition arguments : list string :=
  ["--socket"; "/run/keep"; "--expected-server-uid"; "0"; "--expected-server-gid"; "0"; "--expected-server-security-label"; "a"]%string.
Definition client_run := client_main (F := unit) (P := unit) (D := bool) arguments (Some (frame_of cancel_bytes)) (@nil byte) [].
End Packed.
Import Packed.
#[local] Existing Instance Local.local_sockets.

Lemma endpoints_sound_witness :
  match client_run with (Ok output, _) => bool_decide (output = frame_of Local.cancel_bytes) | _ => false end = true /\
  exists l, client_run.2 = [] ++ l /\
    client_ran (D := bool) (fun o => o) (fun _ => mkCredentials 7 0 0) (fun _ => [x61]) arguments (Some (frame_of Local.cancel_bytes)) [] client_run.1 l.
Proof.
  split; [vm_compute; reflexivity|].
  unfold client_run. apply (endpoints_sound (fun o => o) (fun w => w) (fun _ => mkCredentials 7 0 0) (fun _ => [x61]) Local.local_laws package_laws
    arguments (Some (frame_of Local.cancel_bytes)) [] []). apply surjective_pairing.
Defined.
