(* ===== verification/Appraise.v ===== *)
(** * The launch of a candidate ([prober-launcher/src/lib.rs], module [candidate_probe])

    Measured inputs staged into a jail, the jailer supervised, the live monitor appraised
    through /proc, and then the supervision of [Probe].  Pinned files are those of
    [LinuxFiles]; what the code reads and makes by path is the interface [LaunchHost]. *)

From S2P Require Import Prelude Cbor Sha256 Paths Schema Numbers Directory World LinuxFiles GuestResult Launch Landlock Probe.

(** [private_root] creates the directory, sets its mode to 0700 and reads its metadata
    without following a link; [make_private] creates a directory and sets the same mode.
    [spawn] starts a child with just this environment, in the directory, with the two
    output files: the child is that of [DirectProcess].  The device and inode are those of
    [std::fs::metadata], which follows links, or of [DirEntry::metadata], which does not.
    Names are those of [read_dir]. *)
Class LaunchHost (W : Type) := {
  private_root : string -> W -> option LeaseRoot * W;
  make_private : string -> W -> option unit * W;
  give_to : string -> Z -> W -> option unit * W;
  create_output : string -> W -> option unit * W;
  spawn : string -> list string -> list (string * string) -> string -> W -> option unit * W;
  stat_identity : string -> W -> option (Z * Z) * W;
  entry_identity : string -> W -> option (Z * Z) * W;
  owner_of : string -> W -> option Z * W;
  read_text : string -> W -> option string * W;
  read_bytes : string -> W -> option (list byte) * W;
  read_link : string -> W -> option string * W;
  list_names : string -> W -> option (list string) * W;
  path_exists : string -> W -> bool * W
}.
(** [std::process::ExitStatus] *)
Class ExitStatus (S : Type) := { success : S -> bool; exit_signal : S -> option Z; exit_code_of : S -> option Z }.

Record ConstructedCandidateFixture : Set := mkFixture {
  fixture_root : string;
  secrets : CandidateFixtureSecrets;
  launch_measurements : list (string * list byte)
}.
Record CandidateRunObservation : Set := mkRun {
  run_guest : CandidateGuestResult;
  jailer_exit_success : bool;
  run_containment : CandidateLiveContainmentObservation;
  run_landlock : CandidateLandlockObservation;
  run_seccomp : CandidateSeccompObservation;
  run_cgroup : CandidateCgroupObservation
}.

Definition JAIL_ROOT : string := "/var/lib/keep/native-prober-jails".
Definition CGROUP_ROOT : string := "/sys/fs/cgroup/keep/".
Definition LANDLOCK_DENIED_CANARY_BYTES : list byte := str_bytes "Landlock must deny mutation despite DAC write permission." ++ [x0a].
Definition MIB : Z := 1024 * 1024.
Definition tab : string := str_of_bytes [x09].
Definition newline : string := str_of_bytes [x0a].
Definition under (path name : string) : string := path +:+ "/" +:+ name.
Definition flag_text (b : bool) : string := if b then "true" else "false".
Definition debug_option (o : option Z) : string := match o with Some n => "Some(" +:+ number n +:+ ")" | None => "None" end.

(** ** Measuring *)

(** The system seen by a closure that owns [M] beside it. *)
Section tracked.
Context {F W M : Type} {HK : Kernel F W}.
Definition beside {A : Type} (m : W -> A * W) : W * M -> A * (W * M) := fun w => let '(a, w1) := m w.1 in (a, (w1, w.2)).
Definition tracked : Kernel F (W * M) := {|
  filesystem_root := beside filesystem_root;
  openat2 f name how := beside (openat2 f name how);
  LinuxFiles.metadata f := beside (LinuxFiles.metadata f);
  filesystem_magic f := beside (filesystem_magic f);
  volume_flags f := beside (volume_flags f);
  statx_mount f := beside (statx_mount f);
  try_clone f := beside (try_clone f);
  seek_start f := beside (seek_start f);
  read f n := beside (read f n);
  read_exact f n := beside (read_exact f n);
  read_to_end f n := beside (read_to_end f n);
  copy f g n := beside (copy f g n);
  write_all f bytes := beside (write_all f bytes);
  flush f := beside (flush f);
  sync_all f := beside (sync_all f);
  set_permissions f mode := beside (set_permissions f mode);
  mkdirat f name mode := beside (mkdirat f name mode);
  unlink_directory f name := beside (unlink_directory f name);
  open_stream f := beside (open_stream f);
  rewind f w := (rewind f w.1, w.2);
  read_entry f := beside (read_entry f);
  raw_fd := raw_fd;
  process_id := beside process_id;
  effective_uid := beside effective_uid;
  reserves n := beside (reserves n);
  get_fd_flags f := beside (get_fd_flags f);
  set_fd_flags f mask := beside (set_fd_flags f mask);
  memfd_create name flags := beside (memfd_create name flags);
  add_seals f mask := beside (add_seals f mask);
  get_seals f := beside (get_seals f);
  getrandom n := beside (getrandom n)
|}.
End tracked.

Section measure.
Context {F W : Type} {HK : Kernel F W}.
(** [measurement] is the pieces it has been updated with, in order. *)
Definition measure_chunk (chunk : list byte) : World.io IoError (W * list (list byte)) unit := fun w => (Ok tt, (w.1, w.2 ++ [chunk])).
Definition measure_pinned_file (file : PinnedRegularFile F) (maximum_bytes : Z) : World.io IoError W (list byte) :=
  fun w =>
    match read_bounded_chunks (HK := tracked) file maximum_bytes measure_chunk (w, []) with
    | (Ok total, (w, pieces)) =>
        (if negb (total =? size (file_identity file)) then Err (Error (InvalidData "launch measurement length changed"))
         else ok_or (Streaming.hash_pieces pieces) Panic, w)
    | (Err e, (w, _)) => (Err e, w)
    end.
End measure.

(** ** The live process *)

Definition parse_unsigned (maximum : Z) (s : string) : launch Z := ok_or (parse_uint maximum s) (Error SystemError).
Definition EMPTY_CAPABILITIES : string := "0000000000000000".
Definition capabilities_of (status : string) : bool :=
  forallb (fun name => match status_field status name with Ok value => bool_decide (value = EMPTY_CAPABILITIES) | Err _ => false end)
    ["CapInh"; "CapPrm"; "CapEff"; "CapAmb"]%string.
(** The count of filters so far, and whether every thread is filtered. *)
Definition Filters : Set := (option Z * bool)%type.
Definition filter_step (state : Filters) (task_status : string) : launch Filters :=
  let? mode := status_field task_status "Seccomp" in
  if negb (bool_decide (mode = "2"%string)) then Ok (state.1, false)
  else
    let? text := status_field task_status "Seccomp_filters" in
    let? filters := parse_unsigned u32_max text in
    throw_if (filters =? 0) || match state.1 with Some prior => negb (prior =? filters) | None => false end
      with Error (Message "native PROBER Firecracker thread seccomp filter counts differ") ;;
    Ok (Some filters, state.2).

Section observe.
Context {W : Type} {HL : LaunchHost W}.

Definition task_ids (task_root : string) : Probe.io W (list string) :=
  let! names := sys (list_names task_root) in io_ret (sort_by str_cmp names).
Fixpoint filter_loop (task_root : string) (tasks : list string) (state : Filters) : Probe.io W Filters :=
  match tasks with
  | [] => io_ret state
  | task :: tasks =>
      let! status := sys (read_text (under (under task_root task) "status")) in
      let! state := pure (filter_step state status) in
      filter_loop task_root tasks state
  end.
Definition namespace_differs (process_root name : string) : Probe.io W bool :=
  let! host := sys (stat_identity (under "/proc/self/ns" name)) in
  let! child := sys (stat_identity (under (under process_root "ns") name)) in
  io_ret (negb (bool_decide (host = child))).
(** [entries.iter().all(..)]: it ends at the first entry that fails. *)
Fixpoint all_entries (check : string -> Probe.io W bool) (entries : list string) : Probe.io W bool :=
  match entries with
  | [] => io_ret true
  | entry :: entries => let! ok := check entry in if ok then all_entries check entries else io_ret false
  end.
Definition no_socket (path : string) : Probe.io W bool :=
  let! target := total (read_link path) in
  io_ret (match target with Some target => negb (starts_with "socket:[" target) | None => false end).
Definition not_inherited (canary : Z * Z) (path : string) : Probe.io W bool :=
  let! found := total (entry_identity path) in
  io_ret (match found with Some found => negb (bool_decide (found = canary)) | None => false end).
Definition observe_live_containment (pid uid : Z) (jail_guest_root : string) (canary : Z * Z) : Probe.io W CandidateLiveContainmentObservation :=
  let process_root := "/proc/" +:+ number pid in
  let! status := sys (read_text (under process_root "status")) in
  let exact_ids := number uid +:+ tab +:+ number uid +:+ tab +:+ number uid +:+ tab +:+ number uid in
  let! uids := pure (status_field status "Uid") in
  let! differ :=
    if negb (bool_decide (uids = exact_ids)) then io_ret true
    else let! gids := pure (status_field status "Gid") in io_ret (negb (bool_decide (gids = exact_ids))) in
  refuse_if differ with Message "native PROBER descendant real/effective/saved/fs IDs differ" ;;
  let capabilities_empty := capabilities_of status in
  let! mode := pure (status_field status "Seccomp") in
  let! process_seccomp_mode := pure (parse_unsigned u8_max mode) in
  let task_root := under process_root "task" in
  let! before_tasks := task_ids task_root in
  let! (filters, all_threads_filtered) := filter_loop task_root before_tasks (None, process_seccomp_mode =? 2) in
  let! after_tasks := task_ids task_root in
  refuse_if negb (bool_decide (after_tasks = before_tasks))
    with Message "native PROBER Firecracker thread inventory changed during appraisal" ;;
  let seccomp_mode := if all_threads_filtered then 2 else 0 in
  let! seccomp_filters_per_thread :=
    if all_threads_filtered then pure (ok_or filters (Error (Message "seccomp thread evidence absent"))) else io_ret 0 in
  let! text := pure (status_field status "NSpid") in
  let! nspid := pure (res_map (parse_unsigned u32_max) (split_ascii_whitespace text)) in
  let pid_namespace_isolated := bool_decide (nspid = [pid; 1]) in
  let! mount_namespace_isolated := namespace_differs process_root "mnt" in
  let! pid_namespace_inode_isolated := namespace_differs process_root "pid" in
  let! jail := sys (stat_identity jail_guest_root) in
  let! child_root := sys (stat_identity (under process_root "root")) in
  let chroot_matches_jail := bool_decide (jail = child_root) in
  let descriptor_path name := under (under process_root "fd") name in
  let! entries := sys (list_names (under process_root "fd")) in
  let! socket_descriptors_absent := all_entries (fun name => no_socket (descriptor_path name)) entries in
  let! inherited_descriptor_absent := all_entries (fun name => not_inherited canary (descriptor_path name)) entries in
  let! environment := sys (read_bytes (under process_root "environ")) in
  let environment_empty := bool_decide (environment = []) in
  refuse_if negb capabilities_empty || negb pid_namespace_isolated || negb pid_namespace_inode_isolated || negb mount_namespace_isolated
            || negb chroot_matches_jail || negb socket_descriptors_absent || negb environment_empty || negb inherited_descriptor_absent
    with Message ("native PROBER live containment mismatch: caps=" +:+ flag_text capabilities_empty +:+ " nspid="
                  +:+ flag_text pid_namespace_isolated +:+ " pidns=" +:+ flag_text pid_namespace_inode_isolated +:+ " mntns="
                  +:+ flag_text mount_namespace_isolated +:+ " chroot=" +:+ flag_text chroot_matches_jail +:+ " socketsAbsent="
                  +:+ flag_text socket_descriptors_absent +:+ " envEmpty=" +:+ flag_text environment_empty +:+ " inheritedFdAbsent="
                  +:+ flag_text inherited_descriptor_absent) ;;
  refuse_if u32_max <? len before_tasks with SystemError ;;
  io_ret (mkContainment pid uid seccomp_mode (len before_tasks) seccomp_filters_per_thread pid_namespace_isolated mount_namespace_isolated
            chroot_matches_jail capabilities_empty socket_descriptors_absent environment_empty inherited_descriptor_absent).
End observe.

(** ** The launch *)

(** The arguments behind the identity: the executable and the base of the jail. *)
Definition jailer_arguments (fixture : ConstructedCandidateFixture) (uid : Z) (extra : option string) (use_seccomp_canary : bool) : list string :=
  let fixed := fixed_jailer_arguments (attempt_id (secrets fixture)) uid in
  (take 2 fixed ++ ["--exec-file"; under (fixture_root fixture) "firecracker"; "--chroot-base-dir"; JAIL_ROOT] ++ drop 2 fixed
   ++ match extra with Some argument => [argument] | None => [] end ++ if use_seccomp_canary then ["--keep-seccomp-canary"] else [])%list%string.
(** The sources, destinations, bounds and modes (0500, 0400 and 0600). *)
Definition launch_inputs (use_seccomp_canary : bool) : list (string * string * Z * Z) :=
  [("firecracker-vmm", "firecracker-vmm", 8 * MIB, 320); ("vmlinux", "vmlinux", 64 * MIB, 256);
   ("rootfs.ext4", "rootfs.ext4", 600 * MIB, 256); ("project.ext4", "project.ext4", 128 * MIB, 384);
   ("config.json", "config.json", 16 * 1024, 256);
   ((if use_seccomp_canary then "seccomp-canary.bpf" else "seccomp.bpf"), "seccomp.bpf", 4096, 256)]%string.
Definition live_seccomp (o : CandidateLiveContainmentObservation) : CandidateSeccompObservation :=
  mkSeccomp POLICY_SOURCE COMPILER COMPILED_POLICY "x86_64" (seccomp_thread_count o) (seccomp_filters_per_thread o).
(** [events.lines().any(..)] of a text that must be readable. *)
Definition SECCOMP_SIGNAL_PREFIX : string := "[keep-prober-seccomp]".
Definition trapped (stderr : string) : bool :=
  bool_decide (List.filter (starts_with SECCOMP_SIGNAL_PREFIX) (lines stderr) = ["[keep-prober-seccomp] signal=31"%string]).

Section launch.
Context {F H S W : Type} {HK : Kernel F W} {HC : Clock W} {HH : LeaseHost W} {HJ : Jail H W} {HL : LaunchHost W}.
Context {HD : DirectProcess S W} {HX : ExitStatus S}.
Abbreviation io A := (Probe.io W A).

(** [?] on an error of the system, into a boxed error. *)
Definition files {A : Type} : World.io IoError W A -> io A := relabel (fun _ => SystemError).
(** A local that is dropped when the scope is left with an error. *)
Definition on_error {A : Type} (drop_local : W -> W) (m : io A) : io A :=
  fun w => match m w with (Ok a, w) => (Ok a, w) | (Err e, w) => (Err e, drop_local w) end.

(** An input whose measurement is that of the construction. *)
Definition measured (source : PinnedDir F) (fixture : ConstructedCandidateFixture) (name : string) (maximum : Z) (missing changed : string) :
    io (PinnedRegularFile F) :=
  let! input := files (open_regular_file source name maximum) in
  let! expected :=
    pure (ok_or (snd <$> List.find (fun entry : string * list byte => bool_decide (entry.1 = name)) (launch_measurements fixture))
            (Error (Message missing))) in
  let! observed := files (measure_pinned_file input maximum) in
  refuse_if negb (bool_decide (observed = expected)) with Message changed ;;
  io_ret input.
(** [fuel] bounds the comparison of a copy with its source. *)
Definition stage_input (fuel : nat) (source destination : PinnedDir F) (fixture : ConstructedCandidateFixture) (jail_guest_root : string)
    (leased : Z) (input : string * string * Z * Z) : io unit :=
  let '(source_name, destination_name, maximum, mode) := input in
  let! file := measured source fixture source_name maximum "launch measurement missing" "launch input changed after authenticated construction" in
  let! _ := files (stage_private_copy fuel destination destination_name file maximum mode) in
  sys (give_to (under jail_guest_root destination_name) leased).
Fixpoint stage_inputs (fuel : nat) (source destination : PinnedDir F) (fixture : ConstructedCandidateFixture) (jail_guest_root : string)
    (leased : Z) (inputs : list (string * string * Z * Z)) : io unit :=
  match inputs with
  | [] => io_ret tt
  | input :: inputs =>
      let! _ := stage_input fuel source destination fixture jail_guest_root leased input in
      stage_inputs fuel source destination fixture jail_guest_root leased inputs
  end.
(** Up to the arguments: the pinned jailer. *)
Definition stage_jail (fuel : nat) (fixture : ConstructedCandidateFixture) (jail_guest_root : string) (leased : Z) (use_seccomp_canary : bool) :
    io (PinnedRegularFile F) :=
  let! source := files (open (fixture_root fixture)) in
  let! destination := files (open jail_guest_root) in
  let! jailer := measured source fixture "jailer" (4 * MIB) "jailer launch measurement missing" "jailer changed after authenticated construction" in
  let! _ := stage_inputs fuel source destination fixture jail_guest_root leased (launch_inputs use_seccomp_canary) in
  let! _ := files (stage_private_file destination "landlock-denied-canary" LANDLOCK_DENIED_CANARY_BYTES 128 384) in
  let! _ := sys (give_to (under jail_guest_root "landlock-denied-canary") leased) in
  let! _ := measured source fixture "firecracker" (8 * MIB) "post-jailer shim launch measurement missing"
              "post-jailer shim changed after authenticated construction" in
  let! _ := sys (create_output (under (fixture_root fixture) "jailer-stdout")) in
  let! _ := sys (create_output (under (fixture_root fixture) "jailer-stderr")) in
  io_ret jailer.

(** The canary that the monitor must not inherit: its device and inode. *)
Definition inherit_canary : io (Z * Z) :=
  let! canary := files (seal_data_file_bytes "keep-authority-canary" (str_bytes "must-not-reach-native-prober-vmm") 64 256) in
  let! descriptor := files (clear_close_on_exec (sealed_file canary)) in
  sys (stat_identity ("/proc/self/fd/" +:+ number descriptor)).
(** The jailer runs and is reaped; the group it made is populated. *)
Definition run_jailer (jailer : PinnedRegularFile F) (arguments : list string) (deadline : CandidateDeadline) : io (ReapedCandidateProcess S) :=
  let! _ := sys (spawn ("/proc/self/fd/" +:+ number (raw_fd (pinned_file jailer))) arguments [] JAIL_ROOT) in
  let! _ := step Prepared EventSpawned in
  let! reaped := fun w => let '(r, w) := wait_bounded deadline CONSOLE_LIMIT w in (boxed r, w) in
  refuse_if negb (success (status reaped))
    with Message ("native PROBER jailer direct process failed: signal=" +:+ debug_option (exit_signal (status reaped)) +:+ " code="
                  +:+ debug_option (exit_code_of (status reaped))) ;;
  let! events := sys read_events in
  refuse_if negb (has_line "populated 1" events) with Message "native PROBER expected cgroup was not populated" ;;
  io_ret reaped.

(** The denial canary of the filter: the monitor is trapped, its group empties. *)
Fixpoint await_trap (fuel : nat) (deadline : CandidateDeadline) : io unit :=
  match fuel with
  | O => pure (Err OutOfFuel)
  | Datatypes.S fuel =>
      let! events := sys read_events in
      if has_line "populated 0" events then io_ret tt
      else
        let! t := total now in
        let! rest := pure (boxed (remaining deadline t)) in
        fun w => await_trap fuel deadline (sleep (Z.min rest (5 * MILLISECOND)) w)
  end.
Definition observe_trap (deadline : CandidateDeadline) : io unit :=
  let! _ := await_trap WAIT_FUEL deadline in
  let! stderr := sys read_errors in
  refuse_if negb (utf8_valid stderr) with SystemError ;;
  refuse_if negb (trapped (str_of_bytes stderr)) with Message "native PROBER seccomp canary signal marker differs" ;;
  let! leaf := sys open_leaf in
  let! events := sys (read_control leaf "cgroup.events" 4096) in
  let! occupied :=
    if negb (has_line "populated 0" events) then io_ret true
    else let! children := sys count_children in io_ret (negb (children =? 0)) in
  refuse_if occupied with Message "native PROBER seccomp canary cgroup was not exactly empty" ;;
  sys (remove_leaf leaf).

(** The processes of the group: each must be of the lease and of the group. *)
Fixpoint appraise_processes (leaf_name : string) (leased : Z) (jail_guest_root : string) (canary : Z * Z) (pids : list string)
    (count : Z) (containment : option CandidateLiveContainmentObservation) : io (Z * option CandidateLiveContainmentObservation) :=
  match pids with
  | [] => io_ret (count, containment)
  | line :: pids =>
      let! pid := pure (parse_unsigned u32_max line) in
      let process_root := "/proc/" +:+ number pid in
      let! owner := sys (owner_of process_root) in
      let! foreign :=
        if negb (owner =? leased) then io_ret true
        else
          let! group := sys (read_text (under process_root "cgroup")) in
          io_ret (negb (bool_decide (group = "0::/keep/" +:+ leaf_name +:+ newline))) in
      refuse_if foreign with Message "native PROBER cgroup does not own the leased descendant" ;;
      let! observed := observe_live_containment pid leased jail_guest_root canary in
      appraise_processes leaf_name leased jail_guest_root canary pids (count + 1) (Some observed)
  end.
(** [while] the threads are not all filtered yet. *)
Fixpoint await_filters (fuel : nat) (deadline : CandidateDeadline) (leased : Z) (jail_guest_root : string) (canary : Z * Z)
    (containment : CandidateLiveContainmentObservation) : io CandidateLiveContainmentObservation :=
  if (seccomp_mode containment =? 2) && negb (seccomp_thread_count containment <? 2) then io_ret containment else
  match fuel with
  | O => pure (Err OutOfFuel)
  | Datatypes.S fuel =>
      let! t := total now in
      let! rest := pure (boxed (remaining deadline t)) in
      let! _ := fun w => (Ok tt, sleep (Z.min rest (5 * MILLISECOND)) w) in
      let! containment := observe_live_containment (host_pid containment) leased jail_guest_root canary in
      await_filters fuel deadline leased jail_guest_root canary containment
  end.
Definition appraise (leaf_name : string) (leased : Z) (jail_guest_root : string) (canary : Z * Z) (deadline : CandidateDeadline) :
    io (CandidateLiveContainmentObservation * CandidateLandlockObservation) :=
  let! process_ids := sys (read_text (under (CGROUP_ROOT +:+ leaf_name) "cgroup.procs")) in
  let! (count, containment) := appraise_processes leaf_name leased jail_guest_root canary (lines process_ids) 0 None in
  refuse_if negb (count =? 1) with Message "native PROBER cgroup does not contain exactly one VMM process" ;;
  let! containment := pure (ok_or containment (Error (Message "native PROBER containment observation absent"))) in
  let! containment := await_filters WAIT_FUEL deadline leased jail_guest_root canary containment in
  let! _ := pure (boxed (verify_containment containment)) in
  let! _ := pure (boxed (verify_seccomp (live_seccomp containment))) in
  let! stderr := sys read_errors in
  let! landlock := pure (ok_or (parse_landlock_observation stderr) (Error SystemError)) in
  let! kept := sys (read_bytes (under jail_guest_root "landlock-denied-canary")) in
  let! altered :=
    if negb (bool_decide (kept = LANDLOCK_DENIED_CANARY_BYTES)) then io_ret true
    else total (path_exists (under jail_guest_root "landlock-created-canary")) in
  refuse_if altered with Message "Landlock filesystem denial canary residue differs" ;;
  io_ret (containment, landlock).

(** While the group may exist: [None] is the denial canary, its group removed. *)
Definition supervise (fixture : ConstructedCandidateFixture) (leased : Z) (jail_guest_root : string) (jailer : PinnedRegularFile F)
    (milliseconds : Z) (extra : option string) (use_seccomp_canary : bool) :
    io (option (CandidateDeadline * ReapedCandidateProcess S * CandidateLiveContainmentObservation * CandidateLandlockObservation)) :=
  let! t := total now in
  let! deadline := pure (boxed (start t milliseconds)) in
  let! canary := inherit_canary in
  let! reaped := run_jailer jailer (jailer_arguments fixture leased extra use_seccomp_canary) deadline in
  if use_seccomp_canary then let! _ := observe_trap deadline in io_ret None
  else
    let! (containment, landlock) := appraise (attempt_id (secrets fixture)) leased jail_guest_root canary deadline in
    io_ret (Some (deadline, reaped, containment, landlock)).
Definition drop_lease (leased : Z) (w : W) : W := (remove_lease leased w).2.
Definition remove_jail (w : W) : W := (drop_jail w).2.
(** After the lease: everything that is left is dropped in the order of the code. *)
Definition launch_leased (fuel : nat) (fixture : ConstructedCandidateFixture) (leased milliseconds : Z) (extra : option string)
    (use_seccomp_canary : bool) : io CandidateRunObservation :=
  let attempt := attempt_id (secrets fixture) in
  let jail_parent := under (under JAIL_ROOT "firecracker") attempt in
  let jail_guest_root := under jail_parent "root" in
  let! supervised :=
    on_error (drop_lease leased)
      (let! _ := sys (make_private jail_guest_root) in
       let! jailer := on_error remove_jail (stage_jail fuel fixture jail_guest_root leased use_seccomp_canary) in
       guarded leased (supervise fixture leased jail_guest_root jailer milliseconds extra use_seccomp_canary)) in
  match supervised with
  | None =>
      on_error (drop_lease leased)
        (let! _ := total drop_jail in
         let! jailed := total jail_exists in
         let! residue := if jailed then io_ret true else uid_has_live_process leased in
         refuse_if residue with Message "native PROBER seccomp canary residue remains" ;;
         io_fail (Message "native PROBER seccomp denial canary observed signal=31"))
  | Some (deadline, reaped, containment, landlock) =>
      let! (guest, group) := finish_launch leased deadline (result_nonce (secrets fixture)) (authentication_key (secrets fixture)) in
      io_ret (mkRun guest (success (status reaped)) containment landlock (live_seccomp containment) group)
  end.
Definition launch_authenticated_fixture_bounded (fuel : nat) (fixture : ConstructedCandidateFixture) (milliseconds : Z) (extra : option string)
    (use_seccomp_canary : bool) : io CandidateRunObservation :=
  let! root := sys (private_root JAIL_ROOT) in
  refuse_if negb (root_private root) with Message "native PROBER jail root is not private root-owned storage" ;;
  let! leased := acquire_uid_lease (attempt_id (secrets fixture)) in
  launch_leased fuel fixture leased milliseconds extra use_seccomp_canary.
Definition launch_authenticated_fixture (fuel : nat) (fixture : ConstructedCandidateFixture) : io CandidateRunObservation :=
  launch_authenticated_fixture_bounded fuel fixture MAXIMUM_LAUNCH_MILLISECONDS None false.
End launch.
