(* ===== verification/AppraiseFacts.v ===== *)
(** * Theorems on the launch of a candidate

    [Measured]: what a measurement is of.  [Live]: what an appraisal has read.  [Ended]:
    what a launch leaves. *)

From S2P Require Import Prelude Cbor CborFacts Sha256 Paths TextFacts Schema SchemaFacts Numbers Directory World LinuxFiles LinuxFacts GuestResult Launch LaunchFacts Landlock Probe ProbeFacts Appraise.

Import Loops Leases Finish.

(** ** Measurements *)
Module Measured.
Section measured.
Context {F W : Type} {HK : Kernel F W}.

Definition seen (w : W * list (list byte)) : list byte := concat w.2.
Lemma beside_unseen {A} (m : W -> A * W) : unseen seen (beside m).
Proof. intros [w pieces]. unfold beside. cbn [fst snd]. by destruct (m w). Qed.
Lemma chunks_pass : passes_on seen (measure_chunk (W := W)).
Proof.
  intros chunk. split; [by intros w r w' [= <- <-]; apply answers_ok|]. intros [w pieces] w' [= <-]. unfold seen. cbn [snd].
  rewrite concat_app. cbn [concat]. by rewrite app_nil_r.
Qed.
(** The digest is that of bytes as many as the pinned size, within the bound. *)
Lemma measure_ok file maximum (w w' : W) digest : 8 * maximum <= u64_max -> measure_pinned_file file maximum w = (Ok digest, w') ->
  exists bytes, OneShot.sha256 bytes = Some digest /\ len bytes = size (file_identity file) /\ len bytes <= maximum.
Proof.
  intros Hmax. unfold measure_pinned_file.
  destruct (read_bounded_chunks (HK := tracked) file maximum measure_chunk (w, [])) as [[total|e] [w1 pieces]] eqn:E; [|done].
  apply (read_bounded_ok (HK := tracked) _ _ _ seen) in E as (bytes & Hb & Ht & Hs & Hm); [|apply chunks_pass|].
  - destruct (negb _); [done|]. intros [= H%ok_or_ok <-]. unfold seen in Hb. cbn in Hb. exists bytes. rewrite <- Hb in *.
    split; [|split; lia]. by rewrite <- Facts.hash_pieces_sha256 by lia.
  - intros f. split_and!; apply beside_unseen.
Qed.
End measured.
End Measured.

(** ** The appraisal *)
Module Live.

Lemma parse_unsigned_ok maximum s n : parse_unsigned maximum s = Ok n <-> parse_uint maximum s = Some n.
Proof. apply ok_or_ok. Qed.
(** A thread with [n] filters in filter mode. *)
Definition filtered (n : Z) (status : string) : Prop :=
  status_field status "Seccomp" = Ok "2"%string /\
  exists text, status_field status "Seccomp_filters" = Ok text /\ parse_uint u32_max text = Some n /\ n <> 0.
Lemma filter_step_ok state status state' : filter_step state status = Ok state' -> state'.2 = true ->
  state.2 = true /\ exists n, filtered n status /\ state'.1 = Some n /\ (forall m, state.1 = Some m -> m = n).
Proof.
  unfold filter_step. intros (mode & Hm & H)%bind_ok. case_bool_decide as E; cbn [negb] in H; [|by injection H as <-].
  apply bind_ok in H as (text & Ht & H). apply bind_ok in H as (n & Hn%parse_unsigned_ok & H).
  apply guard_ok in H as [[H0%Z.eqb_neq Hp]%orb_false_iff [= <-]]. cbn. intros Hs. split; [done|]. exists n. subst mode.
  split; [by split; [|exists text]|]. split; [done|]. intros m Em. rewrite Em in Hp. apply negb_false_iff, Z.eqb_eq in Hp. done.
Qed.

Section live.
Context {W : Type} {HL : LaunchHost W}.
Implicit Types w : W.

Definition reads (path text : string) : Prop := exists w w', read_text path w = (Some text, w').
Lemma filter_loop_ok root tasks state w state' w' : filter_loop root tasks state w = (Ok state', w') -> state'.2 = true ->
  state.2 = true /\
  ((tasks = [] /\ state' = state) \/
   exists n, state'.1 = Some n /\ (forall m, state.1 = Some m -> m = n) /\
     Forall (fun task => exists status, reads (under (under root task) "status") status /\ filtered n status) tasks).
Proof.
  revert state w. induction tasks as [|task tasks IH]; intros state w; cbn [filter_loop]; [intros [= <- <-] H; split; [done|by left]|].
  intros (status & w1 & Hr%sys_ok & H)%io_bind_ok. apply io_bind_ok in H as (state1 & w2 & [Hs ->]%pure_ok & H). intros Ht.
  destruct (IH _ _ H Ht) as [H1 Hrest]. apply filter_step_ok in Hs as (H0 & n & Hf & En & Hp); [|done]. split; [done|]. right.
  assert (exists status, reads (under (under root task) "status") status /\ filtered n status) as Hhd by (exists status; split; [by exists w, w1|done]).
  destruct Hrest as [[-> ->]|(m & Em & Hm & Hall)].
  - exists n. split_and!; [done|done|]. by constructor.
  - assert (n = m) as -> by (by apply Hm). exists m. split_and!; [done|done|]. by constructor.
Qed.
Lemma all_entries_ok check entries w w' : all_entries check entries w = (Ok true, w') ->
  Forall (fun entry => exists w0 w1, check entry w0 = (Ok true, w1)) entries.
Proof.
  revert w. induction entries as [|entry entries IH]; intros w; cbn [all_entries]; [constructor|].
  intros ([] & w1 & H1 & H)%io_bind_ok; [|done]. constructor; [by exists w, w1|by eapply IH].
Qed.
Definition linked (path target : string) : Prop := exists w w', read_link path w = (Some target, w').
Definition identified (path : string) (i : Z * Z) : Prop := exists w w', stat_identity path w = (Some i, w').
Lemma no_socket_ok path w w' : no_socket path w = (Ok true, w') -> exists target, linked path target /\ starts_with "socket:[" target = false.
Proof.
  unfold no_socket. intros ([target|] & w1 & Ht%total_ok & [= H <-])%io_bind_ok. exists target. apply negb_true_iff in H.
  split; [by exists w, w1|done].
Qed.
Lemma namespace_differs_ok root name w w' : namespace_differs root name w = (Ok true, w') ->
  exists host child, identified (under "/proc/self/ns" name) host /\ identified (under (under root "ns") name) child /\ host <> child.
Proof.
  unfold namespace_differs. intros (host & w1 & Hh%sys_ok & H)%io_bind_ok. apply io_bind_ok in H as (child & w2 & Hc%sys_ok & [= H <-]).
  apply negb_true_iff, bool_decide_eq_false in H. exists host, child. split_and!; [by exists w, w1|by exists w1, w2|done].
Qed.

(** What the appraisal of process [pid] has read under /proc. *)
Definition process (pid : Z) : string := "/proc/" +:+ number pid.
Definition four_ids (uid : Z) : string := number uid +:+ tab +:+ number uid +:+ tab +:+ number uid +:+ tab +:+ number uid.
Record live (pid uid : Z) (root : string) (o : CandidateLiveContainmentObservation) : Prop := {
  live_status : exists status, reads (under (process pid) "status") status /\
    status_field status "Uid" = Ok (four_ids uid) /\ status_field status "Gid" = Ok (four_ids uid) /\
    Forall (fun name => status_field status name = Ok EMPTY_CAPABILITIES) ["CapInh"; "CapPrm"; "CapEff"; "CapAmb"]%string /\
    exists text, status_field status "NSpid" = Ok text /\ map (parse_uint u32_max) (split_ascii_whitespace text) = [Some pid; Some 1];
  live_filters : seccomp_mode o = 2 -> exists tasks, (exists w w', list_names (under (process pid) "task") w = (Some tasks, w')) /\
    len tasks = seccomp_thread_count o /\
    Forall (fun task => exists status, reads (under (under (under (process pid) "task") task) "status") status /\
      filtered (seccomp_filters_per_thread o) status) tasks;
  live_namespaces : Forall (fun name => exists host child, identified (under "/proc/self/ns" name) host /\
    identified (under (under (process pid) "ns") name) child /\ host <> child) ["mnt"; "pid"]%string;
  live_root : exists i, identified root i /\ identified (under (process pid) "root") i;
  live_descriptors : exists names, (exists w w', list_names (under (process pid) "fd") w = (Some names, w')) /\
    Forall (fun name => exists target, linked (under (under (process pid) "fd") name) target /\ starts_with "socket:[" target = false) names;
  live_environment : exists w w', read_bytes (under (process pid) "environ") w = (Some [], w');
  live_flags : o = mkContainment pid uid (seccomp_mode o) (seccomp_thread_count o) (seccomp_filters_per_thread o) true true true true true true true
}.

Lemma capabilities_ok status : capabilities_of status = true ->
  Forall (fun name => status_field status name = Ok EMPTY_CAPABILITIES) ["CapInh"; "CapPrm"; "CapEff"; "CapAmb"]%string.
Proof.
  intros H%forallb_Forall'. eapply Forall_impl; [exact H|]. intros name Hn. cbv beta in Hn. destruct (status_field status name); [|done].
  by apply bool_decide_eq_true in Hn as ->.
Qed.
Lemma res_map_parse l ns : res_map (parse_unsigned u32_max) l = Ok ns -> map (parse_uint u32_max) l = map Some ns.
Proof.
  revert ns. induction l as [|s l IH]; intros ns; cbn [res_map]; [by intros [= <-]|].
  intros (n & Hn%parse_unsigned_ok & (ns' & Hs & [= <-])%bind_ok)%bind_ok. cbn. by rewrite Hn, (IH _ Hs).
Qed.
Lemma task_ids_ok root w ids w' : task_ids root w = (Ok ids, w') -> exists names, list_names root w = (Some names, w') /\ ids ≡ₚ names.
Proof. unfold task_ids. intros (names & w1 & Hn%sys_ok & [= <- <-])%io_bind_ok. exists names. split; [done|apply sort_by_perm]. Qed.
(** The two identity lines, read in order. *)
Lemma ids_ok status uids ids w w' : 
  (if negb (bool_decide (uids = ids)) then io_ret true
   else let! gids := pure (status_field status "Gid") in io_ret (negb (bool_decide (gids = ids)))) w = (Ok false : launch bool, w') ->
  uids = ids /\ status_field status "Gid" = Ok ids.
Proof.
  case_bool_decide as E; cbn [negb]; [|done]. intros (gids & w1 & [Hg _]%pure_ok & [= H _])%io_bind_ok.
  apply negb_false_iff, bool_decide_eq_true in H as ->. done.
Qed.
Lemma filters_ok root tasks mode w w1 filters all w2 n w3 :
  filter_loop root tasks (None, mode) w = (Ok (filters, all), w1) ->
  (if all then pure (ok_or filters (Error (Message "seccomp thread evidence absent"))) else io_ret 0) w2 = (Ok n : launch Z, w3) -> all = true ->
  Forall (fun task => exists status, reads (under (under root task) "status") status /\ filtered n status) tasks.
Proof.
  intros H Hn ->. apply filter_loop_ok in H as [_ [[-> _]|(m & Em & _ & Hall)]]; [constructor| |done]. cbn in Em. subst filters.
  by apply pure_ok in Hn as [[= ->] _].
Qed.
Lemma observed_live pid uid root canary w o w' : observe_live_containment pid uid root canary w = (Ok o, w') -> live pid uid root o.
Proof.
  intros H. unfold observe_live_containment in H. apply io_bind_ok in H as (status & w1 & Hstatus%sys_ok & H).
  apply io_bind_ok in H as (uids & w2 & [Hu ->]%pure_ok & H). apply io_bind_ok in H as (differ & w3 & Hd & H).
  apply io_guard_ok in H as [-> H]. apply io_bind_ok in H as (mode & w4 & [_ ->]%pure_ok & H).
  apply io_bind_ok in H as (pm & w5 & [_ ->]%pure_ok & H). apply io_bind_ok in H as (before & w6 & Hbefore & H).
  apply io_bind_ok in H as ([filters all] & w7 & Hloop & H). apply io_bind_ok in H as (after & w8 & _ & H).
  apply io_guard_ok in H as [_ H]. apply io_bind_ok in H as (n & w9 & Hn & H). apply io_bind_ok in H as (text & w10 & [Ht ->]%pure_ok & H).
  apply io_bind_ok in H as (nspid & w11 & [Hns%res_map_parse ->]%pure_ok & H).
  apply io_bind_ok in H as (mnt & w12 & Hmnt & H). apply io_bind_ok in H as (pidns & w13 & Hpid & H).
  apply io_bind_ok in H as (jail & w14 & Hj%sys_ok & H). apply io_bind_ok in H as (child & w15 & Hc%sys_ok & H).
  apply io_bind_ok in H as (entries & w16 & He%sys_ok & H). apply io_bind_ok in H as (sockets & w17 & Hs & H).
  apply io_bind_ok in H as (inherited & w18 & _ & H). apply io_bind_ok in H as (environment & w19 & Henv%sys_ok & H).
  apply io_guard_ok in H as [Hall H]. apply io_guard_ok in H as [_ [= <- <-]].
  rewrite !orb_false_iff, !negb_false_iff in Hall. destruct Hall as [[[[[[[Hcaps Hnspid] ->] ->] Hroot] ->] Hempty] ->].
  apply ids_ok in Hd as [-> Hg]. apply task_ids_ok in Hbefore as (names & Hnames & Hperm). apply bool_decide_eq_true in Hnspid as ->.
  apply bool_decide_eq_true in Hroot as ->. apply bool_decide_eq_true in Hempty as ->. rewrite Hcaps, !(bool_decide_eq_true_2 (_ = _)) by done.
  constructor; cbn.
  - exists status. split; [by exists w, w1|]. split_and!; [done|done|by apply capabilities_ok|]. by exists text.
  - intros Hmode. exists names. split; [by eexists _, _|]. split; [unfold len; by rewrite Hperm|]. rewrite <- Hperm.
    eapply filters_ok; [exact Hloop|exact Hn|]. by destruct all.
  - repeat constructor; by eapply namespace_differs_ok.
  - exists child. split; by eexists _, _.
  - exists entries. split; [by eexists _, _|]. eapply Forall_impl; [by eapply all_entries_ok|]. intros name (v & v' & Hv). by eapply no_socket_ok.
  - by eexists _, _.
  - reflexivity.
Qed.
End live.
End Live.

(** ** The launch *)
Module Ended.
Import Live.

Section ended.
Context {F H S W : Type} {HK : Kernel F W} {HC : Clock W} {HH : LeaseHost W} {HJ : Jail H W} {HL : LaunchHost W}.
Context {HD : DirectProcess S W} {HX : ExitStatus S}.
Implicit Types w : W.

Lemma files_ok {A} (m : World.io IoError W A) w a w' : files m w = (Ok a, w') <-> m w = (Ok a, w').
Proof. apply relabel_ok. Qed.
Lemma on_error_ok {A} drop_local (m : Probe.io W A) w a w' : on_error drop_local m w = (Ok a, w') <-> m w = (Ok a, w').
Proof. unfold on_error. destruct (m w) as [[b|e] w1]; split; by intros [= -> ->]. Qed.
Lemma acquire_leases attempt id w w' : acquire_uid_lease attempt w = (Ok id, w') -> exists w0, leased attempt id w0 w'.
Proof.
  unfold acquire_uid_lease. intros (root & w1 & _ & H1)%io_bind_ok. apply io_guard_ok in H1 as [_ H1].
  apply io_bind_ok in H1 as (n & w2 & _ & H1). by apply lease_loop_leases in H1 as [_ Hl]; [|apply uid_order_range].
Qed.

(** The input of this name had, when it was staged, the digest of the construction. *)
Definition authentic (fixture : ConstructedCandidateFixture) (name : string) (maximum : Z) : Prop :=
  exists bytes digest, snd <$> List.find (fun entry : string * list byte => bool_decide (entry.1 = name)) (launch_measurements fixture) = Some digest /\
    OneShot.sha256 bytes = Some digest /\ len bytes <= maximum.
Lemma pinned_measured source fixture name maximum missing changed w p w' :
  8 * maximum <= u64_max -> measured source fixture name maximum missing changed w = (Ok p, w') -> authentic fixture name maximum.
Proof.
  intros Hm. unfold measured. intros (input & w1 & _ & Hr)%io_bind_ok. apply io_bind_ok in Hr as (expected & w2 & [He%ok_or_ok ->]%pure_ok & Hr).
  apply io_bind_ok in Hr as (observed & w3 & Ho%files_ok & Hr). apply io_guard_ok in Hr as [<-%negb_false_iff%bool_decide_eq_true _].
  apply Measured.measure_ok in Ho as (bytes & Hd & _ & Hle); [|done]. by exists bytes, observed.
Qed.
Lemma stage_inputs_ok fuel source destination fixture root id inputs w w' :
  Forall (fun input : string * string * Z * Z => 8 * input.1.2 <= u64_max) inputs ->
  stage_inputs fuel source destination fixture root id inputs w = (Ok tt, w') ->
  Forall (fun input : string * string * Z * Z => authentic fixture input.1.1.1 input.1.2) inputs.
Proof.
  revert w. induction inputs as [|[[[name to] maximum] mode] inputs IH]; intros w Hm; cbn [stage_inputs]; [constructor|].
  apply Forall_cons in Hm as [Hm0 Hm]. intros ([] & w1 & H1 & Hr)%io_bind_ok. constructor; [|by eapply IH].
  unfold stage_input in H1. apply io_bind_ok in H1 as (file & w2 & H1 & _). by eapply pinned_measured.
Qed.
(** Everything that is executed or mounted. *)
Definition staged (fixture : ConstructedCandidateFixture) (use_seccomp_canary : bool) : Prop :=
  authentic fixture "jailer" (4 * MIB) /\ authentic fixture "firecracker" (8 * MIB) /\
  Forall (fun input : string * string * Z * Z => authentic fixture input.1.1.1 input.1.2) (launch_inputs use_seccomp_canary).
Lemma stage_jail_ok fuel fixture root id canary w p w' : stage_jail fuel fixture root id canary w = (Ok p, w') -> staged fixture canary.
Proof.
  unfold stage_jail. intros (source & w1 & _ & Hr)%io_bind_ok. apply io_bind_ok in Hr as (destination & w2 & _ & Hr).
  apply io_bind_ok in Hr as (jailer & w3 & Hj & Hr). apply io_bind_ok in Hr as ([] & w4 & Hs & Hr).
  do 2 apply io_bind_ok in Hr as (? & ? & _ & Hr). apply io_bind_ok in Hr as (shim & w5 & Hf & _).
  apply pinned_measured in Hj; [|done]. apply pinned_measured in Hf; [|done]. apply stage_inputs_ok in Hs; [done|].
  destruct canary; repeat constructor; done.
Qed.

Lemma await_filters_ok fuel deadline id root canary pid c w c' w' :
  live pid id root c -> await_filters fuel deadline id root canary c w = (Ok c', w') -> live pid id root c' /\ seccomp_mode c' = 2.
Proof.
  revert c w. induction fuel as [|fuel IH]; intros c w Hl; cbn [await_filters].
  all: destruct (Z.eqb_spec (seccomp_mode c) 2); cbn [andb]; [destruct (seccomp_thread_count c <? 2); cbn [negb]|].
  all: try by intros [= <- <-].
  all: intros (t & w1 & _ & Hr)%io_bind_ok; apply io_bind_ok in Hr as (rest & w2 & _ & Hr); apply io_bind_ok in Hr as ([] & w3 & _ & Hr);
    apply io_bind_ok in Hr as (c1 & w4 & Hc%observed_live & Hr); apply IH in Hr; [done|]; by rewrite (live_flags _ _ _ _ Hl) in Hc.
Qed.

(** The one process of the group: its line, its owner and its group. *)
Definition sole_process (leaf_name : string) (id : Z) (pid : Z) : Prop :=
  exists text line, reads (under (CGROUP_ROOT +:+ leaf_name) "cgroup.procs") text /\ lines text = [line] /\ parse_uint u32_max line = Some pid /\
    (exists w w', owner_of (process pid) w = (Some id, w')) /\ reads (under (process pid) "cgroup") ("0::/keep/" +:+ leaf_name +:+ newline).
Lemma processes_count leaf_name id root canary pids n c w n' c' w' :
  appraise_processes leaf_name id root canary pids n c w = (Ok (n', c'), w') -> n' = n + len pids.
Proof.
  revert n c w. induction pids as [|line pids IH]; intros n c w; cbn [appraise_processes].
  - intros [= <- _ _]. change (len (@nil string)) with 0. lia.
  - intros (pid & w1 & _ & Hr)%io_bind_ok. apply io_bind_ok in Hr as (owner & w2 & _ & Hr). apply io_bind_ok in Hr as (foreign & w3 & _ & Hr).
    apply io_guard_ok in Hr as [_ Hr]. apply io_bind_ok in Hr as (o & w4 & _ & Hr). apply IH in Hr as ->. rewrite len_cons. lia.
Qed.
Lemma process_ok leaf_name id root canary line c w n c' w' :
  appraise_processes leaf_name id root canary [line] 0 c w = (Ok (n, Some c'), w') ->
  exists pid, parse_uint u32_max line = Some pid /\ (exists w w', owner_of (process pid) w = (Some id, w')) /\
    reads (under (process pid) "cgroup") ("0::/keep/" +:+ leaf_name +:+ newline) /\ live pid id root c'.
Proof.
  cbn [appraise_processes]. intros (pid & w1 & [Hp%parse_unsigned_ok ->]%pure_ok & Hr)%io_bind_ok.
  apply io_bind_ok in Hr as (owner & w2 & Ho%sys_ok & Hr). apply io_bind_ok in Hr as (foreign & w3 & Hf & Hr).
  apply io_guard_ok in Hr as [-> Hr]. apply io_bind_ok in Hr as (o & w4 & Hc%observed_live & [= _ <- _]). exists pid.
  destruct (Z.eqb_spec owner id) as [->|]; cbn [negb] in Hf; [|done]. apply io_bind_ok in Hf as (group & w5 & Hg%sys_ok & [= Hf _]).
  apply negb_false_iff, bool_decide_eq_true in Hf as ->. split_and!; [done|by exists w, w2|by exists w2, w5|done].
Qed.
(** What the appraisal has established of the monitor. *)
Record appraised (leaf_name : string) (id : Z) (root : string) (c : CandidateLiveContainmentObservation) (l : CandidateLandlockObservation) : Prop := {
  appraised_process : sole_process leaf_name id (host_pid c) /\ live (host_pid c) id root c;
  appraised_filters : seccomp_mode c = 2 /\ 2 <= seccomp_thread_count c /\ seccomp_filters_per_thread c = 1;
  appraised_landlock : (exists stderr w w', read_errors w = (Some stderr, w') /\ parse_landlock_observation stderr = Some l) /\
    (exists w w', read_bytes (under root "landlock-denied-canary") w = (Some LANDLOCK_DENIED_CANARY_BYTES, w')) /\
    (exists w w', path_exists (under root "landlock-created-canary") w = (false, w'))
}.
Lemma verify_filters c u : verify_containment c = Ok u -> seccomp_mode c = 2 /\ 2 <= seccomp_thread_count c /\ seccomp_filters_per_thread c = 1.
Proof.
  unfold verify_containment. intros [Hg _]%guard_ok. rewrite !orb_false_iff in Hg. destruct Hg as [[[[[[[[[[[_ _] H1] H2] H3] _] _] _] _] _] _] _].
  apply negb_false_iff, Z.eqb_eq in H1, H3. apply Z.ltb_ge in H2. done.
Qed.
Lemma appraise_ok leaf_name id root canary deadline w c l w' :
  appraise leaf_name id root canary deadline w = (Ok (c, l), w') -> appraised leaf_name id root c l.
Proof.
  intros Hr. unfold appraise in Hr. apply io_bind_ok in Hr as (text & w1 & Ht%sys_ok & Hr). apply io_bind_ok in Hr as ([n o] & w2 & Hp & Hr).
  apply io_guard_ok in Hr as [Hn%negb_false_iff%Z.eqb_eq Hr]. subst n. apply io_bind_ok in Hr as (c0 & w3 & [->%ok_or_ok ->]%pure_ok & Hr).
  apply io_bind_ok in Hr as (c1 & w4 & Hw & Hr). apply io_bind_ok in Hr as (u & w5 & [Hv%boxed_ok%verify_filters ->]%pure_ok & Hr).
  apply io_bind_ok in Hr as (? & ? & [_ ->]%pure_ok & Hr). apply io_bind_ok in Hr as (stderr & w6 & He%sys_ok & Hr).
  apply io_bind_ok in Hr as (l1 & w7 & [Hl%ok_or_ok ->]%pure_ok & Hr). apply io_bind_ok in Hr as (kept & w8 & Hk%sys_ok & Hr).
  apply io_bind_ok in Hr as (altered & w9 & Ha & Hr). apply io_guard_ok in Hr as [-> [= <- <- <-]].
  case_bool_decide as Ek; cbn [negb] in Ha; [subst kept|done]. apply total_ok in Ha.
  pose proof (processes_count _ _ _ _ _ _ _ _ _ _ _ Hp) as Hcount. destruct (lines text) as [|line [|l2 rest]] eqn:El.
  - change (len (@nil string)) with 0 in Hcount. lia.
  - apply process_ok in Hp as (pid & Hpid & Ho & Hg & Hlive). apply (await_filters_ok _ _ _ _ _ pid) in Hw as [Hlive' _]; [|done].
    assert (host_pid c1 = pid) as Ec by (by rewrite (live_flags _ _ _ _ Hlive')). constructor; [|done|].
    + rewrite Ec. split; [|done]. exists text, line. split_and!; [by exists w, w1|done..].
    + split_and!; [eexists _, _, _; split; [exact He|exact Hl]|eexists _, _; exact Hk|eexists _, _; exact Ha].
  - rewrite !len_cons in Hcount. pose proof (len_nonneg rest). lia.
Qed.

Lemma supervise_ok fixture id root jailer milliseconds extra w r w' :
  supervise fixture id root jailer milliseconds extra false w = (Ok r, w') ->
  exists deadline reaped c l, r = Some (deadline, reaped, c, l) /\ success (status (S := S) reaped) = true /\
    (exists t, start t milliseconds = Ok deadline) /\
    (exists executable w0 w1, spawn executable (jailer_arguments fixture id extra false) [] JAIL_ROOT w0 = (Some tt, w1)) /\
    appraised (attempt_id (secrets fixture)) id root c l.
Proof.
  unfold supervise. intros (t & w1 & _ & Hr)%io_bind_ok. apply io_bind_ok in Hr as (deadline & w2 & [Hd%boxed_ok ->]%pure_ok & Hr).
  apply io_bind_ok in Hr as (canary & w3 & _ & Hr). apply io_bind_ok in Hr as (reaped & w4 & Hj & Hr).
  apply io_bind_ok in Hr as ([c l] & w5 & Ha%appraise_ok & [= <- _]). exists deadline, reaped, c, l. split; [done|].
  unfold run_jailer in Hj. apply io_bind_ok in Hj as ([] & w6 & Hs%sys_ok & Hj). apply io_bind_ok in Hj as (phase & w7 & _ & Hj).
  apply io_bind_ok in Hj as (reaped' & w8 & _ & Hj). apply io_guard_ok in Hj as [Hok%negb_false_iff Hj].
  apply io_bind_ok in Hj as (events & w9 & _ & Hj). apply io_guard_ok in Hj as [_ [= -> _]].
  split_and!; [done|by exists t|by eexists _, _, _|done].
Qed.

(** What a successful launch has established. *)
Record launched (fixture : ConstructedCandidateFixture) (milliseconds : Z) (extra : option string) (use_seccomp_canary : bool) (id : Z)
    (run : CandidateRunObservation) : Prop := {
  launched_mode : use_seccomp_canary = false;
  launched_inputs : staged fixture false;
  launched_jailer : jailer_exit_success run = true /\
    exists executable w0 w1, spawn executable (jailer_arguments fixture id extra false) [] JAIL_ROOT w0 = (Some tt, w1);
  launched_appraisal : appraised (attempt_id (secrets fixture)) id
    (under (under (under JAIL_ROOT "firecracker") (attempt_id (secrets fixture))) "root") (run_containment run) (run_landlock run);
  launched_clean : clean (H := H) (W := W) id (result_nonce (secrets fixture)) (authentication_key (secrets fixture)) (run_guest run) (run_cgroup run)
}.
Lemma launch_leased_ok fuel fixture id milliseconds extra canary w run w' :
  launch_leased fuel fixture id milliseconds extra canary w = (Ok run, w') -> launched fixture milliseconds extra canary id run.
Proof.
  intros Hr. unfold launch_leased in Hr. apply io_bind_ok in Hr as (supervised & w1 & Hs%on_error_ok & Hr).
  apply io_bind_ok in Hs as (u & w2 & _ & Hs). apply io_bind_ok in Hs as (jailer & w3 & Hj%on_error_ok%stage_jail_ok & Hs%guarded_ok).
  destruct canary.
  - exfalso. unfold supervise in Hs. do 4 apply io_bind_ok in Hs as (? & ? & _ & Hs). apply io_bind_ok in Hs as (? & ? & _ & [= <- _]).
    apply on_error_ok in Hr. do 3 apply io_bind_ok in Hr as (? & ? & _ & Hr). by apply io_guard_ok in Hr as [_ Hr].
  - apply supervise_ok in Hs as (deadline & reaped & c & l & -> & Hok & _ & Hspawn & Ha).
    apply io_bind_ok in Hr as ([guest group] & w4 & Hf%finish_launch_ok & [= <- _]). by constructor.
Qed.
(** Whatever happens, the lease is given back. *)
Lemma finish_drops id deadline nonce key w r w' : finish_launch id deadline nonce key w = (r, w') -> exists w1, w' = drop_lease id w1.
Proof. unfold finish_launch. destruct (io_bind _ _ w) as [q w1]. intros [= _ <-]. by exists w1. Qed.
Lemma launch_leased_drops fuel fixture id milliseconds extra canary w r w' :
  launch_leased fuel fixture id milliseconds extra canary w = (r, w') -> exists w1, w' = drop_lease id w1.
Proof.
  unfold launch_leased, io_bind at 1. unfold on_error at 1. destruct (io_bind _ _ w) as [[supervised|e] w1]; [|intros [= _ <-]; by exists w1].
  destruct supervised as [[[[deadline reaped] c] l]|].
  - unfold io_bind at 1. destruct (finish_launch id deadline _ _ w1) as [[[guest group]|e] w2] eqn:E; intros [= _ <-]; by eapply finish_drops.
  - unfold on_error. destruct (io_bind _ _ w1) as [[run|e] w2] eqn:E; intros [= _ <-]; [|by exists w2].
    do 3 apply io_bind_ok in E as (? & ? & _ & E). by apply io_guard_ok in E as [_ E].
Qed.
End ended.
End Ended.
Import Ended.


(** ** The canary descriptor *)

(** C32. The test of the inherited canary notices nothing.  It reads each descriptor with
    [DirEntry::metadata], which does not follow the link: the entries of a directory of
    /proc are inodes of the proc file system, and the canary lies on another device.  So
    whatever the descriptors are, no readable entry equals the canary, and only an entry
    that cannot be read makes the test fail. *)
Theorem inherited_canary_unnoticed {W} {HL : LaunchHost W} procfs (canary : Z * Z) path entries (w : W) r w' :
  (forall p w i w', entry_identity p w = (Some i, w') -> i.1 = procfs) -> canary.1 <> procfs ->
  all_entries (fun name => not_inherited canary (path name)) entries w = (r, w') ->
  r = Ok true \/ r = Ok false /\ exists name w0 w1, name ∈ entries /\ entry_identity (path name) w0 = (None, w1).
Proof.
  intros Hp Hc. revert w. induction entries as [|name entries IH]; intros w; cbn [all_entries]; [intros [= <- _]; by left|].
  unfold io_bind at 1, not_inherited at 1, io_bind at 1, total, io_ret at 1. destruct (entry_identity (path name) w) as [[i|] w1] eqn:E.
  - rewrite (bool_decide_eq_false_2 (i = canary)) by (intros ->; by apply Hp in E). cbn [negb].
    intros [->|(-> & n & w0 & w2 & Hin & Hn)]%IH; [by left|right]. split; [done|]. exists n, w0, w2. split; [by right|done].
  - intros [= <- _]. right. split; [done|]. exists name, w, w1. split; [left|done].
Qed.

(** *** A monitor that did inherit it *)
Module Inheritor.
Definition status (name value : string) : string := name +:+ ":" +:+ tab +:+ value +:+ newline.
Definition process_status : string :=
  status "Uid" (Live.four_ids 300000) +:+ status "Gid" (Live.four_ids 300000) +:+ status "CapInh" EMPTY_CAPABILITIES +:+
  status "CapPrm" EMPTY_CAPABILITIES +:+ status "CapEff" EMPTY_CAPABILITIES +:+ status "CapAmb" EMPTY_CAPABILITIES +:+
  status "Seccomp" "2" +:+ status "Seccomp_filters" "1" +:+ status "NSpid" ("7" +:+ tab +:+ "1").
Definition canary : Z * Z := (1, 99).
#[export] Instance host : LaunchHost unit := {
  private_root _ w := (None, w);
  make_private _ w := (None, w);
  give_to _ _ w := (None, w);
  create_output _ w := (None, w);
  spawn _ _ _ _ w := (None, w);
  stat_identity path w :=
    (Some (if bool_decide (path = "/proc/7/fd/3"%string) then canary
           else if contains ["/proc/7/root"; "/jail"]%string path then (8, 2) else if starts_with "/proc/7/" path then (4, 50) else (4, 51)), w);
  entry_identity _ w := (Some (5, 60), w);
  owner_of _ w := (Some 300000, w);
  read_text path w := (Some process_status, w);
  read_bytes _ w := (Some [], w);
  read_link _ w := (Some "/memfd:keep-authority-canary"%string, w);
  list_names path w := (Some (if bool_decide (path = "/proc/7/fd"%string) then ["3"] else ["8"; "7"])%string, w);
  path_exists _ w := (false, w)
}.
Definition observed : launch CandidateLiveContainmentObservation * unit := observe_live_containment 7 300000 "/jail" canary tt.
End Inheritor.
Import Inheritor.

Lemma inherited_canary_unnoticed_witness :
  stat_identity (under (under (Live.process 7) "fd") "3") tt = (Some canary, tt) /\
  all_entries (fun name => not_inherited canary (under (under (Live.process 7) "fd") name)) ["3"%string] tt = (Ok true, tt) /\
  match observed with (Ok o, _) => verify_containment o = Ok tt /\ inherited_descriptor_absent o = true | _ => False end.
Proof.
  split; [vm_compute; reflexivity|]. split; [|vm_compute; split; reflexivity].
  destruct (all_entries (fun name => not_inherited canary (under (under (Live.process 7) "fd") name)) ["3"%string] tt) as [r []] eqn:E.
  assert (forall p w i w', entry_identity p w = (Some i, w') -> i.1 = 5) as Hp by (intros p w i w' Hi; injection Hi as <-; reflexivity).
  destruct (inherited_canary_unnoticed 5 canary (under (under (Live.process 7) "fd")) ["3"%string] tt r tt Hp ltac:(discriminate) E)
    as [Hr|(_ & name & w0 & w1 & _ & Hn)]; [by rewrite Hr|discriminate Hn].
Defined.
