(* ===== verification/Fixture.v ===== *)
(** * The construction of a candidate ([prober-launcher/src/lib.rs], module [candidate_probe])

    Thirteen measured inputs copied into a private directory, the filters compiled twice,
    the secrets written into the image of the guest, everything read back, and the nine
    files of the launch measured.  Pinned files are those of [LinuxFiles], the tools are
    supervised as in [Launch]. *)

From S2P Require Import Prelude Cbor Sha256 Paths Schema Numbers Directory World LinuxFiles GuestResult Launch Landlock Probe Appraise.

(** What the code makes by path beside [LaunchHost]; [create_file] opens with
    [create_new], writes and syncs. *)
Class FixtureHost (W : Type) := {
  environment_variable : string -> W -> option string * W;
  create_dir : string -> W -> option unit * W;
  set_mode : string -> Z -> W -> option unit * W;
  create_file : string -> list byte -> W -> option unit * W;
  rename : string -> string -> W -> option unit * W;
  remove_file : string -> W -> option unit * W;
  remove_tree : string -> W -> option unit * W
}.

Definition WORK_ROOT : string := "/var/lib/keep/native-prober-candidate".
(** The text with an apostrophe for each quotation mark. *)
Definition quoted (s : string) : list byte := map (fun b => if bool_decide (b = x27) then x22 else b) (str_bytes s).
Definition CANDIDATE_REQUEST_SCRIPT : list byte :=
  str_bytes "#!/bin/sh" ++ [x0a] ++ str_bytes "set -eu" ++ [x0a] ++ str_bytes "printf 'ok 1 - native-prober-candidate\n'" ++ [x0a].
Definition DENIAL_FILTER : string := "{'default_action':'trap','filter_action':'allow','filter':[{'syscall':'exit'},{'syscall':'exit_group'}]}".
Definition SECCOMP_DENIAL_CANARY_SOURCE : list byte :=
  quoted ("{'vmm':" +:+ DENIAL_FILTER +:+ ",'api':" +:+ DENIAL_FILTER +:+ ",'vcpu':" +:+ DENIAL_FILTER +:+ "}") ++ [x0a].
Definition fixed_firecracker_config : list byte :=
  quoted ("{'boot-source':{'kernel_image_path':'/vmlinux'," +:+
    "'boot_args':'init=/keep-init ro console=ttyS0 reboot=k panic=1 pci=off quiet 8250.nr_uarts=1 keep.max_output=" +:+
    number MAXIMUM_OUTPUT_BYTES +:+ " keep.fsize=" +:+ number MAXIMUM_FILE_BYTES +:+ " keep.pids=" +:+ number MAXIMUM_PIDS +:+ "'}," +:+
    "'drives':[{'drive_id':'rootfs','path_on_host':'/rootfs.ext4','is_root_device':true,'is_read_only':true}," +:+
    "{'drive_id':'project','path_on_host':'/project.ext4','is_root_device':false,'is_read_only':false}]," +:+
    "'machine-config':{'vcpu_count':" +:+ number GUEST_VCPU_COUNT +:+ ",'mem_size_mib':" +:+ number (GUEST_MEMORY_BYTES / MIB) +:+ "}}") ++ [x0a].

(** ** The inputs *)

Inductive SourceRoot : Set := Runtime | Build | Images | Assets | Tools | Configuration.
Record Input : Set := mkInput {
  input_destination : string;
  input_root : SourceRoot;
  input_source : string;
  input_maximum : Z;
  input_mode : Z;
  expected_sha256 : string
}.
Definition inputs : list Input :=
  [mkInput "jailer" Runtime "jailer-v1.16.1-x86_64" (4 * MIB) 320 "1f3a0c1fe86212d0001819bfe0819071c01208b3ccc9398c3b3bc1b84cf21edd";
   mkInput "firecracker-vmm" Runtime "firecracker-v1.16.1-x86_64" (8 * MIB) 320 "2fd0171309af7e24cf8dafc8a6f921c1434c49b5f9349bb996b7ed0a4deb8aa7";
   mkInput "seccomp-source.json" Runtime "seccomp-filter-v1.16.1-x86_64.json" (64 * 1024) 256 "1b683d5c9fc51174ab1926b84aaf10dc2164678f6c2fe7c38a910556d7b5dc39";
   mkInput "seccompiler" Runtime "seccompiler-bin-v1.16.1-x86_64" (2 * MIB) 320 "0a6d20e734f0e6c1d9cf8372fdc478675f301219c141064e4cea9c0582e37cc8";
   mkInput "firecracker-SHA256SUMS" Runtime "SHA256SUMS" 4096 256 "3a1f96bf847c561604f62f632f63ed40f28325dafbef8b2eb0cb6625aa51ff86";
   mkInput "firecracker" Build "keep-native-prober-vmm-shim.installed" (8 * MIB) 320 "2fbf4165b6c14a7602a56004bb5a27bbb1413a367bd4fa2cff1be047e8ec207a";
   mkInput "vmlinux" Images "vmlinux" (64 * MIB) 256 "e20e46d0c36c55c0d1014eb20576171b3f3d922260d9f792017aeff53af3d4f2";
   mkInput "rootfs.ext4" Images "rootfs-keep.ext4" (600 * MIB) 384 "01e8f08e33987f653aa4b6b3edc2dd1c6d1ef311d1539c6d33abc3acc56cf5a3";
   mkInput "keep-init" Assets "keep-init" MIB 320 "4a68a4bb07b2699af22b2137d65ba0040c9639d5c2bce01dc9905d7c0240da32";
   mkInput "debugfs" Tools "debugfs" (2 * MIB) 320 "1e83118cc9582afcad2711fbb7f40f56668adccb386d988cb6d9ad5c2d001049";
   mkInput "mke2fs" Tools "mke2fs" (2 * MIB) 320 "07cd24ce58a410cc9cee93c55ae5ac95986df016c5907dc7a49b55389bd41ed2";
   mkInput "e2fsck" Tools "e2fsck" (2 * MIB) 320 "c69c6315f602d389821b3a1dab1308618616259400f2cf5d997243c4a83c284c";
   mkInput "mke2fs.conf" Configuration "mke2fs.conf" (64 * 1024) 256 "def9e1d4dbf51f44c51303349338086cf23d60c3cc7e9e99442ee554eb9f5de6"]%string.
Definition RELEASE_EQUATIONS : list string :=
  ["1b683d5c9fc51174ab1926b84aaf10dc2164678f6c2fe7c38a910556d7b5dc39  ./seccomp-filter-v1.16.1-x86_64.json";
   "0a6d20e734f0e6c1d9cf8372fdc478675f301219c141064e4cea9c0582e37cc8  ./seccompiler-bin-v1.16.1-x86_64"]%string.
(** The files of the launch and their bounds. *)
Definition measured_names : list (string * Z) :=
  [("jailer", 4 * MIB); ("firecracker", 8 * MIB); ("firecracker-vmm", 8 * MIB); ("vmlinux", 64 * MIB); ("rootfs.ext4", 600 * MIB);
   ("project.ext4", 128 * MIB); ("config.json", 16 * 1024); ("seccomp.bpf", 4096); ("seccomp-canary.bpf", 4096)]%string.
(** The commands that put the guest into its image. *)
Definition image_commands (root : string) : list string :=
  ["rm /keep-init"; "rm /keep-secrets/nonce"; "rm /keep-secrets/ipad"; "rm /keep-secrets/opad"; "rmdir /keep-secrets";
   "write " +:+ under root "keep-init" +:+ " /keep-init"; "mkdir /keep-secrets"; "write " +:+ under root "nonce" +:+ " /keep-secrets/nonce";
   "write " +:+ under root "ipad" +:+ " /keep-secrets/ipad"; "write " +:+ under root "opad" +:+ " /keep-secrets/opad";
   "set_inode_field /keep-init mode 0100755"; "set_inode_field /keep-secrets mode 040700"; "set_inode_field /keep-secrets/nonce mode 0100600";
   "set_inode_field /keep-secrets/ipad mode 0100600"; "set_inode_field /keep-secrets/opad mode 0100600"]%string.
(** An object of an image: the image, its path, whether it is a regular file, its mode. *)
Definition guest_objects : list (string * string * bool * string) :=
  [("rootfs.ext4", "/keep-init", true, "0755"); ("rootfs.ext4", "/keep-secrets", false, "0700"); ("rootfs.ext4", "/keep-secrets/nonce", true, "0600");
   ("rootfs.ext4", "/keep-secrets/ipad", true, "0600"); ("rootfs.ext4", "/keep-secrets/opad", true, "0600");
   ("project.ext4", "/.keep", false, "0700"); ("project.ext4", "/.keep/request.sh", true, "0700")]%string.
Definition contains_text (needle : string) (text : list byte) : bool := has_window (str_bytes needle) text.
Definition object_exact (regular : bool) (mode : string) (text : list byte) : bool :=
  contains_text ("Type: " +:+ (if regular then "regular" else "directory")) text && contains_text ("Mode:  " +:+ mode) text
  && contains_text "User:     0   Group:     0" text && (negb regular || contains_text "Links: 1" text).

Section fixture.
Context {F S W : Type} {HK : Kernel F W} {HC : Clock W} {HL : LaunchHost W} {HF : FixtureHost W} {HD : DirectProcess S W} {HX : ExitStatus S}.
Abbreviation io A := (Probe.io W A).

(** ** Tools *)

Definition tool_output (root stream : string) (sequence : Z) : string := under root ("tool-" +:+ number sequence +:+ "-" +:+ stream).
Definition or_empty (o : option (list byte)) : list byte := match o with Some bytes => bytes | None => [] end.
Definition run_image_tool (executable : string) (arguments : list string) (environment : list (string * string)) (root : string)
    (sequence : Z) (deadline : CandidateDeadline) : io (list byte) :=
  let stdout_path := tool_output root "stdout" sequence in
  let stderr_path := tool_output root "stderr" sequence in
  let! _ := sys (create_output stdout_path) in
  let! _ := sys (create_output stderr_path) in
  let! _ := sys (spawn executable arguments environment root) in
  let! result := fun w => let '(r, w) := wait_bounded deadline (2 * MIB) w in (boxed r, w) in
  let! stdout_bytes := total (read_bytes stdout_path) in
  let! stderr_tail := total (read_bytes stderr_path) in
  let! _ := total (remove_file stdout_path) in
  let! _ := total (remove_file stderr_path) in
  refuse_if negb (success (status result)) with ToolFailed (or_empty stderr_tail) ;;
  io_ret (or_empty stdout_bytes).
Definition debugfs (root : string) (arguments : list string) (sequence : Z) (deadline : CandidateDeadline) : io (list byte) :=
  run_image_tool (under root "debugfs") arguments [] root sequence deadline.
(** [for (index, x) in l.enumerate()], the sequence number counting with it. *)
Fixpoint each {A : Type} (turn : Z -> A -> io unit) (sequence : Z) (l : list A) : io unit :=
  match l with [] => io_ret tt | a :: l => let! _ := turn sequence a in each turn (sequence + 1) l end.

(** ** Staging *)

Record Roots : Type := mkRoots { runtime : PinnedDir F; native_build : PinnedDir F; images : PinnedDir F; assets : PinnedDir F; tools : PinnedDir F; configuration : PinnedDir F }.
Definition root_of (roots : Roots) (r : SourceRoot) : PinnedDir F :=
  match r with
  | Runtime => runtime roots | Build => native_build roots | Images => images roots | Assets => assets roots
  | Tools => tools roots | Configuration => configuration roots
  end.
Definition required_variable (name : string) : io string :=
  fun w => match environment_variable name w with
           | (Some value, w) => (Ok value, w)
           | (None, w) => (Err (Error (Message (name +:+ " is required for this host fixture"))), w)
           end.
Definition open_roots : io Roots :=
  let! runtime_root := required_variable "KEEP_FIRECRACKER_RUNTIME_DIR" in
  let! images_root := required_variable "KEEP_FIRECRACKER_IMAGES_DIR" in
  let! runtime := files (open runtime_root) in
  let! images := files (open images_root) in
  let! tools := files (open "/usr/sbin") in
  let! configuration := files (open "/etc") in
  let! assets_root := required_variable "KEEP_FIRECRACKER_ASSETS_DIR" in
  let! build_root := required_variable "KEEP_NATIVE_FIXTURE_BUILD_DIR" in
  let! assets := files (open assets_root) in
  let! build := files (open build_root) in
  io_ret (mkRoots runtime build images assets tools configuration).
Definition stage_fixture_input (fuel : nat) (roots : Roots) (attempt : PinnedDir F) (input : Input) : io unit :=
  let! source := files (open_regular_file (root_of roots (input_root input)) (input_source input) (input_maximum input)) in
  let! observed := files (measure_pinned_file source (input_maximum input)) in
  refuse_if negb (bool_decide (bytes_hex observed = expected_sha256 input))
    with Message ("installed candidate input measurement differs: " +:+ input_destination input) ;;
  let! _ := files (stage_private_copy fuel attempt (input_destination input) source (input_maximum input) (input_mode input)) in
  io_ret tt.
Fixpoint stage_all (fuel : nat) (roots : Roots) (attempt : PinnedDir F) (l : list Input) : io unit :=
  match l with
  | [] => io_ret tt
  | input :: l => let! _ := stage_fixture_input fuel roots attempt input in stage_all fuel roots attempt l
  end.
Definition nonce_bytes (s : CandidateFixtureSecrets) : list byte := str_bytes (result_nonce s) ++ [x0a].
Definition ipad_bytes (s : CandidateFixtureSecrets) : list byte := str_bytes (bytes_hex (authentication_ipad s)) ++ [x0a].
Definition opad_bytes (s : CandidateFixtureSecrets) : list byte := str_bytes (bytes_hex (authentication_opad s)) ++ [x0a].
(** The secrets, the configuration and the request of the project. *)
Definition stage_texts (attempt : PinnedDir F) (root : string) (s : CandidateFixtureSecrets) (request_script : list byte) : io unit :=
  let! _ := files (stage_private_file attempt "nonce" (nonce_bytes s) 128 256) in
  let! _ := files (stage_private_file attempt "ipad" (ipad_bytes s) 256 256) in
  let! _ := files (stage_private_file attempt "opad" (opad_bytes s) 256 256) in
  let! _ := files (stage_private_file attempt "config.json" fixed_firecracker_config (16 * 1024) 256) in
  let project_source := under root "project-source" in
  let keep_source := under project_source ".keep" in
  let! _ := sys (create_dir project_source) in
  let! _ := sys (create_dir keep_source) in
  let! _ := sys (set_mode project_source 493) in
  let! _ := sys (set_mode keep_source 448) in
  let request_path := under keep_source "request.sh" in
  let! _ := sys (create_file request_path request_script) in
  let! _ := sys (set_mode request_path 448) in
  let! _ := files (stage_private_file attempt "project.ext4" [] 1 384) in
  io_ret tt.

(** ** The filters *)

Definition compile_filter (root input output : string) (deadline : CandidateDeadline) (sequence : Z) : io unit :=
  let! _ := run_image_tool (under root "seccompiler")
              ["--target-arch"; "x86_64"; "--input-file"; under root input; "--output-file"; under root output]%string [] root sequence deadline in
  io_ret tt.
Definition release_exact (manifest : string) : bool :=
  forallb (fun expected => (length (List.filter (fun line => bool_decide (line = expected)) (lines manifest)) =? 1)%nat) RELEASE_EQUATIONS.
(** The two outputs are kept as one, read-only. *)
Definition keep_filter (root first second kept : string) : io unit :=
  let! _ := sys (rename (under root first) (under root kept)) in
  let! _ := sys (remove_file (under root second)) in
  sys (set_mode (under root kept) 256).
Definition seccomp_exact (bytes : list byte) : io bool :=
  let! digest := if negb (len bytes =? 3162) then io_ret [] else pure (ok_or (Streaming.hash_pieces [bytes]) Panic) in
  io_ret ((len bytes =? 3162) && bool_decide (bytes_hex digest = COMPILED_POLICY)).
Definition compile_filters (attempt : PinnedDir F) (root : string) (deadline : CandidateDeadline) : io unit :=
  let! manifest := sys (read_text (under root "firecracker-SHA256SUMS")) in
  refuse_if negb (release_exact manifest) with Message "Firecracker release manifest seccomp equation differs" ;;
  let! _ := compile_filter root "seccomp-source.json" "seccomp-a.bpf" deadline 0 in
  let! _ := compile_filter root "seccomp-source.json" "seccomp-b.bpf" deadline 1 in
  let! bytes := sys (read_bytes (under root "seccomp-a.bpf")) in
  let! exact := seccomp_exact bytes in
  let! same := if negb exact then io_ret false else let! other := sys (read_bytes (under root "seccomp-b.bpf")) in io_ret (bool_decide (bytes = other)) in
  refuse_if negb same with Message "Firecracker seccomp compilation is not exact deterministic output" ;;
  let! _ := keep_filter root "seccomp-a.bpf" "seccomp-b.bpf" "seccomp.bpf" in
  let! _ := files (stage_private_file attempt "seccomp-canary.json" SECCOMP_DENIAL_CANARY_SOURCE 4096 256) in
  let! _ := compile_filter root "seccomp-canary.json" "seccomp-canary-a.bpf" deadline 2 in
  let! _ := compile_filter root "seccomp-canary.json" "seccomp-canary-b.bpf" deadline 3 in
  let! first := sys (read_bytes (under root "seccomp-canary-a.bpf")) in
  let! second := sys (read_bytes (under root "seccomp-canary-b.bpf")) in
  refuse_if negb (bool_decide (first = second)) with Message "Firecracker seccomp denial-canary compilation is nondeterministic" ;;
  keep_filter root "seccomp-canary-a.bpf" "seccomp-canary-b.bpf" "seccomp-canary.bpf".

(** ** The images *)

Definition build_images (root : string) (deadline : CandidateDeadline) : io unit :=
  let staged_rootfs := under root "rootfs.ext4" in
  let project := under root "project.ext4" in
  let! _ := each (fun sequence command => let! _ := debugfs root ["-w"; "-R"; command; staged_rootfs]%string sequence deadline in io_ret tt)
              4 (image_commands root) in
  let! _ := run_image_tool (under root "e2fsck") ["-fy"; staged_rootfs]%string [] root 19 deadline in
  let! _ := run_image_tool (under root "mke2fs")
              ["-q"; "-F"; "-t"; "ext4"; "-d"; under root "project-source"; project; "65536K"]%string
              [("MKE2FS_CONFIG", under root "mke2fs.conf"); ("LC_ALL", "C")]%string root 20 deadline in
  let! _ := run_image_tool (under root "e2fsck") ["-fn"; project]%string [] root 21 deadline in
  io_ret tt.
(** The object dumped from the image. *)
Definition read_back (root image guest output : string) (deadline : CandidateDeadline) (sequence : Z) : io (list byte) :=
  let! _ := debugfs root ["-R"; "dump " +:+ guest +:+ " " +:+ under root output; under root image]%string sequence deadline in
  sys (read_bytes (under root output)).
Definition read_secret (root : string) (deadline : CandidateDeadline) (sequence : Z) (secret : string * list byte) : io unit :=
  let! actual := read_back root "rootfs.ext4" ("/keep-secrets/" +:+ secret.1) ("readback-" +:+ secret.1) deadline sequence in
  refuse_if negb (bool_decide (actual = secret.2)) with Message "constructed rootfs authentication material readback differs" ;;
  io_ret tt.
Definition read_object (root : string) (deadline : CandidateDeadline) (sequence : Z) (object : string * string * bool * string) : io unit :=
  let '(image, guest, regular, mode) := object in
  let! text := debugfs root ["-R"; "stat " +:+ guest; under root image]%string sequence deadline in
  refuse_if negb (utf8_valid text) with SystemError ;;
  refuse_if negb (object_exact regular mode text) with Message ("constructed guest object identity differs: " +:+ guest) ;;
  io_ret tt.
Definition verify_images (root : string) (s : CandidateFixtureSecrets) (request_script : list byte) (deadline : CandidateDeadline) : io unit :=
  let! actual := read_back root "rootfs.ext4" "/keep-init" "readback-keep-init" deadline 22 in
  let! init := sys (read_bytes (under root "keep-init")) in
  refuse_if negb (bool_decide (actual = init)) with Message "constructed rootfs guest init readback differs" ;;
  let! request := read_back root "project.ext4" "/.keep/request.sh" "readback-request" deadline 23 in
  refuse_if negb (bool_decide (request = request_script)) with Message "constructed project request readback differs" ;;
  let! _ := each (read_secret root deadline) 24 [("nonce", nonce_bytes s); ("ipad", ipad_bytes s); ("opad", opad_bytes s)]%string in
  each (read_object root deadline) 27 guest_objects.

(** ** The measurements of the launch *)

Fixpoint measure_all (completed : PinnedDir F) (names : list (string * Z)) : io (list (string * list byte)) :=
  match names with
  | [] => io_ret []
  | (name, maximum) :: names =>
      let! captured := files (open_regular_file completed name maximum) in
      let! digest := files (measure_pinned_file captured maximum) in
      let! rest := measure_all completed names in
      io_ret ((name, digest) :: rest)
  end.
(** After the attempt directory is made: an error removes it. *)
Definition fill_attempt (fuel : nat) (attempt : PinnedDir F) (root : string) (s : CandidateFixtureSecrets) (request_script : list byte) :
    io (list (string * list byte)) :=
  let! roots := open_roots in
  let! _ := stage_all fuel roots attempt inputs in
  let! _ := stage_texts attempt root s request_script in
  let! t := total now in
  let! deadline := pure (boxed (start t MAXIMUM_LAUNCH_MILLISECONDS)) in
  let! _ := compile_filters attempt root deadline in
  let! _ := build_images root deadline in
  let! _ := verify_images root s request_script deadline in
  let! _ := sys (remove_tree (under root "project-source")) in
  let! completed := files (open root) in
  measure_all completed measured_names.
Definition drop_fixture (root : string) (w : W) : W := (remove_tree root w).2.
(** The attempt directory and its secrets. *)
Definition open_attempt (fuel : nat) : io (PinnedDir F * CandidateFixtureSecrets) :=
  let! metadata := sys (private_root WORK_ROOT) in
  refuse_if negb (root_private metadata) with Message "native PROBER candidate work root is not private root-owned storage" ;;
  let! random := files (fill_random fuel 64) in
  let! s := pure (mint_candidate_fixture_secrets (Error SystemError) (Ok random)) in
  let! work := files (open WORK_ROOT) in
  let! attempt := files (create_private_directory work (attempt_id s)) in
  io_ret (attempt, s).
(** [fuel] bounds the comparison of a copy with its source, and the turns of the kernel
    randomness. *)
Definition construct_authenticated_fixture_with_request (fuel : nat) (request_script : list byte) : io ConstructedCandidateFixture :=
  let! (attempt, s) := open_attempt fuel in
  let root := under WORK_ROOT (attempt_id s) in
  let! measurements := on_error (drop_fixture root) (fill_attempt fuel attempt root s request_script) in
  io_ret (mkFixture root s measurements).
Definition construct_authenticated_fixture (fuel : nat) : io ConstructedCandidateFixture :=
  construct_authenticated_fixture_with_request fuel CANDIDATE_REQUEST_SCRIPT.
End fixture.
