(* ===== verification/FixtureFacts.v ===== *)
(** * Theorems on the construction of a candidate

    [Construction]: what a constructed candidate is made of, and what the launch finds. *)

From S2P Require Import Prelude Cbor Sha256 Paths TextFacts Schema SchemaFacts Numbers Directory World LinuxFiles LinuxFacts GuestResult Launch Landlock Probe ProbeFacts Appraise AppraiseFacts Fixture.

Import Ended.

Module Construction.
Section construction.
Context {F S W : Type} {HK : Kernel F W} {HC : Clock W} {HL : LaunchHost W} {HF : FixtureHost W} {HD : DirectProcess S W} {HX : ExitStatus S}.
Implicit Types w : W.

(** The input was measured, within its bound, to the digest that the code names. *)
Definition pinned_input (input : Input) : Prop :=
  exists bytes digest, OneShot.sha256 bytes = Some digest /\ bytes_hex digest = expected_sha256 input /\ len bytes <= input_maximum input.
Lemma stage_all_ok fuel roots attempt l w w' :
  Forall (fun input => 8 * input_maximum input <= u64_max) l -> stage_all fuel roots attempt l w = (Ok tt, w') -> Forall pinned_input l.
Proof.
  revert w. induction l as [|input l IH]; intros w Hm; cbn [stage_all]; [constructor|]. apply Forall_cons in Hm as [Hm0 Hm].
  intros ([] & w1 & H1 & Hr)%io_bind_ok. constructor; [|by eapply IH]. unfold stage_fixture_input in H1.
  apply io_bind_ok in H1 as (source & w2 & _ & H1). apply io_bind_ok in H1 as (observed & w3 & Ho%files_ok & H1).
  apply io_guard_ok in H1 as [He%negb_false_iff%bool_decide_eq_true _]. apply Measured.measure_ok in Ho as (bytes & Hd & _ & Hle); [|done].
  by exists bytes, observed.
Qed.
Definition measured_file (name : string * Z) (entry : string * list byte) : Prop :=
  entry.1 = name.1 /\ exists bytes, OneShot.sha256 bytes = Some entry.2 /\ len bytes <= name.2.
Lemma measure_all_ok completed names w l w' :
  Forall (fun name : string * Z => 8 * name.2 <= u64_max) names -> measure_all completed names w = (Ok l, w') -> Forall2 measured_file names l.
Proof.
  revert w l. induction names as [|[name maximum] names IH]; intros w l Hm; cbn [measure_all]; [intros [= <- _]; constructor|].
  apply Forall_cons in Hm as [Hm0 Hm]. intros (captured & w1 & _ & Hr)%io_bind_ok. apply io_bind_ok in Hr as (digest & w2 & Hd%files_ok & Hr).
  apply io_bind_ok in Hr as (rest & w3 & Hrest & [= <- ->]). apply Measured.measure_ok in Hd as (bytes & Hd & _ & Hle); [|done].
  constructor; [|exact (IH _ _ Hm Hrest)]. split; [done|by exists bytes].
Qed.
Lemma each_ok {A} (turn : Z -> A -> Probe.io W unit) n l w w' : each turn n l w = (Ok tt, w') ->
  Forall (fun a => exists k w0 w1, turn k a w0 = (Ok tt, w1)) l.
Proof.
  revert n w. induction l as [|a l IH]; intros n w; cbn [each]; [constructor|]. intros ([] & w1 & H1 & Hr)%io_bind_ok.
  constructor; [by exists n, w, w1|by eapply IH].
Qed.

(** What was read from a file. *)
Definition holds (path : string) (bytes : list byte) : Prop := exists w w', read_bytes path w = (Some bytes, w').
Lemma read_back_ok root image guest output deadline n w bytes w' :
  read_back (S := S) root image guest output deadline n w = (Ok bytes, w') -> holds (under root output) bytes.
Proof. unfold read_back. intros (? & w1 & _ & Hr%sys_ok)%io_bind_ok. by exists w1, w'. Qed.
Definition secret_texts (s : CandidateFixtureSecrets) : list (string * list byte) :=
  [("nonce", nonce_bytes s); ("ipad", ipad_bytes s); ("opad", opad_bytes s)]%string.
Lemma verify_images_ok root s request deadline w w' : verify_images (S := S) root s request deadline w = (Ok tt, w') ->
  (exists init, holds (under root "readback-keep-init") init /\ holds (under root "keep-init") init) /\
  holds (under root "readback-request") request /\
  Forall (fun secret : string * list byte => holds (under root ("readback-" +:+ secret.1)) secret.2) (secret_texts s) /\
  Forall (fun object : string * string * bool * string => exists text, object_exact object.1.2 object.2 text = true) guest_objects.
Proof.
  unfold verify_images. intros (actual & w1 & Ha%read_back_ok & Hr)%io_bind_ok. apply io_bind_ok in Hr as (init & w2 & Hi%sys_ok & Hr).
  apply io_guard_ok in Hr as [->%negb_false_iff%bool_decide_eq_true Hr]. apply io_bind_ok in Hr as (req & w3 & Hq%read_back_ok & Hr).
  apply io_guard_ok in Hr as [->%negb_false_iff%bool_decide_eq_true Hr]. apply io_bind_ok in Hr as ([] & w4 & Hs%each_ok & Ho%each_ok).
  split_and!; [exists init; split; [done|by exists w1, w2]|done| |].
  - eapply Forall_impl; [exact Hs|]. intros [name bytes] (k & v & v' & Hk). unfold read_secret in Hk.
    apply io_bind_ok in Hk as (text & w5 & Ht%read_back_ok & Hk). apply io_guard_ok in Hk as [->%negb_false_iff%bool_decide_eq_true _]. done.
  - eapply Forall_impl; [exact Ho|]. intros [[[image guest] regular] mode] (k & v & v' & Hk). unfold read_object in Hk.
    apply io_bind_ok in Hk as (text & w5 & _ & Hk). apply io_guard_ok in Hk as [_ Hk]. apply io_guard_ok in Hk as [Hx%negb_false_iff _].
    by exists text.
Qed.
Lemma compile_filters_ok attempt root deadline w w' : compile_filters (S := S) attempt root deadline w = (Ok tt, w') ->
  exists bytes digest, holds (under root "seccomp-a.bpf") bytes /\ holds (under root "seccomp-b.bpf") bytes /\ len bytes = 3162 /\
    OneShot.sha256 bytes = Some digest /\ bytes_hex digest = COMPILED_POLICY.
Proof.
  unfold compile_filters. intros (manifest & w1 & _ & Hr)%io_bind_ok. apply io_guard_ok in Hr as [_ Hr].
  do 2 apply io_bind_ok in Hr as (? & ? & _ & Hr). apply io_bind_ok in Hr as (bytes & w2 & Hb%sys_ok & Hr).
  apply io_bind_ok in Hr as (exact & w3 & Hx & Hr). apply io_bind_ok in Hr as (same & w4 & Hs & Hr). apply io_guard_ok in Hr as [->%negb_false_iff _].
  destruct exact; cbn [negb] in Hs; [|done]. apply io_bind_ok in Hs as (other & w5 & Ho%sys_ok & [= Hs%bool_decide_eq_true _]). subst other.
  unfold seccomp_exact in Hx. apply io_bind_ok in Hx as (digest & w6 & Hd & [= [Hl%Z.eqb_eq He%bool_decide_eq_true]%andb_true_iff _]).
  rewrite Hl in Hd. apply pure_ok in Hd as [Hd%ok_or_ok _]. exists bytes, digest.
  split_and!; [by eexists _, _|by eexists _, _|done| |done].
  rewrite Facts.hash_pieces_sha256 in Hd; [cbn [concat] in Hd; by rewrite app_nil_r in Hd|cbn [concat]; rewrite app_nil_r, Hl; done].
Qed.

(** What a constructed candidate is made of. *)
Record constructed (request : list byte) (fixture : ConstructedCandidateFixture) : Prop := {
  constructed_root : fixture_root fixture = under WORK_ROOT (attempt_id (secrets fixture));
  constructed_secrets : exists random, mint_candidate_fixture_secrets tt (Ok random) = Ok (secrets fixture);
  constructed_inputs : Forall pinned_input inputs;
  constructed_filter : exists bytes digest, holds (under (fixture_root fixture) "seccomp-a.bpf") bytes /\
    holds (under (fixture_root fixture) "seccomp-b.bpf") bytes /\ len bytes = 3162 /\ OneShot.sha256 bytes = Some digest /\ bytes_hex digest = COMPILED_POLICY;
  constructed_images : (exists init, holds (under (fixture_root fixture) "readback-keep-init") init /\ holds (under (fixture_root fixture) "keep-init") init) /\
    holds (under (fixture_root fixture) "readback-request") request /\
    Forall (fun secret : string * list byte => holds (under (fixture_root fixture) ("readback-" +:+ secret.1)) secret.2) (secret_texts (secrets fixture)) /\
    Forall (fun object : string * string * bool * string => exists text, object_exact object.1.2 object.2 text = true) guest_objects;
  constructed_measurements : Forall2 measured_file measured_names (launch_measurements fixture)
}.
Lemma mint_error {E E'} (e : E) (e' : E') random s : mint_candidate_fixture_secrets e (Ok random) = Ok s -> mint_candidate_fixture_secrets e' (Ok random) = Ok s.
Proof. unfold mint_candidate_fixture_secrets. cbn [res_bind]. destruct (from_nonce_hex _); cbn [map_err res_bind]; [by intros [= <-]|done]. Qed.
Lemma construct_ok fuel request w fixture w' :
  construct_authenticated_fixture_with_request (S := S) fuel request w = (Ok fixture, w') -> constructed request fixture.
Proof.
  intros Hr. unfold construct_authenticated_fixture_with_request in Hr. apply io_bind_ok in Hr as ([attempt s] & w1 & Ho & Hr).
  apply io_bind_ok in Hr as (l & w2 & Hf%on_error_ok & [= <- _]). unfold fill_attempt in Hf.
  apply io_bind_ok in Hf as (roots & w3 & _ & Hf). apply io_bind_ok in Hf as ([] & w4 & Hs%stage_all_ok & Hf); [|repeat constructor; done].
  apply io_bind_ok in Hf as (? & w5 & _ & Hf). apply io_bind_ok in Hf as (t & w6 & _ & Hf). apply io_bind_ok in Hf as (deadline & w7 & _ & Hf).
  apply io_bind_ok in Hf as ([] & w8 & Hc%compile_filters_ok & Hf). apply io_bind_ok in Hf as (? & w9 & _ & Hf).
  apply io_bind_ok in Hf as ([] & w10 & Hv%verify_images_ok & Hf). do 2 apply io_bind_ok in Hf as (? & ? & _ & Hf).
  apply measure_all_ok in Hf; [|repeat constructor; done]. constructor; try done. cbn [secrets].
  unfold open_attempt in Ho. apply io_bind_ok in Ho as (? & ? & _ & Ho). apply io_guard_ok in Ho as [_ Ho].
  apply io_bind_ok in Ho as (random & v & _ & Ho). apply io_bind_ok in Ho as (s' & v' & [Hm _]%pure_ok & Ho).
  do 2 apply io_bind_ok in Ho as (? & ? & _ & Ho). injection Ho as _ -> _. exists random. by eapply mint_error.
Qed.
End construction.
(** Every file that the launch looks for has been measured, under the same bound. *)
Lemma measured_found names fixture name maximum : Forall2 measured_file names (launch_measurements fixture) ->
  List.find (fun n : string * Z => bool_decide (n.1 = name)) names = Some (name, maximum) -> authentic fixture name maximum.
Proof.
  unfold authentic. generalize (launch_measurements fixture). intros l. induction 1 as [|[n m] [e digest] names l [E (bytes & Hd & Hle)] _ IH]; [done|].
  cbn in *. subst e. case_bool_decide as En; [|exact IH]. intros [= -> ->]. by exists bytes, digest.
Qed.
Lemma all_found fixture canary : Forall2 measured_file measured_names (launch_measurements fixture) -> staged fixture canary.
Proof.
  intros H. split; [|split]; [by eapply measured_found..|]. destruct canary; repeat (constructor; [by eapply measured_found|]); constructor.
Qed.
End Construction.
Import Construction.

